(* ===== verification/_CoqProject ===== *)
-Q . S2P
Prelude.v
BackingStore.v
WearLeveling.v
WearLevelingLog.v
WearLevelingProofs.v
WearLevelingRefine.v
WearLevelingCrash.v
Eeprom.v
DynamicKeymap.v
KeymapSlots.v
KeymapBuffer.v
MacroSend.v
Eeconfig.v
QmkSettings.v
QmkSettingsProofs.v
Vial.v
Via.v
ViaReset.v
VialDance.v
ViaLock.v
Debounce.v
DebounceCells.v
DebounceAutomata.v
DebounceProofs.v
DebounceTheorems.v
DebounceRows.v
Bitwise.v
KeycodeConfig.v
KeymapCommon.v
ActionLayer.v
Report.v
Keyboard.v
DeferredExec.v
DeferredExecProofs.v
Encoder.v
EncoderProofs.v
KeyboardTask.v
Combo.v
ComboProofs.v
ComboTheorems.v
ComboChord.v
ComboLedger.v
ActionTapping.v
TappingProofs.v
TappingTheorems.v
TappingReplay.v
MouseKey.v
ActionUtil.v
HostReports.v
Strokes.v
TapDance.v
TapDanceProofs.v
KeyOverride.v
AutoShift.v
KeyProcessors.v
KeyModes.v
SendText.v
Autocorrect.v
Action.v
Quantum.v
ActionProofs.v
DualRole.v
DualRoleTheorems.v
ComboExec.v
KeyProcessorsProofs.v
DynamicMacro.v
DynamicMacroProofs.v
KeyOverrideProofs.v
AutoShiftProofs.v
KeyboardTaskProofs.v
KeyModesProofs.v
SendTextProofs.v
AutocorrectProofs.v
