(* ===== verification/Prelude.v ===== *)
(** * Verification of the QMK/Vial keyboard firmware

    This library models the core of the firmware under [src/]: how the
    configuration of a keyboard is stored and protected, how a host changes it,
    how the key matrix is debounced and becomes key events, and how a key becomes
    an action, a layer change, a macro and a report. Each definition is a translation of the C function of
    the same name; the functions take the state they use and return the state
    they leave. The theorems that state what the firmware does are numbered
    [C1], [C2], ... in their comments.

    ** The firmware and its parts

    From the flash up:

    - [BackingStore], [WearLeveling*]: [quantum/wear_leveling/wear_leveling.c],
      an EEPROM emulated in flash: a consolidated copy followed by a checksum
      and a log of changes. [WearLeveling] holds the definitions; the state
      [wl_state] is the [wear_leveling] structure with the flash behind it. The
      flash is any implementation of the class [BackingStore] with the laws
      [BackingStoreLaws]; [RamStore] is one, and records violations of the
      flash discipline. [WearLevelingLog] gives the log entries as a data type
      and their encoding, [WearLevelingProofs] the invariant, and
      [WearLevelingRefine] the refinement to an array of bytes that survives
      restarts. [WearLevelingCrash] is about writes that are cut short.
    - [Eeprom]: [drivers/eeprom/]: the access functions over the interface
      [Eeprom] of a driver, its laws [EepromLaws], and the transient and
      wear-leveling drivers as instances. Everything above is over any driver
      with the laws.
    - [DynamicKeymap], [KeymapSlots], [KeymapBuffer], [MacroSend]:
      [quantum/dynamic_keymap.c]: where keycodes, encoders, tap dances, combos,
      key overrides, settings and macros lie in the EEPROM, their getters and
      setters, bulk access with the filter of a locked keyboard, and the
      interpreter of macros.
    - [Eeconfig]: [quantum/eeconfig.c]: the fixed fields and the data blocks.
    - [QmkSettings], [QmkSettingsProofs]: [quantum/qmk_settings.c]: the table of
      run-time settings.
    - [Vial], [ViaLock], [VialDance]: [quantum/vial.c]: the lock, the commands
      of the host, the tables kept in RAM, and the tap-dance callbacks.
    - [Via], [ViaReset]: [quantum/via.c]: the reports of the host and the
      initialisation and reset of the stored configuration.

    From the switches up:

    - [Debounce*]: [quantum/debounce/*.c], one Module of [Debounce] per
      algorithm. [DebounceCells] shows that a pass over the matrix is a pass
      over each of its cells; [DebounceAutomata] studies the automaton of a
      cell; [DebounceProofs] connects the two; [DebounceTheorems] and
      [DebounceRows] state what a debounced keyboard reports.
    - [KeyboardTask], [KeyboardTaskProofs]: the main loop of [quantum/keyboard.c]:
      the events of changed keys, the ticks, and the order of the tasks; the
      proofs connect it to the debounced matrix. [Encoder], [EncoderProofs]:
      [quantum/encoder.c] and the quadrature driver, from pins to key events. The
      class [EventHost] is what both need of the rest of the firmware.
    - [DeferredExec], [DeferredExecProofs]: [quantum/deferred_exec.c]: callbacks
      that are called after a delay; the main loop runs their task.
    - [Keyboard]: key events and records ([quantum/keyboard.h], [quantum/action.h])
      and the interface between the tapping code and the rest of the firmware:
      the class [Firmware].
    - [Combo], [ComboProofs], [ComboTheorems], [ComboChord], [ComboLedger],
      [ComboExec]: [process_keycode/process_combo.c], which stands between the
      events and the tapping code. [ComboTheorems] keeps the bounds of its statics;
      [ComboChord] follows one combo from its keys to its release; [ComboLedger]
      keeps a ledger of the key presses and of what became of each; [ComboExec]
      puts the combos into [action_exec]. The class [ComboHost] is what the combo
      code calls.
    - [ActionTapping], [TappingProofs], [TappingTheorems], [TappingReplay]:
      [quantum/action_tapping.c], over any [Firmware]. [TappingProofs] keeps a
      ledger of the events, [TappingTheorems] states what decides between tap and
      hold, and [TappingReplay] shows that the ledger is exactly what happened to
      the rest of the firmware.
    - [ActionLayer]: [quantum/action_layer.c]: the layers and the cache of the
      layer each pressed key was taken from.
    - [KeymapCommon], [KeycodeConfig]: [quantum/keymap_common.c] and
      [quantum/keycode_config.c]: from a place in the keymap to a keycode and
      from a keycode to an action.
    - [Action], [ActionProofs]: [quantum/action.c]: [action_exec], which gives
      events to the tapping code, and [process_record], which performs the action
      of a record; together they are an instance of [Firmware].
    - [Quantum]: the dispatch of [quantum/quantum.c]: which features see a record
      before its action is performed. The features are the class [Features].
    - [DualRole], [DualRoleTheorems]: no code of their own: the parts above put
      together for mod-tap and layer-tap keys, from the switch to the host.
    - [ActionUtil], [HostReports]: [quantum/action_util.c] and the registration of
      keys: modifiers, one-shot keys, and the reports the host is sent. The state
      [kb] is what [Action] works on.
    - [TapDance], [TapDanceProofs]: [process_keycode/process_tap_dance.c], with the
      callbacks of [VialDance].
    - [KeyOverride], [KeyOverrideProofs]: [process_key_override.c], over [kb] and
      the overrides of [Vial].
    - [AutoShift], [AutoShiftProofs]: [process_auto_shift.c]; the proofs compare
      it with a model that has only the waiting key and the Shift key.
    - [KeyProcessors], [KeyProcessorsProofs]: a Module each for the space cadet
      keys, grave escape, the magic keys, the persistent default layer, tri layers
      and layer lock.
    - [DynamicMacro], [DynamicMacroProofs]: [process_dynamic_macro.c]: macros the
      user records, as a feature of [Quantum] whose replay runs the pipeline.
    - [KeyModes], [KeyModesProofs]: a Module each for the secure mode
      ([quantum/secure.c]), key lock, caps word and the leader key, with their
      processors.
    - [SendText], [SendTextProofs]: [quantum/send_string/] and [quantum/unicode/]:
      text as the keys of a layout, which is the class [TextLayout], UTF-8, and
      code points as what an input method reads. It also performs the calls that
      [DynamicKeymap] says a macro makes.
    - [Autocorrect], [AutocorrectProofs]: [process_autocorrect.c] with its default
      dictionary; the proofs read any table as a dictionary and compare the code
      with a writer that knows the dictionary.
    - [Strokes]: no code of its own: the keys a host reads in the reports of
      [HostReports]. The typing theorems of auto shift, caps word, text and
      autocorrection are about them.
    - [MouseKey]: [quantum/mousekey.c].
    - [Report]: [tmk_core/protocol/report.c]: the keys of a report.
    - [Bitwise]: [quantum/bitwise.c].

    ** Conventions

    An unsigned integer of [w] bits is a [Z] in [0, 2^w); [u8], [u16], [u32]
    and [u64] are the conversions, written where the C code converts. Bytes of
    memory are lists of such numbers; a structure that the code copies as bytes
    is such a list, with its fields at their offsets. A configuration option of
    the preprocessor that has a value is a field of a class ([WearLevelingConfig],
    [KeymapConfig], [DebounceConfig], ...), whose constraints are a class of
    their own. A loop with a fixed range is [for_Z]. A loop without one has
    fuel: [playback_fuel] is the number of words of the log, each step reads
    one at least; [macro_fuel] is the size of the macro area, each step reads a
    byte at least; the ring of waiting events holds fewer than
    [WAITING_BUFFER_SIZE] and each turn of its loop takes one or stops; the
    loops over the rings of combos and encoder events have one turn for each slot
    ([ring_fuel], [buffer_fuel], [queue_fuel]); [token_fuel] is the number of
    tokens, which the counter runs through; [trim_fuel] and [play_fuel] are the
    length of the array the pointer walks in; replaying macros within macros
    nests as often as the depth that is given to [macro_features]; strings are
    read with their length as fuel, a link of the autocorrection table with the
    length of the table, a mnemonic with that of its input;
    [process_record] of [Action] calls itself at most once, for the release at the
    end of a one-shot layer ([two_deep]). The theorems
    about these loops give their results, so they also say that the fuel is
    enough.

    ** The theorems

    - Storage: the wear-leveling layer refines a byte array over any history of
      writes and restarts, obeys the flash, keeps a prefix of the log entries
      of an interrupted write, and reports its status truthfully; the two
      EEPROM drivers are interchangeable but for the bytes that the format of
      the firmware's start, [eeprom_driver_format(false)], leaves behind.
    - Configuration: the cells of the dynamic configuration are independent;
      macros play what was uploaded; data blocks and settings are read back as
      written; the query lists the settings.
    - Safety: a locked keyboard is unlocked only by holding the unlock keys, a
      bulk write cannot give it the bootloader keycode, a key does nothing
      while an unlock is in progress, and an interrupted reset is not taken for
      a complete one.
    - Keys: each debounce algorithm filters what it promises to filter and
      reports what it promises to report, and the main loop makes one event of
      each change that is left; encoders count steps; layers are what the
      operations say, a key comes from the highest opaque layer, a release finds
      the layer of its press; a locked layer stays on; remapping options are
      permutations of the keycodes, and the magic keys make them last.
    - Events: the combo code keeps its statics in bounds, loses, repeats and
      reorders no press but into a combo that is complete, holds none for ever,
      passes everything through without combos, and a combo that overlaps no other
      acts as a key with its keycode. The tapping code loses no event, processes
      none twice but the releases of taps that another tap key cut short, and holds
      none for ever; what makes a tap and what a hold; a mod-tap and a layer-tap
      key do to the host what they should, through the whole pipeline. The theorems
      about the pipeline hold for features that leave the keys in question alone
      while they are idle (the class [Idle] and [unclaimed] of [ActionProofs]); the
      examples have the features of the library.
    - Features: tap dances of keycodes up to [QK_MODS_MAX] release what they
      press; an override of a basic key by a basic key replaces it for the host,
      and an override leaves nothing behind; auto shift types what its model types,
      with the documented time where no other key is released meanwhile; space
      cadet keys are taps or modifiers; a recorded macro is replayed record by
      record, also where a replay changes the stored records; a deferred callback is called by the first pass
      at its time, and tokens name entries; the secure mode opens for its sequence
      only; key lock holds the keys it was asked to hold, without the one-shot
      modifiers, for which it locks another key.
    - Text: an uploaded macro types its text; a Unicode string reaches a Linux
      host code point by code point; autocorrection types what a writer with the
      dictionary would write, as long as its strings have room in their arrays;
      caps word types a word in capitals, with the idle time running.
    - Output: the host's last report is the state of the keyboard; a one-shot
      modifier acts on one key; mouse reports stay in range.

    ** What is not modelled

    The reading of pins, the USB stack, the clock and the flash itself are
    parameters: environments, classes with laws, or lists of events. The build
    has no swap hands, chordal hold, retro shift or debug output; the lock LEDs
    are not set after a layer change. The event that a tap dance of Vial feeds
    to [action_exec] for a keycode above [QK_MODS_MAX] is a parameter of its
    engine (the class [EventExec]); a combo whose keycode is a macro that feeds
    events of its own is not followed. Of the main loop, the initialisation and the tasks of lighting,
    displays, pointing devices, split halves and the host's LEDs are left out.
    Other features of [process_keycode/] are not part of the library (repeat key,
    steno, music and MIDI, haptics and lighting keys), nor are lighting, audio,
    displays, split keyboards and pointing devices themselves. The hooks [_kb]
    and [_user] are their weak definitions in the source. *)

From stdpp Require Export base list numbers list_numbers option.
From Stdlib Require Export ZArith Lia.

Set Default Proof Using "Type".
#[global] Open Scope Z_scope.

Declare Scope qmk_scope.
Delimit Scope qmk_scope with qmk.

(** ** Machine integers

    A C value of an unsigned [w]-bit type is the [Z] in [0, 2^w); the
    wrap-around of a conversion or of arithmetic is written out. *)

Definition u8 (z : Z) : Z := z mod 256.
Definition u16 (z : Z) : Z := z mod 65536.
Definition u32 (z : Z) : Z := z mod 4294967296.
Definition u64 (z : Z) : Z := z mod 18446744073709551616.

Notation "a .& b" := (Z.land a b) (at level 36, left associativity) : qmk_scope.
Notation "a .| b" := (Z.lor a b) (at level 37, left associativity) : qmk_scope.
Notation "a .^ b" := (Z.lxor a b) (at level 37, left associativity) : qmk_scope.
Notation "a << n" := (Z.shiftl a n) (at level 34, left associativity) : qmk_scope.
Notation "a >> n" := (Z.shiftr a n) (at level 34, left associativity) : qmk_scope.
#[global] Open Scope qmk_scope.

Abbreviation byte_range z := (0 <= z < 256) (only parsing).

(** The C truth value of an integer, and the integer of a C truth value. *)
Definition truthy (z : Z) : bool := negb (z =? 0).
Definition b2z (b : bool) : Z := if b then 1 else 0.

(** [TIMER_DIFF_16] and [TIMER_DIFF_32] of [platforms/timer.h]. *)
Definition TIMER_DIFF_16 (a b : Z) : Z := u16 (a - b).
Definition TIMER_DIFF_32 (a b : Z) : Z := u32 (a - b).

(** ** Automation *)

Create HintDb qmk.
Create Rewrite HintDb testbit.

#[export] Hint Rewrite Z.lor_spec Z.land_spec Z.lxor_spec Z.ldiff_spec
  Z.bits_0 : testbit.
#[export] Hint Rewrite Z.shiftl_spec Z.shiftr_spec Z.lnot_spec
  Z.testbit_neg_r Z.pow2_bits_eqb using lia : testbit.
#[export] Hint Rewrite andb_true_r andb_false_r andb_true_l andb_false_l
  orb_true_r orb_false_r orb_true_l orb_false_l
  xorb_false_r xorb_false_l negb_involutive : testbit.

Ltac zify_div := Z.div_mod_to_equations.

(** Replaces the powers of two with constant exponent by their values. *)
Ltac pow_consts :=
  repeat match goal with
  | |- context [Z.pow ?b (Zpos ?p)] =>
      let c := eval vm_compute in (Z.pow b (Zpos p)) in change (Z.pow b (Zpos p)) with c
  | H : context [Z.pow ?b (Zpos ?p)] |- _ =>
      let c := eval vm_compute in (Z.pow b (Zpos p)) in change (Z.pow b (Zpos p)) with c in H
  end.

(** Splits an equality of explicit lists into the equalities of the elements. *)
Ltac cons_eq :=
  repeat match goal with
  | |- _ :: _ = _ :: _ => apply (f_equal2 cons)
  | |- [] = [] => reflexivity
  end.

(** Closes linear goals that mention [/] and [mod] by constants. *)
Ltac dlia := zify_div; lia.

(** Turns boolean comparisons in the context and the goal into propositions. *)
Ltac b2p :=
  repeat match goal with
  | H : (_ =? _)%Z = true |- _ => apply Z.eqb_eq in H
  | H : (_ =? _)%Z = false |- _ => apply Z.eqb_neq in H
  | H : (_ <? _)%Z = true |- _ => apply Z.ltb_lt in H
  | H : (_ <? _)%Z = false |- _ => apply Z.ltb_ge in H
  | H : (_ <=? _)%Z = true |- _ => apply Z.leb_le in H
  | H : (_ <=? _)%Z = false |- _ => apply Z.leb_gt in H
  | H : (_ >? _)%Z = _ |- _ => rewrite Z.gtb_ltb in H
  | H : (_ >=? _)%Z = _ |- _ => rewrite Z.geb_leb in H
  | H : (_ && _)%bool = true |- _ => apply andb_true_iff in H; destruct H
  | H : (_ || _)%bool = false |- _ => apply orb_false_iff in H; destruct H
  | H : negb _ = true |- _ => apply negb_true_iff in H
  | H : negb _ = false |- _ => apply negb_false_iff in H
  end.

(** Case analysis on the first boolean test of an [if] in the goal. *)
Ltac case_if :=
  match goal with
  | |- context [if ?b then _ else _] =>
      let E := fresh "E" in destruct b eqn:E; b2p
  end.

Ltac case_if_in H :=
  match type of H with
  | context [if ?b then _ else _] =>
      let E := fresh "E" in destruct b eqn:E; b2p
  end.

Lemma u8_range z : byte_range (u8 z).
Proof. unfold u8. dlia. Qed.
Lemma u16_range z : 0 <= u16 z < 65536.
Proof. unfold u16. dlia. Qed.
Lemma u32_range z : 0 <= u32 z < 4294967296.
Proof. unfold u32. dlia. Qed.
Lemma u8_id z : byte_range z -> u8 z = z.
Proof. intros. apply Z.mod_small. lia. Qed.
Lemma u16_id z : 0 <= z < 65536 -> u16 z = z.
Proof. intros. apply Z.mod_small. lia. Qed.
Lemma u32_id z : 0 <= z < 4294967296 -> u32 z = z.
Proof. intros. apply Z.mod_small. lia. Qed.
#[export] Hint Resolve u8_range u16_range u32_range : qmk.

(** ** Bits *)

Lemma testbit_small z w i : 0 <= z < 2 ^ w -> w <= i -> Z.testbit z i = false.
Proof.
  intros Hz Hi. destruct (Z.lt_ge_cases i 0); [by rewrite Z.testbit_neg_r|].
  destruct (Z.eq_dec z 0) as [->|]; [apply Z.bits_0|].
  apply Z.bits_above_log2; [lia|].
  apply Z.lt_le_trans with w; [|lia]. apply Z.log2_lt_pow2; lia.
Qed.

Lemma testbit_byte z i : byte_range z -> 8 <= i -> Z.testbit z i = false.
Proof. intros. apply (testbit_small z 8); [simpl; lia|lia]. Qed.

(** Two numbers below [2^w] with the same low [w] bits are equal. *)
Lemma bits_ext_small w a b :
  0 <= w -> 0 <= a < 2 ^ w -> 0 <= b < 2 ^ w ->
  (forall i, 0 <= i < w -> Z.testbit a i = Z.testbit b i) -> a = b.
Proof.
  intros Hw Ha Hb H. apply Z.bits_inj'. intros i Hi.
  destruct (Z.lt_ge_cases i w); [auto with lia|].
  by rewrite !(testbit_small _ w) by lia.
Qed.

Lemma bounded_of_bits w z :
  0 <= w -> 0 <= z -> (forall i, w <= i -> Z.testbit z i = false) -> z < 2 ^ w.
Proof.
  intros Hw Hz H. destruct (Z.eq_dec z 0) as [->|Hn]; [lia|].
  destruct (Z.lt_ge_cases (Z.log2 z) w) as [Hl|Hl].
  - apply Z.log2_lt_pow2; lia.
  - specialize (H _ Hl). rewrite Z.bit_log2 in H by lia. done.
Qed.

Lemma lor_range w a b :
  0 <= w -> 0 <= a < 2 ^ w -> 0 <= b < 2 ^ w -> 0 <= a .| b < 2 ^ w.
Proof.
  intros. assert (0 <= a .| b) by (apply Z.lor_nonneg; lia). split; [done|].
  apply bounded_of_bits; [done..|]. intros i Hi.
  rewrite Z.lor_spec, !(testbit_small _ w) by lia. done.
Qed.

Lemma lxor_range w a b :
  0 <= w -> 0 <= a < 2 ^ w -> 0 <= b < 2 ^ w -> 0 <= a .^ b < 2 ^ w.
Proof.
  intros. assert (0 <= a .^ b) by (apply Z.lxor_nonneg; lia). split; [done|].
  apply bounded_of_bits; [done..|]. intros i Hi.
  rewrite Z.lxor_spec, !(testbit_small _ w) by lia. done.
Qed.

Lemma land_range_l w a b : 0 <= w -> 0 <= a < 2 ^ w -> 0 <= a .& b < 2 ^ w.
Proof.
  intros. assert (0 <= a .& b) by (apply Z.land_nonneg; lia). split; [done|].
  apply bounded_of_bits; [done..|]. intros i Hi.
  rewrite Z.land_spec, (testbit_small a w) by lia. done.
Qed.

(** A disjunction of a multiple of [2^n] and a number below [2^n] is a sum. *)
Lemma lor_add n a b : 0 <= n -> 0 <= b < 2 ^ n -> (a << n) .| b = a * 2 ^ n + b.
Proof.
  intros Hn Hb. rewrite <- Z.shiftl_mul_pow2 by done.
  symmetry. apply Z.add_nocarry_lor.
  apply Z.bits_inj'. intros i Hi. rewrite Z.land_spec, Z.bits_0.
  rewrite Z.shiftl_spec by done.
  destruct (Z.lt_ge_cases i n).
  - by rewrite Z.testbit_neg_r by lia.
  - by rewrite (testbit_small b n), andb_false_r by lia.
Qed.

(** The C test of bit [i]. *)
Lemma truthy_bit w i : 0 <= i -> truthy (w .& (1 << i)) = Z.testbit w i.
Proof.
  intros H. unfold truthy. rewrite Z.shiftl_1_l. destruct (Z.testbit w i) eqn:E.
  - apply negb_true_iff, Z.eqb_neq. intros H0.
    assert (Hb : Z.testbit (w .& 2 ^ i) i = false) by (rewrite H0; apply Z.bits_0).
    rewrite Z.land_spec, Z.pow2_bits_true, E in Hb by done. done.
  - apply negb_false_iff, Z.eqb_eq. apply Z.bits_inj'. intros j Hj.
    rewrite Z.land_spec, Z.pow2_bits_eqb, Z.bits_0 by done.
    destruct (Z.eqb_spec i j) as [->|]; [by rewrite E|by rewrite andb_false_r].
Qed.

(** ** Arrays of integers indexed by [Z]

    An array is a list. Reading outside it gives [0] and writing outside it
    does nothing; the theorems about the code state the ranges in which the
    code stays, so neither convention is relied upon. *)

Definition lenZ {A} (l : list A) : Z := Z.of_nat (length l).
Definition nthZ (l : list Z) (i : Z) : Z := if i <? 0 then 0 else nth (Z.to_nat i) l 0.
Definition updZ (l : list Z) (i v : Z) : list Z :=
  if i <? 0 then l else <[Z.to_nat i := v]> l.

(** [memcpy(&dst[off], src, n)], [n] bytes out of a buffer and [memset]. *)
Definition blit (dst : list Z) (off : Z) (src : list Z) : list Z :=
  take (Z.to_nat off) dst ++ src ++ drop (Z.to_nat off + length src) dst.
Definition slice (l : list Z) (off n : Z) : list Z := map (nthZ l) (seqZ off n).
Definition memset (v n : Z) : list Z := replicate (Z.to_nat n) v.

Lemma lenZ_nonneg {A} (l : list A) : 0 <= lenZ l.
Proof. unfold lenZ. lia. Qed.

Lemma lenZ_updZ l i v : lenZ (updZ l i v) = lenZ l.
Proof. unfold lenZ, updZ. case_if; [done|]. by rewrite length_insert. Qed.

Lemma nthZ_lookup l i : 0 <= i -> nthZ l i = default 0 (l !! Z.to_nat i).
Proof.
  intros. unfold nthZ. rewrite (proj2 (Z.ltb_ge i 0)) by lia.
  by rewrite nth_lookup.
Qed.

Lemma nthZ_out l i : ~ 0 <= i < lenZ l -> nthZ l i = 0.
Proof.
  unfold lenZ. intros. unfold nthZ. case_if; [done|].
  apply nth_overflow. lia.
Qed.

Lemma nthZ_updZ l i v j :
  nthZ (updZ l i v) j = if (i =? j) && (0 <=? i) && (i <? lenZ l) then v else nthZ l j.
Proof.
  unfold updZ, lenZ. destruct (i <? 0) eqn:E; b2p.
  { case_if; [lia|done]. }
  destruct (Z.lt_ge_cases j 0).
  { rewrite !(nthZ_out _ j) by lia. case_if; [lia|done]. }
  rewrite !nthZ_lookup by lia. case_if.
  - subst. rewrite list_lookup_insert_eq by lia. done.
  - destruct (decide (i = j)) as [->|]; [|by rewrite list_lookup_insert_ne by lia].
    rewrite list_insert_ge; [done|].
    rewrite !andb_false_iff in E0. b2p.
    destruct E0 as [[E0|E0]|E0]; b2p; lia.
Qed.

Lemma nthZ_updZ_eq l i v : 0 <= i < lenZ l -> nthZ (updZ l i v) i = v.
Proof. intros. rewrite nthZ_updZ. case_if; [done|]. rewrite !andb_false_iff in E. destruct E as [[E|E]|E]; b2p; lia. Qed.

Lemma nthZ_updZ_ne l i v j : i <> j -> nthZ (updZ l i v) j = nthZ l j.
Proof. intros. rewrite nthZ_updZ. case_if; [lia|done]. Qed.

Lemma updZ_updZ l i v w : updZ (updZ l i v) i w = updZ l i w.
Proof. unfold updZ. case_if; [done|]. apply list_insert_insert_eq. Qed.

Lemma updZ_id l i : updZ l i (nthZ l i) = l.
Proof.
  destruct (decide (0 <= i < lenZ l)) as [H|H].
  - unfold updZ. case_if; [done|]. apply list_insert_id. rewrite nthZ_lookup by lia.
    unfold lenZ in H. destruct (lookup_lt_is_Some_2 l (Z.to_nat i)) as [x ->]; [lia|done].
  - unfold updZ. case_if; [done|]. apply list_insert_ge. unfold lenZ in H. lia.
Qed.

Lemma listZ_ext (l k : list Z) :
  lenZ l = lenZ k -> (forall i, 0 <= i < lenZ l -> nthZ l i = nthZ k i) -> l = k.
Proof.
  unfold lenZ. intros Hlen H. apply (nth_ext _ _ 0 0); [lia|].
  intros n Hn. specialize (H (Z.of_nat n)). unfold nthZ in H.
  rewrite (proj2 (Z.ltb_ge (Z.of_nat n) 0)), Nat2Z.id in H by lia. apply H. lia.
Qed.

Lemma lenZ_app {A} (l k : list A) : lenZ (l ++ k) = lenZ l + lenZ k.
Proof. unfold lenZ. rewrite length_app. lia. Qed.

Lemma lenZ_cons {A} (x : A) l : lenZ (x :: l) = 1 + lenZ l.
Proof. unfold lenZ. simpl. lia. Qed.

Lemma lenZ_nil {A} : lenZ (@nil A) = 0.
Proof. done. Qed.

Lemma lenZ_replicate v n : 0 <= n -> lenZ (memset v n) = n.
Proof. intros. unfold memset, lenZ. rewrite length_replicate. lia. Qed.

Lemma nthZ_memset v n i : 0 <= i < n -> nthZ (memset v n) i = v.
Proof.
  intros. rewrite nthZ_lookup by lia. unfold memset.
  rewrite lookup_replicate_2 by lia. done.
Qed.

Lemma lenZ_blit dst off src :
  0 <= off -> off + lenZ src <= lenZ dst -> lenZ (blit dst off src) = lenZ dst.
Proof.
  unfold blit, lenZ. intros. rewrite !length_app, length_take, length_drop. lia.
Qed.

Lemma nthZ_blit dst off src i :
  0 <= off -> off + lenZ src <= lenZ dst ->
  nthZ (blit dst off src) i =
    if (off <=? i) && (i <? off + lenZ src) then nthZ src (i - off) else nthZ dst i.
Proof.
  unfold lenZ. intros Ho Hl. destruct (Z.lt_ge_cases i 0).
  { rewrite (nthZ_out _ i), (nthZ_out dst i) by lia. case_if; [lia|done]. }
  rewrite nthZ_lookup by lia. unfold blit.
  assert (length (take (Z.to_nat off) dst) = Z.to_nat off) by (rewrite length_take; lia).
  case_if.
  - rewrite nthZ_lookup by lia. rewrite lookup_app_r by lia. rewrite lookup_app_l by lia.
    do 2 f_equal. lia.
  - rewrite nthZ_lookup by lia. apply andb_false_iff in E. destruct E as [E|E]; b2p.
    + rewrite lookup_app_l by lia. rewrite lookup_take_lt by lia. done.
    + rewrite !lookup_app_r by lia. rewrite lookup_drop. do 2 f_equal. lia.
Qed.

Lemma lenZ_slice l off n : 0 <= n -> lenZ (slice l off n) = n.
Proof. intros. unfold slice, lenZ. rewrite length_map, length_seqZ. lia. Qed.

Lemma nthZ_slice l off n i : 0 <= i < n -> nthZ (slice l off n) i = nthZ l (off + i).
Proof.
  intros. rewrite nthZ_lookup by lia. unfold slice.
  rewrite list_lookup_fmap, lookup_seqZ_lt by lia. simpl. f_equal. lia.
Qed.

(** ** Loops

    [for (i = lo; i < hi; i++) s = body i s]. *)

Definition for_Z {S} (lo hi : Z) (body : Z -> S -> S) (s : S) : S :=
  foldl (fun s i => body i s) s (seqZ lo (hi - lo)).

Section for_loop.
Context {S : Type} (body : Z -> S -> S).

Lemma for_Z_done lo hi s : hi <= lo -> for_Z lo hi body s = s.
Proof. intros. unfold for_Z. by rewrite seqZ_nil by lia. Qed.

Lemma for_Z_first lo hi s :
  lo < hi -> for_Z lo hi body s = for_Z (lo + 1) hi body (body lo s).
Proof.
  intros. unfold for_Z. rewrite seqZ_cons by lia. simpl.
  by replace (Z.pred (hi - lo)) with (hi - (lo + 1)) by lia.
Qed.

Lemma for_Z_last lo hi s :
  lo <= hi -> for_Z lo (hi + 1) body s = body hi (for_Z lo hi body s).
Proof.
  intros. unfold for_Z.
  replace (hi + 1 - lo) with (hi - lo + 1) by lia.
  rewrite seqZ_app by lia. rewrite foldl_app.
  replace (lo + (hi - lo)) with hi by lia. done.
Qed.

(** The loop invariant rule. *)
Lemma for_Z_inv (P : Z -> S -> Prop) lo hi s :
  lo <= hi -> P lo s ->
  (forall i s, lo <= i < hi -> P i s -> P (i + 1) (body i s)) ->
  P hi (for_Z lo hi body s).
Proof.
  intros Hle H0 Hstep.
  replace hi with (lo + Z.of_nat (Z.to_nat (hi - lo))) by lia.
  assert (Hb : lo + Z.of_nat (Z.to_nat (hi - lo)) <= hi) by lia.
  induction (Z.to_nat (hi - lo)) as [|n IH].
  - rewrite Z.add_0_r. by rewrite for_Z_done by lia.
  - rewrite Nat2Z.inj_succ. unfold Z.succ. rewrite Z.add_assoc.
    rewrite for_Z_last by lia. apply Hstep; [lia|]. apply IH. lia.
Qed.
End for_loop.

(** A loop seen through [h], on the states that satisfy the invariant [P]. *)
Lemma for_Z_hom {A B} (h : A -> B) (P : A -> Prop) (b1 : Z -> A -> A) (b2 : Z -> B -> B) lo hi x :
  P x -> (forall i x, lo <= i < hi -> P x -> P (b1 i x) /\ h (b1 i x) = b2 i (h x)) ->
  h (for_Z lo hi b1 x) = for_Z lo hi b2 (h x).
Proof.
  intros Hx Hb. destruct (Z.le_ge_cases hi lo); [by rewrite !for_Z_done by done|].
  assert (H1 : P (for_Z lo hi b1 x) /\ h (for_Z lo hi b1 x) = for_Z lo hi b2 (h x)); [|apply H1].
  apply (for_Z_inv b1 (fun i y => P y /\ h y = for_Z lo i b2 (h x))); [done|by rewrite for_Z_done|].
  intros i y Hi [Hy E]. rewrite for_Z_last by lia. rewrite <- E. by apply Hb.
Qed.

(** ** Little-endian layout of integers in byte arrays *)

Definition le16 (z : Z) : list Z := [u8 z; u8 (z >> 8)].
Definition le32 (z : Z) : list Z := [u8 z; u8 (z >> 8); u8 (z >> 16); u8 (z >> 24)].

(** The little-endian value of a list of bytes, and the [n] bytes of a value. *)
Fixpoint le_val (l : list Z) : Z :=
  match l with
  | [] => 0
  | b :: l => b + 256 * le_val l
  end.

Fixpoint le_bytes (n : nat) (z : Z) : list Z :=
  match n with
  | O => []
  | S n => u8 z :: le_bytes n (z / 256)
  end.

Definition bytes (l : list Z) : Prop := Forall (fun z => byte_range z) l.

Lemma bytes_nthZ l i : bytes l -> byte_range (nthZ l i).
Proof.
  intros H. destruct (decide (0 <= i < lenZ l)) as [Hi|].
  - rewrite nthZ_lookup by lia. unfold lenZ in Hi.
    destruct (lookup_lt_is_Some_2 l (Z.to_nat i)) as [x Hx]; [lia|].
    rewrite Hx. simpl. by apply (Forall_lookup_1 _ _ _ _ H Hx).
  - rewrite nthZ_out by done. lia.
Qed.

Lemma bytes_of_nthZ l : (forall i, 0 <= i < lenZ l -> byte_range (nthZ l i)) -> bytes l.
Proof.
  intros H. apply Forall_lookup. intros n x Hx.
  assert (n < length l)%nat by (eapply lookup_lt_Some; eauto).
  specialize (H (Z.of_nat n)). unfold lenZ in H.
  rewrite nthZ_lookup, Nat2Z.id, Hx in H by lia. apply H. lia.
Qed.

Lemma bytes_updZ l i v : bytes l -> byte_range v -> bytes (updZ l i v).
Proof.
  intros Hl Hv. apply bytes_of_nthZ. intros j _. rewrite nthZ_updZ.
  case_if; [done|by apply bytes_nthZ].
Qed.

Lemma bytes_app l k : bytes l -> bytes k -> bytes (l ++ k).
Proof. intros. by apply Forall_app. Qed.

Lemma bytes_memset v n : byte_range v -> bytes (memset v n).
Proof. intros. by apply Forall_replicate. Qed.

Lemma bytes_blit dst off src : bytes dst -> bytes src -> bytes (blit dst off src).
Proof.
  intros. unfold blit. repeat apply Forall_app_2; [by apply Forall_take|done|by apply Forall_drop].
Qed.

Lemma length_le_bytes n z : length (le_bytes n z) = n.
Proof. revert z. induction n; simpl; auto. Qed.

Lemma bytes_le_bytes n z : bytes (le_bytes n z).
Proof. revert z. induction n; intros; constructor; [apply u8_range|apply IHn]. Qed.

Lemma le_val_bytes n z : 0 <= z < 256 ^ Z.of_nat n -> le_val (le_bytes n z) = z.
Proof.
  revert z. induction n as [|n IH]; intros z Hz; [simpl in *; lia|].
  rewrite Nat2Z.inj_succ, Z.pow_succ_r in Hz by lia.
  simpl. rewrite IH; unfold u8; [dlia|]. split; [dlia|].
  apply Z.div_lt_upper_bound; lia.
Qed.

Lemma le_val_range l : bytes l -> 0 <= le_val l < 256 ^ lenZ l.
Proof.
  unfold lenZ. induction 1 as [|b l Hb Hl IH]; [simpl; lia|].
  cbn [length le_val]. rewrite Nat2Z.inj_succ, Z.pow_succ_r by lia. lia.
Qed.

Lemma le_bytes_val l : bytes l -> le_bytes (length l) (le_val l) = l.
Proof.
  induction 1 as [|b l Hb Hl IH]; [done|]. simpl. f_equal.
  - unfold u8. dlia.
  - replace ((b + 256 * le_val l) / 256) with (le_val l) by dlia. done.
Qed.

Lemma le_val_app l k : le_val (l ++ k) = le_val l + 256 ^ lenZ l * le_val k.
Proof.
  unfold lenZ. induction l as [|b l IH]; [simpl; lia|].
  cbn [app le_val length]. rewrite IH, Nat2Z.inj_succ, Z.pow_succ_r by lia. lia.
Qed.

#[export] Hint Resolve bytes_nthZ bytes_updZ bytes_app bytes_memset bytes_blit
  bytes_le_bytes : qmk.

(** ** More on block copies *)

Lemma nthZ_cons_0 x l : nthZ (x :: l) 0 = x.
Proof. done. Qed.

Lemma nthZ_cons_S x l i : 0 < i -> nthZ (x :: l) i = nthZ l (i - 1).
Proof.
  intros. rewrite !nthZ_lookup by lia.
  replace (Z.to_nat i) with (S (Z.to_nat (i - 1))) by lia. done.
Qed.

Lemma nthZ_app l k i :
  0 <= i -> nthZ (l ++ k) i = if i <? lenZ l then nthZ l i else nthZ k (i - lenZ l).
Proof.
  unfold lenZ. intros. rewrite nthZ_lookup by lia. case_if; rewrite nthZ_lookup by lia.
  - by rewrite lookup_app_l by lia.
  - rewrite lookup_app_r by lia. do 2 f_equal. lia.
Qed.

Lemma nthZ_drop l n i : 0 <= i -> nthZ (drop n l) i = nthZ l (Z.of_nat n + i).
Proof.
  intros. rewrite !nthZ_lookup by lia. rewrite lookup_drop. do 2 f_equal. lia.
Qed.

Lemma lenZ_drop {A} (l : list A) n : Z.of_nat n <= lenZ l -> lenZ (drop n l) = lenZ l - Z.of_nat n.
Proof. unfold lenZ. intros. rewrite length_drop. lia. Qed.

Lemma slice_all l : slice l 0 (lenZ l) = l.
Proof.
  pose proof (lenZ_nonneg l). apply listZ_ext; rewrite lenZ_slice by done; [done|].
  intros i Hi. by rewrite nthZ_slice by done.
Qed.

Lemma bytes_slice l off n : bytes l -> bytes (slice l off n).
Proof.
  intros. unfold slice, bytes. apply Forall_map, Forall_true. intros. simpl. by apply bytes_nthZ.
Qed.

Lemma updZ_blit l i v : 0 <= i < lenZ l -> updZ l i v = blit l i [v].
Proof.
  intros. assert (lenZ [v] = 1) by done.
  apply listZ_ext; rewrite lenZ_updZ; [by rewrite lenZ_blit by lia|].
  intros j Hj. rewrite nthZ_updZ, nthZ_blit by lia.
  repeat case_if; try lia; try done.
  by replace (j - i) with 0 by lia.
Qed.

Lemma blit_nil l off : 0 <= off <= lenZ l -> blit l off [] = l.
Proof.
  intros. assert (lenZ (@nil Z) = 0) by done.
  apply listZ_ext; [by rewrite lenZ_blit by lia|].
  intros i _. rewrite nthZ_blit by lia. case_if; [lia|done].
Qed.

(** Copying a buffer in one go or in two adjacent pieces is the same. *)
Lemma blit_app l off p q :
  0 <= off -> off + lenZ p + lenZ q <= lenZ l ->
  blit (blit l off p) (off + lenZ p) q = blit l off (p ++ q).
Proof.
  pose proof (lenZ_nonneg p). pose proof (lenZ_nonneg q). intros Ho Hle.
  assert (lenZ (p ++ q) = lenZ p + lenZ q) by apply lenZ_app.
  assert (lenZ (blit l off p) = lenZ l) by (rewrite lenZ_blit; lia).
  apply listZ_ext; [rewrite !lenZ_blit by lia; lia|].
  intros i _. rewrite !nthZ_blit by lia.
  repeat case_if; try lia; rewrite ?nthZ_app by lia; repeat case_if; try lia; try done.
  f_equal. lia.
Qed.

Lemma slice_blit l off p : 0 <= off -> off + lenZ p <= lenZ l -> slice (blit l off p) off (lenZ p) = p.
Proof.
  pose proof (lenZ_nonneg p). intros. apply listZ_ext; rewrite lenZ_slice by done; [done|].
  intros i Hi. rewrite nthZ_slice, nthZ_blit by lia. case_if; [|lia]. f_equal. lia.
Qed.

Lemma blit_slice l off n : 0 <= off -> 0 <= n -> off + n <= lenZ l -> blit l off (slice l off n) = l.
Proof.
  intros. assert (lenZ (slice l off n) = n) by (by apply lenZ_slice).
  apply listZ_ext; [by rewrite lenZ_blit by lia|].
  intros i _. rewrite nthZ_blit by lia. case_if; [|done].
  rewrite nthZ_slice by lia. f_equal. lia.
Qed.

Lemma blit_whole l p : lenZ p = lenZ l -> blit l 0 p = p.
Proof.
  intros H. apply listZ_ext; [by rewrite lenZ_blit by lia|].
  rewrite lenZ_blit by lia. intros i Hi. rewrite nthZ_blit by lia.
  case_if; [f_equal; lia|lia].
Qed.

Lemma slice_1 l off : slice l off 1 = [nthZ l off].
Proof. unfold slice. by rewrite seqZ_cons, seqZ_nil by lia. Qed.

#[export] Hint Resolve bytes_slice : qmk.

(** Reading past the end of a block, or in it. *)
Lemma blit_nil_any l off : blit l off [] = l.
Proof. unfold blit. simpl. rewrite Nat.add_0_r. apply take_drop. Qed.

Lemma slice_snoc l a n : 0 <= n -> slice l a (n + 1) = slice l a n ++ [nthZ l (a + n)].
Proof. intros. unfold slice. rewrite seqZ_app, map_app by lia. done. Qed.

Lemma slice_nil l a n : n <= 0 -> slice l a n = [].
Proof. intros. unfold slice. by rewrite seqZ_nil. Qed.

(** [for (i = 0; i < n; i++) msg[base + i] = f(i)]. *)
Lemma for_Z_fill f base n msg : 0 <= n -> 0 <= base -> base + n <= lenZ msg ->
  let msg' := for_Z 0 n (fun i m => updZ m (base + i) (f i)) msg in
  lenZ msg' = lenZ msg
  /\ forall j, nthZ msg' j = if (base <=? j) && (j <? base + n) then f (j - base) else nthZ msg j.
Proof.
  intros Hn Hb Hle.
  apply (for_Z_inv (fun i m => updZ m (base + i) (f i))
    (fun i m => lenZ m = lenZ msg /\ forall j, nthZ m j
       = if (base <=? j) && (j <? base + i) then f (j - base) else nthZ msg j)); [done| |].
  - split; [done|]. intros j. case_if; [lia|done].
  - intros i m Hi [Hl Hm]. split; [by rewrite lenZ_updZ|]. intros j. rewrite nthZ_updZ, Hm, Hl.
    repeat case_if; try lia; try done. f_equal. lia.
Qed.

Lemma for_Z_fill_0 f n msg : 0 <= n -> n <= lenZ msg ->
  let msg' := for_Z 0 n (fun i m => updZ m i (f i)) msg in
  lenZ msg' = lenZ msg
  /\ forall j, nthZ msg' j = if (0 <=? j) && (j <? n) then f j else nthZ msg j.
Proof.
  intros Hn Hle. destruct (for_Z_fill f 0 n msg Hn (Z.le_refl 0) Hle) as [Hl H].
  split; [exact Hl|]. intros j. specialize (H j). rewrite Z.sub_0_r in H. exact H.
Qed.
