(* ===== verification/BackingStore.v ===== *)
(** The backing-store interface of the wear-leveling layer: the operations
    [quantum/wear_leveling/wear_leveling_internal.h] declares and the flash
    drivers implement, their contract as a class of laws, and a store in RAM
    with the checks of [quantum/wear_leveling/tests/backing_mocks.cpp]. *)

From S2P Require Import Prelude.

(** The configuration macros, with the compile-time checks of
    [wear_leveling_internal.h]. *)
Class WearLevelingConfig := {
  BACKING_STORE_WRITE_SIZE : Z;
  WEAR_LEVELING_BACKING_SIZE : Z;
  WEAR_LEVELING_LOGICAL_SIZE : Z;
}.

Class WearLevelingConfigOk `{WearLevelingConfig} : Prop := {
  write_size_ok : BACKING_STORE_WRITE_SIZE = 2 \/ BACKING_STORE_WRITE_SIZE = 4
                  \/ BACKING_STORE_WRITE_SIZE = 8;
  backing_twice_logical : WEAR_LEVELING_BACKING_SIZE >= WEAR_LEVELING_LOGICAL_SIZE * 2;
  logical_multiple : WEAR_LEVELING_LOGICAL_SIZE mod BACKING_STORE_WRITE_SIZE = 0;
  backing_multiple : WEAR_LEVELING_BACKING_SIZE mod WEAR_LEVELING_LOGICAL_SIZE = 0;
  (** The address field of a log entry has 19 bits. *)
  logical_bound : 8 < WEAR_LEVELING_LOGICAL_SIZE <= 524288;
}.

(** The driver's entry points. A failing read gives [None]. *)
Class BackingStore (B : Type) := {
  backing_store_init : B -> bool * B;
  backing_store_unlock : B -> bool * B;
  backing_store_erase : B -> bool * B;
  backing_store_write : Z -> Z -> B -> bool * B;
  backing_store_lock : B -> bool * B;
  backing_store_read : B -> Z -> option Z;
}.

(** An address the store has a word at. *)
Definition word_address `{WearLevelingConfig} (a : Z) : Prop :=
  0 <= a /\ a mod BACKING_STORE_WRITE_SIZE = 0
  /\ a + BACKING_STORE_WRITE_SIZE <= WEAR_LEVELING_BACKING_SIZE.

(** What a working flash promises. Words read back as zero after an erase; a
    word can be programmed only while the store is unlocked, at a word
    address, and only when it is in the erased state. *)
Class BackingStoreLaws (B : Type) `{BackingStore B, WearLevelingConfig} := {
  bs_word : B -> Z -> Z;
  bs_open : B -> bool;
  bs_wf : B -> Prop;
  bs_init_law b : bs_wf b ->
    exists b', backing_store_init b = (true, b') /\ bs_wf b'
      /\ bs_open b' = bs_open b /\ forall a, bs_word b' a = bs_word b a;
  bs_unlock_law b : bs_wf b -> bs_open b = false ->
    exists b', backing_store_unlock b = (true, b') /\ bs_wf b'
      /\ bs_open b' = true /\ forall a, bs_word b' a = bs_word b a;
  bs_lock_law b : bs_wf b -> bs_open b = true ->
    exists b', backing_store_lock b = (true, b') /\ bs_wf b'
      /\ bs_open b' = false /\ forall a, bs_word b' a = bs_word b a;
  bs_erase_law b : bs_wf b -> bs_open b = true ->
    exists b', backing_store_erase b = (true, b') /\ bs_wf b'
      /\ bs_open b' = true /\ forall a, word_address a -> bs_word b' a = 0;
  bs_write_law b a v : bs_wf b -> bs_open b = true -> word_address a -> bs_word b a = 0 ->
    0 <= v < 256 ^ BACKING_STORE_WRITE_SIZE ->
    exists b', backing_store_write a v b = (true, b') /\ bs_wf b'
      /\ bs_open b' = true
      /\ forall x, word_address x -> bs_word b' x = if x =? a then v else bs_word b x;
  bs_read_law b a : bs_wf b -> word_address a -> backing_store_read b a = Some (bs_word b a);
  bs_word_range b a : bs_wf b -> word_address a ->
    0 <= bs_word b a < 256 ^ BACKING_STORE_WRITE_SIZE;
}.

(** ** A store in RAM

    The words, indexed by word number, the lock, and the flag that an
    [EXPECT_*] check of the mock failed. *)
Module RamStore.
Section ram.
Context {cfg : WearLevelingConfig}.

Record t := mk { storage : list Z; locked : bool; violated : bool }.

Definition element_count : Z := WEAR_LEVELING_BACKING_SIZE / BACKING_STORE_WRITE_SIZE.

Definition fresh : t := mk (memset 0 element_count) true false.

Definition init (b : t) : bool * t := (true, b).

Definition unlock (b : t) : bool * t :=
  (true, mk (storage b) false (violated b || negb (locked b))).

Definition erase (b : t) : bool * t :=
  (true, mk (memset 0 element_count) (locked b) (violated b)).

Definition write (address value : Z) (b : t) : bool * t :=
  let index := address / BACKING_STORE_WRITE_SIZE in
  let bad := negb (address mod BACKING_STORE_WRITE_SIZE =? 0)
             || negb (address + BACKING_STORE_WRITE_SIZE <=? WEAR_LEVELING_BACKING_SIZE)
             || locked b
             || negb (nthZ (storage b) index =? 0) in
  (true, mk (updZ (storage b) index value) (locked b) (violated b || bad)).

Definition lock (b : t) : bool * t :=
  (true, mk (storage b) true (violated b || locked b)).

Definition read (b : t) (address : Z) : option Z :=
  Some (nthZ (storage b) (address / BACKING_STORE_WRITE_SIZE)).

#[global] Instance store : BackingStore t := {
  backing_store_init := init;
  backing_store_unlock := unlock;
  backing_store_erase := erase;
  backing_store_write := write;
  backing_store_lock := lock;
  backing_store_read := read;
}.

(** The store has its length, holds words, and no check has failed. *)
Record wf (b : t) : Prop := {
  wf_len : lenZ (storage b) = element_count;
  wf_words : forall i, 0 <= i < element_count ->
    0 <= nthZ (storage b) i < 256 ^ BACKING_STORE_WRITE_SIZE;
  wf_clean : violated b = false;
}.

Context {cfg_ok : WearLevelingConfigOk}.

Lemma write_size_pos : 0 < BACKING_STORE_WRITE_SIZE.
Proof. destruct write_size_ok as [->|[->| ->]]; lia. Qed.

Lemma element_count_pos : 0 <= element_count.
Proof.
  pose proof write_size_pos. pose proof backing_twice_logical. pose proof logical_bound.
  apply Z.div_pos; lia.
Qed.

Lemma index_range a : word_address a ->
  0 <= a / BACKING_STORE_WRITE_SIZE < element_count
  /\ a = a / BACKING_STORE_WRITE_SIZE * BACKING_STORE_WRITE_SIZE.
Proof.
  pose proof write_size_pos as Hp. intros (Ha0 & Hm & Hle).
  pose proof (Z.div_mod a BACKING_STORE_WRITE_SIZE) as Ha. rewrite Hm in Ha.
  split; [split; [apply Z.div_pos; lia|]|lia].
  apply Z.lt_le_trans with ((a + BACKING_STORE_WRITE_SIZE) / BACKING_STORE_WRITE_SIZE).
  - replace (a + BACKING_STORE_WRITE_SIZE) with (a + 1 * BACKING_STORE_WRITE_SIZE) by lia.
    rewrite Z.div_add by lia. lia.
  - apply Z.div_le_mono; lia.
Qed.

Lemma wf_erased l v : violated (mk (memset 0 element_count) l v) = false ->
  wf (mk (memset 0 element_count) l v).
Proof.
  pose proof element_count_pos. split; simpl; [by apply lenZ_replicate| |done].
  intros i Hi. rewrite nthZ_memset by done. pose proof write_size_pos.
  split; [lia|apply Z.pow_pos_nonneg; lia].
Qed.

#[global, program] Instance laws : BackingStoreLaws t := {
  bs_word b a := nthZ (storage b) (a / BACKING_STORE_WRITE_SIZE);
  bs_open b := negb (locked b);
  bs_wf := wf;
}.
Next Obligation. intros b Hb. eauto. Qed.
Next Obligation.
  intros b [Hl Hw Hv] Hb. apply negb_false_iff in Hb. eexists. split; [done|].
  split; [|done]. split; simpl; [done..|]. by rewrite Hv, Hb.
Qed.
Next Obligation.
  intros b [Hl Hw Hv] Hb. apply negb_true_iff in Hb. eexists. split; [done|].
  split; [|done]. split; simpl; [done..|]. by rewrite Hv, Hb.
Qed.
Next Obligation.
  intros b [Hl Hw Hv] Hb. eexists. split; [done|].
  split; [by apply wf_erased|]. split; [done|].
  intros a [Ha _]%index_range. by apply nthZ_memset.
Qed.
Next Obligation.
  intros b a v [Hl Hw Hv] Hb Ha Hz Hr. apply negb_true_iff in Hb.
  destruct (index_range a Ha) as [Hi Heq]. eexists. split; [done|].
  split; [|split; [simpl; by rewrite Hb|]].
  - split; simpl.
    + by rewrite lenZ_updZ.
    + intros i Hi'. rewrite nthZ_updZ. case_if; auto.
    + destruct Ha as (? & Hm & Hle). rewrite Hv, Hb, Hz, Hm.
      rewrite (proj2 (Z.leb_le _ _) Hle). done.
  - intros x [_ Hx]%index_range. simpl. rewrite nthZ_updZ.
    destruct (x =? a) eqn:E; b2p.
    + subst. rewrite Z.eqb_refl, (proj2 (Z.leb_le _ _)), (proj2 (Z.ltb_lt _ _)) by lia. done.
    + rewrite (proj2 (Z.eqb_neq _ _)); [done|]. congruence.
Qed.
Next Obligation. done. Qed.
Next Obligation. intros b a [Hl Hw Hv] [Ha _]%index_range. by apply Hw. Qed.
End ram.
Arguments fresh {_}.
End RamStore.
