(* ===== verification/WearLeveling.v ===== *)
(** The wear-leveling layer, [quantum/wear_leveling/wear_leveling.c] with the
    log-entry macros of [wear_leveling_internal.h] and the checksum of
    [lib/fnv/hash_64a.c]: the operations, over an arbitrary backing store.
    The target is little-endian, as every platform the layer is built for. *)

From S2P Require Import Prelude.
From S2P Require Import BackingStore.

(** ** Checksum *)

Definition FNV1A_64_INIT : Z := 0xcbf29ce484222325.

Definition fnv_64a_step (hval octet : Z) : Z :=
  let hval := hval .^ octet in
  u64 (hval + u64 (u64 (hval << 1) + u64 (hval << 4) + u64 (hval << 5)
                   + u64 (hval << 7) + u64 (hval << 8) + u64 (hval << 40))).

Definition fnv_64a_buf (buf : list Z) (hval : Z) : Z := foldl fnv_64a_step hval buf.

(** ** Write-log entries

    The union [write_log_entry_t] is its eight bytes. *)

Definition raw16 (log : list Z) (i : Z) : Z := le_val (slice log (2 * i) 2).
Definition raw32 (log : list Z) (i : Z) : Z := le_val (slice log (4 * i) 4).
Definition raw64 (log : list Z) : Z := le_val (slice log 0 8).
Definition set_raw16 (log : list Z) (i v : Z) : list Z := blit log (2 * i) (le_bytes 2 v).
Definition set_raw32 (log : list Z) (i v : Z) : list Z := blit log (4 * i) (le_bytes 4 v).
Definition set_raw64 (log : list Z) (v : Z) : list Z := blit log 0 (le_bytes 8 v).

Definition BITMASK_FOR_BITCOUNT (n : Z) : Z := (1 << n) - 1.

Definition LOG_ENTRY_TYPE_MULTIBYTE : Z := 0.
Definition LOG_ENTRY_TYPE_OPTIMIZED_64 : Z := 1.
Definition LOG_ENTRY_TYPE_WORD_01 : Z := 2.
Definition LOG_ENTRY_MULTIBYTE_MAX_BYTES : Z := 5.

Definition LOG_ENTRY_GET_TYPE (log : list Z) : Z :=
  (nthZ log 0 >> 6) .& BITMASK_FOR_BITCOUNT 2.

Definition LOG_ENTRY_MULTIBYTE_GET_ADDRESS (log : list Z) : Z :=
  ((nthZ log 0 .& BITMASK_FOR_BITCOUNT 3) << 16) .| (nthZ log 1 << 8) .| nthZ log 2.
Definition LOG_ENTRY_MULTIBYTE_GET_LENGTH (log : list Z) : Z :=
  u8 ((nthZ log 0 >> 3) .& BITMASK_FOR_BITCOUNT 3).
Definition LOG_ENTRY_MAKE_MULTIBYTE (address length : Z) : list Z :=
  [ ((u8 LOG_ENTRY_TYPE_MULTIBYTE .& BITMASK_FOR_BITCOUNT 2) << 6)
      .| ((u8 length .& BITMASK_FOR_BITCOUNT 3) << 3)
      .| (u8 (address >> 16) .& BITMASK_FOR_BITCOUNT 3);
    u8 (address >> 8) .& BITMASK_FOR_BITCOUNT 8;
    u8 address .& BITMASK_FOR_BITCOUNT 8; 0; 0; 0; 0; 0 ].

Definition LOG_ENTRY_OPTIMIZED_64_GET_ADDRESS (log : list Z) : Z :=
  nthZ log 0 .& BITMASK_FOR_BITCOUNT 6.
Definition LOG_ENTRY_OPTIMIZED_64_GET_VALUE (log : list Z) : Z := nthZ log 1.
Definition LOG_ENTRY_MAKE_OPTIMIZED_64 (address value : Z) : list Z :=
  [ ((u8 LOG_ENTRY_TYPE_OPTIMIZED_64 .& BITMASK_FOR_BITCOUNT 2) << 6)
      .| (u8 address .& BITMASK_FOR_BITCOUNT 6);
    u8 value; 0; 0; 0; 0; 0; 0 ].

Definition LOG_ENTRY_WORD_01_GET_ADDRESS (log : list Z) : Z :=
  ((nthZ log 0 .& BITMASK_FOR_BITCOUNT 5) << 9) .| (nthZ log 1 << 1).
Definition LOG_ENTRY_WORD_01_GET_VALUE (log : list Z) : Z :=
  u8 (nthZ log 0 >> 5) .& BITMASK_FOR_BITCOUNT 1.
Definition LOG_ENTRY_MAKE_WORD_01 (address value : Z) : list Z :=
  [ ((u8 LOG_ENTRY_TYPE_WORD_01 .& BITMASK_FOR_BITCOUNT 2) << 6)
      .| ((u8 (if truthy value then 1 else 0) .& BITMASK_FOR_BITCOUNT 1) << 5)
      .| (u8 (address >> 9) .& BITMASK_FOR_BITCOUNT 5);
    u8 (address >> 1); 0; 0; 0; 0; 0; 0 ].

(** ** Status codes and state *)

Inductive wear_leveling_status_t :=
| WEAR_LEVELING_FAILED | WEAR_LEVELING_SUCCESS | WEAR_LEVELING_CONSOLIDATED.

Inductive backing_store_lock_status_t := STATUS_FAILURE | STATUS_SUCCESS | STATUS_UNCHANGED.

#[export] Instance wear_leveling_status_eq_dec : EqDecision wear_leveling_status_t.
Proof. solve_decision. Defined.
#[export] Instance lock_status_eq_dec : EqDecision backing_store_lock_status_t.
Proof. solve_decision. Defined.

(** The static [wear_leveling] struct, with the state of the driver. *)
Record wl_state (B : Type) := mk_wl {
  cache : list Z;
  write_address : Z;
  unlocked : bool;
  store : B;
}.
Arguments mk_wl {B} _ _ _ _.
Arguments cache {B} _.
Arguments write_address {B} _.
Arguments unlocked {B} _.
Arguments store {B} _.

(** [status = e; if (status != WEAR_LEVELING_SUCCESS) return status; k] *)
Notation "'let_ok' s ':=' e 'in' k" :=
  (match e with
   | (WEAR_LEVELING_SUCCESS, s) => k
   | failed => failed
   end) (at level 10, s name, e at level 200, k at level 200) : qmk_scope.

Section operations.
Context {B : Type} {cfg : WearLevelingConfig} {driver : BackingStore B}.
Implicit Types (s : wl_state B) (b : B).

Definition wear_leveling_unlock s : backing_store_lock_status_t * wl_state B :=
  if unlocked s then (STATUS_UNCHANGED, s)
  else match backing_store_unlock (store s) with
       | (false, b) => (STATUS_FAILURE, mk_wl (cache s) (write_address s) (unlocked s) b)
       | (true, b) => (STATUS_SUCCESS, mk_wl (cache s) (write_address s) true b)
       end.

Definition wear_leveling_lock s : backing_store_lock_status_t * wl_state B :=
  if negb (unlocked s) then (STATUS_UNCHANGED, s)
  else match backing_store_lock (store s) with
       | (false, b) => (STATUS_FAILURE, mk_wl (cache s) (write_address s) (unlocked s) b)
       | (true, b) => (STATUS_SUCCESS, mk_wl (cache s) (write_address s) false b)
       end.

Definition wear_leveling_clear_cache s : wl_state B :=
  mk_wl (memset 0 WEAR_LEVELING_LOGICAL_SIZE) (WEAR_LEVELING_LOGICAL_SIZE + 8)
        (unlocked s) (store s).

(** The weak bulk operations; a word that could not be read keeps the
    value the buffer had. *)
Fixpoint backing_store_read_bulk b (address : Z) (values : list Z) : bool * list Z :=
  match values with
  | [] => (true, [])
  | v :: vs =>
      match backing_store_read b address with
      | None => (false, v :: vs)
      | Some x =>
          let '(ok, xs) := backing_store_read_bulk b (address + BACKING_STORE_WRITE_SIZE) vs in
          (ok, x :: xs)
      end
  end.

Fixpoint backing_store_write_bulk (address : Z) (values : list Z) b : bool * B :=
  match values with
  | [] => (true, b)
  | v :: vs =>
      match backing_store_write address v b with
      | (false, b) => (false, b)
      | (true, b) => backing_store_write_bulk (address + BACKING_STORE_WRITE_SIZE) vs b
      end
  end.

(** The cast of a byte buffer to an array of [backing_store_int_t]. *)
Definition words_of (l : list Z) : list Z :=
  map (fun i => le_val (slice l (i * BACKING_STORE_WRITE_SIZE) BACKING_STORE_WRITE_SIZE))
      (seqZ 0 (lenZ l / BACKING_STORE_WRITE_SIZE)).
Definition bytes_of_words (ws : list Z) : list Z :=
  concat (map (le_bytes (Z.to_nat BACKING_STORE_WRITE_SIZE)) ws).

(** The three [#if] cases read or write the checksum in four, two or one
    words: [8 / BACKING_STORE_WRITE_SIZE] words in each case. *)
Definition read_checksum b : Z :=
  let '(_, ws) := backing_store_read_bulk b WEAR_LEVELING_LOGICAL_SIZE (words_of (memset 0 8)) in
  raw64 (bytes_of_words ws).

Definition wear_leveling_read_consolidated s : wear_leveling_status_t * wl_state B :=
  let '(ok, ws) := backing_store_read_bulk (store s) 0 (words_of (cache s)) in
  let s := mk_wl (bytes_of_words ws) (write_address s) (unlocked s) (store s) in
  if negb ok then (WEAR_LEVELING_FAILED, wear_leveling_clear_cache s)
  else
    let expected := fnv_64a_buf (cache s) FNV1A_64_INIT in
    if read_checksum (store s) =? expected then (WEAR_LEVELING_SUCCESS, s)
    else (WEAR_LEVELING_SUCCESS, wear_leveling_clear_cache s).

Definition wear_leveling_write_consolidated s : wear_leveling_status_t * wl_state B :=
  let '(lock_status, s) := wear_leveling_unlock s in
  let '(ok, b) := backing_store_write_bulk 0 (words_of (cache s)) (store s) in
  let s := mk_wl (cache s) (write_address s) (unlocked s) b in
  let '(status, s) :=
    if negb ok then (WEAR_LEVELING_FAILED, s)
    else
      let entry := le_bytes 8 (fnv_64a_buf (cache s) FNV1A_64_INIT) in
      let '(ok, b) := backing_store_write_bulk WEAR_LEVELING_LOGICAL_SIZE (words_of entry) (store s) in
      (if ok then WEAR_LEVELING_CONSOLIDATED else WEAR_LEVELING_FAILED,
       mk_wl (cache s) (write_address s) (unlocked s) b) in
  (status, if decide (lock_status = STATUS_SUCCESS) then (wear_leveling_lock s).2 else s).

Definition wear_leveling_consolidate_force s : wear_leveling_status_t * wl_state B :=
  match backing_store_erase (store s) with
  | (false, b) => (WEAR_LEVELING_FAILED, mk_wl (cache s) (write_address s) (unlocked s) b)
  | (true, b) =>
      let '(status, s) :=
        wear_leveling_write_consolidated (mk_wl (cache s) (write_address s) (unlocked s) b) in
      (status, mk_wl (cache s) (WEAR_LEVELING_LOGICAL_SIZE + 8) (unlocked s) (store s))
  end.

Definition wear_leveling_consolidate_if_needed s : wear_leveling_status_t * wl_state B :=
  if WEAR_LEVELING_BACKING_SIZE <=? write_address s
  then wear_leveling_consolidate_force s
  else (WEAR_LEVELING_SUCCESS, s).

Definition wear_leveling_append_raw (value : Z) s : wear_leveling_status_t * wl_state B :=
  match backing_store_write (write_address s) value (store s) with
  | (false, b) => (WEAR_LEVELING_FAILED, mk_wl (cache s) (write_address s) (unlocked s) b)
  | (true, b) =>
      wear_leveling_consolidate_if_needed
        (mk_wl (cache s) (write_address s + BACKING_STORE_WRITE_SIZE) (unlocked s) b)
  end.

Definition wear_leveling_write_raw_multibyte (address : Z) (p : list Z) (length : Z) s
  : wear_leveling_status_t * wl_state B :=
  let log := blit (LOG_ENTRY_MAKE_MULTIBYTE address length) 3 (slice p 0 length) in
  if BACKING_STORE_WRITE_SIZE =? 2 then
    let_ok s := wear_leveling_append_raw (raw16 log 0) s in
    let_ok s := wear_leveling_append_raw (raw16 log 1) s in
    let_ok s := (if 1 <? length then wear_leveling_append_raw (raw16 log 2) s
            else (WEAR_LEVELING_SUCCESS, s)) in
    let_ok s := (if 3 <? length then wear_leveling_append_raw (raw16 log 3) s
            else (WEAR_LEVELING_SUCCESS, s)) in
    (WEAR_LEVELING_SUCCESS, s)
  else if BACKING_STORE_WRITE_SIZE =? 4 then
    let_ok s := wear_leveling_append_raw (raw32 log 0) s in
    let_ok s := (if 1 <? length then wear_leveling_append_raw (raw32 log 1) s
            else (WEAR_LEVELING_SUCCESS, s)) in
    (WEAR_LEVELING_SUCCESS, s)
  else wear_leveling_append_raw (raw64 log) s.

(** The loop of [wear_leveling_write_raw]; [p] holds the [remaining] bytes.
    Every round consumes a byte, so [length p] rounds suffice. *)
Fixpoint wear_leveling_write_raw_loop (fuel : nat) (address : Z) (p : list Z) s
  : wear_leveling_status_t * wl_state B :=
  match fuel with
  | O => (WEAR_LEVELING_SUCCESS, s)
  | S fuel =>
    let remaining := lenZ p in
    if remaining <=? 0 then (WEAR_LEVELING_SUCCESS, s)
    else
      let v := (nthZ p 1 << 8) .| nthZ p 0 in
      if (BACKING_STORE_WRITE_SIZE =? 2) && (2 <=? remaining) && (address mod 2 =? 0)
         && (address <? 16384) && ((v =? 0) || (v =? 1)) then
        let_ok s := wear_leveling_append_raw (raw16 (LOG_ENTRY_MAKE_WORD_01 address v) 0) s in
        wear_leveling_write_raw_loop fuel (address + 2) (drop 2 p) s
      else if (BACKING_STORE_WRITE_SIZE =? 2) && (address <? 64) then
        let_ok s := wear_leveling_append_raw (raw16 (LOG_ENTRY_MAKE_OPTIMIZED_64 address (nthZ p 0)) 0) s in
        wear_leveling_write_raw_loop fuel (address + 1) (drop 1 p) s
      else
        let this_length := if LOG_ENTRY_MULTIBYTE_MAX_BYTES <=? remaining
                           then LOG_ENTRY_MULTIBYTE_MAX_BYTES else remaining in
        let_ok s := wear_leveling_write_raw_multibyte address p this_length s in
        wear_leveling_write_raw_loop fuel (address + this_length)
                                     (drop (Z.to_nat this_length) p) s
  end.

Definition wear_leveling_write_raw (address : Z) (value : list Z) s
  : wear_leveling_status_t * wl_state B :=
  wear_leveling_write_raw_loop (length value) address value s.
End operations.

(** ** Playback *)

(** The locals of [wear_leveling_playback_log], with the cache it updates. *)
Record playback := mk_pb {
  pb_cache : list Z;
  pb_address : Z;
  pb_cancel : bool;
  pb_status : wear_leveling_status_t;
}.

Section playback_operations.
Context {B : Type} {cfg : WearLevelingConfig} {driver : BackingStore B}.
Implicit Types (s : wl_state B) (b : B) (p : playback).

Definition pb_fail (c : list Z) (address : Z) : playback :=
  mk_pb c address true WEAR_LEVELING_FAILED.

(** [if (more) { ok = backing_store_read(address, &slot); ... }] : the next
    part of an entry, or the address at which the read failed. *)
Definition read_part b (more : bool) (set : list Z -> Z -> list Z) (log : list Z) (address : Z)
  : option (list Z * Z) :=
  if more then
    match backing_store_read b address with
    | None => None
    | Some v => Some (set log v, address + BACKING_STORE_WRITE_SIZE)
    end
  else Some (log, address).

(** [case LOG_ENTRY_TYPE_MULTIBYTE]; [log] holds the entry's first word. *)
Definition playback_multibyte b (c log : list Z) (address : Z) : playback :=
  match read_part b (BACKING_STORE_WRITE_SIZE =? 2) (fun l => set_raw16 l 1) log address with
  | None => pb_fail c address
  | Some (log, address) =>
    let a := LOG_ENTRY_MULTIBYTE_GET_ADDRESS log in
    let l := LOG_ENTRY_MULTIBYTE_GET_LENGTH log in
    if WEAR_LEVELING_LOGICAL_SIZE <? a + l then pb_fail c address
    else
      match read_part b ((BACKING_STORE_WRITE_SIZE =? 2) && (1 <? l))
                      (fun l => set_raw16 l 2) log address with
      | None => pb_fail c address
      | Some (log, address) =>
        match read_part b ((BACKING_STORE_WRITE_SIZE =? 2) && (3 <? l))
                        (fun l => set_raw16 l 3) log address with
        | None => pb_fail c address
        | Some (log, address) =>
          match read_part b ((BACKING_STORE_WRITE_SIZE =? 4) && (1 <? l))
                          (fun l => set_raw32 l 1) log address with
          | None => pb_fail c address
          | Some (log, address) =>
              mk_pb (blit c a (slice log 3 l)) address false WEAR_LEVELING_SUCCESS
          end
        end
      end
  end.

(** The first word of an entry stored in the (otherwise unset) union. *)
Definition first_word (value : Z) : list Z :=
  if BACKING_STORE_WRITE_SIZE =? 2 then set_raw16 (memset 0 8) 0 value
  else if BACKING_STORE_WRITE_SIZE =? 4 then set_raw32 (memset 0 8) 0 value
  else set_raw64 (memset 0 8) value.

(** One round of the [while] loop. *)
Definition playback_step b p : playback :=
  let c := pb_cache p in
  match backing_store_read b (pb_address p) with
  | None => pb_fail c (pb_address p)
  | Some value =>
    if value =? 0 then mk_pb c (pb_address p) true (pb_status p)
    else
      let address := pb_address p + BACKING_STORE_WRITE_SIZE in
      let log := first_word value in
      let ty := LOG_ENTRY_GET_TYPE log in
      if ty =? LOG_ENTRY_TYPE_MULTIBYTE then playback_multibyte b c log address
      else if (BACKING_STORE_WRITE_SIZE =? 2) && (ty =? LOG_ENTRY_TYPE_OPTIMIZED_64) then
        let a := LOG_ENTRY_OPTIMIZED_64_GET_ADDRESS log in
        let v := LOG_ENTRY_OPTIMIZED_64_GET_VALUE log in
        if WEAR_LEVELING_LOGICAL_SIZE <=? a then pb_fail c address
        else mk_pb (updZ c a v) address false (pb_status p)
      else if (BACKING_STORE_WRITE_SIZE =? 2) && (ty =? LOG_ENTRY_TYPE_WORD_01) then
        let a := LOG_ENTRY_WORD_01_GET_ADDRESS log in
        let v := LOG_ENTRY_WORD_01_GET_VALUE log in
        if WEAR_LEVELING_LOGICAL_SIZE <=? a + 1 then pb_fail c address
        else mk_pb (updZ (updZ c (a + 0) v) (a + 1) 0) address false (pb_status p)
      else pb_fail c address
  end.

(** [while (!cancel_playback && address < WEAR_LEVELING_BACKING_SIZE)].
    Every round but the last advances the address by a word at least. *)
Fixpoint playback_loop (fuel : nat) b p : playback :=
  match fuel with
  | O => p
  | S fuel =>
      if negb (pb_cancel p) && (pb_address p <? WEAR_LEVELING_BACKING_SIZE)
      then playback_loop fuel b (playback_step b p)
      else p
  end.

Definition playback_fuel : nat := Z.to_nat WEAR_LEVELING_BACKING_SIZE.

Definition wear_leveling_playback_log s : wear_leveling_status_t * wl_state B :=
  let p := playback_loop playback_fuel (store s)
             (mk_pb (cache s) (WEAR_LEVELING_LOGICAL_SIZE + 8) false WEAR_LEVELING_SUCCESS) in
  let s := mk_wl (pb_cache p) (pb_address p) (unlocked s) (store s) in
  if decide (pb_status p = WEAR_LEVELING_FAILED) then wear_leveling_consolidate_force s
  else wear_leveling_consolidate_if_needed s.

(** ** Entry points *)

Definition wear_leveling_init s : wear_leveling_status_t * wl_state B :=
  let s := wear_leveling_clear_cache s in
  match backing_store_init (store s) with
  | (false, b) =>
      (WEAR_LEVELING_FAILED,
       wear_leveling_clear_cache (mk_wl (cache s) (write_address s) (unlocked s) b))
  | (true, b) =>
      match wear_leveling_read_consolidated
              (mk_wl (cache s) (write_address s) (unlocked s) b) with
      | (WEAR_LEVELING_FAILED, s) => (WEAR_LEVELING_FAILED, wear_leveling_clear_cache s)
      | (_, s) =>
          match wear_leveling_playback_log s with
          | (WEAR_LEVELING_FAILED, s) => (WEAR_LEVELING_FAILED, wear_leveling_clear_cache s)
          | (status, s) => (status, s)
          end
      end
  end.

Definition wear_leveling_erase s : wear_leveling_status_t * wl_state B :=
  let '(lock_status, s) := wear_leveling_unlock s in
  if decide (lock_status = STATUS_FAILURE) then (WEAR_LEVELING_FAILED, (wear_leveling_lock s).2)
  else
    let '(ret, b) := backing_store_erase (store s) in
    let s := wear_leveling_clear_cache (mk_wl (cache s) (write_address s) (unlocked s) b) in
    let '(ret, s) :=
      if decide (lock_status = STATUS_SUCCESS) then
        let '(l, s) := wear_leveling_lock s in (ret && negb (bool_decide (l = STATUS_FAILURE)), s)
      else (ret, s) in
    (if ret then WEAR_LEVELING_SUCCESS else WEAR_LEVELING_FAILED, s).

(** The unchanged case returns [true], which is [WEAR_LEVELING_SUCCESS]. *)
Definition wear_leveling_write (address : Z) (value : list Z) s
  : wear_leveling_status_t * wl_state B :=
  if WEAR_LEVELING_LOGICAL_SIZE <? u32 (address + lenZ value) then (WEAR_LEVELING_FAILED, s)
  else if bool_decide (value = slice (cache s) address (lenZ value))
  then (WEAR_LEVELING_SUCCESS, s)
  else
    let s := mk_wl (blit (cache s) address value) (write_address s) (unlocked s) (store s) in
    let '(lock_status, s) := wear_leveling_unlock s in
    if decide (lock_status = STATUS_FAILURE)
    then (WEAR_LEVELING_FAILED, (wear_leveling_lock s).2)
    else
      let '(status, s) := wear_leveling_write_raw address value s in
      let '(status, s) :=
        match status with
        | WEAR_LEVELING_CONSOLIDATED | WEAR_LEVELING_FAILED => (status, s)
        | WEAR_LEVELING_SUCCESS => wear_leveling_consolidate_if_needed s
        end in
      if decide (lock_status = STATUS_SUCCESS) then
        let '(l, s) := wear_leveling_lock s in
        (if decide (l = STATUS_FAILURE) then WEAR_LEVELING_FAILED else status, s)
      else (status, s).

(** [value] is the caller's buffer; it is left alone on failure. *)
Definition wear_leveling_read (address : Z) (value : list Z) s : wear_leveling_status_t * list Z :=
  if WEAR_LEVELING_LOGICAL_SIZE <? u32 (address + lenZ value) then (WEAR_LEVELING_FAILED, value)
  else (WEAR_LEVELING_SUCCESS, slice (cache s) address (lenZ value)).
End playback_operations.
