(* ===== verification/WearLevelingLog.v ===== *)
(** The write log of the wear-leveling layer as a list of entries: how an
    entry is laid out in words, and that one round of the playback loop
    decodes it. *)

From S2P Require Import Prelude.
From S2P Require Import BackingStore.
From S2P Require Import WearLeveling.

Section codec.
Context {cfg : WearLevelingConfig} {cfg_ok : WearLevelingConfigOk}.

(** ** Arithmetic of the bit fields *)

Lemma land_mask n x : 0 <= n -> x .& BITMASK_FOR_BITCOUNT n = x mod 2 ^ n.
Proof.
  intros. unfold BITMASK_FOR_BITCOUNT. rewrite Z.shiftl_1_l, Z.sub_1_r.
  rewrite <- Z.ones_equiv. by apply Z.land_ones.
Qed.

Lemma multibyte_head a l : 0 <= a < 524288 -> 0 <= l < 8 ->
  nthZ (LOG_ENTRY_MAKE_MULTIBYTE a l) 0 = 8 * l + a / 65536.
Proof.
  intros. unfold LOG_ENTRY_MAKE_MULTIBYTE. rewrite nthZ_cons_0, !land_mask by lia.
  change (u8 LOG_ENTRY_TYPE_MULTIBYTE mod 2 ^ 2 << 6) with 0. rewrite Z.lor_0_l.
  rewrite Z.shiftr_div_pow2 by lia. unfold u8. pow_consts.
  rewrite (lor_add 3); pow_consts; [|lia|dlia]. dlia.
Qed.

Lemma multibyte_bytes a l : 0 <= a < 524288 -> 0 <= l < 8 ->
  LOG_ENTRY_MAKE_MULTIBYTE a l
  = [8 * l + a / 65536; a / 256 mod 256; a mod 256; 0; 0; 0; 0; 0].
Proof.
  intros Ha Hl. pose proof (multibyte_head a l Ha Hl) as H. revert H.
  unfold LOG_ENTRY_MAKE_MULTIBYTE. rewrite nthZ_cons_0. intros ->.
  rewrite !land_mask, Z.shiftr_div_pow2 by lia. unfold u8. pow_consts.
  cons_eq; dlia.
Qed.

Lemma optimized_64_bytes a v : 0 <= a < 64 -> byte_range v ->
  LOG_ENTRY_MAKE_OPTIMIZED_64 a v = [64 + a; v; 0; 0; 0; 0; 0; 0].
Proof.
  intros. unfold LOG_ENTRY_MAKE_OPTIMIZED_64. rewrite (land_mask 6) by lia.
  change (u8 LOG_ENTRY_TYPE_OPTIMIZED_64 .& BITMASK_FOR_BITCOUNT 2) with 1.
  unfold u8. rewrite (lor_add 6); pow_consts; [|lia|dlia].
  cons_eq; dlia.
Qed.

Lemma word_01_bytes a v : 0 <= a < 16384 -> v = 0 \/ v = 1 ->
  LOG_ENTRY_MAKE_WORD_01 a v = [128 + 32 * v + a / 512; a / 2 mod 256; 0; 0; 0; 0; 0; 0].
Proof.
  intros Ha Hv. unfold LOG_ENTRY_MAKE_WORD_01. rewrite (land_mask 5) by lia.
  change (u8 LOG_ENTRY_TYPE_WORD_01 .& BITMASK_FOR_BITCOUNT 2) with 2.
  assert (Heq : u8 (if truthy v then 1 else 0) .& BITMASK_FOR_BITCOUNT 1 = v)
    by (destruct Hv as [->| ->]; done).
  rewrite Heq, !Z.shiftr_div_pow2 by lia. unfold u8. pow_consts.
  change (2 << 6) with (4 << 5). rewrite <- Z.shiftl_lor.
  replace (4 .| v) with (4 + v) by (destruct Hv as [->| ->]; done).
  rewrite (lor_add 5); pow_consts; [|lia|dlia].
  cons_eq; dlia.
Qed.

Lemma get_type_div log : 0 <= nthZ log 0 < 256 -> LOG_ENTRY_GET_TYPE log = nthZ log 0 / 64.
Proof.
  intros. unfold LOG_ENTRY_GET_TYPE. rewrite land_mask, Z.shiftr_div_pow2 by lia.
  pow_consts. dlia.
Qed.

Lemma multibyte_get_address log : bytes log ->
  LOG_ENTRY_MULTIBYTE_GET_ADDRESS log
  = nthZ log 0 mod 8 * 65536 + nthZ log 1 * 256 + nthZ log 2.
Proof.
  intros Hb. pose proof (bytes_nthZ log 1 Hb). pose proof (bytes_nthZ log 2 Hb).
  unfold LOG_ENTRY_MULTIBYTE_GET_ADDRESS. rewrite land_mask by lia. pow_consts.
  change 16 with (8 + 8). rewrite <- Z.shiftl_shiftl, <- Z.shiftl_lor by lia.
  rewrite (lor_add 8 (_ mod 8)) by (simpl; lia).
  rewrite (lor_add 8) by (simpl; lia). pow_consts. lia.
Qed.

Lemma multibyte_get_length log : bytes log ->
  LOG_ENTRY_MULTIBYTE_GET_LENGTH log = nthZ log 0 / 8 mod 8.
Proof.
  intros Hb. pose proof (bytes_nthZ log 0 Hb). unfold LOG_ENTRY_MULTIBYTE_GET_LENGTH.
  rewrite land_mask, Z.shiftr_div_pow2 by lia. pow_consts. unfold u8. dlia.
Qed.

(** ** Entries *)

Inductive entry :=
| Multibyte (address : Z) (data : list Z)
| Optimized64 (address value : Z)
| Word01 (address value : Z).

Definition multibyte_log (a : Z) (data : list Z) : list Z :=
  blit (LOG_ENTRY_MAKE_MULTIBYTE a (lenZ data)) 3 data.

(** The words of an entry, in the order they are appended. *)
Definition encode (e : entry) : list Z :=
  match e with
  | Multibyte a data =>
      let log := multibyte_log a data in
      if BACKING_STORE_WRITE_SIZE =? 2 then
        [raw16 log 0; raw16 log 1]
        ++ (if 1 <? lenZ data then [raw16 log 2] else [])
        ++ (if 3 <? lenZ data then [raw16 log 3] else [])
      else if BACKING_STORE_WRITE_SIZE =? 4 then
        raw32 log 0 :: (if 1 <? lenZ data then [raw32 log 1] else [])
      else [raw64 log]
  | Optimized64 a v => [raw16 (LOG_ENTRY_MAKE_OPTIMIZED_64 a v) 0]
  | Word01 a v => [raw16 (LOG_ENTRY_MAKE_WORD_01 a v) 0]
  end.

(** What an entry does to the cache. *)
Definition apply_entry (c : list Z) (e : entry) : list Z :=
  match e with
  | Multibyte a data => blit c a data
  | Optimized64 a v => blit c a [v]
  | Word01 a v => blit c a [v; 0]
  end.

Definition entry_wf (e : entry) : Prop :=
  match e with
  | Multibyte a data =>
      0 <= a /\ a + lenZ data <= WEAR_LEVELING_LOGICAL_SIZE
      /\ 1 <= lenZ data <= 5 /\ bytes data
  | Optimized64 a v =>
      BACKING_STORE_WRITE_SIZE = 2 /\ 0 <= a < 64 /\ a < WEAR_LEVELING_LOGICAL_SIZE
      /\ byte_range v
  | Word01 a v =>
      BACKING_STORE_WRITE_SIZE = 2 /\ 0 <= a < 16384 /\ a mod 2 = 0
      /\ a + 2 <= WEAR_LEVELING_LOGICAL_SIZE /\ (v = 0 \/ v = 1)
  end.

(** ** Layout facts *)

Lemma le_bytes_slice n log off : bytes log ->
  le_bytes n (le_val (slice log off (Z.of_nat n))) = slice log off (Z.of_nat n).
Proof.
  intros Hb. assert (Hl : length (slice log off (Z.of_nat n)) = n).
  { pose proof (lenZ_slice log off (Z.of_nat n)) as H. unfold lenZ in H. lia. }
  rewrite <- Hl at 1. apply le_bytes_val. by apply bytes_slice.
Qed.

(** Reading a word of [m] into the same place of [l] copies its bytes. *)
Lemma set_raw16_nth l m i j : bytes m -> 0 <= i < 4 -> lenZ l = 8 ->
  nthZ (set_raw16 l i (raw16 m i)) j
  = if (2 * i <=? j) && (j <? 2 * i + 2) then nthZ m j else nthZ l j.
Proof.
  intros Hm Hi Hl. unfold set_raw16, raw16. change 2 with (Z.of_nat 2) at 3.
  rewrite le_bytes_slice by done. change (Z.of_nat 2) with 2.
  rewrite nthZ_blit by (rewrite ?lenZ_slice; lia). rewrite lenZ_slice by lia.
  case_if; [|done]. rewrite nthZ_slice by lia. f_equal. lia.
Qed.

Lemma set_raw32_nth l m i j : bytes m -> 0 <= i < 2 -> lenZ l = 8 ->
  nthZ (set_raw32 l i (raw32 m i)) j
  = if (4 * i <=? j) && (j <? 4 * i + 4) then nthZ m j else nthZ l j.
Proof.
  intros Hm Hi Hl. unfold set_raw32, raw32. change 4 with (Z.of_nat 4) at 3.
  rewrite le_bytes_slice by done. change (Z.of_nat 4) with 4.
  rewrite nthZ_blit by (rewrite ?lenZ_slice; lia). rewrite lenZ_slice by lia.
  case_if; [|done]. rewrite nthZ_slice by lia. f_equal. lia.
Qed.

Lemma lenZ_le_bytes n z : lenZ (le_bytes n z) = Z.of_nat n.
Proof. unfold lenZ. by rewrite length_le_bytes. Qed.

Lemma set_raw16_wf l i v : bytes l -> 0 <= i < 4 -> lenZ l = 8 ->
  bytes (set_raw16 l i v) /\ lenZ (set_raw16 l i v) = 8.
Proof.
  intros. unfold set_raw16. split; [auto with qmk|].
  rewrite lenZ_blit; rewrite ?lenZ_le_bytes; lia.
Qed.

Lemma set_raw32_wf l i v : bytes l -> 0 <= i < 2 -> lenZ l = 8 ->
  bytes (set_raw32 l i v) /\ lenZ (set_raw32 l i v) = 8.
Proof.
  intros. unfold set_raw32. split; [auto with qmk|].
  rewrite lenZ_blit; rewrite ?lenZ_le_bytes; lia.
Qed.

Lemma multibyte_log_wf a data : 0 <= a < 524288 -> bytes data -> 1 <= lenZ data <= 5 ->
  bytes (multibyte_log a data) /\ lenZ (multibyte_log a data) = 8
  /\ nthZ (multibyte_log a data) 0 = 8 * lenZ data + a / 65536
  /\ nthZ (multibyte_log a data) 1 = a / 256 mod 256
  /\ nthZ (multibyte_log a data) 2 = a mod 256
  /\ slice (multibyte_log a data) 3 (lenZ data) = data.
Proof.
  intros Ha Hb Hl. unfold multibyte_log. rewrite multibyte_bytes by lia.
  set (h := [_; _; _; 0; 0; 0; 0; 0]).
  assert (Hh : bytes h) by (repeat constructor; dlia).
  assert (Hlen : lenZ h = 8) by done.
  split; [auto with qmk|]. split; [by rewrite lenZ_blit by lia|].
  rewrite !nthZ_blit by lia. do 3 (split; [repeat case_if; try lia; done|]).
  apply slice_blit; lia.
Qed.

Lemma logical_fits a n : 0 <= a -> 1 <= n -> a + n <= WEAR_LEVELING_LOGICAL_SIZE -> 0 <= a < 524288.
Proof. pose proof logical_bound. lia. Qed.

(** The bytes of a multi-byte entry that its fields are read from. *)
Lemma multibyte_fields a data log : 0 <= a < 524288 -> bytes data -> 1 <= lenZ data <= 5 ->
  bytes log -> (forall i, 0 <= i < 3 -> nthZ log i = nthZ (multibyte_log a data) i) ->
  LOG_ENTRY_MULTIBYTE_GET_ADDRESS log = a
  /\ LOG_ENTRY_MULTIBYTE_GET_LENGTH log = lenZ data
  /\ LOG_ENTRY_GET_TYPE log = LOG_ENTRY_TYPE_MULTIBYTE.
Proof.
  intros Ha Hb Hl Hlog Heq.
  destruct (multibyte_log_wf a data Ha Hb Hl) as (_ & _ & H0 & H1 & H2 & _).
  rewrite multibyte_get_address, multibyte_get_length by done.
  pose proof (bytes_nthZ log 0 Hlog). rewrite get_type_div by done.
  rewrite !Heq by lia. rewrite H0, H1, H2. unfold LOG_ENTRY_TYPE_MULTIBYTE. dlia.
Qed.

Lemma raw_range log off n : bytes log -> 0 <= n -> 0 <= le_val (slice log off n) < 256 ^ n.
Proof.
  intros. rewrite <- (lenZ_slice log off n) at 3 by done. apply le_val_range. by apply bytes_slice.
Qed.

Lemma le_val_head l : bytes l -> 0 < nthZ l 0 -> 0 < le_val l.
Proof.
  intros Hl H. destruct Hl as [|b l Hb Hl]; [done|]. rewrite nthZ_cons_0 in H.
  pose proof (le_val_range l Hl). simpl. lia.
Qed.

Lemma raw_nonzero log n : bytes log -> 0 < n -> 0 < nthZ log 0 -> 0 < le_val (slice log 0 n).
Proof.
  intros. apply le_val_head; [by apply bytes_slice|]. by rewrite nthZ_slice by lia.
Qed.

(** The first [n] bytes of the union under construction are those of [m]. *)
Definition agree (n : Z) (log m : list Z) : Prop :=
  bytes log /\ lenZ log = 8 /\ forall i, 0 <= i < n -> nthZ log i = nthZ m i.

Lemma agree_raw16 i log m : bytes m -> 0 <= i < 4 -> agree (2 * i) log m ->
  agree (2 * i + 2) (set_raw16 log i (raw16 m i)) m.
Proof.
  intros Hm Hi (Hb & Hl & Heq).
  destruct (set_raw16_wf log i (raw16 m i)) as [Hb' Hl']; [done..|].
  split; [done|]. split; [done|]. intros j Hj. rewrite set_raw16_nth by done.
  case_if; [done|]. apply Heq. lia.
Qed.

Lemma agree_raw32 i log m : bytes m -> 0 <= i < 2 -> agree (4 * i) log m ->
  agree (4 * i + 4) (set_raw32 log i (raw32 m i)) m.
Proof.
  intros Hm Hi (Hb & Hl & Heq).
  destruct (set_raw32_wf log i (raw32 m i)) as [Hb' Hl']; [done..|].
  split; [done|]. split; [done|]. intros j Hj. rewrite set_raw32_nth by done.
  case_if; [done|]. apply Heq. lia.
Qed.

Lemma agree_zero m : agree 0 (memset 0 8) m.
Proof. split; [by apply bytes_memset|]. split; [done|]. lia. Qed.

Lemma agree_raw64 m : bytes m -> lenZ m = 8 -> agree 8 (set_raw64 (memset 0 8) (raw64 m)) m.
Proof.
  intros Hm Hl. unfold set_raw64, raw64. change 8 with (Z.of_nat 8) at 3.
  rewrite le_bytes_slice by done. change (Z.of_nat 8) with 8.
  replace (slice m 0 8) with m by (rewrite <- Hl; by rewrite slice_all).
  assert (lenZ (memset 0 8) = 8) by done.
  split; [by apply bytes_blit; [apply bytes_memset|]|].
  split; [by rewrite lenZ_blit by lia|].
  intros i Hi. rewrite nthZ_blit by lia. case_if; [|lia]. f_equal. lia.
Qed.

Lemma agree_weaken n n' log m : agree n log m -> n' <= n -> agree n' log m.
Proof. intros (? & ? & H) ?. repeat split; auto. intros. apply H. lia. Qed.

Lemma agree_data n log a data : 0 <= a < 524288 -> bytes data -> 1 <= lenZ data <= 5 ->
  agree n log (multibyte_log a data) -> 3 + lenZ data <= n -> slice log 3 (lenZ data) = data.
Proof.
  intros Ha Hb Hl (_ & _ & Heq) Hn.
  destruct (multibyte_log_wf a data Ha Hb Hl) as (_ & _ & _ & _ & _ & Hs).
  rewrite <- Hs at 2. apply listZ_ext; rewrite !lenZ_slice by lia; [done|].
  intros i Hi. rewrite !nthZ_slice by lia. apply Heq. lia.
Qed.

Lemma encode_words e : entry_wf e ->
  Forall (fun w => 0 <= w < 256 ^ BACKING_STORE_WRITE_SIZE) (encode e)
  /\ 0 < nthZ (encode e) 0 /\ 1 <= lenZ (encode e).
Proof.
  destruct e as [a data|a v|a v]; simpl.
  - intros (Ha & Hle & Hl & Hb).
    pose proof (logical_fits a (lenZ data) Ha ltac:(lia) Hle) as Ha'.
    destruct (multibyte_log_wf a data Ha' Hb Hl) as (Hm & _ & Hh & _ & _ & _).
    assert (0 < nthZ (multibyte_log a data) 0) by (rewrite Hh; dlia).
    destruct write_size_ok as [->|[->| ->]]; simpl; repeat case_if;
      (split; [repeat constructor; apply raw_range; (done || lia)|]);
      (split; [apply raw_nonzero; (done || lia)|unfold lenZ; simpl; lia]).
  - intros (-> & Ha & _ & Hv). rewrite optimized_64_bytes by lia.
    assert (bytes [64 + a; v; 0; 0; 0; 0; 0; 0]) by (repeat constructor; lia).
    split; [repeat constructor; apply raw_range; (done || lia)|].
    split; [apply raw_nonzero; [done|lia|rewrite nthZ_cons_0; lia]|done].
  - intros (-> & Ha & _ & _ & Hv). rewrite word_01_bytes by lia.
    assert (bytes [128 + 32 * v + a / 512; a / 2 mod 256; 0; 0; 0; 0; 0; 0])
      by (repeat constructor; dlia).
    split; [repeat constructor; apply raw_range; (done || lia)|].
    split; [apply raw_nonzero; [done|lia|rewrite nthZ_cons_0; dlia]|done].
Qed.
End codec.

(** ** Decoding *)

Section decode.
Context {B : Type} {cfg : WearLevelingConfig} {cfg_ok : WearLevelingConfigOk}
        {driver : BackingStore B}.
Implicit Types (b : B) (c : list Z) (a : Z) (ws : list Z).

(** The words [ws] can be read from address [a] on. *)
Definition stored b a ws : Prop :=
  forall i, 0 <= i < lenZ ws ->
    backing_store_read b (a + BACKING_STORE_WRITE_SIZE * i) = Some (nthZ ws i).

Lemma stored_app b a ws ws' :
  stored b a (ws ++ ws') <->
  stored b a ws /\ stored b (a + BACKING_STORE_WRITE_SIZE * lenZ ws) ws'.
Proof.
  pose proof (lenZ_nonneg ws). pose proof (lenZ_nonneg ws'). unfold stored. rewrite lenZ_app.
  split.
  - intros H1. split; intros i Hi.
    + rewrite H1 by lia. rewrite nthZ_app by lia. case_if; [done|lia].
    + replace (a + BACKING_STORE_WRITE_SIZE * lenZ ws + BACKING_STORE_WRITE_SIZE * i)
        with (a + BACKING_STORE_WRITE_SIZE * (lenZ ws + i)) by lia.
      rewrite H1 by lia. rewrite nthZ_app by lia. case_if; [lia|]. do 2 f_equal. lia.
  - intros [H1 H2] i Hi. rewrite nthZ_app by lia. case_if; [apply H1; lia|].
    rewrite <- H2 by lia. f_equal. lia.
Qed.

Lemma stored_cons b a w ws :
  stored b a (w :: ws) <->
  backing_store_read b a = Some w /\ stored b (a + BACKING_STORE_WRITE_SIZE) ws.
Proof.
  change (w :: ws) with ([w] ++ ws). rewrite stored_app.
  assert (Hl : lenZ [w] = 1) by done. rewrite Hl, Z.mul_1_r. unfold stored at 1. rewrite Hl.
  split; intros [H1 H2]; (split; [|done]).
  - specialize (H1 0 ltac:(lia)). by rewrite Z.mul_0_r, Z.add_0_r in H1.
  - intros i Hi. replace i with 0 by lia. by rewrite Z.mul_0_r, Z.add_0_r.
Qed.

Lemma stored_nil b a : stored b a [] <-> True.
Proof. split; [done|]. intros _ i Hi. unfold lenZ in Hi. simpl in Hi. lia. Qed.

(** The part of [playback_multibyte] after the entry's words are read. *)
Lemma playback_multibyte_spec b c a data pos :
  0 <= a -> a + lenZ data <= WEAR_LEVELING_LOGICAL_SIZE -> 1 <= lenZ data <= 5 -> bytes data ->
  stored b pos (encode (Multibyte a data)) ->
  playback_multibyte b c (first_word (nthZ (encode (Multibyte a data)) 0))
                     (pos + BACKING_STORE_WRITE_SIZE)
  = mk_pb (blit c a data) (pos + BACKING_STORE_WRITE_SIZE * lenZ (encode (Multibyte a data)))
          false WEAR_LEVELING_SUCCESS.
Proof.
  intros Ha Hle Hl Hb. pose proof (logical_fits a (lenZ data) Ha ltac:(lia) Hle) as Ha'.
  set (m := multibyte_log a data).
  destruct (multibyte_log_wf a data Ha' Hb Hl) as (Hm & Hm8 & _).
  assert (Hf : forall n log, agree n log m -> 3 <= n ->
    LOG_ENTRY_MULTIBYTE_GET_ADDRESS log = a /\ LOG_ENTRY_MULTIBYTE_GET_LENGTH log = lenZ data).
  { intros n log (Hlb & _ & Heq) Hn.
    destruct (multibyte_fields a data log Ha' Hb Hl Hlb) as (? & ? & _); auto with lia. }
  assert (Hd : forall n log, agree n log m -> 3 + lenZ data <= n -> slice log 3 (lenZ data) = data)
    by (intros; by apply (agree_data n log a)).
  unfold encode. fold m.
  destruct write_size_ok as [HW|[HW|HW]]; unfold playback_multibyte, first_word;
    rewrite HW; simpl ((_ =? _)%Z); cbv iota.
  - pose proof (agree_raw16 0 _ m Hm ltac:(lia) (agree_zero m)) as A0.
    pose proof (agree_raw16 1 _ m Hm ltac:(lia) A0) as A1.
    pose proof (agree_raw16 2 _ m Hm ltac:(lia) A1) as A2.
    pose proof (agree_raw16 3 _ m Hm ltac:(lia) A2) as A3.
    destruct (Hf _ _ A1 ltac:(lia)) as [F1 F2].
    cbn [app]. rewrite !stored_cons, HW, nthZ_cons_0. intros (_ & R1 & R).
    unfold read_part. rewrite R1, F1, F2, HW. rewrite (proj2 (Z.ltb_ge _ _)) by lia.
    simpl ((_ =? _)%Z). cbn [andb].
    destruct (1 <? lenZ data) eqn:E1; b2p; cbn [app] in *.
    + rewrite stored_cons, HW in R. destruct R as [R2 R]. rewrite R2.
      destruct (3 <? lenZ data) eqn:E3; b2p; cbn [app] in *.
      * rewrite stored_cons, HW in R. destruct R as [R3 _]. rewrite R3.
        rewrite (Hd _ _ A3) by lia. f_equal. unfold lenZ. simpl. lia.
      * rewrite (Hd _ _ A2) by lia. f_equal. unfold lenZ. simpl. lia.
    + rewrite (proj2 (Z.ltb_ge 3 _)) by lia. rewrite (Hd _ _ A1) by lia.
      f_equal. unfold lenZ. simpl. lia.
  - pose proof (agree_raw32 0 _ m Hm ltac:(lia) (agree_zero m)) as A0.
    pose proof (agree_raw32 1 _ m Hm ltac:(lia) A0) as A1.
    destruct (Hf _ _ A0 ltac:(lia)) as [F1 F2].
    rewrite !stored_cons, HW, nthZ_cons_0. intros (_ & R).
    unfold read_part. rewrite F1, F2, HW. rewrite (proj2 (Z.ltb_ge _ _)) by lia.
    simpl ((_ =? _)%Z). cbn [andb].
    destruct (1 <? lenZ data) eqn:E1; b2p; cbn [app] in *.
    + rewrite stored_cons, HW in R. destruct R as [R2 R]. rewrite R2.
      rewrite (Hd _ _ A1) by lia. f_equal. unfold lenZ. simpl. lia.
    + rewrite (Hd _ _ A0) by lia. f_equal.
  - pose proof (agree_raw64 m Hm Hm8) as A. destruct (Hf _ _ A ltac:(lia)) as [F1 F2].
    rewrite nthZ_cons_0. intros _. unfold read_part. rewrite F1, F2.
    rewrite (proj2 (Z.ltb_ge _ _)) by lia. cbn [andb].
    rewrite (Hd _ _ A) by lia. f_equal.
Qed.

(** The first word of an entry tells its type. *)
Lemma first_word_type a data : 0 <= a -> a + lenZ data <= WEAR_LEVELING_LOGICAL_SIZE ->
  1 <= lenZ data <= 5 -> bytes data ->
  LOG_ENTRY_GET_TYPE (first_word (nthZ (encode (Multibyte a data)) 0)) = LOG_ENTRY_TYPE_MULTIBYTE.
Proof.
  intros Ha Hle Hl Hb. pose proof (logical_fits a (lenZ data) Ha ltac:(lia) Hle) as Ha'.
  set (m := multibyte_log a data).
  destruct (multibyte_log_wf a data Ha' Hb Hl) as (Hm & Hm8 & Hh & _).
  assert (Hf : forall n log, agree n log m -> 1 <= n -> LOG_ENTRY_GET_TYPE log = LOG_ENTRY_TYPE_MULTIBYTE).
  { intros n log (Hlb & _ & Heq) Hn. rewrite get_type_div by by apply bytes_nthZ.
    rewrite Heq by lia. unfold m. rewrite Hh. unfold LOG_ENTRY_TYPE_MULTIBYTE. dlia. }
  unfold encode, first_word. fold m.
  destruct write_size_ok as [HW|[HW|HW]]; rewrite HW; simpl ((_ =? _)%Z); cbv iota; cbn [app];
    rewrite nthZ_cons_0; eapply Hf;
    [apply (agree_raw16 0); [done|lia|apply agree_zero]|lia
    |apply (agree_raw32 0); [done|lia|apply agree_zero]|lia
    |by apply agree_raw64|lia].
Qed.

Lemma first_word_short h v (log := [h; v; 0; 0; 0; 0; 0; 0]) :
  BACKING_STORE_WRITE_SIZE = 2 -> byte_range h -> byte_range v ->
  LOG_ENTRY_GET_TYPE (first_word (raw16 log 0)) = h / 64
  /\ nthZ (first_word (raw16 log 0)) 0 = h /\ nthZ (first_word (raw16 log 0)) 1 = v.
Proof.
  intros HW Hh Hv. assert (Hb : bytes log) by (repeat constructor; lia).
  pose proof (agree_raw16 0 _ log Hb ltac:(lia) (agree_zero log)) as (Hlb & _ & Heq).
  unfold first_word. rewrite HW. simpl ((_ =? _)%Z). cbv iota.
  rewrite get_type_div by by apply bytes_nthZ. by rewrite !Heq by lia.
Qed.

Lemma updZ_2_blit c a v w : 0 <= a -> a + 2 <= lenZ c ->
  updZ (updZ c (a + 0) v) (a + 1) w = blit c a [v; w].
Proof.
  intros. assert (lenZ [v] = 1) by done. assert (lenZ [w] = 1) by done.
  rewrite Z.add_0_r. rewrite !updZ_blit by (rewrite ?lenZ_updZ; lia).
  change 1 with (lenZ [v]). rewrite blit_app by lia. done.
Qed.

(** One round of the playback loop decodes one entry. *)
Lemma playback_entry b c e pos : entry_wf e -> lenZ c = WEAR_LEVELING_LOGICAL_SIZE ->
  stored b pos (encode e) ->
  playback_step b (mk_pb c pos false WEAR_LEVELING_SUCCESS)
  = mk_pb (apply_entry c e) (pos + BACKING_STORE_WRITE_SIZE * lenZ (encode e))
          false WEAR_LEVELING_SUCCESS.
Proof.
  intros He Hc Hst. destruct (encode_words e He) as (_ & Hnz & Hlen).
  assert (Hrd : backing_store_read b pos = Some (nthZ (encode e) 0)).
  { specialize (Hst 0 ltac:(lia)). by rewrite Z.mul_0_r, Z.add_0_r in Hst. }
  unfold playback_step. cbn [pb_cache pb_address pb_status]. rewrite Hrd.
  rewrite (proj2 (Z.eqb_neq _ _)) by lia.
  destruct e as [a data|a v|a v].
  - destruct He as (Ha & Hle & Hl & Hb). rewrite first_word_type by done.
    rewrite Z.eqb_refl. by apply playback_multibyte_spec.
  - destruct He as (HW & Ha & HaL & Hv). cbn [encode] in *. rewrite nthZ_cons_0.
    rewrite optimized_64_bytes by lia.
    destruct (first_word_short (64 + a) v HW) as (T & H0 & H1); [lia|lia|].
    rewrite T, HW. replace ((64 + a) / 64) with 1 by dlia.
    unfold LOG_ENTRY_TYPE_MULTIBYTE, LOG_ENTRY_TYPE_OPTIMIZED_64. simpl ((_ =? _)%Z). cbv iota.
    cbn [andb]. unfold LOG_ENTRY_OPTIMIZED_64_GET_ADDRESS, LOG_ENTRY_OPTIMIZED_64_GET_VALUE.
    rewrite H0, H1, land_mask by lia. pow_consts. replace ((64 + a) mod 64) with a by dlia.
    rewrite (proj2 (Z.leb_gt _ _)) by lia. cbn [apply_entry].
    rewrite updZ_blit by lia. f_equal.
  - destruct He as (HW & Ha & Hev & HaL & Hv). cbn [encode] in *. rewrite nthZ_cons_0.
    rewrite word_01_bytes by lia.
    destruct (first_word_short (128 + 32 * v + a / 512) (a / 2 mod 256) HW) as (T & H0 & H1);
      [dlia|dlia|].
    rewrite T, HW. replace ((128 + 32 * v + a / 512) / 64) with 2 by dlia.
    unfold LOG_ENTRY_TYPE_MULTIBYTE, LOG_ENTRY_TYPE_OPTIMIZED_64, LOG_ENTRY_TYPE_WORD_01.
    simpl ((_ =? _)%Z). cbv iota. cbn [andb].
    unfold LOG_ENTRY_WORD_01_GET_ADDRESS, LOG_ENTRY_WORD_01_GET_VALUE.
    rewrite H0, H1, !land_mask, Z.shiftr_div_pow2 by lia. pow_consts.
    replace ((128 + 32 * v + a / 512) mod 32) with (a / 512) by dlia.
    change 9 with (8 + 1). rewrite <- Z.shiftl_shiftl, <- Z.shiftl_lor by lia. rewrite (lor_add 8) by (pow_consts; dlia).
    rewrite Z.shiftl_mul_pow2 by lia. pow_consts.
    replace ((a / 512 * 256 + a / 2 mod 256) * 2) with a by dlia.
    unfold u8. replace (((128 + 32 * v + a / 512) / 32) mod 256 mod 2) with v by dlia.
    rewrite (proj2 (Z.leb_gt _ _)) by lia. cbn [apply_entry].
    rewrite updZ_2_blit by lia. f_equal.
Qed.
End decode.
