(* ===== verification/WearLevelingProofs.v ===== *)
(** Correctness of the wear-leveling layer over a working backing store: the
    invariant that ties the cache to the consolidated area and the write log,
    that writes preserve it, and that a reboot restores the cache from it. *)

From S2P Require Import Prelude.
From S2P Require Import BackingStore.
From S2P Require Import WearLeveling.
From S2P Require Import WearLevelingLog.

(** ** Bytes and words *)

Section words.
Context {B : Type} {cfg : WearLevelingConfig} {cfg_ok : WearLevelingConfigOk}
        {driver : BackingStore B}.
Implicit Types (b : B) (l ws vs : list Z).

Lemma W_pos : 0 < BACKING_STORE_WRITE_SIZE.
Proof. apply RamStore.write_size_pos. Qed.

Lemma slice_app l a n m : 0 <= n -> 0 <= m -> slice l a n ++ slice l (a + n) m = slice l a (n + m).
Proof. intros. unfold slice. by rewrite seqZ_app, map_app by lia. Qed.

Lemma concat_words l k : bytes l ->
  concat (map (le_bytes (Z.to_nat BACKING_STORE_WRITE_SIZE))
    (map (fun i => le_val (slice l (i * BACKING_STORE_WRITE_SIZE) BACKING_STORE_WRITE_SIZE))
         (seqZ 0 (Z.of_nat k))))
  = slice l 0 (Z.of_nat k * BACKING_STORE_WRITE_SIZE).
Proof.
  intros Hb. pose proof W_pos. induction k as [|k IH]; [done|].
  rewrite Nat2Z.inj_succ. unfold Z.succ. rewrite seqZ_app by lia.
  rewrite !map_app, concat_app, IH. cbn [seqZ map concat]. simpl. rewrite app_nil_r.
  replace BACKING_STORE_WRITE_SIZE with (Z.of_nat (Z.to_nat BACKING_STORE_WRITE_SIZE)) at 4 by lia.
  rewrite le_bytes_slice by done. rewrite Z2Nat.id by lia.
  rewrite (Z.mul_add_distr_r _ 1), Z.mul_1_l, <- slice_app by nia. done.
Qed.

Lemma words_of_roundtrip l : bytes l -> lenZ l mod BACKING_STORE_WRITE_SIZE = 0 ->
  bytes_of_words (words_of l) = l.
Proof.
  intros Hb Hm. pose proof W_pos. pose proof (lenZ_nonneg l).
  assert (Hn : lenZ l = lenZ l / BACKING_STORE_WRITE_SIZE * BACKING_STORE_WRITE_SIZE)
    by (pose proof (Z.div_mod (lenZ l) BACKING_STORE_WRITE_SIZE); lia).
  assert (0 <= lenZ l / BACKING_STORE_WRITE_SIZE) as [k Hk]%Z_of_nat_complete by (apply Z.div_pos; lia).
  unfold bytes_of_words, words_of. rewrite Hk, concat_words by done.
  rewrite <- (slice_all l) at 2. by rewrite Hn, Hk.
Qed.

Lemma lenZ_words_of l : lenZ (words_of l) = lenZ l / BACKING_STORE_WRITE_SIZE.
Proof.
  unfold words_of. pose proof W_pos. pose proof (lenZ_nonneg l).
  assert (0 <= lenZ l / BACKING_STORE_WRITE_SIZE) by (apply Z.div_pos; lia).
  unfold lenZ at 1. rewrite length_map, length_seqZ. lia.
Qed.

Lemma words_of_range l : bytes l ->
  Forall (fun w => 0 <= w < 256 ^ BACKING_STORE_WRITE_SIZE) (words_of l).
Proof.
  intros. unfold words_of. apply Forall_map, Forall_true. intros. simpl.
  apply raw_range; [done|]. pose proof W_pos. lia.
Qed.

Lemma read_bulk_stored b a ws vs : stored b a ws -> length vs = length ws ->
  backing_store_read_bulk b a vs = (true, ws).
Proof.
  revert a vs. induction ws as [|w ws IH]; intros a [|v vs] Hs Hl; try done.
  apply stored_cons in Hs. destruct Hs as [Hr Hs]. simpl. rewrite Hr.
  rewrite IH; [done..|]. simpl in Hl. lia.
Qed.

Lemma fnv_64a_range l h : 0 <= h < 256 ^ 8 -> 0 <= fnv_64a_buf l h < 256 ^ 8.
Proof.
  revert h. induction l as [|x l IH]; intros h Hh; [done|]. cbn [fnv_64a_buf foldl].
  apply IH. unfold fnv_64a_step, u64. pow_consts. apply Z.mod_pos_bound. lia.
Qed.

Lemma checksum_range c : 0 <= fnv_64a_buf c FNV1A_64_INIT < 256 ^ 8.
Proof. apply fnv_64a_range. unfold FNV1A_64_INIT. pow_consts. lia. Qed.

Lemma logical_size_words : WEAR_LEVELING_LOGICAL_SIZE
  = WEAR_LEVELING_LOGICAL_SIZE / BACKING_STORE_WRITE_SIZE * BACKING_STORE_WRITE_SIZE.
Proof.
  pose proof W_pos. pose proof logical_multiple.
  pose proof (Z.div_mod WEAR_LEVELING_LOGICAL_SIZE BACKING_STORE_WRITE_SIZE). lia.
Qed.

Lemma backing_size_words : WEAR_LEVELING_BACKING_SIZE mod BACKING_STORE_WRITE_SIZE = 0.
Proof.
  pose proof W_pos. pose proof logical_bound. pose proof backing_multiple as Hm.
  pose proof (Z.div_mod WEAR_LEVELING_BACKING_SIZE WEAR_LEVELING_LOGICAL_SIZE) as Hd.
  specialize (Hd ltac:(lia)). rewrite Hm, Z.add_0_r in Hd. rewrite Hd, logical_size_words.
  rewrite Z.mul_comm, Z.mul_assoc. apply Z.mod_mul. lia.
Qed.

Lemma eight_words : 8 = 8 / BACKING_STORE_WRITE_SIZE * BACKING_STORE_WRITE_SIZE.
Proof. by destruct write_size_ok as [->|[->| ->]]. Qed.

(** An aligned address below the end of the store has a whole word there. *)
Lemma word_address_aligned a :
  0 <= a < WEAR_LEVELING_BACKING_SIZE -> a mod BACKING_STORE_WRITE_SIZE = 0 -> word_address a.
Proof.
  intros Ha Hm. split; [lia|]. split; [done|]. pose proof W_pos.
  assert (HW : BACKING_STORE_WRITE_SIZE <> 0) by lia.
  pose proof (Z.div_mod a _ HW) as Ea.
  pose proof (Z.div_mod WEAR_LEVELING_BACKING_SIZE _ HW) as Eb.
  rewrite backing_size_words in Eb. rewrite Hm in Ea.
  assert (a / BACKING_STORE_WRITE_SIZE < WEAR_LEVELING_BACKING_SIZE / BACKING_STORE_WRITE_SIZE)
    by (apply Z.mul_lt_mono_pos_l with BACKING_STORE_WRITE_SIZE; lia).
  nia.
Qed.

Lemma aligned_add a i : a mod BACKING_STORE_WRITE_SIZE = 0 ->
  (a + BACKING_STORE_WRITE_SIZE * i) mod BACKING_STORE_WRITE_SIZE = 0.
Proof. intros. pose proof W_pos. by rewrite Z.mul_comm, Z.mod_add by lia. Qed.

Lemma aligned_log_start : (WEAR_LEVELING_LOGICAL_SIZE + 8) mod BACKING_STORE_WRITE_SIZE = 0.
Proof.
  rewrite eight_words, logical_size_words, <- Z.mul_add_distr_r. apply Z.mod_mul.
  pose proof W_pos. lia.
Qed.
End words.

(** ** The store *)

Section store.
Context {B : Type} {cfg : WearLevelingConfig} {cfg_ok : WearLevelingConfigOk}
        {driver : BackingStore B} {store_laws : BackingStoreLaws B}.
Implicit Types (b : B) (l ws vs c : list Z) (s : wl_state B).

Lemma stored_frame b b' a ws : bs_wf b -> bs_wf b' -> 0 <= a ->
  a mod BACKING_STORE_WRITE_SIZE = 0 ->
  a + BACKING_STORE_WRITE_SIZE * lenZ ws <= WEAR_LEVELING_BACKING_SIZE ->
  (forall x, word_address x -> a <= x < a + BACKING_STORE_WRITE_SIZE * lenZ ws ->
     bs_word b' x = bs_word b x) ->
  stored b a ws -> stored b' a ws.
Proof.
  intros Hb Hb' Ha Hm Hle Heq Hst i Hi. pose proof W_pos.
  assert (Hx : word_address (a + BACKING_STORE_WRITE_SIZE * i)).
  { apply word_address_aligned; [nia|by apply aligned_add]. }
  rewrite bs_read_law by done. specialize (Hst i Hi). rewrite bs_read_law in Hst by done.
  rewrite Heq by (done || nia). done.
Qed.

(** Programming erased words one after the other. *)
Lemma write_bulk_spec ws : forall a b,
  bs_wf b -> bs_open b = true -> 0 <= a -> a mod BACKING_STORE_WRITE_SIZE = 0 ->
  a + BACKING_STORE_WRITE_SIZE * lenZ ws <= WEAR_LEVELING_BACKING_SIZE ->
  (forall x, word_address x -> a <= x -> x < a + BACKING_STORE_WRITE_SIZE * lenZ ws ->
     bs_word b x = 0) ->
  Forall (fun w => 0 <= w < 256 ^ BACKING_STORE_WRITE_SIZE) ws ->
  exists b', backing_store_write_bulk a ws b = (true, b') /\ bs_wf b' /\ bs_open b' = true
    /\ stored b' a ws
    /\ forall x, word_address x -> ~ a <= x < a + BACKING_STORE_WRITE_SIZE * lenZ ws ->
         bs_word b' x = bs_word b x.
Proof.
  induction ws as [|w ws IH]; intros a b Hb Ho Ha Hm Hle Hz Hr.
  { exists b. repeat split; auto. by apply stored_nil. }
  pose proof W_pos. pose proof (lenZ_nonneg ws).
  rewrite (lenZ_cons w ws) in Hle, Hz |- *.
  inversion Hr as [|? ? Hw Hr0]; subst.
  assert (Haa : word_address a) by (apply word_address_aligned; [nia|done]).
  destruct (bs_write_law b a w) as (b1 & E & Hb1 & Ho1 & Hw1); [done..|apply Hz; [done|lia|nia]|done|].
  destruct (IH (a + BACKING_STORE_WRITE_SIZE) b1) as (b2 & E2 & Hb2 & Ho2 & Hst & Hfr);
    [done|done|lia| |nia| |done|].
  { rewrite <- (Z.mul_1_r BACKING_STORE_WRITE_SIZE) at 1. by apply aligned_add. }
  { intros x Hx Hlo Hhi. rewrite Hw1 by done. case_if; [lia|]. apply Hz; [done|lia|nia]. }
  exists b2. simpl. rewrite E. split; [done|]. split; [done|]. split; [done|]. split.
  - apply stored_cons. split; [|done]. rewrite bs_read_law by done. f_equal.
    rewrite Hfr by (done || lia). rewrite Hw1 by done. by rewrite Z.eqb_refl.
  - intros x Hx Hout. rewrite Hfr by (done || nia). rewrite Hw1 by done. case_if; [nia|done].
Qed.

(** ** Consolidated area *)

(** What a boot reads from the consolidated area before the log is played. *)
Definition consolidated b : list Z :=
  cache (wear_leveling_read_consolidated
           (mk_wl (memset 0 WEAR_LEVELING_LOGICAL_SIZE) 0 false b)).2.

(** The consolidated area holds [c] and its checksum. *)
Definition holds b c : Prop :=
  stored b 0 (words_of c)
  /\ stored b WEAR_LEVELING_LOGICAL_SIZE (words_of (le_bytes 8 (fnv_64a_buf c FNV1A_64_INIT))).

Lemma length_words_of l k : lenZ l = lenZ k -> length (words_of l) = length (words_of k).
Proof.
  intros H. pose proof (lenZ_words_of l) as H1.
  pose proof (lenZ_words_of k) as H2.
  rewrite H, <- H2 in H1. unfold lenZ in H1. lia.
Qed.

Lemma logical_size_pos : 0 < WEAR_LEVELING_LOGICAL_SIZE.
Proof. pose proof logical_bound. lia. Qed.

Lemma lenZ_zero_cache : lenZ (memset 0 WEAR_LEVELING_LOGICAL_SIZE) = WEAR_LEVELING_LOGICAL_SIZE.
Proof. pose proof logical_size_pos. apply lenZ_replicate. lia. Qed.

Lemma checksum_mod n : lenZ (le_bytes 8 n) mod BACKING_STORE_WRITE_SIZE = 0.
Proof. by destruct write_size_ok as [->|[->| ->]]. Qed.

Lemma read_checksum_stored b n : 0 <= n < 256 ^ 8 ->
  stored b WEAR_LEVELING_LOGICAL_SIZE (words_of (le_bytes 8 n)) -> read_checksum b = n.
Proof.
  intros Hn Hst. unfold read_checksum.
  rewrite (read_bulk_stored b _ _ _ Hst) by (by apply length_words_of).
  rewrite words_of_roundtrip by (apply bytes_le_bytes || apply checksum_mod).
  unfold raw64. change 8 with (lenZ (le_bytes 8 n)). rewrite slice_all.
  by apply le_val_bytes.
Qed.

Lemma read_consolidated_holds s c : holds (store s) c -> bytes c ->
  lenZ c = WEAR_LEVELING_LOGICAL_SIZE -> lenZ (cache s) = WEAR_LEVELING_LOGICAL_SIZE ->
  wear_leveling_read_consolidated s
  = (WEAR_LEVELING_SUCCESS, mk_wl c (write_address s) (unlocked s) (store s)).
Proof.
  intros [H1 H2] Hb Hc Hs. unfold wear_leveling_read_consolidated.
  rewrite (read_bulk_stored _ _ _ _ H1) by (apply length_words_of; lia).
  rewrite words_of_roundtrip by (rewrite ?Hc; auto using logical_multiple).
  cbn [negb cache store write_address unlocked]. rewrite (read_checksum_stored _ _ (checksum_range _) H2).
  by rewrite Z.eqb_refl.
Qed.

Lemma consolidated_holds b c : holds b c -> bytes c -> lenZ c = WEAR_LEVELING_LOGICAL_SIZE ->
  consolidated b = c.
Proof.
  intros. unfold consolidated. by rewrite (read_consolidated_holds _ c) by (done || apply lenZ_zero_cache).
Qed.

Lemma read_bulk_ext b b' a vs :
  (forall i, 0 <= i < lenZ vs ->
     backing_store_read b' (a + BACKING_STORE_WRITE_SIZE * i)
     = backing_store_read b (a + BACKING_STORE_WRITE_SIZE * i)) ->
  backing_store_read_bulk b' a vs = backing_store_read_bulk b a vs.
Proof.
  revert a. induction vs as [|v vs IH]; intros a Heq; [done|].
  rewrite lenZ_cons in Heq. pose proof (lenZ_nonneg vs). simpl.
  pose proof (Heq 0 ltac:(lia)) as H0. rewrite Z.mul_0_r, Z.add_0_r in H0. rewrite H0.
  rewrite IH; [done|]. intros i Hi. specialize (Heq (1 + i) ltac:(lia)).
  replace (a + BACKING_STORE_WRITE_SIZE + BACKING_STORE_WRITE_SIZE * i)
    with (a + BACKING_STORE_WRITE_SIZE * (1 + i)) by lia. done.
Qed.

Lemma read_same b b' x : bs_wf b -> bs_wf b' -> word_address x ->
  bs_word b' x = bs_word b x -> backing_store_read b' x = backing_store_read b x.
Proof. intros. rewrite !bs_read_law by done. by f_equal. Qed.

(** The log starts inside the store. *)
Lemma log_start_bound : WEAR_LEVELING_LOGICAL_SIZE + 8 < WEAR_LEVELING_BACKING_SIZE.
Proof. pose proof backing_twice_logical. pose proof logical_bound. lia. Qed.

Lemma length_checksum n : lenZ (words_of (le_bytes 8 n)) = 8 / BACKING_STORE_WRITE_SIZE.
Proof. by rewrite lenZ_words_of, lenZ_le_bytes. Qed.

Lemma length_checksum_memset : lenZ (words_of (memset 0 8)) = 8 / BACKING_STORE_WRITE_SIZE.
Proof. by rewrite lenZ_words_of. Qed.

Lemma words_of_cache c : lenZ c = WEAR_LEVELING_LOGICAL_SIZE ->
  BACKING_STORE_WRITE_SIZE * lenZ (words_of c) = WEAR_LEVELING_LOGICAL_SIZE.
Proof. intros H. rewrite lenZ_words_of, H. pose proof logical_size_words. lia. Qed.

Lemma words_of_checksum n :
  BACKING_STORE_WRITE_SIZE * lenZ (words_of (le_bytes 8 n)) = 8.
Proof. rewrite length_checksum. pose proof eight_words. lia. Qed.

Lemma aligned_mul i : (BACKING_STORE_WRITE_SIZE * i) mod BACKING_STORE_WRITE_SIZE = 0.
Proof. apply (aligned_add 0). apply Z.mod_0_l. pose proof W_pos. lia. Qed.

(** The consolidated contents depend on the words below the log only. *)
Lemma consolidated_frame b b' : bs_wf b -> bs_wf b' ->
  (forall x, word_address x -> x < WEAR_LEVELING_LOGICAL_SIZE + 8 -> bs_word b' x = bs_word b x) ->
  consolidated b' = consolidated b.
Proof.
  intros Hb Hb' Heq. pose proof W_pos. pose proof log_start_bound. pose proof logical_size_pos.
  unfold consolidated, wear_leveling_read_consolidated, read_checksum. cbn [store cache].
  pose proof (words_of_cache _ lenZ_zero_cache).
  rewrite (read_bulk_ext b b' 0), (read_bulk_ext b b' WEAR_LEVELING_LOGICAL_SIZE).
  - destruct (backing_store_read_bulk b 0 _) as [[] ws]; cbn [negb]; repeat case_match; done.
  - intros i. rewrite length_checksum_memset. pose proof eight_words. intros Hi.
    assert (word_address (WEAR_LEVELING_LOGICAL_SIZE + BACKING_STORE_WRITE_SIZE * i)).
    { apply word_address_aligned; [nia|]. apply aligned_add. apply logical_multiple. }
    apply read_same; [done..|]. apply Heq; [done|nia].
  - intros i Hi.
    assert (word_address (0 + BACKING_STORE_WRITE_SIZE * i)).
    { apply word_address_aligned; [nia|]. apply aligned_add. apply Z.mod_0_l. lia. }
    apply read_same; [done..|]. apply Heq; [done|nia].
Qed.

(** ** The invariant *)

(** The cache and the driver are well formed and the store is erased from
    the write address on. *)
Record tail_ok s : Prop := mk_tail_ok {
  ok_store : bs_wf (store s);
  ok_lock : bs_open (store s) = unlocked s;
  ok_cache : lenZ (cache s) = WEAR_LEVELING_LOGICAL_SIZE;
  ok_bytes : bytes (cache s);
  ok_write_address : WEAR_LEVELING_LOGICAL_SIZE + 8 <= write_address s < WEAR_LEVELING_BACKING_SIZE;
  ok_aligned : write_address s mod BACKING_STORE_WRITE_SIZE = 0;
  ok_erased x : word_address x -> write_address s <= x -> bs_word (store s) x = 0;
}.

(** The consolidated area and the log up to the write address spell [c]. *)
Definition logged s c : Prop := exists es,
  Forall entry_wf es
  /\ stored (store s) (WEAR_LEVELING_LOGICAL_SIZE + 8) (concat (map encode es))
  /\ write_address s = WEAR_LEVELING_LOGICAL_SIZE + 8
                       + BACKING_STORE_WRITE_SIZE * lenZ (concat (map encode es))
  /\ foldl apply_entry (consolidated (store s)) es = c.

Definition wl_inv s : Prop := tail_ok s /\ logged s (cache s).

Lemma logged_frame s s' c e : tail_ok s -> tail_ok s' -> logged s c -> entry_wf e ->
  write_address s' = write_address s + BACKING_STORE_WRITE_SIZE * lenZ (encode e) ->
  stored (store s') (write_address s) (encode e) ->
  (forall x, word_address x -> x < write_address s -> bs_word (store s') x = bs_word (store s) x) ->
  logged s' (apply_entry c e).
Proof.
  intros T T' (es & Hwf & Hst & Hwa & Hc) He Hwa' Hst' Hfr.
  destruct T as [Hb _ _ _ Hr Hal _]. destruct T' as [Hb' _ _ _ _ _ _].
  exists (es ++ [e]). rewrite map_app, concat_app, foldl_app. cbn [map concat foldl].
  rewrite app_nil_r, lenZ_app. split; [by apply Forall_app_2; [|constructor]|].
  split; [apply stored_app; rewrite <- Hwa; split; [|done]|split].
  - apply stored_frame with (store s); [done..| | | | |done].
    + pose proof logical_size_pos. lia.
    + apply aligned_log_start.
    + lia.
    + intros x Hx ?. apply Hfr; [done|lia].
  - lia.
  - f_equal. rewrite (consolidated_frame (store s)); [done..|].
    intros x Hx ?. apply Hfr; [done|lia].
Qed.
End store.
