(* ===== verification/WearLevelingRefine.v ===== *)
(** The wear-leveling layer is a durable flat memory: writes keep the
    invariant, a reboot restores the cache, and sequences of writes and
    reboots behave like writes to an array. *)

From S2P Require Import Prelude.
From S2P Require Import BackingStore.
From S2P Require Import WearLeveling.
From S2P Require Import WearLevelingLog.
From S2P Require Import WearLevelingProofs.

(** ** Writing *)

Section writing.
Context {B : Type} {cfg : WearLevelingConfig} {cfg_ok : WearLevelingConfigOk}
        {driver : BackingStore B} {store_laws : BackingStoreLaws B}.
Implicit Types (b : B) (l ws p c : list Z) (s : wl_state B).

(** What every writing operation keeps: the cache and the lock. *)
Definition same_cache s s' : Prop := cache s' = cache s /\ unlocked s' = unlocked s.

Lemma same_cache_trans s1 s2 s3 : same_cache s1 s2 -> same_cache s2 s3 -> same_cache s1 s3.
Proof. intros [] []. split; congruence. Qed.

(** Consolidation needs the store unlocked; it may start from any log. *)
Lemma consolidate_force_spec s :
  bs_wf (store s) -> bs_open (store s) = true -> unlocked s = true ->
  lenZ (cache s) = WEAR_LEVELING_LOGICAL_SIZE -> bytes (cache s) ->
  exists s', wear_leveling_consolidate_force s = (WEAR_LEVELING_CONSOLIDATED, s')
    /\ wl_inv s' /\ same_cache s s'.
Proof.
  intros Hwf Ho Hu Hl Hb. unfold wear_leveling_consolidate_force.
  destruct (bs_erase_law (store s)) as (b1 & E1 & Hb1 & Ho1 & Hz1); [done..|].
  pose proof W_pos. pose proof log_start_bound. pose proof logical_size_pos.
  pose proof (words_of_cache _ Hl) as Hwc. pose proof (words_of_checksum (fnv_64a_buf (cache s) FNV1A_64_INIT)) as Hwk.
  rewrite E1. unfold wear_leveling_write_consolidated, wear_leveling_unlock.
  cbn [unlocked cache store write_address]. rewrite Hu. cbn [unlocked cache store write_address].
  destruct (write_bulk_spec (words_of (cache s)) 0 b1) as (b2 & E2 & Hb2 & Ho2 & Hst2 & Hfr2);
    [done|done|lia|by apply Z.mod_0_l; lia|lia|auto|by apply words_of_range|].
  rewrite E2. cbn [negb cache store write_address unlocked].
  destruct (write_bulk_spec (words_of (le_bytes 8 (fnv_64a_buf (cache s) FNV1A_64_INIT)))
    WEAR_LEVELING_LOGICAL_SIZE b2) as (b3 & E3 & Hb3 & Ho3 & Hst3 & Hfr3);
    [done|done|lia|apply logical_multiple|lia| |by apply words_of_range, bytes_le_bytes|].
  { intros x Hx ? ?. rewrite Hfr2 by (done || lia). by apply Hz1. }
  rewrite E3. rewrite decide_False by done. cbn [cache store write_address unlocked].
  eexists. split; [done|]. split; [|done]. split.
  - split; cbn [cache store write_address unlocked]; [done|congruence|done|done|lia|apply aligned_log_start|].
    intros x Hx ?. rewrite Hfr3, Hfr2 by (done || lia). by apply Hz1.
  - exists []. cbn [cache store write_address unlocked map concat foldl].
    split; [done|]. split; [by apply stored_nil|]. split; [rewrite lenZ_nil; lia|].
    apply consolidated_holds; [split|done|done]; [|done].
    apply stored_frame with b2; [done|done|lia|by apply Z.mod_0_l; lia|lia| |done].
    intros x Hx ?. apply Hfr3; [done|lia].
Qed.

(** Appending the words [ws], stopping when a consolidation took over. *)
Fixpoint append_words ws s : wear_leveling_status_t * wl_state B :=
  match ws with
  | [] => (WEAR_LEVELING_SUCCESS, s)
  | w :: ws =>
      let_ok s := wear_leveling_append_raw w s in append_words ws s
  end.

(** The words [ws] are in the log, and nothing else changed. *)
Record appended ws s s' : Prop := mk_appended {
  app_tail : tail_ok s';
  app_same : same_cache s s';
  app_address : write_address s' = write_address s + BACKING_STORE_WRITE_SIZE * lenZ ws;
  app_stored : stored (store s') (write_address s) ws;
  app_frame x : word_address x -> x < write_address s -> bs_word (store s') x = bs_word (store s) x;
}.

Definition append_result ws s (r : wear_leveling_status_t * wl_state B) : Prop :=
  exists s', (r = (WEAR_LEVELING_SUCCESS, s') /\ appended ws s s')
    \/ (r = (WEAR_LEVELING_CONSOLIDATED, s') /\ wl_inv s' /\ same_cache s s').

Lemma append_raw_spec s w : tail_ok s -> unlocked s = true ->
  0 <= w < 256 ^ BACKING_STORE_WRITE_SIZE ->
  append_result [w] s (wear_leveling_append_raw w s).
Proof.
  intros [Hb Ho Hl Hby Hwa Hal Hz] Hu Hw. pose proof W_pos. pose proof logical_size_pos.
  assert (Hx : word_address (write_address s)) by (apply word_address_aligned; [lia|done]).
  unfold append_result, wear_leveling_append_raw, wear_leveling_consolidate_if_needed.
  destruct (bs_write_law (store s) (write_address s) w) as (b1 & E1 & Hb1 & Ho1 & Hw1);
    [done|congruence|done|by apply Hz; [done|lia]|done|].
  rewrite E1. cbn [cache store write_address unlocked]. case_if.
  - destruct (consolidate_force_spec (mk_wl (cache s) (write_address s + BACKING_STORE_WRITE_SIZE) (unlocked s) b1))
      as (s' & -> & Hi & Hc); [done..|]. exists s'. right. done.
  - eexists. left. split; [done|]. split; cbn [cache store write_address unlocked].
    + split; cbn [cache store write_address unlocked]; [done|congruence|done|done|lia| |].
      * rewrite <- (Z.mul_1_r BACKING_STORE_WRITE_SIZE) at 1. by apply aligned_add.
      * intros x Hxx ?. rewrite Hw1 by done. case_if; [lia|]. apply Hz; [done|lia].
    + done.
    + rewrite lenZ_cons, lenZ_nil. lia.
    + apply stored_cons. split; [|by apply stored_nil].
      rewrite bs_read_law by done. rewrite Hw1 by done. by rewrite Z.eqb_refl.
    + intros x Hxx ?. rewrite Hw1 by done. case_if; [lia|done].
Qed.

Lemma append_words_spec ws : forall s, tail_ok s -> unlocked s = true ->
  Forall (fun w => 0 <= w < 256 ^ BACKING_STORE_WRITE_SIZE) ws ->
  append_result ws s (append_words ws s).
Proof.
  induction ws as [|w ws IH]; intros s Ht Hu Hw.
  { exists s. left. split; [done|]. split; [done|done|rewrite lenZ_nil; lia|by apply stored_nil|done]. }
  inversion Hw as [|? ? Hw0 Hws]; subst. pose proof W_pos. simpl.
  pose proof (ok_write_address _ Ht). pose proof (ok_aligned _ Ht). pose proof logical_size_pos.
  destruct (append_raw_spec s w Ht Hu Hw0) as (s1 & [[-> [T1 S1 A1 St1 F1]]|[-> Hc]]);
    [|exists s1; by right].
  rewrite lenZ_cons, lenZ_nil in A1.
  destruct (IH s1) as (s2 & [[E2 [T2 S2 A2 St2 F2]]|[E2 [Hi Hc]]]); [done|by rewrite (proj2 S1)|done| |].
  - exists s2. left. split; [done|]. split; [done|by apply same_cache_trans with s1| | |].
    + rewrite A2, A1, lenZ_cons. lia.
    + apply stored_cons. split; [|by rewrite Z.add_0_r, Z.mul_1_r in A1; rewrite <- A1].
      assert (word_address (write_address s)) by (apply word_address_aligned; [lia|done]).
      apply stored_cons in St1. destruct St1 as [<- _].
      apply read_same; [apply T1|apply T2|done|]. apply F2; [done|lia].
    + intros x Hx ?. rewrite F2, F1 by (done || lia). done.
  - exists s2. right. split; [done|]. split; [done|by apply same_cache_trans with s1].
Qed.

(** ** The write loop *)

Lemma raw_multibyte_words address p n s : n = lenZ (slice p 0 n) ->
  wear_leveling_write_raw_multibyte address p n s
  = append_words (encode (Multibyte address (slice p 0 n))) s.
Proof.
  intros Hn. unfold wear_leveling_write_raw_multibyte, encode, multibyte_log.
  rewrite <- Hn. repeat case_if; simpl; repeat case_match; simplify_eq; try done; lia.
Qed.

Lemma append_words_one w s : wear_leveling_append_raw w s = append_words [w] s.
Proof. simpl. by destruct (wear_leveling_append_raw w s) as [[]]. Qed.

Lemma lenZ_apply_entry c e : entry_wf e -> lenZ c = WEAR_LEVELING_LOGICAL_SIZE ->
  lenZ (apply_entry c e) = WEAR_LEVELING_LOGICAL_SIZE.
Proof.
  assert (H1 : forall v : Z, lenZ [v] = 1) by done. assert (H2 : forall v w : Z, lenZ [v; w] = 2) by done.
  destruct e; simpl; intros He Hc; rewrite lenZ_blit; rewrite ?H1, ?H2; lia.
Qed.

(** What the loop does for an entry [e] that stores the first [n] bytes. *)
Lemma loop_step s c e : tail_ok s -> unlocked s = true -> logged s c -> entry_wf e ->
  exists s', (append_words (encode e) s = (WEAR_LEVELING_SUCCESS, s')
              /\ tail_ok s' /\ same_cache s s' /\ logged s' (apply_entry c e))
    \/ (append_words (encode e) s = (WEAR_LEVELING_CONSOLIDATED, s')
        /\ wl_inv s' /\ same_cache s s').
Proof.
  intros Ht Hu Hlg He.
  destruct (append_words_spec (encode e) s Ht Hu (proj1 (encode_words e He)))
    as (s' & [[E [T S A St F]]|[E ?]]); exists s'; [left|by right].
  repeat split; try done; try apply S; try apply T. by apply (logged_frame s).
Qed.

Definition loop_result s (r : wear_leveling_status_t * wl_state B) : Prop :=
  exists st s', r = (st, s') /\ st <> WEAR_LEVELING_FAILED /\ wl_inv s' /\ same_cache s s'.

Lemma slice_drop p n m : 0 <= m -> slice (drop n p) 0 m = slice p (Z.of_nat n) m.
Proof.
  intros. apply listZ_ext; rewrite !lenZ_slice by done; [done|].
  intros i Hi. rewrite !nthZ_slice by done. rewrite nthZ_drop by lia. done.
Qed.

Lemma split_at p n : 0 <= n <= lenZ p -> p = slice p 0 n ++ drop (Z.to_nat n) p.
Proof.
  intros Hn. rewrite <- (slice_all p) at 1.
  replace (lenZ p) with (n + (lenZ p - n)) by lia. rewrite <- slice_app by lia. f_equal.
  rewrite <- (slice_all (drop (Z.to_nat n) p)), lenZ_drop by lia.
  rewrite slice_drop by lia. f_equal; lia.
Qed.

(** After an entry for the first [n] bytes, the rest completes the cache. *)
Lemma blit_rest c address p n : 0 <= address -> 0 <= n <= lenZ p -> address + lenZ p <= lenZ c ->
  blit (blit c address (slice p 0 n)) (address + n) (drop (Z.to_nat n) p) = blit c address p.
Proof.
  intros Ha Hn Hle. assert (Hs : lenZ (slice p 0 n) = n) by (apply lenZ_slice; lia).
  rewrite <- Hs at 2. rewrite blit_app by (rewrite ?lenZ_drop; lia). by rewrite <- split_at by lia.
Qed.

Lemma word_value_01 p : bytes p -> 2 <= lenZ p ->
  (let v := (nthZ p 1 << 8) .| nthZ p 0 in v = 0 \/ v = 1 -> slice p 0 2 = [v; 0]).
Proof.
  intros Hb Hl v. pose proof (bytes_nthZ p 0 Hb). pose proof (bytes_nthZ p 1 Hb).
  unfold v. rewrite lor_add by (pow_consts; lia). pow_consts. intros Hv.
  change (slice p 0 2) with [nthZ p 0; nthZ p 1]. cons_eq; lia.
Qed.

Lemma loop_branch s c e k : tail_ok s -> unlocked s = true -> logged s c -> entry_wf e ->
  (forall s', tail_ok s' -> unlocked s' = true -> logged s' (apply_entry c e) ->
     cache s' = cache s -> loop_result s' (k s')) ->
  loop_result s (let_ok s' := append_words (encode e) s in k s').
Proof.
  intros Ht Hu Hlg He Hk.
  destruct (loop_step s c e Ht Hu Hlg He) as (s' & [(-> & T & [Sc Su] & Lg)|(-> & ? & ?)]).
  - destruct (Hk s' T ltac:(congruence) Lg Sc) as (st & s2 & E2 & Hne & Hi & S2).
    exists st, s2. repeat split; try done; try apply Hi; try congruence; destruct S2; congruence.
  - by exists WEAR_LEVELING_CONSOLIDATED, s'.
Qed.

Lemma write_raw_loop_spec fuel : forall address p s c, (length p <= fuel)%nat ->
  tail_ok s -> unlocked s = true -> logged s c -> lenZ c = WEAR_LEVELING_LOGICAL_SIZE ->
  bytes p -> 0 <= address -> address + lenZ p <= WEAR_LEVELING_LOGICAL_SIZE ->
  blit c address p = cache s ->
  loop_result s (wear_leveling_write_raw_loop fuel address p s).
Proof.
  assert (Hnil : forall s c address, tail_ok s -> logged s c -> lenZ c = WEAR_LEVELING_LOGICAL_SIZE ->
    0 <= address <= lenZ c -> blit c address [] = cache s ->
    loop_result s (WEAR_LEVELING_SUCCESS, s)).
  { intros s c address Ht Hlg Hc Ha Hbl. rewrite blit_nil in Hbl by done. subst c.
    by exists WEAR_LEVELING_SUCCESS, s. }
  induction fuel as [|fuel IH]; intros address p s c Hfuel Ht Hu Hlg Hc Hb Ha Hle Hbl.
  { destruct p; [|simpl in Hfuel; lia]. rewrite lenZ_nil in Hle. apply (Hnil s c address); auto; lia. }
  cbn [wear_leveling_write_raw_loop]. case_if.
  { destruct p as [|x p]; [|rewrite lenZ_cons in E; pose proof (lenZ_nonneg p); lia].
    rewrite lenZ_nil in Hle. apply (Hnil s c address); auto; lia. }
  assert (Hrest : forall n s', 0 < n <= lenZ p -> tail_ok s' -> unlocked s' = true ->
    logged s' (blit c address (slice p 0 n)) -> cache s' = cache s ->
    loop_result s' (wear_leveling_write_raw_loop fuel (address + n) (drop (Z.to_nat n) p) s')).
  { intros n s' Hn T U Lg Cc. assert (Hs : lenZ (slice p 0 n) = n) by (apply lenZ_slice; lia).
    apply (IH _ _ _ (blit c address (slice p 0 n))); [|done|done|done| |by apply Forall_drop|lia| |].
    - rewrite length_drop. unfold lenZ in Hn. lia.
    - by rewrite lenZ_blit by lia.
    - rewrite lenZ_drop by lia. lia.
    - rewrite blit_rest by lia. congruence. }
  case_if; [|case_if].
  - assert (Hv : let v := (nthZ p 1 << 8) .| nthZ p 0 in v = 0 \/ v = 1) by lia.
    pose proof (word_value_01 p Hb ltac:(lia) Hv) as Hs. revert Hv Hs.
    set (v := (nthZ p 1 << 8) .| nthZ p 0). intros Hv Hs.
    rewrite append_words_one. apply (loop_branch s c (Word01 address v)); [done..| |].
    + repeat split; lia || done.
    + intros s' T U Lg Cc. apply (Hrest 2); [lia|done|done| |done]. by rewrite Hs.
  - rewrite append_words_one.
    apply (loop_branch s c (Optimized64 address (nthZ p 0))); [done..| |].
    + pose proof (bytes_nthZ p 0 Hb). repeat split; lia.
    + intros s' T U Lg Cc. apply (Hrest 1); [lia|done..].
  - set (n := if LOG_ENTRY_MULTIBYTE_MAX_BYTES <=? lenZ p then _ else _).
    assert (Hn : 1 <= n <= lenZ p /\ n <= 5)
      by (unfold n, LOG_ENTRY_MULTIBYTE_MAX_BYTES; case_if; lia).
    assert (Hs : lenZ (slice p 0 n) = n) by (apply lenZ_slice; lia).
    rewrite raw_multibyte_words by done.
    apply (loop_branch s c (Multibyte address (slice p 0 n))); [done..| |].
    + cbn [entry_wf]. rewrite Hs. repeat split; [lia..|by apply bytes_slice].
    + intros s' T U Lg Cc. apply (Hrest n); [lia|done..].
Qed.
End writing.

(** ** Playing the log back *)

Section reading.
Context {B : Type} {cfg : WearLevelingConfig} {cfg_ok : WearLevelingConfigOk}
        {driver : BackingStore B} {store_laws : BackingStoreLaws B}.
Implicit Types (b : B) (l ws p c : list Z) (s : wl_state B).

Lemma playback_entries b es : forall fuel pos c, (length es < fuel)%nat ->
  Forall entry_wf es -> lenZ c = WEAR_LEVELING_LOGICAL_SIZE ->
  stored b pos (concat (map encode es)) ->
  pos + BACKING_STORE_WRITE_SIZE * lenZ (concat (map encode es)) < WEAR_LEVELING_BACKING_SIZE ->
  backing_store_read b (pos + BACKING_STORE_WRITE_SIZE * lenZ (concat (map encode es))) = Some 0 ->
  playback_loop fuel b (mk_pb c pos false WEAR_LEVELING_SUCCESS)
  = mk_pb (foldl apply_entry c es)
          (pos + BACKING_STORE_WRITE_SIZE * lenZ (concat (map encode es)))
          true WEAR_LEVELING_SUCCESS.
Proof.
  pose proof W_pos.
  induction es as [|e es IH]; intros fuel pos c Hf Hwf Hc Hst Hlt Hz;
    (destruct fuel as [|fuel]; [simpl in Hf; lia|]); cbn [playback_loop pb_cancel pb_address negb andb].
  - cbn [map concat foldl] in *. rewrite lenZ_nil, Z.mul_0_r, Z.add_0_r in *.
    rewrite (proj2 (Z.ltb_lt _ _)) by done. unfold playback_step. cbn [pb_address pb_cache pb_status].
    rewrite Hz. simpl. destruct fuel; done.
  - inversion Hwf as [|? ? He Hes]; subst. cbn [map concat foldl] in *.
    pose proof (lenZ_nonneg (encode e)). pose proof (lenZ_nonneg (concat (map encode es))).
    rewrite lenZ_app in *. apply stored_app in Hst. destruct Hst as [Hs1 Hs2].
    rewrite (proj2 (Z.ltb_lt _ _)) by nia. rewrite (playback_entry b c e pos) by done.
    rewrite IH; [f_equal; lia|simpl in Hf; lia|done|by apply lenZ_apply_entry|done|lia|].
    rewrite <- Hz. f_equal. lia.
Qed.

Lemma length_entries es : Forall entry_wf es -> lenZ es <= lenZ (concat (map encode es)).
Proof.
  induction 1 as [|e es He Hes IH]; [done|]. cbn [map concat]. rewrite lenZ_cons, lenZ_app.
  destruct (encode_words e He) as (_ & _ & ?). lia.
Qed.

Lemma read_bulk_some b a vs : bs_wf b ->
  (forall i, 0 <= i < lenZ vs -> word_address (a + BACKING_STORE_WRITE_SIZE * i)) ->
  exists ws, backing_store_read_bulk b a vs = (true, ws) /\ length ws = length vs
    /\ Forall (fun w => 0 <= w < 256 ^ BACKING_STORE_WRITE_SIZE) ws
    /\ ((forall x, word_address x -> bs_word b x = 0) -> ws = replicate (length vs) 0).
Proof.
  intros Hb. revert a. induction vs as [|v vs IH]; intros a Ha; [by exists []|].
  rewrite lenZ_cons in Ha. pose proof (lenZ_nonneg vs).
  assert (Haa : word_address a).
  { specialize (Ha 0 ltac:(lia)). by rewrite Z.mul_0_r, Z.add_0_r in Ha. }
  destruct (IH (a + BACKING_STORE_WRITE_SIZE)) as (ws & E & Hl & Hr & Hz).
  { intros i Hi. specialize (Ha (1 + i) ltac:(lia)).
    replace (a + BACKING_STORE_WRITE_SIZE + BACKING_STORE_WRITE_SIZE * i)
      with (a + BACKING_STORE_WRITE_SIZE * (1 + i)) by lia. done. }
  exists (bs_word b a :: ws). simpl. rewrite bs_read_law, E by done.
  split; [done|]. split; [lia|]. split; [by constructor; [apply bs_word_range|]|].
  intros H0. by rewrite Hz, H0.
Qed.

Lemma cache_addresses i : 0 <= i < WEAR_LEVELING_LOGICAL_SIZE / BACKING_STORE_WRITE_SIZE ->
  word_address (0 + BACKING_STORE_WRITE_SIZE * i).
Proof.
  intros Hi. pose proof W_pos. pose proof logical_size_words. pose proof log_start_bound.
  apply word_address_aligned; [nia|]. apply aligned_add. apply Z.mod_0_l. lia.
Qed.

Lemma bytes_of_words_len ws : lenZ (bytes_of_words ws) = BACKING_STORE_WRITE_SIZE * lenZ ws.
Proof.
  pose proof W_pos. unfold bytes_of_words. induction ws as [|w ws IH]; [by rewrite Z.mul_0_r|].
  cbn [map concat]. rewrite lenZ_app, lenZ_cons, IH, lenZ_le_bytes. lia.
Qed.

Lemma bytes_of_words_bytes ws : bytes (bytes_of_words ws).
Proof. induction ws; [constructor|]. apply bytes_app; [apply bytes_le_bytes|done]. Qed.

Lemma bytes_of_words_zero n : bytes_of_words (replicate n 0) = memset 0 (BACKING_STORE_WRITE_SIZE * Z.of_nat n).
Proof.
  pose proof W_pos. apply listZ_ext; rewrite bytes_of_words_len.
  { rewrite lenZ_replicate by lia. unfold lenZ. by rewrite length_replicate. }
  intros i Hi. unfold lenZ in Hi. rewrite length_replicate in Hi. rewrite nthZ_memset by lia.
  unfold bytes_of_words. rewrite nthZ_lookup by lia.
  destruct (concat _ !! Z.to_nat i) as [x|] eqn:E; [|done]. simpl.
  apply list_elem_of_lookup_2 in E. apply list_elem_of_In, in_concat in E.
  destruct E as (l & Hl & Hx). apply in_map_iff in Hl. destruct Hl as (w & <- & Hw).
  apply list_elem_of_In, elem_of_replicate in Hw. destruct Hw as [-> _]. clear -Hx.
  induction (Z.to_nat BACKING_STORE_WRITE_SIZE); [done|]. destruct Hx as [<-|]; auto.
Qed.

(** Reading the consolidated area of a working store always succeeds. *)
Lemma read_consolidated_spec s : bs_wf (store s) ->
  cache s = memset 0 WEAR_LEVELING_LOGICAL_SIZE ->
  exists wa, wear_leveling_read_consolidated s
    = (WEAR_LEVELING_SUCCESS, mk_wl (consolidated (store s)) wa (unlocked s) (store s))
  /\ lenZ (consolidated (store s)) = WEAR_LEVELING_LOGICAL_SIZE
  /\ bytes (consolidated (store s))
  /\ ((forall x, word_address x -> bs_word (store s) x = 0) ->
      consolidated (store s) = memset 0 WEAR_LEVELING_LOGICAL_SIZE).
Proof.
  intros Hb Hc. pose proof lenZ_zero_cache. pose proof logical_size_words as HL.
  pose proof logical_size_pos.
  unfold consolidated, wear_leveling_read_consolidated. rewrite Hc. cbn [store cache].
  destruct (read_bulk_some (store s) 0 (words_of (memset 0 WEAR_LEVELING_LOGICAL_SIZE)) Hb)
    as (ws & E & Hlen & Hr & Hz).
  { rewrite lenZ_words_of, lenZ_zero_cache. apply cache_addresses. }
  rewrite E. cbn [negb store cache unlocked].
  assert (Hl : lenZ (bytes_of_words ws) = WEAR_LEVELING_LOGICAL_SIZE).
  { rewrite bytes_of_words_len. unfold lenZ. rewrite Hlen. fold (lenZ (words_of (memset 0 WEAR_LEVELING_LOGICAL_SIZE))).
    rewrite lenZ_words_of, lenZ_zero_cache. lia. }
  case_if; eexists; (split; [done|]).
  - split; [done|]. split; [apply bytes_of_words_bytes|]. intros Hall. cbn [snd cache].
    rewrite Hz by done. rewrite bytes_of_words_zero. f_equal.
    fold (lenZ (words_of (memset 0 WEAR_LEVELING_LOGICAL_SIZE))).
    rewrite lenZ_words_of, lenZ_zero_cache. lia.
  - split; [done|]. split; [by apply bytes_memset|done].
Qed.
End reading.

(** ** Entry points *)

Section entry_points.
Context {B : Type} {cfg : WearLevelingConfig} {cfg_ok : WearLevelingConfigOk}
        {driver : BackingStore B} {store_laws : BackingStoreLaws B}.
Implicit Types (b : B) (l ws p c : list Z) (s : wl_state B).

(** The log does not depend on the cache, the lock or the driver's state
    beyond the words it stores. *)
Lemma logged_words s s' c : tail_ok s -> bs_wf (store s') -> write_address s' = write_address s ->
  (forall x, word_address x -> bs_word (store s') x = bs_word (store s) x) ->
  logged s c -> logged s' c.
Proof.
  intros T Hb' Hwa Heq (es & Hwf & Hst & Hw & Hc). pose proof (ok_write_address _ T).
  pose proof (ok_store _ T). pose proof logical_size_pos.
  exists es. split; [done|]. split; [|split; [congruence|]].
  - apply stored_frame with (store s); [done|done|lia|apply aligned_log_start|lia| |done].
    intros x Hx _. by apply Heq.
  - rewrite (consolidated_frame (store s)); [done..|]. intros x Hx _. by apply Heq.
Qed.

Lemma tail_ok_words s s' : tail_ok s -> bs_wf (store s') -> bs_open (store s') = unlocked s' ->
  write_address s' = write_address s ->
  lenZ (cache s') = WEAR_LEVELING_LOGICAL_SIZE -> bytes (cache s') ->
  (forall x, word_address x -> bs_word (store s') x = bs_word (store s) x) -> tail_ok s'.
Proof.
  intros [] Hb' Ho' Hwa Hl Hb Heq. split; rewrite ?Hwa; try done.
  intros x Hx ?. rewrite Heq by done. auto.
Qed.

(** A change of the lock keeps the invariant. *)
Lemma wl_inv_words s s' : wl_inv s -> bs_wf (store s') -> bs_open (store s') = unlocked s' ->
  write_address s' = write_address s -> cache s' = cache s ->
  (forall x, word_address x -> bs_word (store s') x = bs_word (store s) x) -> wl_inv s'.
Proof.
  intros [T Lg] Hb' Ho' Hwa Hc Heq. split.
  - apply (tail_ok_words s); rewrite ?Hc; try done; apply T.
  - rewrite Hc. by apply (logged_words s).
Qed.

Lemma unlock_spec s : tail_ok s -> exists st s1, wear_leveling_unlock s = (st, s1)
  /\ st = (if unlocked s then STATUS_UNCHANGED else STATUS_SUCCESS)
  /\ bs_wf (store s1) /\ bs_open (store s1) = true /\ unlocked s1 = true
  /\ cache s1 = cache s /\ write_address s1 = write_address s
  /\ forall x, bs_word (store s1) x = bs_word (store s) x.
Proof.
  intros [Hb Ho _ _ _ _ _]. unfold wear_leveling_unlock. destruct (unlocked s) eqn:Hu.
  - by exists STATUS_UNCHANGED, s.
  - destruct (bs_unlock_law (store s)) as (b1 & E & ? & ? & ?); [done|congruence|]. rewrite E.
    by eexists _, _.
Qed.

Lemma lock_spec s : bs_wf (store s) -> bs_open (store s) = true -> unlocked s = true ->
  exists s1, wear_leveling_lock s = (STATUS_SUCCESS, s1)
  /\ bs_wf (store s1) /\ bs_open (store s1) = false /\ unlocked s1 = false
  /\ cache s1 = cache s /\ write_address s1 = write_address s
  /\ forall x, bs_word (store s1) x = bs_word (store s) x.
Proof.
  intros Hb Ho Hu. unfold wear_leveling_lock. rewrite Hu. cbn [negb].
  destruct (bs_lock_law (store s)) as (b1 & E & ? & ? & ?); [done..|]. rewrite E. by eexists.
Qed.

Lemma write_spec s address value : wl_inv s -> bytes value -> 0 <= address ->
  address + lenZ value <= WEAR_LEVELING_LOGICAL_SIZE ->
  exists st s', wear_leveling_write address value s = (st, s')
    /\ st <> WEAR_LEVELING_FAILED /\ wl_inv s' /\ unlocked s' = unlocked s
    /\ cache s' = blit (cache s) address value.
Proof.
  intros [T Lg] Hbv Ha Hle. pose proof (lenZ_nonneg value). pose proof logical_bound.
  pose proof (ok_cache _ T) as Hc. unfold wear_leveling_write.
  rewrite u32_id by lia. rewrite (proj2 (Z.ltb_ge _ _)) by lia.
  destruct (bool_decide_reflect (value = slice (cache s) address (lenZ value))) as [Heq|Hne].
  { exists WEAR_LEVELING_SUCCESS, s. repeat split; try done; try apply T.
    rewrite Heq at 1. by rewrite blit_slice by lia. }
  set (c' := blit (cache s) address value).
  assert (Hc' : lenZ c' = WEAR_LEVELING_LOGICAL_SIZE) by (unfold c'; by rewrite lenZ_blit by lia).
  assert (Hb' : bytes c') by (apply bytes_blit; [apply T|done]).
  assert (T0 : tail_ok (mk_wl c' (write_address s) (unlocked s) (store s)))
    by (apply (tail_ok_words s); try done; apply T).
  destruct (unlock_spec _ T0) as (lst & s1 & -> & Hlst & W1 & O1 & U1 & C1 & A1 & Heq1).
  cbn [cache write_address unlocked store] in *.
  rewrite decide_False by (rewrite Hlst; by case_match).
  assert (T1 : tail_ok s1).
  { apply (tail_ok_words s); rewrite ?C1, ?O1, ?U1; try done. }
  assert (Lg1 : logged s1 (cache s)).
  { apply (logged_words s); try done. }
  destruct (write_raw_loop_spec (length value) address value s1 (cache s))
    as (st & s2 & E2 & Hst & Hi2 & [C2 U2]); try done.
  unfold wear_leveling_write_raw. rewrite E2.
  assert (Hif : match st with
    | WEAR_LEVELING_SUCCESS => wear_leveling_consolidate_if_needed s2
    | _ => (st, s2) end = (st, s2)).
  { destruct st; [done| |done]. unfold wear_leveling_consolidate_if_needed.
    pose proof (ok_write_address _ (proj1 Hi2)). by rewrite (proj2 (Z.leb_gt _ _)) by lia. }
  destruct st; [done| |]; rewrite ?Hif; rewrite Hlst; destruct (unlocked s) eqn:Hu;
    cbn [decide]; first [rewrite decide_False by done|rewrite decide_True by done].
  1, 3: by eexists _, s2; repeat split; try done; try apply Hi2; congruence.
  all: destruct (lock_spec s2) as (s3 & -> & W3 & O3 & U3 & C3 & A3 & Heq3);
    [apply Hi2|rewrite (ok_lock _ (proj1 Hi2)); congruence|congruence|].
  all: rewrite decide_False by done; eexists _, s3; split; [done|]; split; [done|].
  all: split; [apply (wl_inv_words s2); auto; congruence|split; congruence].
Qed.

Lemma write_out_of_range s address value : 0 <= address ->
  address + lenZ value < 4294967296 -> WEAR_LEVELING_LOGICAL_SIZE < address + lenZ value ->
  wear_leveling_write address value s = (WEAR_LEVELING_FAILED, s).
Proof.
  intros. pose proof (lenZ_nonneg value). unfold wear_leveling_write.
  rewrite u32_id by lia. by rewrite (proj2 (Z.ltb_lt _ _)) by lia.
Qed.

(** A boot over a store that has an empty or a complete log. *)
Lemma playback_spec s es : Forall entry_wf es -> bs_wf (store s) ->
  lenZ (cache s) = WEAR_LEVELING_LOGICAL_SIZE ->
  stored (store s) (WEAR_LEVELING_LOGICAL_SIZE + 8) (concat (map encode es)) ->
  let wa := WEAR_LEVELING_LOGICAL_SIZE + 8
            + BACKING_STORE_WRITE_SIZE * lenZ (concat (map encode es)) in
  wa < WEAR_LEVELING_BACKING_SIZE -> bs_word (store s) wa = 0 ->
  wear_leveling_playback_log s
  = (WEAR_LEVELING_SUCCESS, mk_wl (foldl apply_entry (cache s) es) wa (unlocked s) (store s)).
Proof.
  intros Hwf Hb Hc Hst wa Hwa Hz. pose proof W_pos. pose proof logical_size_pos.
  pose proof (length_entries es Hwf) as Hlen. pose proof (lenZ_nonneg (concat (map encode es))).
  unfold wear_leveling_playback_log, playback_fuel.
  rewrite (playback_entries _ es); [|unfold lenZ in *; nia|done..|].
  - cbn [pb_cache pb_address pb_status]. rewrite decide_False by done.
    unfold wear_leveling_consolidate_if_needed. cbn [write_address].
    by rewrite (proj2 (Z.leb_gt _ _)) by done.
  - fold wa. rewrite bs_read_law; [by rewrite Hz|done|].
    apply word_address_aligned; [lia|]. apply aligned_add, aligned_log_start.
Qed.

(** [init] on a freshly reset microcontroller: the static struct is zero. *)
Definition boot b : wear_leveling_status_t * wl_state B :=
  wear_leveling_init (mk_wl (memset 0 WEAR_LEVELING_LOGICAL_SIZE) 0 false b).

Lemma boot_spec b es : bs_wf b -> bs_open b = false -> Forall entry_wf es ->
  stored b (WEAR_LEVELING_LOGICAL_SIZE + 8) (concat (map encode es)) ->
  let wa := WEAR_LEVELING_LOGICAL_SIZE + 8
            + BACKING_STORE_WRITE_SIZE * lenZ (concat (map encode es)) in
  wa < WEAR_LEVELING_BACKING_SIZE ->
  (forall x, word_address x -> wa <= x -> bs_word b x = 0) ->
  exists b', boot b = (WEAR_LEVELING_SUCCESS,
                       mk_wl (foldl apply_entry (consolidated b) es) wa false b')
    /\ bs_wf b' /\ bs_open b' = false /\ forall x, bs_word b' x = bs_word b x.
Proof.
  intros Hb Ho Hwf Hst wa Hwa Hz. pose proof W_pos. pose proof logical_size_pos.
  pose proof (lenZ_nonneg (concat (map encode es))).
  assert (Hwaa : word_address wa).
  { apply word_address_aligned; [lia|]. apply aligned_add, aligned_log_start. }
  unfold boot, wear_leveling_init, wear_leveling_clear_cache. cbn [cache write_address unlocked store].
  destruct (bs_init_law b Hb) as (b1 & E1 & Hb1 & Ho1 & Heq). rewrite E1.
  destruct (read_consolidated_spec (mk_wl (memset 0 WEAR_LEVELING_LOGICAL_SIZE)
    (WEAR_LEVELING_LOGICAL_SIZE + 8) false b1)) as (wa1 & -> & Hl & _ & _); [done..|].
  cbn [store unlocked] in *.
  rewrite (playback_spec _ es); cbn [store cache]; [|done|done|done| |done|by rewrite Heq, Hz by done].
  - exists b1. split; [|split; [done|split; [congruence|done]]]. fold wa. cbn [unlocked].
    by rewrite (consolidated_frame b b1) by (intros; done).
  - apply stored_frame with b; [done|done|lia|apply aligned_log_start|lia| |done].
    intros; apply Heq.
Qed.

Lemma boot_restores s : wl_inv s -> unlocked s = false ->
  exists s', boot (store s) = (WEAR_LEVELING_SUCCESS, s') /\ wl_inv s'
    /\ unlocked s' = false /\ cache s' = cache s.
Proof.
  intros Hi Hu. destruct Hi as [T (es & Hwf & Hst & Hwa & Hc)].
  destruct (boot_spec (store s) es) as (b' & E & Hb' & Ho' & Heq);
    [apply T|rewrite (ok_lock _ T); done|done|done|rewrite <- Hwa; apply T|..].
  { intros x Hx ?. apply (ok_erased _ T); [done|lia]. }
  eexists. split; [exact E|]. rewrite Hc, <- Hwa. split; [|done].
  apply (wl_inv_words s); try done. split; [done|by exists es].
Qed.

(** An erased store boots to a zeroed memory. *)
Lemma boot_erased b : bs_wf b -> bs_open b = false ->
  (forall x, word_address x -> bs_word b x = 0) ->
  exists s', boot b = (WEAR_LEVELING_SUCCESS, s') /\ wl_inv s' /\ unlocked s' = false
    /\ cache s' = memset 0 WEAR_LEVELING_LOGICAL_SIZE.
Proof.
  intros Hb Ho Hz. pose proof log_start_bound. pose proof logical_size_pos.
  destruct (boot_spec b []) as (b' & E & Hb' & Ho' & Heq);
    cbn [map concat] in *; rewrite ?lenZ_nil, ?Z.mul_0_r, ?Z.add_0_r in *;
    [done|done|done|by apply stored_nil|lia|intros; by apply Hz|].
  destruct (read_consolidated_spec (mk_wl (memset 0 WEAR_LEVELING_LOGICAL_SIZE) 0 false b))
    as (_ & _ & Hl & Hby & Hzero); [done..|]. cbn [store] in *. rewrite Hzero in E by done.
  eexists. split; [exact E|]. split; [|done]. split.
  - split; cbn [store unlocked cache write_address]; [done|done|apply lenZ_zero_cache
      |by apply bytes_memset|lia|apply aligned_log_start|intros; by rewrite Heq, Hz].
  - exists []. cbn [store unlocked cache write_address map concat foldl]. split; [done|].
    split; [by apply stored_nil|]. split; [rewrite lenZ_nil; lia|].
    rewrite (consolidated_frame b) by (intros; done). by apply Hzero.
Qed.

Lemma erase_spec s : wl_inv s -> exists s', wear_leveling_erase s = (WEAR_LEVELING_SUCCESS, s')
  /\ wl_inv s' /\ unlocked s' = unlocked s /\ cache s' = memset 0 WEAR_LEVELING_LOGICAL_SIZE.
Proof.
  intros [T _]. pose proof log_start_bound. pose proof logical_size_pos. unfold wear_leveling_erase.
  destruct (unlock_spec _ T) as (lst & s1 & -> & Hlst & W1 & O1 & U1 & C1 & A1 & Heq1).
  rewrite decide_False by (rewrite Hlst; by case_match).
  destruct (bs_erase_law (store s1)) as (b2 & -> & W2 & O2 & Hz); [done..|].
  set (s2 := wear_leveling_clear_cache _).
  assert (Hi2 : wl_inv s2).
  { destruct (read_consolidated_spec (mk_wl (memset 0 WEAR_LEVELING_LOGICAL_SIZE) 0 false b2))
      as (_ & _ & _ & _ & Hzero); [done..|]. split.
    - split; cbn [s2 wear_leveling_clear_cache store unlocked cache write_address];
        [done|congruence|apply lenZ_zero_cache|by apply bytes_memset|lia|apply aligned_log_start
        |intros; by rewrite Hz].
    - exists []. split; [done|]. split; [by apply stored_nil|].
      split; [cbn; rewrite Z.mul_0_r; lia|]. by apply Hzero. }
  rewrite Hlst. destruct (unlocked s) eqn:Hu; first [rewrite decide_False by done|rewrite decide_True by done].
  - by exists s2.
  - destruct (lock_spec s2) as (s3 & -> & W3 & O3 & U3 & C3 & A3 & Heq3); [done..|].
    exists s3. split; [done|]. split; [apply (wl_inv_words s2); auto; congruence|]. by rewrite C3.
Qed.
End entry_points.

(** ** The flat-memory specification *)

(** What happens to the memory: a write, an erase, or a power cycle. *)
Inductive wl_event :=
| EvWrite (address : Z) (value : list Z)
| EvErase
| EvReboot.

Section specification.
Context {B : Type} {cfg : WearLevelingConfig} {driver : BackingStore B}.

(** An event whose data are C values. *)
Definition event_wf (e : wl_event) : Prop :=
  match e with
  | EvWrite a v => 0 <= a /\ a + lenZ v < 4294967296 /\ bytes v
  | _ => True
  end.

(** The specification: an array of bytes that power cycles leave alone. *)
Definition flat_step (m : list Z) (e : wl_event) : list Z :=
  match e with
  | EvWrite a v => if a + lenZ v <=? WEAR_LEVELING_LOGICAL_SIZE then blit m a v else m
  | EvErase => memset 0 WEAR_LEVELING_LOGICAL_SIZE
  | EvReboot => m
  end.

(** The implementation: only the store survives a power cycle. *)
Definition wl_step (s : wl_state B) (e : wl_event) : wl_state B :=
  match e with
  | EvWrite a v => (wear_leveling_write a v s).2
  | EvErase => (wear_leveling_erase s).2
  | EvReboot => (boot (store s)).2
  end.
End specification.

Section refinement.
Context {B : Type} {cfg : WearLevelingConfig} {cfg_ok : WearLevelingConfigOk}
        {driver : BackingStore B} {store_laws : BackingStoreLaws B}.
Implicit Types (s : wl_state B).

Lemma wl_step_refines s e : wl_inv s -> unlocked s = false -> event_wf e ->
  wl_inv (wl_step s e) /\ unlocked (wl_step s e) = false
  /\ cache (wl_step s e) = flat_step (cache s) e.
Proof.
  intros Hi Hu He. destruct e as [a v| |]; simpl.
  - destruct He as (Ha & Hle & Hb). case_if.
    + destruct (write_spec s a v Hi Hb Ha E) as (st & s' & -> & _ & ? & Hu' & ?).
      split; [done|]. split; [cbn [snd]; congruence|done].
    + by rewrite write_out_of_range by lia.
  - destruct (erase_spec s Hi) as (s' & -> & ? & Hu' & ?). split; [done|].
    split; [cbn [snd]; congruence|done].
  - by destruct (boot_restores s Hi Hu) as (s' & -> & ? & ? & ?).
Qed.

Lemma wl_steps_refine es : forall s, wl_inv s -> unlocked s = false -> Forall event_wf es ->
  wl_inv (foldl wl_step s es) /\ unlocked (foldl wl_step s es) = false
  /\ cache (foldl wl_step s es) = foldl flat_step (cache s) es.
Proof.
  induction es as [|e es IH]; intros s Hi Hu Hwf; [done|].
  inversion Hwf as [|? ? He Hes]; subst. simpl.
  destruct (wl_step_refines s e Hi Hu He) as (Hi' & Hu' & Hc'). rewrite <- Hc'. by apply IH.
Qed.

Lemma read_spec s address value : wl_inv s -> 0 <= address ->
  address + lenZ value <= WEAR_LEVELING_LOGICAL_SIZE ->
  wear_leveling_read address value s
  = (WEAR_LEVELING_SUCCESS, slice (cache s) address (lenZ value)).
Proof.
  intros Hi Ha Hle. pose proof (lenZ_nonneg value). pose proof logical_bound.
  unfold wear_leveling_read. rewrite u32_id by lia. by rewrite (proj2 (Z.ltb_ge _ _)) by lia.
Qed.
End refinement.

(** ** Properties *)

(** A small configuration to evaluate the layer with: two-byte words, a
    32-byte memory, and a log that ten words fill. *)
Module WlExample.
Definition config : WearLevelingConfig := {|
  BACKING_STORE_WRITE_SIZE := 2;
  WEAR_LEVELING_BACKING_SIZE := 64;
  WEAR_LEVELING_LOGICAL_SIZE := 32;
|}.

Definition config_ok : @WearLevelingConfigOk config.
Proof. split; unfold config; cbn; first [done|lia]. Qed.

Lemma fresh_wf : @RamStore.wf config (@RamStore.fresh config).
Proof. apply (@RamStore.wf_erased config config_ok). done. Qed.

Lemma fresh_erased x : @word_address config x ->
  nthZ (RamStore.storage (@RamStore.fresh config)) (x / 2) = 0.
Proof.
  intros (? & ? & Hx). unfold config in Hx. simpl in Hx. unfold RamStore.fresh, RamStore.storage.
  apply nthZ_memset. change (@RamStore.element_count config) with 32. dlia.
Qed.

Definition events : list wl_event :=
  [EvWrite 3 [1; 2; 3; 4; 5; 6; 7]; EvReboot; EvWrite 4 [1; 0]; EvWrite 20 [9; 9; 9; 9; 9];
   EvReboot; EvErase; EvWrite 30 [7; 7; 7]; EvWrite 0 [0; 8]; EvReboot].

Lemma events_wf : Forall event_wf events.
Proof.
  unfold events. repeat apply Forall_cons_2; try done;
    (split; [lia|]; split; [done|]; repeat apply Forall_cons_2; (done || lia)).
Qed.
End WlExample.

(** C1: Over a working, erased flash the wear-leveling layer is a durable byte
    array. Booting succeeds, and after any sequence of writes, erases and power
    cycles every read returns what the array that ignores power cycles holds. *)
Theorem wear_leveling_refines_memory {B : Type} {cfg : WearLevelingConfig}
    {cfg_ok : WearLevelingConfigOk} {driver : BackingStore B} {laws : BackingStoreLaws B}
    (b : B) (es : list wl_event) :
  bs_wf b -> bs_open b = false -> (forall x, word_address x -> bs_word b x = 0) ->
  Forall event_wf es ->
  exists s0, boot b = (WEAR_LEVELING_SUCCESS, s0)
    /\ forall address value, 0 <= address -> address + lenZ value <= WEAR_LEVELING_LOGICAL_SIZE ->
         wear_leveling_read address value (foldl wl_step s0 es)
         = (WEAR_LEVELING_SUCCESS,
            slice (foldl flat_step (memset 0 WEAR_LEVELING_LOGICAL_SIZE) es) address (lenZ value)).
Proof.
  intros Hb Ho Hz Hes. destruct (boot_erased b Hb Ho Hz) as (s0 & E & Hi & Hu & Hc).
  exists s0. split; [done|]. intros address value Ha Hle.
  destruct (wl_steps_refine es s0 Hi Hu Hes) as (Hi' & _ & Hc').
  rewrite read_spec by done. by rewrite Hc', Hc.
Qed.

(** C2: The layer respects the flash: from an erased store in RAM, no sequence
    of writes, erases and power cycles programs a locked store, a misaligned
    address, an address out of the store or a word that is not erased, nor
    unlocks or locks twice. *)
Theorem wear_leveling_respects_flash {cfg : WearLevelingConfig} {cfg_ok : WearLevelingConfigOk}
    (es : list wl_event) (s0 := (boot RamStore.fresh).2) :
  Forall event_wf es ->
  RamStore.violated (store (foldl wl_step s0 es)) = false
  /\ RamStore.locked (store (foldl wl_step s0 es)) = true.
Proof.
  intros Hes.
  assert (Hwf : RamStore.wf RamStore.fresh) by by apply RamStore.wf_erased.
  destruct (boot_erased RamStore.fresh) as (s & E & Hi & Hu & _).
  - exact Hwf.
  - done.
  - intros x Hx. destruct (RamStore.index_range x Hx) as [? _]. by apply nthZ_memset.
  - unfold s0. rewrite E. cbn [snd]. destruct (wl_steps_refine es s Hi Hu Hes) as ([T _] & Hu' & _).
    split; [apply (RamStore.wf_clean _ (ok_store _ T))|].
    pose proof (ok_lock _ T) as Ho. rewrite Hu' in Ho. by apply negb_false_iff.
Qed.

Section witnesses.
#[local] Existing Instance WlExample.config.
#[local] Existing Instance WlExample.config_ok.

Lemma wear_leveling_refines_memory_witness :
  exists s0 : wl_state RamStore.t, boot RamStore.fresh = (WEAR_LEVELING_SUCCESS, s0)
    /\ forall address value, 0 <= address -> address + lenZ value <= 32 ->
         wear_leveling_read address value (foldl wl_step s0 WlExample.events)
         = (WEAR_LEVELING_SUCCESS,
            slice (foldl flat_step (memset 0 32) WlExample.events) address (lenZ value)).
Proof.
  exact (wear_leveling_refines_memory RamStore.fresh WlExample.events
           WlExample.fresh_wf eq_refl WlExample.fresh_erased WlExample.events_wf).
Defined.

Lemma wear_leveling_respects_flash_witness :
  RamStore.violated (store (foldl wl_step (boot RamStore.fresh).2 WlExample.events)) = false
  /\ RamStore.locked (store (foldl wl_step (boot RamStore.fresh).2 WlExample.events)) = true.
Proof. exact (wear_leveling_respects_flash WlExample.events WlExample.events_wf). Defined.
End witnesses.
