(* ===== verification/WearLevelingCrash.v ===== *)
(** Writes as lists of log entries: which entries a write appends, what a
    power loss between two of them leaves, and the status of a write. *)

From S2P Require Import Prelude.
From S2P Require Import BackingStore.
From S2P Require Import WearLeveling.
From S2P Require Import WearLevelingLog.
From S2P Require Import WearLevelingProofs.
From S2P Require Import WearLevelingRefine.

Section entries.
Context {B : Type} {cfg : WearLevelingConfig} {cfg_ok : WearLevelingConfigOk}
        {driver : BackingStore B} {store_laws : BackingStoreLaws B}.
Implicit Types (b : B) (l ws p c : list Z) (s : wl_state B).

(** The entry that stores the first bytes of [p], and their number. *)
Definition first_entry (address : Z) (p : list Z) : entry * Z :=
  let v := (nthZ p 1 << 8) .| nthZ p 0 in
  if (BACKING_STORE_WRITE_SIZE =? 2) && (2 <=? lenZ p) && (address mod 2 =? 0)
     && (address <? 16384) && ((v =? 0) || (v =? 1))
  then (Word01 address v, 2)
  else if (BACKING_STORE_WRITE_SIZE =? 2) && (address <? 64)
  then (Optimized64 address (nthZ p 0), 1)
  else let n := Z.min LOG_ENTRY_MULTIBYTE_MAX_BYTES (lenZ p) in
       (Multibyte address (slice p 0 n), n).

Fixpoint entries_of (fuel : nat) (address : Z) (p : list Z) : list entry :=
  match fuel with
  | O => []
  | S fuel =>
      if lenZ p <=? 0 then []
      else let '(e, n) := first_entry address p in
           e :: entries_of fuel (address + n) (drop (Z.to_nat n) p)
  end.

Definition write_entries (address : Z) (p : list Z) : list entry :=
  entries_of (length p) address p.

Lemma append_words_app ws ws' s :
  append_words (ws ++ ws') s = let_ok s1 := append_words ws s in append_words ws' s1.
Proof.
  revert s. induction ws as [|w ws IH]; intros s; [done|]. simpl.
  destruct (wear_leveling_append_raw w s) as [[] s1]; auto.
Qed.

Lemma first_entry_spec address p c e n : bytes p -> 0 < lenZ p -> 0 <= address ->
  address + lenZ p <= WEAR_LEVELING_LOGICAL_SIZE -> first_entry address p = (e, n) ->
  entry_wf e /\ 0 < n <= lenZ p /\ apply_entry c e = blit c address (slice p 0 n).
Proof.
  intros Hb Hl Ha Hle. unfold first_entry. repeat case_if; intros [= <- <-].
  - assert (Hv : let v := (nthZ p 1 << 8) .| nthZ p 0 in v = 0 \/ v = 1) by lia.
    pose proof (word_value_01 p Hb ltac:(lia) Hv) as Hs.
    rewrite Hs. repeat split; lia || done.
  - pose proof (bytes_nthZ p 0 Hb). repeat split; try lia.
  - unfold LOG_ENTRY_MULTIBYTE_MAX_BYTES. set (n := Z.min 5 _).
    assert (Hs : lenZ (slice p 0 n) = n) by (apply lenZ_slice; lia).
    cbn [entry_wf apply_entry]. rewrite Hs. repeat split; try lia. by apply bytes_slice.
Qed.

(** The write loop appends exactly these entries, whatever the state. *)
Lemma write_raw_loop_entries fuel : forall address p s, (length p <= fuel)%nat ->
  wear_leveling_write_raw_loop fuel address p s
  = append_words (concat (map encode (entries_of fuel address p))) s.
Proof.
  induction fuel as [|fuel IH]; intros address p s Hf; [done|].
  cbn [wear_leveling_write_raw_loop entries_of]. case_if; [done|].
  assert (HIH : forall n, 0 < n -> forall s',
    wear_leveling_write_raw_loop fuel (address + n) (drop (Z.to_nat n) p) s'
    = append_words (concat (map encode (entries_of fuel (address + n) (drop (Z.to_nat n) p)))) s').
  { intros n Hn s'. apply IH. rewrite length_drop. lia. }
  unfold first_entry. case_if; [|case_if]; cbn [map concat]; rewrite append_words_app.
  - rewrite append_words_one. cbn [encode]. destruct (append_words _ s) as [[] s1]; try done.
    apply (HIH 2). lia.
  - rewrite append_words_one. cbn [encode]. destruct (append_words _ s) as [[] s1]; try done.
    apply (HIH 1). lia.
  - assert (Hn : (if LOG_ENTRY_MULTIBYTE_MAX_BYTES <=? lenZ p then LOG_ENTRY_MULTIBYTE_MAX_BYTES
      else lenZ p) = Z.min LOG_ENTRY_MULTIBYTE_MAX_BYTES (lenZ p)) by (case_if; lia).
    rewrite Hn. set (n := Z.min _ _).
    assert (0 < n) by (unfold n, LOG_ENTRY_MULTIBYTE_MAX_BYTES; lia).
    rewrite raw_multibyte_words by (rewrite lenZ_slice; lia).
    destruct (append_words _ s) as [[] s1]; try done. by apply HIH.
Qed.

Lemma entries_wf fuel : forall address p, bytes p -> 0 <= address ->
  address + lenZ p <= WEAR_LEVELING_LOGICAL_SIZE -> Forall entry_wf (entries_of fuel address p).
Proof.
  induction fuel as [|fuel IH]; intros address p Hb Ha Hle; [constructor|].
  cbn [entries_of]. case_if; [constructor|].
  destruct (first_entry address p) as [e n] eqn:Ee.
  destruct (first_entry_spec address p [] e n Hb ltac:(lia) Ha Hle Ee) as (He & Hn & _).
  constructor; [done|]. apply IH; [by apply Forall_drop|lia|rewrite lenZ_drop by lia; lia].
Qed.

(** Any number of the entries leave a prefix of the data. *)
Lemma entries_prefix fuel : forall k address p c, bytes p -> 0 <= address ->
  address + lenZ p <= WEAR_LEVELING_LOGICAL_SIZE -> lenZ c = WEAR_LEVELING_LOGICAL_SIZE ->
  exists n, 0 <= n <= lenZ p
    /\ foldl apply_entry c (take k (entries_of fuel address p)) = blit c address (slice p 0 n).
Proof.
  assert (Hz : forall c address p, 0 <= address -> address + lenZ p <= lenZ c ->
    exists n, 0 <= n <= lenZ p /\ c = blit c address (slice p 0 n)).
  { intros c address p Ha Hle. pose proof (lenZ_nonneg p). exists 0. split; [lia|].
    change (slice p 0 0) with (@nil Z). by rewrite blit_nil by lia. }
  induction fuel as [|fuel IH]; intros [|k] address p c Hb Ha Hle Hc;
    try (apply Hz; lia); cbn [entries_of].
  case_if; [apply Hz; lia|]. destruct (first_entry address p) as [e n] eqn:Ee. cbn [take foldl].
  destruct (first_entry_spec address p c e n Hb ltac:(lia) Ha Hle Ee) as (He & Hn & ->).
  assert (Hs : lenZ (slice p 0 n) = n) by (apply lenZ_slice; lia).
  destruct (IH k (address + n) (drop (Z.to_nat n) p) (blit c address (slice p 0 n)))
    as (m & Hm & ->); [by apply Forall_drop|lia|rewrite lenZ_drop by lia; lia|by rewrite lenZ_blit by lia|].
  rewrite lenZ_drop in Hm by lia. exists (n + m). split; [lia|].
  rewrite <- Hs at 2. rewrite slice_drop by lia. rewrite Z2Nat.id by lia.
  rewrite blit_app by (rewrite ?lenZ_slice; lia). rewrite slice_app by lia. done.
Qed.

(** Appending whole entries while there is room. *)
Lemma append_entries es : forall s c, tail_ok s -> unlocked s = true -> logged s c ->
  Forall entry_wf es ->
  write_address s + BACKING_STORE_WRITE_SIZE * lenZ (concat (map encode es))
    < WEAR_LEVELING_BACKING_SIZE ->
  exists s', append_words (concat (map encode es)) s = (WEAR_LEVELING_SUCCESS, s')
    /\ tail_ok s' /\ unlocked s' = true /\ logged s' (foldl apply_entry c es).
Proof.
  pose proof W_pos. induction es as [|e es IH]; intros s c Ht Hu Hlg Hwf Hroom; [by exists s|].
  inversion Hwf as [|? ? He Hes]; subst. cbn [map concat foldl] in *.
  pose proof (lenZ_nonneg (encode e)). pose proof (lenZ_nonneg (concat (map encode es))).
  rewrite lenZ_app in Hroom. rewrite append_words_app.
  assert (Hno : (append_words (encode e) s).1 <> WEAR_LEVELING_CONSOLIDATED).
  { assert (Hr : write_address s + BACKING_STORE_WRITE_SIZE * lenZ (encode e) < WEAR_LEVELING_BACKING_SIZE) by nia.
    clear -Hr cfg_ok. revert s Hr. pose proof W_pos. induction (encode e) as [|w ws IHw]; intros s Hr; [done|].
    rewrite lenZ_cons in Hr. pose proof (lenZ_nonneg ws). simpl.
    unfold wear_leveling_append_raw. destruct (backing_store_write _ _ _) as [[] b1]; [|done].
    unfold wear_leveling_consolidate_if_needed. cbn [write_address].
    rewrite (proj2 (Z.leb_gt _ _)) by nia. apply IHw. cbn [write_address]. lia. }
  destruct (append_words_spec (encode e) s Ht Hu (proj1 (encode_words e He)))
    as (s1 & [[E [T S A St F]]|[E ?]]); [|by rewrite E in Hno].
  rewrite E. apply IH; [done|destruct S; congruence|by apply (logged_frame s)|done|lia].
Qed.
End entries.

(** ** Properties *)

(** What a power loss leaves: the store, locked again by the reset. *)
Definition power_cycle {B : Type} {cfg : WearLevelingConfig} {driver : BackingStore B}
  (s : wl_state B) : wear_leveling_status_t * wl_state B :=
  boot (backing_store_lock (store s)).2.

(** C3: A write is a sequence of log entries, and losing power between two of
    them loses a suffix of the data only: while the log has room, the write
    appends the words of [write_entries], and a boot after any number of these
    entries finds the old contents with a prefix of the new data. *)
Theorem interrupted_write_keeps_prefix {B : Type} {cfg : WearLevelingConfig}
    {cfg_ok : WearLevelingConfigOk} {driver : BackingStore B} {laws : BackingStoreLaws B}
    (s : wl_state B) (address : Z) (value : list Z) (k : nat) :
  wl_inv s -> unlocked s = true -> bytes value -> 0 <= address ->
  address + lenZ value <= WEAR_LEVELING_LOGICAL_SIZE ->
  write_address s + BACKING_STORE_WRITE_SIZE
    * lenZ (concat (map encode (take k (write_entries address value)))) < WEAR_LEVELING_BACKING_SIZE ->
  wear_leveling_write_raw address value s
    = append_words (concat (map encode (write_entries address value))) s
  /\ exists s1 s2 n,
       append_words (concat (map encode (take k (write_entries address value)))) s
         = (WEAR_LEVELING_SUCCESS, s1)
       /\ power_cycle s1 = (WEAR_LEVELING_SUCCESS, s2)
       /\ 0 <= n <= lenZ value
       /\ cache s2 = blit (cache s) address (slice value 0 n).
Proof.
  intros [T Lg] Hu Hb Ha Hle Hroom. split; [by apply write_raw_loop_entries|].
  destruct (append_entries (take k (write_entries address value)) s (cache s))
    as (s1 & E1 & T1 & U1 & Lg1); [done..|by apply Forall_take, entries_wf|done|].
  destruct (entries_prefix (length value) k address value (cache s)) as (n & Hn & En);
    [done..|apply T|].
  destruct (bs_lock_law (store s1)) as (b2 & E2 & W2 & O2 & Heq);
    [apply T1|by rewrite (ok_lock _ T1)|].
  destruct Lg1 as (es & Hwf & Hst & Hwa & Hc). pose proof (ok_write_address _ T1).
  pose proof (@logical_size_pos cfg cfg_ok).
  destruct (boot_spec b2 es) as (b3 & E3 & _); [done|done|done| |lia| |].
  - apply stored_frame with (store s1); [apply T1|done|lia|apply aligned_log_start|lia| |done].
    intros; apply Heq.
  - intros x Hx ?. rewrite Heq. apply (ok_erased _ T1); [done|lia].
  - exists s1. unfold power_cycle. rewrite E2. cbn [snd]. rewrite E3.
    eexists _, n. split; [done|]. split; [done|]. split; [done|]. cbn [cache].
    rewrite (consolidated_frame (store s1) b2), Hc by (done || apply T1). done.
Qed.

(** The status of a write. Out of range it fails and nothing changes; data
    the cache already holds succeed without touching the flash; any other data
    in range are accepted, by the log or by a consolidation, and are in the
    cache, in the same bytes, afterwards. *)
Theorem write_status {B : Type} {cfg : WearLevelingConfig} {cfg_ok : WearLevelingConfigOk}
    {driver : BackingStore B} {laws : BackingStoreLaws B}
    (s : wl_state B) (address : Z) (value : list Z) :
  wl_inv s -> bytes value -> 0 <= address -> address + lenZ value < 4294967296 ->
  if WEAR_LEVELING_LOGICAL_SIZE <? address + lenZ value
  then wear_leveling_write address value s = (WEAR_LEVELING_FAILED, s)
  else if bool_decide (value = slice (cache s) address (lenZ value))
  then wear_leveling_write address value s = (WEAR_LEVELING_SUCCESS, s)
  else exists st s', wear_leveling_write address value s = (st, s')
       /\ (st = WEAR_LEVELING_SUCCESS \/ st = WEAR_LEVELING_CONSOLIDATED)
       /\ wl_inv s' /\ unlocked s' = unlocked s
       /\ cache s' = blit (cache s) address value.
Proof.
  intros Hi Hb Ha Hlt. pose proof (lenZ_nonneg value). case_if; [by apply write_out_of_range|].
  case_if.
  - unfold wear_leveling_write. rewrite u32_id, E0 by lia. by rewrite (proj2 (Z.ltb_ge _ _)) by lia.
  - destruct (write_spec s address value Hi Hb Ha E) as (st & s' & Ew & Hne & ? & ? & ?).
    exists st, s'. split; [done|]. split; [destruct st; auto; done|done].
Qed.

Section witnesses.
#[local] Existing Instance WlExample.config.
#[local] Existing Instance WlExample.config_ok.

Lemma started_inv : wl_inv (boot RamStore.fresh).2.
Proof.
  destruct (boot_erased RamStore.fresh) as (s & E & Hi & _);
    [exact WlExample.fresh_wf|done|exact WlExample.fresh_erased|]. by rewrite E.
Qed.

Lemma unlocked_inv : wl_inv (wear_leveling_unlock (boot RamStore.fresh).2).2.
Proof.
  pose proof started_inv as Hi.
  destruct (unlock_spec _ (proj1 Hi)) as (st & s1 & E & _ & W & O & U & C & A & Heq).
  rewrite E. cbn [snd]. apply (wl_inv_words (boot RamStore.fresh).2); auto. congruence.
Qed.

Lemma interrupted_write_keeps_prefix_witness :
  exists s1 s2 n,
     append_words (concat (map encode (take 2 (write_entries 3 [1; 2; 3; 4; 5]))))
       (wear_leveling_unlock (boot RamStore.fresh).2).2 = (WEAR_LEVELING_SUCCESS, s1)
     /\ power_cycle s1 = (WEAR_LEVELING_SUCCESS, s2)
     /\ 0 <= n <= 5
     /\ cache s2 = blit (cache (wear_leveling_unlock (boot RamStore.fresh).2).2) 3 (slice [1; 2; 3; 4; 5] 0 n).
Proof.
  apply (interrupted_write_keeps_prefix (wear_leveling_unlock (boot RamStore.fresh).2).2
           3 [1; 2; 3; 4; 5] 2).
  - exact unlocked_inv.
  - vm_compute. reflexivity.
  - repeat apply Forall_cons_2; (done || lia).
  - lia.
  - vm_compute. discriminate.
  - vm_compute. reflexivity.
Defined.

Lemma write_status_witness :
  wear_leveling_write 30 [1; 2; 3] (boot RamStore.fresh).2
  = (WEAR_LEVELING_FAILED, (boot RamStore.fresh).2).
Proof.
  exact (write_status (boot RamStore.fresh).2 30 [1; 2; 3] started_inv
           ltac:(repeat apply Forall_cons_2; (done || lia)) ltac:(lia) ltac:(done)).
Defined.
End witnesses.
