(* ===== verification/Eeprom.v ===== *)
(** The EEPROM interface of [drivers/eeprom/]: the derived operations of
    [eeprom_driver.c] over any driver, the contract the rest of the firmware
    relies on, and two drivers that implement it, [eeprom_transient.c] and
    [eeprom_wear_leveling.c]. *)

From S2P Require Import Prelude.
From S2P Require Import BackingStore.
From S2P Require Import WearLeveling.
From S2P Require Import WearLevelingLog.
From S2P Require Import WearLevelingProofs.
From S2P Require Import WearLevelingRefine.

(** What a driver implements. A read fills the caller's buffer. *)
Class Eeprom (E : Type) := {
  eeprom_read_block : E -> list Z -> Z -> list Z;
  eeprom_write_block : list Z -> Z -> E -> E;
  eeprom_driver_erase : E -> E;
  eeprom_driver_format : bool -> E -> E;
}.

(** ** Operations common to all drivers, [eeprom_driver.c] *)

Section operations.
Context {E : Type} {eeprom : Eeprom E}.
Implicit Types (e : E).

Definition eeprom_read_byte e (addr : Z) : Z := le_val (eeprom_read_block e [0] addr).
Definition eeprom_read_word e (addr : Z) : Z := le_val (eeprom_read_block e [0; 0] addr).
Definition eeprom_read_dword e (addr : Z) : Z := le_val (eeprom_read_block e [0; 0; 0; 0] addr).

Definition eeprom_write_byte (addr value : Z) e : E := eeprom_write_block (le_bytes 1 value) addr e.
Definition eeprom_write_word (addr value : Z) e : E := eeprom_write_block (le_bytes 2 value) addr e.
Definition eeprom_write_dword (addr value : Z) e : E := eeprom_write_block (le_bytes 4 value) addr e.

(** The buffer read into is uninitialised; [fill] is what it holds. *)
Definition eeprom_update_block_from (fill : list Z) (buf : list Z) (addr : Z) e : E :=
  if bool_decide (buf = eeprom_read_block e fill addr) then e else eeprom_write_block buf addr e.
Definition eeprom_update_block (buf : list Z) (addr : Z) e : E :=
  eeprom_update_block_from (memset 0 (lenZ buf)) buf addr e.

Definition eeprom_update_byte (addr value : Z) e : E :=
  if eeprom_read_byte e addr =? value then e else eeprom_write_byte addr value e.
Definition eeprom_update_word (addr value : Z) e : E :=
  if eeprom_read_word e addr =? value then e else eeprom_write_word addr value e.
Definition eeprom_update_dword (addr value : Z) e : E :=
  if eeprom_read_dword e addr =? value then e else eeprom_write_dword addr value e.

(** The weak default of [eeprom_driver_format], for a driver without its own. *)
Definition eeprom_driver_format_weak (erase : bool) e : E := eeprom_driver_erase e.
End operations.

(** ** The contract

    In range, a driver is an array of bytes. *)
Class EepromLaws (E : Type) `{Eeprom E} := {
  ee_mem : E -> list Z;
  ee_size : Z;
  ee_wf : E -> Prop;
  ee_len e : ee_wf e -> lenZ (ee_mem e) = ee_size;
  ee_bytes e : ee_wf e -> bytes (ee_mem e);
  ee_read_law e buf addr : ee_wf e -> 0 <= addr -> addr + lenZ buf <= ee_size ->
    eeprom_read_block e buf addr = slice (ee_mem e) addr (lenZ buf);
  ee_write_law e buf addr : ee_wf e -> bytes buf -> 0 <= addr -> addr + lenZ buf <= ee_size ->
    ee_wf (eeprom_write_block buf addr e)
    /\ ee_mem (eeprom_write_block buf addr e) = blit (ee_mem e) addr buf;
  ee_erase_law e : ee_wf e ->
    ee_wf (eeprom_driver_erase e) /\ ee_mem (eeprom_driver_erase e) = memset 0 ee_size;
  (** Whether a format that is not asked to erase keeps the bytes. *)
  ee_keeps : bool;
  ee_format_law e erase : ee_wf e ->
    ee_wf (eeprom_driver_format erase e)
    /\ ee_mem (eeprom_driver_format erase e) = if negb erase && ee_keeps then ee_mem e else memset 0 ee_size;
}.

Section contract.
Context {E : Type} {eeprom : Eeprom E} {laws : EepromLaws E}.
Implicit Types (e : E) (buf : list Z).

(** [e'] is [e] with [buf] stored at [addr]. *)
Definition ee_stored e e' (addr : Z) buf : Prop :=
  ee_wf e' /\ ee_mem e' = blit (ee_mem e) addr buf.

Lemma eeprom_read_byte_spec e addr : ee_wf e -> 0 <= addr -> addr + 1 <= ee_size ->
  eeprom_read_byte e addr = nthZ (ee_mem e) addr.
Proof.
  intros Hw Ha Hle. unfold eeprom_read_byte. rewrite ee_read_law by (assumption || cbn; lia).
  change (lenZ [0]) with 1. rewrite slice_1. cbn [le_val]. lia.
Qed.

Lemma eeprom_read_word_spec e addr : ee_wf e -> 0 <= addr -> addr + 2 <= ee_size ->
  eeprom_read_word e addr = le_val (slice (ee_mem e) addr 2).
Proof. intros. unfold eeprom_read_word. by rewrite ee_read_law by (assumption || cbn; lia). Qed.

Lemma eeprom_read_dword_spec e addr : ee_wf e -> 0 <= addr -> addr + 4 <= ee_size ->
  eeprom_read_dword e addr = le_val (slice (ee_mem e) addr 4).
Proof. intros. unfold eeprom_read_dword. by rewrite ee_read_law by (assumption || cbn; lia). Qed.

Lemma eeprom_update_block_spec e buf addr : ee_wf e -> bytes buf -> 0 <= addr ->
  addr + lenZ buf <= ee_size -> ee_stored e (eeprom_update_block buf addr e) addr buf.
Proof.
  intros Hw Hb Ha Hle. pose proof (lenZ_nonneg buf).
  assert (Hm : lenZ (memset 0 (lenZ buf)) = lenZ buf) by by apply lenZ_replicate.
  unfold eeprom_update_block, eeprom_update_block_from. rewrite ee_read_law by (done || lia).
  rewrite Hm. case_bool_decide as Heq; [|by apply ee_write_law].
  split; [done|]. rewrite Heq. rewrite blit_slice; [done..|]. rewrite ee_len by done. lia.
Qed.

(** A value equal to what is stored need not be written again. *)
Lemma blit_same e n addr v : ee_wf e -> 0 <= addr -> addr + Z.of_nat n <= ee_size ->
  le_val (slice (ee_mem e) addr (Z.of_nat n)) = v ->
  blit (ee_mem e) addr (le_bytes n v) = ee_mem e.
Proof.
  intros Hw Ha Hle <-. rewrite le_bytes_slice by (by apply ee_bytes).
  apply blit_slice; [done|lia|by rewrite ee_len].
Qed.

Lemma eeprom_write_byte_spec e addr v : ee_wf e -> 0 <= addr -> addr + 1 <= ee_size ->
  ee_stored e (eeprom_write_byte addr v e) addr (le_bytes 1 v).
Proof. intros. apply ee_write_law; (done || apply bytes_le_bytes). Qed.
Lemma eeprom_write_word_spec e addr v : ee_wf e -> 0 <= addr -> addr + 2 <= ee_size ->
  ee_stored e (eeprom_write_word addr v e) addr (le_bytes 2 v).
Proof. intros. apply ee_write_law; (done || apply bytes_le_bytes). Qed.
Lemma eeprom_write_dword_spec e addr v : ee_wf e -> 0 <= addr -> addr + 4 <= ee_size ->
  ee_stored e (eeprom_write_dword addr v e) addr (le_bytes 4 v).
Proof. intros. apply ee_write_law; (done || apply bytes_le_bytes). Qed.

Lemma eeprom_update_byte_spec e addr v : ee_wf e -> 0 <= addr -> addr + 1 <= ee_size ->
  ee_stored e (eeprom_update_byte addr v e) addr (le_bytes 1 v).
Proof.
  intros. unfold eeprom_update_byte. case_if; [|by apply eeprom_write_byte_spec].
  split; [done|]. symmetry. apply blit_same; [done..|].
  rewrite eeprom_read_byte_spec in E0 by done. change (Z.of_nat 1) with 1. rewrite slice_1.
  cbn [le_val]. lia.
Qed.

Lemma eeprom_update_word_spec e addr v : ee_wf e -> 0 <= addr -> addr + 2 <= ee_size ->
  ee_stored e (eeprom_update_word addr v e) addr (le_bytes 2 v).
Proof.
  intros. unfold eeprom_update_word. case_if; [|by apply eeprom_write_word_spec].
  split; [done|]. symmetry. apply blit_same; [done..|]. by rewrite eeprom_read_word_spec in E0 by done.
Qed.

Lemma eeprom_update_dword_spec e addr v : ee_wf e -> 0 <= addr -> addr + 4 <= ee_size ->
  ee_stored e (eeprom_update_dword addr v e) addr (le_bytes 4 v).
Proof.
  intros. unfold eeprom_update_dword. case_if; [|by apply eeprom_write_dword_spec].
  split; [done|]. symmetry. apply blit_same; [done..|]. by rewrite eeprom_read_dword_spec in E0 by done.
Qed.

(** What is stored is read back, and disjoint ranges are left alone. *)
Lemma ee_stored_read e e' addr buf : ee_wf e -> 0 <= addr -> addr + lenZ buf <= ee_size ->
  ee_stored e e' addr buf -> slice (ee_mem e') addr (lenZ buf) = buf.
Proof. intros Hw Ha Hle [_ ->]. apply slice_blit; [done|by rewrite ee_len]. Qed.

Lemma ee_stored_nth e e' addr buf i : ee_wf e -> 0 <= addr -> addr + lenZ buf <= ee_size ->
  ee_stored e e' addr buf ->
  nthZ (ee_mem e') i
  = if (addr <=? i) && (i <? addr + lenZ buf) then nthZ buf (i - addr) else nthZ (ee_mem e) i.
Proof. intros Hw Ha Hle [_ ->]. apply nthZ_blit; [done|by rewrite ee_len]. Qed.

Lemma ee_stored_frame e e' addr buf a n : ee_wf e -> 0 <= addr -> addr + lenZ buf <= ee_size ->
  0 <= n -> a + n <= addr \/ addr + lenZ buf <= a ->
  ee_stored e e' addr buf -> slice (ee_mem e') a n = slice (ee_mem e) a n.
Proof.
  intros Hw Ha Hle Hn Hd Hst. apply listZ_ext; rewrite !lenZ_slice by done; [done|].
  intros i Hi. rewrite !nthZ_slice by done. rewrite (ee_stored_nth e e' addr buf) by done.
  case_if; [lia|done].
Qed.

(** A loop that stores [msg] from [base] on, byte by byte, as long as the
    offset is below [lim]. *)
Lemma update_loop_spec (area offset lim base n : Z) (msg : list Z) e :
  ee_wf e -> bytes msg -> 0 <= n -> 0 <= area -> 0 <= offset -> area + lim <= ee_size ->
  ee_stored e
    (for_Z 0 n (fun i e => if offset + i <? lim
                           then eeprom_update_byte (area + offset + i) (nthZ msg (base + i)) e
                           else e) e)
    (area + offset) (slice msg base (Z.min n (lim - offset))).
Proof.
  intros Hw Hb Hn Ha Ho Hlim.
  apply (for_Z_inv _ (fun i e' => ee_stored e e' (area + offset) (slice msg base (Z.min i (lim - offset)))));
    [done| |].
  - split; [done|]. rewrite slice_nil by lia. by rewrite blit_nil_any.
  - intros i e' Hi [Hw' Hm']. case_if.
    + destruct (eeprom_update_byte_spec e' (area + offset + i) (nthZ msg (base + i)) Hw')
        as [Hw2 Hm2]; [lia..|].
      split; [done|]. rewrite Hm2, Hm'. rewrite !Z.min_l by lia. rewrite slice_snoc by lia.
      cbn [le_bytes]. rewrite u8_id by by apply bytes_nthZ.
      replace (area + offset + i) with (area + offset + lenZ (slice msg base i)) by (rewrite lenZ_slice; lia).
      apply blit_app; [lia|]. rewrite ee_len, lenZ_slice by (done || lia). unfold lenZ. simpl. lia.
    + split; [done|]. rewrite Hm'. do 2 f_equal. lia.
Qed.
End contract.

(** ** The transient driver, [eeprom_transient.c]

    The state is [transientBuffer]; [size_t] and [intptr_t] have 32 bits. *)
Module Transient.
Section transient.
Context (TRANSIENT_EEPROM_SIZE : Z).

Record t := mk { transientBuffer : list Z }.

Definition clamp_length (offset len : Z) : Z :=
  if TRANSIENT_EEPROM_SIZE <? u32 (offset + len) then u32 (TRANSIENT_EEPROM_SIZE - offset) else len.

Definition erase (e : t) : t := mk (memset 0 TRANSIENT_EEPROM_SIZE).

Definition format (erase_ : bool) (e : t) : t := if erase_ then erase e else e.

Definition read_block (e : t) (buf : list Z) (addr : Z) : list Z :=
  let buf := memset 0 (lenZ buf) in
  let len := clamp_length addr (lenZ buf) in
  if 0 <? len then blit buf 0 (slice (transientBuffer e) addr len) else buf.

Definition write_block (buf : list Z) (addr : Z) (e : t) : t :=
  let len := clamp_length addr (lenZ buf) in
  if 0 <? len then mk (blit (transientBuffer e) addr (slice buf 0 len)) else e.

#[global] Instance driver : Eeprom t := {
  eeprom_read_block := read_block;
  eeprom_write_block := write_block;
  eeprom_driver_erase := erase;
  eeprom_driver_format := format;
}.

Definition blank : t := mk (memset 0 TRANSIENT_EEPROM_SIZE).

Context (size_ok : 0 <= TRANSIENT_EEPROM_SIZE < 4294967296).

Definition wf (e : t) : Prop :=
  lenZ (transientBuffer e) = TRANSIENT_EEPROM_SIZE /\ bytes (transientBuffer e).

Lemma blank_wf : wf blank.
Proof using size_ok. split; [apply lenZ_replicate; lia|by apply bytes_memset]. Qed.

Lemma clamp_in_range offset len : 0 <= offset -> 0 <= len -> offset + len <= TRANSIENT_EEPROM_SIZE ->
  clamp_length offset len = len.
Proof using size_ok.
  intros. unfold clamp_length. rewrite u32_id by lia. by rewrite (proj2 (Z.ltb_ge _ _)) by lia.
Qed.

#[program] Definition laws : EepromLaws t := {|
  ee_mem := transientBuffer;
  ee_size := TRANSIENT_EEPROM_SIZE;
  ee_wf := wf;
  ee_keeps := true;
|}.
Next Obligation. by intros e []. Qed.
Next Obligation. by intros e []. Qed.
Next Obligation.
  intros e buf addr [Hl Hb] Ha Hle. pose proof (lenZ_nonneg buf). cbn. unfold read_block.
  rewrite lenZ_replicate, clamp_in_range by done. case_if.
  - apply blit_whole. by rewrite lenZ_slice, lenZ_replicate by lia.
  - unfold slice. rewrite seqZ_nil by lia. unfold memset. by replace (Z.to_nat (lenZ buf)) with 0%nat by lia.
Qed.
Next Obligation.
  intros e buf addr [Hl Hb] Hbuf Ha Hle. pose proof (lenZ_nonneg buf). cbn. unfold write_block.
  rewrite clamp_in_range by done. rewrite slice_all. case_if; cbn.
  - split; [|done]. split; cbn; [by rewrite lenZ_blit by lia|by apply bytes_blit].
  - split; [done|]. destruct buf; [by rewrite blit_nil by lia|]. rewrite lenZ_cons in E.
    pose proof (lenZ_nonneg buf). lia.
Qed.
Next Obligation. intros e _. split; [apply blank_wf|done]. Qed.
Next Obligation. intros e [|] He; [split; [apply blank_wf|done]|done]. Qed.
End transient.
End Transient.

(** ** The wear-leveling driver, [eeprom_wear_leveling.c]

    The driver ignores the status codes. *)
Module WearLevelingEeprom.
Section driver.
Context {B : Type} {cfg : WearLevelingConfig} {store_driver : BackingStore B}.

Definition driver_init (s : wl_state B) : wl_state B := (wear_leveling_init s).2.
Definition erase (s : wl_state B) : wl_state B := (wear_leveling_erase s).2.
Definition format (erase_ : bool) (s : wl_state B) : wl_state B := erase s.
Definition read_block (s : wl_state B) (buf : list Z) (addr : Z) : list Z :=
  (wear_leveling_read (u32 addr) buf s).2.
Definition write_block (buf : list Z) (addr : Z) (s : wl_state B) : wl_state B :=
  (wear_leveling_write (u32 addr) buf s).2.

#[global] Instance driver : Eeprom (wl_state B) := {
  eeprom_read_block := read_block;
  eeprom_write_block := write_block;
  eeprom_driver_erase := erase;
  eeprom_driver_format := format;
}.

Context {cfg_ok : WearLevelingConfigOk} {store_laws : BackingStoreLaws B}.

#[program] Definition laws : EepromLaws (wl_state B) := {|
  ee_mem := cache;
  ee_size := WEAR_LEVELING_LOGICAL_SIZE;
  ee_wf s := wl_inv s /\ unlocked s = false;
  ee_keeps := false;
|}.
Next Obligation. intros s [[[] _] _]. done. Qed.
Next Obligation. intros s [[[] _] _]. done. Qed.
Next Obligation.
  intros s buf addr [Hi _] Ha Hle. cbn in *. pose proof (lenZ_nonneg buf).
  pose proof (@logical_bound cfg cfg_ok). unfold read_block. rewrite u32_id by lia.
  by rewrite read_spec by done.
Qed.
Next Obligation.
  intros s buf addr [Hi Hu] Hb Ha Hle. cbn in *. pose proof (lenZ_nonneg buf).
  pose proof (@logical_bound cfg cfg_ok). unfold write_block. rewrite u32_id by lia.
  destruct (write_spec s addr buf Hi Hb Ha Hle) as (st & s' & -> & _ & ? & Hu' & ?). cbn.
  split; [split; [done|congruence]|done].
Qed.
Next Obligation.
  intros s [Hi Hu]. cbn in *. unfold erase.
  destruct (erase_spec s Hi) as (s' & -> & ? & Hu' & ?). cbn. split; [split; [done|congruence]|done].
Qed.
Next Obligation.
  intros s b [Hi Hu]. cbn in *. rewrite andb_false_r. unfold format, erase.
  destruct (erase_spec s Hi) as (s' & -> & ? & Hu' & ?). cbn. split; [split; [done|congruence]|done].
Qed.
End driver.
End WearLevelingEeprom.

(** ** Properties *)

(** A call that changes the EEPROM. *)
Inductive ee_op :=
| OpWriteBlock (buf : list Z) (addr : Z)
| OpUpdateBlock (buf : list Z) (addr : Z)
| OpUpdateByte (addr value : Z)
| OpUpdateWord (addr value : Z)
| OpUpdateDword (addr value : Z)
| OpErase
| OpFormat (erase : bool).

Definition ee_run {E : Type} {eeprom : Eeprom E} (e : E) (op : ee_op) : E :=
  match op with
  | OpWriteBlock buf a => eeprom_write_block buf a e
  | OpUpdateBlock buf a => eeprom_update_block buf a e
  | OpUpdateByte a v => eeprom_update_byte a v e
  | OpUpdateWord a v => eeprom_update_word a v e
  | OpUpdateDword a v => eeprom_update_dword a v e
  | OpErase => eeprom_driver_erase e
  | OpFormat erase => eeprom_driver_format erase e
  end.

(** The bytes a call stores, and where. *)
Definition ee_op_data (op : ee_op) : option (Z * list Z) :=
  match op with
  | OpWriteBlock buf a | OpUpdateBlock buf a => Some (a, buf)
  | OpUpdateByte a v => Some (a, le_bytes 1 v)
  | OpUpdateWord a v => Some (a, le_bytes 2 v)
  | OpUpdateDword a v => Some (a, le_bytes 4 v)
  | OpErase | OpFormat _ => None
  end.

Definition ee_op_wf (size : Z) (op : ee_op) : Prop :=
  match ee_op_data op with
  | Some (a, buf) => bytes buf /\ 0 <= a /\ a + lenZ buf <= size
  | None => True
  end.

(** What a call does to the array of a driver that does or does not keep the
    bytes over [eeprom_driver_format(false)]. *)
Definition ee_op_spec (keeps : bool) (size : Z) (m : list Z) (op : ee_op) : list Z :=
  match ee_op_data op, op with
  | Some (a, buf), _ => blit m a buf
  | None, OpFormat false => if keeps then m else memset 0 size
  | None, _ => memset 0 size
  end.

Lemma ee_run_spec {E : Type} {eeprom : Eeprom E} {laws : EepromLaws E} ops : forall e,
  ee_wf e -> Forall (ee_op_wf ee_size) ops ->
  ee_wf (foldl ee_run e ops) /\ ee_mem (foldl ee_run e ops) = foldl (ee_op_spec ee_keeps ee_size) (ee_mem e) ops.
Proof.
  induction ops as [|op ops IH]; intros e Hw Hops; [done|].
  inversion Hops as [|? ? Hop Hrest]; subst. cbn [foldl].
  assert (H1 : ee_wf (ee_run e op) /\ ee_mem (ee_run e op) = ee_op_spec ee_keeps ee_size (ee_mem e) op).
  { destruct op; cbn in Hop |- *; try destruct Hop as (? & ? & ?).
    - by apply ee_write_law.
    - by apply eeprom_update_block_spec.
    - by apply eeprom_update_byte_spec.
    - by apply eeprom_update_word_spec.
    - by apply eeprom_update_dword_spec.
    - by apply ee_erase_law.
    - destruct (ee_format_law e erase Hw) as [H1 ->]. by destruct erase. }
  destruct H1 as [H1 <-]. by apply IH.
Qed.

(** Whether the byte has been written or erased since the last
    [eeprom_driver_format(false)]. *)
Definition settled_by (addr : Z) (settled : bool) (op : ee_op) : bool :=
  match ee_op_data op, op with
  | Some (a, buf), _ => settled || ((a <=? addr) && (addr <? a + lenZ buf))
  | None, OpFormat erase => erase
  | None, _ => true
  end.
Definition settled (addr : Z) (ops : list ee_op) : bool := foldl (settled_by addr) true ops.

Lemma spec_length keeps size ops : 0 <= size -> Forall (ee_op_wf size) ops -> forall m, lenZ m = size ->
  lenZ (foldl (ee_op_spec keeps size) m ops) = size.
Proof.
  intros Hs. induction 1 as [|op ops Hop _ IH]; intros m Hm; [done|]. cbn [foldl]. apply IH.
  unfold ee_op_wf in Hop. unfold ee_op_spec. destruct (ee_op_data op) as [[a buf]|].
  - rewrite lenZ_blit; lia.
  - destruct op as [| | | | | |[|]]; try destruct keeps; try done; by apply lenZ_replicate.
Qed.

Lemma settled_agree size addr ops : 0 <= addr < size -> Forall (ee_op_wf size) ops ->
  forall m1 m2 k1 k2 b, lenZ m1 = size -> lenZ m2 = size -> (b = true -> nthZ m1 addr = nthZ m2 addr) ->
  foldl (settled_by addr) b ops = true ->
  nthZ (foldl (ee_op_spec k1 size) m1 ops) addr = nthZ (foldl (ee_op_spec k2 size) m2 ops) addr.
Proof.
  intros Ha. induction ops as [|op ops IH]; intros Hops m1 m2 k1 k2 b H1 H2 Hb Hset; [by apply Hb|].
  apply list.Forall_cons in Hops. destruct Hops as [Hop Hops]. cbn [foldl] in *.
  assert (Hone : Forall (ee_op_wf size) [op]) by (by repeat constructor).
  apply (IH Hops _ _ k1 k2 (settled_by addr b op)); [by apply (spec_length k1 size [op]); [lia|..]|
    by apply (spec_length k2 size [op]); [lia|..]| |done].
  unfold settled_by, ee_op_spec, ee_op_wf in *. destruct (ee_op_data op) as [[a buf]|].
  - intros Hc. rewrite !nthZ_blit by lia. destruct ((a <=? addr) && (addr <? a + lenZ buf)); [done|].
    apply Hb. by rewrite orb_false_r in Hc.
  - destruct op as [| | | | | |[|]]; done.
Qed.

(** C4: The two drivers are interchangeable but for [eeprom_driver_format(false)],
    which the transient driver ignores and the wear-leveling driver does not: over
    an erased flash, the wear-leveling driver and the transient driver of the same
    size run any sequence of in-range writes, updates, erases and formats. A byte
    that was written, updated or erased since the last format that was not asked
    to erase, or any byte if there was none, is read back the same from both. *)
Theorem eeprom_drivers_agree {B : Type} {cfg : WearLevelingConfig} {cfg_ok : WearLevelingConfigOk}
    {driver : BackingStore B} {store_laws : BackingStoreLaws B} (b : B) (ops : list ee_op) :
  bs_wf b -> bs_open b = false -> (forall x, word_address x -> bs_word b x = 0) ->
  Forall (ee_op_wf WEAR_LEVELING_LOGICAL_SIZE) ops ->
  forall addr, 0 <= addr < WEAR_LEVELING_LOGICAL_SIZE -> settled addr ops = true ->
    @eeprom_read_byte _ WearLevelingEeprom.driver
      (foldl (@ee_run _ WearLevelingEeprom.driver) (boot b).2 ops) addr
    = @eeprom_read_byte _ (Transient.driver WEAR_LEVELING_LOGICAL_SIZE)
        (foldl (@ee_run _ (Transient.driver WEAR_LEVELING_LOGICAL_SIZE))
               (Transient.blank WEAR_LEVELING_LOGICAL_SIZE) ops) addr.
Proof.
  intros Hb Ho Hz Hops addr Ha Hset. pose proof (@logical_bound cfg cfg_ok).
  assert (Hsz : 0 <= WEAR_LEVELING_LOGICAL_SIZE < 4294967296) by lia.
  destruct (boot_erased b Hb Ho Hz) as (s & E & Hi & Hu & Hc). rewrite E. cbn [snd].
  destruct (ee_run_spec (laws := WearLevelingEeprom.laws) ops s) as [W1 M1]; [done..|].
  destruct (ee_run_spec (laws := Transient.laws _ Hsz) ops (Transient.blank WEAR_LEVELING_LOGICAL_SIZE))
    as [W2 M2]; [by apply Transient.blank_wf|done|].
  rewrite (eeprom_read_byte_spec (laws := WearLevelingEeprom.laws)), M1; [|done|lia|cbn; lia].
  rewrite (eeprom_read_byte_spec (laws := Transient.laws _ Hsz)), M2; [|done|lia|cbn; lia].
  cbn. rewrite Hc. by eapply settled_agree; [|..|exact Hset]; try apply lenZ_replicate; try lia.
Qed.

Section witnesses.
#[local] Existing Instance WlExample.config.
#[local] Existing Instance WlExample.config_ok.

(** A word that is stored, then the format of [eeconfig_init_quantum], then other
    writes: these agree, and the word is kept by one of the drivers only. *)
Definition example_ops : list ee_op :=
  [OpUpdateWord 6 0x1234; OpFormat false; OpUpdateBlock [1; 2; 3] 20; OpUpdateByte 21 9].

Lemma eeprom_drivers_agree_witness :
  @eeprom_read_byte _ WearLevelingEeprom.driver
    (foldl (@ee_run _ WearLevelingEeprom.driver) (boot RamStore.fresh).2 example_ops) 21
  = @eeprom_read_byte _ (Transient.driver 32)
      (foldl (@ee_run _ (Transient.driver 32)) (Transient.blank 32) example_ops) 21.
Proof.
  refine (eeprom_drivers_agree RamStore.fresh example_ops
            WlExample.fresh_wf eq_refl WlExample.fresh_erased _ 21 _ eq_refl).
  - repeat apply Forall_cons_2; try done;
      (split; [repeat apply Forall_cons_2; done|split; vm_compute; discriminate]).
  - unfold WlExample.config. cbn. lia.
Defined.

Lemma format_keeps_or_erases :
  @eeprom_read_byte _ WearLevelingEeprom.driver
    (foldl (@ee_run _ WearLevelingEeprom.driver) (boot RamStore.fresh).2 example_ops) 6 = 0 /\
  @eeprom_read_byte _ (Transient.driver 32)
    (foldl (@ee_run _ (Transient.driver 32)) (Transient.blank 32) example_ops) 6 = 0x34.
Proof. vm_compute. done. Qed.
End witnesses.
