(* ===== verification/DynamicKeymap.v ===== *)
(** The keymap, encoder map, tap-dance, combo, key-override, settings and macro
    areas of the EEPROM: [quantum/dynamic_keymap.c] with the layout macros of
    [quantum/dynamic_keymap.c], [via.h] and [vial.h], over any EEPROM driver.
    The firmware is a Vial build with every dynamic feature compiled in; a
    feature without entries has the count zero. *)

From S2P Require Import Prelude.
From S2P Require Import Eeprom.

(** The configuration macros of a keyboard. *)
Class KeymapConfig := {
  EECONFIG_SIZE : Z;
  VIA_EEPROM_LAYOUT_OPTIONS_SIZE : Z;
  VIA_EEPROM_CUSTOM_CONFIG_SIZE : Z;
  DYNAMIC_KEYMAP_LAYER_COUNT : Z;
  MATRIX_ROWS : Z;
  MATRIX_COLS : Z;
  NUM_ENCODERS : Z;
  VIAL_TAP_DANCE_ENTRIES : Z;
  VIAL_COMBO_ENTRIES : Z;
  VIAL_KEY_OVERRIDE_ENTRIES : Z;
  DYNAMIC_KEYMAP_MACRO_COUNT : Z;
  DYNAMIC_KEYMAP_EEPROM_MAX_ADDR : Z;
  TAPPING_TERM : Z;
  (** The keymap compiled into the firmware, which the keyboard provides. *)
  keycode_at_keymap_location_raw : Z -> Z -> Z -> Z;
  keycode_at_encodermap_location_raw : Z -> Z -> bool -> Z;
}.

(** ** Layout *)

Section layout.
Context {cfg : KeymapConfig}.

Definition VIA_EEPROM_MAGIC_ADDR : Z := EECONFIG_SIZE.
Definition VIA_EEPROM_LAYOUT_OPTIONS_ADDR : Z := VIA_EEPROM_MAGIC_ADDR + 3.
Definition VIA_EEPROM_CUSTOM_CONFIG_ADDR : Z :=
  VIA_EEPROM_LAYOUT_OPTIONS_ADDR + VIA_EEPROM_LAYOUT_OPTIONS_SIZE.
Definition VIA_EEPROM_CONFIG_END : Z :=
  VIA_EEPROM_CUSTOM_CONFIG_ADDR + VIA_EEPROM_CUSTOM_CONFIG_SIZE.

Definition DYNAMIC_KEYMAP_EEPROM_ADDR : Z := VIA_EEPROM_CONFIG_END.
(** The local [dynamic_keymap_eeprom_size]. *)
Definition dynamic_keymap_eeprom_size : Z :=
  u16 (DYNAMIC_KEYMAP_LAYER_COUNT * MATRIX_ROWS * MATRIX_COLS * 2).
Definition VIAL_ENCODERS_EEPROM_ADDR : Z :=
  DYNAMIC_KEYMAP_EEPROM_ADDR + DYNAMIC_KEYMAP_LAYER_COUNT * MATRIX_ROWS * MATRIX_COLS * 2.
Definition VIAL_ENCODERS_SIZE : Z := NUM_ENCODERS * DYNAMIC_KEYMAP_LAYER_COUNT * 2 * 2.
Definition VIAL_QMK_SETTINGS_EEPROM_ADDR : Z := VIAL_ENCODERS_EEPROM_ADDR + VIAL_ENCODERS_SIZE.
(** [sizeof(qmk_settings_t)], which a static assertion fixes. *)
Definition VIAL_QMK_SETTINGS_SIZE : Z := 36.
Definition VIAL_TAP_DANCE_EEPROM_ADDR : Z := VIAL_QMK_SETTINGS_EEPROM_ADDR + VIAL_QMK_SETTINGS_SIZE.
Definition VIAL_TAP_DANCE_SIZE : Z := 10 * VIAL_TAP_DANCE_ENTRIES.
Definition VIAL_COMBO_EEPROM_ADDR : Z := VIAL_TAP_DANCE_EEPROM_ADDR + VIAL_TAP_DANCE_SIZE.
Definition VIAL_COMBO_SIZE : Z := 10 * VIAL_COMBO_ENTRIES.
Definition VIAL_KEY_OVERRIDE_EEPROM_ADDR : Z := VIAL_COMBO_EEPROM_ADDR + VIAL_COMBO_SIZE.
Definition VIAL_KEY_OVERRIDE_SIZE : Z := 10 * VIAL_KEY_OVERRIDE_ENTRIES.
Definition DYNAMIC_KEYMAP_MACRO_EEPROM_ADDR : Z :=
  VIAL_KEY_OVERRIDE_EEPROM_ADDR + VIAL_KEY_OVERRIDE_SIZE.
Definition DYNAMIC_KEYMAP_MACRO_EEPROM_SIZE : Z :=
  DYNAMIC_KEYMAP_EEPROM_MAX_ADDR - DYNAMIC_KEYMAP_MACRO_EEPROM_ADDR + 1.
End layout.

(** The compile-time checks, the ranges of the count macros, and a store that
    has the addresses the layout uses. *)
Class KeymapConfigOk `{KeymapConfig} : Prop := {
  eeconfig_size_ok : 36 <= EECONFIG_SIZE;
  layout_options_size_ok : 1 <= VIA_EEPROM_LAYOUT_OPTIONS_SIZE <= 4;
  custom_config_size_ok : 0 <= VIA_EEPROM_CUSTOM_CONFIG_SIZE;
  layer_count_ok : 1 <= DYNAMIC_KEYMAP_LAYER_COUNT <= 32;
  matrix_rows_ok : 1 <= MATRIX_ROWS <= 255;
  matrix_cols_ok : 1 <= MATRIX_COLS <= 255;
  num_encoders_ok : 0 <= NUM_ENCODERS <= 255;
  tap_dance_entries_ok : 0 <= VIAL_TAP_DANCE_ENTRIES <= 255;
  combo_entries_ok : 0 <= VIAL_COMBO_ENTRIES <= 255;
  key_override_entries_ok : 0 <= VIAL_KEY_OVERRIDE_ENTRIES <= 255;
  macro_count_ok : 0 <= DYNAMIC_KEYMAP_MACRO_COUNT <= 255;
  macro_area_ok : DYNAMIC_KEYMAP_EEPROM_MAX_ADDR >= DYNAMIC_KEYMAP_MACRO_EEPROM_ADDR + 100;
  max_addr_ok : DYNAMIC_KEYMAP_EEPROM_MAX_ADDR <= 65535;
}.

Definition KC_NO : Z := 0.
Definition QK_BOOT : Z := 0x7C00.

(** The ten bytes of a dynamic entry, [sizeof] of the three entry types. *)
Definition entry_size : Z := 10.

(** ** Operations *)

Section operations.
Context {E : Type} {eeprom : Eeprom E} {cfg : KeymapConfig}.
Implicit Types (e : E).

Definition dynamic_keymap_get_layer_count : Z := u8 DYNAMIC_KEYMAP_LAYER_COUNT.

Definition dynamic_keymap_key_to_eeprom_address (layer row column : Z) : Z :=
  DYNAMIC_KEYMAP_EEPROM_ADDR + layer * MATRIX_ROWS * MATRIX_COLS * 2
  + row * MATRIX_COLS * 2 + column * 2.

Definition dynamic_keymap_get_keycode e (layer row column : Z) : Z :=
  if (DYNAMIC_KEYMAP_LAYER_COUNT <=? layer) || (MATRIX_ROWS <=? row) || (MATRIX_COLS <=? column)
  then KC_NO
  else
    let address := dynamic_keymap_key_to_eeprom_address layer row column in
    u16 (eeprom_read_byte e address << 8) .| eeprom_read_byte e (address + 1).

Definition dynamic_keymap_set_keycode (layer row column keycode : Z) e : E :=
  if (DYNAMIC_KEYMAP_LAYER_COUNT <=? layer) || (MATRIX_ROWS <=? row) || (MATRIX_COLS <=? column)
  then e
  else
    let address := dynamic_keymap_key_to_eeprom_address layer row column in
    let e := eeprom_update_byte address (u8 (keycode >> 8)) e in
    eeprom_update_byte (address + 1) (u8 (keycode .& 0xFF)) e.

Definition dynamic_keymap_encoder_to_eeprom_address (layer encoder_id : Z) : Z :=
  VIAL_ENCODERS_EEPROM_ADDR + layer * NUM_ENCODERS * 2 * 2 + encoder_id * 2 * 2.

Definition dynamic_keymap_get_encoder e (layer encoder_id : Z) (clockwise : bool) : Z :=
  if (DYNAMIC_KEYMAP_LAYER_COUNT <=? layer) || (NUM_ENCODERS <=? encoder_id) then KC_NO
  else
    let address := dynamic_keymap_encoder_to_eeprom_address layer encoder_id in
    u16 (eeprom_read_byte e (address + (if clockwise then 0 else 2)) << 8)
    .| eeprom_read_byte e (address + (if clockwise then 0 else 2) + 1).

Definition dynamic_keymap_set_encoder (layer encoder_id : Z) (clockwise : bool) (keycode : Z) e : E :=
  if (DYNAMIC_KEYMAP_LAYER_COUNT <=? layer) || (NUM_ENCODERS <=? encoder_id) then e
  else
    let address := dynamic_keymap_encoder_to_eeprom_address layer encoder_id in
    let e := eeprom_update_byte (address + (if clockwise then 0 else 2)) (u8 (keycode >> 8)) e in
    eeprom_update_byte (address + (if clockwise then 0 else 2) + 1) (u8 (keycode .& 0xFF)) e.

Definition dynamic_keymap_get_qmk_settings e (offset : Z) : Z :=
  if VIAL_QMK_SETTINGS_SIZE <=? offset then 0
  else eeprom_read_byte e (VIAL_QMK_SETTINGS_EEPROM_ADDR + offset).

Definition dynamic_keymap_set_qmk_settings (offset value : Z) e : E :=
  if VIAL_QMK_SETTINGS_SIZE <=? offset then e
  else eeprom_update_byte (VIAL_QMK_SETTINGS_EEPROM_ADDR + offset) value e.

(** The entry getters return the status and fill the caller's entry, the
    setters the status and the new store; an entry is its ten bytes. *)
Definition dynamic_keymap_get_tap_dance e (index : Z) (entry : list Z) : Z * list Z :=
  if VIAL_TAP_DANCE_ENTRIES <=? index then (-1, entry)
  else (0, eeprom_read_block e entry (VIAL_TAP_DANCE_EEPROM_ADDR + index * entry_size)).

Definition dynamic_keymap_set_tap_dance (index : Z) (entry : list Z) e : Z * E :=
  if VIAL_TAP_DANCE_ENTRIES <=? index then (-1, e)
  else (0, eeprom_write_block entry (VIAL_TAP_DANCE_EEPROM_ADDR + index * entry_size) e).

Definition dynamic_keymap_get_combo e (index : Z) (entry : list Z) : Z * list Z :=
  if VIAL_COMBO_ENTRIES <=? index then (-1, entry)
  else (0, eeprom_read_block e entry (VIAL_COMBO_EEPROM_ADDR + index * entry_size)).

Definition dynamic_keymap_set_combo (index : Z) (entry : list Z) e : Z * E :=
  if VIAL_COMBO_ENTRIES <=? index then (-1, e)
  else (0, eeprom_write_block entry (VIAL_COMBO_EEPROM_ADDR + index * entry_size) e).

Definition dynamic_keymap_get_key_override e (index : Z) (entry : list Z) : Z * list Z :=
  if VIAL_KEY_OVERRIDE_ENTRIES <=? index then (-1, entry)
  else (0, eeprom_read_block e entry (VIAL_KEY_OVERRIDE_EEPROM_ADDR + index * entry_size)).

Definition dynamic_keymap_set_key_override (index : Z) (entry : list Z) e : Z * E :=
  if VIAL_KEY_OVERRIDE_ENTRIES <=? index then (-1, e)
  else (0, eeprom_write_block entry (VIAL_KEY_OVERRIDE_EEPROM_ADDR + index * entry_size) e).

(** [data] points at the byte [base] of the message [msg], which is filled
    in place. *)
Definition dynamic_keymap_get_buffer e (offset size : Z) (msg : list Z) (base : Z) : list Z :=
  for_Z 0 size (fun i msg =>
    updZ msg (base + i)
      (if offset + i <? dynamic_keymap_eeprom_size
       then eeprom_read_byte e (DYNAMIC_KEYMAP_EEPROM_ADDR + offset + i) else 0)) msg.

(** The scan that a locked keyboard runs over the data: [QK_BOOT] keycodes
    are overwritten in the message before it is stored. *)
Definition dynamic_keymap_scrub e (offset size : Z) (msg : list Z) (base : Z) : list Z :=
  let target := DYNAMIC_KEYMAP_EEPROM_ADDR + offset in
  let chk_offset := 0 in
  let chk_sz := size in
  let '(msg, chk_offset) :=
    if negb (offset mod 2 =? 0) then
      let kc := u16 ((eeprom_read_byte e (target - 1) << 8) .| nthZ msg base) in
      (if kc =? QK_BOOT then updZ msg base 0xFF else msg, u16 (chk_offset + 1))
    else (msg, chk_offset) in
  let '(msg, chk_sz) :=
    if negb ((offset + size) mod 2 =? 0) then
      let kc := u16 ((nthZ msg (base + size - 1) << 8) .| eeprom_read_byte e (target + size)) in
      (if kc =? QK_BOOT then updZ msg (base + size - 1) 0xFF else msg, u16 (chk_sz - 1))
    else (msg, chk_sz) in
  (* [for (i = chk_offset; i < chk_sz; i += 2)] *)
  for_Z 0 ((chk_sz - chk_offset + 1) / 2) (fun j msg =>
    let i := chk_offset + 2 * j in
    let kc := (nthZ msg (base + i) << 8) .| nthZ msg (base + i + 1) in
    if kc =? QK_BOOT then updZ (updZ msg (base + i) 0xFF) (base + i + 1) 0xFF else msg) msg.

(** The message comes back too: the scan changes it in place. *)
Definition dynamic_keymap_set_buffer (vial_unlocked : Z) (offset size : Z) (msg : list Z) (base : Z) e
  : list Z * E :=
  if (dynamic_keymap_eeprom_size <=? offset) || (dynamic_keymap_eeprom_size - offset <? size)
  then (msg, e)
  else
    let msg := if negb (truthy vial_unlocked) then dynamic_keymap_scrub e offset size msg base else msg in
    (msg,
     for_Z 0 size (fun i e =>
       if offset + i <? dynamic_keymap_eeprom_size
       then eeprom_update_byte (DYNAMIC_KEYMAP_EEPROM_ADDR + offset + i) (nthZ msg (base + i)) e
       else e) e).

Definition keycode_at_keymap_location e (layer_num row column : Z) : Z :=
  if (layer_num <? DYNAMIC_KEYMAP_LAYER_COUNT) && (row <? MATRIX_ROWS) && (column <? MATRIX_COLS)
  then dynamic_keymap_get_keycode e layer_num row column else KC_NO.

Definition keycode_at_encodermap_location e (layer_num encoder_idx : Z) (clockwise : bool) : Z :=
  if (layer_num <? DYNAMIC_KEYMAP_LAYER_COUNT) && (encoder_idx <? NUM_ENCODERS)
  then dynamic_keymap_get_encoder e layer_num encoder_idx clockwise else KC_NO.

(** ** Macros *)

Definition dynamic_keymap_macro_get_count : Z := u8 DYNAMIC_KEYMAP_MACRO_COUNT.
Definition dynamic_keymap_macro_get_buffer_size : Z := u16 DYNAMIC_KEYMAP_MACRO_EEPROM_SIZE.

Definition dynamic_keymap_macro_get_buffer e (offset size : Z) (msg : list Z) (base : Z) : list Z :=
  for_Z 0 size (fun i msg =>
    updZ msg (base + i)
      (if offset + i <? DYNAMIC_KEYMAP_MACRO_EEPROM_SIZE
       then eeprom_read_byte e (DYNAMIC_KEYMAP_MACRO_EEPROM_ADDR + offset + i) else 0)) msg.

Definition dynamic_keymap_macro_set_buffer (offset size : Z) (msg : list Z) (base : Z) e : E :=
  for_Z 0 size (fun i e =>
    if offset + i <? DYNAMIC_KEYMAP_MACRO_EEPROM_SIZE
    then eeprom_update_byte (DYNAMIC_KEYMAP_MACRO_EEPROM_ADDR + offset + i) (nthZ msg (base + i)) e
    else e) e.

(** The state is the pointer. *)
Definition send_string_get_next_eeprom e (ptr : Z) : Z * Z := (eeprom_read_byte e ptr, ptr + 1).

Definition dynamic_keymap_macro_reset e : E :=
  for_Z DYNAMIC_KEYMAP_MACRO_EEPROM_ADDR
        (DYNAMIC_KEYMAP_MACRO_EEPROM_ADDR + DYNAMIC_KEYMAP_MACRO_EEPROM_SIZE)
        (fun p e => eeprom_update_byte p 0 e) e.

Definition decode_keycode (kc : Z) : Z := if 0xFF00 <? kc then (kc .& 0xFF) << 8 else kc.
End operations.

(** ** Sending a macro *)

Definition SS_QMK_PREFIX : Z := 1.
Definition SS_TAP_CODE : Z := 1.
Definition SS_DOWN_CODE : Z := 2.
Definition SS_UP_CODE : Z := 3.
Definition SS_DELAY_CODE : Z := 4.
Definition VIAL_MACRO_EXT_TAP : Z := 5.
Definition VIAL_MACRO_EXT_DOWN : Z := 6.
Definition VIAL_MACRO_EXT_UP : Z := 7.

(** The calls a macro makes: [send_string] and [send_string_with_delay] with
    their C string, the three keycode calls of [vial.c], and [ms] calls of
    [wait_ms(1)]. *)
Inductive macro_call :=
| CallSendString (data : list Z)
| CallSendStringDelay (data : list Z)
| CallKeycodeTap (kc : Z)
| CallKeycodeDown (kc : Z)
| CallKeycodeUp (kc : Z)
| CallWait (ms : Z).

Section macro_send.
Context {E : Type} {eeprom : Eeprom E} {cfg : KeymapConfig}.
Implicit Types (e : E).

(** The first loop: past [id] null bytes, or [None] at the end of the buffer. *)
Fixpoint skip_macros (fuel : nat) e (id p : Z) : option Z :=
  match fuel with
  | O => None
  | S fuel =>
      if 0 <? id then
        if p =? DYNAMIC_KEYMAP_MACRO_EEPROM_ADDR + DYNAMIC_KEYMAP_MACRO_EEPROM_SIZE then None
        else skip_macros fuel e (if eeprom_read_byte e p =? 0 then id - 1 else id) (p + 1)
      else Some p
  end.

(** The second loop: the calls made, or [None] when it is still running
    after [fuel] rounds. *)
Fixpoint send_loop (fuel : nat) e (p : Z) : option (list macro_call) :=
  match fuel with
  | O => None
  | S fuel =>
    let data0 := eeprom_read_byte e p in
    let p := p + 1 in
    if data0 =? 0 then Some []
    else if data0 =? SS_QMK_PREFIX then
      let data1 := eeprom_read_byte e p in
      let p := p + 1 in
      if data1 =? 0 then Some []
      else if (data1 =? SS_TAP_CODE) || (data1 =? SS_DOWN_CODE) || (data1 =? SS_UP_CODE) then
        let data2 := eeprom_read_byte e p in
        let p := p + 1 in
        (if negb (data2 =? 0) then cons (CallSendString [data0; data1; data2]) else id)
          <$> send_loop fuel e p
      else if (data1 =? VIAL_MACRO_EXT_TAP) || (data1 =? VIAL_MACRO_EXT_DOWN)
              || (data1 =? VIAL_MACRO_EXT_UP) then
        let data2 := eeprom_read_byte e p in
        let p := p + 1 in
        if negb (data2 =? 0) then
          let data3 := eeprom_read_byte e p in
          let p := p + 1 in
          if negb (data3 =? 0) then
            let kc := decode_keycode (le_val [data2; data3]) in
            cons (if data1 =? VIAL_MACRO_EXT_TAP then CallKeycodeTap kc
                  else if data1 =? VIAL_MACRO_EXT_DOWN then CallKeycodeDown kc
                  else CallKeycodeUp kc)
              <$> send_loop fuel e p
          else send_loop fuel e p
        else send_loop fuel e p
      else if data1 =? SS_DELAY_CODE then
        let d0 := eeprom_read_byte e p in
        let d1 := eeprom_read_byte e (p + 1) in
        let p := p + 2 in
        if (d0 =? 0) || (d1 =? 0) then Some []
        else cons (CallWait ((d0 - 1) + (d1 - 1) * 255)) <$> send_loop fuel e p
      else send_loop fuel e p
    else cons (CallSendStringDelay [data0]) <$> send_loop fuel e p
  end.

(** A loop round consumes a byte, so the size of the buffer bounds the
    rounds of a macro that ends inside it. *)
Definition macro_fuel : nat := S (Z.to_nat DYNAMIC_KEYMAP_MACRO_EEPROM_SIZE).

Definition dynamic_keymap_macro_send e (id : Z) : option (list macro_call) :=
  if DYNAMIC_KEYMAP_MACRO_COUNT <=? id then Some []
  else if negb (eeprom_read_byte e
                  (DYNAMIC_KEYMAP_MACRO_EEPROM_ADDR + DYNAMIC_KEYMAP_MACRO_EEPROM_SIZE - 1) =? 0)
  then Some []
  else match skip_macros macro_fuel e id DYNAMIC_KEYMAP_MACRO_EEPROM_ADDR with
       | None => Some []
       | Some p => send_loop macro_fuel e p
       end.
End macro_send.
