(* ===== verification/KeymapSlots.v ===== *)
(** The dynamic configuration area is a product of independent slots: what a
    setter of [quantum/dynamic_keymap.c] stores is what its getter reads, and
    no other slot changes. *)

From S2P Require Import Prelude.
From S2P Require Import Eeprom.
From S2P Require Import DynamicKeymap.

(** ** Arithmetic of the layout *)

Lemma radix_inj m a b a' b' : 0 <= b < m -> 0 <= b' < m -> a * m + b = a' * m + b' -> a = a' /\ b = b'.
Proof. intros. assert (a = a') by nia. subst. lia. Qed.

Lemma radix_bound m n a b : 0 <= a < n -> 0 <= b < m -> 0 <= a * m + b < n * m.
Proof. nia. Qed.

Section area.
Context {cfg : KeymapConfig} {cfg_ok : KeymapConfigOk}.

(** The position of a key in the keymap area, and of an encoder's turn. *)
Definition key_index (layer row column : Z) : Z := (layer * MATRIX_ROWS + row) * MATRIX_COLS + column.
Definition encoder_index (layer encoder : Z) (clockwise : bool) : Z :=
  (layer * NUM_ENCODERS + encoder) * 2 + (if clockwise then 0 else 1).

Definition key_count : Z := DYNAMIC_KEYMAP_LAYER_COUNT * MATRIX_ROWS * MATRIX_COLS.

Lemma key_address l r c : dynamic_keymap_key_to_eeprom_address l r c
  = DYNAMIC_KEYMAP_EEPROM_ADDR + 2 * key_index l r c.
Proof. unfold dynamic_keymap_key_to_eeprom_address, key_index. lia. Qed.

Lemma encoder_address l i (cw : bool) :
  dynamic_keymap_encoder_to_eeprom_address l i + (if cw then 0 else 2)
  = VIAL_ENCODERS_EEPROM_ADDR + 2 * encoder_index l i cw.
Proof. unfold dynamic_keymap_encoder_to_eeprom_address, encoder_index. destruct cw; lia. Qed.

Lemma key_index_range l r c : 0 <= l < DYNAMIC_KEYMAP_LAYER_COUNT -> 0 <= r < MATRIX_ROWS ->
  0 <= c < MATRIX_COLS -> 0 <= key_index l r c < key_count.
Proof. intros. unfold key_index, key_count. apply radix_bound; [|done]. by apply radix_bound. Qed.

Lemma key_index_inj l r c l' r' c' : 0 <= r < MATRIX_ROWS -> 0 <= c < MATRIX_COLS ->
  0 <= r' < MATRIX_ROWS -> 0 <= c' < MATRIX_COLS ->
  key_index l r c = key_index l' r' c' -> l = l' /\ r = r' /\ c = c'.
Proof.
  intros Hr Hc Hr' Hc' H. apply radix_inj in H; [|done..]. destruct H as [H ->].
  apply radix_inj in H; [|done..]. tauto.
Qed.

Lemma encoder_index_range l i cw : 0 <= l < DYNAMIC_KEYMAP_LAYER_COUNT -> 0 <= i < NUM_ENCODERS ->
  0 <= encoder_index l i cw < DYNAMIC_KEYMAP_LAYER_COUNT * NUM_ENCODERS * 2.
Proof.
  intros. unfold encoder_index. apply radix_bound; [by apply radix_bound|by destruct cw].
Qed.

Lemma encoder_index_inj l i cw l' i' cw' : 0 <= i < NUM_ENCODERS -> 0 <= i' < NUM_ENCODERS ->
  encoder_index l i cw = encoder_index l' i' cw' -> l = l' /\ i = i' /\ cw = cw'.
Proof.
  intros Hi Hi' H. apply radix_inj in H; [|by destruct cw|by destruct cw']. destruct H as [H Hcw].
  apply radix_inj in H; [|done..]. destruct cw, cw'; try done; tauto.
Qed.

Lemma key_area : VIAL_ENCODERS_EEPROM_ADDR = DYNAMIC_KEYMAP_EEPROM_ADDR + 2 * key_count.
Proof. unfold VIAL_ENCODERS_EEPROM_ADDR, key_count. lia. Qed.

Lemma area_positive : 0 <= DYNAMIC_KEYMAP_EEPROM_ADDR /\ 0 < key_count /\ 0 <= VIAL_ENCODERS_SIZE
  /\ 0 <= VIAL_TAP_DANCE_SIZE /\ 0 <= VIAL_COMBO_SIZE /\ 0 <= VIAL_KEY_OVERRIDE_SIZE
  /\ 100 < DYNAMIC_KEYMAP_MACRO_EEPROM_SIZE <= 65536.
Proof.
  pose proof eeconfig_size_ok. pose proof layout_options_size_ok. pose proof custom_config_size_ok.
  pose proof layer_count_ok. pose proof matrix_rows_ok. pose proof matrix_cols_ok.
  pose proof num_encoders_ok. pose proof tap_dance_entries_ok. pose proof combo_entries_ok.
  pose proof key_override_entries_ok. pose proof macro_area_ok. pose proof max_addr_ok.
  assert (0 < key_count) by (unfold key_count; nia).
  assert (0 <= VIAL_ENCODERS_SIZE) by (unfold VIAL_ENCODERS_SIZE; nia).
  assert (0 <= DYNAMIC_KEYMAP_EEPROM_ADDR)
    by (unfold DYNAMIC_KEYMAP_EEPROM_ADDR, VIA_EEPROM_CONFIG_END, VIA_EEPROM_CUSTOM_CONFIG_ADDR,
          VIA_EEPROM_LAYOUT_OPTIONS_ADDR, VIA_EEPROM_MAGIC_ADDR; lia).
  pose proof key_area.
  assert (0 <= DYNAMIC_KEYMAP_MACRO_EEPROM_ADDR).
  { unfold DYNAMIC_KEYMAP_MACRO_EEPROM_ADDR, VIAL_KEY_OVERRIDE_EEPROM_ADDR, VIAL_COMBO_EEPROM_ADDR,
      VIAL_TAP_DANCE_EEPROM_ADDR, VIAL_QMK_SETTINGS_EEPROM_ADDR, VIAL_QMK_SETTINGS_SIZE,
      VIAL_TAP_DANCE_SIZE, VIAL_COMBO_SIZE, VIAL_KEY_OVERRIDE_SIZE. lia. }
  unfold VIAL_TAP_DANCE_SIZE, VIAL_COMBO_SIZE, VIAL_KEY_OVERRIDE_SIZE, DYNAMIC_KEYMAP_MACRO_EEPROM_SIZE.
  repeat split; lia.
Qed.

Lemma key_area_16 : 2 * key_count < 65536.
Proof.
  pose proof area_positive. pose proof macro_area_ok. pose proof max_addr_ok. pose proof key_area.
  unfold DYNAMIC_KEYMAP_MACRO_EEPROM_ADDR, VIAL_KEY_OVERRIDE_EEPROM_ADDR, VIAL_COMBO_EEPROM_ADDR,
      VIAL_TAP_DANCE_EEPROM_ADDR, VIAL_QMK_SETTINGS_EEPROM_ADDR, VIAL_QMK_SETTINGS_SIZE in *. lia.
Qed.

Lemma eeprom_size_keys : dynamic_keymap_eeprom_size = 2 * key_count.
Proof.
  pose proof key_area_16. pose proof area_positive. unfold dynamic_keymap_eeprom_size.
  replace (_ * _ * _ * 2) with (2 * key_count) by (unfold key_count; lia). apply u16_id. lia.
Qed.
End area.

(** ** Slots *)

Inductive slot :=
| SlotKey (layer row column : Z)
| SlotEncoder (layer encoder_id : Z) (clockwise : bool)
| SlotSetting (offset : Z)
| SlotTapDance (index : Z)
| SlotCombo (index : Z)
| SlotKeyOverride (index : Z)
| SlotMacroByte (offset : Z).

#[export] Instance slot_eq_dec : EqDecision slot.
Proof. solve_decision. Defined.

Section slots.
Context {E : Type} {eeprom : Eeprom E} {cfg : KeymapConfig}.
Implicit Types (e : E) (s : slot) (v : list Z).

(** The slots the code accepts. *)
Definition slot_valid s : Prop :=
  match s with
  | SlotKey l r c => 0 <= l < DYNAMIC_KEYMAP_LAYER_COUNT /\ 0 <= r < MATRIX_ROWS /\ 0 <= c < MATRIX_COLS
  | SlotEncoder l i _ => 0 <= l < DYNAMIC_KEYMAP_LAYER_COUNT /\ 0 <= i < NUM_ENCODERS
  | SlotSetting o => 0 <= o < VIAL_QMK_SETTINGS_SIZE
  | SlotTapDance i => 0 <= i < VIAL_TAP_DANCE_ENTRIES
  | SlotCombo i => 0 <= i < VIAL_COMBO_ENTRIES
  | SlotKeyOverride i => 0 <= i < VIAL_KEY_OVERRIDE_ENTRIES
  | SlotMacroByte o => 0 <= o < DYNAMIC_KEYMAP_MACRO_EEPROM_SIZE
  end.

(** A keycode, a byte, or the ten bytes of an entry. *)
Definition slot_value_wf s v : Prop :=
  match s with
  | SlotKey _ _ _ | SlotEncoder _ _ _ => exists k, v = [k] /\ 0 <= k < 65536
  | SlotSetting _ | SlotMacroByte _ => exists b, v = [b] /\ byte_range b
  | _ => lenZ v = entry_size /\ bytes v
  end.

(** The getters and setters of the code. *)
Definition get_slot e s : list Z :=
  match s with
  | SlotKey l r c => [dynamic_keymap_get_keycode e l r c]
  | SlotEncoder l i cw => [dynamic_keymap_get_encoder e l i cw]
  | SlotSetting o => [dynamic_keymap_get_qmk_settings e o]
  | SlotTapDance i => (dynamic_keymap_get_tap_dance e i (memset 0 entry_size)).2
  | SlotCombo i => (dynamic_keymap_get_combo e i (memset 0 entry_size)).2
  | SlotKeyOverride i => (dynamic_keymap_get_key_override e i (memset 0 entry_size)).2
  | SlotMacroByte o => dynamic_keymap_macro_get_buffer e o 1 [0] 0
  end.

Definition set_slot s v e : E :=
  match s with
  | SlotKey l r c => dynamic_keymap_set_keycode l r c (nthZ v 0) e
  | SlotEncoder l i cw => dynamic_keymap_set_encoder l i cw (nthZ v 0) e
  | SlotSetting o => dynamic_keymap_set_qmk_settings o (nthZ v 0) e
  | SlotTapDance i => (dynamic_keymap_set_tap_dance i v e).2
  | SlotCombo i => (dynamic_keymap_set_combo i v e).2
  | SlotKeyOverride i => (dynamic_keymap_set_key_override i v e).2
  | SlotMacroByte o => dynamic_keymap_macro_set_buffer o 1 v 0 e
  end.

Definition slot_address s : Z :=
  match s with
  | SlotKey l r c => DYNAMIC_KEYMAP_EEPROM_ADDR + 2 * key_index l r c
  | SlotEncoder l i cw => VIAL_ENCODERS_EEPROM_ADDR + 2 * encoder_index l i cw
  | SlotSetting o => VIAL_QMK_SETTINGS_EEPROM_ADDR + o
  | SlotTapDance i => VIAL_TAP_DANCE_EEPROM_ADDR + i * entry_size
  | SlotCombo i => VIAL_COMBO_EEPROM_ADDR + i * entry_size
  | SlotKeyOverride i => VIAL_KEY_OVERRIDE_EEPROM_ADDR + i * entry_size
  | SlotMacroByte o => DYNAMIC_KEYMAP_MACRO_EEPROM_ADDR + o
  end.

Definition slot_size s : Z :=
  match s with
  | SlotKey _ _ _ | SlotEncoder _ _ _ => 2
  | SlotSetting _ | SlotMacroByte _ => 1
  | _ => entry_size
  end.

(** Keycodes are stored big endian. *)
Definition slot_bytes s v : list Z :=
  match s with
  | SlotKey _ _ _ | SlotEncoder _ _ _ => [u8 (nthZ v 0 >> 8); u8 (nthZ v 0 .& 0xFF)]
  | _ => v
  end.

Definition slot_of_bytes s (l : list Z) : list Z :=
  match s with
  | SlotKey _ _ _ | SlotEncoder _ _ _ => [u16 (nthZ l 0 << 8) .| nthZ l 1]
  | _ => l
  end.

Context {cfg_ok : KeymapConfigOk} {laws : EepromLaws E}.
Context (size_ok : DYNAMIC_KEYMAP_EEPROM_MAX_ADDR < ee_size).

Lemma slot_range s : slot_valid s ->
  0 <= slot_address s /\ slot_address s + slot_size s <= DYNAMIC_KEYMAP_EEPROM_MAX_ADDR + 1
  /\ 0 < slot_size s.
Proof.
  pose proof area_positive as HA. pose proof key_area as HK. intros Hs.
  assert (HE : VIAL_ENCODERS_SIZE = 2 * (DYNAMIC_KEYMAP_LAYER_COUNT * NUM_ENCODERS * 2))
    by (unfold VIAL_ENCODERS_SIZE; lia).
  unfold DYNAMIC_KEYMAP_MACRO_EEPROM_SIZE, DYNAMIC_KEYMAP_MACRO_EEPROM_ADDR,
    VIAL_KEY_OVERRIDE_EEPROM_ADDR, VIAL_COMBO_EEPROM_ADDR, VIAL_TAP_DANCE_EEPROM_ADDR,
    VIAL_QMK_SETTINGS_EEPROM_ADDR, VIAL_QMK_SETTINGS_SIZE, VIAL_TAP_DANCE_SIZE, VIAL_COMBO_SIZE,
    VIAL_KEY_OVERRIDE_SIZE in *.
  destruct s; cbn [slot_valid slot_address slot_size] in *;
    unfold DYNAMIC_KEYMAP_MACRO_EEPROM_SIZE, DYNAMIC_KEYMAP_MACRO_EEPROM_ADDR,
    VIAL_KEY_OVERRIDE_EEPROM_ADDR, VIAL_COMBO_EEPROM_ADDR, VIAL_TAP_DANCE_EEPROM_ADDR,
    VIAL_QMK_SETTINGS_EEPROM_ADDR, VIAL_QMK_SETTINGS_SIZE, VIAL_TAP_DANCE_SIZE, VIAL_COMBO_SIZE,
    VIAL_KEY_OVERRIDE_SIZE, entry_size in *; try lia.
  - pose proof (key_index_range layer row column ltac:(tauto) ltac:(tauto) ltac:(tauto)). lia.
  - pose proof (encoder_index_range layer encoder_id clockwise ltac:(tauto) ltac:(tauto)). lia.
Qed.

(** Areas follow each other; this unfolds them all. *)
Ltac unfold_areas :=
  unfold DYNAMIC_KEYMAP_MACRO_EEPROM_ADDR,
    VIAL_KEY_OVERRIDE_EEPROM_ADDR, VIAL_COMBO_EEPROM_ADDR, VIAL_TAP_DANCE_EEPROM_ADDR,
    VIAL_QMK_SETTINGS_EEPROM_ADDR, VIAL_QMK_SETTINGS_SIZE, VIAL_TAP_DANCE_SIZE, VIAL_COMBO_SIZE,
    VIAL_KEY_OVERRIDE_SIZE, entry_size in *.

(** The facts about a key or encoder position that its bounds give. *)
Ltac index_facts :=
  repeat match goal with
  | H : 0 <= ?l < DYNAMIC_KEYMAP_LAYER_COUNT /\ 0 <= ?r < MATRIX_ROWS /\ 0 <= ?c < MATRIX_COLS |- _ =>
      let H1 := fresh in let H2 := fresh in let H3 := fresh in
      destruct H as (H1 & H2 & H3); pose proof (key_index_range l r c H1 H2 H3)
  | H : 0 <= ?l < DYNAMIC_KEYMAP_LAYER_COUNT /\ 0 <= ?i < NUM_ENCODERS |- context [encoder_index ?l ?i ?cw] =>
      let H1 := fresh in let H2 := fresh in
      destruct H as (H1 & H2); pose proof (encoder_index_range l i cw H1 H2)
  end.

Lemma slot_low s : slot_valid s -> DYNAMIC_KEYMAP_EEPROM_ADDR <= slot_address s.
Proof.
  pose proof area_positive as HA. pose proof key_area as HK. intros Hs.
  destruct s; cbn [slot_valid slot_address slot_size] in *; unfold_areas; index_facts; try lia.
Qed.

(** Different slots do not share a byte. *)
Lemma slots_disjoint s s' : slot_valid s -> slot_valid s' -> s <> s' ->
  slot_address s + slot_size s <= slot_address s' \/ slot_address s' + slot_size s' <= slot_address s.
Proof.
  pose proof area_positive as HA. pose proof key_area as HK.
  assert (HE : VIAL_ENCODERS_SIZE = 2 * (DYNAMIC_KEYMAP_LAYER_COUNT * NUM_ENCODERS * 2))
    by (unfold VIAL_ENCODERS_SIZE; lia).
  intros Hs Hs' Hne.
  assert (Hkey : forall l r c l' r' c', s = SlotKey l r c -> s' = SlotKey l' r' c' ->
    key_index l r c <> key_index l' r' c').
  { intros * -> -> Heq. apply key_index_inj in Heq; [|apply Hs|apply Hs|apply Hs'|apply Hs'].
    destruct Heq as (-> & -> & ->). done. }
  assert (Henc : forall l i cw l' i' cw', s = SlotEncoder l i cw -> s' = SlotEncoder l' i' cw' ->
    encoder_index l i cw <> encoder_index l' i' cw').
  { intros * -> -> Heq. apply encoder_index_inj in Heq; [|apply Hs|apply Hs'].
    destruct Heq as (-> & -> & ->). done. }
  destruct s, s'; cbn [slot_valid slot_address slot_size] in *; unfold_areas; index_facts; try lia.
  - specialize (Hkey _ _ _ _ _ _ eq_refl eq_refl). lia.
  - specialize (Henc _ _ _ _ _ _ eq_refl eq_refl). lia.
  - assert (offset <> offset0) by congruence. lia.
  - assert (index <> index0) by congruence. lia.
  - assert (index <> index0) by congruence. lia.
  - assert (index <> index0) by congruence. lia.
  - assert (offset <> offset0) by congruence. lia.
Qed.

Lemma word_be_spec e a : ee_wf e -> 0 <= a -> a + 2 <= ee_size ->
  u16 (eeprom_read_byte e a << 8) .| eeprom_read_byte e (a + 1)
  = u16 (nthZ (slice (ee_mem e) a 2) 0 << 8) .| nthZ (slice (ee_mem e) a 2) 1.
Proof.
  intros. rewrite !eeprom_read_byte_spec by (done || lia). rewrite !nthZ_slice by lia.
  by rewrite Z.add_0_r.
Qed.

Lemma get_slot_spec e s : ee_wf e -> slot_valid s ->
  get_slot e s = slot_of_bytes s (slice (ee_mem e) (slot_address s) (slot_size s)).
Proof using cfg_ok size_ok.
  intros Hw Hs. pose proof (slot_range s Hs) as (Ha & Hle & Hz).
  assert (Hent : lenZ (memset 0 entry_size) = entry_size) by done.
  destruct s; cbn [slot_valid slot_size slot_address get_slot slot_of_bytes] in *.
  - unfold dynamic_keymap_get_keycode. rewrite key_address. case_if; [lia|].
    by rewrite word_be_spec by (done || lia).
  - unfold dynamic_keymap_get_encoder. rewrite encoder_address. case_if; [lia|].
    by rewrite word_be_spec by (done || lia).
  - unfold dynamic_keymap_get_qmk_settings. case_if; [lia|].
    by rewrite slice_1, eeprom_read_byte_spec by (done || lia).
  - unfold dynamic_keymap_get_tap_dance. case_if; [lia|]. cbn [snd].
    rewrite ee_read_law by (done || lia). done.
  - unfold dynamic_keymap_get_combo. case_if; [lia|]. cbn [snd].
    rewrite ee_read_law by (done || lia). done.
  - unfold dynamic_keymap_get_key_override. case_if; [lia|]. cbn [snd].
    rewrite ee_read_law by (done || lia). done.
  - unfold dynamic_keymap_macro_get_buffer. rewrite for_Z_first, for_Z_done by lia.
    rewrite !Z.add_0_r. case_if; [|lia]. by rewrite slice_1, eeprom_read_byte_spec by (done || lia).
Qed.

(** Two byte updates store two bytes. *)
Lemma update_two_spec e a x y : ee_wf e -> 0 <= a -> a + 2 <= ee_size -> byte_range x -> byte_range y ->
  ee_stored e (eeprom_update_byte (a + 1) y (eeprom_update_byte a x e)) a [x; y].
Proof.
  intros Hw Ha Hle Hx Hy.
  destruct (eeprom_update_byte_spec e a x Hw) as [Hw1 Hm1]; [lia..|].
  destruct (eeprom_update_byte_spec _ (a + 1) y Hw1) as [Hw2 Hm2]; [lia..|].
  split; [done|]. rewrite Hm2, Hm1. cbn [le_bytes]. rewrite !u8_id by done.
  change [x; y] with ([x] ++ [y]). change (a + 1) with (a + lenZ [x]).
  apply blit_app; [done|]. rewrite ee_len by done. unfold lenZ. simpl. lia.
Qed.

Lemma set_slot_spec e s v : ee_wf e -> slot_valid s -> slot_value_wf s v ->
  ee_stored e (set_slot s v e) (slot_address s) (slot_bytes s v)
  /\ lenZ (slot_bytes s v) = slot_size s.
Proof using cfg_ok size_ok.
  intros Hw Hs Hv. pose proof (slot_range s Hs) as (Ha & Hle & Hz).
  destruct s; cbn [slot_valid slot_size slot_address set_slot slot_bytes slot_value_wf] in *.
  - split; [|done]. unfold dynamic_keymap_set_keycode. rewrite key_address. case_if; [lia|].
    apply update_two_spec; auto using u8_range; lia.
  - split; [|done]. unfold dynamic_keymap_set_encoder. rewrite encoder_address. case_if; [lia|].
    apply update_two_spec; auto using u8_range; lia.
  - destruct Hv as (b & -> & Hb). split; [|done].
    unfold dynamic_keymap_set_qmk_settings. case_if; [lia|]. rewrite <- (u8_id b) at 2 by done.
    apply (eeprom_update_byte_spec e); (done || lia).
  - destruct Hv as [Hl Hb]. split; [|done].
    unfold dynamic_keymap_set_tap_dance. case_if; [lia|]. apply ee_write_law; (done || lia).
  - destruct Hv as [Hl Hb]. split; [|done].
    unfold dynamic_keymap_set_combo. case_if; [lia|]. apply ee_write_law; (done || lia).
  - destruct Hv as [Hl Hb]. split; [|done].
    unfold dynamic_keymap_set_key_override. case_if; [lia|]. apply ee_write_law; (done || lia).
  - destruct Hv as (b & -> & Hb). split; [|done].
    unfold dynamic_keymap_macro_set_buffer. rewrite for_Z_first, for_Z_done by lia.
    rewrite !Z.add_0_r. case_if; [|lia]. rewrite <- (u8_id b) at 2 by done.
    apply (eeprom_update_byte_spec e); (done || lia).
Qed.

Lemma be16_roundtrip k (l := [u8 (nthZ [k] 0 >> 8); u8 (nthZ [k] 0 .& 0xFF)]) : 0 <= k < 65536 ->
  u16 (nthZ l 0 << 8) .| nthZ l 1 = k.
Proof.
  intros Hk. change (nthZ l 0) with (u8 (k >> 8)). change (nthZ l 1) with (u8 (k .& 0xFF)).
  change 0xFF with (Z.ones 8). rewrite Z.land_ones, Z.shiftr_div_pow2 by lia.
  clear l. unfold u8, u16. rewrite Z.shiftl_mul_pow2 by lia. pow_consts.
  replace (k / 256 mod 256 * 256 mod 65536) with ((k / 256) << 8)
    by (rewrite Z.shiftl_mul_pow2, (Z.mod_small (k / 256)) by dlia; pow_consts; dlia).
  rewrite lor_add by (pow_consts; dlia). pow_consts. dlia.
Qed.

Lemma slot_bytes_roundtrip s v : slot_value_wf s v -> slot_of_bytes s (slot_bytes s v) = v.
Proof.
  destruct s; cbn [slot_value_wf slot_bytes slot_of_bytes]; try done; intros (k & -> & Hk);
    by rewrite be16_roundtrip.
Qed.

(** Outside the accepted slots the setters do nothing. *)
Lemma set_slot_frame e s s' v : ee_wf e -> slot_valid s -> slot_value_wf s v -> slot_valid s' ->
  get_slot (set_slot s v e) s' = if decide (s = s') then v else get_slot e s'.
Proof using cfg_ok size_ok.
  intros Hw Hs Hv Hs'. destruct (set_slot_spec e s v Hw Hs Hv) as [Hst Hl].
  pose proof (slot_range s Hs) as (Ha & Hle & Hz). pose proof (slot_range s' Hs') as (Ha' & Hle' & Hz').
  rewrite get_slot_spec by (done || apply Hst). case_decide as Heq.
  - subst s'. rewrite <- Hl, (ee_stored_read e) by (done || lia). by apply slot_bytes_roundtrip.
  - rewrite (get_slot_spec e) by done. f_equal.
    pose proof (slots_disjoint s s' Hs Hs' Heq).
    apply (ee_stored_frame e (set_slot s v e) (slot_address s) (slot_bytes s v)); (done || lia).
Qed.
End slots.
