(* ===== verification/KeymapBuffer.v ===== *)
(** Bulk access to the keymap area, and that a locked keyboard does not let a
    bulk write put the bootloader keycode into the keymap. *)

From S2P Require Import Prelude.
From S2P Require Import Eeprom.
From S2P Require Import DynamicKeymap.
From S2P Require Import KeymapSlots.

(** The two bytes of [QK_BOOT]. *)
Lemma boot_bytes hi lo : byte_range hi -> byte_range lo ->
  ((hi << 8) .| lo =? QK_BOOT) = (hi =? 0x7C) && (lo =? 0).
Proof.
  intros Hh Hl. rewrite lor_add by (pow_consts; lia). unfold QK_BOOT. pow_consts. lia.
Qed.

Lemma boot_bytes_16 hi lo : byte_range hi -> byte_range lo ->
  (u16 ((hi << 8) .| lo) =? QK_BOOT) = (hi =? 0x7C) && (lo =? 0).
Proof.
  intros Hh Hl. rewrite <- boot_bytes by done. f_equal.
  rewrite lor_add by (pow_consts; lia). apply u16_id. pow_consts. lia.
Qed.

(** The scan over the whole keycodes of the data, as the loop it is. *)
Lemma scan_spec msg base co n : bytes msg -> 0 <= base -> 0 <= co -> 0 <= n ->
  base + co + 2 * n <= lenZ msg ->
  let msg' := for_Z 0 n (fun j m =>
      let i := co + 2 * j in
      let kc := (nthZ m (base + i) << 8) .| nthZ m (base + i + 1) in
      if kc =? QK_BOOT then updZ (updZ m (base + i) 0xFF) (base + i + 1) 0xFF else m) msg in
  bytes msg' /\ lenZ msg' = lenZ msg
  /\ (forall i, ~ base + co <= i < base + co + 2 * n -> nthZ msg' i = nthZ msg i)
  /\ forall t, 0 <= t < n -> ~ (nthZ msg' (base + (co + 2 * t)) = 0x7C /\ nthZ msg' (base + (co + 2 * t) + 1) = 0).
Proof.
  intros Hb Hf Hc Hn Hle.
  apply (for_Z_inv (fun j m =>
      let i := co + 2 * j in
      let kc := (nthZ m (base + i) << 8) .| nthZ m (base + i + 1) in
      if kc =? QK_BOOT then updZ (updZ m (base + i) 0xFF) (base + i + 1) 0xFF else m)
    (fun j m => bytes m /\ lenZ m = lenZ msg
       /\ (forall i, ~ base + co <= i < base + co + 2 * j -> nthZ m i = nthZ msg i)
       /\ forall t, 0 <= t < j -> ~ (nthZ m (base + (co + 2 * t)) = 0x7C /\ nthZ m (base + (co + 2 * t) + 1) = 0)));
    [done| |].
  - split; [done|]. split; [done|]. split; [done|]. lia.
  - intros j m Hj (Hbm & Hlm & Hout & Hin). cbv zeta.
    rewrite boot_bytes by by apply bytes_nthZ. case_if.
    + split; [apply bytes_updZ; [apply bytes_updZ|]; done|]. split; [by rewrite !lenZ_updZ|]. split.
      * intros i Hi. rewrite !nthZ_updZ_ne by lia. apply Hout. lia.
      * intros t Ht. destruct (decide (t = j)) as [->|].
        -- rewrite nthZ_updZ_ne by lia. rewrite nthZ_updZ_eq by lia. lia.
        -- rewrite !nthZ_updZ_ne by lia. apply Hin. lia.
    + split; [done|]. split; [done|]. split; [intros; apply Hout; lia|].
      intros t Ht. destruct (decide (t = j)) as [->|]; [lia|apply Hin; lia].
Qed.

Section buffer.
Context {E : Type} {eeprom : Eeprom E} {cfg : KeymapConfig} {cfg_ok : KeymapConfigOk}
        {laws : EepromLaws E} (size_ok : DYNAMIC_KEYMAP_EEPROM_MAX_ADDR < ee_size).
Implicit Types (e : E).

(** A byte of the keymap area. *)
Definition area_byte e (j : Z) : Z := nthZ (ee_mem e) (DYNAMIC_KEYMAP_EEPROM_ADDR + j).

Lemma key_area_in_store : DYNAMIC_KEYMAP_EEPROM_ADDR + 2 * key_count <= ee_size.
Proof using cfg_ok size_ok.
  pose proof area_positive. pose proof key_area. pose proof macro_area_ok.
  unfold DYNAMIC_KEYMAP_MACRO_EEPROM_ADDR, VIAL_KEY_OVERRIDE_EEPROM_ADDR, VIAL_COMBO_EEPROM_ADDR,
    VIAL_TAP_DANCE_EEPROM_ADDR, VIAL_QMK_SETTINGS_EEPROM_ADDR, VIAL_QMK_SETTINGS_SIZE in *. lia.
Qed.

Lemma area_read e j : ee_wf e -> 0 <= j < 2 * key_count ->
  eeprom_read_byte e (DYNAMIC_KEYMAP_EEPROM_ADDR + j) = area_byte e j.
Proof using cfg_ok size_ok.
  intros. pose proof area_positive. pose proof key_area_in_store. apply eeprom_read_byte_spec; (done || lia).
Qed.

Lemma area_byte_range e j : ee_wf e -> byte_range (area_byte e j).
Proof. intros. apply bytes_nthZ. by apply ee_bytes. Qed.

(** A key is its two bytes of the area, high byte first. *)
Lemma get_keycode_bytes e l r c : ee_wf e -> slot_valid (SlotKey l r c) ->
  dynamic_keymap_get_keycode e l r c
  = u16 (area_byte e (2 * key_index l r c) << 8) .| area_byte e (2 * key_index l r c + 1).
Proof using cfg_ok size_ok.
  intros Hw Hs. pose proof (get_slot_spec size_ok e (SlotKey l r c) Hw Hs) as Hg.
  cbn [get_slot slot_of_bytes slot_address slot_size] in Hg. injection Hg as ->.
  rewrite !nthZ_slice by lia. unfold area_byte. by rewrite Z.add_0_r, Z.add_assoc.
Qed.

Lemma get_keycode_boot e l r c : ee_wf e -> slot_valid (SlotKey l r c) ->
  dynamic_keymap_get_keycode e l r c = QK_BOOT
  <-> area_byte e (2 * key_index l r c) = 0x7C /\ area_byte e (2 * key_index l r c + 1) = 0.
Proof using cfg_ok size_ok.
  intros Hw Hs. rewrite get_keycode_bytes by done.
  pose proof (area_byte_range e (2 * key_index l r c) Hw) as H1.
  pose proof (area_byte_range e (2 * key_index l r c + 1) Hw) as H2.
  pose proof (boot_bytes _ _ H1 H2) as Hb.
  rewrite u16_id by (rewrite Z.shiftl_mul_pow2 by lia; pow_consts; lia).
  destruct (_ =? QK_BOOT) eqn:E1 in Hb; b2p; lia.
Qed.

(** The byte of the area after a write of [msg] from [base] to [offset]. *)
Definition written e (offset size : Z) msg base (j : Z) : Z :=
  if (offset <=? j) && (j <? offset + size) then nthZ msg (base + (j - offset)) else area_byte e j.

Lemma scrub_spec e offset size msg base : ee_wf e -> bytes msg -> 1 <= size < 65536 -> 0 <= base ->
  base + size <= lenZ msg -> 0 <= offset -> offset + size <= 2 * key_count ->
  let msg' := dynamic_keymap_scrub e offset size msg base in
  bytes msg' /\ lenZ msg' = lenZ msg
  /\ forall k, offset < 2 * k + 2 -> 2 * k < offset + size ->
       ~ (written e offset size msg' base (2 * k) = 0x7C
          /\ written e offset size msg' base (2 * k + 1) = 0).
Proof using cfg_ok size_ok.
  intros Hw Hb Hsz Hbase Hle Ho Harea. unfold dynamic_keymap_scrub.
  set (co := offset mod 2). set (ce := (offset + size) mod 2).
  set (m1 := if negb (co =? 0) then _ else _).
  (* first byte *)
  assert (H1 : exists msg1, m1 = (msg1, co) /\ bytes msg1 /\ lenZ msg1 = lenZ msg
    /\ (co = 1 -> ~ (area_byte e (offset - 1) = 0x7C /\ nthZ msg1 base = 0))).
  { unfold m1. pose proof (Z.mod_pos_bound offset 2 ltac:(lia)) as Hco. fold co in Hco.
    destruct (co =? 0) eqn:Eco; b2p; cbn [negb]; [by exists msg; rewrite Eco; repeat split|].
    assert (1 <= offset) by (unfold co in Eco; destruct (decide (offset = 0)) as [->|]; [done|lia]).
    assert (Hco1 : co = 1) by lia. rewrite Hco1.
    replace (DYNAMIC_KEYMAP_EEPROM_ADDR + offset - 1) with (DYNAMIC_KEYMAP_EEPROM_ADDR + (offset - 1)) by lia.
    rewrite area_read by (done || lia).
    rewrite boot_bytes_16 by (apply area_byte_range || apply bytes_nthZ; done).
    case_if; eexists; (split; [done|]).
    - split; [by apply bytes_updZ|]. split; [apply lenZ_updZ|]. rewrite nthZ_updZ_eq by lia. lia.
    - split_and!; (done || lia). }
  destruct H1 as (msg1 & -> & Hb1 & Hl1 & Hf1).
  set (m2 := if negb (ce =? 0) then _ else _).
  assert (H2 : exists msg2, m2 = (msg2, size - ce) /\ bytes msg2 /\ lenZ msg2 = lenZ msg
    /\ (co = 1 -> ~ (area_byte e (offset - 1) = 0x7C /\ nthZ msg2 base = 0))
    /\ (ce = 1 -> ~ (nthZ msg2 (base + size - 1) = 0x7C /\ area_byte e (offset + size) = 0))).
  { unfold m2. pose proof (Z.mod_pos_bound (offset + size) 2 ltac:(lia)) as Hce. fold ce in Hce.
    destruct (ce =? 0) eqn:Ece; b2p; cbn [negb].
    { exists msg1. rewrite Ece, Z.sub_0_r. by split_and!. }
    assert (Hce1 : ce = 1) by lia. rewrite Hce1. rewrite (u16_id (size - 1)) by lia.
    assert (Hsize2 : co = 1 -> 2 <= size) by (unfold co, ce in *; dlia).
    assert (offset + size < 2 * key_count) by (unfold ce in *; dlia).
    replace (DYNAMIC_KEYMAP_EEPROM_ADDR + offset + size) with (DYNAMIC_KEYMAP_EEPROM_ADDR + (offset + size)) by lia.
    rewrite area_read by (done || lia).
    rewrite boot_bytes_16 by (apply area_byte_range || apply bytes_nthZ; done).
    case_if; eexists; (split; [done|]).
    - split; [by apply bytes_updZ|]. split; [by rewrite lenZ_updZ|]. split.
      + intros Hc. rewrite nthZ_updZ_ne by lia. by apply Hf1.
      + rewrite nthZ_updZ_eq by lia. lia.
    - split_and!; (done || lia). }
  destruct H2 as (msg2 & -> & Hb2 & Hl2 & Hf2 & Hlast).
  assert (Hn : 2 * ((size - ce - co + 1) / 2) = size - ce - co) by (unfold co, ce; dlia).
  set (n := (size - ce - co + 1) / 2) in *.
  assert (0 <= n) by (unfold n, co, ce; dlia).
  assert (Hcob : 0 <= co <= 1) by (unfold co; dlia). assert (Hceb : 0 <= ce <= 1) by (unfold ce; dlia).
  destruct (scan_spec msg2 base co n Hb2) as (Hb3 & Hl3 & Hout & Hin); [lia|lia|lia|lia|].
  set (msg3 := for_Z 0 n _ msg2) in *.
  split; [done|]. split; [lia|]. intros k Hlo Hhi. unfold written.
  destruct (decide (2 * k < offset)) as [Hfirst|Hfirst].
  - assert (co = 1 /\ offset = 2 * k + 1) as [Hc ->] by (unfold co; dlia).
    case_if; [lia|]. case_if; [|lia]. rewrite (Hout (base + _)) by lia.
    replace (base + (2 * k + 1 - (2 * k + 1))) with base by lia.
    replace (2 * k) with (2 * k + 1 - 1) at 1 by lia. by apply Hf2.
  - destruct (decide (2 * k + 1 < offset + size)) as [Hmid|Hmid].
    + case_if; [|lia]. case_if; [|lia].
      specialize (Hin ((2 * k - offset - co) / 2)).
      assert (Hk : co + 2 * ((2 * k - offset - co) / 2) = 2 * k - offset) by (unfold co; dlia).
      rewrite Hk in Hin. replace (base + (2 * k + 1 - offset)) with (base + (2 * k - offset) + 1) by lia.
      apply Hin. split; [|unfold n, co, ce]; dlia.
    + assert (ce = 1 /\ offset + size = 2 * k + 1) as [Hc Hk] by (unfold ce; dlia).
      case_if; [|lia]. case_if; [lia|]. rewrite (Hout (base + _)) by (unfold n, co, ce in *; lia).
      replace (base + (2 * k - offset)) with (base + size - 1) by lia. rewrite <- Hk. by apply Hlast.
Qed.

(** A bulk write that is in range. *)
Lemma set_buffer_spec lock e offset size msg base : ee_wf e -> bytes msg -> 1 <= size < 65536 ->
  0 <= base -> base + size <= lenZ msg -> 0 <= offset -> offset + size <= 2 * key_count ->
  let r := dynamic_keymap_set_buffer lock offset size msg base e in
  r.1 = (if truthy lock then msg else dynamic_keymap_scrub e offset size msg base)
  /\ bytes r.1 /\ lenZ r.1 = lenZ msg /\ ee_wf r.2
  /\ forall j, 0 <= j < 2 * key_count -> area_byte r.2 j = written e offset size r.1 base j.
Proof using cfg_ok size_ok.
  intros Hw Hb Hsz Hbase Hle Ho Harea. pose proof area_positive. pose proof key_area_in_store.
  unfold dynamic_keymap_set_buffer. rewrite eeprom_size_keys. case_if; [lia|]. cbn [fst snd].
  destruct (scrub_spec e offset size msg base Hw Hb Hsz Hbase Hle Ho Harea) as (Hbs & Hls & _).
  destruct (truthy lock); cbn [negb];
    set (msg' := if true then _ else _) || set (msg' := dynamic_keymap_scrub _ _ _ _ _) in *.
  all: match goal with |- context [nthZ ?m (_ + _)] =>
    destruct (update_loop_spec DYNAMIC_KEYMAP_EEPROM_ADDR offset (2 * key_count) base size m e)
      as [Hw' Hm']; [done|done|lia|lia|lia|lia|] end.
  all: split; [done|]; split; [done|]; split; [done|]; split; [done|]; intros j Hj.
  all: unfold area_byte at 1; rewrite Hm', Z.min_l by lia.
  all: rewrite nthZ_blit by (rewrite ?lenZ_slice, ?ee_len by (done || lia); lia).
  all: rewrite lenZ_slice by lia; unfold written; repeat case_if; try lia; try done.
  all: rewrite nthZ_slice by lia; f_equal; lia.
Qed.

Lemma set_buffer_rejected lock e offset size msg base : 0 <= offset ->
  2 * key_count < offset + size \/ 2 * key_count <= offset ->
  dynamic_keymap_set_buffer lock offset size msg base e = (msg, e).
Proof using cfg_ok. intros Ho H. unfold dynamic_keymap_set_buffer. rewrite eeprom_size_keys. case_if; [done|lia]. Qed.
End buffer.

(** ** Properties *)

(** A small keyboard on a store in RAM: two layers of two rows and three
    columns, an encoder, one entry of each kind. *)
Module KeymapExample.
Definition config : KeymapConfig := {|
  EECONFIG_SIZE := 36;
  VIA_EEPROM_LAYOUT_OPTIONS_SIZE := 1;
  VIA_EEPROM_CUSTOM_CONFIG_SIZE := 0;
  DYNAMIC_KEYMAP_LAYER_COUNT := 2;
  MATRIX_ROWS := 2;
  MATRIX_COLS := 3;
  NUM_ENCODERS := 1;
  VIAL_TAP_DANCE_ENTRIES := 1;
  VIAL_COMBO_ENTRIES := 1;
  VIAL_KEY_OVERRIDE_ENTRIES := 1;
  DYNAMIC_KEYMAP_MACRO_COUNT := 4;
  DYNAMIC_KEYMAP_EEPROM_MAX_ADDR := 299;
  TAPPING_TERM := 200;
  keycode_at_keymap_location_raw := fun l r c => if l =? 0 then 4 + r * 3 + c else 1;
  keycode_at_encodermap_location_raw := fun l i cw => if cw then 0xA9 else 0xAA;
|}.

Definition config_ok : @KeymapConfigOk config.
Proof. split; unfold config; vm_compute; repeat split; discriminate. Qed.

Definition store : Type := Transient.t.
#[global] Instance driver : Eeprom store := Transient.driver 300.
Lemma size_300 : 0 <= 300 < 4294967296.
Proof. lia. Qed.
Definition laws : EepromLaws store := Transient.laws 300 size_300.
Definition blank : store := Transient.blank 300.
Lemma example_wf : @ee_wf _ _ laws blank.
Proof. apply (Transient.blank_wf 300 size_300). Qed.
Lemma fits : @DYNAMIC_KEYMAP_EEPROM_MAX_ADDR config < @ee_size _ _ laws.
Proof. done. Qed.
End KeymapExample.

(** C7: The dynamic configuration is a set of independent cells. Whatever key,
    encoder turn, setting byte, tap dance, combo, key override or macro byte is
    set, its getter then returns the value set, and every other cell of every
    kind returns what it did before. *)
Theorem keymap_cells_independent {E : Type} {eeprom : Eeprom E} {cfg : KeymapConfig}
    {cfg_ok : KeymapConfigOk} {laws : EepromLaws E} (e : E) (s s' : slot) (v : list Z) :
  DYNAMIC_KEYMAP_EEPROM_MAX_ADDR < ee_size -> ee_wf e ->
  slot_valid s -> slot_value_wf s v -> slot_valid s' ->
  ee_wf (set_slot s v e)
  /\ get_slot (set_slot s v e) s' = if decide (s = s') then v else get_slot e s'.
Proof.
  intros Hsz Hw Hs Hv Hs'. split; [|by apply set_slot_frame].
  apply (set_slot_spec Hsz e s v Hw Hs Hv).
Qed.

(** C8: A locked keyboard never stores the bootloader keycode through a bulk
    keymap write: a key that does not hold [QK_BOOT] before the write does not
    hold it after, however the written range is aligned. *)
Theorem locked_set_buffer_no_boot {E : Type} {eeprom : Eeprom E} {cfg : KeymapConfig}
    {cfg_ok : KeymapConfigOk} {laws : EepromLaws E} (e : E) (offset size : Z) (msg : list Z) (base : Z)
    (l r c : Z) :
  DYNAMIC_KEYMAP_EEPROM_MAX_ADDR < ee_size -> ee_wf e -> bytes msg ->
  0 <= offset < 65536 -> 1 <= size < 65536 -> 0 <= base -> base + size <= lenZ msg ->
  slot_valid (SlotKey l r c) ->
  dynamic_keymap_get_keycode e l r c <> QK_BOOT ->
  dynamic_keymap_get_keycode (dynamic_keymap_set_buffer 0 offset size msg base e).2 l r c <> QK_BOOT.
Proof.
  intros Hz Hw Hb Ho Hsz Hbase Hle Hs Hfree Hboot. apply Hfree. revert Hboot.
  destruct (Z.le_gt_cases (offset + size) (2 * key_count)) as [Hin|Hout];
    [|by rewrite set_buffer_rejected by lia].
  destruct (set_buffer_spec Hz 0 e offset size msg base Hw Hb Hsz Hbase Hle (proj1 Ho) Hin)
    as (Hm & _ & _ & Hw' & Hbytes). cbn [truthy negb] in Hm.
  destruct (scrub_spec Hz e offset size msg base Hw Hb Hsz Hbase Hle (proj1 Ho) Hin)
    as (_ & _ & Hno).
  pose proof (key_index_range l r c) as Hk. destruct Hs as (Hl & Hr & Hc).
  specialize (Hk Hl Hr Hc). rewrite !get_keycode_boot by done. rewrite !Hbytes, Hm by lia.
  intros Hboot. specialize (Hno (key_index l r c)).
  destruct (decide (offset < 2 * key_index l r c + 2 /\ 2 * key_index l r c < offset + size)) as [[]|Hun].
  - by destruct (Hno ltac:(done) ltac:(done)).
  - unfold written in Hboot. repeat (case_if_in Hboot; [lia|]). done.
Qed.

Section witnesses.
#[local] Existing Instance KeymapExample.config.
#[local] Existing Instance KeymapExample.config_ok.
#[local] Existing Instance KeymapExample.laws.

Lemma keymap_cells_independent_witness :
  ee_wf (set_slot (SlotKey 1 0 2) [0x1234] KeymapExample.blank)
  /\ get_slot (set_slot (SlotKey 1 0 2) [0x1234] KeymapExample.blank) (SlotEncoder 0 0 true)
     = get_slot KeymapExample.blank (SlotEncoder 0 0 true).
Proof.
  refine (keymap_cells_independent KeymapExample.blank (SlotKey 1 0 2) (SlotEncoder 0 0 true) [0x1234]
            KeymapExample.fits KeymapExample.example_wf _ _ _).
  - repeat split; vm_compute; (done || discriminate).
  - exists 0x1234. done.
  - repeat split; vm_compute; (done || discriminate).
Defined.

Definition boot_msg : list Z := [0x13; 0; 1; 4; 0; 0x7C; 0; 0; 0].

Lemma locked_set_buffer_no_boot_witness :
  dynamic_keymap_get_keycode
    (dynamic_keymap_set_buffer 0 1 4 boot_msg 4 KeymapExample.blank).2 0 0 1 <> QK_BOOT.
Proof.
  refine (locked_set_buffer_no_boot KeymapExample.blank 1 4 boot_msg 4 0 0 1
            KeymapExample.fits KeymapExample.example_wf _ _ _ _ _ _ _).
  - repeat constructor; vm_compute; (done || discriminate).
  - lia.
  - lia.
  - lia.
  - vm_compute. discriminate.
  - repeat split; vm_compute; (done || discriminate).
  - vm_compute. discriminate.
Defined.
End witnesses.
