(* ===== verification/MacroSend.v ===== *)
(** Macros of [quantum/dynamic_keymap.c]: a buffer that holds encoded macros
    plays each of them back. *)

From S2P Require Import Prelude.
From S2P Require Import Eeprom.
From S2P Require Import DynamicKeymap.
From S2P Require Import KeymapSlots.
From S2P Require Import KeymapBuffer.

(** ** The macro language *)

(** A step of a macro: a character, a [send_string] code for a basic keycode,
    a call for a 16-bit keycode given by its bytes, or a delay. *)
Inductive macro_step :=
| MChar (c : Z)
| MCode (op k : Z)
| MExt (op lo hi : Z)
| MDelay (d0 d1 : Z).

Definition encode_step (a : macro_step) : list Z :=
  match a with
  | MChar c => [c]
  | MCode op k => [SS_QMK_PREFIX; op; k]
  | MExt op lo hi => [SS_QMK_PREFIX; op; lo; hi]
  | MDelay d0 d1 => [SS_QMK_PREFIX; SS_DELAY_CODE; d0; d1]
  end.

Definition nonzero_byte (z : Z) : Prop := 1 <= z < 256.

Definition step_wf (a : macro_step) : Prop :=
  match a with
  | MChar c => 1 < c < 256
  | MCode op k => (op = SS_TAP_CODE \/ op = SS_DOWN_CODE \/ op = SS_UP_CODE) /\ nonzero_byte k
  | MExt op lo hi => (op = VIAL_MACRO_EXT_TAP \/ op = VIAL_MACRO_EXT_DOWN \/ op = VIAL_MACRO_EXT_UP)
                     /\ nonzero_byte lo /\ nonzero_byte hi
  | MDelay d0 d1 => nonzero_byte d0 /\ nonzero_byte d1
  end.

(** What a step does. A 16-bit keycode with a zero low byte is written with
    [0xFF] in the high byte. *)
Definition step_call (a : macro_step) : macro_call :=
  match a with
  | MChar c => CallSendStringDelay [c]
  | MCode op k => CallSendString [SS_QMK_PREFIX; op; k]
  | MExt op lo hi =>
      let kc := if (hi =? 0xFF) then lo * 256 else hi * 256 + lo in
      if op =? VIAL_MACRO_EXT_TAP then CallKeycodeTap kc
      else if op =? VIAL_MACRO_EXT_DOWN then CallKeycodeDown kc else CallKeycodeUp kc
  | MDelay d0 d1 => CallWait ((d0 - 1) + (d1 - 1) * 255)
  end.

Definition encode_macro (m : list macro_step) : list Z := concat (map encode_step m) ++ [0].
Definition encode_macros (ms : list (list macro_step)) : list Z := concat (map encode_macro ms).

Lemma decode_keycode_spec lo hi : nonzero_byte lo -> nonzero_byte hi ->
  decode_keycode (le_val [lo; hi]) = if hi =? 0xFF then lo * 256 else hi * 256 + lo.
Proof.
  unfold nonzero_byte. intros. unfold decode_keycode. cbn [le_val].
  replace (lo + 256 * (hi + 256 * 0)) with (hi * 256 + lo) by lia.
  destruct (hi =? 0xFF) eqn:Eh; b2p.
  - subst. rewrite (proj2 (Z.ltb_lt _ _)) by lia. change 0xFF with (Z.ones 8) at 2.
    rewrite Z.land_ones, Z.shiftl_mul_pow2 by lia. pow_consts. dlia.
  - rewrite (proj2 (Z.ltb_ge _ _)) by lia. done.
Qed.

(** ** Playing a macro *)

Section playing.
Context {E : Type} {eeprom : Eeprom E} {cfg : KeymapConfig}.
Implicit Types (e : E) (l : list Z).

(** The bytes [l] are read from [p] on. *)
Definition reads e (p : Z) l : Prop :=
  forall i, 0 <= i < lenZ l -> eeprom_read_byte e (p + i) = nthZ l i.

Lemma reads_app e p l k : reads e p (l ++ k) <-> reads e p l /\ reads e (p + lenZ l) k.
Proof.
  pose proof (lenZ_nonneg l). pose proof (lenZ_nonneg k). unfold reads. rewrite lenZ_app. split.
  - intros H1. split; intros i Hi.
    + rewrite H1 by lia. rewrite nthZ_app by lia. case_if; [done|lia].
    + rewrite <- Z.add_assoc, H1 by lia. rewrite nthZ_app by lia. case_if; [lia|]. f_equal. lia.
  - intros [H1 H2] i Hi. rewrite nthZ_app by lia. case_if; [apply H1; lia|].
    rewrite <- H2 by lia. f_equal. lia.
Qed.

Lemma reads_cons e p x l : reads e p (x :: l) <-> eeprom_read_byte e p = x /\ reads e (p + 1) l.
Proof.
  change (x :: l) with ([x] ++ l). rewrite reads_app. change (lenZ [x]) with 1.
  split; intros [H1 H2]; (split; [|done]).
  - specialize (H1 0 ltac:(done)). by rewrite Z.add_0_r in H1.
  - intros i Hi. change (lenZ [x]) with 1 in Hi. replace i with 0 by lia. by rewrite Z.add_0_r.
Qed.

(** One round of the loop plays one step. *)
Lemma send_loop_step fuel e p a : step_wf a -> reads e p (encode_step a) ->
  send_loop (S fuel) e p = cons (step_call a) <$> send_loop fuel e (p + lenZ (encode_step a)).
Proof.
  unfold step_wf, nonzero_byte. intros Hwf Hr. cbn [send_loop].
  destruct a as [c|op k|op lo hi|d0 d1]; cbn [encode_step step_call] in *;
    rewrite !reads_cons in Hr; unfold lenZ; cbn [length]; change (Z.of_nat _) with 1
    || change (Z.of_nat _) with 3 || change (Z.of_nat _) with 4.
  - destruct Hr as [-> _]. unfold SS_QMK_PREFIX.
    rewrite !(proj2 (Z.eqb_neq c _)) by lia. done.
  - destruct Hr as (-> & -> & -> & _). destruct Hwf as [Hop Hk]. rewrite <- !Z.add_assoc.
    rewrite (proj2 (Z.eqb_neq k 0)) by lia. destruct Hop as [->|[->| ->]]; done.
  - destruct Hr as (-> & -> & -> & -> & _). destruct Hwf as (Hop & Hlo & Hhi). rewrite <- !Z.add_assoc.
    rewrite (proj2 (Z.eqb_neq lo 0)), (proj2 (Z.eqb_neq hi 0)) by lia.
    rewrite decode_keycode_spec by done. destruct Hop as [->|[->| ->]]; done.
  - destruct Hr as (-> & -> & -> & -> & _). destruct Hwf as [H0 H1]. rewrite <- !Z.add_assoc.
    rewrite (proj2 (Z.eqb_neq d0 0)), (proj2 (Z.eqb_neq d1 0)) by lia. done.
Qed.

Lemma send_loop_macro e m : forall fuel p, (length m < fuel)%nat -> Forall step_wf m ->
  reads e p (encode_macro m) -> send_loop fuel e p = Some (map step_call m).
Proof.
  unfold encode_macro. induction m as [|a m IH]; intros fuel p Hf Hwf Hr;
    (destruct fuel as [|fuel]; [simpl in Hf; lia|]).
  - cbn [map concat app] in Hr. apply reads_cons in Hr. destruct Hr as [Hr _].
    cbn [send_loop map]. by rewrite Hr.
  - inversion Hwf as [|? ? Ha Hm]; subst. cbn [map concat] in Hr. rewrite <- app_assoc in Hr.
    apply reads_app in Hr. destruct Hr as [H1 H2].
    rewrite (send_loop_step fuel e p a) by done.
    by rewrite (IH fuel) by (simpl in Hf; lia || done).
Qed.

Lemma encode_step_nonzero a : step_wf a -> Forall (fun z => z <> 0) (encode_step a).
Proof.
  unfold step_wf, nonzero_byte, SS_TAP_CODE, SS_DOWN_CODE, SS_UP_CODE, VIAL_MACRO_EXT_TAP,
    VIAL_MACRO_EXT_DOWN, VIAL_MACRO_EXT_UP.
  destruct a; cbn; intros; repeat apply Forall_cons_2; try apply Forall_nil_2;
    unfold SS_QMK_PREFIX, SS_DELAY_CODE; lia.
Qed.

Lemma encode_nonzero m : Forall step_wf m -> Forall (fun z => z <> 0) (concat (map encode_step m)).
Proof.
  induction 1 as [|a m Ha Hm IH]; [done|]. cbn [map concat].
  apply Forall_app_2; [by apply encode_step_nonzero|done].
Qed.

Lemma length_macro m : Forall step_wf m -> lenZ m < lenZ (encode_macro m).
Proof.
  intros Hm. unfold encode_macro. rewrite lenZ_app. change (lenZ [0]) with 1.
  induction m as [|a m IH]; [done|]. inversion Hm; subst. cbn [map concat].
  rewrite lenZ_cons, lenZ_app. specialize (IH ltac:(done)).
  assert (1 <= lenZ (encode_step a)) by (destruct a; cbn; unfold lenZ; simpl; lia). lia.
Qed.

Lemma skip_macros_S fuel e id p : skip_macros (S fuel) e id p
  = if 0 <? id then
      if p =? DYNAMIC_KEYMAP_MACRO_EEPROM_ADDR + DYNAMIC_KEYMAP_MACRO_EEPROM_SIZE then None
      else skip_macros fuel e (if eeprom_read_byte e p =? 0 then id - 1 else id) (p + 1)
    else Some p.
Proof. done. Qed.

(** Skipping the macros before the one asked for. *)
Lemma skip_one l : forall fuel e id p, Forall (fun z => z <> 0) l -> 0 < id -> reads e p (l ++ [0]) ->
  p + lenZ l < DYNAMIC_KEYMAP_MACRO_EEPROM_ADDR + DYNAMIC_KEYMAP_MACRO_EEPROM_SIZE ->
  skip_macros (S (length l) + fuel) e id p = skip_macros fuel e (id - 1) (p + lenZ l + 1).
Proof.
  induction l as [|x l IH]; intros fuel e id p Hl Hid Hr Hle; cbn [length Nat.add app] in *;
    apply reads_cons in Hr; destruct Hr as [Hx Hr]; rewrite skip_macros_S;
    rewrite (proj2 (Z.ltb_lt 0 id)) by done.
  - rewrite lenZ_nil in *. rewrite (proj2 (Z.eqb_neq p _)) by lia. rewrite Hx. change (0 =? 0) with true. cbv iota. f_equal.
    rewrite lenZ_nil. lia.
  - rewrite lenZ_cons in *. pose proof (lenZ_nonneg l).
    rewrite (proj2 (Z.eqb_neq p _)) by lia. inversion Hl as [|? ? Hx0 Hl']; subst.
    rewrite (proj2 (Z.eqb_neq _ 0)) by done.
    rewrite IH by (done || lia). f_equal; lia.
Qed.

Lemma skip_spec e ms : forall fuel p, Forall (Forall step_wf) ms -> reads e p (encode_macros ms) ->
  p + lenZ (encode_macros ms) <= DYNAMIC_KEYMAP_MACRO_EEPROM_ADDR + DYNAMIC_KEYMAP_MACRO_EEPROM_SIZE ->
  skip_macros (length (encode_macros ms) + S fuel) e (lenZ ms) p = Some (p + lenZ (encode_macros ms)).
Proof.
  unfold encode_macros. induction ms as [|m ms IH]; intros fuel p Hwf Hr Hle.
  { cbn. by rewrite Z.add_0_r. }
  inversion Hwf as [|? ? Hm Hms]; subst. cbn [map concat] in *. apply reads_app in Hr.
  destruct Hr as [H1 H2]. rewrite lenZ_app in *. pose proof (lenZ_nonneg (concat (map encode_macro ms))).
  unfold encode_macro at 1 in H1. unfold encode_macro in Hle at 1.
  assert (Hl : lenZ (encode_macro m) = lenZ (concat (map encode_step m)) + 1)
    by (unfold encode_macro; by rewrite lenZ_app).
  rewrite length_app, <- Nat.add_assoc, lenZ_cons.
  replace (length (encode_macro m)) with (S (length (concat (map encode_step m))))
    by (unfold encode_macro; rewrite length_app; simpl; lia).
  rewrite lenZ_app in Hle. change (lenZ [0]) with 1 in Hle.
  rewrite skip_one; [|by apply encode_nonzero|unfold lenZ; lia|done|lia].
  replace (1 + lenZ ms - 1) with (lenZ ms) by lia.
  replace (p + lenZ (concat (map encode_step m)) + 1) with (p + lenZ (encode_macro m)) by lia.
  rewrite IH by (done || lia). f_equal. lia.
Qed.
End playing.

(** ** Storing macros *)

Section storing.
Context {E : Type} {eeprom : Eeprom E} {cfg : KeymapConfig} {cfg_ok : KeymapConfigOk}
        {laws : EepromLaws E} (size_ok : DYNAMIC_KEYMAP_EEPROM_MAX_ADDR < ee_size).
Implicit Types (e : E).

Lemma macro_area : 0 <= DYNAMIC_KEYMAP_MACRO_EEPROM_ADDR
  /\ DYNAMIC_KEYMAP_MACRO_EEPROM_ADDR + DYNAMIC_KEYMAP_MACRO_EEPROM_SIZE <= ee_size
  /\ 100 < DYNAMIC_KEYMAP_MACRO_EEPROM_SIZE <= 65536.
Proof using cfg_ok size_ok.
  pose proof area_positive. pose proof key_area.
  split; [|split; [unfold DYNAMIC_KEYMAP_MACRO_EEPROM_SIZE; lia|tauto]].
  unfold DYNAMIC_KEYMAP_MACRO_EEPROM_ADDR, VIAL_KEY_OVERRIDE_EEPROM_ADDR, VIAL_COMBO_EEPROM_ADDR,
    VIAL_TAP_DANCE_EEPROM_ADDR, VIAL_QMK_SETTINGS_EEPROM_ADDR, VIAL_QMK_SETTINGS_SIZE in *. lia.
Qed.

(** [dynamic_keymap_macro_reset] zeroes the macro area and nothing else. *)
Lemma macro_reset_spec e : ee_wf e -> ee_wf (dynamic_keymap_macro_reset e)
  /\ forall j, nthZ (ee_mem (dynamic_keymap_macro_reset e)) j
     = if (DYNAMIC_KEYMAP_MACRO_EEPROM_ADDR <=? j)
          && (j <? DYNAMIC_KEYMAP_MACRO_EEPROM_ADDR + DYNAMIC_KEYMAP_MACRO_EEPROM_SIZE)
       then 0 else nthZ (ee_mem e) j.
Proof using cfg_ok size_ok.
  intros Hw. pose proof macro_area as (Ha & Hle & Hs). unfold dynamic_keymap_macro_reset.
  apply (for_Z_inv (fun p e => eeprom_update_byte p 0 e)
    (fun i e' => ee_wf e' /\ forall j, nthZ (ee_mem e') j
       = if (DYNAMIC_KEYMAP_MACRO_EEPROM_ADDR <=? j) && (j <? i) then 0 else nthZ (ee_mem e) j)); [lia| |].
  - split; [done|]. intros j. case_if; [lia|done].
  - intros i e' Hi [Hw' Hm'].
    pose proof (eeprom_update_byte_spec e' i 0 Hw' ltac:(lia) ltac:(lia)) as Hst.
    split; [apply Hst|]. intros j.
    rewrite (ee_stored_nth e' _ i (le_bytes 1 0)) by (done || lia || (change (lenZ (le_bytes 1 0)) with 1; lia)).
    change (lenZ (le_bytes 1 0)) with 1. rewrite Hm'. repeat case_if; try lia; try done.
    replace (j - i) with 0 by lia. done.
Qed.

(** A buffer uploaded after a reset is read back, zeros behind it. *)
Lemma macro_upload_spec e l : ee_wf e -> bytes l -> lenZ l <= DYNAMIC_KEYMAP_MACRO_EEPROM_SIZE ->
  let e' := dynamic_keymap_macro_set_buffer 0 (lenZ l) l 0 (dynamic_keymap_macro_reset e) in
  ee_wf e' /\ reads e' DYNAMIC_KEYMAP_MACRO_EEPROM_ADDR l
  /\ (lenZ l < DYNAMIC_KEYMAP_MACRO_EEPROM_SIZE ->
      eeprom_read_byte e' (DYNAMIC_KEYMAP_MACRO_EEPROM_ADDR + DYNAMIC_KEYMAP_MACRO_EEPROM_SIZE - 1) = 0).
Proof using cfg_ok size_ok.
  intros Hw Hb Hl e'. pose proof macro_area as (Ha & Hle & Hs). pose proof (lenZ_nonneg l).
  destruct (macro_reset_spec e Hw) as [Hwr Hmr].
  destruct (update_loop_spec DYNAMIC_KEYMAP_MACRO_EEPROM_ADDR 0 DYNAMIC_KEYMAP_MACRO_EEPROM_SIZE
              0 (lenZ l) l _ Hwr Hb) as [Hw' Hm']; [lia..|].
  fold (dynamic_keymap_macro_set_buffer 0 (lenZ l) l 0 (dynamic_keymap_macro_reset e)) in Hw', Hm'.
  fold e' in Hw', Hm'. rewrite Z.add_0_r, Z.sub_0_r, Z.min_l, slice_all in Hm' by lia.
  split; [done|]. split.
  - intros i Hi. rewrite eeprom_read_byte_spec by (done || lia). rewrite Hm'.
    rewrite nthZ_blit by (rewrite ?ee_len by done; lia). case_if; [f_equal; lia|lia].
  - intros Hlt. rewrite eeprom_read_byte_spec by (done || lia). rewrite Hm'.
    rewrite nthZ_blit by (rewrite ?ee_len by done; lia). case_if; [lia|].
    rewrite Hmr. case_if; [done|lia].
Qed.

Lemma step_bytes a : step_wf a -> bytes (encode_step a).
Proof.
  unfold step_wf, nonzero_byte, SS_TAP_CODE, SS_DOWN_CODE, SS_UP_CODE, VIAL_MACRO_EXT_TAP,
    VIAL_MACRO_EXT_DOWN, VIAL_MACRO_EXT_UP.
  destruct a; cbn; intros; repeat apply Forall_cons_2; try apply Forall_nil_2;
    unfold SS_QMK_PREFIX, SS_DELAY_CODE; lia.
Qed.

Lemma macros_bytes ms : Forall (Forall step_wf) ms -> bytes (encode_macros ms).
Proof.
  induction 1 as [|m ms Hm Hms IH]; [constructor|]. cbn [encode_macros map concat].
  apply bytes_app; [|done]. apply bytes_app; [|repeat constructor; lia].
  clear -Hm. induction Hm as [|a m Ha Hm IH]; [constructor|]. cbn [map concat].
  apply bytes_app; [by apply step_bytes|done].
Qed.

Lemma macros_last ms : ms <> [] -> nthZ (encode_macros ms) (lenZ (encode_macros ms) - 1) = 0.
Proof.
  intros Hne. destruct (exists_last Hne) as (pre & m & ->). unfold encode_macros.
  rewrite map_app, concat_app. cbn [map concat]. rewrite app_nil_r. unfold encode_macro at 2 4.
  rewrite app_assoc. set (k := _ ++ concat _). rewrite lenZ_app. change (lenZ [0]) with 1.
  pose proof (lenZ_nonneg k). rewrite nthZ_app by lia. case_if; [lia|].
  by replace (lenZ k + 1 - 1 - lenZ k) with 0 by lia.
Qed.
End storing.

(** The macro is found behind those before it, and its bytes are its steps. *)
Lemma macro_upload_plays {E : Type} {eeprom : Eeprom E} {cfg : KeymapConfig} {cfg_ok : KeymapConfigOk}
    {laws : EepromLaws E} (e : E) (ms : list (list macro_step)) (id : Z) (m : list macro_step) :
  DYNAMIC_KEYMAP_EEPROM_MAX_ADDR < ee_size -> ee_wf e -> Forall (Forall step_wf) ms ->
  lenZ (encode_macros ms) <= DYNAMIC_KEYMAP_MACRO_EEPROM_SIZE ->
  0 <= id < DYNAMIC_KEYMAP_MACRO_COUNT -> ms !! Z.to_nat id = Some m ->
  dynamic_keymap_macro_send
    (dynamic_keymap_macro_set_buffer 0 (lenZ (encode_macros ms)) (encode_macros ms) 0
       (dynamic_keymap_macro_reset e)) id
  = Some (map step_call m).
Proof.
  intros Hz Hw Hwf Hle Hid Hm. pose proof (macro_area Hz) as (Ha & Hend & Hs).
  destruct (macro_upload_spec Hz e (encode_macros ms) Hw (macros_bytes ms Hwf) Hle) as (Hw' & Hr & Hlast).
  set (e' := dynamic_keymap_macro_set_buffer _ _ _ _ _) in *.
  assert (Hl0 : eeprom_read_byte e'
    (DYNAMIC_KEYMAP_MACRO_EEPROM_ADDR + DYNAMIC_KEYMAP_MACRO_EEPROM_SIZE - 1) = 0).
  { destruct (Z.lt_ge_cases (lenZ (encode_macros ms)) DYNAMIC_KEYMAP_MACRO_EEPROM_SIZE) as [|Hge]; [auto|].
    replace (_ + _ - 1) with (DYNAMIC_KEYMAP_MACRO_EEPROM_ADDR + (lenZ (encode_macros ms) - 1)) by lia.
    rewrite Hr by lia.
    apply macros_last. by destruct ms. }
  unfold dynamic_keymap_macro_send. rewrite (proj2 (Z.leb_gt _ _)), Hl0 by lia. cbn [Z.eqb negb].
  pose proof (take_drop_middle _ _ _ Hm) as Hsplit. apply lookup_lt_Some in Hm.
  set (pre := take (Z.to_nat id) ms) in *. set (post := drop (S (Z.to_nat id)) ms) in *.
  assert (Henc : encode_macros ms = encode_macros pre ++ encode_macro m ++ encode_macros post).
  { rewrite <- Hsplit. unfold encode_macros. rewrite map_app, concat_app. done. }
  rewrite <- Hsplit in Hwf. apply Forall_app in Hwf. destruct Hwf as [Hpre Hwf].
  apply Forall_cons_1 in Hwf. destruct Hwf as [Hmwf _].
  rewrite Henc in Hr, Hle. apply reads_app in Hr. destruct Hr as [Hr1 Hr2].
  apply reads_app in Hr2. destruct Hr2 as [Hr2 _]. rewrite !lenZ_app in Hle.
  pose proof (lenZ_nonneg (encode_macros pre)). pose proof (lenZ_nonneg (encode_macro m)).
  pose proof (lenZ_nonneg (encode_macros post)). pose proof (length_macro m Hmwf).
  assert (Hidp : id = lenZ pre) by (unfold pre, lenZ; rewrite length_take; lia).
  assert (Hfuel : macro_fuel = (length (encode_macros pre)
     + S (Z.to_nat DYNAMIC_KEYMAP_MACRO_EEPROM_SIZE - length (encode_macros pre)))%nat)
    by (unfold macro_fuel, lenZ in *; lia).
  rewrite Hfuel at 1. rewrite Hidp, skip_spec by (done || lia).
  apply send_loop_macro; [unfold macro_fuel, lenZ in *; lia|done|done].
Qed.

(** C9: Macros play back as written. After a reset and an upload of a list of
    encoded macros that fits the buffer, sending macro [id] makes exactly the
    calls of the steps of the [id]-th macro, in order, and stops at its end. *)
Theorem macro_send_plays {E : Type} {eeprom : Eeprom E} {cfg : KeymapConfig} {cfg_ok : KeymapConfigOk}
    {laws : EepromLaws E} (e : E) (ms : list (list macro_step)) (id : Z) (m : list macro_step) :
  DYNAMIC_KEYMAP_EEPROM_MAX_ADDR < ee_size -> ee_wf e -> Forall (Forall step_wf) ms ->
  lenZ (encode_macros ms) <= DYNAMIC_KEYMAP_MACRO_EEPROM_SIZE ->
  0 <= id < DYNAMIC_KEYMAP_MACRO_COUNT -> ms !! Z.to_nat id = Some m ->
  dynamic_keymap_macro_send
    (dynamic_keymap_macro_set_buffer 0 (lenZ (encode_macros ms)) (encode_macros ms) 0
       (dynamic_keymap_macro_reset e)) id
  = Some (map step_call m).
Proof. intros. by apply macro_upload_plays. Qed.

Section witnesses.
#[local] Existing Instance KeymapExample.config.
#[local] Existing Instance KeymapExample.config_ok.
#[local] Existing Instance KeymapExample.laws.

Definition two_macros : list (list macro_step) :=
  [[MChar 104; MChar 105]; [MCode 1 4; MDelay 11 1; MExt 5 0x7E 0xFF]].

Lemma macro_send_plays_witness :
  dynamic_keymap_macro_send
    (dynamic_keymap_macro_set_buffer 0 (lenZ (encode_macros two_macros)) (encode_macros two_macros) 0
       (dynamic_keymap_macro_reset KeymapExample.blank)) 1
  = Some [CallSendString [1; 1; 4]; CallWait 10; CallKeycodeTap 0x7E00].
Proof.
  refine (macro_send_plays KeymapExample.blank two_macros 1 [MCode 1 4; MDelay 11 1; MExt 5 0x7E 0xFF]
            KeymapExample.fits KeymapExample.example_wf _ _ _ _).
  - repeat first [apply Forall_cons_2 | apply Forall_nil_2]; cbn; unfold nonzero_byte; auto with lia.
  - vm_compute. discriminate.
  - split; vm_compute; (done || discriminate).
  - reflexivity.
Defined.
End witnesses.
