(* ===== verification/Eeconfig.v ===== *)
(** The persistent core configuration, [quantum/eeconfig.c] with the layout of
    [quantum/eeconfig.h]: the accessors of the fixed fields and of the keyboard
    and user data blocks. The initialisation, which calls into the VIA and Vial
    layers, is in [Via.v]. *)

From S2P Require Import Prelude.
From S2P Require Import Eeprom.

Class EeconfigConfig := {
  EECONFIG_KB_DATA_SIZE : Z;
  EECONFIG_KB_DATA_VERSION : Z;
  EECONFIG_USER_DATA_SIZE : Z;
  EECONFIG_USER_DATA_VERSION : Z;
}.

Definition EECONFIG_MAGIC_NUMBER : Z := 0xFEE5.
Definition EECONFIG_MAGIC_NUMBER_OFF : Z := 0xFFFF.

(** The offsets of the packed [eeprom_core_t]. *)
Definition EECONFIG_MAGIC : Z := 0.
Definition EECONFIG_DEBUG : Z := 2.
Definition EECONFIG_DEFAULT_LAYER : Z := 3.
Definition EECONFIG_KEYMAP : Z := 4.
Definition EECONFIG_BACKLIGHT : Z := 6.
Definition EECONFIG_AUDIO : Z := 7.
Definition EECONFIG_RGBLIGHT : Z := 8.
Definition EECONFIG_UNICODEMODE : Z := 12.
Definition EECONFIG_STENOMODE : Z := 13.
Definition EECONFIG_HANDEDNESS : Z := 14.
Definition EECONFIG_KEYBOARD : Z := 15.
Definition EECONFIG_USER : Z := 19.
Definition EECONFIG_RGB_MATRIX : Z := 23.
Definition EECONFIG_HAPTIC : Z := 31.
Definition EECONFIG_RGBLIGHT_EXTENDED : Z := 35.
Definition EECONFIG_BASE_SIZE : Z := 36.

Section eeconfig.
Context {E : Type} {eeprom : Eeprom E} {cfg : EeconfigConfig}.
Implicit Types (e : E).

Definition EECONFIG_KB_DATABLOCK : Z := EECONFIG_BASE_SIZE.
Definition EECONFIG_USER_DATABLOCK : Z := EECONFIG_BASE_SIZE + EECONFIG_KB_DATA_SIZE.

Definition eeconfig_enable e : E := eeprom_update_word EECONFIG_MAGIC EECONFIG_MAGIC_NUMBER e.

Definition eeconfig_disable e : E :=
  eeprom_update_word EECONFIG_MAGIC EECONFIG_MAGIC_NUMBER_OFF (eeprom_driver_format false e).

Definition eeconfig_read_debug e : Z := eeprom_read_byte e EECONFIG_DEBUG.
Definition eeconfig_update_debug (val : Z) e : E := eeprom_update_byte EECONFIG_DEBUG val e.

(** The default layers are stored as an eight-bit mask. *)
Definition eeconfig_read_default_layer e : Z := eeprom_read_byte e EECONFIG_DEFAULT_LAYER.
Definition eeconfig_update_default_layer (state : Z) e : E :=
  eeprom_update_byte EECONFIG_DEFAULT_LAYER (u8 state) e.

Definition eeconfig_read_keymap e : Z := eeprom_read_word e EECONFIG_KEYMAP.
Definition eeconfig_update_keymap (val : Z) e : E := eeprom_update_word EECONFIG_KEYMAP val e.

Definition eeconfig_read_audio e : Z := eeprom_read_byte e EECONFIG_AUDIO.
Definition eeconfig_update_audio (val : Z) e : E := eeprom_update_byte EECONFIG_AUDIO val e.

Definition eeconfig_read_kb e : Z := eeprom_read_dword e EECONFIG_KEYBOARD.
Definition eeconfig_update_kb (val : Z) e : E := eeprom_update_dword EECONFIG_KEYBOARD val e.

Definition eeconfig_read_user e : Z := eeprom_read_dword e EECONFIG_USER.
Definition eeconfig_update_user (val : Z) e : E := eeprom_update_dword EECONFIG_USER val e.

Definition eeconfig_read_haptic e : Z := eeprom_read_dword e EECONFIG_HAPTIC.
Definition eeconfig_update_haptic (val : Z) e : E := eeprom_update_dword EECONFIG_HAPTIC val e.

Definition eeconfig_read_handedness e : bool := truthy (eeprom_read_byte e EECONFIG_HANDEDNESS).
Definition eeconfig_update_handedness (val : bool) e : E :=
  eeprom_update_byte EECONFIG_HANDEDNESS (b2z val) e.

(** The data blocks, with a version in the word the plain value would use. *)
Definition eeconfig_is_kb_datablock_valid e : bool :=
  eeprom_read_dword e EECONFIG_KEYBOARD =? EECONFIG_KB_DATA_VERSION.
Definition eeconfig_read_kb_datablock e (data : list Z) : list Z :=
  if eeconfig_is_kb_datablock_valid e
  then blit data 0 (eeprom_read_block e (slice data 0 EECONFIG_KB_DATA_SIZE) EECONFIG_KB_DATABLOCK)
  else blit data 0 (memset 0 EECONFIG_KB_DATA_SIZE).
Definition eeconfig_update_kb_datablock (data : list Z) e : E :=
  let e := eeprom_update_dword EECONFIG_KEYBOARD EECONFIG_KB_DATA_VERSION e in
  eeprom_update_block (slice data 0 EECONFIG_KB_DATA_SIZE) EECONFIG_KB_DATABLOCK e.
Definition eeconfig_init_kb_datablock e : E :=
  eeconfig_update_kb_datablock (memset 0 EECONFIG_KB_DATA_SIZE) e.

Definition eeconfig_is_user_datablock_valid e : bool :=
  eeprom_read_dword e EECONFIG_USER =? EECONFIG_USER_DATA_VERSION.
Definition eeconfig_read_user_datablock e (data : list Z) : list Z :=
  if eeconfig_is_user_datablock_valid e
  then blit data 0 (eeprom_read_block e (slice data 0 EECONFIG_USER_DATA_SIZE) EECONFIG_USER_DATABLOCK)
  else blit data 0 (memset 0 EECONFIG_USER_DATA_SIZE).
Definition eeconfig_update_user_datablock (data : list Z) e : E :=
  let e := eeprom_update_dword EECONFIG_USER EECONFIG_USER_DATA_VERSION e in
  eeprom_update_block (slice data 0 EECONFIG_USER_DATA_SIZE) EECONFIG_USER_DATABLOCK e.
Definition eeconfig_init_user_datablock e : E :=
  eeconfig_update_user_datablock (memset 0 EECONFIG_USER_DATA_SIZE) e.

(** The weak hooks: the plain word is cleared when there is no data block. *)
Definition eeconfig_init_user e : E :=
  if EECONFIG_USER_DATA_SIZE =? 0 then eeconfig_update_user 0 e else e.
Definition eeconfig_init_kb e : E :=
  let e := if EECONFIG_KB_DATA_SIZE =? 0 then eeconfig_update_kb 0 e else e in
  eeconfig_init_user e.
End eeconfig.

(** A versioned block: the version in the word at [word], the data at [blk]. *)
Lemma datablock_spec {E : Type} {eeprom : Eeprom E} {laws : EepromLaws E} (e : E) word ver blk data :
  ee_wf e -> 0 <= word -> word + 4 <= blk -> blk + lenZ data <= ee_size -> bytes data ->
  0 <= ver < 4294967296 ->
  let e' := eeprom_update_block data blk (eeprom_update_dword word ver e) in
  ee_wf e' /\ le_val (slice (ee_mem e') word 4) = ver /\ slice (ee_mem e') blk (lenZ data) = data
  /\ forall a n, 0 <= n -> a + n <= word \/ word + 4 <= a -> a + n <= blk \/ blk + lenZ data <= a ->
       slice (ee_mem e') a n = slice (ee_mem e) a n.
Proof.
  intros Hw H0 Hwb Hle Hb Hv e'. pose proof (lenZ_nonneg data).
  assert (Hl : lenZ (le_bytes 4 ver) = 4) by done.
  pose proof (eeprom_update_dword_spec e word ver Hw H0 ltac:(lia)) as S1.
  pose proof (eeprom_update_block_spec _ data blk (proj1 S1) Hb ltac:(lia) Hle) as S2.
  fold e' in S2. split; [apply S2|]. split; [|split].
  - rewrite (ee_stored_frame _ _ blk data word 4 (proj1 S1) ltac:(lia) Hle ltac:(lia) ltac:(lia) S2).
    rewrite <- Hl, (ee_stored_read e _ word (le_bytes 4 ver) Hw H0 ltac:(lia) S1). by apply le_val_bytes.
  - apply (ee_stored_read _ _ blk data (proj1 S1) ltac:(lia) Hle S2).
  - intros a n Hn Hd1 Hd2.
    rewrite (ee_stored_frame _ _ blk data a n (proj1 S1) ltac:(lia) Hle Hn Hd2 S2).
    apply (ee_stored_frame e _ word (le_bytes 4 ver) a n Hw H0 ltac:(lia) Hn ltac:(lia) S1).
Qed.

(** ** Properties *)

(** The two data blocks survive: after a keyboard block and a user block
    are stored, in this order, each is read back with its version valid, over
    any driver that has room for both. *)
Theorem eeconfig_datablocks_roundtrip {E : Type} {eeprom : Eeprom E} {cfg : EeconfigConfig}
    {laws : EepromLaws E} (e : E) (kb user buf1 buf2 : list Z) :
  ee_wf e -> EECONFIG_BASE_SIZE + EECONFIG_KB_DATA_SIZE + EECONFIG_USER_DATA_SIZE <= ee_size ->
  0 < EECONFIG_KB_DATA_SIZE -> 0 < EECONFIG_USER_DATA_SIZE ->
  0 <= EECONFIG_KB_DATA_VERSION < 4294967296 -> 0 <= EECONFIG_USER_DATA_VERSION < 4294967296 ->
  bytes kb -> bytes user -> lenZ kb = EECONFIG_KB_DATA_SIZE -> lenZ user = EECONFIG_USER_DATA_SIZE ->
  lenZ buf1 = EECONFIG_KB_DATA_SIZE -> lenZ buf2 = EECONFIG_USER_DATA_SIZE ->
  let e' := eeconfig_update_user_datablock user (eeconfig_update_kb_datablock kb e) in
  eeconfig_read_kb_datablock e' buf1 = kb /\ eeconfig_read_user_datablock e' buf2 = user.
Proof.
  intros Hw Hsz Hk0 Hu0 Hkv Huv Hkb Hub Hk Hu Hb1 Hb2 e'.
  unfold e', eeconfig_update_user_datablock, eeconfig_update_kb_datablock, EECONFIG_KB_DATABLOCK,
    EECONFIG_USER_DATABLOCK, EECONFIG_BASE_SIZE, EECONFIG_KEYBOARD, EECONFIG_USER in *.
  rewrite <- Hk, <- Hu in *. rewrite !slice_all. clear e'.
  destruct (datablock_spec e 15 EECONFIG_KB_DATA_VERSION 36 kb Hw) as (W1 & V1 & D1 & _); [lia..|done|done|].
  set (e1 := eeprom_update_block kb 36 _) in *.
  destruct (datablock_spec e1 19 EECONFIG_USER_DATA_VERSION (36 + lenZ kb) user W1)
    as (W2 & V2 & D2 & F2); [lia..|done|done|].
  set (e2 := eeprom_update_block user _ _) in *.
  unfold eeconfig_read_kb_datablock, eeconfig_read_user_datablock, eeconfig_is_kb_datablock_valid,
    eeconfig_is_user_datablock_valid, EECONFIG_KB_DATABLOCK, EECONFIG_USER_DATABLOCK,
    EECONFIG_BASE_SIZE, EECONFIG_KEYBOARD, EECONFIG_USER. rewrite <- Hk, <- Hu.
  rewrite !eeprom_read_dword_spec by (done || lia).
  rewrite V2, (F2 15 4), V1, !Z.eqb_refl by lia.
  rewrite !ee_read_law by (done || (rewrite ?lenZ_slice by lia; lia)).
  rewrite !lenZ_slice, D2, (F2 36), D1 by lia. split; apply blit_whole; lia.
Qed.

Section witnesses.
#[local] Instance small_blocks : EeconfigConfig := {|
  EECONFIG_KB_DATA_SIZE := 2; EECONFIG_KB_DATA_VERSION := 2;
  EECONFIG_USER_DATA_SIZE := 3; EECONFIG_USER_DATA_VERSION := 7 |}.
#[local] Instance small_driver : Eeprom Transient.t := Transient.driver 64.

Lemma small_size : 0 <= 64 < 4294967296.
Proof. lia. Qed.

Lemma eeconfig_datablocks_roundtrip_witness :
  eeconfig_read_kb_datablock
    (eeconfig_update_user_datablock [3; 4; 5]
       (eeconfig_update_kb_datablock [1; 2] (Transient.blank 64))) [0; 0] = [1; 2]
  /\ eeconfig_read_user_datablock
    (eeconfig_update_user_datablock [3; 4; 5]
       (eeconfig_update_kb_datablock [1; 2] (Transient.blank 64))) [0; 0; 0] = [3; 4; 5].
Proof.
  apply (eeconfig_datablocks_roundtrip (laws := Transient.laws 64 small_size)
           (Transient.blank 64) [1; 2] [3; 4; 5] [0; 0] [0; 0; 0]);
    try (vm_compute; (reflexivity || discriminate)); try (cbn; lia);
    first [apply (Transient.blank_wf 64 small_size) | repeat constructor; lia].
Defined.
End witnesses.
