(* ===== verification/QmkSettings.v ===== *)
(** The runtime settings, [quantum/qmk_settings.c]: the table of settings, get,
    set, query, reset, and their storage in the EEPROM. The settings structure
    [QS] is its 36 bytes; a setting points at a field by its offset. *)

From S2P Require Import Prelude.
From S2P Require Import Eeprom.
From S2P Require Import DynamicKeymap.
From S2P Require Import Eeconfig.
From S2P Require Import KeymapSlots.
From S2P Require Import KeymapBuffer.

(** ** Settings *)

(** The callback of a setting, if it has one. *)
Inductive qs_notify := notify_none | auto_shift_timeout_apply | mousekey_apply.

(** An entry of [protos]: a field of [QS], or the keymap options. *)
Inductive qs_proto :=
| StaticSetting (qsid offset sz : Z) (notify : qs_notify)
| MagicSetting (qsid : Z).

Definition proto_qsid (p : qs_proto) : Z :=
  match p with StaticSetting q _ _ _ => q | MagicSetting q => q end.
Definition proto_notify (p : qs_proto) : qs_notify :=
  match p with StaticSetting _ _ _ n => n | MagicSetting _ => notify_none end.

(** The field offsets of [qmk_settings_t]. *)
Definition QS_auto_shift_timeout : Z := 0.
Definition QS_osk_timeout : Z := 2.
Definition QS_mousekey_delay : Z := 4.
Definition QS_mousekey_interval : Z := 6.
Definition QS_mousekey_move_delta : Z := 8.
Definition QS_mousekey_max_speed : Z := 10.
Definition QS_mousekey_time_to_max : Z := 12.
Definition QS_mousekey_wheel_delay : Z := 14.
Definition QS_mousekey_wheel_interval : Z := 16.
Definition QS_mousekey_wheel_max_speed : Z := 18.
Definition QS_mousekey_wheel_time_to_max : Z := 20.
Definition QS_combo_term : Z := 22.
Definition QS_tapping_term : Z := 24.
Definition QS_grave_esc_override : Z := 26.
Definition QS_auto_shift : Z := 27.
Definition QS_osk_tap_toggle : Z := 28.
Definition QS_tapping : Z := 29.
Definition QS_tap_code_delay : Z := 30.
Definition QS_tap_hold_caps_delay : Z := 32.
Definition QS_tapping_toggle : Z := 34.
Definition sizeof_qmk_settings_t : Z := 36.

Definition protos : list qs_proto := [
  StaticSetting 1 QS_grave_esc_override 1 notify_none;
  StaticSetting 2 QS_combo_term 2 notify_none;
  StaticSetting 3 QS_auto_shift 1 notify_none;
  StaticSetting 4 QS_auto_shift_timeout 2 auto_shift_timeout_apply;
  StaticSetting 5 QS_osk_tap_toggle 1 notify_none;
  StaticSetting 6 QS_osk_timeout 2 notify_none;
  StaticSetting 7 QS_tapping_term 2 notify_none;
  StaticSetting 8 QS_tapping 1 notify_none;
  StaticSetting 9 QS_mousekey_delay 2 mousekey_apply;
  StaticSetting 10 QS_mousekey_interval 2 mousekey_apply;
  StaticSetting 11 QS_mousekey_move_delta 2 mousekey_apply;
  StaticSetting 12 QS_mousekey_max_speed 2 mousekey_apply;
  StaticSetting 13 QS_mousekey_time_to_max 2 mousekey_apply;
  StaticSetting 14 QS_mousekey_wheel_delay 2 mousekey_apply;
  StaticSetting 15 QS_mousekey_wheel_interval 2 mousekey_apply;
  StaticSetting 16 QS_mousekey_wheel_max_speed 2 mousekey_apply;
  StaticSetting 17 QS_mousekey_wheel_time_to_max 2 mousekey_apply;
  StaticSetting 18 QS_tap_code_delay 2 notify_none;
  StaticSetting 19 QS_tap_hold_caps_delay 2 notify_none;
  StaticSetting 20 QS_tapping_toggle 1 notify_none;
  MagicSetting 21
].

(** The defaults, macros of the keyboard's configuration. *)
Class QmkSettingsConfig := {
  AUTO_SHIFT_TIMEOUT : Z;
  ONESHOT_TAP_TOGGLE : Z;
  ONESHOT_TIMEOUT : Z;
  MOUSEKEY_DELAY : Z;
  MOUSEKEY_INTERVAL : Z;
  MOUSEKEY_MOVE_DELTA : Z;
  MOUSEKEY_MAX_SPEED : Z;
  MOUSEKEY_TIME_TO_MAX : Z;
  MOUSEKEY_WHEEL_DELAY : Z;
  MOUSEKEY_WHEEL_INTERVAL : Z;
  MOUSEKEY_WHEEL_MAX_SPEED : Z;
  MOUSEKEY_WHEEL_TIME_TO_MAX : Z;
  COMBO_TERM : Z;
  TAP_CODE_DELAY : Z;
  TAP_HOLD_CAPS_DELAY : Z;
  TAPPING_TOGGLE : Z;
}.

(** The variables of [mousekey.c] that the settings feed, all [uint8_t]. *)
Record mousekey_vars := mk_mousekey {
  mk_delay : Z; mk_interval : Z; mk_max_speed : Z; mk_time_to_max : Z;
  mk_wheel_delay : Z; mk_wheel_interval : Z; mk_wheel_max_speed : Z; mk_wheel_time_to_max : Z;
}.

(** What the settings code reads and writes. [cleared] counts the calls of
    [clear_keyboard], which releases every key. *)
Record qs_state (E : Type) := mk_qs {
  qs_eeprom : E;
  QS : list Z;
  keymap_config : Z;
  autoshift_timeout : Z;
  mousekey : mousekey_vars;
  cleared : Z;
}.
Arguments mk_qs {E} _ _ _ _ _ _.
Arguments qs_eeprom {E} _.
Arguments QS {E} _.
Arguments keymap_config {E} _.
Arguments autoshift_timeout {E} _.
Arguments mousekey {E} _.
Arguments cleared {E} _.

Section operations.
Context {E : Type} {eeprom : Eeprom E} {cfg : KeymapConfig} {qcfg : QmkSettingsConfig}.
Implicit Types (s : qs_state E).

Definition set_qs_eeprom (e : E) s : qs_state E :=
  mk_qs e (QS s) (keymap_config s) (autoshift_timeout s) (mousekey s) (cleared s).
Definition set_QS (q : list Z) s : qs_state E :=
  mk_qs (qs_eeprom s) q (keymap_config s) (autoshift_timeout s) (mousekey s) (cleared s).
Definition set_keymap_config (raw : Z) s : qs_state E :=
  mk_qs (qs_eeprom s) (QS s) raw (autoshift_timeout s) (mousekey s) (cleared s).
Definition clear_keyboard s : qs_state E :=
  mk_qs (qs_eeprom s) (QS s) (keymap_config s) (autoshift_timeout s) (mousekey s) (cleared s + 1).

(** Fields of [QS]. *)
Definition QS8 s (field : Z) : Z := nthZ (QS s) field.
Definition QS16 s (field : Z) : Z := le_val (slice (QS s) field 2).

Definition run_notify (n : qs_notify) s : qs_state E :=
  match n with
  | notify_none => s
  | auto_shift_timeout_apply =>
      mk_qs (qs_eeprom s) (QS s) (keymap_config s) (QS16 s QS_auto_shift_timeout) (mousekey s) (cleared s)
  | mousekey_apply =>
      mk_qs (qs_eeprom s) (QS s) (keymap_config s) (autoshift_timeout s)
        (mk_mousekey (u8 (QS16 s QS_mousekey_delay / 10)) (u8 (QS16 s QS_mousekey_interval))
           (u8 (QS16 s QS_mousekey_max_speed)) (u8 (QS16 s QS_mousekey_time_to_max))
           (u8 (QS16 s QS_mousekey_wheel_delay / 10)) (u8 (QS16 s QS_mousekey_wheel_interval))
           (u8 (QS16 s QS_mousekey_wheel_max_speed)) (u8 (QS16 s QS_mousekey_wheel_time_to_max)))
        (cleared s)
  end.

Definition eeprom_settings_load s : qs_state E :=
  set_QS (for_Z 0 sizeof_qmk_settings_t (fun i q =>
            updZ q i (dynamic_keymap_get_qmk_settings (qs_eeprom s) i)) (QS s)) s.

Definition eeprom_settings_save s : qs_state E :=
  set_qs_eeprom (for_Z 0 sizeof_qmk_settings_t (fun i e =>
    let old_byte := dynamic_keymap_get_qmk_settings e i in
    let new_byte := nthZ (QS s) i in
    if negb (old_byte =? new_byte) then dynamic_keymap_set_qmk_settings i new_byte e else e)
    (qs_eeprom s)) s.

(** The getters return the status and fill [setting], of size [maxsz]. *)
Definition eeprom_settings_get s (offset sz : Z) (setting : list Z) : Z * list Z :=
  if lenZ setting <? sz then (-1, setting)
  else (0, blit setting 0 (slice (QS s) offset sz)).

Definition eeprom_settings_set (offset sz : Z) (setting : list Z) s : Z * qs_state E :=
  if lenZ setting <? sz then (-1, s)
  else (0, eeprom_settings_save (set_QS (blit (QS s) offset (slice setting 0 sz)) s)).

(** A bit of [keymap_config], whose low ten bits are the options. *)
Definition config_bit s (i : Z) : Z := b2z (Z.testbit (keymap_config s) i).

Definition magic_settings_get s (setting : list Z) : Z * list Z :=
  if lenZ setting <? 4 then (-1, setting)
  else
    let flags := config_bit s 0 << 0 .| config_bit s 1 << 1 .| config_bit s 2 << 2
                 .| config_bit s 3 << 3 .| config_bit s 4 << 4 .| config_bit s 5 << 5
                 .| config_bit s 6 << 6 .| config_bit s 7 << 7 .| config_bit s 8 << 8
                 .| config_bit s 9 << 9 in
    (0, blit setting 0 (le_bytes 4 flags)).

(** [keymap_config.<option> = !!(flags & (1 << i))] for option bit [i]. *)
Definition set_option (flags i raw : Z) : Z :=
  if truthy (flags .& (1 << i)) then Z.setbit raw i else Z.clearbit raw i.

Definition magic_settings_set (setting : list Z) s : Z * qs_state E :=
  if lenZ setting <? 4 then (-1, s)
  else
    let flags := le_val (slice setting 0 4) in
    let s := clear_keyboard s in
    let s := set_keymap_config
      (set_option flags 9 (set_option flags 8 (set_option flags 7 (set_option flags 6
        (set_option flags 5 (set_option flags 4 (set_option flags 3 (set_option flags 2
          (set_option flags 1 (set_option flags 0 (keymap_config s))))))))))) s in
    (0, set_qs_eeprom (eeconfig_update_keymap (keymap_config s) (qs_eeprom s)) s).

Definition qmk_settings_init s : qs_state E :=
  foldl (fun s p => run_notify (proto_notify p) s) (eeprom_settings_load s) protos.

Definition put8 (field v : Z) (q : list Z) : list Z := blit q field (le_bytes 1 v).
Definition put16 (field v : Z) (q : list Z) : list Z := blit q field (le_bytes 2 v).

Definition default_settings (q : list Z) : list Z :=
  let q := put8 QS_grave_esc_override 0 q in
  let q := put8 QS_auto_shift 0 q in
  let q := put16 QS_auto_shift_timeout AUTO_SHIFT_TIMEOUT q in
  let q := put8 QS_osk_tap_toggle ONESHOT_TAP_TOGGLE q in
  let q := put16 QS_osk_timeout ONESHOT_TIMEOUT q in
  let q := put16 QS_mousekey_delay MOUSEKEY_DELAY q in
  let q := put16 QS_mousekey_interval MOUSEKEY_INTERVAL q in
  let q := put16 QS_mousekey_move_delta MOUSEKEY_MOVE_DELTA q in
  let q := put16 QS_mousekey_max_speed MOUSEKEY_MAX_SPEED q in
  let q := put16 QS_mousekey_time_to_max MOUSEKEY_TIME_TO_MAX q in
  let q := put16 QS_mousekey_wheel_delay MOUSEKEY_WHEEL_DELAY q in
  let q := put16 QS_mousekey_wheel_interval MOUSEKEY_WHEEL_INTERVAL q in
  let q := put16 QS_mousekey_wheel_max_speed MOUSEKEY_WHEEL_MAX_SPEED q in
  let q := put16 QS_mousekey_wheel_time_to_max MOUSEKEY_WHEEL_TIME_TO_MAX q in
  let q := put16 QS_combo_term COMBO_TERM q in
  let q := put16 QS_tapping_term TAPPING_TERM q in
  let q := put8 QS_tapping 0 q in
  let q := put16 QS_tap_code_delay TAP_CODE_DELAY q in
  let q := put16 QS_tap_hold_caps_delay TAP_HOLD_CAPS_DELAY q in
  put8 QS_tapping_toggle TAPPING_TOGGLE q.

Definition qmk_settings_reset s : qs_state E :=
  let s := eeprom_settings_save (set_QS (default_settings (QS s)) s) in
  let s := clear_keyboard s in
  (* [raw = 0; oneshot_enable = 1] *)
  let s := set_keymap_config (Z.setbit 0 10) s in
  let s := set_qs_eeprom (eeconfig_update_keymap (keymap_config s) (qs_eeprom s)) s in
  qmk_settings_init s.

(** The identifiers above [qsid_gt], as many as fit, after a fill with FF. *)
Definition qmk_settings_query (qsid_gt : Z) (buffer : list Z) : list Z :=
  let sz := lenZ buffer in
  (foldl (fun '(buffer, buffer_offset) p =>
     if sz <? buffer_offset + 2 then (buffer, buffer_offset)
     else if qsid_gt <? proto_qsid p
     then (blit buffer buffer_offset (le_bytes 2 (proto_qsid p)), buffer_offset + 2)
     else (buffer, buffer_offset))
    (memset 0xFF sz, 0) protos).1.

Fixpoint find_proto (ps : list qs_proto) (qsid : Z) : option qs_proto :=
  match ps with
  | [] => None
  | p :: ps => if proto_qsid p =? qsid then Some p else find_proto ps qsid
  end.
Definition find_setting (qsid : Z) : option qs_proto := find_proto protos qsid.

Definition qmk_settings_get s (qsid : Z) (setting : list Z) : Z * list Z :=
  match find_setting qsid with
  | None => (-1, setting)
  | Some (StaticSetting _ offset sz _) => eeprom_settings_get s offset sz setting
  | Some (MagicSetting _) => magic_settings_get s setting
  end.

Definition qmk_settings_set (qsid : Z) (setting : list Z) s : Z * qs_state E :=
  match find_setting qsid with
  | None => (-1, s)
  | Some p =>
      let '(ret, s) :=
        match p with
        | StaticSetting _ offset sz _ => eeprom_settings_set offset sz setting s
        | MagicSetting _ => magic_settings_set setting s
        end in
      if negb (ret =? 0) then (ret, s) else (0, run_notify (proto_notify p) s)
  end.

(** ** Accessors for the key processing *)

Definition qs_get_tapping_term s : Z := QS16 s QS_tapping_term.
Definition get_permissive_hold s : bool := truthy (QS8 s QS_tapping .& 1).
Definition get_hold_on_other_key_press s : bool := negb (truthy (QS8 s QS_tapping .& 2)).
Definition get_quick_tap_term s : Z :=
  if truthy (QS8 s QS_tapping .& 4) then 0 else QS16 s QS_tapping_term.
Definition get_retro_tapping s : bool := truthy (QS8 s QS_tapping .& 8).
Definition get_combo_term s : Z := QS16 s QS_combo_term.
Definition get_auto_shift_repeat s : bool := truthy (QS8 s QS_auto_shift .& 32).
Definition get_auto_shift_no_auto_repeat s : bool := truthy (QS8 s QS_auto_shift .& 64).
End operations.

(** [AUTO_SHIFT_ALPHA], [AUTO_SHIFT_NUMERIC] and [AUTO_SHIFT_SPECIAL] of
    [process_auto_shift.h], as ranges of keycodes. *)
Definition auto_shift_alpha (kc : Z) : bool := (0x04 <=? kc) && (kc <=? 0x1D).
Definition auto_shift_numeric (kc : Z) : bool := (0x1E <=? kc) && (kc <=? 0x27).
Definition auto_shift_special (kc : Z) : bool :=
  (kc =? 0x2B) || ((0x2D <=? kc) && (kc <=? 0x38)) || (kc =? 0x64).

Definition get_auto_shifted_key {E : Type} (s : qs_state E) (keycode : Z) : bool :=
  if auto_shift_alpha keycode then negb (truthy (QS8 s QS_auto_shift .& 16))
  else if auto_shift_numeric keycode then negb (truthy (QS8 s QS_auto_shift .& 8))
  else if auto_shift_special keycode then negb (truthy (QS8 s QS_auto_shift .& 4))
  else false.
