(* ===== verification/QmkSettingsProofs.v ===== *)
(** What the runtime settings promise: a query lists the identifiers, a set is
    seen by the matching get and by no other, and survives a restart. *)

From S2P Require Import Prelude.
From S2P Require Import Eeprom.
From S2P Require Import DynamicKeymap.
From S2P Require Import Eeconfig.
From S2P Require Import KeymapSlots.
From S2P Require Import KeymapBuffer.
From S2P Require Import QmkSettings.

(** ** Query *)

Section query.
(** The identifiers a query above [gt] can report, in table order. *)
Definition qsids_above (gt : Z) (ps : list qs_proto) : list Z :=
  filter (fun q => gt < q) (map proto_qsid ps).

Definition encode_qsids (qs : list Z) : list Z := concat (map (le_bytes 2) qs).

Lemma lenZ_encode_qsids qs : lenZ (encode_qsids qs) = 2 * lenZ qs.
Proof.
  induction qs as [|q qs IH]; [done|]. unfold encode_qsids in *. cbn [map concat].
  rewrite lenZ_app, lenZ_cons, IH. change (lenZ (le_bytes 2 q)) with 2. lia.
Qed.

Lemma query_fold gt sz ps : forall pre, lenZ pre <= sz ->
  (foldl (fun '(buffer, buffer_offset) p =>
     if sz <? buffer_offset + 2 then (buffer, buffer_offset)
     else if gt <? proto_qsid p
     then (blit buffer buffer_offset (le_bytes 2 (proto_qsid p)), buffer_offset + 2)
     else (buffer, buffer_offset))
    (pre ++ memset 0xFF (sz - lenZ pre), lenZ pre) ps).1
  = let found := take (Z.to_nat ((sz - lenZ pre) / 2)) (qsids_above gt ps) in
    pre ++ encode_qsids found ++ memset 0xFF (sz - lenZ pre - 2 * lenZ found).
Proof.
  unfold qsids_above. induction ps as [|p ps IH]; intros pre Hle; cbn [foldl map].
  { rewrite filter_nil, take_nil. cbn. by rewrite Z.sub_0_r. }
  pose proof (lenZ_nonneg pre). destruct (sz <? lenZ pre + 2) eqn:E; b2p.
  { rewrite IH by done. replace ((sz - lenZ pre) / 2) with 0 by dlia. by rewrite !take_0. }
  destruct (gt <? proto_qsid p) eqn:Eg; b2p.
  - rewrite filter_cons_True by done.
    assert (Hp : lenZ (le_bytes 2 (proto_qsid p)) = 2) by done.
    replace (blit _ _ _) with ((pre ++ le_bytes 2 (proto_qsid p))
      ++ memset 0xFF (sz - lenZ (pre ++ le_bytes 2 (proto_qsid p)))).
    + replace (lenZ pre + 2) with (lenZ (pre ++ le_bytes 2 (proto_qsid p))) by (rewrite lenZ_app; lia).
      rewrite IH by (rewrite lenZ_app; lia). cbv zeta. rewrite lenZ_app, Hp.
      replace (Z.to_nat ((sz - lenZ pre) / 2)) with (S (Z.to_nat ((sz - (lenZ pre + 2)) / 2))) by dlia.
      cbn [take]. rewrite lenZ_cons. unfold encode_qsids. cbn [map concat].
      rewrite <- !app_assoc. do 3 f_equal. f_equal. lia.
    + assert (lenZ (memset 255 (sz - lenZ pre)) = sz - lenZ pre) by (apply lenZ_replicate; lia).
      assert (lenZ (memset 255 (sz - (lenZ pre + 2))) = sz - (lenZ pre + 2)) by (apply lenZ_replicate; lia).
      symmetry. rewrite lenZ_app, Hp. apply listZ_ext.
      { rewrite lenZ_blit; rewrite ?lenZ_app; lia. }
      rewrite lenZ_blit by (rewrite ?lenZ_app; lia). rewrite !lenZ_app. intros i Hi.
      rewrite nthZ_blit by (rewrite ?lenZ_app; lia). rewrite !nthZ_app by lia.
      rewrite lenZ_app, Hp. repeat case_if; try lia; try done.
      rewrite !nthZ_memset by lia. done.
  - rewrite filter_cons_False by lia. by apply IH.
Qed.
End query.

(** ** Save and load *)

Section settings.
Context {E : Type} {eeprom : Eeprom E} {cfg : KeymapConfig} {cfg_ok : KeymapConfigOk}
        {qcfg : QmkSettingsConfig} {laws : EepromLaws E}
        (size_ok : DYNAMIC_KEYMAP_EEPROM_MAX_ADDR < ee_size).
Implicit Types (s : qs_state E) (e : E).

Record qs_wf s : Prop := mk_qs_wf {
  qs_wf_eeprom : ee_wf (qs_eeprom s);
  qs_wf_len : lenZ (QS s) = sizeof_qmk_settings_t;
  qs_wf_bytes : bytes (QS s);
}.

(** Other cells are those that are not a settings byte. *)
Definition is_setting (c : slot) : bool := match c with SlotSetting _ => true | _ => false end.

Lemma save_spec s : qs_wf s ->
  ee_wf (qs_eeprom (eeprom_settings_save s))
  /\ (forall i, 0 <= i < sizeof_qmk_settings_t ->
        dynamic_keymap_get_qmk_settings (qs_eeprom (eeprom_settings_save s)) i = nthZ (QS s) i)
  /\ forall c, slot_valid c -> is_setting c = false ->
       get_slot (qs_eeprom (eeprom_settings_save s)) c = get_slot (qs_eeprom s) c.
Proof using cfg_ok size_ok.
  intros [Hw Hl Hb]. unfold eeprom_settings_save. cbn [qs_eeprom set_qs_eeprom].
  apply (for_Z_inv _ (fun n e => ee_wf e
    /\ (forall i, 0 <= i < n -> dynamic_keymap_get_qmk_settings e i = nthZ (QS s) i)
    /\ forall c, slot_valid c -> is_setting c = false -> get_slot e c = get_slot (qs_eeprom s) c));
    [done|split; [done|split; [lia|done]]|].
  intros n e Hn (Hwe & Hget & Hframe). cbv zeta.
  assert (Hv : slot_valid (SlotSetting n)) by (unfold slot_valid, VIAL_QMK_SETTINGS_SIZE, sizeof_qmk_settings_t in *; lia).
  assert (Hset : forall c, slot_valid c ->
    get_slot (dynamic_keymap_set_qmk_settings n (nthZ (QS s) n) e) c
    = if decide (SlotSetting n = c) then [nthZ (QS s) n] else get_slot e c).
  { intros c Hc. apply (set_slot_frame size_ok e (SlotSetting n) c [nthZ (QS s) n]); [done|done| |done].
    exists (nthZ (QS s) n). split; [done|]. by apply bytes_nthZ. }
  assert (Hold : dynamic_keymap_get_qmk_settings e n = nthZ (QS s) n ->
    ee_wf e /\ (forall i, 0 <= i < n + 1 -> dynamic_keymap_get_qmk_settings e i = nthZ (QS s) i)
    /\ forall c, slot_valid c -> is_setting c = false -> get_slot e c = get_slot (qs_eeprom s) c).
  { intros Heq. split; [done|]. split; [|done]. intros i Hi.
    destruct (decide (i = n)) as [->|]; [done|]. apply Hget. lia. }
  case_if; [|by apply Hold]. split; [|split].
  - apply (set_slot_spec size_ok e (SlotSetting n) [nthZ (QS s) n]); [done|done|].
    exists (nthZ (QS s) n). split; [done|]. by apply bytes_nthZ.
  - intros i Hi.
    assert (Hvi : slot_valid (SlotSetting i)) by (unfold slot_valid, VIAL_QMK_SETTINGS_SIZE, sizeof_qmk_settings_t in *; lia).
    pose proof (Hset _ Hvi) as Hs. cbn [get_slot] in Hs. case_decide; injection Hs as ->; [by simplify_eq|].
    apply Hget. destruct (decide (i = n)) as [->|]; [done|lia].
  - intros c Hc Hns. rewrite Hset by done. rewrite decide_False by (intros <-; done). auto.
Qed.

Lemma load_spec s : lenZ (QS s) = sizeof_qmk_settings_t ->
  lenZ (QS (eeprom_settings_load s)) = sizeof_qmk_settings_t
  /\ forall i, 0 <= i < sizeof_qmk_settings_t ->
       nthZ (QS (eeprom_settings_load s)) i = dynamic_keymap_get_qmk_settings (qs_eeprom s) i.
Proof.
  intros Hl. unfold eeprom_settings_load. cbn [QS set_QS].
  destruct (for_Z_fill_0 (dynamic_keymap_get_qmk_settings (qs_eeprom s)) sizeof_qmk_settings_t (QS s))
    as [Hlen Hnth]; [done|lia|].
  split; [by rewrite Hlen|]. intros i Hi. rewrite Hnth.
  case_if; [done|lia].
Qed.

(** A restart: [QS] is loaded over whatever it was. *)
Lemma load_after_save s s' : qs_wf s -> lenZ (QS s') = sizeof_qmk_settings_t ->
  qs_eeprom s' = qs_eeprom (eeprom_settings_save s) -> QS (eeprom_settings_load s') = QS s.
Proof using cfg_ok size_ok.
  intros Hs Hl' He. destruct (load_spec s' Hl') as [Hl Hn]. destruct (save_spec s Hs) as (_ & Hget & _).
  apply listZ_ext; [by rewrite Hl, (qs_wf_len _ Hs)|]. rewrite Hl. intros i Hi.
  rewrite Hn, He by done. by apply Hget.
Qed.

Lemma run_notify_QS n s : QS (run_notify n s) = QS s /\ qs_eeprom (run_notify n s) = qs_eeprom s
  /\ keymap_config (run_notify n s) = keymap_config s.
Proof. by destruct n. Qed.

Lemma init_QS s : QS (qmk_settings_init s) = QS (eeprom_settings_load s).
Proof.
  unfold qmk_settings_init. generalize (eeprom_settings_load s) as s0. induction protos as [|p ps IH]; [done|].
  intros s0. cbn [foldl]. rewrite IH. apply run_notify_QS.
Qed.

(** ** The table *)

Definition static_field (p : qs_proto) : option (Z * Z) :=
  match p with StaticSetting _ o n _ => Some (o, n) | MagicSetting _ => None end.

Lemma find_proto_In ps q p : find_proto ps q = Some p -> In p ps /\ proto_qsid p = q.
Proof.
  induction ps as [|x ps IH]; [done|]. cbn. case_if; [intros [= ->]; auto|]. intros H. destruct (IH H). auto.
Qed.

(** Fields lie in the structure, and those of different settings are disjoint. *)
Definition fields_ok (p p' : qs_proto) : bool :=
  match static_field p, static_field p' with
  | Some (o, n), Some (o', n') =>
      (0 <=? o) && (0 <? n) && (o + n <=? sizeof_qmk_settings_t)
      && ((proto_qsid p =? proto_qsid p') || (o + n <=? o') || (o' + n' <=? o))
  | _, _ => true
  end.

Lemma table_ok : forallb (fun p => forallb (fields_ok p) protos) protos = true.
Proof. vm_compute. done. Qed.

Lemma find_fields q q' p p' : find_setting q = Some p -> find_setting q' = Some p' -> fields_ok p p' = true.
Proof.
  intros [Hp _]%find_proto_In [Hp' _]%find_proto_In. pose proof table_ok as Ht.
  rewrite forallb_forall in Ht. specialize (Ht p Hp). rewrite forallb_forall in Ht. by apply Ht.
Qed.
End settings.

(** ** Options of the keymap *)

Section options.
Lemma bit_at b i j : 0 <= i -> 0 <= j -> Z.testbit (b2z b << i) j = b && (j =? i).
Proof.
  intros Hi Hj. rewrite Z.shiftl_spec by done. destruct (j =? i) eqn:E; b2p.
  - subst. rewrite Z.sub_diag. by destruct b.
  - destruct b; [|by rewrite Z.bits_0]. cbn [b2z]. destruct (Z.lt_ge_cases j i).
    + by rewrite Z.testbit_neg_r by lia.
    + rewrite (testbit_small 1 1) by lia. done.
Qed.

Lemma set_option_bit flags i raw j : 0 <= i -> 0 <= j ->
  Z.testbit (set_option flags i raw) j = if j =? i then Z.testbit flags i else Z.testbit raw j.
Proof.
  intros Hi Hj. unfold set_option, truthy.
  assert (Hf : (flags .& (1 << i) =? 0) = negb (Z.testbit flags i)).
  { destruct (Z.testbit flags i) eqn:Et; cbn [negb].
    - apply Z.eqb_neq. intros H0. assert (Hb : Z.testbit (flags .& (1 << i)) i = true).
      { rewrite Z.land_spec, Et. change 1 with (b2z true). rewrite bit_at by done. by rewrite Z.eqb_refl. }
      rewrite H0, Z.bits_0 in Hb. done.
    - apply Z.eqb_eq. apply Z.bits_inj'. intros k Hk. rewrite Z.land_spec, Z.bits_0.
      change 1 with (b2z true). rewrite bit_at by done. destruct (k =? i) eqn:Ek; b2p; [|apply andb_false_r].
      subst. by rewrite Et. }
  rewrite Hf, negb_involutive. destruct (j =? i) eqn:E; b2p; destruct (Z.testbit flags i); subst.
  - by rewrite Z.setbit_eq.
  - by rewrite Z.clearbit_eq.
  - by rewrite Z.setbit_neq by lia.
  - by rewrite Z.clearbit_neq by lia.
Qed.

Lemma set_option_range flags i raw : 0 <= i < 16 -> 0 <= raw < 65536 -> 0 <= set_option flags i raw < 65536.
Proof.
  intros Hi Hr. assert (H0 : 0 <= set_option flags i raw).
  { unfold set_option. case_if; [apply Z.lor_nonneg; split; [lia|]|apply Z.ldiff_nonneg; lia].
    by apply Z.shiftl_nonneg. }
  split; [done|]. apply (bounded_of_bits 16); [done|done|]. intros j Hj.
  rewrite set_option_bit by lia. case_if; [lia|]. by apply (testbit_small raw 16).
Qed.

(** The ten option bits assembled by the getter. *)
Lemma flags_bits {E} (s : qs_state E) j : 0 <= j ->
  Z.testbit (config_bit s 0 << 0 .| config_bit s 1 << 1 .| config_bit s 2 << 2
    .| config_bit s 3 << 3 .| config_bit s 4 << 4 .| config_bit s 5 << 5
    .| config_bit s 6 << 6 .| config_bit s 7 << 7 .| config_bit s 8 << 8
    .| config_bit s 9 << 9) j = (j <? 10) && Z.testbit (keymap_config s) j.
Proof.
  intros Hj. unfold config_bit. rewrite !Z.lor_spec, !bit_at by done.
  destruct (decide (j < 10)) as [Hlt|Hge].
  - rewrite (proj2 (Z.ltb_lt j 10)) by done.
    assert (Hc : j = 0 \/ j = 1 \/ j = 2 \/ j = 3 \/ j = 4 \/ j = 5 \/ j = 6 \/ j = 7 \/ j = 8 \/ j = 9) by lia.
    repeat (destruct Hc as [->|Hc]; [cbn; by rewrite ?andb_false_r, ?andb_true_r, ?orb_false_r|]).
    subst. cbn. by rewrite ?andb_false_r, ?andb_true_r, ?orb_false_r.
  - rewrite (proj2 (Z.ltb_ge j 10)) by lia.
    rewrite !(proj2 (Z.eqb_neq j _)) by lia. by rewrite !andb_false_r.
Qed.
End options.

(** ** Properties *)

(** A query fills the buffer with the identifiers above the given one, in
    table order and little endian, as many as fit, and pads it with FF, so that
    a host that continues from the last identifier sees every setting. *)
Theorem settings_query_lists (qsid_gt : Z) (buffer : list Z) :
  let found := take (Z.to_nat (lenZ buffer / 2)) (qsids_above qsid_gt protos) in
  qmk_settings_query qsid_gt buffer
  = encode_qsids found ++ memset 0xFF (lenZ buffer - 2 * lenZ found).
Proof.
  intros found. unfold qmk_settings_query. pose proof (lenZ_nonneg buffer).
  pose proof (query_fold qsid_gt (lenZ buffer) protos [] ltac:(done)) as Hq.
  rewrite lenZ_nil, Z.sub_0_r in Hq. exact Hq.
Qed.

Section set_get.
Context {E : Type} {eeprom : Eeprom E} {cfg : KeymapConfig} {cfg_ok : KeymapConfigOk}
        {qcfg : QmkSettingsConfig} {laws : EepromLaws E}
        (size_ok : DYNAMIC_KEYMAP_EEPROM_MAX_ADDR < ee_size).
Implicit Types (s : qs_state E).

(** A get sees [QS] and the keymap options only. *)
Lemma get_ext s s' q buf : QS s' = QS s -> keymap_config s' = keymap_config s ->
  qmk_settings_get s' q buf = qmk_settings_get s q buf.
Proof.
  intros HQ Hk. unfold qmk_settings_get. destruct (find_setting q) as [[]|]; [| |done].
  - unfold eeprom_settings_get. by rewrite HQ.
  - unfold magic_settings_get, config_bit. by rewrite Hk.
Qed.

Lemma set_static_spec s q o n nt v : qs_wf s -> find_setting q = Some (StaticSetting q o n nt) ->
  bytes v -> n <= lenZ v ->
  exists s', qmk_settings_set q v s = (0, s') /\ QS s' = blit (QS s) o (slice v 0 n)
    /\ keymap_config s' = keymap_config s
    /\ qs_eeprom s' = qs_eeprom (eeprom_settings_save (set_QS (blit (QS s) o (slice v 0 n)) s)).
Proof.
  intros [Hw Hl Hb] Hf Hv Hn. unfold qmk_settings_set. rewrite Hf. unfold eeprom_settings_set.
  rewrite (proj2 (Z.ltb_ge _ _)) by lia. cbn [negb Z.eqb proto_notify].
  eexists. split; [reflexivity|].
  destruct (run_notify_QS nt (eeprom_settings_save (set_QS (blit (QS s) o (slice v 0 n)) s)))
    as (-> & -> & ->). split; [reflexivity|]. split; reflexivity.
Qed.

Lemma blit_wf s q o n nt v : qs_wf s -> find_setting q = Some (StaticSetting q o n nt) ->
  bytes v -> n <= lenZ v -> 0 <= o /\ 0 < n /\ o + n <= sizeof_qmk_settings_t
  /\ qs_wf (set_QS (blit (QS s) o (slice v 0 n)) s).
Proof.
  intros [Hw Hl Hb] Hf Hv Hn. pose proof (find_fields q q _ _ Hf Hf) as Hok.
  unfold fields_ok in Hok. cbn [static_field proto_qsid] in Hok. b2p.
  split_and!; [done..|]. split; cbn; [done| |by apply bytes_blit; [|apply bytes_slice]].
  rewrite lenZ_blit; rewrite ?lenZ_slice; lia.
Qed.
End set_get.

(** C18: a setting that is a field of the settings block (all but the keymap
    options), set with enough bytes, is read back by its identifier; every other
    setting and the keymap options read as before; after a restart, which loads
    the block from the EEPROM again, every field reads as after the set; and the
    set changes no other cell of the EEPROM layout. *)
Theorem settings_set_get {E : Type} {eeprom : Eeprom E} {cfg : KeymapConfig} {cfg_ok : KeymapConfigOk}
    {laws : EepromLaws E} (s : qs_state E) (q o n : Z) (nt : qs_notify) (v : list Z) :
  DYNAMIC_KEYMAP_EEPROM_MAX_ADDR < ee_size -> qs_wf s ->
  find_setting q = Some (StaticSetting q o n nt) -> bytes v -> n <= lenZ v ->
  exists s', qmk_settings_set q v s = (0, s')
    /\ (forall buf, n <= lenZ buf -> qmk_settings_get s' q buf = (0, blit buf 0 (slice v 0 n)))
    /\ (forall q' buf, q' <> q -> qmk_settings_get s' q' buf = qmk_settings_get s q' buf)
    /\ (forall s2 q' buf, qs_eeprom s2 = qs_eeprom s' -> lenZ (QS s2) = sizeof_qmk_settings_t ->
          find_setting q' <> Some (MagicSetting q') ->
          qmk_settings_get (qmk_settings_init s2) q' buf = qmk_settings_get s' q' buf)
    /\ (forall c, slot_valid c -> is_setting c = false ->
          get_slot (qs_eeprom s') c = get_slot (qs_eeprom s) c).
Proof.
  intros Hz Hs Hf Hv Hn.
  destruct (blit_wf s q o n nt v Hs Hf Hv Hn) as (Ho & Hn0 & Hon & Hs1).
  destruct (set_static_spec s q o n nt v Hs Hf Hv Hn) as (s' & E1 & HQ & Hk & He).
  assert (Hsl : lenZ (slice v 0 n) = n) by (apply lenZ_slice; lia).
  pose proof (qs_wf_len _ Hs) as Hlen.
  exists s'. split; [done|]. split; [|split; [|split]].
  - intros buf Hbuf. unfold qmk_settings_get. rewrite Hf. unfold eeprom_settings_get.
    rewrite (proj2 (Z.ltb_ge _ _)) by lia. rewrite HQ. do 2 f_equal.
    rewrite <- Hsl at 2. apply slice_blit; lia.
  - intros q' buf Hq. unfold qmk_settings_get. destruct (find_setting q') as [p'|] eqn:Hf'; [|done].
    pose proof (find_fields q q' _ _ Hf Hf') as Hok. apply find_proto_In in Hf'. destruct Hf' as [_ Hp'].
    destruct p' as [q2 o' n' nt'|q2]; cbn [proto_qsid] in Hp'; subst q2.
    + unfold fields_ok in Hok. cbn [static_field proto_qsid] in Hok. b2p.
      unfold eeprom_settings_get. case_if; [done|]. rewrite HQ. do 2 f_equal.
      destruct (Z.lt_ge_cases 0 n'); [|by rewrite !slice_nil by lia].
      apply listZ_ext; rewrite !lenZ_slice by lia; [done|]. intros i Hi. rewrite !nthZ_slice by lia.
      rewrite nthZ_blit by (rewrite ?Hsl; lia). rewrite Hsl. case_if; [lia|done].
    + unfold magic_settings_get, config_bit. by rewrite Hk.
  - intros s2 q' buf He2 Hl2 Hm. unfold qmk_settings_get.
    destruct (find_setting q') as [p'|] eqn:Hf'; [|done].
    destruct p' as [q2 o' n' nt'|q2].
    + unfold eeprom_settings_get. rewrite init_QS.
      rewrite (load_after_save Hz _ s2 Hs1 Hl2) by (by rewrite He2, He). by rewrite HQ.
    + apply find_proto_In in Hf' as Hp. destruct Hp as [_ Hp]. cbn in Hp. by subst q2.
  - intros c Hc Hns. rewrite He. by apply (save_spec Hz _ Hs1).
Qed.

(** The keymap options form a ten-bit register: setting them makes the get
    return their low ten bits, keeps the other bits of the configuration word,
    stores that word, and releases the keyboard once. *)
Theorem magic_settings_register {E : Type} {eeprom : Eeprom E} {cfg : KeymapConfig}
    {cfg_ok : KeymapConfigOk} {laws : EepromLaws E} (s : qs_state E) (v buf : list Z) :
  DYNAMIC_KEYMAP_EEPROM_MAX_ADDR < ee_size -> ee_wf (qs_eeprom s) -> 0 <= keymap_config s < 65536 ->
  bytes v -> 4 <= lenZ v -> 4 <= lenZ buf ->
  exists s', qmk_settings_set 21 v s = (0, s')
    /\ qmk_settings_get s' 21 buf = (0, blit buf 0 (le_bytes 4 (le_val (slice v 0 4) mod 1024)))
    /\ (forall i, 10 <= i -> Z.testbit (keymap_config s') i = Z.testbit (keymap_config s) i)
    /\ eeconfig_read_keymap (qs_eeprom s') = keymap_config s'
    /\ cleared s' = cleared s + 1.
Proof.
  intros Hz Hw Hk Hv Hlv Hlb.
  assert (Hsize : 6 <= ee_size).
  { pose proof (@area_positive cfg cfg_ok). pose proof (macro_area_ok (KeymapConfigOk := cfg_ok)).
    pose proof (@key_area cfg). unfold DYNAMIC_KEYMAP_MACRO_EEPROM_SIZE in *.
    unfold DYNAMIC_KEYMAP_MACRO_EEPROM_ADDR, VIAL_KEY_OVERRIDE_EEPROM_ADDR, VIAL_COMBO_EEPROM_ADDR,
      VIAL_TAP_DANCE_EEPROM_ADDR, VIAL_QMK_SETTINGS_EEPROM_ADDR, VIAL_QMK_SETTINGS_SIZE in *. lia. }
  unfold qmk_settings_set, qmk_settings_get. change (find_setting 21) with (Some (MagicSetting 21)).
  unfold magic_settings_set. rewrite (proj2 (Z.ltb_ge _ _)) by lia. cbn [negb Z.eqb proto_notify].
  set (flags := le_val (slice v 0 4)). cbn [keymap_config clear_keyboard].
  set (raw := set_option flags 9 _).
  assert (Hraw : 0 <= raw < 65536) by (unfold raw; do 10 (apply set_option_range; [lia|]); done).
  assert (Hbit : forall j, 0 <= j -> Z.testbit raw j = if j <? 10 then Z.testbit flags j else Z.testbit (keymap_config s) j).
  { intros j Hj. unfold raw. rewrite !set_option_bit by lia.
    repeat case_if; subst; try done; lia. }
  eexists. split; [done|]. cbn [run_notify keymap_config qs_eeprom set_qs_eeprom set_keymap_config clear_keyboard cleared].
  split; [|split; [|split; [|done]]].
  - unfold magic_settings_get. rewrite (proj2 (Z.ltb_ge _ _)) by lia. do 3 f_equal.
    apply Z.bits_inj'. intros j Hj. rewrite flags_bits by done. cbn [keymap_config].
    change 1024 with (2 ^ 10). rewrite Hbit by done. destruct (Z.lt_ge_cases j 10).
    + rewrite (proj2 (Z.ltb_lt _ _)) by done. by rewrite Z.mod_pow2_bits_low.
    + rewrite (proj2 (Z.ltb_ge _ _)) by done. by rewrite Z.mod_pow2_bits_high.
  - intros i Hi. rewrite Hbit by lia. case_if; [lia|done].
  - unfold eeconfig_read_keymap, eeconfig_update_keymap, EECONFIG_KEYMAP.
    pose proof (eeprom_update_word_spec (qs_eeprom s) 4 raw Hw ltac:(lia) ltac:(lia)) as Hst.
    rewrite eeprom_read_word_spec by (apply Hst || lia).
    assert (Hl2 : lenZ (le_bytes 2 raw) = 2) by done. rewrite <- Hl2.
    rewrite (ee_stored_read (qs_eeprom s) _ 4 (le_bytes 2 raw) Hw) by (done || rewrite ?Hl2; lia).
    by apply le_val_bytes.
Qed.

Section witnesses.
#[local] Existing Instance KeymapExample.config.
#[local] Existing Instance KeymapExample.config_ok.
#[local] Existing Instance KeymapExample.laws.

Definition start : qs_state KeymapExample.store :=
  mk_qs KeymapExample.blank (memset 0 36) 0x0C00 0 (mk_mousekey 0 0 0 0 0 0 0 0) 0.

Lemma start_wf : qs_wf start.
Proof. split; [exact KeymapExample.example_wf|done|by apply bytes_memset]. Qed.

Lemma settings_set_get_witness :
  exists s', qmk_settings_set 7 [0x2C; 0x01; 9] start = (0, s')
    /\ qmk_settings_get s' 7 [0; 0; 0] = (0, [0x2C; 0x01; 0]).
Proof.
  destruct (settings_set_get start 7 QS_tapping_term 2 notify_none [0x2C; 0x01; 9]
              KeymapExample.fits start_wf eq_refl) as (s' & E & Hg & _).
  - repeat constructor; lia.
  - vm_compute. discriminate.
  - exists s'. split; [exact E|]. rewrite Hg by (vm_compute; discriminate). reflexivity.
Defined.

Lemma magic_settings_register_witness :
  exists s', qmk_settings_set 21 [0x81; 0x0E; 0; 0] start = (0, s')
    /\ qmk_settings_get s' 21 [7; 7; 7; 7; 7] = (0, [0x81; 0x02; 0; 0; 7]).
Proof.
  destruct (magic_settings_register start [0x81; 0x0E; 0; 0] [7; 7; 7; 7; 7]
              KeymapExample.fits KeymapExample.example_wf) as (s' & E & Hg & _).
  - cbn. lia.
  - repeat constructor; lia.
  - vm_compute. discriminate.
  - vm_compute. discriminate.
  - exists s'. split; [exact E|]. rewrite Hg. reflexivity.
Defined.
End witnesses.
