(* ===== verification/Vial.v ===== *)
(** The Vial protocol, [quantum/vial.c]: the lock, the commands of the host,
    the tables loaded from the EEPROM, and the tap-dance callbacks. *)

From S2P Require Import Prelude.
From S2P Require Import Eeprom.
From S2P Require Import DynamicKeymap.
From S2P Require Import Eeconfig.
From S2P Require Import QmkSettings.

Definition VIAL_PROTOCOL_VERSION : Z := 6.
Definition VIAL_RAW_EPSIZE : Z := 32.
Definition VIAL_UNLOCK_COUNTER_MAX : Z := 50.

Definition vial_get_keyboard_id : Z := 0x00.
Definition vial_get_size : Z := 0x01.
Definition vial_get_def : Z := 0x02.
Definition vial_get_encoder : Z := 0x03.
Definition vial_set_encoder : Z := 0x04.
Definition vial_get_unlock_status : Z := 0x05.
Definition vial_unlock_start : Z := 0x06.
Definition vial_unlock_poll : Z := 0x07.
Definition vial_lock : Z := 0x08.
Definition vial_qmk_settings_query : Z := 0x09.
Definition vial_qmk_settings_get : Z := 0x0A.
Definition vial_qmk_settings_set : Z := 0x0B.
Definition vial_qmk_settings_reset : Z := 0x0C.
Definition vial_dynamic_entry_op : Z := 0x0D.

Definition dynamic_vial_get_number_of_entries : Z := 0x00.
Definition dynamic_vial_tap_dance_get : Z := 0x01.
Definition dynamic_vial_tap_dance_set : Z := 0x02.
Definition dynamic_vial_combo_get : Z := 0x03.
Definition dynamic_vial_combo_set : Z := 0x04.
Definition dynamic_vial_key_override_get : Z := 0x05.
Definition dynamic_vial_key_override_set : Z := 0x06.

(** What the keyboard's build provides. *)
Class VialConfig := {
  VIAL_UNLOCK_COMBO_ROWS : list Z;
  VIAL_UNLOCK_COMBO_COLS : list Z;
  VIAL_KEYBOARD_UID : list Z;
  keyboard_definition : list Z;
}.

(** What a handler reads of the outside: the clock and the switch matrix. *)
Record env := mk_env {
  timer_read32 : Z;
  matrix_get_row : Z -> Z;
}.
Definition timer_read (v : env) : Z := u16 (timer_read32 v).
Definition timer_elapsed (v : env) (last : Z) : Z := TIMER_DIFF_16 (timer_read v) last.
Definition matrix_is_on (v : env) (row col : Z) : bool := truthy (matrix_get_row v row .& (1 << col)).

(** [key_override_t], less the custom action; [ko_enabled] is whether the
    pointer [enabled] is null, which enables the override. *)
Record key_override := mk_ko {
  ko_trigger : Z; ko_trigger_mods : Z; ko_layers : Z; ko_negative_mod_mask : Z;
  ko_suppressed_mods : Z; ko_replacement : Z; ko_options : Z; ko_enabled : bool;
}.

Record vial_state (E : Type) := mk_vial {
  settings : qs_state E;
  vial_unlocked : Z;
  vial_unlock_in_progress : Z;
  vial_unlock_counter : Z;
  vial_unlock_timer : Z;
  key_combos : list Z;
  key_combos_keys : list (list Z);
  vial_key_overrides : list key_override;
  tap_dance_user_data : list Z;
}.
Arguments mk_vial {E} _ _ _ _ _ _ _ _ _.
Arguments settings {E} _.
Arguments vial_unlocked {E} _.
Arguments vial_unlock_in_progress {E} _.
Arguments vial_unlock_counter {E} _.
Arguments vial_unlock_timer {E} _.
Arguments key_combos {E} _.
Arguments key_combos_keys {E} _.
Arguments vial_key_overrides {E} _.
Arguments tap_dance_user_data {E} _.

Section operations.
Context {E : Type} {eeprom : Eeprom E} {cfg : KeymapConfig} {qcfg : QmkSettingsConfig}
        {vcfg : VialConfig}.
Implicit Types (s : vial_state E) (msg : list Z).

Definition ee s : E := qs_eeprom (settings s).

Definition set_settings (q : qs_state E) s : vial_state E :=
  mk_vial q (vial_unlocked s) (vial_unlock_in_progress s) (vial_unlock_counter s)
    (vial_unlock_timer s) (key_combos s) (key_combos_keys s) (vial_key_overrides s)
    (tap_dance_user_data s).
Definition set_ee (e : E) s : vial_state E := set_settings (set_qs_eeprom e (settings s)) s.
Definition set_lock (unlocked in_progress counter timer : Z) s : vial_state E :=
  mk_vial (settings s) unlocked in_progress counter timer (key_combos s) (key_combos_keys s)
    (vial_key_overrides s) (tap_dance_user_data s).

(** ** Tables *)

(** The callbacks are constant; the user data is the index. *)
Definition reload_tap_dance s : vial_state E :=
  mk_vial (settings s) (vial_unlocked s) (vial_unlock_in_progress s) (vial_unlock_counter s)
    (vial_unlock_timer s) (key_combos s) (key_combos_keys s) (vial_key_overrides s)
    (seqZ 0 VIAL_TAP_DANCE_ENTRIES).

(** Field [i] of an entry of sixteen-bit fields. *)
Definition field16 (entry : list Z) (i : Z) : Z := le_val (slice entry (2 * i) 2).
Definition set_field16 (entry : list Z) (i v : Z) : list Z := blit entry (2 * i) (le_bytes 2 v).

(** The key sequence and the output of combo [i], as the table is filled. *)
Definition load_combo (e : E) (i : Z) : list Z * Z :=
  let '(ret, entry) := dynamic_keymap_get_combo e i (memset 0 entry_size) in
  if ret =? 0
  then ([field16 entry 0; field16 entry 1; field16 entry 2; field16 entry 3; 0], field16 entry 4)
  else (memset 0 5, 0).

Definition reload_combo s : vial_state E :=
  let loaded := map (load_combo (ee s)) (seqZ 0 VIAL_COMBO_ENTRIES) in
  mk_vial (settings s) (vial_unlocked s) (vial_unlock_in_progress s) (vial_unlock_counter s)
    (vial_unlock_timer s) (map snd loaded) (map fst loaded) (vial_key_overrides s)
    (tap_dance_user_data s).

Definition vial_ko_option_activation_trigger_down : Z := 1.
Definition vial_ko_option_activation_required_mod_down : Z := 2.
Definition vial_ko_option_activation_negative_mod_up : Z := 4.
Definition vial_ko_option_one_mod : Z := 8.
Definition vial_ko_option_no_reregister_trigger : Z := 16.
Definition vial_ko_option_no_unregister_on_other_key_down : Z := 32.
Definition vial_ko_enabled : Z := 128.

(** [if (opt & flag) out->options |= bit]; the two enumerations agree. *)
Definition ko_flag (opt flag options : Z) : Z := if truthy (opt .& flag) then options .| flag else options.

Definition vial_get_key_override (e : E) (index : Z) (out : key_override) : Z * key_override :=
  let '(ret, entry) := dynamic_keymap_get_key_override e index (memset 0 entry_size) in
  if negb (ret =? 0) then (ret, out)
  else
    let opt := nthZ entry 9 in
    let options :=
      ko_flag opt vial_ko_option_no_unregister_on_other_key_down
        (ko_flag opt vial_ko_option_no_reregister_trigger
          (ko_flag opt vial_ko_option_one_mod
            (ko_flag opt vial_ko_option_activation_negative_mod_up
              (ko_flag opt vial_ko_option_activation_required_mod_down
                (ko_flag opt vial_ko_option_activation_trigger_down 0))))) in
    (0, mk_ko (field16 entry 0) (nthZ entry 6) (field16 entry 2) (nthZ entry 7) (nthZ entry 8)
          (field16 entry 1) options (truthy (opt .& vial_ko_enabled))).

Definition ko_zero : key_override := mk_ko 0 0 0 0 0 0 0 true.

Definition reload_key_override s : vial_state E :=
  let load i := (vial_get_key_override (ee s) i
                   (default ko_zero (vial_key_overrides s !! Z.to_nat i))).2 in
  mk_vial (settings s) (vial_unlocked s) (vial_unlock_in_progress s) (vial_unlock_counter s)
    (vial_unlock_timer s) (key_combos s) (key_combos_keys s)
    (map load (seqZ 0 VIAL_KEY_OVERRIDE_ENTRIES)) (tap_dance_user_data s).

Definition vial_init s : vial_state E := reload_key_override (reload_combo (reload_tap_dance s)).

Definition key_override_count : Z := u16 VIAL_KEY_OVERRIDE_ENTRIES.
Definition key_override_get s (idx : Z) : option key_override :=
  if VIAL_KEY_OVERRIDE_ENTRIES <=? idx then None else vial_key_overrides s !! Z.to_nat idx.
Definition tap_dance_count : Z := u16 VIAL_TAP_DANCE_ENTRIES.
Definition tap_dance_get s (idx : Z) : option Z :=
  if VIAL_TAP_DANCE_ENTRIES <=? idx then None else tap_dance_user_data s !! Z.to_nat idx.

Definition QK_TAP_DANCE : Z := 0x5700.
Definition QK_TAP_DANCE_MAX : Z := 0x57FF.

Definition get_tapping_term s (keycode : Z) : Z :=
  if (QK_TAP_DANCE <=? keycode) && (keycode <=? QK_TAP_DANCE_MAX) then
    let '(ret, td) := dynamic_keymap_get_tap_dance (ee s) (u8 (keycode .& 0xFF)) (memset 0 entry_size) in
    if ret =? 0 then field16 td 4 else qs_get_tapping_term (settings s)
  else qs_get_tapping_term (settings s).

(** ** Commands *)

Definition vial_keycode_firewall (unlocked kc : Z) : Z :=
  if (kc =? QK_BOOT) && negb (truthy unlocked) then 0 else kc.

Definition firewall_field (unlocked i : Z) (entry : list Z) : list Z :=
  set_field16 entry i (vial_keycode_firewall unlocked (field16 entry i)).

(** All unlock keys are held. *)
Definition unlock_holding (v : env) : bool :=
  forallb (fun '(r, c) => matrix_is_on v r c) (zip VIAL_UNLOCK_COMBO_ROWS VIAL_UNLOCK_COMBO_COLS).

Definition vial_poll (v : env) s : vial_state E :=
  if truthy (vial_unlock_in_progress s) then
    if (100 <? timer_elapsed v (vial_unlock_timer s)) && unlock_holding v then
      let counter := vial_unlock_counter s - 1 in
      if counter =? 0 then set_lock 1 0 counter (timer_read v) s
      else set_lock (vial_unlocked s) (vial_unlock_in_progress s) counter (timer_read v) s
    else set_lock (vial_unlocked s) (vial_unlock_in_progress s) VIAL_UNLOCK_COUNTER_MAX
           (vial_unlock_timer s) s
  else s.

(** The four bytes of a 32-bit value at the front of the message. *)
Definition put32 (v : Z) msg : list Z := blit msg 0 (le_bytes 4 v).

(** [case vial_dynamic_entry_op]; an unknown operation does nothing. *)
Definition vial_dynamic_entry msg s : list Z * vial_state E :=
  let op := nthZ msg 2 in
  let idx := nthZ msg 3 in
  let entry := slice msg 4 entry_size in
  if op =? dynamic_vial_get_number_of_entries then
    (blit (memset 0 (lenZ msg)) 0
       [u8 VIAL_TAP_DANCE_ENTRIES; u8 VIAL_COMBO_ENTRIES; u8 VIAL_KEY_OVERRIDE_ENTRIES], s)
  else if op =? dynamic_vial_tap_dance_get then
    let '(ret, td) := dynamic_keymap_get_tap_dance (ee s) idx (memset 0 entry_size) in
    (blit (updZ msg 0 (u8 ret)) 1 td, s)
  else if op =? dynamic_vial_tap_dance_set then
    let u := vial_unlocked s in
    let td := firewall_field u 3 (firewall_field u 2 (firewall_field u 1 (firewall_field u 0 entry))) in
    let '(ret, e) := dynamic_keymap_set_tap_dance idx td (ee s) in
    (updZ msg 0 (u8 ret), reload_tap_dance (set_ee e s))
  else if op =? dynamic_vial_combo_get then
    let '(ret, c) := dynamic_keymap_get_combo (ee s) idx (memset 0 entry_size) in
    (blit (updZ msg 0 (u8 ret)) 1 c, s)
  else if op =? dynamic_vial_combo_set then
    let c := firewall_field (vial_unlocked s) 4 entry in
    let '(ret, e) := dynamic_keymap_set_combo idx c (ee s) in
    (updZ msg 0 (u8 ret), reload_combo (set_ee e s))
  else if op =? dynamic_vial_key_override_get then
    let '(ret, k) := dynamic_keymap_get_key_override (ee s) idx (memset 0 entry_size) in
    (blit (updZ msg 0 (u8 ret)) 1 k, s)
  else if op =? dynamic_vial_key_override_set then
    let k := firewall_field (vial_unlocked s) 1 entry in
    let '(ret, e) := dynamic_keymap_set_key_override idx k (ee s) in
    (updZ msg 0 (u8 ret), reload_key_override (set_ee e s))
  else (msg, s).

(** The reply is written over the message. *)
Definition vial_handle_cmd (v : env) msg (length : Z) s : list Z * vial_state E :=
  if negb (length =? VIAL_RAW_EPSIZE) then (msg, s)
  else
    let cmd := nthZ msg 1 in
    let qsid := nthZ msg 2 .| (nthZ msg 3 << 8) in
    if cmd =? vial_get_keyboard_id then
      (blit (blit (memset 0 length) 0 (le_bytes 4 VIAL_PROTOCOL_VERSION)) 4 (slice VIAL_KEYBOARD_UID 0 8), s)
    else if cmd =? vial_get_size then (put32 (lenZ keyboard_definition) msg, s)
    else if cmd =? vial_get_def then
      let page := nthZ msg 2 + (nthZ msg 3 << 8) in
      let start := u32 (page * VIAL_RAW_EPSIZE) in
      let end_ := u32 (start + VIAL_RAW_EPSIZE) in
      if (end_ <? start) || (lenZ keyboard_definition <=? start) then (msg, s)
      else
        let end_ := if lenZ keyboard_definition <? end_ then lenZ keyboard_definition else end_ in
        (blit msg 0 (slice keyboard_definition start (end_ - start)), s)
    else if cmd =? vial_get_encoder then
      let kc0 := dynamic_keymap_get_encoder (ee s) (nthZ msg 2) (nthZ msg 3) false in
      let kc1 := dynamic_keymap_get_encoder (ee s) (nthZ msg 2) (nthZ msg 3) true in
      (blit msg 0 [u8 (kc0 >> 8); u8 (kc0 .& 0xFF); u8 (kc1 >> 8); u8 (kc1 .& 0xFF)], s)
    else if cmd =? vial_set_encoder then
      let kc := vial_keycode_firewall (vial_unlocked s) ((nthZ msg 5 << 8) .| nthZ msg 6) in
      (msg, set_ee (dynamic_keymap_set_encoder (nthZ msg 2) (nthZ msg 3) (truthy (nthZ msg 4)) kc (ee s)) s)
    else if cmd =? vial_get_unlock_status then
      let msg := blit (memset 0xFF length) 0 [u8 (vial_unlocked s); u8 (vial_unlock_in_progress s)] in
      (for_Z 0 (lenZ VIAL_UNLOCK_COMBO_ROWS) (fun i msg =>
         updZ (updZ msg (2 + i * 2) (nthZ VIAL_UNLOCK_COMBO_ROWS i)) (2 + i * 2 + 1)
              (nthZ VIAL_UNLOCK_COMBO_COLS i)) msg, s)
    else if cmd =? vial_unlock_start then
      (msg, set_lock (vial_unlocked s) 1 VIAL_UNLOCK_COUNTER_MAX (timer_read v) s)
    else if cmd =? vial_unlock_poll then
      let s := vial_poll v s in
      (blit msg 0 [u8 (vial_unlocked s); u8 (vial_unlock_in_progress s); u8 (vial_unlock_counter s)], s)
    else if cmd =? vial_lock then
      (msg, set_lock 0 (vial_unlock_in_progress s) (vial_unlock_counter s) (vial_unlock_timer s) s)
    else if cmd =? vial_qmk_settings_query then
      (qmk_settings_query qsid msg, s)
    else if cmd =? vial_qmk_settings_get then
      let '(ret, data) := qmk_settings_get (settings s) qsid (slice msg 1 (length - 1)) in
      (updZ (blit msg 1 data) 0 (u8 ret), s)
    else if cmd =? vial_qmk_settings_set then
      let '(ret, q) := qmk_settings_set qsid (slice msg 4 (length - 4)) (settings s) in
      (updZ msg 0 (u8 ret), set_settings q s)
    else if cmd =? vial_qmk_settings_reset then (msg, set_settings (qmk_settings_reset (settings s)) s)
    else if cmd =? vial_dynamic_entry_op then vial_dynamic_entry msg s
    else (msg, s).
End operations.
