(* ===== verification/Via.v ===== *)
(** The VIA protocol and the initialisation of the stored configuration:
    [quantum/via.c], [dynamic_keymap_reset] of [quantum/dynamic_keymap.c] and
    [eeconfig_init_quantum] of [quantum/eeconfig.c]. The build has no lighting
    feature and the default keyboard hooks. *)

From S2P Require Import Prelude.
From S2P Require Import Eeprom.
From S2P Require Import DynamicKeymap.
From S2P Require Import Eeconfig.
From S2P Require Import QmkSettings.
From S2P Require Import Vial.

Class ViaConfig := {
  BUILD_ID : Z;
  VIA_EEPROM_LAYOUT_OPTIONS_DEFAULT : Z;
}.

Definition VIA_PROTOCOL_VERSION : Z := 0x0009.

Definition id_get_protocol_version : Z := 0x01.
Definition id_get_keyboard_value : Z := 0x02.
Definition id_set_keyboard_value : Z := 0x03.
Definition id_dynamic_keymap_get_keycode : Z := 0x04.
Definition id_dynamic_keymap_set_keycode : Z := 0x05.
Definition id_dynamic_keymap_reset : Z := 0x06.
Definition id_lighting_set_value : Z := 0x07.
Definition id_lighting_get_value : Z := 0x08.
Definition id_lighting_save : Z := 0x09.
Definition id_bootloader_jump : Z := 0x0B.
Definition id_dynamic_keymap_macro_get_count : Z := 0x0C.
Definition id_dynamic_keymap_macro_get_buffer_size : Z := 0x0D.
Definition id_dynamic_keymap_macro_get_buffer : Z := 0x0E.
Definition id_dynamic_keymap_macro_set_buffer : Z := 0x0F.
Definition id_dynamic_keymap_macro_reset : Z := 0x10.
Definition id_dynamic_keymap_get_layer_count : Z := 0x11.
Definition id_dynamic_keymap_get_buffer : Z := 0x12.
Definition id_dynamic_keymap_set_buffer : Z := 0x13.
Definition id_vial_prefix : Z := 0xFE.
Definition id_unhandled : Z := 0xFF.

Definition id_uptime : Z := 0x01.
Definition id_layout_options : Z := 0x02.
Definition id_switch_matrix_state : Z := 0x03.

Definition QK_MACRO : Z := 0x7700.
Definition QK_MACRO_MAX : Z := 0x777F.

(** What a report handler does to the outside. *)
Inductive via_out :=
| RawHidSend (data : list Z)
| WaitMs (ms : Z)
| BootloaderJump.

Section operations.
Context {E : Type} {eeprom : Eeprom E} {cfg : KeymapConfig} {qcfg : QmkSettingsConfig}
        {vcfg : VialConfig} {acfg : ViaConfig} {ecfg : EeconfigConfig}.
Implicit Types (s : vial_state E) (e : E) (data : list Z).

(** ** The magic *)

Definition magic0 : Z := u8 (BUILD_ID .& 0xFF).
Definition magic1 : Z := u8 ((BUILD_ID >> 8) .& 0xFF).
Definition magic2 : Z := u8 ((BUILD_ID >> 16) .& 0xFF).

Definition via_eeprom_is_valid e : bool :=
  (eeprom_read_byte e (VIA_EEPROM_MAGIC_ADDR + 0) =? magic0)
  && (eeprom_read_byte e (VIA_EEPROM_MAGIC_ADDR + 1) =? magic1)
  && (eeprom_read_byte e (VIA_EEPROM_MAGIC_ADDR + 2) =? magic2).

Definition via_eeprom_set_valid (valid : bool) e : E :=
  let e := eeprom_update_byte (VIA_EEPROM_MAGIC_ADDR + 0) (if valid then magic0 else 0xFF) e in
  let e := eeprom_update_byte (VIA_EEPROM_MAGIC_ADDR + 1) (if valid then magic1 else 0xFF) e in
  eeprom_update_byte (VIA_EEPROM_MAGIC_ADDR + 2) (if valid then magic2 else 0xFF) e.

(** ** Layout options, most significant byte first *)

Definition via_get_layout_options e : Z :=
  for_Z 0 VIA_EEPROM_LAYOUT_OPTIONS_SIZE (fun i value =>
    u32 (value << 8) .| eeprom_read_byte e (VIA_EEPROM_LAYOUT_OPTIONS_ADDR + i)) 0.

Definition via_set_layout_options (value : Z) e : E :=
  (for_Z 0 VIA_EEPROM_LAYOUT_OPTIONS_SIZE (fun i '(value, e) =>
     (value >> 8,
      eeprom_update_byte (VIA_EEPROM_LAYOUT_OPTIONS_ADDR + VIA_EEPROM_LAYOUT_OPTIONS_SIZE - 1 - i)
        (value .& 0xFF) e)) (value, e)).2.

(** ** Resetting *)

Definition reset_keymap e : E :=
  for_Z 0 DYNAMIC_KEYMAP_LAYER_COUNT (fun layer e =>
    let e := for_Z 0 MATRIX_ROWS (fun row e =>
      for_Z 0 MATRIX_COLS (fun column e =>
        dynamic_keymap_set_keycode layer row column
          (keycode_at_keymap_location_raw layer row column) e) e) e in
    for_Z 0 NUM_ENCODERS (fun encoder e =>
      let e := dynamic_keymap_set_encoder layer encoder true
                 (keycode_at_encodermap_location_raw layer encoder true) e in
      dynamic_keymap_set_encoder layer encoder false
        (keycode_at_encodermap_location_raw layer encoder false) e) e) e.

Definition default_tap_dance : list Z := memset 0 8 ++ le_bytes 2 TAPPING_TERM.
Definition default_combo : list Z := memset 0 entry_size.
(** [layers] all ones, the three activation options. *)
Definition default_key_override : list Z := [0; 0; 0; 0; 0xFF; 0xFF; 0; 0; 0; 7].

Definition reset_entries e : E :=
  let e := for_Z 0 VIAL_TAP_DANCE_ENTRIES
             (fun i e => (dynamic_keymap_set_tap_dance (u8 i) default_tap_dance e).2) e in
  let e := for_Z 0 VIAL_COMBO_ENTRIES
             (fun i e => (dynamic_keymap_set_combo (u8 i) default_combo e).2) e in
  for_Z 0 VIAL_KEY_OVERRIDE_ENTRIES
    (fun i e => (dynamic_keymap_set_key_override (u8 i) default_key_override e).2) e.

Definition with_unlocked (u : Z) s : vial_state E :=
  set_lock u (vial_unlock_in_progress s) (vial_unlock_counter s) (vial_unlock_timer s) s.

Definition dynamic_keymap_reset s : vial_state E :=
  let vial_unlocked_prev := vial_unlocked s in
  let s := with_unlocked 1 s in
  let s := set_ee (reset_keymap (ee s)) s in
  let s := set_settings (qmk_settings_reset (settings s)) s in
  let s := set_ee (reset_entries (ee s)) s in
  with_unlocked vial_unlocked_prev s.

Definition eeconfig_init_via s : vial_state E :=
  let s := set_ee (via_eeprom_set_valid false (ee s)) s in
  let s := set_ee (via_set_layout_options VIA_EEPROM_LAYOUT_OPTIONS_DEFAULT (ee s)) s in
  let s := dynamic_keymap_reset s in
  let s := set_ee (dynamic_keymap_macro_reset (ee s)) s in
  set_ee (via_eeprom_set_valid true (ee s)) s.

Definition via_init s : vial_state E :=
  if negb (via_eeprom_is_valid (ee s)) then eeconfig_init_via s else s.

Definition eeconfig_is_enabled e : bool :=
  let is_eeprom_enabled := eeprom_read_word e EECONFIG_MAGIC =? EECONFIG_MAGIC_NUMBER in
  if is_eeprom_enabled then via_eeprom_is_valid e else is_eeprom_enabled.

Definition eeconfig_is_disabled e : bool :=
  let is_eeprom_disabled := eeprom_read_word e EECONFIG_MAGIC =? EECONFIG_MAGIC_NUMBER_OFF in
  if negb is_eeprom_disabled then negb (via_eeprom_is_valid e) else is_eeprom_disabled.

(** [default_layer_state] is set to its first layer on the way. *)
Definition eeconfig_init_quantum s : Z * vial_state E :=
  let e := eeprom_driver_format false (ee s) in
  let e := eeprom_update_word EECONFIG_MAGIC EECONFIG_MAGIC_NUMBER e in
  let e := eeprom_update_byte EECONFIG_DEBUG 0 e in
  let default_layer_state := 1 << 0 in
  let e := eeconfig_update_default_layer default_layer_state e in
  let e := eeprom_update_word EECONFIG_KEYMAP 0x1400 e in
  let e := eeprom_update_byte EECONFIG_BACKLIGHT 0 e in
  let e := eeprom_update_byte EECONFIG_AUDIO 0 e in
  let e := eeprom_update_dword EECONFIG_RGBLIGHT 0 e in
  let e := eeprom_update_byte EECONFIG_RGBLIGHT_EXTENDED 0 e in
  let e := eeprom_update_byte EECONFIG_UNICODEMODE 0 e in
  let e := eeprom_update_byte EECONFIG_STENOMODE 0 e in
  let e := eeprom_update_block (le_bytes 8 0) EECONFIG_RGB_MATRIX e in
  let e := eeprom_update_dword EECONFIG_HAPTIC 0 e in
  let e := if 0 <? EECONFIG_KB_DATA_SIZE then eeconfig_init_kb_datablock e else e in
  let e := if 0 <? EECONFIG_USER_DATA_SIZE then eeconfig_init_user_datablock e else e in
  let e := via_eeprom_set_valid false e in
  let s := eeconfig_init_via (set_ee e s) in
  (default_layer_state, set_ee (eeconfig_init_kb (ee s)) s).

Definition eeconfig_init s : Z * vial_state E := eeconfig_init_quantum s.

(** ** Keys and reports *)

(** Whether the key is left to the other processors, and the macro's calls. *)
Definition process_record_via e (keycode : Z) (pressed : bool) : bool * option (list macro_call) :=
  if pressed && ((QK_MACRO <=? keycode) && (keycode <=? QK_MACRO_MAX))
  then (false, dynamic_keymap_macro_send e (u8 (keycode - QK_MACRO)))
  else (true, Some []).

(** The default of the keyboard's hook. *)
Definition raw_hid_receive_kb data : list Z := updZ data 0 id_unhandled.

Definition be32 (v : Z) : list Z :=
  [u8 ((v >> 24) .& 0xFF); u8 ((v >> 16) .& 0xFF); u8 ((v >> 8) .& 0xFF); u8 (v .& 0xFF)].

Definition matrix_row_bytes (value : Z) : list Z :=
  (if 24 <? MATRIX_COLS then [u8 ((value >> 24) .& 0xFF)] else [])
  ++ (if 16 <? MATRIX_COLS then [u8 ((value >> 16) .& 0xFF)] else [])
  ++ (if 8 <? MATRIX_COLS then [u8 ((value >> 8) .& 0xFF)] else [])
  ++ [u8 (value .& 0xFF)].

Definition get_keyboard_value (v : env) data s : list Z :=
  let what := nthZ data 1 in
  if what =? id_uptime then blit data 2 (be32 (timer_read32 v))
  else if what =? id_layout_options then blit data 2 (be32 (via_get_layout_options (ee s)))
  else if what =? id_switch_matrix_state then
    if negb (truthy (vial_unlocked s)) then data
    else if (MATRIX_COLS / 8 + 1) * MATRIX_ROWS <=? 28
    then blit data 2 (concat (map (fun row => matrix_row_bytes (matrix_get_row v row)) (seqZ 0 MATRIX_ROWS)))
    else data
  else raw_hid_receive_kb data.

(** The commands let through while an unlock is in progress. *)
Definition unlock_command data : bool :=
  let cmd := nthZ data 1 in
  (nthZ data 0 =? id_vial_prefix)
  && ((cmd =? vial_get_keyboard_id) || (cmd =? vial_get_size) || (cmd =? vial_get_def)
      || (cmd =? vial_get_unlock_status) || (cmd =? vial_unlock_start) || (cmd =? vial_unlock_poll)).

(** The two bytes of a big-endian argument. *)
Definition arg16 data (i : Z) : Z := (nthZ data i << 8) .| nthZ data (i + 1).

(** The [switch]: the message, what is done before the reply, the state. *)
Definition via_command (v : env) data (length : Z) s : list Z * list via_out * vial_state E :=
  let id := nthZ data 0 in
  let quiet data s := (data, [], s) in
  let offset := arg16 data 1 in
  let size := nthZ data 3 in
  if id =? id_get_protocol_version then
    quiet (blit data 1 [u8 (VIA_PROTOCOL_VERSION >> 8); u8 (VIA_PROTOCOL_VERSION .& 0xFF)]) s
  else if id =? id_get_keyboard_value then quiet (get_keyboard_value v data s) s
  else if id =? id_set_keyboard_value then
    if nthZ data 1 =? id_layout_options then
      let value := (nthZ data 2 << 24) .| (nthZ data 3 << 16) .| (nthZ data 4 << 8) .| nthZ data 5 in
      quiet data (set_ee (via_set_layout_options value (ee s)) s)
    else quiet (raw_hid_receive_kb data) s
  else if id =? id_dynamic_keymap_get_keycode then
    let keycode := dynamic_keymap_get_keycode (ee s) (nthZ data 1) (nthZ data 2) (nthZ data 3) in
    quiet (blit data 4 [u8 (keycode >> 8); u8 (keycode .& 0xFF)]) s
  else if id =? id_dynamic_keymap_set_keycode then
    quiet data (set_ee (dynamic_keymap_set_keycode (nthZ data 1) (nthZ data 2) (nthZ data 3)
                          (arg16 data 4) (ee s)) s)
  else if id =? id_dynamic_keymap_reset then quiet data (dynamic_keymap_reset s)
  else if (id =? id_lighting_set_value) || (id =? id_lighting_get_value) || (id =? id_lighting_save) then
    quiet (updZ data 0 id_unhandled) s
  else if id =? id_dynamic_keymap_macro_get_count then
    quiet (updZ data 1 dynamic_keymap_macro_get_count) s
  else if id =? id_dynamic_keymap_macro_get_buffer_size then
    let sz := dynamic_keymap_macro_get_buffer_size in
    quiet (blit data 1 [u8 (sz >> 8); u8 (sz .& 0xFF)]) s
  else if id =? id_dynamic_keymap_macro_get_buffer then
    quiet (if size <=? 28 then dynamic_keymap_macro_get_buffer (ee s) offset size data 4 else data) s
  else if id =? id_dynamic_keymap_macro_set_buffer then
    if negb (truthy (vial_unlocked s)) then quiet data s
    else quiet data (if size <=? 28
                     then set_ee (dynamic_keymap_macro_set_buffer offset size data 4 (ee s)) s else s)
  else if id =? id_dynamic_keymap_macro_reset then
    quiet data (set_ee (dynamic_keymap_macro_reset (ee s)) s)
  else if id =? id_dynamic_keymap_get_layer_count then
    quiet (updZ data 1 dynamic_keymap_get_layer_count) s
  else if id =? id_dynamic_keymap_get_buffer then
    quiet (if size <=? 28 then dynamic_keymap_get_buffer (ee s) offset size data 4 else data) s
  else if id =? id_dynamic_keymap_set_buffer then
    if size <=? 28 then
      let '(data, e) := dynamic_keymap_set_buffer (vial_unlocked s) offset size data 4 (ee s) in
      quiet data (set_ee e s)
    else quiet data s
  else if id =? id_bootloader_jump then
    if negb (truthy (vial_unlocked s)) then quiet data s
    else (data, [RawHidSend data; WaitMs 100; BootloaderJump], s)
  else if id =? id_vial_prefix then
    let '(data, s) := vial_handle_cmd v data length s in quiet data s
  else quiet (raw_hid_receive_kb data) s.

Definition raw_hid_receive (v : env) data (length : Z) s : list via_out * vial_state E :=
  if truthy (vial_unlock_in_progress s) && negb (unlock_command data) then ([RawHidSend data], s)
  else let '(data, outs, s) := via_command v data length s in (outs ++ [RawHidSend data], s).
End operations.
