(* ===== verification/ViaReset.v ===== *)
(** Resetting the stored configuration: what an interrupted reset leaves, and
    what a complete one stores. *)

From S2P Require Import Prelude.
From S2P Require Import Eeprom.
From S2P Require Import DynamicKeymap.
From S2P Require Import Eeconfig.
From S2P Require Import KeymapSlots.
From S2P Require Import KeymapBuffer.
From S2P Require Import QmkSettings.
From S2P Require Import QmkSettingsProofs.
From S2P Require Import Vial.
From S2P Require Import Via.

(** ** A driver that loses power

    The first [budget] writes take effect, the later ones do not. *)
Module PowerFail.
Section powerfail.
Context {E : Type} {eeprom : Eeprom E}.

Record t := mk { budget : nat; real : E }.

#[global] Instance driver : Eeprom t := {
  eeprom_read_block b := eeprom_read_block (real b);
  eeprom_write_block buf addr b :=
    match budget b with
    | O => b
    | S n => mk n (eeprom_write_block buf addr (real b))
    end;
  eeprom_driver_erase b :=
    match budget b with
    | O => b
    | S n => mk n (eeprom_driver_erase (real b))
    end;
  eeprom_driver_format erase b :=
    match budget b with
    | O => b
    | S n => mk n (eeprom_driver_format erase (real b))
    end;
}.

Lemma dead_write b buf addr : budget b = O -> eeprom_write_block buf addr b = b.
Proof. intros H. simpl. by rewrite H. Qed.
End powerfail.
Arguments t : clear implicits.
End PowerFail.

(** ** What a reset writes

    A property of the store that writes to the ranges [ok] keep is kept by
    every operation that writes in such ranges only, whatever the driver. *)
Section preserve.
Context {E : Type} {eeprom : Eeprom E} {cfg : KeymapConfig} {qcfg : QmkSettingsConfig}
        (P : E -> Prop) (ok : Z -> Z -> Prop)
        (P_write : forall e buf a, P e -> bytes buf -> ok a (lenZ buf) -> P (eeprom_write_block buf a e)).
Implicit Types (e : E).

Lemma keep_byte e a v : P e -> ok a 1 -> P (eeprom_update_byte a v e).
Proof using P_write.
  intros. unfold eeprom_update_byte. case_if; [done|]. apply P_write; [done|apply bytes_le_bytes|done].
Qed.

Lemma keep_word e a v : P e -> ok a 2 -> P (eeprom_update_word a v e).
Proof using P_write.
  intros. unfold eeprom_update_word. case_if; [done|]. apply P_write; [done|apply bytes_le_bytes|done].
Qed.

Lemma keep_loop {S} lo hi (body : Z -> S -> S) (Q : S -> Prop) s :
  Q s -> (forall i s, lo <= i < hi -> Q s -> Q (body i s)) -> Q (for_Z lo hi body s).
Proof.
  intros Hs Hb. destruct (Z.le_gt_cases lo hi); [|by rewrite for_Z_done by lia].
  by apply (for_Z_inv body (fun _ => Q)).
Qed.

(** The areas a reset writes: from the layout options to the end of the
    macros, and the keymap options. *)
Context (ok_area : forall a n, VIA_EEPROM_LAYOUT_OPTIONS_ADDR <= a ->
           a + n <= DYNAMIC_KEYMAP_EEPROM_MAX_ADDR + 1 -> ok a n)
        (ok_keymap : ok EECONFIG_KEYMAP 2)
        (cfg_ok : KeymapConfigOk).

Lemma area_start : VIA_EEPROM_LAYOUT_OPTIONS_ADDR + VIA_EEPROM_LAYOUT_OPTIONS_SIZE
  <= DYNAMIC_KEYMAP_EEPROM_ADDR.
Proof using cfg_ok.
  pose proof custom_config_size_ok.
  unfold DYNAMIC_KEYMAP_EEPROM_ADDR, VIA_EEPROM_CONFIG_END, VIA_EEPROM_CUSTOM_CONFIG_ADDR. lia.
Qed.

(** The bytes of a cell may be written. *)
Lemma ok_slot c i n : slot_valid c -> 0 <= i -> i + n <= slot_size c -> ok (slot_address c + i) n.
Proof using ok_area cfg_ok.
  intros Hc Hi Hn. pose proof (slot_range c Hc) as (? & ? & ?). pose proof (slot_low c Hc).
  pose proof area_start. pose proof layout_options_size_ok. apply ok_area; lia.
Qed.

Lemma ok_slot_start c : slot_valid c -> ok (slot_address c) (slot_size c).
Proof using ok_area cfg_ok.
  intros Hc. rewrite <- (Z.add_0_r (slot_address c)). apply ok_slot; [done|lia|lia].
Qed.

Lemma keep_keycode l r c kc e : 0 <= l -> 0 <= r -> 0 <= c -> P e ->
  P (dynamic_keymap_set_keycode l r c kc e).
Proof using P_write ok_area cfg_ok.
  intros Hl Hr Hc He. unfold dynamic_keymap_set_keycode. case_if; [done|]. rewrite key_address.
  assert (Hv : slot_valid (SlotKey l r c)) by (cbn; lia).
  apply keep_byte; [apply keep_byte; [done|]|].
  - apply (ok_area _ 1 ); [pose proof (slot_low _ Hv)|pose proof (slot_range _ Hv)];
      cbn [slot_address slot_size] in *; pose proof area_start; pose proof layout_options_size_ok; lia.
  - apply (ok_slot (SlotKey l r c) 1 1 Hv); cbn; lia.
Qed.

Lemma keep_encoder l i (cw : bool) kc e : 0 <= l -> 0 <= i -> P e ->
  P (dynamic_keymap_set_encoder l i cw kc e).
Proof using P_write ok_area cfg_ok.
  intros Hl Hi He. unfold dynamic_keymap_set_encoder. case_if; [done|]. rewrite encoder_address.
  assert (Hv : slot_valid (SlotEncoder l i cw)) by (cbn; lia).
  apply keep_byte; [apply keep_byte; [done|]|].
  - apply (ok_area _ 1 ); [pose proof (slot_low _ Hv)|pose proof (slot_range _ Hv)];
      cbn [slot_address slot_size] in *; pose proof area_start; pose proof layout_options_size_ok; lia.
  - apply (ok_slot (SlotEncoder l i cw) 1 1 Hv); cbn; lia.
Qed.

Lemma default_tap_dance_bytes : lenZ default_tap_dance = entry_size /\ bytes default_tap_dance.
Proof. split; [done|]. apply bytes_app; [by apply bytes_memset|apply bytes_le_bytes]. Qed.
Lemma default_combo_bytes : lenZ default_combo = entry_size /\ bytes default_combo.
Proof. split; [done|]. by apply bytes_memset. Qed.
Lemma default_key_override_bytes : lenZ default_key_override = entry_size /\ bytes default_key_override.
Proof. split; [done|]. repeat constructor; lia. Qed.

Lemma keep_entries e : P e -> P (reset_entries e).
Proof using P_write ok_area cfg_ok.
  intros He. unfold reset_entries.
  apply keep_loop; [apply keep_loop; [apply keep_loop; [done|]|]|]; intros i e' Hi He';
    pose proof (u8_range i); unfold dynamic_keymap_set_key_override, dynamic_keymap_set_combo,
      dynamic_keymap_set_tap_dance; case_if; try done; cbn [snd]; apply P_write; try done.
  - apply default_tap_dance_bytes.
  - apply (ok_slot_start (SlotTapDance (u8 i))). cbn. lia.
  - apply default_combo_bytes.
  - apply (ok_slot_start (SlotCombo (u8 i))). cbn. lia.
  - apply default_key_override_bytes.
  - apply (ok_slot_start (SlotKeyOverride (u8 i))). cbn. lia.
Qed.

Lemma keep_keymap e : P e -> P (reset_keymap e).
Proof using P_write ok_area cfg_ok.
  intros He. unfold reset_keymap. apply keep_loop; [done|]. intros l e1 Hl H1.
  apply keep_loop.
  - apply keep_loop; [done|]. intros r e2 Hr H2. apply keep_loop; [done|]. intros c e3 Hc H3.
    apply keep_keycode; (done || lia).
  - intros i e2 Hi H2. repeat (apply keep_encoder; [lia|lia|]). done.
Qed.

Lemma keep_save (q : qs_state E) : P (qs_eeprom q) -> P (qs_eeprom (eeprom_settings_save q)).
Proof using P_write ok_area cfg_ok.
  intros Hq. unfold eeprom_settings_save. cbn [qs_eeprom set_qs_eeprom].
  apply keep_loop; [done|]. intros i e Hi He. cbv zeta. case_if; [|done].
  unfold dynamic_keymap_set_qmk_settings. case_if; [done|].
  apply keep_byte; [done|]. apply (ok_slot_start (SlotSetting i)). cbn. lia.
Qed.

Lemma init_eeprom (q : qs_state E) : qs_eeprom (qmk_settings_init q) = qs_eeprom q.
Proof.
  unfold qmk_settings_init. change (qs_eeprom q) with (qs_eeprom (eeprom_settings_load q)).
  generalize (eeprom_settings_load q) as q0. induction protos as [|p ps IH]; [done|].
  intros q0. cbn [foldl]. rewrite IH. apply run_notify_QS.
Qed.

Lemma keep_settings (q : qs_state E) : P (qs_eeprom q) -> P (qs_eeprom (qmk_settings_reset q)).
Proof using P_write ok_area ok_keymap cfg_ok.
  intros Hq. unfold qmk_settings_reset. rewrite init_eeprom.
  cbn [qs_eeprom set_qs_eeprom set_keymap_config clear_keyboard keymap_config].
  apply keep_word; [|done]. by apply keep_save.
Qed.

Lemma keep_macros e : P e -> P (dynamic_keymap_macro_reset e).
Proof using P_write ok_area cfg_ok.
  intros He. unfold dynamic_keymap_macro_reset. apply keep_loop; [done|]. intros p e' Hp He'.
  apply keep_byte; [done|].
  assert (Hv : slot_valid (SlotMacroByte (p - DYNAMIC_KEYMAP_MACRO_EEPROM_ADDR))) by (cbn; lia).
  pose proof (ok_slot_start _ Hv) as Hok. cbn [slot_address slot_size] in Hok.
  by replace (DYNAMIC_KEYMAP_MACRO_EEPROM_ADDR + (p - DYNAMIC_KEYMAP_MACRO_EEPROM_ADDR)) with p in Hok by lia.
Qed.

Lemma keep_layout_options v e : P e -> P (via_set_layout_options v e).
Proof using P_write ok_area cfg_ok.
  intros He. unfold via_set_layout_options.
  pose proof area_start. pose proof area_positive.
  assert (Hend : DYNAMIC_KEYMAP_EEPROM_ADDR <= DYNAMIC_KEYMAP_EEPROM_MAX_ADDR).
  { assert (Hv : slot_valid (SlotMacroByte 0)) by (cbn; lia).
    pose proof (slot_low _ Hv). pose proof (slot_range _ Hv). cbn in *. lia. }
  apply (keep_loop _ _ _ (fun s : Z * E => P s.2)); [done|]. intros i [w e'] Hi He'. cbn [snd] in *.
  apply keep_byte; [done|]. apply ok_area; lia.
Qed.

Lemma keep_reset (s : vial_state E) : P (ee s) -> P (ee (dynamic_keymap_reset s)).
Proof using P_write ok_area ok_keymap cfg_ok.
  intros Hs. unfold dynamic_keymap_reset, ee.
  cbn [settings with_unlocked set_lock set_ee set_settings qs_eeprom set_qs_eeprom].
  apply keep_entries. apply keep_settings. cbn [qs_eeprom set_qs_eeprom]. by apply keep_keymap.
Qed.
End preserve.

(** ** Interruption *)

(** [eeconfig_init_via] up to the final mark. *)
Definition init_via_unmarked {E : Type} {eeprom : Eeprom E} {cfg : KeymapConfig}
    {qcfg : QmkSettingsConfig} {acfg : ViaConfig} (s : vial_state E) : vial_state E :=
  let s := set_ee (via_eeprom_set_valid false (ee s)) s in
  let s := set_ee (via_set_layout_options VIA_EEPROM_LAYOUT_OPTIONS_DEFAULT (ee s)) s in
  let s := dynamic_keymap_reset s in
  set_ee (dynamic_keymap_macro_reset (ee s)) s.

Lemma init_via_marked {E : Type} {eeprom : Eeprom E} {cfg : KeymapConfig}
    {qcfg : QmkSettingsConfig} {acfg : ViaConfig} (s : vial_state E) :
  ee (eeconfig_init_via s) = via_eeprom_set_valid true (ee (init_via_unmarked s)).
Proof. done. Qed.

(** Ranges that leave the first byte of the magic alone. *)
Definition off_magic {cfg : KeymapConfig} (a n : Z) : Prop :=
  0 <= a /\ a + n <= DYNAMIC_KEYMAP_EEPROM_MAX_ADDR + 1
  /\ (VIA_EEPROM_MAGIC_ADDR + 1 <= a \/ a + n <= VIA_EEPROM_MAGIC_ADDR).

Lemma keep_unmarked {E : Type} {eeprom : Eeprom E} {cfg : KeymapConfig} {cfg_ok : KeymapConfigOk}
    {qcfg : QmkSettingsConfig} {acfg : ViaConfig} (P : E -> Prop) (s : vial_state E) :
  (forall e buf a, P e -> bytes buf -> off_magic a (lenZ buf) -> P (eeprom_write_block buf a e)) ->
  P (eeprom_update_byte (VIA_EEPROM_MAGIC_ADDR + 0) 0xFF (ee s)) -> P (ee (init_via_unmarked s)).
Proof.
  intros HP H0. unfold init_via_unmarked, ee at 1.
  cbn [settings set_ee set_settings qs_eeprom set_qs_eeprom].
  pose proof eeconfig_size_ok. pose proof (@area_start _ cfg_ok). pose proof (@area_positive _ cfg_ok).
  pose proof layout_options_size_ok.
  assert (Hend : DYNAMIC_KEYMAP_EEPROM_ADDR <= DYNAMIC_KEYMAP_EEPROM_MAX_ADDR).
  { assert (Hv : slot_valid (SlotMacroByte 0)) by (cbn; lia).
    pose proof (slot_low _ Hv). pose proof (slot_range _ Hv). cbn in *. lia. }
  unfold VIA_EEPROM_LAYOUT_OPTIONS_ADDR, VIA_EEPROM_MAGIC_ADDR in *.
  assert (Harea : forall a n, VIA_EEPROM_LAYOUT_OPTIONS_ADDR <= a ->
    a + n <= DYNAMIC_KEYMAP_EEPROM_MAX_ADDR + 1 -> off_magic a n)
    by (unfold off_magic, VIA_EEPROM_LAYOUT_OPTIONS_ADDR, VIA_EEPROM_MAGIC_ADDR; lia).
  assert (Hkm : off_magic EECONFIG_KEYMAP 2)
    by (unfold off_magic, EECONFIG_KEYMAP, VIA_EEPROM_MAGIC_ADDR; lia).
  apply (keep_macros P off_magic); [done..|]. apply (keep_reset P off_magic); [done..|].
  unfold ee at 1. cbn [settings set_ee set_settings qs_eeprom set_qs_eeprom].
  apply (keep_layout_options P off_magic); [done..|].
  unfold ee at 1. cbn [settings set_ee set_settings qs_eeprom set_qs_eeprom].
  unfold via_eeprom_set_valid.
  do 2 (apply (keep_byte P off_magic); [done| |unfold off_magic, VIA_EEPROM_MAGIC_ADDR; lia]). done.
Qed.

(** Writes after the power is off do nothing. *)
Lemma dead_mark {E : Type} {eeprom : Eeprom E} {cfg : KeymapConfig} {acfg : ViaConfig}
    (b : PowerFail.t E) : PowerFail.budget b = O -> via_eeprom_set_valid true b = b.
Proof.
  intros Hb. assert (H : forall a v, eeprom_update_byte a v b = b);
    [|unfold via_eeprom_set_valid; by rewrite !H].
  intros a v. unfold eeprom_update_byte, eeprom_write_byte. case_if; [done|]. by apply PowerFail.dead_write.
Qed.

Section interrupted.
Context {E : Type} {eeprom : Eeprom E} {cfg : KeymapConfig} {cfg_ok : KeymapConfigOk}
        {acfg : ViaConfig} {laws : EepromLaws E}
        (size_ok : DYNAMIC_KEYMAP_EEPROM_MAX_ADDR < ee_size).
Implicit Types (b : PowerFail.t E).

(** The first byte of the magic has been erased. *)
Definition unmarked b : Prop :=
  ee_wf (PowerFail.real b) /\ nthZ (ee_mem (PowerFail.real b)) VIA_EEPROM_MAGIC_ADDR = 0xFF.

Lemma magic_in_store : 0 <= VIA_EEPROM_MAGIC_ADDR /\ VIA_EEPROM_MAGIC_ADDR + 1 <= ee_size.
Proof using cfg_ok size_ok.
  pose proof eeconfig_size_ok. pose proof (@area_positive _ cfg_ok).
  pose proof (@area_start _ cfg_ok). pose proof layout_options_size_ok.
  assert (Hv : slot_valid (SlotMacroByte 0)) by (cbn; lia).
  pose proof (slot_low _ Hv). pose proof (slot_range _ Hv).
  unfold VIA_EEPROM_LAYOUT_OPTIONS_ADDR, VIA_EEPROM_MAGIC_ADDR in *. cbn in *. lia.
Qed.

Lemma unmarked_write b buf a : unmarked b -> bytes buf -> off_magic a (lenZ buf) ->
  unmarked (eeprom_write_block buf a b).
Proof using size_ok.
  intros [Hx Hff] Hbuf (Ha & Hle & Hoff). destruct b as [[|m] e]; [done|]. unfold unmarked. simpl in *.
  destruct (ee_write_law e buf a) as [Hw' Hm']; [done|done|done|lia|].
  split; [done|]. rewrite Hm', nthZ_blit by (rewrite ?ee_len by done; lia). case_if; [lia|done].
Qed.

Lemma unmarked_first b n : PowerFail.budget b = S n -> ee_wf (PowerFail.real b) ->
  unmarked (eeprom_update_byte (VIA_EEPROM_MAGIC_ADDR + 0) 0xFF b).
Proof using cfg_ok size_ok.
  intros Hn Hw. pose proof magic_in_store as [Hmag HM]. rewrite Z.add_0_r.
  destruct b as [k e]. simpl in Hn, Hw. subst k. unfold eeprom_update_byte. case_if.
  - split; [done|]. rewrite <- E0. symmetry. by apply (eeprom_read_byte_spec e).
  - unfold unmarked, eeprom_write_byte. simpl.
    pose proof (eeprom_write_byte_spec e VIA_EEPROM_MAGIC_ADDR 0xFF Hw Hmag HM) as Hst.
    split; [apply Hst|].
    rewrite (ee_stored_nth _ _ VIA_EEPROM_MAGIC_ADDR (le_bytes 1 0xFF) VIA_EEPROM_MAGIC_ADDR Hw Hmag)
      by (done || (change (lenZ (le_bytes 1 255)) with 1; lia)).
    change (lenZ (le_bytes 1 255)) with 1. case_if; [|lia]. by rewrite Z.sub_diag.
Qed.

Lemma unmarked_invalid b : unmarked b -> magic0 <> 0xFF -> via_eeprom_is_valid b = false.
Proof using cfg_ok size_ok.
  intros [Hw Hff] Hm. pose proof magic_in_store as [Hmag HM]. destruct b as [k e]. simpl in *.
  assert (Hr : eeprom_read_byte (PowerFail.mk k e) VIA_EEPROM_MAGIC_ADDR = 0xFF)
    by (rewrite <- Hff; apply (eeprom_read_byte_spec e); done).
  unfold via_eeprom_is_valid. rewrite Z.add_0_r, Hr. by rewrite (proj2 (Z.eqb_neq _ _)) by lia.
Qed.
End interrupted.

(** C6: An interrupted reset never passes for a complete one. If power fails
    at any write before the reset has marked the EEPROM valid, then after the
    failure the EEPROM is not valid, or not a single write took effect and the
    old contents are intact. The first byte of the build's magic must not be
    the erased value FF. *)
Theorem interrupted_reset_not_valid {E : Type} {eeprom : Eeprom E} {cfg : KeymapConfig}
    {cfg_ok : KeymapConfigOk} {qcfg : QmkSettingsConfig} {acfg : ViaConfig} {laws : EepromLaws E}
    (s : vial_state (PowerFail.t E)) :
  DYNAMIC_KEYMAP_EEPROM_MAX_ADDR < ee_size -> ee_wf (PowerFail.real (ee s)) -> magic0 <> 0xFF ->
  PowerFail.budget (ee (init_via_unmarked s)) = O ->
  via_eeprom_is_valid (ee (eeconfig_init_via s)) = false
  \/ PowerFail.real (ee (eeconfig_init_via s)) = PowerFail.real (ee s).
Proof.
  intros Hsz Hw Hm. pose proof (init_via_marked s) as Hmk.
  assert (Hcase : ee (init_via_unmarked s) = ee s \/ unmarked (ee (init_via_unmarked s))).
  { destruct (PowerFail.budget (ee s)) as [|n] eqn:Hn; [left|right].
    - refine (keep_unmarked (fun x => x = ee s) s _ _).
      + intros b' buf a -> _ _. by apply PowerFail.dead_write.
      + unfold eeprom_update_byte, eeprom_write_byte. case_if; [done|]. by apply PowerFail.dead_write.
    - refine (keep_unmarked unmarked s _ _); [by apply unmarked_write|by apply (unmarked_first Hsz _ n)]. }
  revert Hcase Hmk. generalize (ee (init_via_unmarked s)) as b, (ee (eeconfig_init_via s)) as b'.
  intros b b' Hcase -> Hdead. rewrite (dead_mark b Hdead). destruct Hcase as [->|Hb]; [by right|left]. by apply unmarked_invalid.
Qed.

(** ** Witness *)

(** The settings, the lock and the build of the small keyboard. *)
Module ViaExample.
Definition qcfg : QmkSettingsConfig := {|
  AUTO_SHIFT_TIMEOUT := 175; ONESHOT_TAP_TOGGLE := 5; ONESHOT_TIMEOUT := 5000;
  MOUSEKEY_DELAY := 10; MOUSEKEY_INTERVAL := 20; MOUSEKEY_MOVE_DELTA := 8;
  MOUSEKEY_MAX_SPEED := 10; MOUSEKEY_TIME_TO_MAX := 30; MOUSEKEY_WHEEL_DELAY := 10;
  MOUSEKEY_WHEEL_INTERVAL := 80; MOUSEKEY_WHEEL_MAX_SPEED := 8; MOUSEKEY_WHEEL_TIME_TO_MAX := 40;
  COMBO_TERM := 50; TAP_CODE_DELAY := 10; TAP_HOLD_CAPS_DELAY := 80; TAPPING_TOGGLE := 5;
|}.
Definition vcfg : VialConfig := {|
  VIAL_UNLOCK_COMBO_ROWS := [0; 1]; VIAL_UNLOCK_COMBO_COLS := [0; 2];
  VIAL_KEYBOARD_UID := [1; 2; 3; 4; 5; 6; 7; 8];
  keyboard_definition := [0xFD; 0x37; 0x7A; 0x58; 0x5A];
|}.
Definition acfg : ViaConfig := {| BUILD_ID := 0x12345678; VIA_EEPROM_LAYOUT_OPTIONS_DEFAULT := 3 |}.
Definition ecfg : EeconfigConfig := {|
  EECONFIG_KB_DATA_SIZE := 0; EECONFIG_KB_DATA_VERSION := 0;
  EECONFIG_USER_DATA_SIZE := 0; EECONFIG_USER_DATA_VERSION := 0 |}.

(** The keyboard at power up, over the store [e]. *)
Definition power_up {E : Type} (e : E) : vial_state E :=
  mk_vial (mk_qs e (memset 0 36) 0 175 (mk_mousekey 0 0 0 0 0 0 0 0) 0) 0 0 0 0 [] [] [] [].
End ViaExample.

Section witnesses.
#[local] Existing Instance KeymapExample.config.
#[local] Existing Instance KeymapExample.config_ok.
#[local] Existing Instance KeymapExample.laws.
#[local] Existing Instance ViaExample.qcfg.
#[local] Existing Instance ViaExample.acfg.

(** Power fails at the forty-first write. *)
Definition failing : vial_state (PowerFail.t KeymapExample.store) :=
  ViaExample.power_up (PowerFail.mk 40 KeymapExample.blank).

Lemma interrupted_reset_not_valid_witness :
  via_eeprom_is_valid (ee (eeconfig_init_via failing)) = false
  \/ PowerFail.real (ee (eeconfig_init_via failing)) = PowerFail.real (ee failing).
Proof.
  refine (interrupted_reset_not_valid failing KeymapExample.fits KeymapExample.example_wf _ _).
  - vm_compute. discriminate.
  - vm_compute. reflexivity.
Defined.
End witnesses.
