(* ===== verification/VialDance.v ===== *)
(** The tap-dance callbacks and the keycode calls of [quantum/vial.c]. *)

From S2P Require Import Prelude.
From S2P Require Import Eeprom.
From S2P Require Import DynamicKeymap.
From S2P Require Import KeymapSlots.
From S2P Require Import KeymapBuffer.
From S2P Require Import QmkSettings.
From S2P Require Import Vial.

Definition QK_MODS_MAX : Z := 0x1FFF.

(** What the callbacks do to the rest of the firmware. [ActionExec] is the
    event of the fake matrix position, which stands for the keycode in
    [g_vial_magic_keycode_override]. *)
Inductive dance_call :=
| RegisterCode16 (kc : Z)
| UnregisterCode16 (kc : Z)
| ActionExec (kc : Z) (pressed : bool)
| QsWaitMs.

(** The state of [process_tap_dance.c] the callbacks read and reset. *)
Record tap_dance_state := mk_td { td_count : Z; td_interrupted : bool; td_pressed : bool }.

(** The static variables, the override, and the calls made so far, the latest
    first. *)
Record dance := mk_dance {
  dance_state : list Z;
  td_entry : list Z;
  g_vial_magic_keycode_override : Z;
  calls : list dance_call;
}.

Definition SINGLE_TAP : Z := 1.
Definition SINGLE_HOLD : Z := 2.
Definition DOUBLE_TAP : Z := 3.
Definition DOUBLE_HOLD : Z := 4.
Definition DOUBLE_SINGLE_TAP : Z := 5.
Definition MORE_TAPS : Z := 6.

Section callbacks.
Context {E : Type} {eeprom : Eeprom E} {cfg : KeymapConfig}.
Implicit Types (d : dance) (t : tap_dance_state) (e : E).

Definition vial_keycode_down (keycode : Z) d : dance :=
  mk_dance (dance_state d) (td_entry d) keycode
    ((if keycode <=? QK_MODS_MAX then RegisterCode16 keycode else ActionExec keycode true) :: calls d).
Definition vial_keycode_up (keycode : Z) d : dance :=
  mk_dance (dance_state d) (td_entry d) keycode
    ((if keycode <=? QK_MODS_MAX then UnregisterCode16 keycode else ActionExec keycode false) :: calls d).
Definition qs_wait_ms d : dance :=
  mk_dance (dance_state d) (td_entry d) (g_vial_magic_keycode_override d) (QsWaitMs :: calls d).
Definition vial_keycode_tap (keycode : Z) d : dance :=
  vial_keycode_up keycode (qs_wait_ms (vial_keycode_down keycode d)).

Definition dance_step t : Z :=
  if td_count t =? 1 then
    if td_interrupted t || negb (td_pressed t) then SINGLE_TAP else SINGLE_HOLD
  else if td_count t =? 2 then
    if td_interrupted t then DOUBLE_SINGLE_TAP
    else if td_pressed t then DOUBLE_HOLD else DOUBLE_TAP
  else MORE_TAPS.

Definition set_td_entry (entry : list Z) d : dance :=
  mk_dance (dance_state d) entry (g_vial_magic_keycode_override d) (calls d).
Definition set_dance_state (index v : Z) d : dance :=
  mk_dance (updZ (dance_state d) index v) (td_entry d) (g_vial_magic_keycode_override d) (calls d).

Definition on_tap d : Z := field16 (td_entry d) 0.
Definition on_hold d : Z := field16 (td_entry d) 1.
Definition on_double_tap d : Z := field16 (td_entry d) 2.
Definition on_tap_hold d : Z := field16 (td_entry d) 3.

(** [if (dynamic_keymap_get_tap_dance(index, &td_entry) != 0) return;] *)
Definition with_entry e (index : Z) d (k : dance -> dance) : dance :=
  let '(ret, entry) := dynamic_keymap_get_tap_dance e index (td_entry d) in
  let d := set_td_entry entry d in
  if negb (ret =? 0) then d else k d.

Definition on_dance e (index : Z) t d : dance :=
  with_entry e index d (fun d =>
    let kc := on_tap d in
    if truthy kc then
      if td_count t =? 3 then vial_keycode_tap kc (vial_keycode_tap kc (vial_keycode_tap kc d))
      else if 3 <? td_count t then vial_keycode_tap kc d else d
    else d).

(** The [switch] of [on_dance_finished]. *)
Definition dance_press (st : Z) d : dance :=
  if st =? SINGLE_TAP then
    if truthy (on_tap d) then vial_keycode_down (on_tap d) d else d
  else if st =? SINGLE_HOLD then
    if truthy (on_hold d) then vial_keycode_down (on_hold d) d
    else if truthy (on_tap d) then vial_keycode_down (on_tap d) d else d
  else if st =? DOUBLE_TAP then
    if truthy (on_double_tap d) then vial_keycode_down (on_double_tap d) d
    else if truthy (on_tap d) then vial_keycode_down (on_tap d) (vial_keycode_tap (on_tap d) d) else d
  else if st =? DOUBLE_HOLD then
    if truthy (on_tap_hold d) then vial_keycode_down (on_tap_hold d) d
    else if truthy (on_tap d) then
      let d' := vial_keycode_tap (on_tap d) d in
      if truthy (on_hold d) then vial_keycode_down (on_hold d) d' else vial_keycode_down (on_tap d) d'
    else if truthy (on_hold d) then vial_keycode_down (on_hold d) d else d
  else if st =? DOUBLE_SINGLE_TAP then
    if truthy (on_tap d) then vial_keycode_down (on_tap d) (vial_keycode_tap (on_tap d) d) else d
  else d.

Definition on_dance_finished e (index : Z) t d : dance :=
  with_entry e index d (fun d => dance_press (dance_step t) (set_dance_state index (dance_step t) d)).

(** The [switch] of [on_dance_reset]. *)
Definition dance_release (st : Z) d : dance :=
  if st =? SINGLE_TAP then
    if truthy (on_tap d) then vial_keycode_up (on_tap d) d else d
  else if st =? SINGLE_HOLD then
    if truthy (on_hold d) then vial_keycode_up (on_hold d) d
    else if truthy (on_tap d) then vial_keycode_up (on_tap d) d else d
  else if st =? DOUBLE_TAP then
    if truthy (on_double_tap d) then vial_keycode_up (on_double_tap d) d
    else if truthy (on_tap d) then vial_keycode_up (on_tap d) d else d
  else if st =? DOUBLE_HOLD then
    if truthy (on_tap_hold d) then vial_keycode_up (on_tap_hold d) d
    else if truthy (on_tap d) then
      if truthy (on_hold d) then vial_keycode_up (on_hold d) d else vial_keycode_up (on_tap d) d
    else if truthy (on_hold d) then vial_keycode_up (on_hold d) d else d
  else if st =? DOUBLE_SINGLE_TAP then
    if truthy (on_tap d) then vial_keycode_up (on_tap d) d else d
  else d.

(** Returns the tap-dance state too, whose count is cleared. *)
Definition on_dance_reset e (index : Z) t d : tap_dance_state * dance :=
  let '(ret, entry) := dynamic_keymap_get_tap_dance e index (td_entry d) in
  let d := set_td_entry entry d in
  if negb (ret =? 0) then (t, d)
  else
    let d := qs_wait_ms d in
    let st := nthZ (dance_state d) index in
    (mk_td 0 (td_interrupted t) (td_pressed t), dance_release st (set_dance_state index 0 d)).

(** [process_record_vial]: whether the dance is finished early, with its
    action's [pressed] cleared; the key is always passed on. *)
Definition process_record_vial e (keycode : Z) (pressed : bool) t d : bool * dance * option (tap_dance_state) :=
  if negb pressed && ((QK_TAP_DANCE <=? keycode) && (keycode <=? QK_TAP_DANCE_MAX)) then
    let idx := u16 (keycode - QK_TAP_DANCE) in
    let '(ret, entry) := dynamic_keymap_get_tap_dance e (u8 idx) (td_entry d) in
    let d := set_td_entry entry d in
    if negb (ret =? 0) then (true, d, None)
    else if ((td_count t =? 1) && truthy (on_tap d) && truthy (on_hold d)
             && negb (truthy (on_double_tap d)) && negb (truthy (on_tap_hold d)))
            || ((td_count t =? 2) && truthy (on_double_tap d))
    then (true, d, Some (mk_td (td_count t) (td_interrupted t) false))
    else (true, d, None)
  else (true, d, None).
End callbacks.

(** ** Presses and releases

    The keycodes that the calls hold down: a press adds its keycode, a release
    removes one press of its keycode. *)
Fixpoint remove_one (kc : Z) (l : list Z) : list Z :=
  match l with
  | [] => []
  | k :: l => if k =? kc then l else k :: remove_one kc l
  end.

Fixpoint held (cs : list dance_call) : list Z :=
  match cs with
  | [] => []
  | RegisterCode16 kc :: cs | ActionExec kc true :: cs => kc :: held cs
  | UnregisterCode16 kc :: cs | ActionExec kc false :: cs => remove_one kc (held cs)
  | QsWaitMs :: cs => held cs
  end.

Section held.
Implicit Types (d : dance).

Lemma held_down kc d : held (calls (vial_keycode_down kc d)) = kc :: held (calls d).
Proof. unfold vial_keycode_down. cbn [calls]. by case_if. Qed.

Lemma held_up kc d l : held (calls d) = kc :: l -> held (calls (vial_keycode_up kc d)) = l.
Proof.
  intros H. unfold vial_keycode_up. cbn [calls]. case_if; cbn [held]; rewrite H; cbn [remove_one];
    by rewrite Z.eqb_refl.
Qed.

Lemma held_wait d : held (calls (qs_wait_ms d)) = held (calls d).
Proof. done. Qed.

Lemma held_tap kc d : held (calls (vial_keycode_tap kc d)) = held (calls d).
Proof. unfold vial_keycode_tap. apply held_up. rewrite held_wait. apply held_down. Qed.

(** A press leaves at most one keycode held, and the release of the same
    state over the same entry lifts it. *)
Lemma press_release st d d' : td_entry d' = td_entry d -> 
  held (calls d') = held (calls (dance_press st d)) ->
  held (calls (dance_release st d')) = held (calls d).
Proof.
  intros He Hh.
  assert (Hf : on_tap d' = on_tap d /\ on_hold d' = on_hold d /\ on_double_tap d' = on_double_tap d
    /\ on_tap_hold d' = on_tap_hold d)
    by (unfold on_tap, on_hold, on_double_tap, on_tap_hold; by rewrite He).
  destruct Hf as (F1 & F2 & F3 & F4). revert Hh. unfold dance_release, dance_press. rewrite F1, F2, F3, F4.
  repeat case_if; intros Hh; try done; rewrite ?held_down, ?held_tap in Hh; try done;
    apply held_up; rewrite Hh, ?held_down, ?held_tap; done.
Qed.
End held.

(** ** Calls without events

    The keycodes of an entry up to [QK_MODS_MAX] are registered and unregistered
    directly. *)
Definition direct (c : dance_call) : Prop := match c with ActionExec _ _ => False | _ => True end.
Definition direct_entry (entry : list Z) : Prop := forall i, 0 <= i < 4 -> field16 entry i <= QK_MODS_MAX.
(** [d'] is [d] after direct calls. *)
Definition directly (d d' : dance) : Prop := exists new, calls d' = new ++ calls d /\ Forall direct new.

Section direct.
Implicit Types (d : dance).

Lemma directly_refl d d' : calls d' = calls d -> directly d d'.
Proof. intros H. exists []. by rewrite H. Qed.
Lemma directly_call d d1 d2 c : directly d d1 -> calls d2 = c :: calls d1 -> direct c -> directly d d2.
Proof. intros (new & E1 & H) E2 Hc. exists (c :: new). rewrite E2, E1. split; [done|by constructor]. Qed.
Lemma directly_down d d1 kc : kc <= QK_MODS_MAX -> directly d d1 -> directly d (vial_keycode_down kc d1).
Proof.
  intros Hk H. apply (directly_call _ _ _ (RegisterCode16 kc) H); [|done]. cbn. by rewrite (proj2 (Z.leb_le _ _) Hk).
Qed.
Lemma directly_up d d1 kc : kc <= QK_MODS_MAX -> directly d d1 -> directly d (vial_keycode_up kc d1).
Proof.
  intros Hk H. apply (directly_call _ _ _ (UnregisterCode16 kc) H); [|done]. cbn. by rewrite (proj2 (Z.leb_le _ _) Hk).
Qed.
Lemma directly_wait d d1 : directly d d1 -> directly d (qs_wait_ms d1).
Proof. intros H. by apply (directly_call _ _ _ QsWaitMs H). Qed.
Lemma directly_tap d d1 kc : kc <= QK_MODS_MAX -> directly d d1 -> directly d (vial_keycode_tap kc d1).
Proof. intros Hk H. by apply directly_up, directly_wait, directly_down. Qed.

Lemma directly_press st d d1 : direct_entry (td_entry d1) -> directly d d1 -> directly d (dance_press st d1).
Proof.
  intros He H. pose proof (He 0) as H0. pose proof (He 1) as H1. pose proof (He 2) as H2. pose proof (He 3) as H3.
  unfold dance_press. repeat case_if; repeat first [exact H|apply directly_down|apply directly_tap];
    unfold on_tap, on_hold, on_double_tap, on_tap_hold; auto with lia.
Qed.
Lemma directly_release st d d1 : direct_entry (td_entry d1) -> directly d d1 -> directly d (dance_release st d1).
Proof.
  intros He H. pose proof (He 0) as H0. pose proof (He 1) as H1. pose proof (He 2) as H2. pose proof (He 3) as H3.
  unfold dance_release. repeat case_if; repeat first [exact H|apply directly_up];
    unfold on_tap, on_hold, on_double_tap, on_tap_hold; auto with lia.
Qed.
End direct.

(** ** The callbacks over a stored entry *)

Section stored.
Context {E : Type} {eeprom : Eeprom E} {cfg : KeymapConfig} {laws : EepromLaws E} (e : E).
Context (Hz : DYNAMIC_KEYMAP_EEPROM_MAX_ADDR < ee_size) (Hok : KeymapConfigOk) (Hw : ee_wf e).
Implicit Types (d : dance) (t : tap_dance_state).

Definition stored_entry (index : Z) : list Z :=
  slice (ee_mem e) (VIAL_TAP_DANCE_EEPROM_ADDR + index * entry_size) entry_size.

Lemma get_stored_entry index entry : 0 <= index < VIAL_TAP_DANCE_ENTRIES -> lenZ entry = entry_size ->
  dynamic_keymap_get_tap_dance e index entry = (0, stored_entry index).
Proof using Hz Hok Hw.
  intros Hi He. pose proof (slot_range (SlotTapDance index) Hi) as (Ha & Hle & _). cbn [slot_address slot_size] in *.
  unfold dynamic_keymap_get_tap_dance. case_if; [lia|]. rewrite ee_read_law by (done || lia). by rewrite He.
Qed.

Lemma stored_entry_length index : 0 <= index < VIAL_TAP_DANCE_ENTRIES -> lenZ (stored_entry index) = entry_size.
Proof using Hz Hok Hw.
  intros Hi. pose proof (slot_range (SlotTapDance index) Hi) as (Ha & Hle & _). cbn [slot_address slot_size] in *.
  by apply lenZ_slice.
Qed.

(** The keycodes a dance holds in a state: none or one. *)
Definition dance_holds (entry : list Z) (st : Z) : list Z := held (calls (dance_press st (mk_dance [] entry 0 []))).

Lemma press_held st d : held (calls (dance_press st d)) = dance_holds (td_entry d) st ++ held (calls d).
Proof using.
  unfold dance_holds, dance_press.
  change (on_tap (mk_dance [] (td_entry d) 0 [])) with (on_tap d).
  change (on_hold (mk_dance [] (td_entry d) 0 [])) with (on_hold d).
  change (on_double_tap (mk_dance [] (td_entry d) 0 [])) with (on_double_tap d).
  change (on_tap_hold (mk_dance [] (td_entry d) 0 [])) with (on_tap_hold d).
  repeat case_if; rewrite ?held_down, ?held_tap; done.
Qed.

Lemma release_held st d rest : held (calls d) ≡ₚ dance_holds (td_entry d) st ++ rest ->
  held (calls (dance_release st d)) ≡ₚ rest.
Proof using.
  assert (Hup : forall kc, held (calls d) ≡ₚ kc :: rest -> held (calls (vial_keycode_up kc d)) ≡ₚ rest).
  { intros kc H. assert (Hh : held (calls (vial_keycode_up kc d)) = remove_one kc (held (calls d)))
      by (unfold vial_keycode_up; cbn [calls]; by case_if).
    rewrite Hh. clear Hh. revert rest H. induction (held (calls d)) as [|k l IH]; intros rest H.
    - by apply Permutation_nil_cons in H.
    - cbn [remove_one]. destruct (Z.eqb_spec k kc) as [->|Hne]; [by apply Permutation_cons_inv in H|].
      assert (Hin : k ∈ rest).
      { assert (Hk : k ∈ kc :: rest) by (rewrite <- H; left). apply elem_of_cons in Hk as [|]; done. }
      apply elem_of_Permutation in Hin as [rest' Hr]. rewrite Hr in H |- *. f_equiv. apply IH.
      rewrite (Permutation_swap k kc rest') in H. by apply Permutation_cons_inv in H. }
  unfold dance_holds, dance_press, dance_release.
  change (on_tap (mk_dance [] (td_entry d) 0 [])) with (on_tap d).
  change (on_hold (mk_dance [] (td_entry d) 0 [])) with (on_hold d).
  change (on_double_tap (mk_dance [] (td_entry d) 0 [])) with (on_double_tap d).
  change (on_tap_hold (mk_dance [] (td_entry d) 0 [])) with (on_tap_hold d).
  repeat case_if; rewrite ?held_down, ?held_tap; try done; apply Hup.
Qed.

Context (index : Z) (d : dance).
Context (Hi : 0 <= index < VIAL_TAP_DANCE_ENTRIES) (Hlen : lenZ (dance_state d) = VIAL_TAP_DANCE_ENTRIES)
        (Hent : lenZ (td_entry d) = entry_size).

Lemma finished_spec t : let d' := on_dance_finished e index t d in
  td_entry d' = stored_entry index /\ dance_state d' = updZ (dance_state d) index (dance_step t)
  /\ held (calls d') = dance_holds (stored_entry index) (dance_step t) ++ held (calls d).
Proof using Hz Hok Hw Hi Hlen Hent.
  unfold on_dance_finished, with_entry. rewrite get_stored_entry by done. cbn [Z.eqb negb].
  rewrite press_held. unfold dance_press. split_and!; by repeat case_if.
Qed.

Lemma reset_spec t rest :
  let r := on_dance_reset e index t d in
  td_entry r.2 = stored_entry index /\ dance_state r.2 = updZ (dance_state d) index 0
  /\ td_count r.1 = 0
  /\ (held (calls d) ≡ₚ dance_holds (stored_entry index) (nthZ (dance_state d) index) ++ rest ->
      held (calls r.2) ≡ₚ rest).
Proof using Hz Hok Hw Hi Hlen Hent.
  unfold on_dance_reset. rewrite get_stored_entry by done. cbn [Z.eqb negb fst snd td_count].
  split_and!; [unfold dance_release; by repeat case_if..|done|]. intros Hh. by apply release_held.
Qed.

Lemma tap_spec t : let d' := on_dance e index t d in
  td_entry d' = stored_entry index /\ dance_state d' = dance_state d /\ held (calls d') = held (calls d).
Proof using Hz Hok Hw Hi Hlen Hent.
  unfold on_dance, with_entry. rewrite get_stored_entry by done. cbn [Z.eqb negb].
  split_and!; repeat case_if; rewrite ?held_tap; done.
Qed.

(** With a direct entry the callbacks make direct calls. *)
Lemma stored_direct t : direct_entry (stored_entry index) ->
  directly d (on_dance e index t d) /\ directly d (on_dance_finished e index t d)
  /\ directly d (on_dance_reset e index t d).2.
Proof using Hz Hok Hw Hi Hent.
  intros He. unfold on_dance, on_dance_finished, on_dance_reset, with_entry. rewrite get_stored_entry by done.
  cbn [Z.eqb negb snd]. split_and!.
  - pose proof (He 0). repeat case_if; try by apply directly_refl.
    all: repeat apply directly_tap; try by apply directly_refl. all: unfold on_tap; cbn [td_entry set_td_entry]; auto with lia.
  - by apply directly_press; [|apply directly_refl].
  - apply directly_release; [done|]. by apply (directly_wait d (set_td_entry (stored_entry index) d)), directly_refl.
Qed.
End stored.

(** A dance that finishes and is then reset, with the same entry in the EEPROM,
    leaves held what was held before, and is idle again. *)
Theorem dance_releases_what_it_presses {E : Type} {eeprom : Eeprom E} {cfg : KeymapConfig}
    {laws : EepromLaws E} (e : E) (index : Z) (t t' : tap_dance_state) (d : dance) :
  DYNAMIC_KEYMAP_EEPROM_MAX_ADDR < ee_size -> KeymapConfigOk -> ee_wf e ->
  0 <= index < VIAL_TAP_DANCE_ENTRIES -> lenZ (dance_state d) = VIAL_TAP_DANCE_ENTRIES ->
  lenZ (td_entry d) = entry_size ->
  let r := on_dance_reset e index t' (on_dance_finished e index t d) in
  held (calls r.2) = held (calls d) /\ td_count r.1 = 0 /\ nthZ (dance_state r.2) index = 0.
Proof.
  intros Hz Hok Hw Hi Hl Hent. unfold on_dance_finished, with_entry. rewrite get_stored_entry by done. cbn [Z.eqb negb].
  set (st := dance_step t). set (d1 := set_dance_state index st (set_td_entry (stored_entry e index) d)).
  assert (He1 : td_entry (dance_press st d1) = stored_entry e index
                /\ dance_state (dance_press st d1) = updZ (dance_state d) index st)
    by (unfold dance_press; repeat case_if; done).
  destruct He1 as [He1 Hs1]. unfold on_dance_reset.
  rewrite get_stored_entry by (rewrite ?He1; (done || by apply stored_entry_length)). cbn [Z.eqb negb fst snd td_count].
  assert (Hst : nthZ (dance_state (qs_wait_ms (set_td_entry (stored_entry e index) (dance_press st d1)))) index = st)
    by (cbn [dance_state qs_wait_ms set_td_entry]; rewrite Hs1; apply nthZ_updZ_eq; lia).
  rewrite Hst. split; [|split; [done|]]; [by apply (press_release st d1)|].
  assert (Hrel : forall x, dance_state (dance_release st x) = dance_state x)
    by (intros x; unfold dance_release; repeat case_if; done).
  rewrite Hrel. cbn [dance_state set_dance_state qs_wait_ms set_td_entry]. rewrite Hs1.
  apply nthZ_updZ_eq. rewrite lenZ_updZ. lia.
Qed.
