(* ===== verification/ViaLock.v ===== *)
(** The lock of the Vial protocol: what it takes to unlock the keyboard, and
    what the reports of the host cannot do while it is locked. *)

From S2P Require Import Prelude.
From S2P Require Import Eeprom.
From S2P Require Import DynamicKeymap.
From S2P Require Import Eeconfig.
From S2P Require Import KeymapSlots.
From S2P Require Import KeymapBuffer.
From S2P Require Import QmkSettings.
From S2P Require Import QmkSettingsProofs.
From S2P Require Import Vial.
From S2P Require Import Via.
From S2P Require Import ViaReset.

(** The last element of a list, or the element before it. *)
Lemma last_default_irrel {A} (x : A) l d d' : List.last (x :: l) d = List.last (x :: l) d'.
Proof. revert x. induction l as [|y l IH]; intros x; [done|]. exact (IH y). Qed.

Lemma last_in {A} (l : list A) (d : A) : List.last l d ∈ d :: l.
Proof.
  induction l as [|x l IH]; [left|]. destruct l as [|y l]; [right; left|].
  change (List.last (x :: y :: l) d) with (List.last (y :: l) d).
  apply elem_of_cons in IH as [IH|IH]; [rewrite IH; left|]. do 2 right. exact IH.
Qed.

Lemma sublist_singleton {A} (x : A) l : x ∈ l -> sublist [x] l.
Proof.
  intros (l1 & l2 & ->)%list_elem_of_split. apply sublist_inserts_l, sublist_skip, sublist_nil_l.
Qed.

(** A report, with the clock and the matrix at its arrival. *)
Definition report : Type := env * list Z.

Section lock.
Context {E : Type} {eeprom : Eeprom E} {cfg : KeymapConfig} {qcfg : QmkSettingsConfig}
        {vcfg : VialConfig} {acfg : ViaConfig}.
Implicit Types (s : vial_state E) (r : report) (rs ps : list report).

Definition receive s r : vial_state E := (raw_hid_receive r.1 r.2 VIAL_RAW_EPSIZE s).2.

(** The four lock variables. *)
Definition lock_of s : Z * Z * Z * Z :=
  (vial_unlocked s, vial_unlock_in_progress s, vial_unlock_counter s, vial_unlock_timer s).

Definition is_vial r (cmd : Z) : bool := (nthZ r.2 0 =? id_vial_prefix) && (nthZ r.2 1 =? cmd).

Lemma reset_lock s : lock_of (dynamic_keymap_reset s) = lock_of s.
Proof. done. Qed.

Lemma entry_lock msg s : lock_of (vial_dynamic_entry msg s).2 = lock_of s.
Proof. unfold vial_dynamic_entry. repeat case_if; repeat case_match; done. Qed.

(** Only three commands touch the lock. *)
Lemma handle_lock v msg s :
  nthZ msg 1 <> vial_unlock_start -> nthZ msg 1 <> vial_unlock_poll -> nthZ msg 1 <> vial_lock ->
  lock_of (vial_handle_cmd v msg VIAL_RAW_EPSIZE s).2 = lock_of s.
Proof.
  intros H1 H2 H3. unfold vial_handle_cmd. cbn [negb]. change (VIAL_RAW_EPSIZE =? VIAL_RAW_EPSIZE) with true.
  cbn [negb]. cbv zeta.
  do 6 (case_if; [repeat case_if; done|]).
  case_if; [done|]. case_if; [done|]. case_if; [done|].
  case_if; [done|]. case_if; [by repeat case_match|]. case_if; [by repeat case_match|].
  case_if; [done|]. case_if; [apply entry_lock|done].
Qed.

Lemma receive_lock s r : is_vial r vial_unlock_start = false -> is_vial r vial_unlock_poll = false ->
  is_vial r vial_lock = false -> lock_of (receive s r) = lock_of s.
Proof.
  destruct r as [v data]. unfold is_vial, receive. cbn [fst snd]. intros H1 H2 H3.
  unfold raw_hid_receive. case_if; [done|].
  assert (Hc : lock_of (via_command v data VIAL_RAW_EPSIZE s).2 = lock_of s).
  { unfold via_command. cbv zeta.
    do 2 (case_if; [done|]). case_if; [case_if; done|]. do 2 (case_if; [done|]).
    case_if; [apply reset_lock|]. do 4 (case_if; [done|]).
    case_if; [repeat case_if; done|]. do 3 (case_if; [done|]).
    case_if; [case_if; [|done]; by destruct (dynamic_keymap_set_buffer _ _ _ _ _ _)|].
    case_if; [case_if; done|]. case_if; [|done].
    cbn [andb] in H1, H2, H3. b2p.
    pose proof (handle_lock v data s H1 H2 H3) as Hh. revert Hh.
    generalize (vial_handle_cmd v data VIAL_RAW_EPSIZE s). intros [data' s'] Hh. exact Hh. }
  destruct (via_command v data VIAL_RAW_EPSIZE s) as [[data' outs] s']. exact Hc.
Qed.

(** ** Unlocking *)

(** Polls that count: each comes while all unlock keys are held, more than
    100 ms (modulo the 16-bit clock) after the one before. *)
Fixpoint counted (t : Z) ps : Prop :=
  match ps with
  | [] => True
  | p :: ps => is_vial p vial_unlock_poll = true /\ unlock_holding p.1 = true
               /\ 100 < timer_elapsed p.1 t /\ counted (timer_read p.1) ps
  end.

Definition last_time (r0 : report) ps : Z := timer_read (List.last ps r0).1.

Lemma counted_snoc t ps p r0 : t = timer_read r0.1 -> counted t ps ->
  is_vial p vial_unlock_poll = true -> unlock_holding p.1 = true ->
  100 < timer_elapsed p.1 (last_time r0 ps) -> counted t (ps ++ [p]).
Proof.
  intros ->. revert r0. induction ps as [|q ps IH]; intros r0 Hc Hp Hh Ht; [done|].
  destruct Hc as (Hq & Hqh & Hqt & Hc). cbn [app counted]. split; [done|]. split; [done|]. split; [done|].
  apply (IH q); [done..|]. revert Ht. unfold last_time. destruct ps; [done|]. by rewrite (last_default_irrel _ _ r0 q).
Qed.

Lemma last_time_snoc r0 ps p : last_time r0 (ps ++ [p]) = timer_read p.1.
Proof. unfold last_time. by rewrite last_last. Qed.

(** There were fifty polls that counted, after some earlier report. *)
Definition held_long rs : Prop := exists r0 ps,
  sublist (r0 :: ps) rs /\ length ps = 50%nat /\ counted (timer_read r0.1) ps.

(** While an unlock is under way the counter tells how many polls counted. *)
Definition lock_inv rs s : Prop :=
  vial_unlocked s = 0
  /\ (vial_unlock_in_progress s <> 0 -> exists r0 ps,
        sublist (r0 :: ps) rs /\ counted (timer_read r0.1) ps
        /\ lenZ ps = VIAL_UNLOCK_COUNTER_MAX - vial_unlock_counter s
        /\ 0 < vial_unlock_counter s /\ vial_unlock_timer s = last_time r0 ps).

Lemma lock_inv_same rs s s' r : lock_inv rs s -> lock_of s' = lock_of s -> lock_inv (rs ++ [r]) s'.
Proof.
  intros [Hu Hp] [= E1 E2 E3 E4]. split; [congruence|]. rewrite E2, E3, E4. intros H.
  destruct (Hp H) as (r0 & ps & Hs & ?). exists r0, ps. split; [|done].
  by apply sublist_inserts_r.
Qed.

(** One report. *)
Lemma receive_vial s r cmd : is_vial r cmd = true ->
  receive s r = if truthy (vial_unlock_in_progress s) && negb (unlock_command r.2) then s
                else (vial_handle_cmd r.1 r.2 VIAL_RAW_EPSIZE s).2.
Proof.
  unfold is_vial. intros H. b2p. unfold receive, raw_hid_receive. case_if; [done|].
  unfold via_command. cbv zeta. rewrite H.
  repeat match goal with |- context [?a =? ?b] =>
    change (id_vial_prefix =? b) with false || change (id_vial_prefix =? b) with true end.
  cbv iota. cbn [orb]. by destruct (vial_handle_cmd r.1 r.2 VIAL_RAW_EPSIZE s).
Qed.

Lemma handle_start v msg s : nthZ msg 1 = vial_unlock_start ->
  (vial_handle_cmd v msg VIAL_RAW_EPSIZE s).2
  = set_lock (vial_unlocked s) 1 VIAL_UNLOCK_COUNTER_MAX (timer_read v) s.
Proof. intros H. unfold vial_handle_cmd. by rewrite H. Qed.

Lemma handle_poll v msg s : nthZ msg 1 = vial_unlock_poll ->
  (vial_handle_cmd v msg VIAL_RAW_EPSIZE s).2 = vial_poll v s.
Proof. intros H. unfold vial_handle_cmd. by rewrite H. Qed.

Lemma handle_lock_cmd v msg s : nthZ msg 1 = vial_lock ->
  (vial_handle_cmd v msg VIAL_RAW_EPSIZE s).2
  = set_lock 0 (vial_unlock_in_progress s) (vial_unlock_counter s) (vial_unlock_timer s) s.
Proof. intros H. unfold vial_handle_cmd. by rewrite H. Qed.

Lemma poll_step rs s r : lock_inv rs s -> is_vial r vial_unlock_poll = true ->
  lock_inv (rs ++ [r]) (vial_poll r.1 s) \/ held_long (rs ++ [r]).
Proof.
  intros [Hu Hp] Hr. unfold vial_poll. destruct (truthy (vial_unlock_in_progress s)) eqn:Ep.
  2: { left. apply (lock_inv_same rs s); [done|done]. }
  assert (Hip : vial_unlock_in_progress s <> 0) by (unfold truthy in Ep; b2p; done).
  destruct (Hp Hip) as (r0 & ps & Hs & Hc & Hl & Hpos & Ht).
  case_if.
  - assert (Hc' : counted (timer_read r0.1) (ps ++ [r]))
      by (apply (counted_snoc _ ps r r0); [done|done|done|done|by rewrite <- Ht]).
    assert (Hs' : sublist (r0 :: ps ++ [r]) (rs ++ [r]))
      by (rewrite app_comm_cons; by apply sublist_app).
    case_if.
    + right. exists r0, (ps ++ [r]). split; [done|]. split; [|done].
      rewrite length_app. unfold lenZ, VIAL_UNLOCK_COUNTER_MAX in Hl. cbn [length]. lia.
    + left. split; [done|]. intros _. exists r0, (ps ++ [r]). split; [done|]. split; [done|].
      rewrite lenZ_app, last_time_snoc. cbn [vial_unlock_counter vial_unlock_timer set_lock].
      change (lenZ [r]) with 1. split; [lia|]. split; [lia|done].
  - left. split; [done|]. intros _. cbn [vial_unlock_counter vial_unlock_timer set_lock].
    exists (List.last ps r0), []. split; [|split; [done|split; [by rewrite Z.sub_diag|done]]].
    apply sublist_inserts_r. etrans; [apply sublist_singleton, last_in|exact Hs].
Qed.

Lemma receive_step rs s r : lock_inv rs s ->
  lock_inv (rs ++ [r]) (receive s r) \/ held_long (rs ++ [r]).
Proof.
  intros Hi. destruct (is_vial r vial_unlock_start) eqn:E1.
  { left. rewrite (receive_vial _ _ _ E1). case_if; [by apply (lock_inv_same rs s)|].
    pose proof E1 as E'. unfold is_vial in E'. b2p. rewrite handle_start by done.
    destruct Hi as [Hu _]. split; [done|]. intros _. exists r, [].
    split; [apply sublist_inserts_l; done|done]. }
  destruct (is_vial r vial_unlock_poll) eqn:E2.
  { rewrite (receive_vial _ _ _ E2). case_if; [left; by apply (lock_inv_same rs s)|].
    pose proof E2 as E'. unfold is_vial in E'. b2p. rewrite handle_poll by done.
    by apply poll_step. }
  left. destruct (is_vial r vial_lock) eqn:E3.
  { rewrite (receive_vial _ _ _ E3). case_if; [by apply (lock_inv_same rs s)|].
    pose proof E3 as E'. unfold is_vial in E'. b2p. rewrite handle_lock_cmd by done.
    apply (lock_inv_same rs s); [done|]. destruct Hi as [Hu _]. unfold lock_of. by rewrite Hu. }
  apply (lock_inv_same rs s); [done|]. by apply receive_lock.
Qed.

Lemma held_long_snoc rs r : held_long rs -> held_long (rs ++ [r]).
Proof.
  intros (r0 & ps & Hs & ?). exists r0, ps. split; [|done]. by apply sublist_inserts_r.
Qed.

(** C5: a locked keyboard is unlocked only by somebody who holds the unlock
    keys. Whatever reports the host sends to a keyboard that starts locked,
    with no unlock under way, if it ends up unlocked then there are fifty
    unlock polls among the reports, each received while all keys of the
    unlock combination were held and more than 100 ms (of the 16-bit timer)
    after the previous one. *)
Theorem unlock_needs_presence rs s :
  vial_unlocked s = 0 -> vial_unlock_in_progress s = 0 ->
  vial_unlocked (foldl receive s rs) <> 0 -> held_long rs.
Proof.
  intros Hu Hp Hend.
  assert (H : lock_inv rs (foldl receive s rs) \/ held_long rs).
  { clear Hend. induction rs as [|r rs IH] using rev_ind; [left; done|].
    rewrite foldl_app. cbn [foldl]. destruct IH as [Hi|Hh]; [by apply receive_step|].
    right. by apply held_long_snoc. }
  destruct H as [[H _]|H]; done.
Qed.
End lock.

(** ** Witness *)

Section witnesses.
#[local] Existing Instance KeymapExample.config.
#[local] Existing Instance ViaExample.qcfg.
#[local] Existing Instance ViaExample.vcfg.
#[local] Existing Instance ViaExample.acfg.

(** The unlock keys held, the clock at [t]. *)
Definition holding (t : Z) : env := mk_env t (fun row => if row =? 0 then 1 else 4).

(** A start and fifty polls, 101 ms apart. *)
Definition unlock_session : list report :=
  (holding 0, id_vial_prefix :: vial_unlock_start :: memset 0 30)
    :: map (fun i => (holding (101 * i), id_vial_prefix :: vial_unlock_poll :: memset 0 30)) (seqZ 1 50).

Lemma unlock_needs_presence_witness :
  vial_unlocked (foldl receive (ViaExample.power_up KeymapExample.blank) unlock_session) <> 0
  /\ held_long unlock_session.
Proof.
  assert (H : vial_unlocked (foldl receive (ViaExample.power_up KeymapExample.blank) unlock_session) <> 0)
    by (vm_compute; discriminate).
  split; [exact H|].
  exact (unlock_needs_presence unlock_session (ViaExample.power_up KeymapExample.blank) eq_refl eq_refl H).
Defined.
End witnesses.
