(* ===== verification/Debounce.v ===== *)
(** Debouncing: the algorithms of [quantum/debounce/], one Module each, and
    the part of [matrix_scan] of [quantum/matrix.c] that calls them. The
    definitions; the proofs are in DebounceCells and DebounceProofs. *)

From S2P Require Import Prelude.

Class DebounceConfig := {
  (** [DEBOUNCE] of the keyboard, milliseconds. *)
  DEBOUNCE_MS : Z;
  num_rows : Z;
  num_cols : Z;
  FAST_TIMER_T_SIZE : Z;
}.

Class DebounceConfigOk (cfg : DebounceConfig) : Prop := {
  debounce_positive : 0 < DEBOUNCE_MS;
  rows_nonneg : 0 <= num_rows;
  cols_nonneg : 0 <= num_cols;
  fast_timer_size : FAST_TIMER_T_SIZE = 16 \/ FAST_TIMER_T_SIZE = 32;
}.

Definition UINT8_MAX : Z := 255.
Definition DEBOUNCE_ELAPSED : Z := 0.

(** The statics of an algorithm with counters of type [C], and the cooked
    matrix it updates. *)
Record statics (C : Type) := mk_statics {
  counters : list C;
  last_time : Z;
  counters_need_update : bool;
  matrix_need_update : bool;
  cooked_changed : bool;
  cooked : list Z;
}.
Arguments mk_statics {C} _ _ _ _ _ _.
Arguments counters {C} _.
Arguments last_time {C} _.
Arguments counters_need_update {C} _.
Arguments matrix_need_update {C} _.
Arguments cooked_changed {C} _.
Arguments cooked {C} _.

Section statics.
Context {C : Type} `{Inhabited C}.
Implicit Types s : statics C.

Definition counter s (i : Z) : C := counters s !!! Z.to_nat i.
Definition set_counter (i : Z) (c : C) s : statics C :=
  mk_statics (<[Z.to_nat i := c]> (counters s)) (last_time s) (counters_need_update s)
    (matrix_need_update s) (cooked_changed s) (cooked s).
Definition set_last_time (t : Z) s : statics C :=
  mk_statics (counters s) t (counters_need_update s) (matrix_need_update s) (cooked_changed s) (cooked s).
Definition set_counters_need_update (b : bool) s : statics C :=
  mk_statics (counters s) (last_time s) b (matrix_need_update s) (cooked_changed s) (cooked s).
Definition set_matrix_need_update (b : bool) s : statics C :=
  mk_statics (counters s) (last_time s) (counters_need_update s) b (cooked_changed s) (cooked s).
Definition set_cooked_changed (b : bool) s : statics C :=
  mk_statics (counters s) (last_time s) (counters_need_update s) (matrix_need_update s) b (cooked s).
Definition set_cooked (row w : Z) s : statics C :=
  mk_statics (counters s) (last_time s) (counters_need_update s) (matrix_need_update s)
    (cooked_changed s) (updZ (cooked s) row w).

(** The statics after [debounce_init], over an empty matrix. *)
Definition statics_init (n rows : Z) (c : C) : statics C :=
  mk_statics (replicate (Z.to_nat n) c) 0 false false false (memset 0 rows).
End statics.

Section algorithms.
Context {cfg : DebounceConfig}.
Implicit Types (raw : list Z) (changed : bool).

Definition TIMER_DIFF_FAST (a b : Z) : Z := (a - b) mod 2 ^ FAST_TIMER_T_SIZE.

(** [debounce], which the algorithms with counters share but for the two
    passes and the condition of the second. *)
Definition debounce_with {C} (update : Z -> statics C -> statics C)
    (transfer : statics C -> statics C) (retry : statics C -> bool)
    (now : Z) changed (s : statics C) : bool * statics C :=
  let s := set_cooked_changed false s in
  let '(updated_last, s) :=
    if counters_need_update s then
      let elapsed_time := TIMER_DIFF_FAST now (last_time s) in
      let s := set_last_time now s in
      let elapsed_time := if UINT8_MAX <? elapsed_time then UINT8_MAX else elapsed_time in
      (true, if 0 <? elapsed_time then update elapsed_time s else s)
    else (false, s) in
  let s :=
    if changed || retry s
    then transfer (if updated_last : bool then s else set_last_time now s)
    else s in
  (cooked_changed s, s).

(** The two nested loops over the keys. *)
Definition for_keys {S} (body : Z -> Z -> S -> S) (s : S) : S :=
  for_Z 0 num_rows (fun row s => for_Z 0 num_cols (body row) s) s.

(** The place [debounce_pointer] has reached at a key. *)
Definition pointer (row col : Z) : Z := row * num_cols + col.

Definition col_mask (col : Z) : Z := 1 << col.

(** [DEBOUNCE] as the files with an eight-bit counter limit it. *)
Definition DEBOUNCE : Z := if UINT8_MAX <? DEBOUNCE_MS then UINT8_MAX else DEBOUNCE_MS.
End algorithms.

(** *** [sym_defer_pk.c] *)
Module SymDeferPk.
Section algorithm.
Context {cfg : DebounceConfig}.
Implicit Types (raw : list Z) (s : statics Z).

Definition debounce_init : statics Z := statics_init (num_rows * num_cols) num_rows DEBOUNCE_ELAPSED.

Definition update_debounce_counters_and_transfer_if_expired raw (elapsed_time : Z) s : statics Z :=
  let s := set_counters_need_update false s in
  for_keys (fun row col s =>
    let i := pointer row col in
    if negb (counter s i =? DEBOUNCE_ELAPSED) then
      if counter s i <=? elapsed_time then
        let s := set_counter i DEBOUNCE_ELAPSED s in
        let cooked_next := (nthZ (cooked s) row .& Z.lnot (col_mask col)) .| (nthZ raw row .& col_mask col) in
        let s := set_cooked_changed (cooked_changed s || truthy (nthZ (cooked s) row .^ cooked_next)) s in
        set_cooked row cooked_next s
      else
        set_counters_need_update true (set_counter i (counter s i - elapsed_time) s)
    else s) s.

Definition start_debounce_counters raw s : statics Z :=
  for_Z 0 num_rows (fun row s =>
    let delta := nthZ raw row .^ nthZ (cooked s) row in
    for_Z 0 num_cols (fun col s =>
      let i := pointer row col in
      if truthy (delta .& col_mask col) then
        if counter s i =? DEBOUNCE_ELAPSED then
          set_counters_need_update true (set_counter i DEBOUNCE s)
        else s
      else set_counter i DEBOUNCE_ELAPSED s) s) s.

Definition debounce raw (now : Z) (changed : bool) s : bool * statics Z :=
  debounce_with (update_debounce_counters_and_transfer_if_expired raw) (start_debounce_counters raw)
    (fun _ => false) now changed s.
End algorithm.
End SymDeferPk.

(** *** [sym_eager_pk.c] *)
Module SymEagerPk.
Section algorithm.
Context {cfg : DebounceConfig}.
Implicit Types (raw : list Z) (s : statics Z).

Definition debounce_init : statics Z := statics_init (num_rows * num_cols) num_rows DEBOUNCE_ELAPSED.

Definition update_debounce_counters (elapsed_time : Z) s : statics Z :=
  let s := set_matrix_need_update false (set_counters_need_update false s) in
  for_keys (fun row col s =>
    let i := pointer row col in
    if negb (counter s i =? DEBOUNCE_ELAPSED) then
      if counter s i <=? elapsed_time then
        set_matrix_need_update true (set_counter i DEBOUNCE_ELAPSED s)
      else
        set_counters_need_update true (set_counter i (counter s i - elapsed_time) s)
    else s) s.

(** The inner loop carries [existing_row], stored when it ends. *)
Definition transfer_matrix_values raw s : statics Z :=
  let s := set_matrix_need_update false s in
  for_Z 0 num_rows (fun row s =>
    let delta := nthZ raw row .^ nthZ (cooked s) row in
    let existing_row := nthZ (cooked s) row in
    let '(s, existing_row) := for_Z 0 num_cols (fun col '(s, existing_row) =>
      let i := pointer row col in
      if truthy (delta .& col_mask col) then
        if counter s i =? DEBOUNCE_ELAPSED then
          let s := set_counters_need_update true (set_counter i DEBOUNCE s) in
          (set_cooked_changed true s, existing_row .^ col_mask col)
        else (s, existing_row)
      else (s, existing_row)) (s, existing_row) in
    set_cooked row existing_row s) s.

Definition debounce raw (now : Z) (changed : bool) s : bool * statics Z :=
  debounce_with update_debounce_counters (transfer_matrix_values raw) matrix_need_update now changed s.
End algorithm.
End SymEagerPk.

(** *** [asym_eager_defer_pk.c] *)
Module AsymEagerDeferPk.
(** A bit-field of one bit and one of seven. *)
Record debounce_counter_t := mk_counter { pressed : bool; time : Z }.
#[export] Instance counter_inhabited : Inhabited debounce_counter_t := populate (mk_counter false 0).

Section algorithm.
Context {cfg : DebounceConfig}.
Implicit Types (raw : list Z) (s : statics debounce_counter_t).

(** [DEBOUNCE] as this file limits it, to seven bits. *)
Definition DEBOUNCE : Z := if 127 <? DEBOUNCE_MS then 127 else DEBOUNCE_MS.

(** [malloc] leaves [pressed] undefined; it is not read while [time] is 0. *)
Definition debounce_init (pressed0 : bool) : statics debounce_counter_t :=
  statics_init (num_rows * num_cols) num_rows (mk_counter pressed0 DEBOUNCE_ELAPSED).

Definition set_time (i t : Z) s := set_counter i (mk_counter (pressed (counter s i)) t) s.
Definition set_pressed (i : Z) (p : bool) s := set_counter i (mk_counter p (time (counter s i))) s.

Definition update_debounce_counters_and_transfer_if_expired raw (elapsed_time : Z) s
    : statics debounce_counter_t :=
  let s := set_matrix_need_update false (set_counters_need_update false s) in
  for_keys (fun row col s =>
    let i := pointer row col in
    if negb (time (counter s i) =? DEBOUNCE_ELAPSED) then
      if time (counter s i) <=? elapsed_time then
        let s := set_time i DEBOUNCE_ELAPSED s in
        if pressed (counter s i) then set_matrix_need_update true s
        else
          let cooked_next := (nthZ (cooked s) row .& Z.lnot (col_mask col)) .| (nthZ raw row .& col_mask col) in
          let s := set_cooked_changed (cooked_changed s || truthy (cooked_next .^ nthZ (cooked s) row)) s in
          set_cooked row cooked_next s
      else
        set_counters_need_update true (set_time i (time (counter s i) - elapsed_time) s)
    else s) s.

Definition transfer_matrix_values raw s : statics debounce_counter_t :=
  let s := set_matrix_need_update false s in
  for_Z 0 num_rows (fun row s =>
    let delta := nthZ raw row .^ nthZ (cooked s) row in
    for_Z 0 num_cols (fun col s =>
      let i := pointer row col in
      if truthy (delta .& col_mask col) then
        if time (counter s i) =? DEBOUNCE_ELAPSED then
          let s := set_pressed i (truthy (nthZ raw row .& col_mask col)) s in
          let s := set_time i DEBOUNCE s in
          let s := set_counters_need_update true s in
          if pressed (counter s i) then
            set_cooked_changed true (set_cooked row (nthZ (cooked s) row .^ col_mask col) s)
          else s
        else s
      else if negb (time (counter s i) =? DEBOUNCE_ELAPSED) then
        if negb (pressed (counter s i)) then set_time i DEBOUNCE_ELAPSED s else s
      else s) s) s.

Definition debounce raw (now : Z) (changed : bool) s : bool * statics debounce_counter_t :=
  debounce_with (update_debounce_counters_and_transfer_if_expired raw) (transfer_matrix_values raw)
    matrix_need_update now changed s.
End algorithm.
End AsymEagerDeferPk.

(** *** [sym_eager_pr.c] *)
Module SymEagerPr.
Section algorithm.
Context {cfg : DebounceConfig}.
Implicit Types (raw : list Z) (s : statics Z).

Definition debounce_init : statics Z := statics_init num_rows num_rows DEBOUNCE_ELAPSED.

Definition update_debounce_counters (elapsed_time : Z) s : statics Z :=
  let s := set_matrix_need_update false (set_counters_need_update false s) in
  for_Z 0 num_rows (fun row s =>
    if negb (counter s row =? DEBOUNCE_ELAPSED) then
      if counter s row <=? elapsed_time then
        set_matrix_need_update true (set_counter row DEBOUNCE_ELAPSED s)
      else
        set_counters_need_update true (set_counter row (counter s row - elapsed_time) s)
    else s) s.

Definition transfer_matrix_values raw s : statics Z :=
  let s := set_matrix_need_update false s in
  for_Z 0 num_rows (fun row s =>
    let existing_row := nthZ (cooked s) row in
    let raw_row := nthZ raw row in
    if negb (existing_row =? raw_row) then
      if counter s row =? DEBOUNCE_ELAPSED then
        let s := set_counter row DEBOUNCE s in
        let s := set_cooked_changed (cooked_changed s || truthy (nthZ (cooked s) row .^ raw_row)) s in
        set_counters_need_update true (set_cooked row raw_row s)
      else s
    else s) s.

Definition debounce raw (now : Z) (changed : bool) s : bool * statics Z :=
  debounce_with update_debounce_counters (transfer_matrix_values raw) matrix_need_update now changed s.
End algorithm.
End SymEagerPr.

(** *** [sym_defer_pr.c] *)
Module SymDeferPr.
Record state := mk_state {
  last_time : Z;
  countdowns : list Z;
  last_raw : list Z;
  cooked : list Z;
}.

Section algorithm.
Context {cfg : DebounceConfig}.
Implicit Types (raw : list Z) (s : state).

(** The clock is the sixteen-bit one. *)
Definition debounce_init (now : Z) : state :=
  mk_state now (memset 0 num_rows) (memset 0 num_rows) (memset 0 num_rows).

(** [*countdown = DEBOUNCE] converts to eight bits; nothing limits it. *)
Definition debounce_row raw (elapsed row : Z) '(s, cooked_changed) : state * bool :=
  let raw_row := nthZ raw row in
  let countdown := nthZ (countdowns s) row in
  if negb (raw_row =? nthZ (last_raw s) row) then
    (mk_state (last_time s) (updZ (countdowns s) row (u8 DEBOUNCE_MS)) (updZ (last_raw s) row raw_row)
       (cooked s), cooked_changed)
  else if elapsed <? countdown then
    (mk_state (last_time s) (updZ (countdowns s) row (countdown - elapsed)) (last_raw s) (cooked s),
     cooked_changed)
  else if truthy countdown then
    (mk_state (last_time s) (updZ (countdowns s) row 0) (last_raw s) (updZ (cooked s) row raw_row),
     cooked_changed || truthy (nthZ (cooked s) row .^ raw_row))
  else (s, cooked_changed).

Definition debounce raw (now : Z) (changed : bool) s : bool * state :=
  let elapsed16 := TIMER_DIFF_16 now (last_time s) in
  let s := mk_state now (countdowns s) (last_raw s) (cooked s) in
  let elapsed := if 255 <? elapsed16 then 255 else elapsed16 in
  let '(s, cooked_changed) := for_Z 0 num_rows (debounce_row raw elapsed) (s, false) in
  (cooked_changed, s).
End algorithm.
End SymDeferPr.

(** *** [none.c] and [sym_defer_g.c]: [memcmp] and [memcpy] of the matrix *)
Module NoDebounce.
Definition debounce (raw : list Z) (changed : bool) (cooked : list Z) : bool * list Z :=
  if changed then
    if negb (bool_decide (cooked = raw)) then (true, raw) else (false, cooked)
  else (false, cooked).
End NoDebounce.

Module SymDeferG.
Record state := mk_state { debouncing : bool; debouncing_time : Z; cooked : list Z }.

Section algorithm.
Context {cfg : DebounceConfig}.

Definition debounce_init : state := mk_state false 0 (memset 0 num_rows).

Definition debounce (raw : list Z) (now : Z) (changed : bool) (s : state) : bool * state :=
  if changed then (false, mk_state true now (cooked s))
  else if debouncing s && (DEBOUNCE <=? TIMER_DIFF_FAST now (debouncing_time s)) then
    if negb (bool_decide (cooked s = raw)) then (true, mk_state false (debouncing_time s) raw)
    else (false, mk_state false (debouncing_time s) (cooked s))
  else (false, s).
End algorithm.
End SymDeferG.

(** *** [matrix_scan], after the pins have been read into [curr_matrix] *)
Definition matrix_scan {S} (debounce : list Z -> Z -> bool -> S -> bool * S)
    (curr_matrix : list Z) (now : Z) (st : list Z * S) : bool * (list Z * S) :=
  let '(raw_matrix, s) := st in
  let changed := negb (bool_decide (raw_matrix = curr_matrix)) in
  let raw_matrix := if changed then curr_matrix else raw_matrix in
  let '(changed, s) := debounce raw_matrix now changed s in
  (changed, (raw_matrix, s)).
