(* ===== verification/DebounceCells.v ===== *)
(** The cells of a debounced matrix. A pass over the matrix acts on each cell
    (a key, or a row) by itself; [debounce_with] then acts on each cell as an
    automaton of its own counter, whatever the other cells do. *)

From S2P Require Import Prelude.
From S2P Require Import Debounce.

(** ** Bits of a row *)

Lemma testbit_col_mask col i : 0 <= col -> Z.testbit (col_mask col) i = (i =? col).
Proof.
  intros. unfold col_mask. rewrite Z.shiftl_1_l. rewrite Z.pow2_bits_eqb by done. apply Z.eqb_sym.
Qed.

Lemma truthy_col w col : 0 <= col -> truthy (w .& col_mask col) = Z.testbit w col.
Proof. apply truthy_bit. Qed.

Definition cooked_next (cooked raw col : Z) : Z := (cooked .& Z.lnot (col_mask col)) .| (raw .& col_mask col).

Lemma testbit_cooked_next w r col i : 0 <= col -> 0 <= i ->
  Z.testbit (cooked_next w r col) i = if i =? col then Z.testbit r i else Z.testbit w i.
Proof.
  intros Hc Hi. unfold cooked_next.
  rewrite Z.lor_spec, !Z.land_spec, Z.lnot_spec, testbit_col_mask by done.
  destruct (i =? col); cbn; by rewrite ?andb_true_r, ?andb_false_r, ?orb_false_r, ?orb_false_l.
Qed.

Lemma testbit_toggle w col i : 0 <= col ->
  Z.testbit (w .^ col_mask col) i = if i =? col then negb (Z.testbit w i) else Z.testbit w i.
Proof.
  intros. rewrite Z.lxor_spec, testbit_col_mask by done.
  destruct (i =? col), (Z.testbit w i); done.
Qed.

Lemma truthy_lxor a b : truthy (a .^ b) = negb (a =? b).
Proof.
  unfold truthy. f_equal. apply eq_iff_eq_true. rewrite !Z.eqb_eq. apply Z.lxor_eq_0_iff.
Qed.

Lemma truthy_lxor_next w r col : 0 <= col ->
  truthy (w .^ cooked_next w r col) = xorb (Z.testbit w col) (Z.testbit r col).
Proof.
  intros H. rewrite truthy_lxor. destruct (w =? cooked_next w r col) eqn:E; b2p.
  - assert (Hb : Z.testbit w col = Z.testbit (cooked_next w r col) col) by congruence.
    rewrite testbit_cooked_next, Z.eqb_refl in Hb by done. rewrite Hb. by rewrite xorb_nilpotent.
  - destruct (Z.testbit w col) eqn:E1, (Z.testbit r col) eqn:E2; try done; exfalso; apply E;
      apply Z.bits_inj'; intros i Hi; rewrite testbit_cooked_next by done;
      destruct (i =? col) eqn:Ei; b2p; subst; congruence.
Qed.

(** ** Passes *)

Inductive flag := Need | Retry | Changed.

Definition get_flag {C} (fl : flag) (s : statics C) : bool :=
  match fl with
  | Need => counters_need_update s
  | Retry => matrix_need_update s
  | Changed => cooked_changed s
  end.

Section passes.
Context {C V K : Type} (valid : K -> Prop) (cell_of : list C -> list Z -> K -> C * V)
        (wf_of : list C -> list Z -> Prop).
Implicit Types (s : statics C) (k : K) (x : C * V).

Definition cell s k : C * V := cell_of (counters s) (cooked s) k.
Definition wf s : Prop := wf_of (counters s) (cooked s).

(** [s'] comes from [s] by [f] on the cells of [P], which raise the flags [g]. *)
Definition effect (P : K -> Prop) (f : K -> C * V -> C * V) (g : flag -> K -> C * V -> bool)
    s s' : Prop :=
  wf s' /\ last_time s' = last_time s
  /\ (forall k, valid k -> P k -> cell s' k = f k (cell s k))
  /\ (forall k, valid k -> ~ P k -> cell s' k = cell s k)
  /\ (forall fl, get_flag fl s' = true <->
        get_flag fl s = true \/ exists k, valid k /\ P k /\ g fl k (cell s k) = true).

Lemma effect_none P f g s : wf s -> (forall k, ~ P k) -> effect P f g s s.
Proof.
  intros Hw HP. split; [done|]. split; [done|]. split; [intros k _ []%HP|].
  split; [done|]. intros fl. split; [auto|]. intros [H|(k & _ & []%HP & _)]. done.
Qed.

Lemma effect_trans P1 P2 P f g s s1 s2 :
  effect P1 f g s s1 -> effect P2 f g s1 s2 ->
  (forall k, P1 k -> P2 k -> False) -> (forall k, P k <-> P1 k \/ P2 k) -> effect P f g s s2.
Proof.
  intros (Hw1 & Ht1 & Hf1 & Hn1 & Hg1) (Hw2 & Ht2 & Hf2 & Hn2 & Hg2) Hd HP.
  split; [done|]. split; [congruence|]. repeat split.
  - intros k Hv [H|H]%HP.
    + rewrite Hn2 by (try done; intros H2; by apply (Hd k)). by apply Hf1.
    + rewrite Hf2 by done. rewrite Hn1 by (try done; intros H2; by apply (Hd k)). done.
  - intros k Hv H. rewrite Hn2, Hn1; [done|done| |done|]; intros H2; apply H, HP; auto.
  - rewrite Hg2, Hg1. intros [[H|(k & Hv & H & Hg)]|(k & Hv & H & Hg)].
    + auto.
    + right. exists k. split; [done|]. split; [apply HP; auto|done].
    + right. exists k. split; [done|]. split; [apply HP; auto|].
      rewrite <- Hn1; [done|done|]. intros H1. by apply (Hd k).
  - rewrite Hg2, Hg1. intros [H|(k & Hv & [H|H]%HP & Hg)]; [auto|left; right; eauto|].
    right. exists k. split; [done|]. split; [done|]. rewrite Hn1; [done|done|].
    intros H1. by apply (Hd k).
Qed.

(** A loop whose step [i] acts on the cells [Pi i]. *)
Lemma effect_loop (Pi : Z -> K -> Prop) (P : K -> Prop) f g n (body : Z -> statics C -> statics C) s0 :
  0 <= n -> wf s0 ->
  (forall i j k, Pi i k -> Pi j k -> i = j) ->
  (forall k, valid k -> (P k <-> exists i, 0 <= i < n /\ Pi i k)) ->
  (forall i s, 0 <= i < n -> wf s -> (forall k, valid k -> Pi i k -> cell s k = cell s0 k) ->
     effect (Pi i) f g s (body i s)) ->
  effect P f g s0 (for_Z 0 n body s0).
Proof.
  intros Hn Hw Hd HP Hb.
  assert (H : effect (fun k => exists i, 0 <= i < n /\ Pi i k) f g s0 (for_Z 0 n body s0)).
  { apply (for_Z_inv body (fun i s => effect (fun k => exists j, 0 <= j < i /\ Pi j k) f g s0 s)); [done| |].
    - apply effect_none; [done|]. intros k (j & ? & _). lia.
    - intros i s Hi He.
      refine (effect_trans _ (Pi i) _ f g s0 s _ He _ _ _).
      + apply Hb; [done|apply He|]. intros k Hv Hk. apply He; [done|].
        intros (j & Hj & Hk'). specialize (Hd _ _ _ Hk Hk'). lia.
      + intros k (j & Hj & Hk) Hk'. specialize (Hd _ _ _ Hk Hk'). lia.
      + intros k. split.
        * intros (j & Hj & Hk). destruct (Z.eq_dec j i) as [->|]; [by right|].
          left. exists j. split; [lia|done].
        * intros [(j & Hj & Hk)|Hk]; [exists j|exists i]; (split; [lia|done]). }
  destruct H as (H1 & H2 & H3 & H4 & H5). split; [done|]. split; [done|].
  split; [intros k Hv Hk; apply H3; [done|by apply HP]|]. split.
  - intros k Hv Hk. apply H4; [done|]. intros Hk'. apply Hk. by apply HP.
  - intros fl. rewrite H5. split; (intros [H|(k & Hv & Hk & Hg)]; [auto|]);
      right; exists k; (split; [done|]); (split; [by apply HP|done]).
Qed.
End passes.

(** ** The automaton of a cell

    What an algorithm promises of its two passes on one cell: [fu el v x] is
    the first pass with [el] milliseconds elapsed, [fx v x] the second, [v]
    the raw value; [gu] and [gx] are the flags they raise. *)
Class CellAlgorithm (C V : Type) := {
  busy : C -> bool;
  c_ok : C -> Prop;
  settled : V -> C * V -> Prop;
  fu : Z -> V -> C * V -> C * V;
  gu : flag -> Z -> V -> C * V -> bool;
  fx : V -> C * V -> C * V;
  gx : flag -> V -> C * V -> bool;
}.

Definition cell_scan {C V} {alg : CellAlgorithm C V} (v : V) (dt : Z) (x : C * V) : C * V :=
  fx v (fu dt v x).

Class CellLaws (C V : Type) (alg : CellAlgorithm C V) : Prop := {
  settled_ok : forall v x, settled v x -> c_ok x.1;
  fu_idle : forall el v x, busy x.1 = false -> fu el v x = x;
  gu_idle : forall fl el v x, busy x.1 = false -> gu fl el v x = false;
  fu_zero : forall v x, c_ok x.1 -> fu 0 v x = x;
  gu_zero : forall fl v x, c_ok x.1 -> gu fl 0 v x = true -> fl = Need;
  need_update : forall el v x, busy (fu el v x).1 = true -> gu Need el v x = true;
  need_transfer : forall v x, busy (fx v x).1 = true -> busy x.1 = true \/ gx Need v x = true;
  no_retry : forall v x, gx Retry v x = false;
  scan_settled : forall el v x, 0 <= el -> c_ok x.1 -> settled v (cell_scan v el x);
  scan_skip : forall el v x, 0 <= el -> settled v x -> gu Retry el v x = false ->
    fx v (fu el v x) = fu el v x /\ gx Changed v (fu el v x) = false;
  scan_changed : forall el v x, 0 <= el -> c_ok x.1 ->
    (gu Changed el v x = true \/ gx Changed v (fu el v x) = true) <-> (cell_scan v el x).2 <> x.2;
}.

(** The milliseconds an algorithm accounts for after a gap. *)
Definition elapsed (gap : Z) : Z := Z.min 255 gap.

Section driver.
Context {cfg : DebounceConfig} {ok : DebounceConfigOk cfg}.
Context {C V K : Type} {alg : CellAlgorithm C V} {laws : CellLaws C V alg}.
Context (valid : K -> Prop) (cell_of : list C -> list Z -> K -> C * V)
          (wf_of : list C -> list Z -> Prop) (rawcell : list Z -> K -> V).
Abbreviation cell := (cell cell_of).
Abbreviation wf := (wf wf_of).
Abbreviation effect := (effect valid cell_of wf_of (fun _ => True)).

(** The clock of the firmware, at [t] milliseconds. *)
Definition timer_read_fast (t : Z) : Z := t mod 2 ^ FAST_TIMER_T_SIZE.

Lemma timer_diff t t' : 0 <= t' - t < 2 ^ FAST_TIMER_T_SIZE ->
  TIMER_DIFF_FAST (timer_read_fast t') (timer_read_fast t) = t' - t.
Proof using ok.
  intros H. unfold TIMER_DIFF_FAST, timer_read_fast.
  destruct (@fast_timer_size _ ok) as [E|E]; rewrite E in *; pow_consts; dlia.
Qed.

(** The state between two scans, the last at time [t] with the matrix [raw]. *)
Record rest (raw : list Z) (t : Z) (s : statics C) : Prop := mk_rest {
  rest_wf : wf s;
  rest_retry : matrix_need_update s = false;
  rest_settled : forall k, valid k -> settled (rawcell raw k) (cell s k);
  rest_busy : forall k, valid k -> busy (cell s k).1 = true -> counters_need_update s = true;
  rest_time : counters_need_update s = true -> last_time s = timer_read_fast t;
}.

Context (update : list Z -> Z -> statics C -> statics C) (transfer : list Z -> statics C -> statics C)
        (retry : statics C -> bool).

Class Passes : Prop := {
  update_effect : forall raw el s, wf s -> matrix_need_update s = false ->
    effect (fun k => fu el (rawcell raw k)) (fun fl k => gu fl el (rawcell raw k))
      (set_counters_need_update false s) (update raw el s);
  transfer_effect : forall raw s, wf s -> matrix_need_update s = retry s ->
    effect (fun k => fx (rawcell raw k)) (fun fl k => gx fl (rawcell raw k))
      (set_matrix_need_update false s) (transfer raw s);
  retry_ok : (forall s, retry s = matrix_need_update s)
    \/ (forall s, retry s = false) /\ (forall el v x, gu Retry el v x = false);
}.
Context {passes : Passes}.

(** After the first half of [debounce], whether or not it updates. *)
Definition first_half (raw : list Z) (now : Z) (s : statics C) : bool * statics C :=
  let s := set_cooked_changed false s in
  if counters_need_update s then
    let elapsed_time := TIMER_DIFF_FAST now (last_time s) in
    let s := set_last_time now s in
    let elapsed_time := if UINT8_MAX <? elapsed_time then UINT8_MAX else elapsed_time in
    (true, if 0 <? elapsed_time then update raw elapsed_time s else s)
  else (false, s).

Lemma first_half_spec raw raw0 t t' s : rest raw0 t s -> 0 <= t' - t < 2 ^ FAST_TIMER_T_SIZE ->
  let '(upd, s1) := first_half raw (timer_read_fast t') s in
  upd = counters_need_update s /\ wf s1
  /\ (upd = true -> last_time s1 = timer_read_fast t')
  /\ (upd = false -> counters_need_update s1 = false)
  /\ (forall k, valid k -> cell s1 k = fu (elapsed (t' - t)) (rawcell raw k) (cell s k))
  /\ (forall k, valid k -> busy (cell s1 k).1 = true -> counters_need_update s1 = true)
  /\ (forall fl, fl <> Need -> get_flag fl s1 = true <->
        exists k, valid k /\ gu fl (elapsed (t' - t)) (rawcell raw k) (cell s k) = true).
Proof using ok laws passes.
  intros [Hw Hr Hs Hb Ht] Hg. unfold first_half.
  change (counters_need_update (set_cooked_changed false s)) with (counters_need_update s).
  destruct (counters_need_update s) eqn:En.
  - change (last_time (set_cooked_changed false s)) with (last_time s).
    rewrite Ht, timer_diff by done.
    replace (if UINT8_MAX <? t' - t then UINT8_MAX else t' - t) with (elapsed (t' - t))
      by (unfold elapsed, UINT8_MAX; case_if; lia).
    split; [done|]. destruct (0 <? elapsed (t' - t)) eqn:Ee; b2p.
    + destruct (update_effect raw (elapsed (t' - t))
        (set_last_time (timer_read_fast t') (set_cooked_changed false s))) as (Hw' & Ht' & Hc & _ & Hf);
        [done|done|].
      split; [done|]. split; [done|]. split; [done|].
      split; [intros k Hv; by rewrite Hc by done|].
      split; [intros k Hv H|intros fl Hfl].
      * apply (Hf Need). right. exists k. split; [done|]. split; [done|]. apply need_update.
        by rewrite <- Hc.
      * rewrite Hf. split; [|intros (k & ? & ?); right; by exists k].
        intros [H|(k & ? & _ & ?)]; [|by exists k]. destruct fl; cbn in H; congruence.
    + assert (E0 : elapsed (t' - t) = 0) by (unfold elapsed in *; lia). rewrite E0.
      split; [done|]. split; [done|]. split; [done|].
      split; [intros k Hv; rewrite fu_zero; [done|by apply (settled_ok (rawcell raw0 k)), Hs]|].
      split; [intros k Hv H; done|]. intros fl Hfl. split.
      * destruct fl; cbn; congruence.
      * intros (k & Hv & H). apply gu_zero in H; [congruence|].
        by apply (settled_ok (rawcell raw0 k)), Hs.
  - assert (Hidle : forall k, valid k -> busy (cell s k).1 = false).
    { intros k Hv. destruct (busy (cell s k).1) eqn:E; [|done]. specialize (Hb k Hv E). congruence. }
    split; [done|]. split; [done|]. split; [done|]. split; [done|].
    split; [intros k Hv; rewrite fu_idle by auto; done|].
    split; [intros k Hv H; change (cell (set_cooked_changed false s) k) with (cell s k) in H;
            specialize (Hidle k Hv); congruence|].
    intros fl Hfl. split; [destruct fl; cbn; congruence|].
    intros (k & Hv & H). rewrite gu_idle in H by auto. done.
Qed.

(** A scan acts on each cell by its own automaton, and reports whether a
    cooked value has changed. *)
Lemma debounce_cells raw0 raw t t' changed s :
  rest raw0 t s -> 0 <= t' - t < 2 ^ FAST_TIMER_T_SIZE ->
  (changed = false -> raw = raw0) ->
  let '(ret, s') := debounce_with (update raw) (transfer raw) retry (timer_read_fast t') changed s in
  rest raw t' s'
  /\ (forall k, valid k -> cell s' k = cell_scan (rawcell raw k) (elapsed (t' - t)) (cell s k))
  /\ (ret = true <-> exists k, valid k /\ (cell s' k).2 <> (cell s k).2).
Proof using ok laws passes.
  intros Hrest Hg Hch. pose proof (first_half_spec raw raw0 t t' s Hrest Hg) as H1.
  unfold debounce_with. fold (first_half raw (timer_read_fast t') s).
  change (let s0 := set_cooked_changed false s in _) with
    (let '(updated_last, s) := first_half raw (timer_read_fast t') s in
     let s := if changed || retry s
              then transfer raw (if updated_last : bool then s else set_last_time (timer_read_fast t') s)
              else s in
     (cooked_changed s, s)).
  destruct (first_half raw (timer_read_fast t') s) as [upd s1].
  destruct H1 as (Hupd & Hw1 & Ht1 & Hn1 & Hc1 & Hb1 & Hf1).
  destruct Hrest as [Hw Hr Hs Hb Ht]. cbv zeta.
  assert (Hel : 0 <= elapsed (t' - t)) by (unfold elapsed; lia).
  assert (Hok : forall k, valid k -> c_ok (cell s k).1) by (intros; eapply settled_ok; eauto).
  assert (Hret : forall b : bool, (b = true <-> (get_flag Changed s1 = true \/
      exists k, valid k /\ gx Changed (rawcell raw k) (cell s1 k) = true)) ->
      (b = true <-> exists k, valid k /\ (cell_scan (rawcell raw k) (elapsed (t' - t)) (cell s k)).2 <> (cell s k).2)).
  { intros b ->. rewrite Hf1 by done. split.
    - intros [(k & Hv & H)|(k & Hv & H)]; exists k; (split; [done|]); apply scan_changed; auto.
      right. by rewrite <- Hc1.
    - intros (k & Hv & H). apply scan_changed in H as [H|H]; [left|right| |]; try exists k; auto.
      rewrite Hc1 by done. auto. }
  destruct (changed || retry s1) eqn:Edo.
  - set (s2 := if upd then s1 else set_last_time (timer_read_fast t') s1).
    assert (Hs2 : last_time s2 = timer_read_fast t' /\ set_last_time 0 s2 = set_last_time 0 s1).
    { unfold s2. destruct upd; [by rewrite Ht1|done]. }
    destruct Hs2 as [Htime Hsame].
    assert (Hw2 : wf s2) by (unfold s2; destruct upd; done).
    assert (Hc2 : forall k, cell s2 k = cell s1 k) by (intros; unfold s2; by destruct upd).
    assert (Hfl2 : forall fl, get_flag fl s2 = get_flag fl s1) by (intros []; unfold s2; by destruct upd).
    assert (Hretry : matrix_need_update s2 = retry s2).
    { destruct retry_ok as [H|[H Hg0]]; [by rewrite H|]. rewrite H.
      pose proof (Hf1 Retry ltac:(done)) as [Hf _]. change (matrix_need_update s2) with (get_flag Retry s2).
      rewrite Hfl2. destruct (get_flag Retry s1); [|done].
      destruct (Hf eq_refl) as (k & Hv & Hk). rewrite Hg0 in Hk. done. }
    destruct (transfer_effect raw s2 Hw2 Hretry) as (Hw3 & Ht3 & Hc3 & _ & Hf3).
    set (s3 := transfer raw s2) in *.
    assert (Hcell : forall k, valid k -> cell s3 k = cell_scan (rawcell raw k) (elapsed (t' - t)) (cell s k)).
    { intros k Hv. rewrite Hc3 by done. change (cell (set_matrix_need_update false s2) k) with (cell s2 k).
      rewrite Hc2, Hc1 by done. done. }
    split; [|split; [done|]].
    + constructor.
      * done.
      * destruct (matrix_need_update s3) eqn:E; [|done]. apply (Hf3 Retry) in E as [E|(k & _ & _ & E)]; [done|].
        by rewrite no_retry in E.
      * intros k Hv. rewrite Hcell by done. by apply scan_settled; auto.
      * intros k Hv H. apply (Hf3 Need). rewrite Hc3 in H by done.
        apply need_transfer in H as [H|H]; [left|right; exists k; auto].
        change (get_flag Need s2 = true). rewrite Hfl2. apply (Hb1 k Hv).
        change (cell (set_matrix_need_update false s2) k) with (cell s2 k) in H. by rewrite <- Hc2.
      * intros _. rewrite Ht3. done.
    + rewrite (Hret (cooked_changed s3)).
      * split; (intros (k & Hv & H); exists k; (split; [done|])); [by rewrite Hcell|by rewrite <- Hcell].
      * rewrite (Hf3 Changed). change (get_flag Changed (set_matrix_need_update false s2)) with (get_flag Changed s2).
        rewrite Hfl2. split; (intros [H|H]; [by left|right]).
        -- destruct H as (k & Hv & _ & H). exists k. split; [done|]. rewrite <- Hc2. done.
        -- destruct H as (k & Hv & H). exists k. split; [done|]. split; [done|]. rewrite <- Hc2 in H. done.
  - apply orb_false_iff in Edo as [-> Er]. specialize (Hch eq_refl). subst raw0.
    assert (Hmn : get_flag Retry s1 = false).
    { destruct retry_ok as [H|[H Hg0]]; [cbn; by rewrite <- H|].
      destruct (get_flag Retry s1) eqn:E; [|done]. apply Hf1 in E as (k & Hv & Hk); [|done].
      by rewrite Hg0 in Hk. }
    assert (Hskip : forall k, valid k ->
        cell_scan (rawcell raw k) (elapsed (t' - t)) (cell s k) = cell s1 k
        /\ gx Changed (rawcell raw k) (cell s1 k) = false).
    { intros k Hv. rewrite Hc1 by done. apply scan_skip; [done|by apply Hs|].
      destruct (gu Retry (elapsed (t' - t)) (rawcell raw k) (cell s k)) eqn:E; [|done].
      rewrite <- Hmn. symmetry. apply Hf1; [done|]. by exists k. }
    split; [|split].
    + constructor; [done|done| |done|].
      * intros k Hv. rewrite <- (proj1 (Hskip k Hv)). apply scan_settled; auto.
      * intros H. destruct upd; [auto|]. rewrite Hn1 in H; done.
    + intros k Hv. symmetry. by apply Hskip.
    + rewrite (Hret (cooked_changed s1)).
      * split; (intros (k & Hv & H); exists k; (split; [done|])); revert H; by rewrite (proj1 (Hskip k Hv)).
      * split; [by left|]. intros [H|(k & Hv & H)]; [done|].
        rewrite (proj2 (Hskip k Hv)) in H. done.
Qed.
End driver.

(** ** Sequences of scans *)

(** Each scan comes less than a period of the timer after the one before. *)
Fixpoint timely {A} (period t : Z) (h : list (Z * A)) : Prop :=
  match h with
  | [] => True
  | (t', _) :: h => 0 <= t' - t < period /\ timely period t' h
  end.

(** The time of the last scan, [t] if there is none. *)
Definition last_scan {A} (t : Z) (h : list (Z * A)) : Z := List.last (map fst h) t.

Lemma last_scan_snoc {A} t (h : list (Z * A)) p : last_scan t (h ++ [p]) = p.1.
Proof. unfold last_scan. rewrite map_app. apply last_last. Qed.

Lemma last_scan_cons {A} t t' (v : A) h : last_scan t ((t', v) :: h) = last_scan t' h.
Proof.
  unfold last_scan. cbn [map fst]. generalize (map fst h) as l. intros l. revert t'.
  destruct l as [|b l]; [done|]. intros t'. cbn. revert b. induction l as [|c l IH]; [done|].
  intros b. cbn. apply IH.
Qed.

Lemma last_scan_app {A} t (h k : list (Z * A)) : last_scan t (h ++ k) = last_scan (last_scan t h) k.
Proof.
  revert t. induction h as [|[t' v] h IH]; intros t; [done|]. cbn [app].
  by rewrite !last_scan_cons, IH.
Qed.

Lemma timely_app {A} period t (h k : list (Z * A)) :
  timely period t (h ++ k) <-> timely period t h /\ timely period (last_scan t h) k.
Proof.
  revert t. induction h as [|[t' v] h IH]; intros t; [by cbn; tauto|]. cbn [app timely].
  rewrite IH, last_scan_cons. tauto.
Qed.

Lemma timely_le {A} period t (h : list (Z * A)) : timely period t h -> t <= last_scan t h.
Proof.
  revert t. induction h as [|[t' v] h IH]; intros t; [done|]. cbn [timely].
  intros [Ht H%IH]. rewrite last_scan_cons. lia.
Qed.

Section runs.
Context {C V : Type} {alg : CellAlgorithm C V}.

(** The automaton over the history of a cell, started at time [t]. *)
Fixpoint cell_run (t : Z) (x : C * V) (h : list (Z * V)) : C * V :=
  match h with
  | [] => x
  | (t', v) :: h => cell_run t' (cell_scan v (elapsed (t' - t)) x) h
  end.

Lemma cell_run_app t x h k : cell_run t x (h ++ k) = cell_run (last_scan t h) (cell_run t x h) k.
Proof.
  revert t x. induction h as [|[t' v] h IH]; intros t x; [done|].
  cbn [app cell_run]. by rewrite IH, last_scan_cons.
Qed.
End runs.

Section sessions.
Context {cfg : DebounceConfig} {ok : DebounceConfigOk cfg}.
Context {C V K : Type} {alg : CellAlgorithm C V} {laws : CellLaws C V alg}.
Context (valid : K -> Prop) (cell_of : list C -> list Z -> K -> C * V)
        (wf_of : list C -> list Z -> Prop) (rawcell : list Z -> K -> V).
Context (update : list Z -> Z -> statics C -> statics C) (transfer : list Z -> statics C -> statics C)
        (retry : statics C -> bool).
Context {passes : Passes valid cell_of wf_of rawcell update transfer retry}.
Context (debounce : list Z -> Z -> bool -> statics C -> bool * statics C).
Context (debounce_eq : forall raw now changed s,
  debounce raw now changed s = debounce_with (update raw) (transfer raw) retry now changed s).

Definition period : Z := 2 ^ FAST_TIMER_T_SIZE.

(** The raw matrix and the algorithm after a sequence of scans. *)
Definition session {S} (deb : list Z -> Z -> bool -> S -> bool * S) (st : list Z * S)
    (scans : list (Z * list Z)) : list Z * S :=
  foldl (fun st p => (matrix_scan deb p.2 (timer_read_fast p.1) st).2) st scans.

Definition history (k : K) (scans : list (Z * list Z)) : list (Z * V) :=
  map (fun p => (p.1, rawcell p.2 k)) scans.

Lemma last_scan_history k t scans : last_scan t (history k scans) = last_scan t scans.
Proof using. unfold last_scan, history. by rewrite map_map. Qed.

Lemma timely_history k p t scans : timely p t scans -> timely p t (history k scans).
Proof using.
  revert t. induction scans as [|[t' raw] scans IH]; intros t; [done|]. cbn.
  intros [H1 H2]. split; [done|]. by apply IH.
Qed.

Lemma matrix_scan_cells raw0 t t' raw s :
  rest valid cell_of wf_of rawcell raw0 t s -> 0 <= t' - t < period ->
  let '(ret, (raw1, s')) := matrix_scan debounce raw (timer_read_fast t') (raw0, s) in
  raw1 = raw /\ rest valid cell_of wf_of rawcell raw t' s'
  /\ (forall k, valid k -> cell cell_of s' k
        = cell_scan (rawcell raw k) (elapsed (t' - t)) (cell cell_of s k))
  /\ (ret = true <-> exists k, valid k /\ (cell cell_of s' k).2 <> (cell cell_of s k).2).
Proof using ok laws passes debounce_eq.
  intros Hr Hg. unfold matrix_scan.
  assert (E : (if negb (bool_decide (raw0 = raw)) then raw else raw0) = raw).
  { destruct (bool_decide_reflect (raw0 = raw)) as [->|]; done. }
  rewrite E, debounce_eq.
  pose proof (debounce_cells valid cell_of wf_of rawcell update transfer retry raw0 raw t t'
                (negb (bool_decide (raw0 = raw))) s Hr Hg) as H.
  destruct (debounce_with _ _ _ _ _ _) as [ret s']. split; [done|]. apply H.
  intros Hc. symmetry. by apply negb_false_iff, bool_decide_eq_true in Hc.
Qed.

Lemma session_cells raw0 t s scans : rest valid cell_of wf_of rawcell raw0 t s -> timely period t scans ->
  rest valid cell_of wf_of rawcell (session debounce (raw0, s) scans).1 (last_scan t scans)
    (session debounce (raw0, s) scans).2
  /\ (forall k, valid k -> cell cell_of (session debounce (raw0, s) scans).2 k
        = cell_run t (cell cell_of s k) (history k scans)).
Proof using ok laws passes debounce_eq.
  revert raw0 t s. induction scans as [|[t' raw] scans IH]; intros raw0 t s Hr Ht; [done|].
  destruct Ht as [Hg Ht]. pose proof (matrix_scan_cells raw0 t t' raw s Hr Hg) as H.
  unfold session. cbn [foldl fst snd].
  destruct (matrix_scan debounce raw (timer_read_fast t') (raw0, s)) as [ret [raw1 s']].
  destruct H as (-> & Hr' & Hc & _). destruct (IH raw t' s' Hr' Ht) as [Hr2 Hc2].
  rewrite last_scan_cons. split; [done|]. intros k Hv. cbn. rewrite <- Hc by done. by apply Hc2.
Qed.

Lemma session_snoc {S} (deb : list Z -> Z -> bool -> S -> bool * S) st scans p :
  session deb st (scans ++ [p]) = (matrix_scan deb p.2 (timer_read_fast p.1) (session deb st scans)).2.
Proof using. unfold session. by rewrite foldl_app. Qed.

(** The value returned by the last scan. *)
Lemma session_reports raw0 t s scans t' raw : rest valid cell_of wf_of rawcell raw0 t s ->
  timely period t (scans ++ [(t', raw)]) ->
  (matrix_scan debounce raw (timer_read_fast t') (session debounce (raw0, s) scans)).1 = true
  <-> exists k, valid k
      /\ (cell cell_of (session debounce (raw0, s) (scans ++ [(t', raw)])).2 k).2
         <> (cell cell_of (session debounce (raw0, s) scans).2 k).2.
Proof using ok laws passes debounce_eq.
  intros Hr Ht. rewrite session_snoc. apply timely_app in Ht as [Ht [Hg _]].
  destruct (session_cells raw0 t s scans Hr Ht) as [Hr' _].
  destruct (session debounce (raw0, s) scans) as [raw1 s1]. cbn [fst snd] in *.
  pose proof (matrix_scan_cells raw1 (last_scan t scans) t' raw s1 Hr' Hg) as H.
  destruct (matrix_scan debounce raw (timer_read_fast t') (raw1, s1)) as [ret [raw2 s2]]. apply H.
Qed.
End sessions.
