(* ===== verification/DebounceAutomata.v ===== *)
(** The cell automata of the debounce algorithms: eager, deferred, and the
    asymmetric mix, with the laws that DebounceCells asks for and what each
    does with the history of its cell. *)

From S2P Require Import Prelude.
From S2P Require Import Debounce.
From S2P Require Import DebounceCells.

(** The history ends in scans, the first at least [n] milliseconds before the
    last, in all of which the raw value is [v]. *)
Definition held_for {V} (v : V) (n t : Z) (h : list (Z * V)) : Prop :=
  exists pre t0 v0 mid, h = pre ++ (t0, v0) :: mid
    /\ Forall (fun q => q.2 = v) ((t0, v0) :: mid) /\ n <= last_scan t h - t0.

Lemma held_for_snoc {V} (v : V) n t h t1 :
  held_for v n t h -> held_for v (n + (t1 - last_scan t h)) t (h ++ [(t1, v)]).
Proof.
  intros (pre & t0 & v0 & mid & -> & Hall & Hn). exists pre, t0, v0, (mid ++ [(t1, v)]).
  split; [by rewrite <- app_assoc|]. split.
  - rewrite app_comm_cons. apply Forall_app. split; [done|by repeat constructor].
  - rewrite last_scan_snoc. cbn [fst]. lia.
Qed.

Lemma held_for_le {V} (v : V) n m t h : held_for v n t h -> m <= n -> held_for v m t h.
Proof. intros (pre & t0 & v0 & mid & ? & ? & ?) ?. exists pre, t0, v0, mid. repeat split; (done || lia). Qed.

Lemma held_for_now {V} (v : V) t h t1 : held_for v 0 t (h ++ [(t1, v)]).
Proof.
  exists h, t1, v, []. split; [done|]. split; [by repeat constructor|].
  rewrite last_scan_snoc. cbn. lia.
Qed.

(** ** Settling

    A cell that disagrees with a raw value that does not move counts down. *)
Class Settling {C V} (alg : CellAlgorithm C V) (remaining : C -> Z) (D : Z) : Prop := {
  settling_limit : D <= 255;
  settling_bound : forall v x, settled v x -> x.2 = v \/ 0 < remaining x.1 <= D;
  settling_step : forall v x el, settled v x -> 0 <= el ->
    (cell_scan v el x).2 = v
    \/ x.2 <> v /\ el < remaining x.1 /\ remaining (cell_scan v el x).1 = remaining x.1 - el;
}.

Section settling.
Context {C V : Type} {alg : CellAlgorithm C V} {laws : CellLaws C V alg}
        {remaining : C -> Z} {D : Z} {st : Settling alg remaining D}.

Lemma settles_from v t0 t x h p : settled v x -> timely p t h -> t0 <= t ->
  Forall (fun q => q.2 = v) h -> (x.2 = v \/ remaining x.1 <= D - (t - t0)) ->
  D <= last_scan t h - t0 -> (cell_run t x h).2 = v.
Proof using laws st.
  revert t x. induction h as [|[t' v'] h IH]; intros t x Hs Ht Hle Hall Hi HD.
  { destruct (settling_bound v x Hs) as [|]; [done|]. destruct Hi as [|Hi]; [done|].
    unfold last_scan in HD. cbn in HD. lia. }
  destruct Ht as [Hg Ht]. apply Forall_cons_1 in Hall as [Hv Hall]. cbn [snd] in Hv. subst v'.
  rewrite last_scan_cons in HD. pose proof settling_limit as Hl.
  assert (He : 0 <= elapsed (t' - t)) by (unfold elapsed; lia). cbn [cell_run].
  apply IH; [|done|lia|done| |done].
  - apply scan_settled; [done|exact (settled_ok v x Hs)].
  - destruct (settling_step v x _ Hs He) as [E|(Hne & Hlt & Hrem)]; [by left|right].
    destruct Hi as [|Hi]; [done|]. rewrite Hrem. unfold elapsed in *. lia.
Qed.

Lemma cell_run_ok t x h p : c_ok x.1 -> timely p t h -> c_ok (cell_run t x h).1.
Proof using laws.
  revert t x. induction h as [|[t' v] h IH]; intros t x Hx Ht; [done|]. destruct Ht as [Hg Ht].
  cbn [cell_run]. apply IH; [|done]. apply (settled_ok v). apply scan_settled; [unfold elapsed; lia|done].
Qed.

(** A raw value that has not moved for [D] milliseconds is the cooked one. *)
Lemma settles v t x h p : c_ok x.1 -> timely p t h -> held_for v D t h -> (cell_run t x h).2 = v.
Proof using laws st.
  intros Hok Ht (pre & t0 & v0 & mid & -> & Hall & HD).
  apply Forall_cons_1 in Hall as [Hv Hall]. cbn [snd] in Hv. subst v0.
  apply timely_app in Ht as [Htp [Hg Ht]]. rewrite cell_run_app. cbn [cell_run].
  rewrite last_scan_app, last_scan_cons in HD.
  assert (Hs : settled v (cell_scan v (elapsed (t0 - last_scan t pre)) (cell_run t x pre)))
    by (apply scan_settled; [unfold elapsed; lia|by apply (cell_run_ok _ _ _ p)]).
  apply (settles_from v t0 t0 _ mid p); [done|done|lia|done| |done].
  destruct (settling_bound v _ Hs); [by left|right; lia].
Qed.
End settling.

(** ** The eager automaton: an idle cell takes the raw value at once and
    ignores it for [D] milliseconds *)

Section eager.
Context {V : Type} `{EqDecision V} (D : Z) (D_ok : 0 < D <= 255).

Definition eager : CellAlgorithm Z V := {|
  busy c := negb (c =? 0);
  c_ok c := 0 <= c <= D;
  settled v x := 0 <= x.1 <= D /\ (x.1 = 0 -> v = x.2);
  fu el v x := if x.1 =? 0 then x else if x.1 <=? el then (0, x.2) else (x.1 - el, x.2);
  gu fl el v x :=
    match fl with
    | Need => negb (x.1 =? 0) && negb (x.1 <=? el)
    | Retry => negb (x.1 =? 0) && (x.1 <=? el)
    | Changed => false
    end;
  fx v x := if decide (v = x.2) then x else if x.1 =? 0 then (D, v) else x;
  gx fl v x :=
    match fl with
    | Retry => false
    | _ => negb (bool_decide (v = x.2)) && (x.1 =? 0)
    end;
|}.

#[local] Existing Instance eager.

Lemma eager_laws : CellLaws Z V eager.
Proof using D_ok.
  split; unfold cell_scan; cbn; intros.
  - tauto.
  - by destruct (x.1 =? 0).
  - destruct fl, (x.1 =? 0); done.
  - destruct x as [c b]; cbn in *. repeat case_if; b2p; [done| |]; repeat f_equal; lia.
  - destruct x as [c b]; cbn in *. destruct fl; [done| |done]. b2p. lia.
  - destruct x as [c b]; cbn in *. destruct (c =? 0) eqn:E; b2p; subst; cbn in *; [done|].
    destruct (c <=? el) eqn:E2; cbn in *; done.
  - destruct x as [c b]; cbn in *. destruct (decide (v = b)) as [->|Hne]; cbn in *; [by left|].
    rewrite bool_decide_eq_false_2 by done. destruct (c =? 0); [by right|by left].
  - done.
  - destruct x as [c b]; cbn in *.
    destruct (c =? 0) eqn:E; b2p; [|destruct (c <=? el) eqn:E2; b2p]; cbn;
      destruct (decide (v = b)); cbn; try case_if; b2p; cbn; try lia; split; intros; try lia; done.
  - destruct x as [c b]; cbn in *. destruct H0 as [Hc Hi]. destruct (c =? 0) eqn:E; b2p; cbn in *.
    + rewrite decide_True by auto. rewrite bool_decide_eq_true_2 by auto. done.
    + destruct (c <=? el) eqn:E2; b2p; cbn in *; [done|].
      rewrite (proj2 (Z.eqb_neq (c - el) 0)) by lia. rewrite andb_false_r. by destruct (decide (v = b)).
  - destruct x as [c b]; cbn in *.
    destruct (c =? 0) eqn:E; b2p; [|destruct (c <=? el) eqn:E2; b2p]; cbn;
      destruct (decide (v = b)) as [->|Hne]; rewrite ?bool_decide_eq_true_2, ?bool_decide_eq_false_2 by done;
      cbn; try (split; intros; [destruct H1|]; congruence); rewrite ?E; cbn;
      try (split; [intros _; congruence|by right]).
    all: rewrite (proj2 (Z.eqb_neq (c - el) 0)) by lia; cbn; split; [intros []; done|done].
Qed.

Lemma eager_settling : Settling eager (fun c => c) D.
Proof using D_ok.
  split; unfold cell_scan; cbn.
  - lia.
  - intros v [c b] [Hc Hi]; cbn in *. destruct (decide (c = 0)); [left; symmetry; auto|right; lia].
  - intros v [c b] el [Hc Hi] He; cbn in *.
    destruct (c =? 0) eqn:E; b2p; [left; rewrite decide_True by auto; symmetry; auto|].
    destruct (c <=? el) eqn:E2; b2p; cbn; destruct (decide (v = b)); cbn; auto.
    right. rewrite (proj2 (Z.eqb_neq (c - el) 0)) by lia. cbn. auto.
Qed.

(** After a change of the cell the counter covers what is left of [D]. *)
Lemma eager_counter t0 t x h p : 0 <= x.1 <= D -> D - (t - t0) <= x.1 -> timely p t h ->
  0 <= (cell_run t x h).1 <= D /\ D - (last_scan t h - t0) <= (cell_run t x h).1.
Proof using D_ok.
  revert t x. induction h as [|[t' v] h IH]; intros t x Hx Hi Ht; [done|].
  destruct Ht as [Hg Ht]. rewrite last_scan_cons. cbn [cell_run]. apply IH; [| |done].
  all: unfold cell_scan, elapsed; cbn; destruct x as [c b]; cbn in *;
    repeat (case_if; b2p; cbn in * ); repeat case_decide; cbn; lia.
Qed.

Lemma eager_change v el x : (cell_scan v el x).2 <> x.2 -> 0 <= x.1 ->
  (cell_scan v el x).1 = D /\ (x.1 <= el \/ x.1 = 0) /\ (cell_scan v el x).2 = v.
Proof using D_ok.
  destruct x as [c b]. unfold cell_scan. cbn.
  destruct (Z.eqb_spec c 0) as [->|Hc]; cbn; [|destruct (Z.leb_spec c el); cbn];
    destruct (decide (v = b)); cbn; try done.
  - repeat split; auto.
  - repeat split; auto.
  - rewrite (proj2 (Z.eqb_neq (c - el) 0)) by lia. done.
Qed.

(** Two changes of a cell are [D] milliseconds apart. *)
Lemma eager_lockout t x pre t0 v0 mid t1 v1 p : 0 <= x.1 <= D ->
  timely p t (pre ++ (t0, v0) :: mid ++ [(t1, v1)]) ->
  (cell_run t x (pre ++ [(t0, v0)])).2 <> (cell_run t x pre).2 ->
  (cell_run t x (pre ++ (t0, v0) :: mid ++ [(t1, v1)])).2 <> (cell_run t x (pre ++ (t0, v0) :: mid)).2 ->
  D <= t1 - t0.
Proof using D_ok.
  intros Hx Ht H0 H1. apply timely_app in Ht as [Htp [Hg Ht]].
  apply timely_app in Ht as [Htm [Hg1 _]].
  assert (Hxp : 0 <= (cell_run t x pre).1 <= D) by (apply (eager_counter (t - D) t x pre p); [done|lia|done]).
  rewrite cell_run_app in H0. cbn [cell_run] in H0. apply eager_change in H0 as (Hc & _ & _); [|lia].
  rewrite app_comm_cons, app_assoc, (cell_run_app t x (pre ++ (t0, v0) :: mid)) in H1. cbn [cell_run] in H1.
  rewrite last_scan_app, last_scan_cons in H1. rewrite (cell_run_app t x pre) in H1. cbn [cell_run] in H1.
  destruct (eager_counter t0 t0 (cell_scan v0 (elapsed (t0 - last_scan t pre)) (cell_run t x pre)) mid p)
    as [Hb Hl]; [rewrite Hc; lia|rewrite Hc; lia|done|].
  apply eager_change in H1 as (_ & H1 & _); [|lia]. unfold elapsed in *. lia.
Qed.

(** The cell changes at the last scan of [pre ++ [q]]. *)
Definition cell_changes (t : Z) (x : Z * V) (pre : list (Z * V)) (q : Z * V) : Prop :=
  (cell_run t x (pre ++ [q])).2 <> (cell_run t x pre).2.

Lemma eager_last_change t b h p : timely p t h ->
  (cell_run t (0, b) h).1 <= 0
  \/ exists pre t1 v1 mid, h = pre ++ (t1, v1) :: mid /\ cell_changes t (0, b) pre (t1, v1)
      /\ (cell_run t (0, b) h).1 <= D - (last_scan t h - t1).
Proof using D_ok.
  induction h as [|[t' v] h IH] using rev_ind; intros Ht; [by left|].
  apply timely_app in Ht as [Ht [Hg _]].
  assert (Hx : 0 <= (cell_run t (0, b) h).1 <= D)
    by (apply (eager_counter (t - D) t (0, b) h p); [cbn; lia|cbn; lia|done]).
  destruct (decide ((cell_run t (0, b) (h ++ [(t', v)])).2 = (cell_run t (0, b) h).2)) as [Hsame|Hch].
  - rewrite last_scan_snoc. rewrite cell_run_app in *. cbn [fst cell_run] in *.
    assert (Hm : elapsed (t' - last_scan t h) = t' - last_scan t h \/ 255 <= elapsed (t' - last_scan t h))
      by (unfold elapsed; lia).
    assert (He : 0 <= elapsed (t' - last_scan t h)) by (unfold elapsed; lia).
    revert Hsame Hx Hm He IH.
    generalize (cell_run t (0, b) h) as y, (elapsed (t' - last_scan t h)) as el. intros [c b'] el.
    unfold cell_scan. cbn. intros Hsame Hx Hm He IH.
    destruct (Z.eqb_spec c 0) as [->|Hc]; cbn in *; [|destruct (Z.leb_spec c el); cbn in * ].
    + destruct (decide (v = b')); cbn in *; [left; lia|congruence].
    + destruct (decide (v = b')); cbn in *; [left; lia|congruence].
    + destruct (IH Ht) as [Hc0|(pre & t1 & v1 & mid & -> & Hch & Hle)]; [lia|right].
      exists pre, t1, v1, (mid ++ [(t', v)]). split; [by rewrite <- app_assoc|]. split; [done|].
      destruct (decide (v = b')); cbn in *;
        [lia|rewrite (proj2 (Z.eqb_neq (c - el) 0)) by lia; cbn; lia].
  - right. exists h, t', v, []. split; [done|]. split; [done|].
    rewrite last_scan_snoc. cbn [fst]. rewrite cell_run_app in *. cbn [cell_run] in *.
    apply eager_change in Hch as (Hc & _ & _); lia.
Qed.

(** A cell that has not changed for [D] milliseconds follows at once. *)
Lemma eager_follows t b h t1 v1 p : timely p t (h ++ [(t1, v1)]) ->
  (forall pre t0 v0 mid, h = pre ++ (t0, v0) :: mid -> cell_changes t (0, b) pre (t0, v0) -> D <= t1 - t0) ->
  (cell_run t (0, b) (h ++ [(t1, v1)])).2 = v1.
Proof using D_ok.
  intros Ht Hch. apply timely_app in Ht as [Ht [Hg _]].
  assert (Hx : 0 <= (cell_run t (0, b) h).1 <= D)
    by (apply (eager_counter (t - D) t (0, b) h p); [cbn; lia|cbn; lia|done]).
  assert (Hc : (cell_run t (0, b) h).1 <= elapsed (t1 - last_scan t h)).
  { destruct (eager_last_change t b h p Ht) as [H|(pre & t0 & v0 & mid & E & H1 & H2)];
      [unfold elapsed; lia|]. specialize (Hch _ _ _ _ E H1). unfold elapsed. lia. }
  rewrite cell_run_app. cbn [cell_run]. revert Hc Hx.
  generalize (cell_run t (0, b) h) as y, (elapsed (t1 - last_scan t h)) as el. intros [c b'] el Hc Hx.
  unfold cell_scan. cbn in *. repeat (case_if; b2p; cbn in * ); repeat case_decide; cbn; try done; lia.
Qed.
End eager.

(** ** The deferred automaton: a cell takes the raw value after it has
    disagreed with it for [D] milliseconds *)

Section defer.
Context (D : Z) (D_ok : 0 < D <= 255).

Definition defer : CellAlgorithm Z bool := {|
  busy c := negb (c =? 0);
  c_ok c := 0 <= c <= D;
  settled v x := 0 <= x.1 <= D /\ (x.1 = 0 <-> v = x.2);
  fu el v x := if x.1 =? 0 then x else if x.1 <=? el then (0, v) else (x.1 - el, x.2);
  gu fl el v x :=
    match fl with
    | Need => negb (x.1 =? 0) && negb (x.1 <=? el)
    | Retry => false
    | Changed => negb (x.1 =? 0) && (x.1 <=? el) && xorb x.2 v
    end;
  fx v x := if xorb v x.2 then (if x.1 =? 0 then D else x.1, x.2) else (0, x.2);
  gx fl v x := match fl with Need => xorb v x.2 && (x.1 =? 0) | _ => false end;
|}.

#[local] Existing Instance defer.

Lemma defer_laws : CellLaws Z bool defer.
Proof using D_ok.
  split; unfold cell_scan; cbn; intros.
  - tauto.
  - by destruct (x.1 =? 0).
  - destruct fl, (x.1 =? 0); done.
  - destruct x as [c b]; cbn in *. repeat case_if; b2p; [done| |]; repeat f_equal; lia.
  - destruct x as [c b]; cbn in *. destruct fl; [done|done|]. b2p. lia.
  - destruct x as [c b]; cbn in *. destruct (c =? 0) eqn:E; b2p; subst; cbn in *; [done|].
    destruct (c <=? el) eqn:E2; cbn in *; done.
  - destruct x as [c b]; cbn in *. destruct v, b; cbn in *; try done; destruct (c =? 0) eqn:E; auto.
  - done.
  - destruct x as [c b]; cbn in *.
    destruct (c =? 0) eqn:E; b2p; [|destruct (c <=? el) eqn:E2; b2p]; cbn;
      destruct v, b; cbn; try case_if; b2p; cbn; try lia; split; try lia; split; intros; done || lia.
  - destruct x as [c b]; cbn in *. destruct H0 as [Hc Hi]. destruct (c =? 0) eqn:E; b2p; cbn in *.
    + rewrite (proj1 Hi E), E. by rewrite xorb_nilpotent.
    + destruct (c <=? el) eqn:E2; b2p; cbn in *; [by rewrite xorb_nilpotent|].
      destruct (xorb v b) eqn:Ex; cbn; [by rewrite (proj2 (Z.eqb_neq (c - el) 0)) by lia|].
      apply xorb_eq in Ex. destruct Hi as [_ Hi]. by rewrite Hi in E.
  - destruct x as [c b]; cbn in *.
    destruct (c =? 0) eqn:E; b2p; [|destruct (c <=? el) eqn:E2; b2p]; cbn;
      destruct v, b; cbn; try case_if; cbn; split; try tauto; intros [H1|H1]; done.
Qed.

Lemma defer_settling : Settling defer (fun c => c) D.
Proof using D_ok.
  split; unfold cell_scan; cbn.
  - lia.
  - intros v [c b] [Hc Hi]; cbn in *. destruct (decide (c = 0)); [left; symmetry; tauto|right; lia].
  - intros v [c b] el [Hc Hi] He; cbn in *.
    destruct (Z.eqb_spec c 0) as [->|Hn]; cbn.
    + left. rewrite (proj1 Hi eq_refl), xorb_nilpotent. done.
    + destruct (c <=? el) eqn:E2; b2p; cbn; [left; by rewrite xorb_nilpotent|].
      destruct v, b; cbn; auto; right; rewrite (proj2 (Z.eqb_neq (c - el) 0)) by lia; auto.
Qed.

(** A running counter tells for how long the cell has disagreed. *)
Lemma defer_counter t x h p : x = (0, false) -> timely p t h ->
  0 <= (cell_run t x h).1 <= D
  /\ ((cell_run t x h).1 <> 0 -> held_for (negb (cell_run t x h).2) (D - (cell_run t x h).1) t h).
Proof using D_ok.
  intros ->. induction h as [|[t1 v] h IH] using rev_ind; intros Ht; [cbn; split; [lia|done]|].
  apply timely_app in Ht as [Ht [Hg _]]. destruct (IH Ht) as [Hc Hh]. rewrite cell_run_app. cbn [cell_run].
  revert Hc Hh. generalize (cell_run t (0, false) h) as y. intros [c b] Hc Hh. cbn [fst snd] in *.
  assert (He : 0 <= elapsed (t1 - last_scan t h) <= t1 - last_scan t h) by (unfold elapsed; lia).
  revert He. generalize (elapsed (t1 - last_scan t h)) as el. intros el He.
  assert (Hnow : held_for v (D - D) t (h ++ [(t1, v)])) by (rewrite Z.sub_diag; apply held_for_now).
  assert (Hmore : v = negb b -> c <> 0 -> held_for v (D - (c - el)) t (h ++ [(t1, v)])).
  { intros -> Hn. apply (held_for_le _ (D - c + (t1 - last_scan t h))); [|lia].
    apply held_for_snoc. auto. }
  unfold cell_scan. cbn. destruct (Z.eqb_spec c 0) as [->|Hn]; cbn.
  - destruct v, b; cbn; (split; [lia|intros; try done; exact Hnow]).
  - destruct (c <=? el) eqn:E2; b2p; cbn; [rewrite xorb_nilpotent; cbn; split; [lia|done]|].
    destruct v, b; cbn; rewrite ?(proj2 (Z.eqb_neq (c - el) 0)) by lia; (split; [lia|intros; try done]);
      apply Hmore; done.
Qed.

(** A change is not made before the raw value has held it for [D]. *)
Lemma defer_filters t h t1 v1 p : timely p t (h ++ [(t1, v1)]) ->
  (cell_run t (0, false) (h ++ [(t1, v1)])).2 <> (cell_run t (0, false) h).2 ->
  held_for (cell_run t (0, false) (h ++ [(t1, v1)])).2 D t (h ++ [(t1, v1)]).
Proof using D_ok.
  intros Ht. apply timely_app in Ht as [Ht [Hg _]].
  destruct (defer_counter t (0, false) h p eq_refl Ht) as [Hc Hh]. rewrite cell_run_app. cbn [cell_run].
  revert Hc Hh. generalize (cell_run t (0, false) h) as y. intros [c b] Hc Hh. cbn [fst snd] in *.
  assert (He : 0 <= elapsed (t1 - last_scan t h) <= t1 - last_scan t h) by (unfold elapsed; lia).
  revert He. generalize (elapsed (t1 - last_scan t h)) as el. intros el He.
  unfold cell_scan. cbn. destruct (Z.eqb_spec c 0) as [->|Hn]; cbn; [by destruct (xorb v1 b)|].
  destruct (c <=? el) eqn:E2; b2p; cbn; [|by destruct (xorb v1 b)].
  rewrite xorb_nilpotent. cbn. intros Hne.
  assert (Ev : v1 = negb b) by (destruct v1, b; done). rewrite Ev in *.
  apply (held_for_le _ (D - c + (t1 - last_scan t h))); [|lia]. apply held_for_snoc. auto.
Qed.
End defer.

(** ** The asymmetric automaton: presses are eager, releases deferred *)

Section asym.
Import AsymEagerDeferPk.
Context (D : Z) (D_ok : 0 < D <= 255).

(** A running counter belongs to a cell that is down. *)
Definition asym : CellAlgorithm debounce_counter_t bool := {|
  busy c := negb (time c =? 0);
  c_ok c := 0 <= time c <= D;
  settled v x := 0 <= time x.1 <= D /\ (time x.1 = 0 -> v = x.2)
                 /\ (pressed x.1 = false -> v = x.2 -> time x.1 = 0);
  fu el v x :=
    if time x.1 =? 0 then x
    else if time x.1 <=? el then (mk_counter (pressed x.1) 0, if pressed x.1 then x.2 else v)
    else (mk_counter (pressed x.1) (time x.1 - el), x.2);
  gu fl el v x :=
    match fl with
    | Need => negb (time x.1 =? 0) && negb (time x.1 <=? el)
    | Retry => negb (time x.1 =? 0) && (time x.1 <=? el) && pressed x.1
    | Changed => negb (time x.1 =? 0) && (time x.1 <=? el) && negb (pressed x.1) && xorb x.2 v
    end;
  fx v x :=
    if xorb v x.2 then
      if time x.1 =? 0 then (mk_counter v D, if v then negb x.2 else x.2) else x
    else if negb (time x.1 =? 0) && negb (pressed x.1) then (mk_counter (pressed x.1) 0, x.2) else x;
  gx fl v x :=
    match fl with
    | Need => xorb v x.2 && (time x.1 =? 0)
    | Retry => false
    | Changed => xorb v x.2 && (time x.1 =? 0) && v
    end;
|}.

#[local] Existing Instance asym.

Ltac cases el c :=
  destruct (Z.eqb_spec c 0) as [->|]; cbn in *; [|destruct (Z.leb_spec c el); cbn in *;
    try rewrite (proj2 (Z.eqb_neq (c - el) 0)) by lia; cbn in * ].

Lemma asym_laws : CellLaws debounce_counter_t bool asym.
Proof using D_ok.
  split; unfold cell_scan; cbn; intros.
  - tauto.
  - by destruct (time x.1 =? 0).
  - destruct fl, (time x.1 =? 0); done.
  - destruct x as [[p c] b]; cbn in *. repeat case_if; b2p; try done; try lia; repeat f_equal; lia.
  - destruct x as [[p c] b]; cbn in *. destruct fl; [done| |]; b2p; lia.
  - destruct x as [[p c] b]; cbn in *. destruct (c =? 0) eqn:E; b2p; subst; cbn in *; [done|].
    destruct (c <=? el) eqn:E2; cbn in *; done.
  - destruct x as [[p c] b]; cbn in *.
    destruct v, b, p; cbn in *; destruct (c =? 0) eqn:E; cbn in *; rewrite ?E in *; auto.
  - done.
  - destruct x as [[p c] b]; cbn in *. cases el c; destruct v, b, p; cbn;
      rewrite ?(proj2 (Z.eqb_neq (c - el) 0)) by lia; cbn;
      repeat split; intros; try done; lia.
  - destruct x as [[p c] b]; cbn in *. destruct H0 as (Hc & Hi & Hj).
    cases el c; destruct v, b, p; cbn in *; try done;
      rewrite ?(proj2 (Z.eqb_neq (c - el) 0)) by lia; cbn; try done;
      try (specialize (Hi eq_refl); done);
      try (specialize (Hj eq_refl eq_refl); lia).
  - destruct x as [[p c] b]; cbn in *. cases el c; destruct v, b, p; cbn;
      rewrite ?(proj2 (Z.eqb_neq (c - el) 0)) by lia; cbn; split; try tauto; intros [?|?]; done.
Qed.

(** What holds of a cell that starts up, on top of [settled]. *)
Definition asym_ok (x : debounce_counter_t * bool) : Prop :=
  0 <= time x.1 <= D /\ (time x.1 <> 0 -> x.2 = true).

Lemma asym_scan_ok v el x : asym_ok x -> 0 <= el -> asym_ok (cell_scan v el x).
Proof using D_ok.
  destruct x as [[p c] b]. unfold asym_ok, cell_scan. cbn. intros [Hc Hb] He.
  cases el c; [|rewrite Hb in * by done..]; destruct v, p; try destruct b; cbn;
      rewrite ?(proj2 (Z.eqb_neq (c - el) 0)) by lia; cbn; split; intros; try done; lia.
Qed.

Lemma asym_run_ok t x h p : asym_ok x -> timely p t h -> asym_ok (cell_run t x h).
Proof using D_ok.
  revert t x. induction h as [|[t' v] h IH]; intros t x Hx Ht; [done|].
  destruct Ht as [Hg Ht]. cbn [cell_run]. apply IH; [|done].
  apply asym_scan_ok; [done|unfold elapsed; lia].
Qed.

(** A cell that is down at a scan is seen down after it. *)
Lemma asym_press t x h t1 p : asym_ok x -> timely p t (h ++ [(t1, true)]) ->
  (cell_run t x (h ++ [(t1, true)])).2 = true.
Proof using D_ok.
  intros Hx Ht. apply timely_app in Ht as [Ht _]. rewrite cell_run_app. cbn [cell_run].
  destruct (asym_run_ok t x h p Hx Ht) as [Hc Hb]. revert Hc Hb.
  generalize (cell_run t x h) as y, (elapsed (t1 - last_scan t h)) as el. intros [[q c] b] el Hc Hb.
  unfold cell_scan. cbn in *. cases el c; [|rewrite Hb by done..]; destruct q; try destruct b; done.
Qed.

(** A release's counter tells for how long the cell has been up. *)
Lemma asym_counter t x h p : asym_ok x -> time x.1 = 0 -> timely p t h ->
  time (cell_run t x h).1 <> 0 -> pressed (cell_run t x h).1 = false ->
  held_for false (D - time (cell_run t x h).1) t h.
Proof using D_ok.
  intros Hx H0. induction h as [|[t1 v] h IH] using rev_ind; intros Ht; [done|].
  apply timely_app in Ht as [Ht [Hg _]]. specialize (IH Ht). rewrite cell_run_app. cbn [cell_run].
  destruct (asym_run_ok t x h p Hx Ht) as [Hc Hb]. revert Hc Hb IH.
  generalize (cell_run t x h) as y. intros [[q c] b] Hc Hb Hh. cbn [fst snd] in *.
  assert (He : 0 <= elapsed (t1 - last_scan t h) <= t1 - last_scan t h) by (unfold elapsed; lia).
  revert He. generalize (elapsed (t1 - last_scan t h)) as el. intros el He.
  assert (Hnow : v = false -> held_for false (D - D) t (h ++ [(t1, v)]))
    by (intros ->; rewrite Z.sub_diag; apply held_for_now).
  assert (Hmore : v = false -> c <> 0 -> q = false -> held_for false (D - (c - el)) t (h ++ [(t1, v)])).
  { intros -> Hn ->. apply (held_for_le _ (D - c + (t1 - last_scan t h))); [|lia].
    apply held_for_snoc. by apply Hh. }
  unfold cell_scan. cbn in *. cases el c; [|rewrite Hb by done..]; destruct v, q; try destruct b; cbn;
    rewrite ?(proj2 (Z.eqb_neq (c - el) 0)) by lia; cbn; intros; try done; auto.
Qed.

(** A release is not made before the cell has been up for [D]. *)
Lemma asym_release t x h t1 v1 p : asym_ok x -> time x.1 = 0 -> timely p t (h ++ [(t1, v1)]) ->
  (cell_run t x h).2 = true -> (cell_run t x (h ++ [(t1, v1)])).2 = false ->
  held_for false D t (h ++ [(t1, v1)]).
Proof using D_ok.
  intros Hx H0 Ht. apply timely_app in Ht as [Ht [Hg _]].
  pose proof (asym_counter t x h p Hx H0 Ht) as Hh. rewrite cell_run_app. cbn [cell_run].
  destruct (asym_run_ok t x h p Hx Ht) as [Hc Hb]. revert Hc Hb Hh.
  generalize (cell_run t x h) as y. intros [[q c] b] Hc Hb Hh. cbn [fst snd] in *. intros ->.
  assert (He : 0 <= elapsed (t1 - last_scan t h) <= t1 - last_scan t h) by (unfold elapsed; lia).
  revert He. generalize (elapsed (t1 - last_scan t h)) as el. intros el He.
  unfold cell_scan. cbn in *. cases el c; destruct v1, q; cbn;
    rewrite ?(proj2 (Z.eqb_neq (c - el) 0)) by lia; try done; cbn; intros _.
  apply (held_for_le _ (D - c + (t1 - last_scan t h))); [|lia]. apply held_for_snoc. by apply Hh.
Qed.

(** While the cell stays up, a lockout runs out, then a release. *)
Lemma asym_lockout t x h p t0 : asym_ok x -> t0 <= t -> timely p t h -> Forall (fun q => q.2 = false) h ->
  (x.2 = true -> time x.1 <> 0) ->
  (x.2 = false \/ pressed x.1 = false \/ time x.1 <= D - (t - t0)) ->
  let y := cell_run t x h in
  (y.2 = true -> time y.1 <> 0)
  /\ (y.2 = false \/ pressed y.1 = false \/ time y.1 <= D - (last_scan t h - t0)).
Proof using D_ok.
  revert t x. induction h as [|[t' v] h IH]; intros t x Hx Hle Ht Hall Hb Hi; [done|].
  destruct Ht as [Hg Ht]. apply Forall_cons_1 in Hall as [Hv Hall]. cbn [snd] in Hv. subst v.
  rewrite last_scan_cons. cbn [cell_run].
  assert (He : 0 <= elapsed (t' - t)) by (unfold elapsed; lia).
  assert (Hm : elapsed (t' - t) = t' - t \/ 255 <= elapsed (t' - t)) by (unfold elapsed; lia).
  apply IH; [by apply asym_scan_ok|lia|done|done| |];
    destruct x as [[q c] b], Hx as [Hc Hb']; revert He Hm; generalize (elapsed (t' - t)) as el;
    intros el He Hm; unfold cell_scan; cbn in *;
    cases el c; destruct b, q; cbn in *; try done; try lia; try (specialize (Hb eq_refl); lia); auto;
    rewrite ?(proj2 (Z.eqb_neq (c - el) 0)) by lia; cbn; try done; try lia; auto.
  all: right; right; destruct Hi as [|[|]]; [done|done|lia].
Qed.

Lemma asym_drain t x h p t0 : asym_ok x -> t0 <= t -> timely p t h -> Forall (fun q => q.2 = false) h ->
  (x.2 = true -> time x.1 <> 0) ->
  (x.2 = false \/ pressed x.1 = false /\ time x.1 <= D - (t - t0)) ->
  D <= last_scan t h - t0 -> (cell_run t x h).2 = false.
Proof using D_ok.
  revert t x. induction h as [|[t' v] h IH]; intros t x Hx Hle Ht Hall Hb Hi HD.
  { destruct x as [[q c] b], Hx as [Hc Hb']. unfold last_scan in HD. cbn in *.
    destruct b; [|done]. destruct Hi as [|[_ Hi]]; [done|]. specialize (Hb eq_refl). lia. }
  destruct Ht as [Hg Ht]. apply Forall_cons_1 in Hall as [Hv Hall]. cbn [snd] in Hv. subst v.
  rewrite last_scan_cons in HD. cbn [cell_run].
  assert (He : 0 <= elapsed (t' - t)) by (unfold elapsed; lia).
  assert (Hm : elapsed (t' - t) = t' - t \/ 255 <= elapsed (t' - t)) by (unfold elapsed; lia).
  apply (IH t'); [by apply asym_scan_ok|lia|done|done| | |done];
    destruct x as [[q c] b], Hx as [Hc Hb']; revert He Hm; generalize (elapsed (t' - t)) as el;
    intros el He Hm; unfold cell_scan; cbn in *;
    cases el c; destruct b, q; cbn in *; try done; try lia; try (specialize (Hb eq_refl); lia); auto;
    rewrite ?(proj2 (Z.eqb_neq (c - el) 0)) by lia; cbn; try done; try lia; auto.
  all: right; destruct Hi as [|[? ?]]; [done|split; [done|lia]].
Qed.

(** A cell that stays up is seen up once it has been for [D] twice over. *)
Lemma asym_settles t x pre t0 v0 mid t1 v1 mid' p : asym_ok x ->
  timely p t (pre ++ (t0, v0) :: mid ++ (t1, v1) :: mid') ->
  Forall (fun q => q.2 = false) ((t0, v0) :: mid ++ (t1, v1) :: mid') ->
  D <= t1 - t0 -> D <= last_scan t1 mid' - t1 ->
  (cell_run t x (pre ++ (t0, v0) :: mid ++ (t1, v1) :: mid')).2 = false.
Proof using D_ok.
  intros Hx Ht Hall HD0 HD1. apply Forall_cons_1 in Hall as [Hv0 Hall]. cbn [snd] in Hv0. subst v0.
  apply Forall_app in Hall as [Hmid Hall]. apply Forall_cons_1 in Hall as [Hv1 Hall].
  cbn [snd] in Hv1. subst v1.
  apply timely_app in Ht as [Htp [Hg Ht]]. apply timely_app in Ht as [Htm [Hg1 Ht]].
  pose proof (asym_run_ok t x pre p Hx Htp) as Hxp.
  rewrite cell_run_app. cbn [cell_run].
  set (y := cell_scan false (elapsed (t0 - last_scan t pre)) (cell_run t x pre)).
  assert (He : 0 <= elapsed (t0 - last_scan t pre)) by (unfold elapsed; lia).
  pose proof (asym_scan_ok false _ _ Hxp He) as Hy.
  destruct (@scan_settled _ _ _ asym_laws _ false (cell_run t x pre) He (proj1 Hxp)) as (_ & Hs & _).
  fold y in Hy, Hs.
  replace (mid ++ (t1, false) :: mid') with ((mid ++ [(t1, false)]) ++ mid') by (by rewrite <- app_assoc).
  rewrite cell_run_app, last_scan_snoc. cbn [fst].
  assert (Htm1 : timely p t0 (mid ++ [(t1, false)])) by (apply timely_app; split; [done|by split]).
  destruct (asym_lockout t0 y (mid ++ [(t1, false)]) p t0) as [Hb Hi]; [done|lia|done| | | |].
  - apply Forall_app. split; [done|by repeat constructor].
  - intros Hy2 H0. specialize (Hs H0). rewrite Hy2 in Hs. done.
  - right; right. destruct Hy as [Hy _]. lia.
  - rewrite last_scan_snoc in Hi. cbn [fst] in Hi.
    pose proof (asym_run_ok t0 y _ p Hy Htm1) as Hz.
    apply (asym_drain t1 _ mid' p t1); [done|lia|done|done|done| |done].
    destruct (cell_run t0 y (mid ++ [(t1, false)])) as [[q c] b], Hz as [Hc Hcb]. cbn in *.
    destruct b; [|by left]. right. specialize (Hb eq_refl). destruct Hi as [|[->|Hi]]; [done| |lia].
    split; [done|lia].
Qed.
End asym.
