(* ===== verification/DebounceProofs.v ===== *)
(** The debounce algorithms act on each key, or each row, as the automata of
    DebounceAutomata; what that means for a keyboard that scans its matrix. *)

From S2P Require Import Prelude.
From S2P Require Import Debounce.
From S2P Require Import DebounceCells.
From S2P Require Import DebounceAutomata.

Section keys.
Context {cfg : DebounceConfig} {ok : DebounceConfigOk cfg}.

(** ** The matrix as keys *)

Definition key_valid (k : Z * Z) : Prop := 0 <= k.1 < num_rows /\ 0 <= k.2 < num_cols.
Definition key_raw (raw : list Z) (k : Z * Z) : bool := Z.testbit (nthZ raw k.1) k.2.

Section state.
Context {C : Type} `{Inhabited C}.
Implicit Types s : statics C.

Definition key_cell (cs : list C) (m : list Z) (k : Z * Z) : C * bool :=
  (cs !!! Z.to_nat (pointer k.1 k.2), key_raw m k).
Definition key_wf (cs : list C) (m : list Z) : Prop :=
    lenZ cs = num_rows * num_cols /\ lenZ m = num_rows.

Abbreviation cell := (cell key_cell).
Abbreviation wf := (wf key_wf).
Abbreviation effect := (effect key_valid key_cell key_wf).

Lemma pointer_range k : key_valid k -> 0 <= pointer k.1 k.2 < num_rows * num_cols.
Proof using. unfold key_valid, pointer. destruct k as [r c]. cbn. nia. Qed.

Lemma pointer_inj k k' : key_valid k -> key_valid k' -> pointer k.1 k.2 = pointer k'.1 k'.2 -> k = k'.
Proof using.
  unfold key_valid, pointer. destruct k as [r c], k' as [r' c']. cbn. intros H1 H2 E.
  assert (r = r') by nia. subst r'. f_equal. lia.
Qed.

Lemma cell_put k k' x s cs m : key_valid k -> key_valid k' -> wf s ->
  (cs = <[Z.to_nat (pointer k.1 k.2) := x.1]> (counters s) \/ cs = counters s /\ (cell s k).1 = x.1) ->
  ((exists w, m = updZ (cooked s) k.1 w
      /\ forall i, 0 <= i -> Z.testbit w i = if i =? k.2 then x.2 else Z.testbit (nthZ (cooked s) k.1) i)
   \/ m = cooked s /\ (cell s k).2 = x.2) ->
  key_wf cs m /\ key_cell cs m k' = if decide (k' = k) then x else cell s k'.
Proof using.
  intros Hk Hk' [Hl Hm] Hcs Hms. split.
  { split; [|destruct Hms as [(w & -> & _)|[-> _]]; by rewrite ?lenZ_updZ].
    destruct Hcs as [->|[-> _]]; [|done]. unfold lenZ in *. by rewrite length_insert. }
  pose proof (pointer_range k Hk) as Hp. pose proof (pointer_range k' Hk') as Hp'.
  unfold lenZ in Hl. unfold DebounceCells.cell, key_cell, key_raw in *. cbn [fst snd] in *.
  assert (E1 : cs !!! Z.to_nat (pointer k'.1 k'.2)
               = if decide (k' = k) then x.1 else counters s !!! Z.to_nat (pointer k'.1 k'.2)).
  { destruct Hcs as [->|[-> Hx]]; case_decide as Hd; subst; try done.
    - by rewrite list_lookup_total_insert_eq by lia.
    - rewrite list_lookup_total_insert_ne; [done|]. intros E. apply Hd.
      apply pointer_inj; [done|done|]. lia. }
  assert (E2 : Z.testbit (nthZ m k'.1) k'.2
               = if decide (k' = k) then x.2 else Z.testbit (nthZ (cooked s) k'.1) k'.2).
  { destruct Hk as [Hk1 Hk2], Hk' as [Hk1' Hk2'].
    destruct Hms as [(w & -> & Hw)|[-> Hx]]; case_decide as Hd; subst; try done.
    - rewrite nthZ_updZ_eq, Hw, Z.eqb_refl by lia. done.
    - destruct k as [r c], k' as [r' c']; cbn [fst snd] in *. destruct (Z.eq_dec r r') as [->|];
        [|by rewrite nthZ_updZ_ne by done].
      rewrite nthZ_updZ_eq, Hw by lia. rewrite (proj2 (Z.eqb_neq c' c)) by congruence. done. }
  rewrite E1, E2. destruct x. by case_decide.
Qed.

(** A step on one key [k]: [x] is its cell afterwards. *)
Lemma key_step k x f g s s' : key_valid k -> wf s -> last_time s' = last_time s ->
  f k (cell s k) = x ->
  (counters s' = <[Z.to_nat (pointer k.1 k.2) := x.1]> (counters s)
   \/ counters s' = counters s /\ (cell s k).1 = x.1) ->
  ((exists w, cooked s' = updZ (cooked s) k.1 w
      /\ forall i, 0 <= i -> Z.testbit w i = if i =? k.2 then x.2 else Z.testbit (nthZ (cooked s) k.1) i)
   \/ cooked s' = cooked s /\ (cell s k).2 = x.2) ->
  (forall fl, get_flag fl s' = get_flag fl s || g fl k (cell s k)) ->
  effect (eq k) f g s s'.
Proof using.
  intros Hk Hw Ht Hx Hc Hm Hf. pose proof (fun k' Hk' => cell_put k k' x s _ _ Hk Hk' Hw Hc Hm) as Hp.
  split; [exact (proj1 (Hp k Hk))|]. split; [done|].
  assert (Hcell : forall k', key_valid k' -> cell s' k' = if decide (k' = k) then x else cell s k')
    by (intros k' Hk'; exact (proj2 (Hp k' Hk'))).
  repeat split.
  - intros k' Hk' <-. by rewrite Hcell, decide_True by done.
  - intros k' Hk' Hne. rewrite Hcell by done. rewrite decide_False by congruence. done.
  - rewrite Hf. intros [Hg|Hg]%orb_true_iff; [by left|right; eauto].
  - rewrite Hf. intros [->|(k' & _ & <- & ->)]; [done|by rewrite orb_true_r].
Qed.

(** The loops over the columns of a row and over the rows. *)
Lemma cols_effect row f g (body : Z -> statics C -> statics C) s0 :
  wf s0 -> 0 <= row < num_rows ->
  (forall col s, 0 <= col < num_cols -> wf s -> cell s (row, col) = cell s0 (row, col) ->
     effect (eq (row, col)) f g s (body col s)) ->
  effect (fun k => k.1 = row) f g s0 (for_Z 0 num_cols body s0).
Proof using ok.
  intros Hw Hr Hb. pose proof (@cols_nonneg _ ok).
  apply (effect_loop _ _ _ (fun col => eq (row, col))); [done|done| | |].
  - intros i j k <- [=]. done.
  - intros [r c] [? ?]. cbn in *. split; [intros ->; exists c; split; [lia|done]|].
    intros (i & _ & [= -> _]). done.
  - intros i s Hi Hws Hc. apply Hb; [done|done|]. apply Hc; [done|done].
Qed.

Lemma rows_effect f g (body : Z -> statics C -> statics C) s0 : wf s0 ->
  (forall row s, 0 <= row < num_rows -> wf s -> effect (fun k => k.1 = row) f g s (body row s)) ->
  effect (fun _ => True) f g s0 (for_Z 0 num_rows body s0).
Proof using ok.
  intros Hw Hb. pose proof (@rows_nonneg _ ok).
  apply (effect_loop _ _ _ (fun row k => k.1 = row)); [done|done| | |].
  - intros i j k <- <-. done.
  - intros [r c] [? ?]. cbn in *. split; [intros _; exists r; split; [lia|done]|done].
  - intros i s Hi Hws _. by apply Hb.
Qed.

Lemma for_keys_effect f g (body : Z -> Z -> statics C -> statics C) s0 : wf s0 ->
  (forall row col s, key_valid (row, col) -> wf s -> effect (eq (row, col)) f g s (body row col s)) ->
  effect (fun _ => True) f g s0 (for_keys body s0).
Proof using ok.
  intros Hw Hb. apply rows_effect; [done|]. intros row s Hr Hws.
  apply cols_effect; [done|done|]. intros col s' Hc Hws' _. by apply Hb.
Qed.
End state.
End keys.

(** Opens the step of a loop on the key [row], [col]: [c] and [b] are its
    counter and its cooked value. *)
Ltac open_key C s row col c b :=
  cbv beta zeta;
  change (counter s (pointer row col)) with ((cell (C:=C) key_cell s (row, col)).1);
  let Ex := fresh "Ex" in
  destruct (cell (C:=C) key_cell s (row, col)) as [c b] eqn:Ex; cbn [fst snd];
  assert (Z.testbit (nthZ (cooked s) row) col = b) by (injection Ex as _ <-; done).

(** Rewrites with the tests decided so far. *)
Ltac decided :=
  repeat match goal with
  | H : ?a = true |- context [?a] => rewrite H
  | H : ?a = false |- context [?a] => rewrite H
  end; cbn.

Ltac flags Ex := let fl := fresh "fl" in
  intros fl; rewrite Ex; destruct fl; cbn; decided;
  rewrite ?andb_true_r, ?andb_false_r, ?orb_false_r, ?orb_true_r; try done.

Ltac fields := cbn [fst snd counters cooked set_counter set_cooked set_cooked_changed
  set_counters_need_update set_matrix_need_update].

Ltac key Ex := rewrite Ex; cbn; decided; try done.

(** ** [sym_defer_pk.c] *)

Section sym_defer_pk.
Context {cfg : DebounceConfig} {ok : DebounceConfigOk cfg}.
Import SymDeferPk.

Lemma DEBOUNCE_range : 0 < DEBOUNCE <= 255.
Proof using ok. pose proof (@debounce_positive _ ok). unfold DEBOUNCE, UINT8_MAX. case_if; lia. Qed.

#[local] Instance defer_alg : CellAlgorithm Z bool := defer DEBOUNCE.
#[local] Instance defer_cell_laws : CellLaws Z bool defer_alg := defer_laws DEBOUNCE DEBOUNCE_range.

#[local] Instance defer_passes : Passes key_valid key_cell key_wf key_raw
  update_debounce_counters_and_transfer_if_expired start_debounce_counters (fun _ => false).
Proof using ok.
  split.
  - intros raw el s0 Hw _. apply for_keys_effect; [done|]. intros row col s Hk Hws.
    pose proof (proj1 (proj2 Hk)) as Hc0. cbn in Hc0.
    open_key Z s row col c b. unfold DEBOUNCE_ELAPSED.
    destruct (c =? 0) eqn:E0; cbn [negb]; [|destruct (c <=? el) eqn:El].
    + apply (key_step _ (c, b)); [done..| | | |flags Ex].
      * key Ex.
      * right. by rewrite Ex.
      * right. by rewrite Ex.
    + apply (key_step _ (0, key_raw raw (row, col))); [done..| | | |].
      * key Ex.
      * by left.
      * left. eexists. split; [done|]. intros i Hi. fields.
        fold (cooked_next (nthZ (cooked s) row) (nthZ raw row) col).
        rewrite testbit_cooked_next by done. destruct (Z.eqb_spec i col); by subst.
      * flags Ex. fields.
        fold (cooked_next (nthZ (cooked s) row) (nthZ raw row) col).
        rewrite truthy_lxor_next by done. by rewrite H.
    + apply (key_step _ (c - el, b)); [done..| | | |].
      * key Ex.
      * by left.
      * right. by rewrite Ex.
      * flags Ex.
  - intros raw s0 Hw Hr.
    replace (set_matrix_need_update false s0) with s0 by (by destruct s0; cbn in *; subst).
    apply rows_effect; [done|]. intros row s1 Hrow Hw1. cbv beta zeta.
    apply cols_effect; [done|done|]. intros col s Hcol Hws Heq.
    assert (Hk : key_valid (row, col)) by done.
    rewrite truthy_col, Z.lxor_spec by lia.
    change (Z.testbit (nthZ (cooked s1) row) col) with ((cell key_cell s1 (row, col)).2).
    change (Z.testbit (nthZ raw row) col) with (key_raw raw (row, col)). rewrite <- Heq.
    open_key Z s row col c b. unfold DEBOUNCE_ELAPSED.
    destruct (xorb (key_raw raw (row, col)) b) eqn:Ed; [destruct (c =? 0) eqn:E0|].
    + apply (key_step _ (DEBOUNCE, b)); [done..| | | |flags Ex]; [key Ex|by left|right; key Ex].
    + apply (key_step _ (c, b)); [done..| | | |flags Ex]; [key Ex|right; key Ex|right; key Ex].
    + apply (key_step _ (0, b)); [done..| | | |flags Ex]; [key Ex|by left|right; key Ex].
  - right. done.
Qed.
End sym_defer_pk.

(** ** [sym_eager_pk.c] *)

Section sym_eager_pk.
Context {cfg : DebounceConfig} {ok : DebounceConfigOk cfg}.
Import SymEagerPk.

#[local] Instance eager_alg : CellAlgorithm Z bool := eager DEBOUNCE.
#[local] Instance eager_cell_laws : CellLaws Z bool eager_alg := eager_laws DEBOUNCE DEBOUNCE_range.

(** The inner loop with the row in place. *)
Definition transfer_key (delta row col : Z) (s : statics Z) : statics Z :=
  let i := pointer row col in
  if truthy (delta .& col_mask col) then
    if counter s i =? DEBOUNCE_ELAPSED then
      let s := set_counters_need_update true (set_counter i DEBOUNCE s) in
      set_cooked row (nthZ (cooked s) row .^ col_mask col) (set_cooked_changed true s)
    else s
  else s.

Lemma transfer_row_in_place raw row s : 0 <= row < lenZ (cooked s) ->
  (let delta := nthZ raw row .^ nthZ (cooked s) row in
   let existing_row := nthZ (cooked s) row in
   let '(s, existing_row) := for_Z 0 num_cols (fun col '(s, existing_row) =>
     let i := pointer row col in
     if truthy (delta .& col_mask col) then
       if counter s i =? DEBOUNCE_ELAPSED then
         let s := set_counters_need_update true (set_counter i DEBOUNCE s) in
         (set_cooked_changed true s, existing_row .^ col_mask col)
       else (s, existing_row)
     else (s, existing_row)) (s, existing_row) in
   set_cooked row existing_row s)
  = for_Z 0 num_cols (transfer_key (nthZ raw row .^ nthZ (cooked s) row) row) s.
Proof using.
  intros Hr. cbv zeta. set (delta := nthZ raw row .^ nthZ (cooked s) row).
  set (h := fun '(s, w) => set_cooked (C:=Z) row w s).
  assert (E : h (s, nthZ (cooked s) row) = s).
  { destruct s. unfold h, set_cooked. cbn. by rewrite updZ_id. }
  transitivity (for_Z 0 num_cols (transfer_key delta row) (h (s, nthZ (cooked s) row))); [|by rewrite E].
  rewrite <- (for_Z_hom h (fun x => lenZ (cooked x.1) = lenZ (cooked s))
    (fun col '(s, existing_row) =>
     if truthy (delta .& col_mask col) then
       if counter s (pointer row col) =? DEBOUNCE_ELAPSED then
         (set_cooked_changed true (set_counters_need_update true (set_counter (pointer row col) DEBOUNCE s)),
          existing_row .^ col_mask col)
       else (s, existing_row)
     else (s, existing_row))); [|done|].
  - by destruct (for_Z _ _ _ _).
  - intros col [s' w] Hcol Hl. cbn [fst] in Hl. unfold h, transfer_key.
    change (counter (set_cooked row w s') (pointer row col)) with (counter s' (pointer row col)).
    destruct (truthy _); [|done]. destruct (_ =? _); [|done]. split; [done|].
    unfold set_cooked. cbn. by rewrite updZ_updZ, nthZ_updZ_eq by lia.
Qed.

#[local] Instance eager_passes : Passes key_valid key_cell key_wf key_raw
  (fun _ => update_debounce_counters) transfer_matrix_values matrix_need_update.
Proof using ok.
  split.
  - intros raw el s0 Hw Hr.
    replace (set_counters_need_update false s0)
      with (set_matrix_need_update false (set_counters_need_update false s0))
      by (destruct s0; cbn in *; by subst).
    apply for_keys_effect; [done|]. intros row col s Hk Hws.
    open_key Z s row col c b. unfold DEBOUNCE_ELAPSED.
    destruct (c =? 0) eqn:E0; cbn [negb]; [|destruct (c <=? el) eqn:El].
    + apply (key_step _ (c, b)); [done..| | | |flags Ex]; [key Ex|right; key Ex|right; key Ex].
    + apply (key_step _ (0, b)); [done..| | | |flags Ex]; [key Ex|by left|right; key Ex].
    + apply (key_step _ (c - el, b)); [done..| | | |flags Ex]; [key Ex|by left|right; key Ex].
  - intros raw s0 Hw _. apply rows_effect; [done|]. intros row s1 Hrow Hw1.
    rewrite transfer_row_in_place by (rewrite (proj2 Hw1); done).
    apply cols_effect; [done|done|]. intros col s Hcol Hws Heq.
    assert (Hk : key_valid (row, col)) by done. unfold transfer_key.
    rewrite truthy_col, Z.lxor_spec by lia.
    change (Z.testbit (nthZ (cooked s1) row) col) with ((cell key_cell s1 (row, col)).2).
    change (Z.testbit (nthZ raw row) col) with (key_raw raw (row, col)). rewrite <- Heq.
    open_key Z s row col c b. unfold DEBOUNCE_ELAPSED.
    destruct (xorb (key_raw raw (row, col)) b) eqn:Ed; [destruct (c =? 0) eqn:E0|].
    + assert (Hne : key_raw raw (row, col) <> b) by (destruct (key_raw raw (row, col)), b; done).
      pose proof (bool_decide_eq_false_2 _ Hne) as Hbd.
      apply (key_step _ (DEBOUNCE, key_raw raw (row, col))); [done..| | | |flags Ex].
      * key Ex. by rewrite decide_False by done.
      * by left.
      * left. eexists. split; [done|]. intros i Hi. fields. rewrite testbit_toggle by lia.
        destruct (Z.eqb_spec i col) as [->|]; [|done]. rewrite H.
        destruct (key_raw raw (row, col)), b; done.
    + assert (Hne : key_raw raw (row, col) <> b) by (destruct (key_raw raw (row, col)), b; done).
      apply (key_step _ (c, b)); [done..| | | |flags Ex]; [|right; key Ex|right; key Ex].
      key Ex. by rewrite decide_False by done.
    + apply xorb_eq in Ed. pose proof (bool_decide_eq_true_2 _ Ed) as Hbd.
      apply (key_step _ (c, b)); [done..| | | |flags Ex]; [|right; key Ex|right; key Ex].
      key Ex. by rewrite decide_True by done.
  - by left.
Qed.
End sym_eager_pk.

(** ** [asym_eager_defer_pk.c] *)

Section asym_eager_defer_pk.
Context {cfg : DebounceConfig} {ok : DebounceConfigOk cfg}.
Import AsymEagerDeferPk.

Lemma asym_DEBOUNCE_range : 0 < AsymEagerDeferPk.DEBOUNCE <= 255.
Proof using ok. pose proof (@debounce_positive _ ok). unfold DEBOUNCE. case_if; lia. Qed.

#[local] Instance asym_alg : CellAlgorithm debounce_counter_t bool := asym AsymEagerDeferPk.DEBOUNCE.
#[local] Instance asym_cell_laws : CellLaws debounce_counter_t bool asym_alg :=
  asym_laws AsymEagerDeferPk.DEBOUNCE asym_DEBOUNCE_range.

(** A counter written in two steps. *)
Lemma counter_set_counter (s : statics debounce_counter_t) i c :
  0 <= i < lenZ (counters s) -> counter (set_counter i c s) i = c.
Proof using.
  intros H. unfold counter, set_counter, lenZ in *. cbn. by rewrite list_lookup_total_insert_eq by lia.
Qed.

Lemma set_counter_twice (s : statics debounce_counter_t) i c d :
  set_counter i d (set_counter i c s) = set_counter i d s.
Proof using. unfold set_counter. cbn. by rewrite list_insert_insert_eq. Qed.

#[local] Instance asym_passes : Passes key_valid key_cell key_wf key_raw
  update_debounce_counters_and_transfer_if_expired transfer_matrix_values matrix_need_update.
Proof using ok.
  split.
  - intros raw el s0 Hw Hr.
    replace (set_counters_need_update false s0)
      with (set_matrix_need_update false (set_counters_need_update false s0))
      by (destruct s0; cbn in *; by subst).
    apply for_keys_effect; [done|]. intros row col s Hk Hws.
    pose proof (pointer_range _ Hk) as Hp. cbn [fst snd] in Hp. rewrite <- (proj1 Hws) in Hp.
    pose proof (proj1 (proj2 Hk)) as Hc0. cbn in Hc0. unfold set_time. cbv zeta.
    rewrite counter_set_counter by done. cbn [pressed].
    open_key debounce_counter_t s row col c b. destruct c as [p c]. cbn [time pressed].
    unfold DEBOUNCE_ELAPSED.
    destruct (c =? 0) eqn:E0; cbn [negb]; [|destruct (c <=? el) eqn:El; [destruct p|]].
    + apply (key_step _ (mk_counter p c, b)); [done..| | | |flags Ex]; [key Ex|right; key Ex|right; key Ex].
    + apply (key_step _ (mk_counter true 0, b)); [done..| | | |flags Ex]; [key Ex|by left|right; key Ex].
    + apply (key_step _ (mk_counter false 0, key_raw raw (row, col))); [done..| | | |].
      * key Ex.
      * by left.
      * left. eexists. split; [done|]. intros i Hi. fields.
        fold (cooked_next (nthZ (cooked s) row) (nthZ raw row) col).
        rewrite testbit_cooked_next by done. destruct (Z.eqb_spec i col); by subst.
      * flags Ex. fields. fold (cooked_next (nthZ (cooked s) row) (nthZ raw row) col).
        rewrite Z.lxor_comm, truthy_lxor_next by done. by rewrite H.
    + apply (key_step _ (mk_counter p (c - el), b)); [done..| | | |flags Ex]; [key Ex|by left|right; key Ex].
  - intros raw s0 Hw _. apply rows_effect; [done|]. intros row s1 Hrow Hw1. cbv beta zeta.
    apply cols_effect; [done|done|]. intros col s Hcol Hws Heq.
    assert (Hk : key_valid (row, col)) by done.
    pose proof (pointer_range _ Hk) as Hp. cbn [fst snd] in Hp. rewrite <- (proj1 Hws) in Hp.
    rewrite !truthy_col, Z.lxor_spec by lia.
    change (Z.testbit (nthZ (cooked s1) row) col) with ((cell key_cell s1 (row, col)).2).
    change (Z.testbit (nthZ raw row) col) with (key_raw raw (row, col)). rewrite <- Heq.
    unfold set_time, set_pressed. cbv zeta.
    rewrite (counter_set_counter s) by done. rewrite set_counter_twice. cbn [pressed].
    change (counter (set_counters_need_update true ?s) ?i) with (counter s i).
    rewrite (counter_set_counter s) by done. cbn [pressed].
    open_key debounce_counter_t s row col c b. destruct c as [p c]. cbn [time pressed].
    unfold DEBOUNCE_ELAPSED. destruct (key_raw raw (row, col)) eqn:Er.
    + destruct b; cbn [xorb]; [destruct (c =? 0) eqn:E0; [|destruct p]|destruct (c =? 0) eqn:E0];
        cbn [negb].
      * apply (key_step _ (mk_counter p c, true)); [done..| | | |flags Ex]; [key Ex|right; key Ex|right; key Ex].
      * apply (key_step _ (mk_counter true c, true)); [done..| | | |flags Ex]; [key Ex|right; key Ex|right; key Ex].
      * apply (key_step _ (mk_counter false 0, true)); [done..| | | |flags Ex]; [key Ex|by left|right; key Ex].
      * apply (key_step _ (mk_counter true DEBOUNCE, true)); [done..| | | |flags Ex]; [key Ex|by left|].
        left. eexists. split; [done|]. intros i Hi. fields. rewrite testbit_toggle by lia.
        destruct (Z.eqb_spec i col) as [->|]; [|done]. by rewrite H.
      * apply (key_step _ (mk_counter p c, false)); [done..| | | |flags Ex]; [key Ex|right; key Ex|right; key Ex].
    + destruct b; cbn [xorb]; [destruct (c =? 0) eqn:E0|destruct (c =? 0) eqn:E0; [|destruct p]];
        cbn [negb].
      * apply (key_step _ (mk_counter false DEBOUNCE, true)); [done..| | | |flags Ex]; [key Ex|by left|right; key Ex].
      * apply (key_step _ (mk_counter p c, true)); [done..| | | |flags Ex]; [key Ex|right; key Ex|right; key Ex].
      * apply (key_step _ (mk_counter p c, false)); [done..| | | |flags Ex]; [key Ex|right; key Ex|right; key Ex].
      * apply (key_step _ (mk_counter true c, false)); [done..| | | |flags Ex]; [key Ex|right; key Ex|right; key Ex].
      * apply (key_step _ (mk_counter false 0, false)); [done..| | | |flags Ex]; [key Ex|by left|right; key Ex].
  - by left.
Qed.
End asym_eager_defer_pk.

(** ** [sym_eager_pr.c], whose cells are the rows *)

Section sym_eager_pr.
Context {cfg : DebounceConfig} {ok : DebounceConfigOk cfg}.
Import SymEagerPr.

Definition row_valid (row : Z) : Prop := 0 <= row < num_rows.
Definition row_cell (cs : list Z) (m : list Z) (row : Z) : Z * Z := (cs !!! Z.to_nat row, nthZ m row).
Definition row_wf (cs : list Z) (m : list Z) : Prop := lenZ cs = num_rows /\ lenZ m = num_rows.

#[local] Instance eager_row_alg : CellAlgorithm Z Z := eager DEBOUNCE.
#[local] Instance eager_row_laws : CellLaws Z Z eager_row_alg := eager_laws DEBOUNCE DEBOUNCE_range.

Lemma row_step row x f g s s' : row_valid row -> wf row_wf s -> last_time s' = last_time s ->
  f row (cell row_cell s row) = x ->
  counters s' = <[Z.to_nat row := x.1]> (counters s) ->
  cooked s' = updZ (cooked s) row x.2 ->
  (forall fl, get_flag fl s' = get_flag fl s || g fl row (cell row_cell s row)) ->
  effect row_valid row_cell row_wf (eq row) f g s s'.
Proof using.
  intros Hr [Hl Hm] Ht Hx Hc Hk Hf. unfold row_valid, lenZ in *.
  assert (Hcell : forall row', row_valid row' ->
      cell row_cell s' row' = if decide (row' = row) then x else cell row_cell s row').
  { intros row' Hr'. unfold row_valid in Hr'. unfold cell, row_cell. rewrite Hc, Hk. case_decide; subst.
    - rewrite list_lookup_total_insert_eq, nthZ_updZ_eq by (unfold lenZ; lia). by destruct (f row _).
    - by rewrite list_lookup_total_insert_ne, nthZ_updZ_ne by lia. }
  split.
  { split; rewrite ?Hc, ?Hk; [unfold lenZ; by rewrite length_insert|]. by rewrite lenZ_updZ. }
  split; [done|]. repeat split.
  - intros row' Hr' <-. by rewrite Hcell, decide_True by done.
  - intros row' Hr' Hne. rewrite Hcell by done. by rewrite decide_False by congruence.
  - rewrite Hf. intros [Hg|Hg]%orb_true_iff; [by left|right; eauto].
  - rewrite Hf. intros [->|(k' & _ & <- & ->)]; [done|by rewrite orb_true_r].
Qed.

Lemma counters_id (s : statics Z) i : 0 <= i < lenZ (counters s) ->
  counters s = <[Z.to_nat i := counter s i]> (counters s).
Proof using.
  intros H. symmetry. apply list_insert_id. unfold counter, lenZ in *.
  apply list_lookup_lookup_total_lt. lia.
Qed.

Lemma loop_effect f g (body : Z -> statics Z -> statics Z) s0 : wf row_wf s0 ->
  (forall row s, row_valid row -> wf row_wf s -> effect row_valid row_cell row_wf (eq row) f g s (body row s)) ->
  effect row_valid row_cell row_wf (fun _ => True) f g s0 (for_Z 0 num_rows body s0).
Proof using ok.
  intros Hw Hb. pose proof (@rows_nonneg _ ok).
  apply (effect_loop _ _ _ (fun row => eq row)); [done|done| | |].
  - intros i j k <- <-. done.
  - intros r Hr. split; [intros _; by exists r|done].
  - intros i s Hi Hws _. by apply Hb.
Qed.

#[local] Instance eager_row_passes : Passes row_valid row_cell row_wf (fun raw row => nthZ raw row)
  (fun _ => update_debounce_counters) transfer_matrix_values matrix_need_update.
Proof using ok.
  split.
  - intros raw el s0 Hw Hr.
    replace (set_counters_need_update false s0)
      with (set_matrix_need_update false (set_counters_need_update false s0))
      by (destruct s0; cbn in *; by subst).
    apply loop_effect; [done|]. intros row s Hk Hws. cbv beta zeta.
    pose proof Hk as Hk'. unfold row_valid in Hk'. rewrite <- (proj1 Hws) in Hk'.
    assert (Ex : cell row_cell s row = (counter s row, nthZ (cooked s) row)) by done.
    unfold DEBOUNCE_ELAPSED.
    destruct (counter s row =? 0) eqn:E0; cbn [negb]; [|destruct (counter s row <=? el) eqn:El].
    + apply (row_step _ (counter s row, nthZ (cooked s) row)); [done..| | | |flags Ex];
        [key Ex|by apply counters_id|symmetry; apply updZ_id].
    + apply (row_step _ (0, nthZ (cooked s) row)); [done..| | | |flags Ex];
        [key Ex|done|symmetry; apply updZ_id].
    + apply (row_step _ (counter s row - el, nthZ (cooked s) row)); [done..| | | |flags Ex];
        [key Ex|done|symmetry; apply updZ_id].
  - intros raw s0 Hw _. apply loop_effect; [done|]. intros row s Hk Hws. cbv beta zeta.
    pose proof Hk as Hk'. unfold row_valid in Hk'. rewrite <- (proj1 Hws) in Hk'.
    assert (Ex : cell row_cell s row = (counter s row, nthZ (cooked s) row)) by done.
    unfold DEBOUNCE_ELAPSED.
    destruct (Z.eqb_spec (nthZ (cooked s) row) (nthZ raw row)) as [Ed|Ed]; cbn [negb];
      [|destruct (counter s row =? 0) eqn:E0].
    + pose proof (bool_decide_eq_true_2 _ (eq_sym Ed)) as Hbd.
      apply (row_step _ (counter s row, nthZ (cooked s) row)); [done..| | | |flags Ex];
        [|by apply counters_id|symmetry; apply updZ_id].
      key Ex. by rewrite decide_True by done.
    + pose proof (bool_decide_eq_false_2 _ (not_eq_sym Ed)) as Hbd.
      apply (row_step _ (DEBOUNCE, nthZ raw row)); [done..| |done|done|].
      * key Ex. by rewrite decide_False by done.
      * flags Ex. rewrite truthy_lxor, (proj2 (Z.eqb_neq _ _) Ed). by rewrite orb_true_r.
    + pose proof (bool_decide_eq_false_2 _ (not_eq_sym Ed)) as Hbd.
      apply (row_step _ (counter s row, nthZ (cooked s) row)); [done..| | | |flags Ex];
        [|by apply counters_id|symmetry; apply updZ_id].
      key Ex. by rewrite decide_False by done.
  - by left.
Qed.
End sym_eager_pr.
