(* ===== verification/DebounceTheorems.v ===== *)
(** What the debounce algorithms do for a keyboard that scans its matrix:
    noise is filtered, a steady key is seen, and the value returned says
    whether anything has changed. *)

From S2P Require Import Prelude.
From S2P Require Import Debounce.
From S2P Require Import DebounceCells.
From S2P Require Import DebounceAutomata.
From S2P Require Import DebounceProofs.

Section theorems.
Context {cfg : DebounceConfig} {ok : DebounceConfigOk cfg}.

(** No key down. *)
Definition all_up : list Z := memset 0 num_rows.

(** The cooked value of a key after a session. *)
Definition seen {C} (st : list Z * statics C) (row col : Z) : bool :=
  Z.testbit (nthZ (cooked st.2) row) col.

Lemma start_rest {C K V} {Hi : Inhabited C} {alg : CellAlgorithm C V} (valid : K -> Prop) cell_of wf_of
    (rawcell : list Z -> K -> V) n (c : C) t :
  wf_of (replicate (Z.to_nat n) c) all_up ->
  (forall k, valid k -> busy (cell_of (replicate (Z.to_nat n) c) all_up k).1 = false
                        /\ settled (rawcell all_up k) (cell_of (replicate (Z.to_nat n) c) all_up k)) ->
  rest valid cell_of wf_of rawcell all_up t (statics_init n num_rows c).
Proof using.
  intros Hw Hc. constructor; [done|done| | |done].
  - intros k Hk. by apply Hc.
  - intros k Hk Hb. destruct (Hc k Hk) as [E _]. exfalso. exact (eq_true_false_abs _ Hb E).
Qed.

Lemma all_up_key k : key_raw all_up k = false.
Proof using.
  unfold key_raw, all_up. destruct (decide (0 <= k.1 < num_rows)) as [H|H].
  - rewrite nthZ_memset by done. apply Z.bits_0.
  - rewrite nthZ_out; [apply Z.bits_0|]. unfold memset, lenZ. rewrite length_replicate. lia.
Qed.

Lemma start_key_cell {C} `{Inhabited C} (c : C) k : key_valid k ->
  key_cell (replicate (Z.to_nat (num_rows * num_cols)) c) all_up k = (c, false).
Proof using.
  intros Hk. pose proof (pointer_range k Hk). unfold key_cell. rewrite all_up_key.
  rewrite lookup_total_replicate_2 by lia. done.
Qed.

Lemma start_key_wf {C} `{Inhabited C} (c : C) :
  key_wf (replicate (Z.to_nat (num_rows * num_cols)) c) all_up.
Proof using ok.
  pose proof (@rows_nonneg _ ok). pose proof (@cols_nonneg _ ok).
  split; [|by apply lenZ_replicate]. unfold lenZ. rewrite length_replicate. nia.
Qed.

(** The keys that the last scan of a session has changed. *)
Definition some_key_changed {C} (before after : list Z * statics C) : Prop :=
  exists row col, 0 <= row < num_rows /\ 0 <= col < num_cols /\ seen after row col <> seen before row col.

Lemma some_key_iff {C} `{Inhabited C} (before after : list Z * statics C) :
  (exists k, key_valid k /\ (cell key_cell after.2 k).2 <> (cell key_cell before.2 k).2)
  <-> some_key_changed before after.
Proof using.
  split.
  - intros ([row col] & [Hr Hc] & Hne). by exists row, col.
  - intros (row & col & Hr & Hc & Hne). by exists (row, col).
Qed.

Section sym_defer_pk.
Import SymDeferPk.
#[local] Existing Instance defer_alg.
#[local] Existing Instance defer_cell_laws.
#[local] Existing Instance defer_passes.

Definition defer_pk_session := session debounce (all_up, debounce_init).

Lemma defer_pk_start t : rest key_valid key_cell key_wf key_raw all_up t debounce_init.
Proof using ok.
  apply start_rest; [apply start_key_wf|]. intros k Hk. rewrite start_key_cell, all_up_key by done.
  pose proof DEBOUNCE_range. split; [done|]. cbn. split; [unfold DEBOUNCE_ELAPSED; lia|done].
Qed.

Lemma defer_pk_seen t scans row col : timely period t scans -> key_valid (row, col) ->
  seen (defer_pk_session scans) row col = (cell_run t (0, false) (history key_raw (row, col) scans)).2.
Proof using ok.
  intros Ht Hk.
  destruct (session_cells key_valid key_cell key_wf key_raw _ _ _ debounce (fun _ _ _ _ => eq_refl)
              all_up t debounce_init scans (defer_pk_start t) Ht) as [_ Hc].
  specialize (Hc (row, col) Hk).
  assert (E0 : cell key_cell debounce_init (row, col) = (0, false)) by exact (start_key_cell _ _ Hk).
  rewrite E0 in Hc. exact (f_equal snd Hc).
Qed.

Lemma defer_pk_filters t0 scans t raw row col :
  timely period t0 (scans ++ [(t, raw)]) -> 0 <= row < num_rows -> 0 <= col < num_cols ->
  let before := defer_pk_session scans in
  let after := defer_pk_session (scans ++ [(t, raw)]) in
  let h := history key_raw (row, col) (scans ++ [(t, raw)]) in
  (seen after row col <> seen before row col -> held_for (seen after row col) DEBOUNCE t0 h)
  /\ (forall v, held_for v DEBOUNCE t0 h -> seen after row col = v).
Proof using ok.
  intros Ht Hr Hc before after h. assert (Hk : key_valid (row, col)) by done.
  pose proof Ht as Ht'. apply timely_app in Ht' as [Ht' _].
  pose proof (timely_history key_raw (row, col) _ _ _ Ht) as Hth. fold h in Hth.
  assert (Eh : h = history key_raw (row, col) scans ++ [(t, key_raw raw (row, col))])
    by (unfold h, history; by rewrite map_app).
  unfold before, after. rewrite (defer_pk_seen t0), (defer_pk_seen t0) by done. fold h. split.
  - rewrite Eh in *. exact (defer_filters DEBOUNCE DEBOUNCE_range t0 _ t _ period Hth).
  - intros v Hv. pose proof (defer_settling DEBOUNCE DEBOUNCE_range) as Hst.
    apply (settles (remaining := fun c => c) (D := DEBOUNCE) v t0 _ h period); [|done|done].
    pose proof DEBOUNCE_range. cbn. lia.
Qed.

(** [sym_defer_pk], over any sequence of scans of the matrix less than a
    timer period apart. The cooked value of a key changes only to a raw
    value that all scans of the last [DEBOUNCE] milliseconds or more agree
    on; a key whose raw value has been steady for [DEBOUNCE] milliseconds
    is seen with that value; the scan returns true if and only if it has
    changed a key. *)
Theorem sym_defer_pk_debounces t0 scans t raw row col :
  timely period t0 (scans ++ [(t, raw)]) -> 0 <= row < num_rows -> 0 <= col < num_cols ->
  let before := defer_pk_session scans in
  let after := defer_pk_session (scans ++ [(t, raw)]) in
  let h := history key_raw (row, col) (scans ++ [(t, raw)]) in
  (seen after row col <> seen before row col -> held_for (seen after row col) DEBOUNCE t0 h)
  /\ (forall v, held_for v DEBOUNCE t0 h -> seen after row col = v)
  /\ ((matrix_scan debounce raw (timer_read_fast t) before).1 = true <-> some_key_changed before after).
Proof using ok.
  intros Ht Hr Hc before after h. destruct (defer_pk_filters t0 scans t raw row col Ht Hr Hc) as [H1 H2].
  split; [exact H1|]. split; [exact H2|]. rewrite <- some_key_iff. unfold before, after, defer_pk_session.
  by apply (session_reports key_valid key_cell key_wf key_raw _ _ _ debounce (fun _ _ _ _ => eq_refl)
             all_up t0 debounce_init scans t raw (defer_pk_start t0)).
Qed.
End sym_defer_pk.

(** ** The eager algorithms *)

Section eager_sessions.
Context {V K : Type} `{EqDecision V} (rawcell : list Z -> K -> V) (k : K) (b : V) (t0 : Z).
Context (look : list (Z * list Z) -> V).
#[local] Instance eager_any : CellAlgorithm Z V := eager DEBOUNCE.
Context (look_run : forall scans, timely period t0 scans ->
  look scans = (cell_run t0 (0, b) (history rawcell k scans)).2).

(** The value changes at the last scan of [pre ++ [p]]. *)
Definition look_changes (pre : list (Z * list Z)) (p : Z * list Z) : Prop :=
  look (pre ++ [p]) <> look pre.

Lemma history_app scans p : history rawcell k (scans ++ [p]) = history rawcell k scans ++ [(p.1, rawcell p.2 k)].
Proof using. unfold history. by rewrite map_app. Qed.

Lemma history_split scans pre q mid : history rawcell k scans = pre ++ q :: mid ->
  exists pre' p mid', scans = pre' ++ p :: mid' /\ history rawcell k pre' = pre
    /\ q = (p.1, rawcell p.2 k).
Proof using.
  unfold history. intros (l1 & l2 & -> & <- & E)%map_eq_app.
  apply map_eq_cons in E as (p & mid' & -> & <- & _). by exists l1, p, mid'.
Qed.

Lemma look_changes_iff pre p : timely period t0 (pre ++ [p]) ->
  look_changes pre p <-> cell_changes DEBOUNCE t0 (0, b) (history rawcell k pre) (p.1, rawcell p.2 k).
Proof using look_run.
  intros Ht. pose proof Ht as Ht'. apply timely_app in Ht' as [Ht' _].
  unfold look_changes, cell_changes. by rewrite !look_run, history_app by done.
Qed.

Lemma timely_split (scans : list (Z * list Z)) pre p mid q : timely period t0 (scans ++ [q]) ->
  scans = pre ++ p :: mid -> timely period t0 (pre ++ [p]).
Proof using.
  intros Ht ->. rewrite <- app_assoc in Ht. cbn [app] in Ht.
  replace (pre ++ p :: mid ++ [q]) with ((pre ++ [p]) ++ mid ++ [q]) in Ht by (by rewrite <- app_assoc).
  by apply timely_app in Ht as [Ht _].
Qed.

Lemma eager_session scans t raw : timely period t0 (scans ++ [(t, raw)]) ->
  ((forall pre t1 r1 mid, scans = pre ++ (t1, r1) :: mid -> look_changes pre (t1, r1) -> DEBOUNCE <= t - t1) ->
   look (scans ++ [(t, raw)]) = rawcell raw k)
  /\ (look_changes scans (t, raw) ->
      forall pre t1 r1 mid, scans = pre ++ (t1, r1) :: mid -> look_changes pre (t1, r1) -> DEBOUNCE <= t - t1)
  /\ (forall v, held_for v DEBOUNCE t0 (history rawcell k (scans ++ [(t, raw)])) ->
      look (scans ++ [(t, raw)]) = v).
Proof using ok look_run.
  intros Ht. pose proof DEBOUNCE_range as HD.
  pose proof (timely_history rawcell k _ _ _ Ht) as Hth. rewrite history_app in Hth. cbn [fst snd] in Hth.
  split; [|split].
  - intros Hch. rewrite look_run, history_app by done.
    apply (eager_follows DEBOUNCE HD t0 b _ t _ period Hth). intros pre t1 v1 mid E Hc.
    destruct (history_split _ _ _ _ E) as (pre' & [t1' r1] & mid' & -> & <- & [= -> ->]).
    apply (Hch pre' t1' r1 mid' eq_refl). apply look_changes_iff; [|done].
    by apply (timely_split _ _ _ mid' _ Ht).
  - intros Hc pre t1 r1 mid E Hc1. apply look_changes_iff in Hc; [|done].
    apply look_changes_iff in Hc1; [|by apply (timely_split _ _ _ mid _ Ht)].
    subst scans. unfold history in *. rewrite map_app in *. cbn [map fst snd] in *.
    apply (eager_lockout DEBOUNCE HD t0 (0, b) (history rawcell k pre) t1 (rawcell r1 k)
             (history rawcell k mid) t (rawcell raw k) period); [cbn; lia| |exact Hc1|].
    + rewrite <- app_assoc in Hth. exact Hth.
    + unfold cell_changes in Hc. rewrite <- app_assoc in Hc. exact Hc.
  - intros v Hv. rewrite look_run by done. pose proof (eager_laws (V:=V) DEBOUNCE HD).
    pose proof (eager_settling (V:=V) DEBOUNCE HD).
    apply (settles (remaining := fun c => c) (D := DEBOUNCE) v t0 _ _ period); [cbn; lia| |done].
    by apply timely_history.
Qed.
End eager_sessions.

Section sym_eager_pk.
Import SymEagerPk.
#[local] Existing Instance eager_alg.
#[local] Existing Instance eager_cell_laws.
#[local] Existing Instance eager_passes.

Definition eager_pk_session := session debounce (all_up, debounce_init).

Lemma eager_pk_start t : rest key_valid key_cell key_wf key_raw all_up t debounce_init.
Proof using ok.
  apply start_rest; [apply start_key_wf|]. intros k Hk. rewrite start_key_cell, all_up_key by done.
  pose proof DEBOUNCE_range. split; [done|]. cbn. split; [unfold DEBOUNCE_ELAPSED; lia|done].
Qed.

Lemma eager_pk_seen t row col : key_valid (row, col) -> forall scans, timely period t scans ->
  seen (eager_pk_session scans) row col = (cell_run t (0, false) (history key_raw (row, col) scans)).2.
Proof using ok.
  intros Hk scans Ht.
  destruct (session_cells key_valid key_cell key_wf key_raw _ _ _ debounce (fun _ _ _ _ => eq_refl)
              all_up t debounce_init scans (eager_pk_start t) Ht) as [_ Hc].
  specialize (Hc (row, col) Hk).
  assert (E0 : cell key_cell debounce_init (row, col) = (0, false)) by exact (start_key_cell _ _ Hk).
  rewrite E0 in Hc. exact (f_equal snd Hc).
Qed.

(** The key changes at the last scan of [pre ++ [p]]. *)
Definition eager_pk_changes (row col : Z) := look_changes (fun scans => seen (eager_pk_session scans) row col).

(** [sym_eager_pk], over any sequence of scans less than a timer period
    apart. A key that has not changed in the last [DEBOUNCE] milliseconds
    takes its raw value at once; no key changes twice within [DEBOUNCE]
    milliseconds; a key whose raw value has been steady for [DEBOUNCE]
    milliseconds is seen with that value; the scan returns true if and only
    if it has changed a key. *)
Theorem sym_eager_pk_debounces t0 scans t raw row col :
  timely period t0 (scans ++ [(t, raw)]) -> 0 <= row < num_rows -> 0 <= col < num_cols ->
  let before := eager_pk_session scans in
  let after := eager_pk_session (scans ++ [(t, raw)]) in
  let free := forall pre t1 r1 mid, scans = pre ++ (t1, r1) :: mid ->
                eager_pk_changes row col pre (t1, r1) -> DEBOUNCE <= t - t1 in
  (free -> seen after row col = key_raw raw (row, col))
  /\ (seen after row col <> seen before row col -> free)
  /\ (forall v, held_for v DEBOUNCE t0 (history key_raw (row, col) (scans ++ [(t, raw)])) ->
      seen after row col = v)
  /\ ((matrix_scan debounce raw (timer_read_fast t) before).1 = true <-> some_key_changed before after).
Proof using ok.
  intros Ht Hr Hc before after free. assert (Hk : key_valid (row, col)) by done.
  destruct (eager_session key_raw (row, col) false t0 _ (eager_pk_seen t0 row col Hk) scans t raw Ht)
    as (H1 & H2 & H3).
  split; [exact H1|]. split; [exact H2|]. split; [exact H3|].
  rewrite <- some_key_iff. unfold before, after, eager_pk_session.
  by apply (session_reports key_valid key_cell key_wf key_raw _ _ _ debounce (fun _ _ _ _ => eq_refl)
           all_up t0 debounce_init scans t raw (eager_pk_start t0)).
Qed.
End sym_eager_pk.

Section sym_eager_pr.
Import SymEagerPr.
#[local] Existing Instance eager_row_alg.
#[local] Existing Instance eager_row_laws.
#[local] Existing Instance eager_row_passes.

Definition eager_pr_session := session debounce (all_up, debounce_init).

(** The cooked value of a row after a session. *)
Definition row_seen {C} (st : list Z * statics C) (row : Z) : Z := nthZ (cooked st.2) row.

Lemma start_row_cell row : row_valid row ->
  row_cell (replicate (Z.to_nat num_rows) DEBOUNCE_ELAPSED) all_up row = (0, 0).
Proof using.
  unfold row_valid, row_cell, all_up. intros H.
  by rewrite lookup_total_replicate_2, nthZ_memset by lia.
Qed.

Lemma eager_pr_start t :
  rest row_valid row_cell row_wf (fun raw row => nthZ raw row) all_up t debounce_init.
Proof using ok.
  pose proof (@rows_nonneg _ ok) as Hn. apply start_rest.
  { split; [|by apply lenZ_replicate]. unfold lenZ. rewrite length_replicate. lia. }
  intros row Hr. rewrite start_row_cell by done. unfold row_valid in Hr.
  pose proof DEBOUNCE_range. split; [done|]. cbn. split; [lia|].
  intros _. unfold all_up. by rewrite nthZ_memset by done.
Qed.

Lemma eager_pr_seen t row : row_valid row -> forall scans, timely period t scans ->
  row_seen (eager_pr_session scans) row
  = (cell_run t (0, 0) (history (fun raw row => nthZ raw row) row scans)).2.
Proof using ok.
  intros Hk scans Ht.
  destruct (session_cells row_valid row_cell row_wf (fun raw row => nthZ raw row) _ _ _ debounce
              (fun _ _ _ _ => eq_refl) all_up t debounce_init scans (eager_pr_start t) Ht) as [_ Hc].
  specialize (Hc row Hk).
  assert (E0 : cell row_cell debounce_init row = (0, 0)) by exact (start_row_cell _ Hk).
  rewrite E0 in Hc. exact (f_equal snd Hc).
Qed.

Definition eager_pr_changes (row : Z) := look_changes (fun scans => row_seen (eager_pr_session scans) row).

(** [sym_eager_pr], over any sequence of scans less than a timer period
    apart. A row that has not changed in the last [DEBOUNCE] milliseconds
    takes its raw value at once; no row changes twice within [DEBOUNCE]
    milliseconds; a row whose raw value has been steady for [DEBOUNCE]
    milliseconds is seen with that value; the scan returns true if and only
    if it has changed a row. *)
Theorem sym_eager_pr_debounces t0 scans t raw row :
  timely period t0 (scans ++ [(t, raw)]) -> 0 <= row < num_rows ->
  let before := eager_pr_session scans in
  let after := eager_pr_session (scans ++ [(t, raw)]) in
  let free := forall pre t1 r1 mid, scans = pre ++ (t1, r1) :: mid ->
                eager_pr_changes row pre (t1, r1) -> DEBOUNCE <= t - t1 in
  (free -> row_seen after row = nthZ raw row)
  /\ (row_seen after row <> row_seen before row -> free)
  /\ (forall v, held_for v DEBOUNCE t0 (history (fun raw row => nthZ raw row) row (scans ++ [(t, raw)])) ->
      row_seen after row = v)
  /\ ((matrix_scan debounce raw (timer_read_fast t) before).1 = true
      <-> exists row', 0 <= row' < num_rows /\ row_seen after row' <> row_seen before row').
Proof using ok.
  intros Ht Hr before after free.
  destruct (eager_session (fun raw row => nthZ raw row) row 0 t0 _ (eager_pr_seen t0 row Hr) scans t raw Ht)
    as (H1 & H2 & H3).
  split; [exact H1|]. split; [exact H2|]. split; [exact H3|]. unfold before, after, eager_pr_session.
  by apply (session_reports row_valid row_cell row_wf (fun raw row => nthZ raw row) _ _ _ debounce
           (fun _ _ _ _ => eq_refl) all_up t0 debounce_init scans t raw (eager_pr_start t0)).
Qed.
End sym_eager_pr.

(** ** The asymmetric algorithm *)

Section asym_eager_defer_pk.
Import AsymEagerDeferPk.
#[local] Existing Instance asym_alg.
#[local] Existing Instance asym_cell_laws.
#[local] Existing Instance asym_passes.

(** [pressed0] is what [malloc] left in the counters. *)
Definition asym_session (pressed0 : bool) := session debounce (all_up, debounce_init pressed0).

Lemma asym_start pressed0 t : rest key_valid key_cell key_wf key_raw all_up t (debounce_init pressed0).
Proof using ok.
  apply start_rest; [apply start_key_wf|]. intros k Hk. rewrite start_key_cell, all_up_key by done.
  pose proof asym_DEBOUNCE_range. split; [done|]. cbn.
  split; [unfold DEBOUNCE_ELAPSED; lia|done].
Qed.

Lemma asym_seen pressed0 t scans row col : timely period t scans -> key_valid (row, col) ->
  seen (asym_session pressed0 scans) row col
  = (cell_run t (mk_counter pressed0 0, false) (history key_raw (row, col) scans)).2.
Proof using ok.
  intros Ht Hk.
  destruct (session_cells key_valid key_cell key_wf key_raw _ _ _ debounce (fun _ _ _ _ => eq_refl)
              all_up t (debounce_init pressed0) scans (asym_start pressed0 t) Ht) as [_ Hc].
  specialize (Hc (row, col) Hk).
  assert (E0 : cell key_cell (debounce_init pressed0) (row, col) = (mk_counter pressed0 0, false))
    by exact (start_key_cell _ _ Hk).
  rewrite E0 in Hc. exact (f_equal snd Hc).
Qed.

(** [asym_eager_defer_pk], over any sequence of scans less than a timer
    period apart, whatever the allocator left in the counters. A key that
    is down at a scan is seen down after it; a key is seen released only
    when all scans of the last [DEBOUNCE] milliseconds or more had it up; a
    key that has been up for two such stretches is seen up; the scan
    returns true if and only if it has changed a key. *)
Theorem asym_eager_defer_pk_debounces pressed0 t0 scans t raw row col :
  timely period t0 (scans ++ [(t, raw)]) -> 0 <= row < num_rows -> 0 <= col < num_cols ->
  let before := asym_session pressed0 scans in
  let after := asym_session pressed0 (scans ++ [(t, raw)]) in
  let h := history key_raw (row, col) (scans ++ [(t, raw)]) in
  (key_raw raw (row, col) = true -> seen after row col = true)
  /\ (seen before row col = true -> seen after row col = false -> held_for false DEBOUNCE t0 h)
  /\ (forall pre t1 v1 mid t2 v2 mid', h = pre ++ (t1, v1) :: mid ++ (t2, v2) :: mid' ->
       Forall (fun q => q.2 = false) ((t1, v1) :: mid ++ (t2, v2) :: mid') ->
       DEBOUNCE <= t2 - t1 -> DEBOUNCE <= t - t2 -> seen after row col = false)
  /\ ((matrix_scan debounce raw (timer_read_fast t) before).1 = true <-> some_key_changed before after).
Proof using ok.
  intros Ht Hr Hc before after h. assert (Hk : key_valid (row, col)) by done.
  pose proof Ht as Ht'. apply timely_app in Ht' as [Ht' _].
  pose proof asym_DEBOUNCE_range as HD.
  pose proof (timely_history key_raw (row, col) _ _ _ Ht) as Hth. fold h in Hth.
  assert (Hok : asym_ok AsymEagerDeferPk.DEBOUNCE (mk_counter pressed0 0, false)) by (split; cbn; [lia|done]).
  assert (Eh : h = history key_raw (row, col) scans ++ [(t, key_raw raw (row, col))])
    by apply history_app.
  unfold before, after. rewrite !(asym_seen pressed0 t0) by done. fold h.
  split; [|split; [|split]].
  - rewrite Eh in *. intros Er. rewrite Er in *. by apply (asym_press _ HD _ _ _ _ period).
  - rewrite Eh in *. by apply (asym_release _ HD _ _ _ _ _ period).
  - intros pre t1 v1 mid t2 v2 mid' E Hall H1 H2. rewrite E in Hth |- *.
    apply (asym_settles _ HD _ _ _ _ _ _ _ _ _ period); [done|done|done|done|].
    assert (El : last_scan t0 h = t) by (unfold h; by rewrite last_scan_history, last_scan_snoc).
    rewrite E, last_scan_app, last_scan_cons, last_scan_app, last_scan_cons in El. lia.
  - rewrite <- some_key_iff. unfold asym_session.
    by apply (session_reports key_valid key_cell key_wf key_raw _ _ _ debounce (fun _ _ _ _ => eq_refl)
             all_up t0 (debounce_init pressed0) scans t raw (asym_start pressed0 t0)).
Qed.
End asym_eager_defer_pk.

(** ** The global algorithm *)

Section sym_defer_g.
Import SymDeferG.

Definition defer_g_session := session debounce (all_up, debounce_init).

(** While the matrix differs from the cooked one, a change of the raw one
    less than [DEBOUNCE] ago is remembered. *)
Definition defer_g_inv (t0 : Z) (scans : list (Z * list Z)) (st : list Z * state) : Prop :=
  if debouncing st.2 then
    exists t1, debouncing_time st.2 = timer_read_fast t1 /\ t1 <= last_scan t0 scans < t1 + DEBOUNCE
      /\ held_for st.1 (last_scan t0 scans - t1) t0 scans
  else cooked st.2 = st.1.

Lemma timer_diff_g t t' : 0 <= t' - t < period ->
  TIMER_DIFF_FAST (timer_read_fast t') (timer_read_fast t) = t' - t.
Proof using ok. apply timer_diff. Qed.

(** A scan of an unchanged matrix. *)
Lemma defer_g_same t0 scans t raw s : timely (period - DEBOUNCE) t0 (scans ++ [(t, raw)]) ->
  defer_g_inv t0 scans (raw, s) ->
  let '(ret, s') := debounce raw (timer_read_fast t) false s in
  defer_g_inv t0 (scans ++ [(t, raw)]) (raw, s')
  /\ (ret = true <-> cooked s' <> cooked s)
  /\ (cooked s' <> cooked s -> cooked s' = raw /\ held_for raw DEBOUNCE t0 (scans ++ [(t, raw)]))
  /\ (debouncing s' = true -> debouncing s = true /\ debouncing_time s' = debouncing_time s).
Proof using ok.
  intros Ht Hi. apply timely_app in Ht as [Ht [Hg _]]. pose proof DEBOUNCE_range as HD.
  unfold debounce, defer_g_inv in *. destruct s as [d tm ck]. cbn in *. rewrite last_scan_snoc. cbn [fst].
  destruct d; [|by repeat split]. destruct Hi as (t1 & -> & Hl & Hh).
  rewrite timer_diff_g by lia. destruct (DEBOUNCE <=? t - t1) eqn:E; b2p; cbn [andb].
  - assert (Hh' : held_for raw DEBOUNCE t0 (scans ++ [(t, raw)])).
    { apply (held_for_le _ (last_scan t0 scans - t1 + (t - last_scan t0 scans))); [|lia].
      by apply held_for_snoc. }
    destruct (bool_decide_reflect (ck = raw)) as [->|Hne]; cbn; repeat split; try done; congruence.
  - cbn. repeat split; try done. exists t1. split; [done|]. split; [lia|].
    apply (held_for_le _ (last_scan t0 scans - t1 + (t - last_scan t0 scans))); [|lia].
    by apply held_for_snoc.
Qed.

Lemma defer_g_step t0 scans t raw st : timely (period - DEBOUNCE) t0 (scans ++ [(t, raw)]) ->
  defer_g_inv t0 scans st ->
  let '(ret, st') := matrix_scan debounce raw (timer_read_fast t) st in
  defer_g_inv t0 (scans ++ [(t, raw)]) st' /\ st'.1 = raw
  /\ (ret = true <-> cooked st'.2 <> cooked st.2)
  /\ (cooked st'.2 <> cooked st.2 -> cooked st'.2 = raw /\ held_for raw DEBOUNCE t0 (scans ++ [(t, raw)])).
Proof using ok.
  intros Ht Hi. destruct st as [raw0 s]. unfold matrix_scan. pose proof DEBOUNCE_range as HD.
  destruct (bool_decide_reflect (raw0 = raw)) as [->|Hne]; cbn [negb].
  - pose proof (defer_g_same t0 scans t raw s Ht Hi) as H.
    destruct (debounce raw (timer_read_fast t) false s) as [ret s'].
    destruct H as (H1 & H2 & H3 & _). by repeat split; try tauto; apply H3.
  - cbn. split; [|done]. unfold defer_g_inv. cbn. exists t. split; [done|].
    rewrite last_scan_snoc. cbn [fst]. split; [lia|].
    rewrite Z.sub_diag. apply held_for_now.
Qed.

Lemma defer_g_session_inv t0 scans : timely (period - DEBOUNCE) t0 scans ->
  defer_g_inv t0 scans (defer_g_session scans).
Proof using ok.
  induction scans as [|[t raw] scans IH] using rev_ind; intros Ht; [done|].
  unfold defer_g_session. rewrite session_snoc. cbn [fst snd].
  pose proof Ht as Ht'. apply timely_app in Ht' as [Ht' _].
  pose proof (defer_g_step t0 scans t raw _ Ht (IH Ht')) as H. fold defer_g_session.
  destruct (matrix_scan debounce raw (timer_read_fast t) (defer_g_session scans)) as [ret st']. apply H.
Qed.

(** A stretch of scans of one matrix. *)
Lemma defer_g_stretch t0 pre t1 v mid : timely (period - DEBOUNCE) t0 (pre ++ (t1, v) :: mid) ->
  Forall (fun q => q.2 = v) mid ->
  let st := defer_g_session (pre ++ (t1, v) :: mid) in
  st.1 = v /\ (debouncing st.2 = true -> exists tc, debouncing_time st.2 = timer_read_fast tc /\ tc <= t1
     /\ last_scan t1 mid < tc + DEBOUNCE).
Proof using ok.
  pose proof DEBOUNCE_range as HD. unfold defer_g_session.
  induction mid as [|[t v'] mid IH] using rev_ind; intros Ht Hall; cbv zeta.
  - rewrite session_snoc. cbn [fst snd]. fold defer_g_session.
    pose proof Ht as Ht'. apply timely_app in Ht' as [Ht' _].
    pose proof (defer_g_step t0 pre t1 v _ Ht (defer_g_session_inv t0 pre Ht')) as H.
    destruct (matrix_scan debounce v (timer_read_fast t1) (defer_g_session pre)) as [ret st'].
    destruct H as (Hi & E & _). split; [done|]. intros Hd. unfold defer_g_inv in Hi. cbn [snd] in Hd |- *.
    rewrite Hd, last_scan_snoc in Hi. destruct Hi as (tc & H1 & H2 & _). exists tc. split; [done|]. exact H2.
  - apply Forall_app in Hall as [Hall Hv]. apply Forall_cons_1 in Hv as [Hv _]. cbn [snd] in Hv. subst v'.
    rewrite app_comm_cons, app_assoc in Ht |- *. pose proof Ht as Ht'. apply timely_app in Ht' as [Ht' [Hg _]].
    destruct (IH Ht' Hall) as [Ev Hd]. rewrite last_scan_app, last_scan_cons in Hg.
    pose proof (defer_g_session_inv t0 _ Ht') as Hinv.
    rewrite session_snoc. cbn [fst snd]. fold defer_g_session in *.
    destruct (defer_g_session (pre ++ (t1, v) :: mid)) as [raw0 s]. cbn [fst snd] in Ev, Hd. subst raw0.
    pose proof (defer_g_same t0 _ t v s Ht Hinv) as H. unfold matrix_scan.
    rewrite bool_decide_eq_true_2 by done. cbn [negb].
    destruct (debounce v (timer_read_fast t) false s) as [ret s'] eqn:Es.
    destruct H as (Hi & _ & _ & Hkeep). cbn [fst snd]. split; [done|]. intros Hds.
    destruct (Hkeep Hds) as [Hd0 Htm]. destruct (Hd Hd0) as (tc & E1 & E2 & E3).
    exists tc. split; [congruence|]. split; [done|]. rewrite last_scan_snoc. cbn [fst].
    revert Es Hds. unfold debounce. rewrite Hd0, E1. rewrite timer_diff_g.
    2: { revert E3 Hg. pose proof (timely_le (period - DEBOUNCE) t1 mid) as Hle.
         apply timely_app in Ht' as [_ [_ Ht']]. specialize (Hle Ht'). lia. }
    destruct (DEBOUNCE <=? t - tc) eqn:E; b2p; cbn; [|lia].
    case_if; intros [= _ <-]; done.
Qed.

(** [sym_defer_g], over any sequence of scans whose gaps leave room for
    [DEBOUNCE] in a timer period. The cooked matrix changes only to a raw
    matrix that all scans of the last [DEBOUNCE] milliseconds or more agree
    on; a raw matrix steady for [DEBOUNCE] milliseconds is the cooked one;
    the scan returns true if and only if it has changed the matrix. *)
Theorem sym_defer_g_debounces t0 scans t raw :
  timely (period - DEBOUNCE) t0 (scans ++ [(t, raw)]) ->
  let before := defer_g_session scans in
  let after := defer_g_session (scans ++ [(t, raw)]) in
  (cooked after.2 <> cooked before.2 ->
     cooked after.2 = raw /\ held_for raw DEBOUNCE t0 (scans ++ [(t, raw)]))
  /\ (held_for raw DEBOUNCE t0 (scans ++ [(t, raw)]) -> cooked after.2 = raw)
  /\ ((matrix_scan debounce raw (timer_read_fast t) before).1 = true <-> cooked after.2 <> cooked before.2).
Proof using ok.
  intros Ht before after. pose proof Ht as Ht'. apply timely_app in Ht' as [Ht' _].
  pose proof (defer_g_step t0 scans t raw _ Ht (defer_g_session_inv t0 scans Ht')) as H.
  assert (Hset : held_for raw DEBOUNCE t0 (scans ++ [(t, raw)]) -> cooked after.2 = raw).
  { intros (pre & t1 & v & mid & E & Hall & HD). apply Forall_cons_1 in Hall as [Hv Hall]. cbn [snd] in Hv.
    subst v. pose proof (defer_g_session_inv t0 _ Ht) as Hi. unfold after. rewrite E in *.
    destruct (defer_g_stretch t0 pre t1 raw mid Ht Hall) as [Ev Hd].
    unfold defer_g_inv in Hi. destruct (debouncing _) eqn:Ed; [|congruence].
    destruct (Hd eq_refl) as (tc & _ & H1 & H2). rewrite last_scan_app, last_scan_cons in HD. lia. }
  assert (E : (matrix_scan debounce raw (timer_read_fast t) before).2 = after)
    by (unfold after, before, defer_g_session; by rewrite session_snoc).
  fold before in H. destruct (matrix_scan debounce raw (timer_read_fast t) before) as [ret st'].
  cbn [snd] in E. subst st'. destruct H as (_ & _ & H1 & H2). split; [exact H2|]. split; [exact Hset|exact H1].
Qed.
End sym_defer_g.
End theorems.

(** ** Witnesses *)

(** Two rows of three keys, 5 ms, a sixteen-bit timer. *)
Module DebounceExample.
Definition config : DebounceConfig := {|
  DEBOUNCE_MS := 5; num_rows := 2; num_cols := 3; FAST_TIMER_T_SIZE := 16 |}.
Definition config_ok : DebounceConfigOk config.
Proof. split; [reflexivity|discriminate|discriminate|by left]. Qed.

(** The last key of the second row goes down and stays. *)
Definition press : list (Z * list Z) := [(10, [0; 4]); (12, [0; 4])].
End DebounceExample.

Section witnesses.
Import DebounceExample.
#[local] Existing Instance config.
#[local] Existing Instance config_ok.

Ltac in_time := repeat split; vm_compute; first [discriminate | reflexivity].

Ltac held := exists [], 10, true, [(12, true); (16, true)];
  split; [reflexivity|split; [repeat constructor|vm_compute; discriminate]].

Lemma sym_defer_pk_debounces_witness :
  seen (defer_pk_session (press ++ [(16, [0; 4])])) 1 2 = true.
Proof.
  refine (proj1 (proj2 (sym_defer_pk_debounces 0 press 16 [0; 4] 1 2 _ _ _)) true _);
    [in_time..|held].
Defined.

Lemma sym_eager_pk_debounces_witness :
  seen (eager_pk_session (press ++ [(16, [0; 4])])) 1 2 = true.
Proof.
  refine (proj1 (proj2 (proj2 (sym_eager_pk_debounces 0 press 16 [0; 4] 1 2 _ _ _))) true _);
    [in_time..|held].
Defined.

Lemma sym_eager_pr_debounces_witness :
  row_seen (eager_pr_session (press ++ [(16, [0; 4])])) 1 = 4.
Proof.
  refine (proj1 (proj2 (proj2 (sym_eager_pr_debounces 0 press 16 [0; 4] 1 _ _))) 4 _); [in_time..|].
  exists [], 10, 4, [(12, 4); (16, 4)].
  split; [reflexivity|split; [repeat constructor|vm_compute; discriminate]].
Defined.

Lemma asym_eager_defer_pk_debounces_witness :
  seen (asym_session true [(10, [0; 4])]) 1 2 = true.
Proof.
  refine (proj1 (asym_eager_defer_pk_debounces true 0 [] 10 [0; 4] 1 2 _ _ _) _);
    [in_time..|vm_compute; reflexivity].
Defined.

Lemma sym_defer_g_debounces_witness :
  SymDeferG.cooked (defer_g_session (press ++ [(16, [0; 4])])).2 = [0; 4].
Proof.
  refine (proj1 (proj2 (sym_defer_g_debounces 0 press 16 [0; 4] _)) _); [in_time|].
  exists [], 10, [0; 4], [(12, [0; 4]); (16, [0; 4])].
  split; [reflexivity|split; [repeat constructor|vm_compute; discriminate]].
Defined.
End witnesses.
