(* ===== verification/DebounceRows.v ===== *)
(** [sym_defer_pr]: deferred debouncing of whole rows, whose counters are
    restarted by each raw change. *)

From S2P Require Import Prelude.
From S2P Require Import Debounce.
From S2P Require Import DebounceCells.
From S2P Require Import DebounceAutomata.
From S2P Require Import DebounceTheorems.

Section sym_defer_pr.
Context {cfg : DebounceConfig} {ok : DebounceConfigOk cfg} (D_le : DEBOUNCE_MS <= 255).
Import SymDeferPr.

(** ** One row: its counter, its last raw value, its cooked value *)

Definition raw_row (raw : list Z) (row : Z) : Z := nthZ raw row.

Definition row_state : Type := Z * Z * Z.
Definition row_at (s : state) (row : Z) : row_state :=
  (nthZ (countdowns s) row, nthZ (last_raw s) row, nthZ (cooked s) row).

Definition row_scan (v el : Z) (x : row_state) : row_state :=
  let '(cd, lr, ck) := x in
  if negb (v =? lr) then (DEBOUNCE_MS, v, ck)
  else if el <? cd then (cd - el, lr, ck)
  else if truthy cd then (0, lr, v)
  else (cd, lr, ck).

Fixpoint row_run (t : Z) (x : row_state) (h : list (Z * Z)) : row_state :=
  match h with
  | [] => x
  | (t', v) :: h => row_run t' (row_scan v (elapsed (t' - t)) x) h
  end.

Lemma row_run_app t x h k : row_run t x (h ++ k) = row_run (last_scan t h) (row_run t x h) k.
Proof using.
  revert t x. induction h as [|[t' v] h IH]; intros t x; [done|].
  cbn [app row_run]. by rewrite IH, last_scan_cons.
Qed.

(** The counter tells for how long the row has had its last raw value. *)
Definition row_inv (t : Z) (h : list (Z * Z)) (x : row_state) : Prop :=
  0 <= x.1.1 <= DEBOUNCE_MS /\ (x.1.1 = 0 -> x.2 = x.1.2)
  /\ (x.1.1 <> 0 -> held_for x.1.2 (DEBOUNCE_MS - x.1.1) t h).

Lemma row_scan_inv p t h x t' v : timely p t (h ++ [(t', v)]) -> row_inv t h x ->
  let y := row_scan v (elapsed (t' - last_scan t h)) x in
  row_inv t (h ++ [(t', v)]) y /\ y.1.2 = v
  /\ (y.2 <> x.2 -> y.2 = v /\ held_for v DEBOUNCE_MS t (h ++ [(t', v)])).
Proof using ok.
  intros Ht (Hc & H0 & Hh). apply timely_app in Ht as [Ht [Hg _]].
  pose proof (@debounce_positive _ ok) as HD. destruct x as [[cd lr] ck]. cbn in *.
  assert (He : 0 <= elapsed (t' - last_scan t h) <= t' - last_scan t h) by (unfold elapsed; lia).
  revert He. generalize (elapsed (t' - last_scan t h)) as el. intros el He.
  unfold row_scan. destruct (Z.eqb_spec v lr) as [->|Hne]; cbn [negb].
  - assert (Hmore : cd <> 0 -> forall m, m <= DEBOUNCE_MS - cd + el -> held_for lr m t (h ++ [(t', lr)])).
    { intros Hn m Hm. apply (held_for_le _ (DEBOUNCE_MS - cd + (t' - last_scan t h))); [|lia].
      by apply held_for_snoc, Hh. }
    destruct (el <? cd) eqn:E; b2p; cbn.
    + split; [split; [cbn; lia|]|done]. split; [cbn; lia|]. intros _. cbn. apply Hmore; lia.
    + unfold truthy. destruct (cd =? 0) eqn:E2; b2p; cbn.
      * split; [|done]. split; [cbn; lia|]. split; [done|]. done.
      * split; [|split; [done|]]; [split; [cbn; lia|by split]|].
        intros _. split; [done|]. apply Hmore; [done|lia].
  - cbn. split; [|done]. split; [cbn; lia|]. split; [cbn; lia|]. intros _. cbn.
    rewrite Z.sub_diag. apply held_for_now.
Qed.

Lemma row_run_inv p t h x : timely p t h -> row_inv t [] x -> row_inv t h (row_run t x h).
Proof using ok.
  induction h as [|[t' v] h IH] using rev_ind; intros Ht Hx; [done|].
  pose proof Ht as Ht'. apply timely_app in Ht' as [Ht' _]. rewrite row_run_app. cbn [row_run].
  by apply (row_scan_inv p t h _ t' v Ht), IH.
Qed.

(** Under a steady raw value the counter runs out. *)
Lemma row_settles p t t0 h x v : timely p t h -> t0 <= t -> Forall (fun q => q.2 = v) h ->
  0 <= x.1.1 -> x.1.2 = v -> (x.1.1 = 0 -> x.2 = v) -> x.1.1 <= Z.max 0 (DEBOUNCE_MS - (t - t0)) ->
  DEBOUNCE_MS <= last_scan t h - t0 -> (row_run t x h).2 = v.
Proof using D_le.
  revert t x. induction h as [|[t' v'] h IH]; intros t x Ht Hle Hall Hp Hl H0 Hc HD.
  { apply H0. unfold last_scan in HD. cbn in HD. lia. }
  destruct Ht as [Hg Ht]. apply Forall_cons_1 in Hall as [Hv Hall]. cbn [snd] in Hv. subst v'.
  rewrite last_scan_cons in HD. cbn [row_run]. destruct x as [[cd lr] ck]. cbn in *. subst lr.
  rewrite Z.eqb_refl. cbn [negb].
  assert (Hm : elapsed (t' - t) = t' - t \/ 255 <= elapsed (t' - t)) by (unfold elapsed; lia).
  assert (He : 0 <= elapsed (t' - t)) by (unfold elapsed; lia).
  revert Hm He. generalize (elapsed (t' - t)) as el. intros el Hm He.
  destruct (el <? cd) eqn:E; b2p; [|unfold truthy; destruct (cd =? 0) eqn:E2; b2p; cbn [negb]];
    apply IH; cbn; try done; lia.
Qed.

Lemma row_debounces p t h x t' v : timely p t (h ++ [(t', v)]) -> row_inv t [] x ->
  let before := (row_run t x h).2 in
  let after := (row_run t x (h ++ [(t', v)])).2 in
  (after <> before -> after = v /\ held_for v DEBOUNCE_MS t (h ++ [(t', v)]))
  /\ (forall w, held_for w DEBOUNCE_MS t (h ++ [(t', v)]) -> after = w).
Proof using ok D_le.
  intros Ht Hx before after. pose proof Ht as Ht'. apply timely_app in Ht' as [Ht' _]. split.
  - unfold after. rewrite row_run_app. cbn [row_run].
    by apply (row_scan_inv p t h _ t' v Ht), (row_run_inv p).
  - intros w (pre & t0 & v0 & mid & E & Hall & HD). apply Forall_cons_1 in Hall as [Hv Hall].
    cbn [snd] in Hv. subst v0. unfold after. rewrite E in *.
    apply timely_app in Ht as [Htp [Hg Htm]]. rewrite last_scan_app, last_scan_cons in HD.
    assert (Htp' : timely p t (pre ++ [(t0, w)])) by (apply timely_app; split; [done|by split]).
    destruct (row_scan_inv p t pre (row_run t x pre) t0 w Htp') as (Hi & Hr & _);
      [by apply (row_run_inv p)|].
    rewrite row_run_app. cbn [row_run]. destruct Hi as (Hc & H0 & _).
    apply (row_settles p t0 t0); [done|lia|done|lia|done| |lia|done]. intros Hz. rewrite H0 by done. done.
Qed.

(** ** The matrix *)

Definition rows_wf (s : state) : Prop :=
  lenZ (countdowns s) = num_rows /\ lenZ (last_raw s) = num_rows /\ lenZ (cooked s) = num_rows.

Lemma row_loop raw el s : rows_wf s ->
  let '(s', ch) := for_Z 0 num_rows (debounce_row raw el) (s, false) in
  rows_wf s' /\ last_time s' = last_time s
  /\ (forall row, 0 <= row < num_rows -> row_at s' row = row_scan (nthZ raw row) el (row_at s row))
  /\ (ch = true <-> exists row, 0 <= row < num_rows /\ (row_at s' row).2 <> (row_at s row).2).
Proof using ok D_le.
  intros Hw. pose proof (@rows_nonneg _ ok) as Hn. pose proof (@debounce_positive _ ok) as HD.
  assert (H : let r := for_Z 0 num_rows (debounce_row raw el) (s, false) in
    rows_wf r.1 /\ last_time r.1 = last_time s
    /\ (forall row, 0 <= row -> row_at r.1 row
         = if row <? num_rows then row_scan (nthZ raw row) el (row_at s row) else row_at s row)
    /\ (r.2 = true <-> exists row, 0 <= row < num_rows /\ (row_at r.1 row).2 <> (row_at s row).2)).
  { apply (for_Z_inv (debounce_row raw el) (fun i r =>
      rows_wf r.1 /\ last_time r.1 = last_time s
      /\ (forall row, 0 <= row -> row_at r.1 row
            = if row <? i then row_scan (nthZ raw row) el (row_at s row) else row_at s row)
      /\ (r.2 = true <-> exists row, 0 <= row < i /\ (row_at r.1 row).2 <> (row_at s row).2))); [done| |].
    - split; [done|]. split; [done|]. split; [intros row Hr; case_if; [lia|done]|].
      split; [done|]. intros (row & ? & _). lia.
    - intros i [s1 ch] Hi (Hw1 & Ht1 & Hr1 & Hc1). cbn [fst snd] in *.
      assert (Hcell : let r := debounce_row raw el i (s1, ch) in
        rows_wf r.1 /\ last_time r.1 = last_time s1
        /\ (forall row, 0 <= row -> row_at r.1 row
              = if row =? i then row_scan (nthZ raw i) el (row_at s1 i) else row_at s1 row)
        /\ (r.2 = true <-> ch = true \/ (row_at r.1 i).2 <> (row_at s1 i).2)).
      { destruct Hw1 as (L1 & L2 & L3). unfold debounce_row, row_scan, row_at. cbv zeta.
        rewrite (u8_id DEBOUNCE_MS) by lia.
        destruct (nthZ raw i =? nthZ (last_raw s1) i) eqn:E1; cbn [negb];
          [destruct (el <? nthZ (countdowns s1) i) eqn:E2; [|destruct (truthy (nthZ (countdowns s1) i)) eqn:E3]|]; cbn;
          (split; [by unfold rows_wf; cbn; rewrite ?lenZ_updZ|]); (split; [done|]);
          (split; [intros row Hr; destruct (Z.eqb_spec row i) as [->|Hne];
                   rewrite ?nthZ_updZ_eq, ?nthZ_updZ_ne by (lia || congruence); done|]).
        - split; [auto|]. intros [?|?]; done.
        - rewrite nthZ_updZ_eq by lia. rewrite orb_true_iff, truthy_lxor, negb_true_iff, Z.eqb_neq.
          split; (intros [?|?]; [by left|right; congruence]).
        - split; [auto|]. intros [?|?]; done.
        - split; [auto|]. intros [?|?]; done. }
      destruct (debounce_row raw el i (s1, ch)) as [s2 ch2]. cbn [fst snd] in *.
      destruct Hcell as (Hw2 & Ht2 & Hr2 & Hc2).
      assert (Hrow : forall row, 0 <= row -> row_at s2 row
          = if row <? i + 1 then row_scan (nthZ raw row) el (row_at s row) else row_at s row).
      { intros row Hr. rewrite Hr2 by done. destruct (Z.eqb_spec row i) as [->|Hne].
        - rewrite Hr1 by lia. rewrite (proj2 (Z.ltb_ge i i)), (proj2 (Z.ltb_lt i (i + 1))) by lia. done.
        - rewrite Hr1 by done. destruct (row <? i) eqn:E, (row <? i + 1) eqn:E'; b2p; done || lia. }
      split; [done|]. split; [congruence|]. split; [done|].
      assert (Hsame : (row_at s1 i) = row_at s i)
        by (rewrite Hr1 by lia; by rewrite (proj2 (Z.ltb_ge i i)) by lia).
      rewrite Hc2, Hc1, Hsame. split.
      + intros [(row & Hr & Hne)|Hne]; [|exists i; split; [lia|done]].
        exists row. split; [lia|]. rewrite Hr1 in Hne by lia. rewrite Hrow by lia.
        rewrite (proj2 (Z.ltb_lt row i)) in Hne by lia. by rewrite (proj2 (Z.ltb_lt row (i + 1))) by lia.
      + intros (row & Hr & Hne). destruct (Z.eq_dec row i) as [->|]; [by right|left].
        exists row. split; [lia|]. rewrite Hrow in Hne by lia. rewrite Hr1 by lia.
        rewrite (proj2 (Z.ltb_lt row (i + 1))) in Hne by lia. by rewrite (proj2 (Z.ltb_lt row i)) by lia. }
  destruct (for_Z 0 num_rows (debounce_row raw el) (s, false)) as [s' ch].
  cbn in H. destruct H as (H1 & H2 & H3 & H4). split; [done|]. split; [done|]. split; [|done].
  intros row Hr. rewrite H3 by lia. by rewrite (proj2 (Z.ltb_lt _ _)) by lia.
Qed.

(** The session: the clock is read in sixteen bits. *)
Definition defer_pr_session (t0 : Z) (scans : list (Z * list Z)) : list Z * state :=
  foldl (fun st p => (matrix_scan debounce p.2 (u16 p.1) st).2) (all_up, debounce_init (u16 t0)) scans.

Lemma defer_pr_scan t t' raw raw0 s : rows_wf s -> last_time s = u16 t -> 0 <= t' - t < 65536 ->
  let '(ret, (_, s')) := matrix_scan debounce raw (u16 t') (raw0, s) in
  rows_wf s' /\ last_time s' = u16 t'
  /\ (forall row, 0 <= row < num_rows ->
        row_at s' row = row_scan (nthZ raw row) (elapsed (t' - t)) (row_at s row))
  /\ (ret = true <-> exists row, 0 <= row < num_rows /\ (row_at s' row).2 <> (row_at s row).2).
Proof using ok D_le.
  intros Hw Ht Hg. unfold matrix_scan.
  replace (if negb (bool_decide (raw0 = raw)) then raw else raw0) with raw
    by (by destruct (bool_decide_reflect (raw0 = raw)) as [->|]).
  unfold debounce. rewrite Ht.
  replace (TIMER_DIFF_16 (u16 t') (u16 t)) with (t' - t) by (unfold TIMER_DIFF_16, u16; dlia).
  replace (if 255 <? t' - t then 255 else t' - t) with (elapsed (t' - t)) by (unfold elapsed; case_if; lia).
  pose proof (row_loop raw (elapsed (t' - t)) (mk_state (u16 t') (countdowns s) (last_raw s) (cooked s)) Hw) as H.
  destruct (for_Z _ _ _ _) as [s' ch]. exact H.
Qed.

Lemma defer_pr_rows t0 scans : timely 65536 t0 scans ->
  let s := (defer_pr_session t0 scans).2 in
  rows_wf s /\ last_time s = u16 (last_scan t0 scans)
  /\ (forall row, 0 <= row < num_rows ->
        row_at s row = row_run t0 (0, 0, 0) (history raw_row row scans)).
Proof using ok D_le.
  induction scans as [|[t raw] scans IH] using rev_ind; intros Ht.
  - pose proof (@rows_nonneg _ ok). split; [by repeat split; apply lenZ_replicate|]. split; [done|].
    intros row Hr. unfold row_at. cbn. by rewrite !nthZ_memset by done.
  - apply timely_app in Ht as [Ht [Hg _]]. destruct (IH Ht) as (Hw & Htm & Hr).
    unfold defer_pr_session in *. rewrite foldl_app. cbn [foldl fst snd].
    destruct (foldl _ _ scans) as [raw0 s]. cbn [snd] in *.
    pose proof (defer_pr_scan _ t raw raw0 s Hw Htm Hg) as H.
    destruct (matrix_scan debounce raw (u16 t) (raw0, s)) as [ret [raw1 s']]. cbn [snd].
    destruct H as (Hw' & Htm' & Hr' & _). rewrite last_scan_snoc. split; [done|]. split; [done|].
    intros row Hrow. rewrite Hr', Hr by done. rewrite history_app, row_run_app.
    by rewrite last_scan_history.
Qed.

(** [sym_defer_pr], over any sequence of scans less than a period of the
    sixteen-bit timer apart, with [DEBOUNCE] at most 255. A cooked row changes
    only to the raw row of the scan, when all scans of the last [DEBOUNCE]
    milliseconds or more agree on it; a row steady for [DEBOUNCE] milliseconds
    is seen; the scan returns true if and only if it has changed a row. *)
Theorem sym_defer_pr_debounces t0 scans t raw row :
  timely 65536 t0 (scans ++ [(t, raw)]) -> 0 <= row < num_rows ->
  let before := defer_pr_session t0 scans in
  let after := defer_pr_session t0 (scans ++ [(t, raw)]) in
  let h := history raw_row row (scans ++ [(t, raw)]) in
  let cooked_row st r := nthZ (SymDeferPr.cooked (snd st)) r in
  (cooked_row after row <> cooked_row before row ->
     cooked_row after row = nthZ raw row /\ held_for (nthZ raw row) DEBOUNCE_MS t0 h)
  /\ (forall v, held_for v DEBOUNCE_MS t0 h -> cooked_row after row = v)
  /\ ((matrix_scan debounce raw (u16 t) before).1 = true
      <-> exists row', 0 <= row' < num_rows /\ cooked_row after row' <> cooked_row before row').
Proof using ok D_le.
  intros Ht Hr before after h cooked_row. pose proof Ht as Ht'. apply timely_app in Ht' as [Ht' [Hg _]].
  destruct (defer_pr_rows t0 _ Ht) as (_ & _ & Ha). destruct (defer_pr_rows t0 _ Ht') as (Hw & Htm & Hb).
  fold before in Hw, Htm, Hb. fold after in Ha.
  assert (Hx : row_inv t0 [] (0, 0, 0)) by (pose proof (@debounce_positive _ ok); split; [cbn; lia|by split]).
  pose proof (timely_history raw_row row _ _ _ Ht) as Hth. rewrite history_app in Hth.
  destruct (row_debounces 65536 t0 _ (0, 0, 0) t _ Hth Hx) as [H1 H2].
  cbn [fst snd] in H1, H2.
  assert (Eh : history raw_row row (scans ++ [(t, raw)]) = history raw_row row scans ++ [(t, raw_row raw row)])
    by apply history_app.
  rewrite <- Eh in H1, H2. rewrite <- (Ha row Hr), <- (Hb row Hr) in H1. rewrite <- (Ha row Hr) in H2.
  split; [exact H1|]. split; [exact H2|].
  assert (E : (matrix_scan debounce raw (u16 t) before).2 = after)
    by (unfold after, before, defer_pr_session; by rewrite foldl_app).
  destruct before as [raw0 s]. cbn [snd] in *.
  pose proof (defer_pr_scan _ t raw raw0 s Hw Htm Hg) as H.
  destruct (matrix_scan debounce raw (u16 t) (raw0, s)) as [ret [raw1 s']]. cbn [snd] in E.
  rewrite <- E. cbn [fst]. apply H.
Qed.
End sym_defer_pr.

(** ** Witness *)

Section witnesses.
Import DebounceExample.
#[local] Existing Instance config.
#[local] Existing Instance config_ok.

Lemma sym_defer_pr_debounces_witness :
  nthZ (SymDeferPr.cooked (defer_pr_session 0 (press ++ [(16, [0; 4])])).2) 1 = 4.
Proof.
  refine (proj1 (proj2 (sym_defer_pr_debounces _ 0 press 16 [0; 4] 1 _ _)) 4 _).
  - vm_compute. discriminate.
  - repeat split; vm_compute; (discriminate || reflexivity).
  - split; vm_compute; (discriminate || reflexivity).
  - exists [], 10, 4, [(12, 4); (16, 4)].
    split; [reflexivity|split; [repeat constructor|vm_compute; discriminate]].
Defined.
End witnesses.
