(* ===== verification/Bitwise.v ===== *)
(** Bit counting and bit reversal: [quantum/bitwise.c]. *)

From S2P Require Import Prelude.

(** ** Definitions *)

(** [for (c = 0; bits; c++) bits &= bits - 1]. *)
Fixpoint bitpop_loop (fuel : nat) (bits c : Z) : option Z :=
  match fuel with
  | O => None
  | S fuel => if truthy bits then bitpop_loop fuel (bits .& (bits - 1)) (u8 (c + 1)) else Some c
  end.

(** One bit goes with each round. *)
Definition bitpop (bits : Z) : option Z := bitpop_loop 9 bits 0.
Definition bitpop16 (bits : Z) : option Z := bitpop_loop 17 bits 0.
Definition bitpop32 (bits : Z) : option Z := bitpop_loop 33 bits 0.

(** [if (bits >> k) { bits >>= k; n += k; }]. *)
Definition biton_step (k : Z) '(bits, n) : Z * Z :=
  if truthy (bits >> k) then (bits >> k, n + k) else (bits, n).

Definition biton (bits : Z) : Z := snd (biton_step 1 (biton_step 2 (biton_step 4 (bits, 0)))).
Definition biton16 (bits : Z) : Z :=
  snd (biton_step 1 (biton_step 2 (biton_step 4 (biton_step 8 (bits, 0))))).
Definition biton32 (bits : Z) : Z :=
  snd (biton_step 1 (biton_step 2 (biton_step 4 (biton_step 8 (biton_step 16 (bits, 0)))))).

Definition bitrev (bits : Z) : Z :=
  let bits := u8 (((bits .& 0x0f) << 4) .| ((bits .& 0xf0) >> 4)) in
  let bits := u8 (((bits .& 0x33) << 2) .| ((bits .& 0xCC) >> 2)) in
  u8 (((bits .& 0x55) << 1) .| ((bits .& 0xAA) >> 1)).
Definition bitrev16 (bits : Z) : Z :=
  u16 ((bitrev (u8 (bits .& 0x00ff)) << 8) .| bitrev (u8 ((bits .& 0xff00) >> 8))).
Definition bitrev32 (bits : Z) : Z :=
  u32 ((u32 (bitrev16 (u16 (bits .& 0x0000ffff))) << 16) .| bitrev16 (u16 ((bits .& 0xffff0000) >> 16))).

(** ** Counting *)

(** The ones of the binary numeral. *)
Fixpoint pos_ones (p : positive) : Z :=
  match p with xH => 1 | xO p => pos_ones p | xI p => 1 + pos_ones p end.
Definition ones (z : Z) : Z := match z with Zpos p => pos_ones p | _ => 0 end.

Lemma pos_ones_positive p : 0 < pos_ones p.
Proof. induction p; cbn; lia. Qed.

Lemma ones_nonneg z : 0 <= ones z.
Proof. destruct z; cbn; [done|pose proof (pos_ones_positive p); lia|done]. Qed.

(** [bits & (bits - 1)] clears the lowest one. *)
Lemma land_pred p : 0 <= Z.land (Zpos p) (Zpos p - 1) /\ ones (Z.land (Zpos p) (Zpos p - 1)) = pos_ones p - 1.
Proof.
  induction p as [p IH|p [IHn IH]|].
  - replace (Z.pos p~1 - 1) with (Z.pos p~0) by lia.
    replace (Z.land (Z.pos p~1) (Z.pos p~0)) with (Z.pos p~0).
    + split; [done|]. cbn [ones pos_ones]. lia.
    + apply Z.bits_inj'. intros i Hi. rewrite Z.land_spec.
      destruct (Z.eq_dec i 0) as [->|]; [done|]. replace i with (Z.succ (i - 1)) by lia.
      replace (Z.pos p~1) with (2 * Z.pos p + 1) by lia. replace (Z.pos p~0) with (2 * Z.pos p) by lia.
      rewrite Z.testbit_even_succ, Z.testbit_odd_succ by lia. by rewrite andb_diag.
  - destruct (Z.land (Z.pos p) (Z.pos p - 1)) as [|q|q] eqn:E; [| |lia].
    + replace (Z.land (Z.pos p~0) (Z.pos p~0 - 1)) with 0; [by split|].
      symmetry. apply Z.bits_inj'. intros i Hi. rewrite Z.land_spec, Z.bits_0.
      destruct (Z.eq_dec i 0) as [->|]; [done|].
      replace i with (Z.succ (i - 1)) by lia.
      replace (Z.pos p~0 - 1) with (2 * (Z.pos p - 1) + 1) by lia. replace (Z.pos p~0) with (2 * Z.pos p) by lia.
      rewrite Z.testbit_even_succ, Z.testbit_odd_succ by lia. by rewrite <- Z.land_spec, E, Z.bits_0.
    + replace (Z.land (Z.pos p~0) (Z.pos p~0 - 1)) with (Z.pos q~0); [by split|].
      apply Z.bits_inj'. intros i Hi. rewrite Z.land_spec.
      destruct (Z.eq_dec i 0) as [->|]; [done|]. replace i with (Z.succ (i - 1)) by lia.
      replace (Z.pos p~0 - 1) with (2 * (Z.pos p - 1) + 1) by lia. replace (Z.pos p~0) with (2 * Z.pos p) by lia.
      replace (Z.pos q~0) with (2 * Z.pos q) by lia.
      rewrite !Z.testbit_even_succ, Z.testbit_odd_succ by lia. by rewrite <- Z.land_spec, E.
  - done.
Qed.

Lemma pos_ones_bound p w : Z.pos p < 2 ^ Z.of_nat w -> pos_ones p <= Z.of_nat w.
Proof.
  revert w. induction p as [p IH|p IH|]; intros w Hw; cbn [pos_ones].
  - destruct w as [|w]; [cbn in Hw; lia|]. rewrite Nat2Z.inj_succ, Z.pow_succ_r in Hw by lia.
    specialize (IH w ltac:(lia)). lia.
  - destruct w as [|w]; [cbn in Hw; lia|]. rewrite Nat2Z.inj_succ, Z.pow_succ_r in Hw by lia.
    specialize (IH w ltac:(lia)). lia.
  - destruct w as [|w]; [cbn in Hw; lia|lia].
Qed.

Lemma bitpop_loop_spec fuel bits c : 0 <= bits -> 0 <= c -> c + ones bits < 256 ->
  ones bits < Z.of_nat fuel -> bitpop_loop fuel bits c = Some (c + ones bits).
Proof.
  revert bits c. induction fuel as [|fuel IH]; intros bits c Hb Hc Ho Hf.
  { pose proof (ones_nonneg bits). lia. }
  cbn [bitpop_loop]. destruct bits as [|p|p]; [cbn; f_equal; lia| |lia].
  change (truthy (Z.pos p)) with true. cbv iota. destruct (land_pred p) as [H0 H1].
  pose proof (pos_ones_positive p). cbn [ones] in Ho, Hf. rewrite IH; rewrite ?u8_id by lia; try lia.
  f_equal. rewrite H1. cbn [ones]. lia.
Qed.

Lemma ones_bound z w : 0 <= z < 2 ^ Z.of_nat w -> ones z <= Z.of_nat w.
Proof. destruct z as [|p|p]; intros H; cbn [ones]; [lia| |lia]. apply pos_ones_bound, H. Qed.

(** ** The highest bit *)

Lemma biton_step_spec k bits n : 0 <= k -> 0 <= bits < 2 ^ (2 * k) ->
  let '(bits', n') := biton_step k (bits, n) in
  0 <= bits' < 2 ^ k /\ n' + Z.log2 bits' = n + Z.log2 bits.
Proof.
  intros Hk Hb. unfold biton_step, truthy. rewrite Z.shiftr_div_pow2 by done.
  assert (Hp : 0 < 2 ^ k) by lia. replace (2 * k) with (k + k) in Hb by lia. rewrite Z.pow_add_r in Hb by done.
  destruct (bits / 2 ^ k =? 0) eqn:E; b2p; cbn [negb].
  - split; [|done]. apply Z.div_small_iff in E; lia.
  - split; [split; [apply Z.div_pos; lia|apply Z.div_lt_upper_bound; lia]|].
    assert (2 ^ k <= bits).
    { destruct (Z.le_gt_cases (2 ^ k) bits); [done|]. exfalso. apply E. apply Z.div_small. lia. }
    rewrite <- Z.shiftr_div_pow2, Z.log2_shiftr by lia.
    assert (k <= Z.log2 bits) by (rewrite <- (Z.log2_pow2 k) by done; by apply Z.log2_le_mono). lia.
Qed.

Lemma biton_last bits n : 0 <= bits < 4 -> snd (biton_step 1 (bits, n)) = n + Z.log2 bits.
Proof.
  intros H. pose proof (biton_step_spec 1 bits n ltac:(lia) ltac:(exact H)) as Hs.
  destruct (biton_step 1 (bits, n)) as [b m]. destruct Hs as [Hb E]. cbn [snd].
  assert (Z.log2 b = 0) by (assert (b = 0 \/ b = 1) as [->| ->] by lia; done). lia.
Qed.

(** Runs the steps down from the widest. *)
Ltac biton_steps k :=
  match goal with |- context [biton_step k (?b, ?n)] =>
    let Hs := fresh in
    pose proof (biton_step_spec k b n ltac:(lia) ltac:(assumption)) as Hs;
    destruct (biton_step k (b, n)) as [? ?]; destruct Hs as [? Hs]; rewrite <- Hs; clear Hs
  end.

Lemma biton_log2 z : 0 <= z < 2 ^ 8 -> biton z = Z.log2 z.
Proof.
  intros H. rewrite <- (Z.add_0_l (Z.log2 z)). unfold biton. biton_steps 4. biton_steps 2.
  by apply biton_last.
Qed.

(** [bitpop] counts the ones and [biton] finds the highest one (0 when there
    is none), in all three widths; the counting loops end. *)
Lemma bitpop_biton_spec z8 z16 z32 :
  0 <= z8 < 2 ^ 8 -> 0 <= z16 < 2 ^ 16 -> 0 <= z32 < 2 ^ 32 ->
  (bitpop z8 = Some (ones z8) /\ bitpop16 z16 = Some (ones z16) /\ bitpop32 z32 = Some (ones z32))
  /\ (biton z8 = Z.log2 z8 /\ biton16 z16 = Z.log2 z16 /\ biton32 z32 = Z.log2 z32).
Proof.
  intros H8 H16 H32.
  pose proof (ones_bound z8 8 H8). pose proof (ones_bound z16 16 H16). pose proof (ones_bound z32 32 H32).
  split.
  - unfold bitpop, bitpop16, bitpop32. rewrite !bitpop_loop_spec by lia. done.
  - rewrite <- (Z.add_0_l (Z.log2 z16)), <- (Z.add_0_l (Z.log2 z32)).
    unfold biton16, biton32. split; [|split].
    + by apply biton_log2.
    + biton_steps 8. biton_steps 4. biton_steps 2. by apply biton_last.
    + biton_steps 16. biton_steps 8. biton_steps 4. biton_steps 2. by apply biton_last.
Qed.

(** ** Reversal *)

Definition bitrev_ok (z : Z) : bool :=
  forallb (fun i => Bool.eqb (Z.testbit (bitrev z) i) (Z.testbit z (7 - i))) (seqZ 0 8)
  && (0 <=? bitrev z) && (bitrev z <? 256).

Lemma bitrev_all : forallb bitrev_ok (seqZ 0 256) = true.
Proof. vm_compute. reflexivity. Qed.

Lemma bitrev_spec z : byte_range z ->
  byte_range (bitrev z) /\ forall i, 0 <= i < 8 -> Z.testbit (bitrev z) i = Z.testbit z (7 - i).
Proof.
  intros Hz. pose proof bitrev_all as H. rewrite forallb_forall in H.
  specialize (H z ltac:(apply list_elem_of_In, elem_of_seqZ; lia)). unfold bitrev_ok in H. b2p.
  split; [done|]. intros i Hi. rewrite forallb_forall in H.
  specialize (H i ltac:(apply list_elem_of_In, elem_of_seqZ; lia)). by apply eqb_prop in H.
Qed.

(** The halves of a number. *)
Lemma low_half z w : 0 <= w -> z .& (2 ^ w - 1) = z mod 2 ^ w.
Proof. intros. rewrite <- Z.land_ones by done. by rewrite Z.ones_equiv, Z.sub_1_r. Qed.

Lemma testbit_concat w hi lo i : 0 <= w -> 0 <= lo < 2 ^ w -> 0 <= i ->
  Z.testbit ((hi << w) .| lo) i = if i <? w then Z.testbit lo i else Z.testbit hi (i - w).
Proof.
  intros Hw Hl Hi. rewrite Z.lor_spec, Z.shiftl_spec by done. destruct (Z.ltb_spec i w).
  - rewrite Z.testbit_neg_r by lia. done.
  - by rewrite (testbit_small lo w), orb_false_r by lia.
Qed.

Lemma high_half z w : 0 <= w -> 0 <= z < 2 ^ (2 * w) -> (z .& ((2 ^ w - 1) * 2 ^ w)) >> w = z / 2 ^ w.
Proof.
  intros Hw Hz. rewrite Z.shiftr_land, (Z.shiftr_div_pow2 (_ * _)) by done. rewrite Z.div_mul by lia.
  rewrite Z.shiftr_div_pow2, low_half by done. apply Z.mod_small.
  replace (2 * w) with (w + w) in Hz by lia. rewrite Z.pow_add_r in Hz by done.
  split; [apply Z.div_pos; lia|apply Z.div_lt_upper_bound; lia].
Qed.

Lemma bitrev16_spec z : 0 <= z < 65536 ->
  0 <= bitrev16 z < 65536 /\ forall i, 0 <= i < 16 -> Z.testbit (bitrev16 z) i = Z.testbit z (15 - i).
Proof.
  intros Hz. split; [apply u16_range|]. intros i Hi. unfold bitrev16.
  change 0x00ff with (2 ^ 8 - 1). change 0xff00 with ((2 ^ 8 - 1) * 2 ^ 8).
  rewrite low_half, high_half by (done || exact Hz).
  assert (Hlo : byte_range (z mod 2 ^ 8)) by (pow_consts; dlia).
  assert (Hhi : byte_range (z / 2 ^ 8)) by (pow_consts; dlia).
  rewrite !u8_id by done. destruct (bitrev_spec _ Hlo) as [Rl Bl]. destruct (bitrev_spec _ Hhi) as [Rh Bh].
  unfold u16. change 65536 with (2 ^ 16). rewrite Z.mod_pow2_bits_low by lia.
  rewrite testbit_concat by (done || lia). destruct (Z.ltb_spec i 8).
  - rewrite Bh, <- Z.shiftr_div_pow2, Z.shiftr_spec by lia. f_equal. lia.
  - rewrite Bl, Z.mod_pow2_bits_low by lia. f_equal. lia.
Qed.

Lemma bitrev32_spec z : 0 <= z < 4294967296 ->
  0 <= bitrev32 z < 4294967296 /\ forall i, 0 <= i < 32 -> Z.testbit (bitrev32 z) i = Z.testbit z (31 - i).
Proof.
  intros Hz. split; [apply u32_range|]. intros i Hi. unfold bitrev32.
  change 0x0000ffff with (2 ^ 16 - 1). change 0xffff0000 with ((2 ^ 16 - 1) * 2 ^ 16).
  rewrite low_half, high_half by (done || exact Hz).
  assert (Hlo : 0 <= z mod 2 ^ 16 < 65536) by (pow_consts; dlia).
  assert (Hhi : 0 <= z / 2 ^ 16 < 65536) by (pow_consts; dlia).
  rewrite !u16_id by done. destruct (bitrev16_spec _ Hlo) as [Rl Bl]. destruct (bitrev16_spec _ Hhi) as [Rh Bh].
  rewrite (u32_id (bitrev16 _)) by lia.
  unfold u32. change 4294967296 with (2 ^ 32). rewrite Z.mod_pow2_bits_low by lia.
  rewrite testbit_concat by (done || lia). destruct (Z.ltb_spec i 16).
  - rewrite Bh, <- Z.shiftr_div_pow2, Z.shiftr_spec by lia. f_equal. lia.
  - rewrite Bl, Z.mod_pow2_bits_low by lia. f_equal. lia.
Qed.

(** The bit functions, in all three widths: [bitpop] counts the ones and its
    loop ends; [biton] finds the highest one (0 when there is none); the
    reversals mirror the bits of their width, bit [i] to bit [width - 1 - i], and
    are their own inverses. *)
Theorem bit_functions z8 z16 z32 i :
  byte_range z8 -> 0 <= z16 < 65536 -> 0 <= z32 < 4294967296 -> 0 <= i ->
  (bitpop z8 = Some (ones z8) /\ bitpop16 z16 = Some (ones z16) /\ bitpop32 z32 = Some (ones z32))
  /\ (biton z8 = Z.log2 z8 /\ biton16 z16 = Z.log2 z16 /\ biton32 z32 = Z.log2 z32)
  /\ ((i < 8 -> Z.testbit (bitrev z8) i = Z.testbit z8 (7 - i))
      /\ (i < 16 -> Z.testbit (bitrev16 z16) i = Z.testbit z16 (15 - i))
      /\ (i < 32 -> Z.testbit (bitrev32 z32) i = Z.testbit z32 (31 - i)))
  /\ bitrev (bitrev z8) = z8 /\ bitrev16 (bitrev16 z16) = z16 /\ bitrev32 (bitrev32 z32) = z32.
Proof.
  intros H8 H16 H32 Hi. destruct (bitrev_spec z8 H8) as [R8 B8]. destruct (bitrev16_spec z16 H16) as [R16 B16].
  destruct (bitrev32_spec z32 H32) as [R32 B32]. destruct (bitpop_biton_spec z8 z16 z32 H8 H16 H32) as [P1 P2].
  split; [exact P1|]. split; [exact P2|].
  split; [split; [intros; apply B8; lia|]; split; [intros; apply B16; lia|intros; apply B32; lia]|].
  split; [|split].
  - destruct (bitrev_spec _ R8) as [R B]. apply (bits_ext_small 8); [lia|exact R|exact H8|].
    intros j Hj. rewrite B, B8 by lia. f_equal. lia.
  - destruct (bitrev16_spec _ R16) as [R B]. apply (bits_ext_small 16); [lia|exact R|exact H16|].
    intros j Hj. rewrite B, B16 by lia. f_equal. lia.
  - destruct (bitrev32_spec _ R32) as [R B]. apply (bits_ext_small 32); [lia|exact R|exact H32|].
    intros j Hj. rewrite B, B32 by lia. f_equal. lia.
Qed.

(** ** Witnesses *)

Ltac ranges := vm_compute; try split; (discriminate || reflexivity).

Lemma bit_functions_witness : bitrev32 (bitrev32 0x12345678) = 0x12345678.
Proof.
  refine (proj2 (proj2 (proj2 (proj2 (proj2 (bit_functions 1 2 0x12345678 0 _ _ _ _)))))); ranges.
Defined.
