(* ===== verification/KeycodeConfig.v ===== *)
(** The "magic" remapping of keycodes and modifiers, [quantum/keycode_config.c],
    driven by the configuration word [keymap_config]. *)

From S2P Require Import Prelude.

Definition KC_TRANSPARENT : Z := 0x01.
Definition KC_A : Z := 0x04.
Definition KC_ESCAPE : Z := 0x29.
Definition KC_BACKSPACE : Z := 0x2A.
Definition KC_BACKSLASH : Z := 0x31.
Definition KC_GRAVE : Z := 0x35.
Definition KC_CAPS_LOCK : Z := 0x39.
Definition KC_LOCKING_CAPS_LOCK : Z := 0x82.
Definition KC_LEFT_CTRL : Z := 0xE0.
Definition KC_LEFT_SHIFT : Z := 0xE1.
Definition KC_LEFT_ALT : Z := 0xE2.
Definition KC_LEFT_GUI : Z := 0xE3.
Definition KC_RIGHT_CTRL : Z := 0xE4.
Definition KC_RIGHT_SHIFT : Z := 0xE5.
Definition KC_RIGHT_ALT : Z := 0xE6.
Definition KC_RIGHT_GUI : Z := 0xE7.

(** Five-bit modifiers. *)
Definition MOD_LCTL : Z := 0x01.
Definition MOD_LSFT : Z := 0x02.
Definition MOD_LALT : Z := 0x04.
Definition MOD_LGUI : Z := 0x08.
Definition MOD_RCTL : Z := 0x11.
Definition MOD_RSFT : Z := 0x12.
Definition MOD_RALT : Z := 0x14.
Definition MOD_RGUI : Z := 0x18.

(** The bit-fields of [keymap_config_t]; a configuration is its raw word. *)
Definition swap_control_capslock (keymap_config : Z) : bool := Z.testbit keymap_config 0.
Definition capslock_to_control (keymap_config : Z) : bool := Z.testbit keymap_config 1.
Definition swap_lalt_lgui (keymap_config : Z) : bool := Z.testbit keymap_config 2.
Definition swap_ralt_rgui (keymap_config : Z) : bool := Z.testbit keymap_config 3.
Definition no_gui (keymap_config : Z) : bool := Z.testbit keymap_config 4.
Definition swap_grave_esc (keymap_config : Z) : bool := Z.testbit keymap_config 5.
Definition swap_backslash_backspace (keymap_config : Z) : bool := Z.testbit keymap_config 6.
Definition nkro (keymap_config : Z) : bool := Z.testbit keymap_config 7.
Definition swap_lctl_lgui (keymap_config : Z) : bool := Z.testbit keymap_config 8.
Definition swap_rctl_rgui (keymap_config : Z) : bool := Z.testbit keymap_config 9.
Definition oneshot_enable (keymap_config : Z) : bool := Z.testbit keymap_config 10.
Definition swap_escape_capslock (keymap_config : Z) : bool := Z.testbit keymap_config 11.
Definition autocorrect_enable (keymap_config : Z) : bool := Z.testbit keymap_config 12.

Section keycode_config.
Context (keymap_config : Z).

Definition keycode_config (keycode : Z) : Z :=
  if (keycode =? KC_CAPS_LOCK) || (keycode =? KC_LOCKING_CAPS_LOCK) then
    if swap_control_capslock keymap_config || capslock_to_control keymap_config then KC_LEFT_CTRL
    else if swap_escape_capslock keymap_config then KC_ESCAPE
    else keycode
  else if keycode =? KC_LEFT_CTRL then
    if swap_control_capslock keymap_config then KC_CAPS_LOCK
    else if swap_lctl_lgui keymap_config then
      if no_gui keymap_config then 0 else KC_LEFT_GUI
    else KC_LEFT_CTRL
  else if keycode =? KC_LEFT_ALT then
    if swap_lalt_lgui keymap_config then
      if no_gui keymap_config then 0 else KC_LEFT_GUI
    else KC_LEFT_ALT
  else if keycode =? KC_LEFT_GUI then
    if swap_lalt_lgui keymap_config then KC_LEFT_ALT
    else if swap_lctl_lgui keymap_config then KC_LEFT_CTRL
    else if no_gui keymap_config then 0
    else KC_LEFT_GUI
  else if keycode =? KC_RIGHT_CTRL then
    if swap_rctl_rgui keymap_config then
      if no_gui keymap_config then 0 else KC_RIGHT_GUI
    else KC_RIGHT_CTRL
  else if keycode =? KC_RIGHT_ALT then
    if swap_ralt_rgui keymap_config then
      if no_gui keymap_config then 0 else KC_RIGHT_GUI
    else KC_RIGHT_ALT
  else if keycode =? KC_RIGHT_GUI then
    if swap_ralt_rgui keymap_config then KC_RIGHT_ALT
    else if swap_rctl_rgui keymap_config then KC_RIGHT_CTRL
    else if no_gui keymap_config then 0
    else KC_RIGHT_GUI
  else if keycode =? KC_GRAVE then
    if swap_grave_esc keymap_config then KC_ESCAPE else KC_GRAVE
  else if keycode =? KC_ESCAPE then
    if swap_grave_esc keymap_config then KC_GRAVE
    else if swap_escape_capslock keymap_config then KC_CAPS_LOCK
    else KC_ESCAPE
  else if keycode =? KC_BACKSLASH then
    if swap_backslash_backspace keymap_config then KC_BACKSPACE else KC_BACKSLASH
  else if keycode =? KC_BACKSPACE then
    if swap_backslash_backspace keymap_config then KC_BACKSLASH else KC_BACKSPACE
  else keycode.

(** On the five-bit modifiers; each [if] of the source in turn. *)
Definition mod_config (md : Z) : Z :=
  let md :=
    if swap_lalt_lgui keymap_config then
      if xorb (md .& MOD_RALT =? MOD_LALT) (md .& MOD_RGUI =? MOD_LGUI)
      then md .^ (MOD_LALT .| MOD_LGUI) else md
    else md in
  let md :=
    if swap_ralt_rgui keymap_config then
      if xorb (md .& MOD_RALT =? MOD_RALT) (md .& MOD_RGUI =? MOD_RGUI)
      then md .^ (MOD_LALT .| MOD_LGUI) else md
    else md in
  let md :=
    if swap_lctl_lgui keymap_config then
      if xorb (md .& MOD_RCTL =? MOD_LCTL) (md .& MOD_RGUI =? MOD_LGUI)
      then md .^ (MOD_LCTL .| MOD_LGUI) else md
    else md in
  let md :=
    if swap_rctl_rgui keymap_config then
      if xorb (md .& MOD_RCTL =? MOD_RCTL) (md .& MOD_RGUI =? MOD_RGUI)
      then md .^ (MOD_LCTL .| MOD_LGUI) else md
    else md in
  if no_gui keymap_config then (md .& Z.lnot MOD_LGUI) .& Z.lnot MOD_RGUI else md.
End keycode_config.

(** Every value a byte can take, for the properties decided by evaluation. *)
Lemma forall_byte (P : Z -> bool) n : 0 <= n <= 256 ->
  forallb P (seqZ 0 n) = true -> forall z, 0 <= z < n -> P z = true.
Proof.
  intros Hn H z Hz. rewrite forallb_forall in H. apply H.
  apply list_elem_of_In, elem_of_seqZ. lia.
Qed.

Section properties.
Context (keymap_config : Z).

(** Evaluates the comparisons of constants. *)
Ltac eqb_consts :=
  repeat match goal with |- context [?a =? ?b] =>
    let c := eval vm_compute in (a =? b) in
    match c with true => change (a =? b) with true | false => change (a =? b) with false end
  end; cbn [orb andb].

(** Evaluates [keycode_config] on constants, flag by flag. *)
Ltac by_flags :=
  unfold keycode_config; eqb_consts;
  repeat (match goal with |- context [?f keymap_config] =>
    match type of (f keymap_config) with bool => destruct (f keymap_config) eqn:? end
    end; eqb_consts).

(** The keycodes that the configuration can touch are basic ones. *)
Lemma keycode_config_high keycode : 256 <= keycode -> keycode_config keymap_config keycode = keycode.
Proof using.
  intros H. unfold keycode_config.
  repeat (rewrite (proj2 (Z.eqb_neq keycode _)) by (vm_compute; intros ->; lia)). done.
Qed.

Lemma keycode_config_range keycode : byte_range keycode -> byte_range (keycode_config keymap_config keycode).
Proof using.
  intros H. unfold keycode_config.
  repeat match goal with |- context [if ?b then _ else _] => destruct b end;
    first [exact H | vm_compute; split; (discriminate || reflexivity)].
Qed.

Lemma mod_config_range md : 0 <= md < 32 -> 0 <= mod_config keymap_config md < 32.
Proof using.
  intros H. unfold mod_config.
  assert (Hx : forall m c, 0 <= m < 32 -> 0 <= c < 32 -> 0 <= m .^ c < 32)
    by (intros m c Hm Hc; refine (lxor_range 5 m c _ Hm Hc); done).
  assert (Hl : forall m c, 0 <= m < 32 -> 0 <= m .& c < 32)
    by (intros m c Hm; refine (land_range_l 5 m c _ Hm); done).
  repeat match goal with |- context [if ?b then _ else _] => destruct b end;
    repeat first [done | apply Hl | apply Hx]; vm_compute; split; (discriminate || reflexivity).
Qed.

(** The options that swap keys do not meet in a key. *)
Definition swaps_apart : Prop :=
  (swap_control_capslock keymap_config && swap_lctl_lgui keymap_config = false)
  /\ (swap_control_capslock keymap_config && swap_escape_capslock keymap_config = false)
  /\ (swap_lalt_lgui keymap_config && swap_lctl_lgui keymap_config = false)
  /\ (swap_ralt_rgui keymap_config && swap_rctl_rgui keymap_config = false)
  /\ (swap_grave_esc keymap_config && swap_escape_capslock keymap_config = false).

(** The swap options are swaps. When no two enabled options move the
    same key, and neither [capslock_to_control] nor [no_gui] is on, applying
    [keycode_config] twice gives back every keycode but the locking caps
    lock: no key is lost and no two keys become one. *)
Theorem swap_options_are_swaps keycode :
  swaps_apart -> capslock_to_control keymap_config = false -> no_gui keymap_config = false ->
  keycode <> KC_LOCKING_CAPS_LOCK ->
  keycode_config keymap_config (keycode_config keymap_config keycode) = keycode.
Proof using.
  intros (H1 & H2 & H3 & H4 & H5) Hc Hg Hl.
  assert (Hother : keycode_config keymap_config keycode = keycode
    \/ In keycode [KC_CAPS_LOCK; KC_LEFT_CTRL; KC_LEFT_ALT; KC_LEFT_GUI; KC_RIGHT_CTRL; KC_RIGHT_ALT;
                   KC_RIGHT_GUI; KC_GRAVE; KC_ESCAPE; KC_BACKSLASH; KC_BACKSPACE]).
  { unfold keycode_config.
    repeat match goal with
    | |- context [(keycode =? KC_CAPS_LOCK) || _] =>
        destruct (Z.eqb_spec keycode KC_CAPS_LOCK); [right; subst; cbn; tauto|];
        destruct (Z.eqb_spec keycode KC_LOCKING_CAPS_LOCK); [done|]; cbn [orb]
    | |- context [keycode =? ?k] => destruct (Z.eqb_spec keycode k); [right; subst; cbn; tauto|]
    end. by left. }
  destruct Hother as [E|Hin]; [by rewrite E|]. clear Hl.
  repeat (destruct Hin as [<-|Hin]; [by_flags; (done || congruence || (exfalso;
    repeat match goal with H : ?a && ?b = false |- _ => apply andb_false_iff in H end;
    intuition congruence))|]). destruct Hin.
Qed.

Ltac locking :=
  match goal with H : (_ || _) = true |- _ => apply orb_true_iff in H as [H|H] end; b2p; subst; done.

(** Without GUI. When [no_gui] is on, no keycode is mapped to a GUI key
    and no modifiers keep the GUI bit. The modifiers lose the side bit too,
    so the right-hand modifiers become left-hand ones. *)
Theorem no_gui_removes_gui keycode md :
  no_gui keymap_config = true ->
  keycode_config keymap_config keycode <> KC_LEFT_GUI
  /\ keycode_config keymap_config keycode <> KC_RIGHT_GUI
  /\ Z.testbit (mod_config keymap_config md) 3 = false
  /\ Z.testbit (mod_config keymap_config md) 4 = false.
Proof using.
  intros Hg. split; [|split; [|split]].
  - unfold keycode_config. rewrite Hg.
    repeat match goal with |- context [if ?b then _ else _] => destruct b eqn:? end; b2p; first [done | locking].
  - unfold keycode_config. rewrite Hg.
    repeat match goal with |- context [if ?b then _ else _] => destruct b eqn:? end; b2p; first [done | locking].
  - unfold mod_config. rewrite Hg. rewrite !Z.land_spec. cbn. by rewrite andb_false_r.
  - unfold mod_config. rewrite Hg. rewrite !Z.land_spec. cbn. by rewrite andb_false_r.
Qed.

(** The keycode of a modifier: four on each side. *)
Definition mod_keycode (md : Z) : Z :=
  KC_LEFT_CTRL + (if Z.testbit md 4 then 4 else 0) + Z.log2 (md .& 0x0F).

(** The two remappings agree. With [no_gui] off, caps lock and control
    not swapped, and on each side at most one of the two GUI swaps enabled,
    [mod_config] maps each of the eight modifiers to the modifier of the
    keycode that [keycode_config] maps its key to. *)
Theorem mods_follow_keycodes md :
  In md [MOD_LCTL; MOD_LSFT; MOD_LALT; MOD_LGUI; MOD_RCTL; MOD_RSFT; MOD_RALT; MOD_RGUI] ->
  no_gui keymap_config = false -> swap_control_capslock keymap_config = false ->
  swap_lalt_lgui keymap_config && swap_lctl_lgui keymap_config = false ->
  swap_ralt_rgui keymap_config && swap_rctl_rgui keymap_config = false ->
  mod_keycode (mod_config keymap_config md) = keycode_config keymap_config (mod_keycode md).
Proof using.
  intros Hin Hg Hc H1 H2.
  repeat (destruct Hin as [<-|Hin];
    [unfold mod_config; rewrite Hg;
     match goal with |- _ = keycode_config _ ?k =>
       let c := eval vm_compute in k in change k with c end;
     unfold keycode_config; eqb_consts; rewrite ?Hc, ?Hg;
     destruct (swap_lalt_lgui keymap_config), (swap_lctl_lgui keymap_config); try done;
     destruct (swap_ralt_rgui keymap_config), (swap_rctl_rgui keymap_config); done|]).
  destruct Hin.
Qed.
End properties.

(** ** Witnesses *)

(** Left alt and left GUI swapped, escape and grave swapped. *)
Lemma swap_options_are_swaps_witness :
  keycode_config 0x24 (keycode_config 0x24 KC_LEFT_ALT) = KC_LEFT_ALT.
Proof.
  refine (swap_options_are_swaps 0x24 KC_LEFT_ALT _ eq_refl eq_refl _); [done|discriminate].
Defined.

Lemma no_gui_removes_gui_witness : Z.testbit (mod_config 0x10 MOD_RCTL) 4 = false.
Proof. exact (proj2 (proj2 (proj2 (no_gui_removes_gui 0x10 KC_LEFT_GUI MOD_RCTL eq_refl)))). Defined.

Lemma mods_follow_keycodes_witness :
  mod_keycode (mod_config 0x04 MOD_LALT) = keycode_config 0x04 (mod_keycode MOD_LALT).
Proof. refine (mods_follow_keycodes 0x04 MOD_LALT _ eq_refl eq_refl eq_refl eq_refl). cbn. tauto. Defined.
