(* ===== verification/KeymapCommon.v ===== *)
(** From a key to an action: [quantum/keymap_common.c], with the action codes
    of [quantum/action_code.h] and the usage tables of
    [tmk_core/protocol/report.h]. The build has the extra keys, layers, tapping
    and one-shot keys, and no swap-hands, DIP switch map or legacy magic. *)

From S2P Require Import Prelude.
From S2P Require Import Eeprom.
From S2P Require Import DynamicKeymap.
From S2P Require Import KeymapSlots.
From S2P Require Import KeymapBuffer.
From S2P Require Import KeycodeConfig.

Record keypos_t := mk_key { col : Z; row : Z }.
#[export] Instance keypos_eq_dec : EqDecision keypos_t.
Proof. solve_decision. Defined.

Definition KEYLOC_ENCODER_CW : Z := 253.
Definition KEYLOC_ENCODER_CCW : Z := 252.
Definition VIAL_MATRIX_MAGIC : Z := 240.

(** ** Action codes *)

Definition ACTION_NO : Z := 0.
Definition ACTION_TRANSPARENT : Z := 1.
Definition ACT_MODS : Z := 0.
Definition ACT_MODS_TAP : Z := 2.
Definition ACT_USAGE : Z := 4.
Definition ACT_MOUSEKEY : Z := 5.
Definition ACT_LAYER : Z := 8.
Definition ACT_LAYER_MODS : Z := 9.
Definition ACT_LAYER_TAP : Z := 10.
Definition ACT_LAYER_TAP_EXT : Z := 11.

Definition ACTION (kind param : Z) : Z := u16 ((kind << 12) .| param).

Definition PAGE_SYSTEM : Z := 0.
Definition PAGE_CONSUMER : Z := 1.
Definition ON_PRESS : Z := 1.
Definition ON_RELEASE : Z := 2.
Definition OP_BIT_AND : Z := 0.
Definition OP_BIT_OR : Z := 1.
Definition OP_BIT_XOR : Z := 2.
Definition OP_BIT_SET : Z := 3.
Definition OP_TAP_TOGGLE : Z := 0xF0.
Definition OP_ON_OFF : Z := 0xF1.
Definition OP_ONESHOT : Z := 0xF4.
Definition MODS_ONESHOT : Z := 0.

Definition ACTION_KEY (key : Z) : Z := ACTION ACT_MODS key.
Definition ACTION_MODS_KEY (mods key : Z) : Z := ACTION ACT_MODS (((mods .& 0x1f) << 8) .| key).
Definition ACTION_MODS_TAP_KEY (mods key : Z) : Z := ACTION ACT_MODS_TAP (((mods .& 0x1f) << 8) .| key).
Definition ACTION_MODS_ONESHOT (mods : Z) : Z := ACTION ACT_MODS_TAP (((mods .& 0x1f) << 8) .| MODS_ONESHOT).
Definition ACTION_USAGE_SYSTEM (id : Z) : Z := ACTION ACT_USAGE ((PAGE_SYSTEM << 10) .| id).
Definition ACTION_USAGE_CONSUMER (id : Z) : Z := ACTION ACT_USAGE ((PAGE_CONSUMER << 10) .| id).
Definition ACTION_MOUSEKEY (key : Z) : Z := ACTION ACT_MOUSEKEY key.
Definition ACTION_LAYER_BITOP (op part bits on : Z) : Z :=
  ACTION ACT_LAYER ((op << 10) .| (on << 8) .| (part << 5) .| (bits .& 0x1f)).
Definition ACTION_LAYER_TAP (layer key : Z) : Z := ACTION ACT_LAYER_TAP ((layer << 8) .| key).
Definition ACTION_DEFAULT_LAYER_SET (layer : Z) : Z :=
  ACTION_LAYER_BITOP OP_BIT_SET (layer / 4) (1 << (layer mod 4)) 0.
Definition ACTION_LAYER_GOTO (layer : Z) : Z :=
  ACTION_LAYER_BITOP OP_BIT_SET (layer / 4) (1 << (layer mod 4)) ON_PRESS.
Definition ACTION_LAYER_TOGGLE (layer : Z) : Z :=
  ACTION_LAYER_BITOP OP_BIT_XOR (layer / 4) (1 << (layer mod 4)) ON_RELEASE.
Definition ACTION_LAYER_MODS (layer mods : Z) : Z := ACTION ACT_LAYER_MODS ((layer << 8) .| mods).

(** The bit-fields of [action_t]. *)
Definition action_kind (code : Z) : Z := (code >> 12) .& 0xF.
Definition key_code (code : Z) : Z := code .& 0xFF.
Definition layer_tap_val (code : Z) : Z := (code >> 8) .& 0x1F.
Definition layer_tap_kind (code : Z) : Z := (code >> 13) .& 0x7.
Definition layer_mods_layer (code : Z) : Z := (code >> 8) .& 0xF.
Definition bitop_bits (code : Z) : Z := code .& 0xF.
Definition bitop_part (code : Z) : Z := (code >> 5) .& 0x7.
Definition bitop_on (code : Z) : Z := (code >> 8) .& 0x3.
Definition bitop_op (code : Z) : Z := (code >> 10) .& 0x3.

(** ** Usages *)

Definition KEYCODE2SYSTEM (key : Z) : Z :=
  if key =? 0xA5 then 0x81 else if key =? 0xA6 then 0x82 else if key =? 0xA7 then 0x83 else 0.

(** Keycode and usage of the consumer keys. *)
Definition consumer_usages : list (Z * Z) :=
  [(0xA8, 0x0E2); (0xA9, 0x0E9); (0xAA, 0x0EA); (0xAB, 0x0B5); (0xAC, 0x0B6);
   (0xBB, 0x0B3); (0xBC, 0x0B4); (0xAD, 0x0B7); (0xB0, 0x0CC); (0xAE, 0x0CD);
   (0xAF, 0x183); (0xB1, 0x18A); (0xB2, 0x192); (0xB3, 0x194); (0xBF, 0x19F);
   (0xC0, 0x1CB); (0xB4, 0x221); (0xB5, 0x223); (0xB6, 0x224); (0xB7, 0x225);
   (0xB8, 0x226); (0xB9, 0x227); (0xBD, 0x06F); (0xBE, 0x070); (0xBA, 0x22A);
   (0xC1, 0x29F); (0xC2, 0x2A0)].

Definition KEYCODE2CONSUMER (key : Z) : Z :=
  match list_find (fun p => p.1 = key) consumer_usages with Some (_, p) => p.2 | None => 0 end.

(** ** Actions *)

Definition in_range (lo hi keycode : Z) : bool := (lo <=? keycode) && (keycode <=? hi).

Definition action_for_keycode (keymap_config keycode : Z) : Z :=
  let keycode := keycode_config keymap_config keycode in
  if in_range KC_A 0xA4 keycode || in_range KC_LEFT_CTRL KC_RIGHT_GUI keycode then ACTION_KEY keycode
  else if in_range 0xA5 0xA7 keycode then ACTION_USAGE_SYSTEM (KEYCODE2SYSTEM keycode)
  else if in_range 0xA8 0xC2 keycode then ACTION_USAGE_CONSUMER (KEYCODE2CONSUMER keycode)
  else if in_range 0xCD 0xDF keycode then ACTION_MOUSEKEY keycode
  else if keycode =? KC_TRANSPARENT then ACTION_TRANSPARENT
  else if in_range 0x0100 0x1FFF keycode then
    ACTION_MODS_KEY (mod_config keymap_config ((keycode >> 8) .& 0x1F))
                    (keycode_config keymap_config (keycode .& 0xFF))
  else if in_range 0x4000 0x4FFF keycode then
    ACTION_LAYER_TAP ((keycode >> 8) .& 0xF) (keycode_config keymap_config (keycode .& 0xFF))
  else if in_range 0x5200 0x521F keycode then ACTION_LAYER_GOTO (keycode .& 0x1F)
  else if in_range 0x5220 0x523F keycode then ACTION_LAYER_TAP (keycode .& 0x1F) OP_ON_OFF
  else if in_range 0x5240 0x525F keycode then ACTION_DEFAULT_LAYER_SET (keycode .& 0x1F)
  else if in_range 0x5260 0x527F keycode then ACTION_LAYER_TOGGLE (keycode .& 0x1F)
  else if in_range 0x5280 0x529F keycode then ACTION_LAYER_TAP (keycode .& 0x1F) OP_ONESHOT
  else if in_range 0x52A0 0x52BF keycode then
    ACTION_MODS_ONESHOT (mod_config keymap_config (keycode .& 0x1F))
  else if in_range 0x52C0 0x52DF keycode then ACTION_LAYER_TAP (keycode .& 0x1F) OP_TAP_TOGGLE
  else if in_range 0x5000 0x51FF keycode then
    let md := mod_config keymap_config (keycode .& 0x1F) in
    ACTION_LAYER_MODS ((keycode >> 5) .& 0xF) (if truthy (md .& 0x10) then md << 4 else md)
  else if in_range 0x2000 0x3FFF keycode then
    ACTION_MODS_TAP_KEY (mod_config keymap_config ((keycode >> 8) .& 0x1F))
                        (keycode_config keymap_config (keycode .& 0xFF))
  else ACTION_NO.

Section keymap.
Context {E : Type} {eeprom : Eeprom E} {cfg : KeymapConfig}.

(** What the lookup reads besides the store. *)
Record keymap_env := mk_keymap_env {
  vial_unlock_in_progress : Z;
  g_vial_magic_keycode_override : Z;
  keymap_config : Z;
}.

Definition keymap_key_to_keycode (v : keymap_env) (e : E) (layer : Z) (key : keypos_t) : Z :=
  if truthy (vial_unlock_in_progress v) then KC_NO
  else if (row key =? VIAL_MATRIX_MAGIC) && (col key =? VIAL_MATRIX_MAGIC)
  then g_vial_magic_keycode_override v
  else if (row key <? MATRIX_ROWS) && (col key <? MATRIX_COLS)
  then keycode_at_keymap_location e layer (row key) (col key)
  else if (row key =? KEYLOC_ENCODER_CW) && (col key <? NUM_ENCODERS)
  then keycode_at_encodermap_location e layer (col key) true
  else if (row key =? KEYLOC_ENCODER_CCW) && (col key <? NUM_ENCODERS)
  then keycode_at_encodermap_location e layer (col key) false
  else KC_NO.

Definition action_for_key (v : keymap_env) (e : E) (layer : Z) (key : keypos_t) : Z :=
  action_for_keycode (keymap_config v) (keymap_key_to_keycode v e layer key).
End keymap.

(** ** Properties *)

Lemma land_ones_mod a n : 0 <= n -> a .& (2 ^ n - 1) = a mod 2 ^ n.
Proof. intros. rewrite <- Z.land_ones by done. by rewrite Z.ones_equiv, Z.sub_1_r. Qed.

(** A code of a kind with an even number, a five-bit and an eight-bit field. *)
Lemma action_fields kind h k : kind = ACT_MODS \/ kind = ACT_MODS_TAP \/ kind = ACT_LAYER_TAP ->
  0 <= h < 32 -> 0 <= k < 256 ->
  let code := ACTION kind ((h << 8) .| k) in
  code = kind * 4096 + h * 256 + k /\ layer_tap_kind code = kind / 2
  /\ layer_tap_val code = h /\ key_code code = k.
Proof.
  intros Hkind Hh Hk code.
  assert (E : code = kind * 4096 + h * 256 + k).
  { unfold code, ACTION. rewrite (lor_add 8 h k) by (try done; pow_consts; lia).
    replace (kind << 12) with ((kind / 2) << 13) by (by destruct Hkind as [->|[->| ->]]).
    rewrite lor_add by (try done; pow_consts; lia). pow_consts.
    rewrite u16_id; destruct Hkind as [->|[->| ->]]; unfold ACT_MODS, ACT_MODS_TAP, ACT_LAYER_TAP; dlia. }
  split; [done|]. unfold layer_tap_kind, layer_tap_val, key_code. rewrite E.
  change 0x7 with (2 ^ 3 - 1). change 0x1F with (2 ^ 5 - 1). change 0xFF with (2 ^ 8 - 1).
  rewrite !land_ones_mod, !Z.shiftr_div_pow2 by done. pow_consts.
  destruct Hkind as [->|[->| ->]]; unfold ACT_MODS, ACT_MODS_TAP, ACT_LAYER_TAP; repeat split; dlia.
Qed.

Section properties.
Context (keymap_config : Z).

Lemma config_byte keycode : byte_range (keycode_config keymap_config (keycode .& 0xFF)).
Proof using.
  apply keycode_config_range. change 0xFF with (2 ^ 8 - 1). rewrite land_ones_mod by done.
  apply (u8_range keycode).
Qed.

(** Takes a keycode to its range. *)
Ltac find_range :=
  unfold action_for_keycode; rewrite keycode_config_high by lia; unfold in_range, KC_A, KC_LEFT_CTRL,
    KC_RIGHT_GUI, KC_TRANSPARENT;
  repeat match goal with
  | |- context [?a <=? ?b] =>
      (rewrite (proj2 (Z.leb_le a b)) by lia) || (rewrite (proj2 (Z.leb_gt a b)) by lia)
  | |- context [?a =? ?b] => rewrite (proj2 (Z.eqb_neq a b)) by lia
  end; cbn [orb andb].

Lemma low_byte h kc : 0 <= h -> byte_range kc -> (h * 256 + kc) .& 0xFF = kc.
Proof using. intros Hh Hk. change 0xFF with (2 ^ 8 - 1). rewrite land_ones_mod by done. pow_consts. dlia. Qed.
Lemma high_byte h kc : 0 <= h -> byte_range kc -> (h * 256 + kc) >> 8 = h.
Proof using. intros Hh Hk. rewrite Z.shiftr_div_pow2 by done. pow_consts. dlia. Qed.
Lemma low_five m : 0 <= m < 32 -> m .& 0x1F = m.
Proof using. intros Hm. change 0x1F with (2 ^ 5 - 1). rewrite land_ones_mod by done. by apply Z.mod_small. Qed.

(** The actions of LT(layer, kc) and MT(mods, kc). *)
Lemma layer_tap_action layer kc : 0 <= layer < 16 -> byte_range kc ->
  action_for_keycode keymap_config (0x4000 + layer * 256 + kc)
  = ACTION ACT_LAYER_TAP ((layer << 8) .| keycode_config keymap_config kc).
Proof using.
  intros Hl Hk. find_range. replace (0x4000 + layer * 256 + kc) with ((64 + layer) * 256 + kc) by lia.
  rewrite low_byte, high_byte by (done || lia). replace ((64 + layer) .& 0xF) with layer; [done|].
  change 0xF with (2 ^ 4 - 1). rewrite land_ones_mod by done. pow_consts. dlia.
Qed.

Lemma mod_tap_action mods kc : 0 <= mods < 32 -> byte_range kc ->
  action_for_keycode keymap_config (0x2000 + mods * 256 + kc)
  = ACTION ACT_MODS_TAP ((mod_config keymap_config mods << 8) .| keycode_config keymap_config kc).
Proof using.
  intros Hm Hk. find_range. replace (0x2000 + mods * 256 + kc) with ((32 + mods) * 256 + kc) by lia.
  rewrite low_byte, high_byte by (done || lia). replace ((32 + mods) .& 0x1F) with mods.
  - unfold ACTION_MODS_TAP_KEY. by rewrite low_five by (by apply mod_config_range).
  - change 0x1F with (2 ^ 5 - 1). rewrite land_ones_mod by done. pow_consts. dlia.
Qed.

(** The layers of a bitwise operation, as the handler shifts them. *)
Definition bitop_layers (code : Z) : Z := bitop_bits code << (bitop_part code * 4).

(** What the keys of layer [n] should be. *)
Definition layer_key_ok (action : Z -> Z) (n : Z) : bool :=
  let tap kc op :=
    (layer_tap_kind (action kc) =? ACT_LAYER_TAP / 2) && (layer_tap_val (action kc) =? n)
    && (key_code (action kc) =? op) in
  let bitop kc op on :=
    (action_kind (action kc) =? ACT_LAYER) && (bitop_op (action kc) =? op)
    && (bitop_on (action kc) =? on) && (bitop_layers (action kc) =? 2 ^ n) in
  tap (0x5220 + n) OP_ON_OFF && tap (0x5280 + n) OP_ONESHOT && tap (0x52C0 + n) OP_TAP_TOGGLE
  && bitop (0x5200 + n) OP_BIT_SET ON_PRESS && bitop (0x5260 + n) OP_BIT_XOR ON_RELEASE
  && bitop (0x5240 + n) OP_BIT_SET 0.

Lemma layer_range keycode : 0x5200 <= keycode <= 0x529F \/ 0x52C0 <= keycode <= 0x52DF ->
  action_for_keycode keymap_config keycode = action_for_keycode 0 keycode.
Proof using.
  intros H. unfold action_for_keycode. rewrite (keycode_config_high keymap_config keycode), (keycode_config_high 0 keycode) by lia.
  unfold in_range.
  repeat match goal with |- context [if ?b then _ else _] => destruct b eqn:?; [b2p; try done; lia|] end.
  done.
Qed.

(** The layer keys name their layer. For each of the 32 layers the
    actions of MO, OSL and TT are taps of that layer with their operation,
    and those of TO, TG and DF set, toggle or make default exactly that
    layer, on the right edge of the key. *)
Theorem layer_keys_name_layer n :
  0 <= n < 32 -> layer_key_ok (action_for_keycode keymap_config) n = true.
Proof using.
  intros Hn. unfold layer_key_ok. rewrite !layer_range by lia.
  apply (forall_byte (layer_key_ok (action_for_keycode 0)) 32); [done|by vm_compute|done].
Qed.

Context {E : Type} {eeprom : Eeprom E} {cfg : KeymapConfig}.

(** While an unlock is under way every key on every layer has the action
    [ACTION_NO], whatever the keymap holds. *)
Lemma unlocking_no_action v (e : E) layer key :
  vial_unlock_in_progress v <> 0 -> action_for_key v e layer key = ACTION_NO.
Proof using.
  intros H. unfold action_for_key, keymap_key_to_keycode, truthy.
  rewrite (proj2 (Z.eqb_neq _ _) H). done.
Qed.
End properties.

(** ** Witnesses *)

Lemma layer_keys_name_layer_witness : layer_key_ok (action_for_keycode 0) 17 = true.
Proof. refine (layer_keys_name_layer 0 17 _). split; vm_compute; (discriminate || reflexivity). Defined.
