(* ===== verification/ActionLayer.v ===== *)
(** Layers: [quantum/action_layer.c]. The state of the layers, which layer a
    key is taken from, and the cache that makes a release find the layer of its
    press. The build has no strict layer release; the hooks are the defaults;
    [MAX_LAYER] is the layer count of the dynamic keymap. *)

From S2P Require Import Prelude.
From S2P Require Import Eeprom.
From S2P Require Import DynamicKeymap.
From S2P Require Import KeymapSlots.
From S2P Require Import KeymapBuffer.
From S2P Require Import KeycodeConfig.
From S2P Require Import KeymapCommon.

Record layer_st := mk_layers {
  layer_state : Z;
  default_layer_state : Z;
  (** One row of [MAX_LAYER_BITS] bytes for each eight keys. *)
  source_layers_cache : list (list Z);
  encoder_source_layers_cache : list (list Z);
}.

Section layers.
Context {cfg : KeymapConfig}.
Implicit Types (s : layer_st) (state : Z).

Definition MAX_LAYER : Z := DYNAMIC_KEYMAP_LAYER_COUNT.
Definition MAX_LAYER_BITS : Z :=
  if DYNAMIC_KEYMAP_LAYER_COUNT <=? 8 then 3 else if DYNAMIC_KEYMAP_LAYER_COUNT <=? 16 then 4 else 5.
(** Conversion to [layer_state_t]. *)
Definition layer_state_t (z : Z) : Z := z mod 2 ^ (2 ^ MAX_LAYER_BITS).
Definition CHAR_BIT : Z := 8.

(** ** The masks *)

Definition default_layer_state_set_user state : Z := state.
Definition default_layer_state_set_kb state : Z := default_layer_state_set_user state.
Definition layer_state_set_user state : Z := state.
Definition layer_state_set_kb state : Z := layer_state_set_user state.

Definition default_layer_state_set state s : layer_st :=
  let state := default_layer_state_set_kb (layer_state_t state) in
  mk_layers (layer_state s) state (source_layers_cache s) (encoder_source_layers_cache s).
Definition default_layer_set state s : layer_st := default_layer_state_set state s.
Definition default_layer_or state s : layer_st := default_layer_state_set (default_layer_state s .| state) s.
Definition default_layer_and state s : layer_st := default_layer_state_set (default_layer_state s .& state) s.
Definition default_layer_xor state s : layer_st := default_layer_state_set (default_layer_state s .^ state) s.

Definition layer_state_set state s : layer_st :=
  let state := layer_state_set_kb (layer_state_t state) in
  mk_layers state (default_layer_state s) (source_layers_cache s) (encoder_source_layers_cache s).
Definition layer_clear s : layer_st := layer_state_set 0 s.
Definition layer_state_cmp (cmp_layer_state layer : Z) : bool :=
  if negb (truthy cmp_layer_state) then layer =? 0
  else truthy (cmp_layer_state .& layer_state_t (1 << layer)).
Definition layer_state_is s (layer : Z) : bool := layer_state_cmp (layer_state s) layer.
Definition layer_move (layer : Z) s : layer_st := layer_state_set (layer_state_t (1 << layer)) s.
Definition layer_on (layer : Z) s : layer_st :=
  layer_state_set (layer_state s .| layer_state_t (1 << layer)) s.
Definition layer_off (layer : Z) s : layer_st :=
  layer_state_set (layer_state s .& Z.lnot (layer_state_t (1 << layer))) s.
Definition layer_invert (layer : Z) s : layer_st :=
  layer_state_set (layer_state s .^ layer_state_t (1 << layer)) s.
Definition layer_or state s : layer_st := layer_state_set (layer_state s .| state) s.
Definition layer_and state s : layer_st := layer_state_set (layer_state s .& state) s.
Definition layer_xor state s : layer_st := layer_state_set (layer_state s .^ state) s.

Definition update_tri_layer_state (state layer1 layer2 layer3 : Z) : Z :=
  let mask12 := layer_state_t (1 << layer1) .| layer_state_t (1 << layer2) in
  let mask3 := layer_state_t (1 << layer3) in
  if state .& mask12 =? mask12 then state .| mask3 else state .& Z.lnot mask3.
Definition update_tri_layer (layer1 layer2 layer3 : Z) s : layer_st :=
  layer_state_set (update_tri_layer_state (layer_state s) layer1 layer2 layer3) s.

(** ** The cache of source layers, one bit plane per bit of the layer *)

Definition cache_row (cache : list (list Z)) (i : Z) : list Z := default [] (cache !! Z.to_nat i).

Definition update_source_layers_cache_impl (layer entry_number : Z) (cache : list (list Z)) : list (list Z) :=
  let storage_idx := entry_number / CHAR_BIT in
  let storage_bit := entry_number mod CHAR_BIT in
  for_Z 0 MAX_LAYER_BITS (fun bit_number cache =>
    let byte := nthZ (cache_row cache storage_idx) bit_number in
    let byte' := u8 (byte .^ ((- b2z (truthy (layer .& (1 << bit_number))) .^ byte) .& (1 << storage_bit))) in
    <[Z.to_nat storage_idx := updZ (cache_row cache storage_idx) bit_number byte']> cache) cache.

Definition read_source_layers_cache_impl (entry_number : Z) (cache : list (list Z)) : Z :=
  let storage_idx := entry_number / CHAR_BIT in
  let storage_bit := entry_number mod CHAR_BIT in
  for_Z 0 MAX_LAYER_BITS (fun bit_number layer =>
    u8 (layer .| (b2z (truthy (nthZ (cache_row cache storage_idx) bit_number .& (1 << storage_bit)))
                  << bit_number))) 0.

Definition update_source_layers_cache (key : keypos_t) (layer : Z) s : layer_st :=
  if row key =? VIAL_MATRIX_MAGIC then s
  else if (row key <? MATRIX_ROWS) && (col key <? MATRIX_COLS) then
    let entry_number := u16 (row key * MATRIX_COLS) + col key in
    mk_layers (layer_state s) (default_layer_state s)
      (update_source_layers_cache_impl layer entry_number (source_layers_cache s))
      (encoder_source_layers_cache s)
  else if (row key =? KEYLOC_ENCODER_CW) || (row key =? KEYLOC_ENCODER_CCW) then
    mk_layers (layer_state s) (default_layer_state s) (source_layers_cache s)
      (update_source_layers_cache_impl layer (col key) (encoder_source_layers_cache s))
  else s.

Definition read_source_layers_cache (key : keypos_t) s : Z :=
  if row key =? VIAL_MATRIX_MAGIC then 0
  else if (row key <? MATRIX_ROWS) && (col key <? MATRIX_COLS) then
    let entry_number := u16 (row key * MATRIX_COLS) + col key in
    read_source_layers_cache_impl entry_number (source_layers_cache s)
  else if (row key =? KEYLOC_ENCODER_CW) || (row key =? KEYLOC_ENCODER_CCW) then
    read_source_layers_cache_impl (col key) (encoder_source_layers_cache s)
  else 0.

(** ** The layer of a key *)

(** [action_for_key] with the keymap as it is now. *)
Context (action_for_key : Z -> keypos_t -> Z).

(** The loop from [i] down. *)
Fixpoint top_layer (layers : Z) (key : keypos_t) (i : nat) : Z :=
  match i with
  | O => 0
  | S i =>
      if truthy (layers .& layer_state_t (1 << Z.of_nat i)) then
        if negb (action_for_key (Z.of_nat i) key =? ACTION_TRANSPARENT) then Z.of_nat i
        else top_layer layers key i
      else top_layer layers key i
  end.

Definition layer_switch_get_layer (key : keypos_t) s : Z :=
  top_layer (layer_state s .| default_layer_state s) key (Z.to_nat MAX_LAYER).

Definition layer_switch_get_action (key : keypos_t) s : Z :=
  action_for_key (layer_switch_get_layer key s) key.

Definition store_or_get_action (disable_action_cache pressed : bool) (key : keypos_t) s : Z * layer_st :=
  if disable_action_cache then (layer_switch_get_action key s, s)
  else
    let '(layer, s) :=
      if pressed then
        let layer := layer_switch_get_layer key s in
        (layer, update_source_layers_cache key layer s)
      else (read_source_layers_cache key s, s) in
    (action_for_key layer key, s).
End layers.

(** ** The masks, bit by bit *)

Section masks.
Context {cfg : KeymapConfig} {cfg_ok : KeymapConfigOk}.

Definition LAYER_STATE_BITS : Z := 2 ^ MAX_LAYER_BITS.

Lemma layer_bits_cases : MAX_LAYER_BITS = 3 \/ MAX_LAYER_BITS = 4 \/ MAX_LAYER_BITS = 5.
Proof using. unfold MAX_LAYER_BITS. repeat case_if; auto. Qed.

Lemma max_layer_fits : 0 < MAX_LAYER <= LAYER_STATE_BITS.
Proof using cfg_ok.
  pose proof layer_count_ok. unfold LAYER_STATE_BITS, MAX_LAYER, MAX_LAYER_BITS.
  repeat case_if; pow_consts; lia.
Qed.

Lemma LAYER_STATE_BITS_nonneg : 0 <= LAYER_STATE_BITS.
Proof using. unfold LAYER_STATE_BITS. lia. Qed.

Lemma testbit_layer_state_t z i : 0 <= i < LAYER_STATE_BITS ->
  Z.testbit (layer_state_t z) i = Z.testbit z i.
Proof using. intros H. unfold layer_state_t. fold LAYER_STATE_BITS. by rewrite Z.mod_pow2_bits_low by lia. Qed.

Lemma layer_state_t_range z : 0 <= layer_state_t z < 2 ^ LAYER_STATE_BITS.
Proof using. unfold layer_state_t. fold LAYER_STATE_BITS. apply Z.mod_pos_bound. pose proof LAYER_STATE_BITS_nonneg. lia. Qed.

Lemma testbit_mask layer i : 0 <= layer < LAYER_STATE_BITS -> 0 <= i < LAYER_STATE_BITS ->
  Z.testbit (layer_state_t (1 << layer)) i = (i =? layer).
Proof using.
  intros Hl Hi. rewrite testbit_layer_state_t by done. rewrite Z.shiftl_1_l, Z.pow2_bits_eqb by lia.
  apply Z.eqb_sym.
Qed.

Lemma mask_pow layer : 0 <= layer < LAYER_STATE_BITS -> layer_state_t (1 << layer) = 2 ^ layer.
Proof using.
  intros Hl. unfold layer_state_t. fold LAYER_STATE_BITS. rewrite Z.shiftl_1_l. apply Z.mod_small.
  split; [lia|]. apply Z.pow_lt_mono_r; lia.
Qed.

Lemma truthy_mask layers layer : 0 <= layer < LAYER_STATE_BITS ->
  truthy (layers .& layer_state_t (1 << layer)) = Z.testbit layers layer.
Proof using.
  intros Hl. rewrite mask_pow by done. rewrite <- Z.shiftl_1_l. apply truthy_bit. lia.
Qed.

(** The layer operations do to each layer what they say: [layer_on],
    [layer_off] and [layer_invert] change their layer and no other,
    [layer_move] leaves on only its layer, [layer_clear] none, and the
    bitwise operations act on each layer; [update_tri_layer] switches its
    third layer, different from the first two, on exactly when both are on.
    The mask stays within its type. *)
Theorem layer_operations_pointwise s layer layer2 layer3 state i :
  0 <= layer < LAYER_STATE_BITS -> 0 <= layer2 < LAYER_STATE_BITS -> 0 <= layer3 < LAYER_STATE_BITS ->
  layer3 <> layer -> layer3 <> layer2 -> 0 <= i < LAYER_STATE_BITS ->
  let on s := Z.testbit (layer_state s) i in
  on (layer_on layer s) = (i =? layer) || on s
  /\ on (layer_off layer s) = negb (i =? layer) && on s
  /\ on (layer_invert layer s) = xorb (i =? layer) (on s)
  /\ on (layer_move layer s) = (i =? layer)
  /\ on (layer_clear s) = false
  /\ on (layer_or state s) = on s || Z.testbit state i
  /\ on (layer_and state s) = on s && Z.testbit state i
  /\ on (layer_xor state s) = xorb (on s) (Z.testbit state i)
  /\ on (update_tri_layer layer layer2 layer3 s)
     = (if i =? layer3 then Z.testbit (layer_state s) layer && Z.testbit (layer_state s) layer2 else on s)
  /\ 0 <= layer_state (update_tri_layer layer layer2 layer3 s) < 2 ^ LAYER_STATE_BITS.
Proof using.
  intros H1 H2 H3 Hn1 Hn2 Hi on. unfold on.
  unfold layer_on, layer_off, layer_invert, layer_move, layer_clear, layer_or, layer_and, layer_xor,
    update_tri_layer, layer_state_set, layer_state_set_kb, layer_state_set_user. cbn [layer_state].
  split_and!; rewrite ?testbit_layer_state_t by done;
    rewrite ?Z.lor_spec, ?Z.land_spec, ?Z.lxor_spec, ?Z.lnot_spec, ?testbit_mask by (done || lia);
    try (by destruct (i =? layer), (Z.testbit (layer_state s) i)); try done.
  - rewrite Z.shiftl_1_l, Z.pow2_bits_eqb by lia. apply Z.eqb_sym.
  - apply Z.bits_0.
  - unfold update_tri_layer_state. rewrite !mask_pow by done.
    destruct (layer_state s .& (2 ^ layer .| 2 ^ layer2) =? 2 ^ layer .| 2 ^ layer2) eqn:E.
    + b2p. assert (Hb : forall j, j = layer \/ j = layer2 -> Z.testbit (layer_state s) j = true).
      { intros j Hj. apply (f_equal (fun z => Z.testbit z j)) in E.
        rewrite Z.land_spec, Z.lor_spec, !Z.pow2_bits_eqb in E by lia.
        destruct Hj as [->| ->]; rewrite Z.eqb_refl, ?orb_true_r, ?orb_true_l in E;
          by rewrite andb_true_r in E. }
      rewrite !Hb by auto. rewrite Z.lor_spec, Z.pow2_bits_eqb by lia. rewrite Z.eqb_sym.
      by destruct (i =? layer3), (Z.testbit (layer_state s) i).
    + rewrite Z.land_spec, Z.lnot_spec, Z.pow2_bits_eqb by lia. rewrite (Z.eqb_sym layer3).
      destruct (i =? layer3) eqn:Ei; cbn [negb]; [|by rewrite andb_true_r]. rewrite andb_false_r. symmetry.
      apply not_true_is_false. intros Hb. apply andb_true_iff in Hb as [Hb1 Hb2]. apply Z.eqb_neq in E.
      apply E. apply Z.bits_inj'. intros j Hj. rewrite Z.land_spec, Z.lor_spec, !Z.pow2_bits_eqb by lia.
      destruct (Z.eqb_spec layer j) as [->|]; [by rewrite Hb1|].
      destruct (Z.eqb_spec layer2 j) as [->|]; [by rewrite Hb2|by rewrite andb_false_r].
  - apply layer_state_t_range.
  - apply layer_state_t_range.
Qed.
End masks.

(** ** The layer a key is taken from *)

Section switch.
Context {cfg : KeymapConfig} {cfg_ok : KeymapConfigOk} (action_for_key : Z -> keypos_t -> Z).

(** Layer [i] is on, the default layers included. *)
Definition active (s : layer_st) (i : Z) : bool :=
  Z.testbit (layer_state s) i || Z.testbit (default_layer_state s) i.

Lemma top_layer_spec s key n : Z.of_nat n <= LAYER_STATE_BITS ->
  let l := top_layer action_for_key (layer_state s .| default_layer_state s) key n in
  (forall i, l < i < Z.of_nat n -> active s i = true -> action_for_key i key = ACTION_TRANSPARENT)
  /\ (0 <= l < Z.of_nat n /\ active s l = true /\ action_for_key l key <> ACTION_TRANSPARENT
      \/ l = 0 /\ (0 < Z.of_nat n -> active s 0 = true -> action_for_key 0 key = ACTION_TRANSPARENT)).
Proof using.
  induction n as [|n IH]; intros Hn; cbn [top_layer].
  - split; [intros i Hi; lia|]. right. split; [done|lia].
  - rewrite truthy_mask, Z.lor_spec by lia. fold (active s (Z.of_nat n)).
    destruct (IH ltac:(lia)) as [IH1 IH2].
    destruct (active s (Z.of_nat n)) eqn:Ea.
    + destruct (action_for_key (Z.of_nat n) key =? ACTION_TRANSPARENT) eqn:Et; cbn [negb]; b2p.
      * split.
        -- intros i Hi Hai. destruct (Z.eq_dec i (Z.of_nat n)) as [->|]; [done|]. apply IH1; [lia|done].
        -- destruct IH2 as [(H1 & H2 & H3)|[H1 H2]]; [left; repeat split; (done || lia)|right].
           split; [done|]. intros _ H0. destruct n; [done|]. apply H2; [lia|done].
      * split; [intros i Hi; lia|]. left. repeat split; (done || lia).
    + split.
      * intros i Hi Hai. destruct (Z.eq_dec i (Z.of_nat n)) as [->|]; [congruence|]. apply IH1; [lia|done].
      * destruct IH2 as [(H1 & H2 & H3)|[H1 H2]]; [left; repeat split; (done || lia)|right].
        split; [done|]. intros _ H0. destruct n; [change (Z.of_nat 0) with 0 in Ea; congruence|]. apply H2; [lia|done].
Qed.

(** C11: a key is taken from the highest layer that is on and defines it. All
    active layers above the layer of a key are transparent at the key; the
    layer itself is active and opaque there, unless it is the fallback
    layer 0. *)
Theorem key_layer_is_highest_opaque s key :
  let l := layer_switch_get_layer action_for_key key s in
  0 <= l < MAX_LAYER
  /\ (forall i, l < i < MAX_LAYER -> active s i = true -> action_for_key i key = ACTION_TRANSPARENT)
  /\ (active s l = true /\ action_for_key l key <> ACTION_TRANSPARENT \/ l = 0).
Proof using cfg_ok.
  pose proof max_layer_fits as Hm. unfold layer_switch_get_layer.
  pose proof (top_layer_spec s key (Z.to_nat MAX_LAYER)) as H. rewrite Z2Nat.id in H by lia.
  destruct (H ltac:(lia)) as [H1 [(H2 & H3 & H4)|[H2 _]]]; clear H.
  - split; [done|]. split; [done|by left].
  - split; [rewrite H2; lia|]. split; [done|by right].
Qed.
End switch.

(** ** The cache *)

Section cache.
Context {cfg : KeymapConfig} {cfg_ok : KeymapConfigOk}.

Definition cache_wf (entries : Z) (cache : list (list Z)) : Prop :=
  entries <= 8 * lenZ cache /\ Forall (fun r => lenZ r = MAX_LAYER_BITS /\ bytes r) cache.

(** Bit [b] of the layer stored for an entry. *)
Definition plane (cache : list (list Z)) (entry b : Z) : bool :=
  Z.testbit (nthZ (cache_row cache (entry / 8)) b) (entry mod 8).

Lemma cache_row_wf n cache entry : cache_wf n cache -> 0 <= entry < n ->
  lenZ (cache_row cache (entry / 8)) = MAX_LAYER_BITS /\ bytes (cache_row cache (entry / 8)).
Proof using.
  intros [Hl Hf] He. unfold cache_row. rewrite Forall_lookup in Hf.
  destruct (lookup_lt_is_Some_2 cache (Z.to_nat (entry / 8))) as [r Hr]; [unfold lenZ in Hl; dlia|].
  rewrite Hr. cbn. by apply (Hf _ _ Hr).
Qed.

(** The byte expression sets one bit. *)
Lemma testbit_set_bit byte x sb i : byte_range byte -> 0 <= sb < 8 -> 0 <= i < 8 ->
  Z.testbit (u8 (byte .^ ((- b2z x .^ byte) .& (1 << sb)))) i = if i =? sb then x else Z.testbit byte i.
Proof using.
  intros Hb Hs Hi. unfold u8. change 256 with (2 ^ 8). rewrite Z.mod_pow2_bits_low by lia.
  rewrite Z.lxor_spec, Z.land_spec, Z.lxor_spec, Z.shiftl_1_l, Z.pow2_bits_eqb by lia.
  rewrite (Z.eqb_sym sb). destruct (i =? sb); [|by rewrite andb_false_r, xorb_false_r].
  destruct x; cbn [b2z]; [change (-1) with (Z.pred 0)|change (- 0) with 0].
  - change (Z.pred 0) with (-1). rewrite Z.bits_m1 by lia. by destruct (Z.testbit byte i).
  - rewrite Z.bits_0. by destruct (Z.testbit byte i).
Qed.

Lemma cache_row_insert cache i r j : 0 <= i < lenZ cache -> 0 <= j ->
  cache_row (<[Z.to_nat i := r]> cache) j = if j =? i then r else cache_row cache j.
Proof using.
  intros Hi Hj. unfold cache_row, lenZ in *. destruct (Z.eqb_spec j i) as [->|Hne].
  - by rewrite list_lookup_insert_eq by lia.
  - by rewrite list_lookup_insert_ne by lia.
Qed.

Lemma plane_update_bit n cache entry b x : cache_wf n cache -> 0 <= entry < n -> 0 <= b < MAX_LAYER_BITS ->
  let byte := nthZ (cache_row cache (entry / 8)) b in
  let byte' := u8 (byte .^ ((- b2z x .^ byte) .& (1 << (entry mod 8)))) in
  let cache' := <[Z.to_nat (entry / 8) := updZ (cache_row cache (entry / 8)) b byte']> cache in
  cache_wf n cache'
  /\ forall e c, 0 <= e -> plane cache' e c = if (e =? entry) && (c =? b) then x else plane cache e c.
Proof using.
  intros Hw He Hb byte byte' cache'. destruct (cache_row_wf n cache entry Hw He) as [Hl Hbs].
  destruct Hw as [Hn Hf]. split.
  - split; [unfold lenZ, cache' in *; by rewrite length_insert|].
    apply Forall_insert; [done|]. split; [by rewrite lenZ_updZ|].
    apply bytes_updZ; [done|apply u8_range].
  - intros e c He'. unfold plane, cache'. rewrite cache_row_insert by (unfold lenZ in *; dlia).
    destruct (Z.eqb_spec (e / 8) (entry / 8)) as [E|Hne].
    + rewrite nthZ_updZ. rewrite <- E in *. destruct (Z.eqb_spec b c) as [<-|Hc].
      * rewrite Z.eqb_refl, andb_true_r. rewrite (proj2 (Z.leb_le 0 b)), (proj2 (Z.ltb_lt b _)) by lia.
        cbn [andb]. unfold byte', byte. rewrite <- E, testbit_set_bit by (try apply bytes_nthZ; done || dlia).
        destruct (Z.eqb_spec (e mod 8) (entry mod 8)), (Z.eqb_spec e entry); try done; dlia.
      * cbn [andb]. rewrite (proj2 (Z.eqb_neq c b)), andb_false_r by congruence. done.
    + destruct (Z.eqb_spec e entry) as [->|]; done.
Qed.

Lemma update_impl_spec n layer entry cache : cache_wf n cache -> 0 <= entry < n ->
  let cache' := update_source_layers_cache_impl layer entry cache in
  cache_wf n cache'
  /\ forall e c, 0 <= e -> 0 <= c < MAX_LAYER_BITS ->
       plane cache' e c = if e =? entry then Z.testbit layer c else plane cache e c.
Proof using.
  intros Hw He. unfold update_source_layers_cache_impl, CHAR_BIT. cbv zeta.
  assert (Hn : 0 <= MAX_LAYER_BITS) by (destruct layer_bits_cases as [->|[->| ->]]; lia).
  pose (I := fun b c' => cache_wf n c' /\ forall e c, 0 <= e -> 0 <= c < MAX_LAYER_BITS ->
    plane c' e c = if (e =? entry) && (c <? b) then Z.testbit layer c else plane cache e c).
  match goal with |- context [for_Z 0 MAX_LAYER_BITS ?f cache] =>
    assert (HI : I MAX_LAYER_BITS (for_Z 0 MAX_LAYER_BITS f cache)) end.
  { apply (for_Z_inv _ I); [done| |].
    - split; [done|]. intros e c He' Hc. rewrite (proj2 (Z.ltb_ge c 0)), andb_false_r by lia. done.
    - intros b c' Hb [Hw' Hp].
      assert (Ex : truthy (layer .& (1 << b)) = Z.testbit layer b) by (apply truthy_bit; lia).
      rewrite Ex. destruct (plane_update_bit n c' entry b (Z.testbit layer b) Hw' He Hb) as [H1 H2].
      split; [exact H1|]. intros e c He' Hc. rewrite H2 by done. rewrite Hp by done.
      destruct (e =? entry); cbn [andb]; [|done]. destruct (Z.eqb_spec c b) as [->|].
      + by rewrite (proj2 (Z.ltb_lt b (b + 1))) by lia.
      + destruct (Z.ltb_spec c b), (Z.ltb_spec c (b + 1)); done || lia. }
  destruct HI as [H1 H2]. split; [exact H1|]. intros e c He' Hc. rewrite H2 by done.
  rewrite (proj2 (Z.ltb_lt c MAX_LAYER_BITS)), andb_true_r by lia. done.
Qed.

Lemma read_impl_spec n entry cache : cache_wf n cache -> 0 <= entry < n ->
  let l := read_source_layers_cache_impl entry cache in
  0 <= l < 2 ^ MAX_LAYER_BITS /\ forall b, 0 <= b < MAX_LAYER_BITS -> Z.testbit l b = plane cache entry b.
Proof using.
  intros Hw He. unfold read_source_layers_cache_impl, CHAR_BIT. cbv zeta.
  assert (Hn : 0 <= MAX_LAYER_BITS <= 5) by (destruct layer_bits_cases as [->|[->| ->]]; lia).
  destruct (cache_row_wf n cache entry Hw He) as [Hl Hbs].
  pose (I := fun b l => 0 <= l < 2 ^ b /\ forall c, 0 <= c < b -> Z.testbit l c = plane cache entry c).
  match goal with |- context [for_Z 0 MAX_LAYER_BITS ?f 0] =>
    assert (HI : I MAX_LAYER_BITS (for_Z 0 MAX_LAYER_BITS f 0)) end; [|exact HI].
  apply (for_Z_inv _ I); [lia|by split; [|intros; lia]|].
  intros b l Hb [Hr Hp].
  replace (truthy (nthZ (cache_row cache (entry / 8)) b .& (1 << (entry mod 8)))) with (plane cache entry b)
    by (symmetry; apply truthy_bit; dlia).
  assert (Hx : 0 <= b2z (plane cache entry b) << b < 2 ^ (b + 1)).
  { destruct (plane cache entry b); cbn [b2z]; rewrite ?Z.shiftl_0_l, ?Z.shiftl_1_l;
      rewrite Z.pow_add_r by lia; lia. }
  assert (H2 : 2 ^ b <= 2 ^ (b + 1)) by (apply Z.pow_le_mono_r; lia).
  assert (H3 : 2 ^ (b + 1) <= 2 ^ 5) by (apply Z.pow_le_mono_r; lia).
  assert (Hor : 0 <= l .| (b2z (plane cache entry b) << b) < 2 ^ (b + 1)) by (apply lor_range; lia).
  rewrite u8_id by lia. split; [exact Hor|]. intros c Hc. rewrite Z.lor_spec, Z.shiftl_spec by lia.
  destruct (Z.eq_dec c b) as [->|].
  - rewrite Z.sub_diag, (testbit_small l b) by lia. by destruct (plane cache entry b).
  - rewrite Hp, Z.testbit_neg_r, orb_false_r by lia. done.
Qed.

Lemma read_update n layer entry e cache : cache_wf n cache -> 0 <= entry < n -> 0 <= e < n ->
  0 <= layer < 2 ^ MAX_LAYER_BITS ->
  read_source_layers_cache_impl e (update_source_layers_cache_impl layer entry cache)
  = if e =? entry then layer else read_source_layers_cache_impl e cache.
Proof using.
  intros Hw He He' Hl. destruct (update_impl_spec n layer entry cache Hw He) as [Hw' Hp].
  assert (Hn : 0 <= MAX_LAYER_BITS) by (destruct layer_bits_cases as [->|[->| ->]]; lia).
  destruct (read_impl_spec n e _ Hw' He') as [Hr Hb]. destruct (read_impl_spec n e cache Hw He') as [Hr0 Hb0].
  destruct (Z.eqb_spec e entry) as [->|Hne].
  - apply (bits_ext_small MAX_LAYER_BITS); [done..|]. intros i Hi. rewrite Hb, Hp by lia.
    by rewrite Z.eqb_refl.
  - apply (bits_ext_small MAX_LAYER_BITS); [done..|]. intros i Hi. rewrite Hb, Hp, Hb0 by lia.
    by rewrite (proj2 (Z.eqb_neq e entry)).
Qed.
End cache.

(** ** A release finds the layer of its press *)

Section release.
Context {cfg : KeymapConfig} {cfg_ok : KeymapConfigOk} (action_for_key : Z -> keypos_t -> Z).
Implicit Types (s : layer_st) (key : keypos_t).

(** The entry of the cache that a key uses: of the matrix, or of an encoder. *)
Definition cache_entry key : option (bool * Z) :=
  if row key =? VIAL_MATRIX_MAGIC then None
  else if (row key <? MATRIX_ROWS) && (col key <? MATRIX_COLS)
  then Some (false, row key * MATRIX_COLS + col key)
  else if (row key =? KEYLOC_ENCODER_CW) || (row key =? KEYLOC_ENCODER_CCW) then Some (true, col key)
  else None.

(** A position of the matrix, or one of the encoders. *)
Definition key_ok key : Prop :=
  0 <= row key /\ 0 <= col key
  /\ (row key < MATRIX_ROWS /\ col key < MATRIX_COLS /\ row key <> VIAL_MATRIX_MAGIC
      \/ (row key = KEYLOC_ENCODER_CW \/ row key = KEYLOC_ENCODER_CCW) /\ col key < NUM_ENCODERS).

Definition layers_wf s : Prop :=
  cache_wf (MATRIX_ROWS * MATRIX_COLS) (source_layers_cache s)
  /\ cache_wf NUM_ENCODERS (encoder_source_layers_cache s).

(** What the cache holds for an entry. *)
Definition stored s (en : bool * Z) : Z :=
  read_source_layers_cache_impl en.2
    (if en.1 then encoder_source_layers_cache s else source_layers_cache s).

Definition entry_ok (en : bool * Z) : Prop :=
  0 <= en.2 < (if en.1 then NUM_ENCODERS else MATRIX_ROWS * MATRIX_COLS).

Lemma key_entry key : key_ok key -> exists en, cache_entry key = Some en /\ entry_ok en.
Proof using cfg_ok.
  pose proof matrix_rows_ok. pose proof matrix_cols_ok.
  intros (H1 & H2 & H3). unfold cache_entry.
  unfold KEYLOC_ENCODER_CW, KEYLOC_ENCODER_CCW, VIAL_MATRIX_MAGIC in *.
  rewrite (proj2 (Z.eqb_neq (row key) 240)) by lia.
  destruct ((row key <? MATRIX_ROWS) && (col key <? MATRIX_COLS)) eqn:E.
  - b2p. eexists. split; [done|]. unfold entry_ok. cbn. nia.
  - destruct H3 as [(Ha & Hb & _)|[Ha Hb]].
    + rewrite (proj2 (Z.ltb_lt (row key) _) Ha), (proj2 (Z.ltb_lt (col key) _) Hb) in E. done.
    + replace ((row key =? 253) || (row key =? 252)) with true by (destruct Ha as [->| ->]; done).
      eexists. split; [done|]. unfold entry_ok. cbn. lia.
Qed.

Lemma read_stored key s en : key_ok key -> cache_entry key = Some en ->
  read_source_layers_cache key s = stored s en.
Proof using cfg_ok.
  pose proof matrix_rows_ok. pose proof matrix_cols_ok. intros (H1 & H2 & _).
  unfold cache_entry, read_source_layers_cache, stored.
  case_if; [done|]. case_if; [|case_if; [|done]]; intros [= <-]; cbn; [|done].
  rewrite u16_id by nia. done.
Qed.

Lemma store_stored key layer s en en' : layers_wf s -> key_ok key -> cache_entry key = Some en ->
  0 <= layer < 2 ^ MAX_LAYER_BITS -> entry_ok en -> entry_ok en' ->
  layers_wf (update_source_layers_cache key layer s)
  /\ stored (update_source_layers_cache key layer s) en' = if decide (en' = en) then layer else stored s en'.
Proof using cfg_ok.
  pose proof matrix_rows_ok. pose proof matrix_cols_ok. intros [Hw1 Hw2] (H1 & H2 & _).
  unfold cache_entry, update_source_layers_cache, stored.
  case_if; [done|]. case_if; [|case_if; [|done]]; intros [= <-] Hl He He'; unfold entry_ok in *; cbn in *.
  - b2p. rewrite u16_id by nia. split.
    + split; [|done]. by apply (update_impl_spec (MATRIX_ROWS * MATRIX_COLS)).
    + destruct en' as [[] e']; cbn in *; [done|].
      rewrite (read_update (MATRIX_ROWS * MATRIX_COLS)) by done.
      destruct (Z.eqb_spec e' (row key * MATRIX_COLS + col key)) as [->|]; case_decide; congruence.
  - split.
    + split; [done|]. by apply (update_impl_spec NUM_ENCODERS).
    + destruct en' as [[] e']; cbn in *; [|done].
      rewrite (read_update NUM_ENCODERS) by done.
      destruct (Z.eqb_spec e' (col key)) as [->|]; case_decide; congruence.
Qed.

(** What happens between a press and its release. *)
Inductive layer_event :=
| Key (pressed : bool) (key : keypos_t)
| SetLayers (state : Z)
| SetDefault (state : Z).

Definition layer_step s (ev : layer_event) : layer_st :=
  match ev with
  | Key pressed key => (store_or_get_action action_for_key false pressed key s).2
  | SetLayers state => layer_state_set state s
  | SetDefault state => default_layer_set state s
  end.

(** The event is not another press of the cache entry of [key]. *)
Definition leaves key (ev : layer_event) : Prop :=
  match ev with
  | Key true key' => key_ok key' /\ cache_entry key' <> cache_entry key
  | _ => True
  end.

Lemma layer_fits s key : 0 <= layer_switch_get_layer action_for_key key s < 2 ^ MAX_LAYER_BITS.
Proof using cfg_ok.
  pose proof max_layer_fits as Hm. unfold layer_switch_get_layer.
  pose proof (top_layer_spec action_for_key s key (Z.to_nat MAX_LAYER)) as H. rewrite Z2Nat.id in H by lia.
  fold LAYER_STATE_BITS. destruct (H ltac:(lia)) as [_ [(H2 & _)|[-> _]]]; lia.
Qed.

Lemma step_keeps s key en ev : layers_wf s -> cache_entry key = Some en -> entry_ok en -> leaves key ev ->
  layers_wf (layer_step s ev) /\ stored (layer_step s ev) en = stored s en.
Proof using cfg_ok.
  intros Hw Hen Hok Hl. destruct ev as [[] key'|state|state]; [|done..]. destruct Hl as [Hk' Hne].
  destruct (key_entry key' Hk') as (en' & Hen' & Hok').
  destruct (store_stored key' (layer_switch_get_layer action_for_key key' s) s en' en Hw Hk' Hen'
              (layer_fits s key') Hok' Hok) as [H1 H2].
  split; [exact H1|]. rewrite decide_False in H2 by congruence. exact H2.
Qed.

(** C10: a release does what its press began. Between the press and the
    release of a key of the matrix or of an encoder, let layers and default
    layers be switched and other keys be pressed and released in any order:
    the action found at the release is the action of the press. (The two
    directions of an encoder share a cache entry, so a turn the other way
    counts as another press.) *)
Theorem release_matches_press s key evs :
  layers_wf s -> key_ok key -> Forall (leaves key) evs ->
  let press := store_or_get_action action_for_key false true key s in
  (store_or_get_action action_for_key false false key (foldl layer_step press.2 evs)).1 = press.1.
Proof using cfg_ok.
  intros Hw Hk Hevs press. destruct (key_entry key Hk) as (en & Hen & Hok).
  destruct (store_stored key (layer_switch_get_layer action_for_key key s) s en en Hw Hk Hen
              (layer_fits s key) Hok Hok) as [H1 H2]. rewrite decide_True in H2 by done.
  change (action_for_key (read_source_layers_cache key (foldl layer_step press.2 evs)) key
          = action_for_key (layer_switch_get_layer action_for_key key s) key).
  f_equal. rewrite (read_stored key _ en Hk Hen).
  transitivity (stored press.2 en); [|exact H2].
  change (layers_wf press.2) in H1. clear H2. revert H1. generalize press.2 as s1. clear press.
  induction Hevs as [|ev evs Hev _ IH]; intros s1 H1; [done|]. cbn [foldl].
  destruct (step_keeps s1 key en ev H1 Hen Hok Hev) as [H1' E]. by rewrite IH.
Qed.
End release.

(** ** Witnesses *)

Section witnesses.
#[local] Existing Instance KeymapExample.config.
#[local] Existing Instance KeymapExample.config_ok.

(** Nothing on but the default layer. *)
Definition layers_start : layer_st :=
  let row := memset 0 MAX_LAYER_BITS in
  mk_layers 0 1 (replicate (Z.to_nat ((MATRIX_ROWS * MATRIX_COLS + 7) / 8)) row)
    (replicate (Z.to_nat ((NUM_ENCODERS + 7) / 8)) row).

(** A keymap: key (0, 0) is MO(1), layer 1 is transparent elsewhere. *)
Definition two_layers (layer : Z) (key : keypos_t) : Z :=
  if layer =? 1 then ACTION_TRANSPARENT else if (row key =? 0) && (col key =? 0) then 0xA1F1 else 4.

Lemma layers_start_wf : layers_wf layers_start.
Proof.
  split; (split; [vm_compute; discriminate|apply Forall_replicate; split; [reflexivity|by apply bytes_memset]]).
Qed.

Lemma layer_operations_pointwise_witness :
  Z.testbit (layer_state (update_tri_layer 1 2 3 (mk_layers 6 1 [] []))) 3 = true.
Proof.
  refine (proj1 (proj2 (proj2 (proj2 (proj2 (proj2 (proj2 (proj2 (proj2
    (layer_operations_pointwise (mk_layers 6 1 [] []) 1 2 3 0 3 _ _ _ _ _ _)))))))))); vm_compute;
    try split; (discriminate || reflexivity).
Defined.

Lemma key_layer_is_highest_opaque_witness :
  two_layers 1 (mk_key 1 1) = ACTION_TRANSPARENT.
Proof.
  refine (proj1 (proj2 (key_layer_is_highest_opaque two_layers (layer_on 1 layers_start) (mk_key 1 1))) 1 _ _);
    vm_compute; try split; reflexivity.
Defined.

Lemma release_matches_press_witness :
  (store_or_get_action two_layers false false (mk_key 1 1)
     (foldl (layer_step two_layers) (store_or_get_action two_layers false true (mk_key 1 1) layers_start).2
        [Key true (mk_key 0 0); SetLayers 2; Key false (mk_key 0 0)])).1 = 4.
Proof.
  refine (release_matches_press two_layers layers_start (mk_key 1 1) _ layers_start_wf _ _).
  - split; [done|]. split; [done|]. left. vm_compute. repeat split; (reflexivity || discriminate).
  - repeat constructor; cbn; try done; left; vm_compute; repeat split; (reflexivity || discriminate).
Defined.
End witnesses.
