(* ===== verification/Report.v ===== *)
(** The keyboard report: [tmk_core/protocol/report.c]. The six key bytes of the
    boot report, the bitmap of the NKRO report, and the comparison of mouse
    reports. *)

From S2P Require Import Prelude.
From S2P Require Import Bitwise.

Definition KEYBOARD_REPORT_KEYS : Z := 6.
Definition NKRO_REPORT_BITS : Z := 30.

(** [nkro_active] is [usb_device_state_get_protocol() == USB_PROTOCOL_REPORT &&
    keymap_config.nkro]. *)
Record reports := mk_reports {
  nkro_active : bool;
  keys : list Z;
  bits : list Z;
}.

Definition set_keys (l : list Z) (r : reports) : reports := mk_reports (nkro_active r) l (bits r).
Definition set_bits (l : list Z) (r : reports) : reports := mk_reports (nkro_active r) (keys r) l.

Definition has_anykey (r : reports) : Z :=
  foldl (fun cnt p => if truthy p then u8 (cnt + 1) else cnt) 0 (if nkro_active r then bits r else keys r).

(** The index of the first byte that is not zero, from [i] on. *)
Fixpoint first_byte (l : list Z) (i : Z) : option (Z * Z) :=
  match l with
  | [] => None
  | b :: l => if truthy b then Some (i, b) else first_byte l (i + 1)
  end.

(** [None] where the code reads [bits[NKRO_REPORT_BITS]], past the array. *)
Definition get_first_key (r : reports) : option Z :=
  if nkro_active r then
    match first_byte (bits r) 0 with
    | Some (i, b) => Some (u8 ((i << 3) .| biton b))
    | None => None
    end
  else Some (nthZ (keys r) 0).

Definition is_key_pressed (r : reports) (key : Z) : bool :=
  if key =? 0 then false
  else if nkro_active r then
    if key >> 3 <? NKRO_REPORT_BITS then truthy (nthZ (bits r) (key >> 3) .& (1 << (key .& 7)))
    else false
  else existsb (fun k => k =? key) (keys r).

(** The search of [add_key_byte]: where it stops, and the first empty place. *)
Fixpoint add_search (l : list Z) (code i empty : Z) : Z * Z :=
  match l with
  | [] => (i, empty)
  | k :: l =>
      if k =? code then (i, empty)
      else add_search l code (i + 1) (if (empty =? -1) && (k =? 0) then i else empty)
  end.

Definition add_key_byte (l : list Z) (code : Z) : list Z :=
  let '(i, empty) := add_search l code 0 (-1) in
  if i =? KEYBOARD_REPORT_KEYS then
    if negb (empty =? -1) then updZ l empty code else l
  else l.

Definition del_key_byte (l : list Z) (code : Z) : list Z :=
  map (fun k => if k =? code then 0 else k) l.

Definition add_key_bit (l : list Z) (code : Z) : list Z :=
  if code >> 3 <? NKRO_REPORT_BITS
  then updZ l (code >> 3) (u8 (nthZ l (code >> 3) .| (1 << (code .& 7)))) else l.

Definition del_key_bit (l : list Z) (code : Z) : list Z :=
  if code >> 3 <? NKRO_REPORT_BITS
  then updZ l (code >> 3) (u8 (nthZ l (code >> 3) .& Z.lnot (1 << (code .& 7)))) else l.

Definition add_key_to_report (key : Z) (r : reports) : reports :=
  if nkro_active r then set_bits (add_key_bit (bits r) key) r else set_keys (add_key_byte (keys r) key) r.

Definition del_key_from_report (key : Z) (r : reports) : reports :=
  if nkro_active r then set_bits (del_key_bit (bits r) key) r else set_keys (del_key_byte (keys r) key) r.

Definition clear_keys_from_report (r : reports) : reports :=
  if nkro_active r then set_bits (memset 0 NKRO_REPORT_BITS) r
  else set_keys (memset 0 KEYBOARD_REPORT_KEYS) r.

Record mouse_report := mk_mouse { buttons : Z; mouse_x : Z; mouse_y : Z; mouse_v : Z; mouse_h : Z }.

Definition has_mouse_report_changed (new old : mouse_report) : bool :=
  negb (buttons new =? buttons old)
  || truthy (mouse_x new) && negb (mouse_x new =? mouse_x old)
  || truthy (mouse_y new) && negb (mouse_y new =? mouse_y old)
  || truthy (mouse_h new) && negb (mouse_h new =? mouse_h old)
  || truthy (mouse_v new) && negb (mouse_v new =? mouse_v old).

(** ** Well-formed reports *)

Definition reports_wf (r : reports) : Prop :=
  lenZ (keys r) = KEYBOARD_REPORT_KEYS /\ bytes (keys r)
  /\ lenZ (bits r) = NKRO_REPORT_BITS /\ bytes (bits r).

(** There is a place for the key. *)
Definition has_room (r : reports) (key : Z) : bool :=
  if nkro_active r then key >> 3 <? NKRO_REPORT_BITS else existsb (fun k => k =? 0) (keys r).

(** ** The boot report *)

Lemma add_search_spec l code i empty : 0 <= i ->
  let '(j, e) := add_search l code i empty in
  (j = i + lenZ l \/ j < i + lenZ l /\ nthZ l (j - i) = code /\ i <= j)
  /\ (j = i + lenZ l -> existsb (fun k => k =? code) l = false)
  /\ (empty <> -1 -> e = empty)
  /\ (empty = -1 -> j = i + lenZ l ->
       if existsb (fun k => k =? 0) l then i <= e < i + lenZ l /\ nthZ l (e - i) = 0 else e = -1).
Proof.
  revert i empty. induction l as [|k l IH]; intros i empty Hi0; cbn [add_search].
  { unfold lenZ. cbn. split; [left; lia|]. split; [done|]. split; [done|]. intros ->. done. }
  rewrite lenZ_cons. pose proof (lenZ_nonneg l) as Hl. destruct (k =? code) eqn:E; b2p.
  { subst. split; [right; rewrite Z.sub_diag; repeat split; (done || lia)|]. split; [lia|]. split; [done|]. lia. }
  pose proof (IH (i + 1) (if (empty =? -1) && (k =? 0) then i else empty) ltac:(lia)) as H.
  assert (Hnth : forall j, i + 1 <= j -> nthZ (k :: l) (j - i) = nthZ l (j - (i + 1))).
  { intros j Hj. rewrite !nthZ_lookup by lia. replace (Z.to_nat (j - i)) with (S (Z.to_nat (j - (i + 1)))) by lia. done. }
  destruct (add_search l code (i + 1) _) as [j e]. destruct H as (H1 & H2 & H3 & H4). split; [|split; [|split]].
  - destruct H1 as [H1|(H1 & Hc & Hj)]; [left; lia|right]. rewrite Hnth by lia. split; [lia|]. split; [done|lia].
  - intros Hj. cbn [existsb]. rewrite H2 by lia. rewrite (proj2 (Z.eqb_neq _ _) E). done.
  - intros He. rewrite (proj2 (Z.eqb_neq empty (-1)) He) in *. cbn [andb] in *. by apply H3.
  - intros -> Hj. cbn [existsb] in *. destruct (k =? 0) eqn:E0; b2p; cbn [orb andb] in *.
    + change (-1 =? -1) with true in *. cbn [andb] in *. rewrite H3 by lia.
      split; [lia|]. by rewrite Z.sub_diag.
    + change (-1 =? -1) with true in *. cbn [andb] in *. specialize (H4 eq_refl ltac:(lia)).
      destruct (existsb (fun k => k =? 0) l); [|done]. rewrite Hnth by lia. split; [lia|apply H4].
Qed.

Lemma existsb_eq l key : existsb (fun k => k =? key) l = true <-> exists i, 0 <= i < lenZ l /\ nthZ l i = key.
Proof.
  rewrite existsb_exists. split.
  - intros (k & Hin & E). b2p. subst. apply list_elem_of_In, list_elem_of_lookup in Hin as [n Hn].
    exists (Z.of_nat n). split; [unfold lenZ; apply lookup_lt_Some in Hn; lia|].
    rewrite nthZ_lookup, Nat2Z.id, Hn by lia. done.
  - intros (i & Hi & <-). exists (nthZ l i). split; [|apply Z.eqb_refl].
    apply list_elem_of_In, list_elem_of_lookup. exists (Z.to_nat i). rewrite nthZ_lookup by lia.
    unfold lenZ in Hi. destruct (lookup_lt_is_Some_2 l (Z.to_nat i)) as [x ->]; [lia|done].
Qed.

Lemma existsb_false l key : existsb (fun k => k =? key) l = false <-> forall i, 0 <= i < lenZ l -> nthZ l i <> key.
Proof.
  rewrite <- not_true_iff_false, existsb_eq. split; [intros H i Hi E; apply H; eauto|intros H (i & Hi & E); by apply (H i)].
Qed.

Lemma add_key_byte_spec l code : lenZ l = KEYBOARD_REPORT_KEYS -> code <> 0 ->
  lenZ (add_key_byte l code) = lenZ l
  /\ forall key, key <> 0 -> existsb (fun k => k =? key) (add_key_byte l code)
       = (key =? code) && existsb (fun k => k =? 0) l || existsb (fun k => k =? key) l.
Proof.
  intros Hl Hc. unfold add_key_byte. pose proof (add_search_spec l code 0 (-1) ltac:(lia)) as H.
  destruct (add_search l code 0 (-1)) as [i e]. destruct H as (H1 & H2 & _ & H4). rewrite Z.add_0_l in *.
  destruct (i =? KEYBOARD_REPORT_KEYS) eqn:E; b2p.
  - specialize (H2 ltac:(lia)). specialize (H4 eq_refl ltac:(lia)).
    destruct (existsb (fun k => k =? 0) l) eqn:E0.
    + destruct H4 as [He Hz]. rewrite Z.sub_0_r in Hz. rewrite (proj2 (Z.eqb_neq e (-1))) by lia. cbn [negb].
      split; [apply lenZ_updZ|]. intros key Hk. rewrite andb_true_r. apply eq_iff_eq_true.
      rewrite orb_true_iff, !existsb_eq, lenZ_updZ, Z.eqb_eq. split.
      * intros (j & Hj & <-). rewrite nthZ_updZ. case_if; [by left|right; eauto].
      * intros [->|(j & Hj & <-)]; [exists e; rewrite nthZ_updZ_eq by lia; by split; [lia|]|].
        exists j. split; [done|]. apply nthZ_updZ_ne. intros ->. done.
    + rewrite H4. split; [done|]. intros key Hk. by rewrite andb_false_r.
  - split; [done|]. intros key Hk. destruct H1 as [->|(Hi & Hcode & _)]; [lia|].
    destruct (Z.eqb_spec key code) as [->|]; [|done]. rewrite Z.sub_0_r in Hcode.
    assert (Hp : existsb (fun k => k =? code) l = true) by (apply existsb_eq; exists i; pose proof (lenZ_nonneg l); destruct (Z.le_gt_cases 0 i); [by split; [lia|]|rewrite nthZ_out in Hcode by lia; congruence]).
    rewrite Hp. by rewrite orb_true_r.
Qed.

Lemma del_key_byte_spec l code key : key <> 0 ->
  existsb (fun k => k =? key) (del_key_byte l code) = negb (key =? code) && existsb (fun k => k =? key) l.
Proof.
  intros Hk. unfold del_key_byte. induction l as [|k l IH]; [cbn; by rewrite andb_false_r|].
  cbn [map existsb]. rewrite IH.
  destruct (Z.eqb_spec k code) as [->|Hne].
  - destruct (Z.eqb_spec key code) as [->|H2]; cbn [negb andb orb].
    + by rewrite (proj2 (Z.eqb_neq 0 code)) by congruence.
    + rewrite (proj2 (Z.eqb_neq 0 key)), (proj2 (Z.eqb_neq code key)) by congruence. done.
  - destruct (Z.eqb_spec k key) as [->|]; cbn; [by rewrite (proj2 (Z.eqb_neq key code))|done].
Qed.

Lemma add_key_byte_bytes l code : bytes l -> byte_range code -> bytes (add_key_byte l code).
Proof.
  intros Hl Hc. unfold add_key_byte. destruct (add_search _ _ _ _) as [i e]. repeat case_if; try done.
  by apply bytes_updZ.
Qed.

(** ** The bitmap *)

Lemma key_bit_split key : byte_range key -> key >> 3 = key / 8 /\ key .& 7 = key mod 8 /\ key = 8 * (key / 8) + key mod 8.
Proof.
  intros H. split; [by rewrite Z.shiftr_div_pow2|]. split; [|dlia].
  change 7 with (Z.ones 3). by rewrite Z.land_ones.
Qed.

Definition bit_pressed (l : list Z) (key : Z) : bool := Z.testbit (nthZ l (key / 8)) (key mod 8).

Lemma add_key_bit_spec l code : lenZ l = NKRO_REPORT_BITS -> bytes l -> byte_range code ->
  lenZ (add_key_bit l code) = lenZ l /\ bytes (add_key_bit l code)
  /\ forall key, byte_range key -> bit_pressed (add_key_bit l code) key
       = (key =? code) && (code >> 3 <? NKRO_REPORT_BITS) || bit_pressed l key.
Proof.
  intros Hl Hb Hc. unfold add_key_bit. destruct (key_bit_split code Hc) as (-> & -> & E).
  destruct (code / 8 <? NKRO_REPORT_BITS) eqn:Er; b2p.
  - split; [apply lenZ_updZ|]. split; [apply bytes_updZ; [done|apply u8_range]|].
    intros key Hk. unfold bit_pressed. rewrite andb_true_r, nthZ_updZ.
    destruct (key_bit_split key Hk) as (_ & _ & Ek).
    destruct (Z.eqb_spec (code / 8) (key / 8)) as [E8|Hne].
    + rewrite (proj2 (Z.leb_le 0 _)), (proj2 (Z.ltb_lt _ _)) by dlia. cbn [andb].
      unfold u8. change 256 with (2 ^ 8). rewrite Z.mod_pow2_bits_low by dlia.
      rewrite Z.lor_spec, Z.shiftl_1_l, Z.pow2_bits_eqb, E8 by dlia.
      destruct (Z.eqb_spec (code mod 8) (key mod 8)), (Z.eqb_spec key code); try lia;
        by destruct (Z.testbit _ _).
    + cbn [andb]. destruct (Z.eqb_spec key code) as [->|]; [lia|done].
  - split; [done|]. split; [done|]. intros key Hk. by rewrite andb_false_r.
Qed.

Lemma del_key_bit_spec l code : lenZ l = NKRO_REPORT_BITS -> bytes l -> byte_range code ->
  lenZ (del_key_bit l code) = lenZ l /\ bytes (del_key_bit l code)
  /\ forall key, byte_range key -> bit_pressed (del_key_bit l code) key
       = negb (key =? code) && bit_pressed l key.
Proof.
  intros Hl Hb Hc. unfold del_key_bit. destruct (key_bit_split code Hc) as (-> & -> & E).
  destruct (code / 8 <? NKRO_REPORT_BITS) eqn:Er; b2p.
  - split; [apply lenZ_updZ|]. split; [apply bytes_updZ; [done|apply u8_range]|].
    intros key Hk. unfold bit_pressed. rewrite nthZ_updZ.
    destruct (key_bit_split key Hk) as (_ & _ & Ek).
    destruct (Z.eqb_spec (code / 8) (key / 8)) as [E8|Hne].
    + rewrite (proj2 (Z.leb_le 0 _)), (proj2 (Z.ltb_lt _ _)) by dlia. cbn [andb].
      unfold u8. change 256 with (2 ^ 8). rewrite Z.mod_pow2_bits_low by dlia.
      rewrite Z.land_spec, Z.lnot_spec, Z.shiftl_1_l, Z.pow2_bits_eqb, E8 by dlia.
      destruct (Z.eqb_spec (code mod 8) (key mod 8)), (Z.eqb_spec key code); try lia;
        by destruct (Z.testbit _ _).
    + cbn [andb]. destruct (Z.eqb_spec key code) as [->|]; [lia|done].
  - split; [done|]. split; [done|]. intros key Hk. destruct (Z.eqb_spec key code) as [->|]; [|done].
    unfold bit_pressed. rewrite nthZ_out by lia. by rewrite Z.bits_0.
Qed.

Lemma nkro_pressed l key : lenZ l = NKRO_REPORT_BITS -> byte_range key -> forall ks, key <> 0 ->
  is_key_pressed (mk_reports true ks l) key = bit_pressed l key.
Proof.
  intros Hl Hk ks Hne. unfold is_key_pressed. cbn [nkro_active bits]. rewrite (proj2 (Z.eqb_neq key 0) Hne).
  destruct (key_bit_split key Hk) as (-> & -> & E). unfold bit_pressed.
  destruct (key / 8 <? NKRO_REPORT_BITS) eqn:Er; b2p; [apply truthy_bit; dlia|].
  rewrite nthZ_out by lia. by rewrite Z.bits_0.
Qed.

(** What the operations do to a key. *)
Lemma report_ops r code key :
  reports_wf r -> byte_range code -> code <> 0 -> byte_range key ->
  is_key_pressed (add_key_to_report code r) key
    = (key =? code) && has_room r code || is_key_pressed r key
  /\ is_key_pressed (del_key_from_report code r) key = negb (key =? code) && is_key_pressed r key
  /\ is_key_pressed (clear_keys_from_report r) key = false
  /\ reports_wf (add_key_to_report code r) /\ reports_wf (del_key_from_report code r)
  /\ reports_wf (clear_keys_from_report r).
Proof.
  intros (Hk1 & Hk2 & Hb1 & Hb2) Hc Hc0 Hk. destruct r as [[] ks bs]; cbn [nkro_active keys bits] in *.
  - destruct (add_key_bit_spec bs code Hb1 Hb2 Hc) as (A1 & A2 & A3).
    destruct (del_key_bit_spec bs code Hb1 Hb2 Hc) as (D1 & D2 & D3).
    unfold add_key_to_report, del_key_from_report, clear_keys_from_report, set_bits, has_room.
    cbn [nkro_active keys bits].
    split; [|split; [|split; [|split; [|split]]]]; try (split_and!; cbn; (done || congruence)).
    + destruct (Z.eq_dec key 0) as [->|Hne]; [by rewrite (proj2 (Z.eqb_neq 0 code)) by congruence|].
      rewrite !nkro_pressed by (done || congruence). by apply A3.
    + destruct (Z.eq_dec key 0) as [->|Hne]; [cbn; by rewrite andb_false_r|].
      rewrite !nkro_pressed by (done || congruence). by apply D3.
    + destruct (Z.eq_dec key 0) as [->|Hne]; [done|].
      rewrite nkro_pressed by (done || by apply lenZ_replicate). unfold bit_pressed.
      destruct (decide (0 <= key / 8 < NKRO_REPORT_BITS)) as [H|H];
        [by rewrite nthZ_memset, Z.bits_0|].
      rewrite nthZ_out; [apply Z.bits_0|]. by rewrite lenZ_replicate.
    + split_and!; cbn; [done|done|by apply lenZ_replicate|by apply bytes_memset].
  - destruct (add_key_byte_spec ks code Hk1 Hc0) as (A1 & A3).
    assert (D1 : lenZ (del_key_byte ks code) = KEYBOARD_REPORT_KEYS).
    { rewrite <- Hk1. unfold del_key_byte, lenZ. by rewrite length_map. }
    assert (D2 : bytes (del_key_byte ks code)).
    { apply Forall_fmap. eapply (Forall_impl _); [|exact Hk2]. intros k Hkr. cbn. by destruct (k =? code). }
    unfold add_key_to_report, del_key_from_report, clear_keys_from_report, set_keys, has_room.
    cbn [nkro_active keys bits]. unfold is_key_pressed. cbn [nkro_active keys bits].
    split; [|split; [|split; [|split; [|split]]]].
    + destruct (Z.eqb_spec key 0) as [->|Hne]; [by rewrite (proj2 (Z.eqb_neq 0 code)) by congruence|].
      by apply A3.
    + destruct (Z.eqb_spec key 0) as [->|Hne]; [by rewrite andb_false_r|]. by apply del_key_byte_spec.
    + destruct (Z.eqb_spec key 0) as [->|Hne]; [done|]. apply existsb_false. intros i Hi.
      rewrite lenZ_replicate in Hi by done. rewrite nthZ_memset by done. congruence.
    + split_and!; cbn; [congruence|by apply add_key_byte_bytes|done|done].
    + split_and!; cbn; done.
    + split_and!; cbn; [by apply lenZ_replicate|by apply bytes_memset|done|done].
Qed.

(** The report is a set of keys. In either protocol, adding a key makes it
    pressed exactly when it was pressed before or there is a place for it,
    deleting one makes it released, and neither touches any other key; clearing
    releases all keys. The reports keep their sizes and stay made of bytes. *)
Theorem report_is_a_set r code key :
  reports_wf r -> byte_range code -> code <> 0 -> byte_range key ->
  is_key_pressed (add_key_to_report code r) key
    = (key =? code) && has_room r code || is_key_pressed r key
  /\ is_key_pressed (del_key_from_report code r) key = negb (key =? code) && is_key_pressed r key
  /\ is_key_pressed (clear_keys_from_report r) key = false
  /\ reports_wf (add_key_to_report code r) /\ reports_wf (del_key_from_report code r)
  /\ reports_wf (clear_keys_from_report r).
Proof. apply report_ops. Qed.

(** ** The summaries *)

Lemma has_anykey_count l cnt : 0 <= cnt -> cnt + lenZ l < 256 ->
  let n := foldl (fun cnt p => if truthy p then u8 (cnt + 1) else cnt) cnt l in
  cnt <= n /\ n <= cnt + lenZ l /\ (n = cnt <-> Forall (fun p => p = 0) l).
Proof.
  revert cnt. induction l as [|p l IH]; intros cnt Hc Hl; cbn [foldl].
  { unfold lenZ. cbn. repeat split; try lia; done. }
  rewrite lenZ_cons in *. pose proof (lenZ_nonneg l). destruct (truthy p) eqn:E; unfold truthy in E; b2p.
  - rewrite u8_id by lia. destruct (IH (cnt + 1) ltac:(lia) ltac:(lia)) as (H1 & H2 & _).
    split; [lia|]. split; [lia|]. split; [lia|]. intros [Hp _]%Forall_cons_1. done.
  - destruct (IH cnt Hc ltac:(lia)) as (H1 & H2 & H3). split; [done|]. split; [lia|].
    split; [intros H4; apply Forall_cons_2; [done|by apply H3]|].
    intros [_ H4]%Forall_cons_1. by apply H3.
Qed.

Lemma first_byte_spec l i : 0 <= i ->
  match first_byte l i with
  | None => Forall (fun p => p = 0) l
  | Some (j, b) => i <= j < i + lenZ l /\ nthZ l (j - i) = b /\ b <> 0
                   /\ forall n, i <= n < j -> nthZ l (n - i) = 0
  end.
Proof.
  revert i. induction l as [|p l IH]; intros i Hi; cbn [first_byte]; [done|].
  rewrite lenZ_cons. pose proof (lenZ_nonneg l). unfold truthy. destruct (p =? 0) eqn:E; b2p; cbn [negb].
  - subst. specialize (IH (i + 1) ltac:(lia)).
    assert (Hn : forall n, i + 1 <= n -> nthZ (0 :: l) (n - i) = nthZ l (n - (i + 1))).
    { intros n Hn. rewrite !nthZ_lookup by lia.
      replace (Z.to_nat (n - i)) with (S (Z.to_nat (n - (i + 1)))) by lia. done. }
    destruct (first_byte l (i + 1)) as [[j b]|]; [|by apply Forall_cons].
    destruct IH as (H1 & H2 & H3 & H4). split; [lia|]. split; [by rewrite Hn by lia|]. split; [done|].
    intros n Hr. destruct (Z.eq_dec n i) as [->|]; [by rewrite Z.sub_diag|]. rewrite Hn by lia. apply H4. lia.
  - split; [lia|]. rewrite Z.sub_diag. split; [done|]. split; [done|]. intros n Hr. lia.
Qed.

(** The summaries of the report. [has_anykey] is zero exactly when the
    active report is all zero. In the boot protocol [get_first_key] is the
    first key byte; under NKRO it is a pressed key, no key of a lower byte is
    pressed, and it has no value -- the code reads past the bitmap -- exactly
    when [has_anykey] is zero. *)
Theorem report_summaries r :
  reports_wf r ->
  (has_anykey r = 0 <-> Forall (fun p => p = 0) (if nkro_active r then bits r else keys r))
  /\ (nkro_active r = false -> get_first_key r = Some (nthZ (keys r) 0))
  /\ (nkro_active r = true -> (get_first_key r = None <-> has_anykey r = 0))
  /\ (forall key, nkro_active r = true -> get_first_key r = Some key ->
        bit_pressed (bits r) key = true /\ forall n, 0 <= n < key / 8 -> nthZ (bits r) n = 0).
Proof.
  intros (Hk1 & Hk2 & Hb1 & Hb2).
  assert (Hany : has_anykey r = 0 <-> Forall (fun p => p = 0) (if nkro_active r then bits r else keys r)).
  { unfold has_anykey. apply has_anykey_count; [done|].
    destruct (nkro_active r); unfold KEYBOARD_REPORT_KEYS, NKRO_REPORT_BITS in *; lia. }
  split; [done|]. unfold get_first_key. split; [by intros ->|].
  pose proof (first_byte_spec (bits r) 0 ltac:(lia)) as Hf. split.
  - intros Hn. rewrite Hn in *. rewrite Hany. destruct (first_byte (bits r) 0) as [[j b]|]; [|tauto].
    destruct Hf as (H1 & H2 & H3 & _). split; [done|]. intros Hz. exfalso. apply H3. rewrite <- H2.
    rewrite nthZ_lookup by lia. destruct (lookup_lt_is_Some_2 (bits r) (Z.to_nat (j - 0))) as [x Hx];
      [unfold lenZ in H1; lia|]. rewrite Hx. cbn. by apply (Forall_lookup_1 _ _ _ _ Hz Hx).
  - intros key -> Hkey. destruct (first_byte (bits r) 0) as [[j b]|]; [|done]. injection Hkey as <-.
    destruct Hf as (H1 & H2 & H3 & H4). rewrite Z.sub_0_r in H2.
    assert (Hbr : byte_range b) by (rewrite <- H2; by apply bytes_nthZ).
    rewrite biton_log2 by exact Hbr.
    assert (Hlog : 0 <= Z.log2 b < 8) by (split; [apply Z.log2_nonneg|apply Z.log2_lt_pow2; [lia|exact (proj2 Hbr)]]).
    unfold NKRO_REPORT_BITS in *. rewrite lor_add, u8_id by (done || pow_consts; lia). pow_consts.
    assert (E8 : (j * 8 + Z.log2 b) / 8 = j) by dlia.
    assert (Em : (j * 8 + Z.log2 b) mod 8 = Z.log2 b) by dlia.
    split.
    + unfold bit_pressed. rewrite E8, Em, H2. apply Z.bit_log2. lia.
    + intros n Hr. rewrite E8 in Hr. rewrite <- (Z.sub_0_r n). apply H4. lia.
Qed.

(** An all-zero mouse report after a button was held counts as a change. *)
Lemma empty_mouse_report_changes :
  has_mouse_report_changed (mk_mouse 0 0 0 0 0) (mk_mouse 1 0 0 0 0) = true.
Proof. reflexivity. Qed.

(** ** Witnesses *)

(** The boot report with keys 4 and 5; an NKRO report with keys 9 and 12. *)
Definition boot : reports := mk_reports false [4; 0; 5; 0; 0; 0] (memset 0 30).
Definition bitmap : reports := mk_reports true (memset 0 6) (updZ (memset 0 30) 1 0x12).

Lemma report_is_a_set_witness : is_key_pressed (add_key_to_report 7 boot) 7 = true.
Proof.
  refine (proj1 (report_is_a_set boot 7 7 _ _ _ _)).
  - split_and!; [done|repeat constructor; lia|done|by apply bytes_memset].
  - lia.
  - discriminate.
  - lia.
Defined.

Lemma report_summaries_witness : get_first_key (set_bits (memset 0 30) bitmap) = None.
Proof.
  refine (proj2 (proj1 (proj2 (proj2 (report_summaries (set_bits (memset 0 30) bitmap) _))) eq_refl) eq_refl).
  split_and!; [done|by apply bytes_memset|done|by apply bytes_memset].
Defined.
