(* ===== verification/Keyboard.v ===== *)
(** Key events and the records that carry them through the firmware
    ([quantum/keyboard.h], [quantum/action.h]), the keycode and the action of a
    record ([quantum/quantum.c], [quantum/action.c]), and the interface through
    which the event pipeline sees the rest of the firmware. The build is a Vial
    build: combos and tapping are on, swap-hands, chordal hold and retro shift
    are off. *)

From S2P Require Import Prelude.
From S2P Require Import Eeprom.
From S2P Require Import DynamicKeymap.
From S2P Require Import QmkSettings.
From S2P Require Import Vial.
From S2P Require Import KeycodeConfig.
From S2P Require Import KeymapCommon.
From S2P Require Import ActionLayer.

(** ** Events *)

Inductive keyevent_type_t :=
| TICK_EVENT | KEY_EVENT | ENCODER_CW_EVENT | ENCODER_CCW_EVENT | COMBO_EVENT
| DIP_SWITCH_ON_EVENT | DIP_SWITCH_OFF_EVENT.
#[export] Instance keyevent_type_eq_dec : EqDecision keyevent_type_t.
Proof. solve_decision. Defined.

Record keyevent_t := mk_event {
  ev_key : keypos_t;
  ev_time : Z;
  ev_type : keyevent_type_t;
  ev_pressed : bool;
}.
#[export] Instance keyevent_eq_dec : EqDecision keyevent_t.
Proof. solve_decision. Defined.

Definition KEYEQ (a b : keypos_t) : bool := (row a =? row b) && (col a =? col b).
Definition IS_EVENT (e : keyevent_t) : bool := negb (bool_decide (ev_type e = TICK_EVENT)).
Definition IS_NOEVENT (e : keyevent_t) : bool := bool_decide (ev_type e = TICK_EVENT).
Definition IS_KEYEVENT (e : keyevent_t) : bool := bool_decide (ev_type e = KEY_EVENT).

Definition MAKE_KEYEVENT (r c : Z) (press : bool) (now : Z) : keyevent_t :=
  mk_event (mk_key c r) now KEY_EVENT press.
Definition MAKE_TICK_EVENT (now : Z) : keyevent_t := mk_event (mk_key 0 0) now TICK_EVENT false.

(** ** Records *)

Record tap_t := mk_tap { tap_interrupted : bool; tap_count : Z }.
#[export] Instance tap_eq_dec : EqDecision tap_t.
Proof. solve_decision. Defined.

Record keyrecord_t := mk_record {
  rec_event : keyevent_t;
  rec_tap : tap_t;
  rec_keycode : Z;
}.
#[export] Instance keyrecord_eq_dec : EqDecision keyrecord_t.
Proof. solve_decision. Defined.

Definition no_tap : tap_t := mk_tap false 0.
(** [{.event = event}] and [{0}]. *)
Definition event_record (e : keyevent_t) : keyrecord_t := mk_record e no_tap 0.
Definition zero_record : keyrecord_t := event_record (mk_event (mk_key 0 0) 0 TICK_EVENT false).

Definition set_tap (t : tap_t) (r : keyrecord_t) : keyrecord_t := mk_record (rec_event r) t (rec_keycode r).
Definition set_count (n : Z) (r : keyrecord_t) : keyrecord_t :=
  set_tap (mk_tap (tap_interrupted (rec_tap r)) n) r.
Definition set_interrupted (b : bool) (r : keyrecord_t) : keyrecord_t :=
  set_tap (mk_tap b (tap_count (rec_tap r))) r.
Definition set_pressed (b : bool) (r : keyrecord_t) : keyrecord_t :=
  mk_record (mk_event (ev_key (rec_event r)) (ev_time (rec_event r)) (ev_type (rec_event r)) b)
    (rec_tap r) (rec_keycode r).

(** ** Actions that tell a tap from a hold *)

Definition ACT_LMODS : Z := 0.
Definition ACT_RMODS : Z := 1.
Definition ACT_LMODS_TAP : Z := 2.
Definition ACT_RMODS_TAP : Z := 3.
Definition ACT_SWAP_HANDS : Z := 6.
Definition OP_SH_TAP_TOGGLE : Z := 0xF1.
Definition OP_OFF_ON : Z := 0xF2.
Definition OP_SET_CLEAR : Z := 0xF3.

Definition IS_MODIFIER_KEYCODE (code : Z) : bool := in_range KC_LEFT_CTRL KC_RIGHT_GUI code.

(** [action.key.mods]. *)
Definition action_key_mods (action : Z) : Z := (action >> 8) .& 0xF.

Definition is_tap_action (action : Z) : bool :=
  let kind := action_kind action in
  if (kind =? ACT_LMODS_TAP) || (kind =? ACT_RMODS_TAP) || (kind =? ACT_LAYER_TAP)
     || (kind =? ACT_LAYER_TAP_EXT)
  then in_range KC_NO KC_RIGHT_GUI (key_code action) || (key_code action =? OP_TAP_TOGGLE)
       || (key_code action =? OP_ONESHOT)
  else if kind =? ACT_SWAP_HANDS
  then in_range KC_NO KC_RIGHT_GUI (key_code action) || (key_code action =? OP_SH_TAP_TOGGLE)
  else false.

(** ** The rest of the firmware

    [W] is the state of everything outside the tapping code. [process_record]
    runs the record through the key processors and performs its action; the
    boolean is whether [record->event.pressed] is left alone, the only field of
    the record it may change in this build ([process_action] clears it when it
    releases a one-shot layer). Like the code it does not touch the tapping
    state, unless a processor feeds an event of its own to [action_exec]; that
    nesting is left out. *)
Class FirmwareState (W E : Type) := {
  fw_vial : W -> vial_state E;
  fw_layers : W -> layer_st;
  fw_magic_keycode_override : W -> Z;
  fw_disable_action_cache : W -> bool;
}.
Class Firmware (W E : Type) := {
  fw_state :: FirmwareState W E;
  process_record : keyrecord_t -> W -> bool * W;
  fw_clear_keyboard : W -> W;
}.

Section records.
Context {W E : Type} {fw : FirmwareState W E} {eeprom : Eeprom E} {cfg : KeymapConfig}
        {qcfg : QmkSettingsConfig}.
Implicit Types (w : W) (record : keyrecord_t).

Definition fw_keymap_env w : keymap_env :=
  mk_keymap_env (Vial.vial_unlock_in_progress (fw_vial w)) (fw_magic_keycode_override w)
    (QmkSettings.keymap_config (settings (fw_vial w))).

Definition fw_action_for_key w (layer : Z) (key : keypos_t) : Z :=
  action_for_key (fw_keymap_env w) (ee (fw_vial w)) layer key.
Definition fw_keycode w (layer : Z) (key : keypos_t) : Z :=
  keymap_key_to_keycode (fw_keymap_env w) (ee (fw_vial w)) layer key.
Definition fw_get_layer (key : keypos_t) w : Z :=
  layer_switch_get_layer (fw_action_for_key w) key (fw_layers w).
Definition fw_get_action (key : keypos_t) w : Z :=
  layer_switch_get_action (fw_action_for_key w) key (fw_layers w).

(** The keycode, and the layers with the cache updated. *)
Definition get_event_keycode (event : keyevent_t) (update_layer_cache : bool) w : Z * layer_st :=
  let key := ev_key event in
  if negb (fw_disable_action_cache w) then
    let '(layer, s) :=
      if ev_pressed event && update_layer_cache then
        let layer := fw_get_layer key w in
        (layer, update_source_layers_cache key layer (fw_layers w))
      else (read_source_layers_cache key (fw_layers w), fw_layers w) in
    (fw_keycode w layer key, s)
  else (fw_keycode w (fw_get_layer key w) key, fw_layers w).

Definition get_record_keycode record (update_layer_cache : bool) w : Z * layer_st :=
  if truthy (rec_keycode record) then (rec_keycode record, fw_layers w)
  else get_event_keycode (rec_event record) update_layer_cache w.

Definition is_tap_record record w : bool :=
  if IS_NOEVENT (rec_event record) then false
  else
    is_tap_action
      (if truthy (rec_keycode record)
       then action_for_keycode (KeymapCommon.keymap_config (fw_keymap_env w)) (rec_keycode record)
       else fw_get_action (ev_key (rec_event record)) w).
End records.
