(* ===== verification/DeferredExec.v ===== *)
(** * Deferred execution

    [quantum/deferred_exec.c]: a table of callbacks that are to be called after
    a delay, each named by a token of eight bits. The state is the table, the
    counter of tokens, the time of the last pass over the table, the clock, and
    the rest of the firmware, which the callbacks change. A callback is known by
    its number, [NULL] by [0]; what it does is the parameter [invoke]. The log
    [calls] is not in the code: it records what was called.

    The clock [time] counts milliseconds since the start without wrapping;
    [timer_read32] is its low 32 bits. *)

From S2P Require Import Prelude.
#[local] Set Default Proof Using "Type*".

Definition INVALID_DEFERRED_TOKEN : Z := 0.
Definition MAX_DEFERRED_EXECUTORS : Z := 8.
Definition NULL : Z := 0.

(** The conversion to [int32_t]. *)
Definition s32 (z : Z) : Z := if z <? 2147483648 then z else z - 4294967296.

Record deferred_executor_t := mk_executor
  { token : Z; trigger_time : Z; callback : Z; cb_arg : Z }.

Definition no_executor : deferred_executor_t := mk_executor INVALID_DEFERRED_TOKEN 0 NULL NULL.

Record called := mk_called
  { called_token : Z; called_back : Z; called_trigger : Z; called_arg : Z }.

Record deferred {W : Type} := mk_deferred
  { table : list deferred_executor_t; current_token : Z; last_deferred_exec_check : Z;
    time : Z; calls : list called; outside : W }.
Arguments deferred W : clear implicits.
Arguments mk_deferred {W}.

Section deferred_exec.
Context {W : Type} (invoke : Z -> Z -> Z -> deferred W -> Z * deferred W).

Definition set_table (s : deferred W) (t : list deferred_executor_t) : deferred W :=
  mk_deferred t (current_token s) (last_deferred_exec_check s) (time s) (calls s) (outside s).
Definition set_current_token (s : deferred W) (t : Z) : deferred W :=
  mk_deferred (table s) t (last_deferred_exec_check s) (time s) (calls s) (outside s).
Definition set_last_check (s : deferred W) (t : Z) : deferred W :=
  mk_deferred (table s) (current_token s) t (time s) (calls s) (outside s).
Definition set_time (s : deferred W) (t : Z) : deferred W :=
  mk_deferred (table s) (current_token s) (last_deferred_exec_check s) t (calls s) (outside s).
Definition log_call (s : deferred W) (c : called) : deferred W :=
  mk_deferred (table s) (current_token s) (last_deferred_exec_check s) (time s) (calls s ++ [c]) (outside s).
Definition set_outside (s : deferred W) (w : W) : deferred W :=
  mk_deferred (table s) (current_token s) (last_deferred_exec_check s) (time s) (calls s) w.

Definition timer_read32 (s : deferred W) : Z := u32 (time s).

(** ** Tokens *)

Definition token_can_be_used (tab : list deferred_executor_t) (tok : Z) : bool :=
  negb (tok =? INVALID_DEFERRED_TOKEN) && forallb (fun e => negb (token e =? tok)) tab.

(** The [while] loop of [allocate_token]: the token found, or the invalid one,
    with the counter it leaves. It tries each value of the counter once. *)
Fixpoint allocate_loop (fuel : nat) (tab : list deferred_executor_t) (first cur : Z) : Z * Z :=
  if token_can_be_used tab cur then (cur, cur)
  else match fuel with
       | O => (INVALID_DEFERRED_TOKEN, cur)
       | S n =>
         let cur := u8 (cur + 1) in
         if cur =? first then (INVALID_DEFERRED_TOKEN, cur) else allocate_loop n tab first cur
       end.

Definition token_fuel : nat := 256.

Definition allocate_token (s : deferred W) : Z * deferred W :=
  let first := u8 (current_token s + 1) in
  let '(tok, cur) := allocate_loop token_fuel (table s) first first in
  (tok, set_current_token s cur).

(** ** The operations on a table *)

Definition defer_exec_advanced (s : deferred W) (delay_ms cb arg : Z) : Z * deferred W :=
  if (lenZ (table s) =? 0) || (delay_ms =? 0) || (cb =? NULL) then (INVALID_DEFERRED_TOKEN, s)
  else
    match list_find (fun e => token e = INVALID_DEFERRED_TOKEN) (table s) with
    | None => (INVALID_DEFERRED_TOKEN, s)
    | Some (i, _) =>
      let '(tok, s) := allocate_token s in
      if tok =? INVALID_DEFERRED_TOKEN then (b2z false, s)
      else
        (current_token s,
         set_table s (<[i := mk_executor (current_token s) (u32 (timer_read32 s + delay_ms)) cb arg]> (table s)))
    end.

Definition extend_deferred_exec_advanced (s : deferred W) (tok delay_ms : Z) : bool * deferred W :=
  if (lenZ (table s) =? 0) || (delay_ms =? 0) || (tok =? INVALID_DEFERRED_TOKEN) then (false, s)
  else
    match list_find (fun e => token e = tok) (table s) with
    | None => (false, s)
    | Some (i, e) =>
      (true, set_table s (<[i := mk_executor (token e) (u32 (timer_read32 s + delay_ms)) (callback e) (cb_arg e)]> (table s)))
    end.

Definition cancel_deferred_exec_advanced (s : deferred W) (tok : Z) : bool * deferred W :=
  if (lenZ (table s) =? 0) || (tok =? INVALID_DEFERRED_TOKEN) then (false, s)
  else
    match list_find (fun e => token e = tok) (table s) with
    | None => (false, s)
    | Some (i, _) => (true, set_table s (<[i := no_executor]> (table s)))
    end.

(** ** A pass over the table *)

Definition call_back (e : deferred_executor_t) (s : deferred W) : Z * deferred W :=
  invoke (callback e) (trigger_time e) (cb_arg e)
    (log_call s (mk_called (token e) (callback e) (trigger_time e) (cb_arg e))).

Definition is_due (now : Z) (e : deferred_executor_t) : bool :=
  negb (token e =? INVALID_DEFERRED_TOKEN) && (s32 (TIMER_DIFF_32 (trigger_time e) now) <=? 0).

Definition run_executor (now : Z) (i : Z) (s : deferred W) : deferred W :=
  match table s !! Z.to_nat i with
  | None => s
  | Some entry =>
    if is_due now entry then
      let '(delay_ms, s) := call_back entry s in
      match table s !! Z.to_nat i with
      | None => s
      | Some entry' =>
        if negb (token entry' =? token entry) then s
        else if 0 <? delay_ms then
          set_table s (<[Z.to_nat i := mk_executor (token entry') (u32 (trigger_time entry' + delay_ms))
                                                   (callback entry') (cb_arg entry')]> (table s))
        else set_table s (<[Z.to_nat i := no_executor]> (table s))
      end
    else s
  end.

Definition deferred_exec_advanced_task (s : deferred W) : deferred W :=
  let now := timer_read32 s in
  if 0 <? s32 (TIMER_DIFF_32 now (last_deferred_exec_check s)) then
    let s := set_last_check s now in
    for_Z 0 (lenZ (table s)) (run_executor now) s
  else s.

(** ** The table of the user code

    [basic_executors] is a table of [MAX_DEFERRED_EXECUTORS] entries. *)

Definition basic_executors (w : W) : deferred W :=
  mk_deferred (replicate (Z.to_nat MAX_DEFERRED_EXECUTORS) no_executor) 0 0 0 [] w.

Definition defer_exec := defer_exec_advanced.
Definition extend_deferred_exec := extend_deferred_exec_advanced.
Definition cancel_deferred_exec := cancel_deferred_exec_advanced.
Definition deferred_exec_task := deferred_exec_advanced_task.

End deferred_exec.
