(* ===== verification/DeferredExecProofs.v ===== *)
(** * What deferred execution guarantees

    The tokens in the table name their entries; a deferral succeeds exactly when
    there is room; and a callback is called by the first pass over the table that
    runs when its time has come. The callbacks are any functions that act on the
    table through its operations. *)

From S2P Require Import Prelude.
From S2P Require Import DeferredExec.
#[local] Set Default Proof Using "Type".

Lemma s32_u32 x : -2147483648 <= x < 2147483648 -> s32 (u32 x) = x.
Proof. intros. unfold s32, u32. case_if; dlia. Qed.

(** Two times less than 2^31 ms apart are compared by the difference of their
    low 32 bits. *)
Lemma timer_diff_s32 a b : -2147483648 <= a - b < 2147483648 -> s32 (TIMER_DIFF_32 (u32 a) (u32 b)) = a - b.
Proof.
  intros. unfold TIMER_DIFF_32. rewrite <- (s32_u32 (a - b)) by done. f_equal. unfold u32. dlia.
Qed.

Lemma for_Z_split {S} (body : Z -> S -> S) lo mid hi s :
  lo <= mid <= hi -> for_Z lo hi body s = for_Z mid hi body (for_Z lo mid body s).
Proof.
  intros H. unfold for_Z. rewrite <- foldl_app. f_equal.
  replace (hi - lo) with ((mid - lo) + (hi - mid)) by lia.
  rewrite seqZ_app by lia. by replace (lo + (mid - lo)) with mid by lia.
Qed.

Section deferred.
Context {W : Type}.

(** ** The table *)

Record wf_executor (e : deferred_executor_t) : Prop := mk_wfe
  { wfe_token : byte_range (token e); wfe_trigger : 0 <= trigger_time e < 4294967296;
    wfe_callback : token e <> INVALID_DEFERRED_TOKEN -> callback e <> NULL }.

(** A token names one entry. *)
Definition named_apart (tab : list deferred_executor_t) : Prop :=
  forall i j a b, tab !! i = Some a -> tab !! j = Some b -> token a = token b ->
    token a <> INVALID_DEFERRED_TOKEN -> i = j.

Record wf (s : deferred W) : Prop := mk_wf
  { wf_size : 0 < lenZ (table s) <= 255; wf_entries : Forall wf_executor (table s);
    wf_named : named_apart (table s); wf_current : byte_range (current_token s) }.

Lemma wf_entry s i e : wf s -> table s !! i = Some e -> wf_executor e.
Proof. intros Hw He. exact (proj1 (Forall_lookup _ _) (wf_entries _ Hw) _ _ He). Qed.

Lemma named_insert tab i e :
  named_apart tab ->
  (token e <> INVALID_DEFERRED_TOKEN -> forall j a, j <> i -> tab !! j = Some a -> token a <> token e) ->
  named_apart (<[i := e]> tab).
Proof.
  intros Hn Hi p q a b Ha Hb Hab H0.
  apply list_lookup_insert_Some in Ha as [(-> & -> & _)|[? Ha]];
    apply list_lookup_insert_Some in Hb as [(-> & -> & _)|[? Hb]]; [done| | |by eapply Hn].
  - exfalso. by eapply (Hi H0 q b).
  - exfalso. rewrite Hab in H0. by eapply (Hi H0 p a).
Qed.

Lemma wf_insert s i e :
  wf s -> wf_executor e ->
  (token e <> INVALID_DEFERRED_TOKEN -> forall j a, j <> i -> table s !! j = Some a -> token a <> token e) ->
  wf (set_table s (<[i := e]> (table s))).
Proof.
  intros [H1 H2 H3 H4] He Hi. split; simpl; [|by apply Forall_insert|by apply named_insert|done].
  unfold lenZ in *. by rewrite length_insert.
Qed.

Lemma wf_no_executor : wf_executor no_executor.
Proof. by split. Qed.

(** ** Tokens *)

Lemma token_can_be_used_spec tab tok :
  token_can_be_used tab tok = true <->
  tok <> INVALID_DEFERRED_TOKEN /\ forall i e, tab !! i = Some e -> token e <> tok.
Proof.
  unfold token_can_be_used. rewrite andb_true_iff, negb_true_iff, Z.eqb_neq, forallb_forall.
  split; intros [H0 H]; (split; [done|]).
  - intros i e He. apply list_elem_of_lookup_2 in He. apply list_elem_of_In in He.
    specialize (H e He). by b2p.
  - intros e He. apply list_elem_of_In, list_elem_of_lookup in He as [i He].
    apply negb_true_iff, Z.eqb_neq. by apply (H i).
Qed.

(** With a free entry among at most 255, a token is left. *)
Lemma token_left tab i e :
  lenZ tab <= 255 -> tab !! i = Some e -> token e = INVALID_DEFERRED_TOKEN ->
  exists tok, byte_range tok /\ token_can_be_used tab tok = true.
Proof.
  intros Hl Hi He.
  destruct (decide (Exists (fun t => token_can_be_used tab t = true) (seqZ 1 255))) as [Hx|Hx].
  - apply Exists_exists in Hx as (t & Ht & Hu). apply list_elem_of_In, elem_of_seqZ in Ht. exists t. split; [lia|done].
  - exfalso. apply not_Exists_Forall in Hx; [|intros; apply _].
    assert (Hsub : seqZ 0 256 ⊆+ (token <$> tab)).
    { apply NoDup_submseteq; [apply NoDup_seqZ|]. intros t Ht. apply elem_of_seqZ in Ht.
      apply list_elem_of_fmap. destruct (Z.eq_dec t 0) as [->|].
      - exists e. split; [done|]. by eapply list_elem_of_lookup_2.
      - rewrite Forall_forall in Hx. specialize (Hx t ltac:(apply list_elem_of_In, elem_of_seqZ; lia)).
        apply not_true_iff_false in Hx. cbv beta in Hx. unfold token_can_be_used in Hx.
        apply andb_false_iff in Hx as [Hx|Hx]; [b2p; unfold INVALID_DEFERRED_TOKEN in *; lia|].
        apply not_true_iff_false in Hx. rewrite forallb_forall in Hx.
        destruct (decide (Exists (fun a => token a = t) tab)) as [Hy|Hy].
        + apply Exists_exists in Hy as (a & Ha & <-). apply list_elem_of_In in Ha. by exists a.
        + exfalso. apply Hx. intros a Ha. apply negb_true_iff, Z.eqb_neq. intros Hat.
          apply Hy, Exists_exists. by exists a. }
    apply submseteq_length in Hsub. rewrite length_fmap, length_seqZ in Hsub. unfold lenZ in Hl. lia.
Qed.

Lemma allocate_loop_finds fuel tab first m m' :
  0 <= m <= m' -> m' < 256 -> 255 - m <= Z.of_nat fuel -> byte_range first ->
  token_can_be_used tab (u8 (first + m')) = true ->
  exists tok, allocate_loop fuel tab first (u8 (first + m)) = (tok, tok) /\ byte_range tok /\
    token_can_be_used tab tok = true.
Proof.
  revert m. induction fuel as [|n IH]; intros m Hm Hm' Hf Hb Hu; simpl; case_if.
  1, 3: eexists; split; [done|]; split; [apply u8_range|done].
  - assert (m = m') as -> by lia. congruence.
  - destruct (Z.eq_dec m m') as [->|]; [congruence|].
    replace (u8 (u8 (first + m) + 1)) with (u8 (first + (m + 1))) by (unfold u8; dlia).
    destruct (Z.eqb_spec (u8 (first + (m + 1))) first) as [Hx|_]; [unfold u8 in Hx; dlia|].
    apply IH; lia || done.
Qed.

Lemma allocate_token_fresh s i e :
  wf s -> table s !! i = Some e -> token e = INVALID_DEFERRED_TOKEN ->
  exists tok, allocate_token s = (tok, set_current_token s tok) /\ byte_range tok /\
    token_can_be_used (table s) tok = true.
Proof.
  intros [Hl _ _ Hc] Hi He. destruct (token_left (table s) i e ltac:(lia) Hi He) as (t & Ht & Hu).
  unfold allocate_token. set (first := u8 (current_token s + 1)). pose proof (u8_range (current_token s + 1)).
  destruct (allocate_loop_finds token_fuel (table s) first 0 (u8 (t - first))) as (tok & E & Hb & Hk).
  - pose proof (u8_range (t - first)). lia.
  - apply u8_range.
  - unfold token_fuel. lia.
  - done.
  - replace (u8 (first + u8 (t - first))) with t; [done|]. unfold u8 at 1. unfold u8 at 1. dlia.
  - rewrite Z.add_0_r, (u8_id first) in E by done. rewrite E. by exists tok.
Qed.

(** ** The operations

    A deferral takes a free entry and an unused token, and fails when no entry is
    free. *)

Definition free (s : deferred W) : Prop :=
  exists i e, table s !! i = Some e /\ token e = INVALID_DEFERRED_TOKEN.

Definition take (s : deferred W) (i : nat) (tok d cb arg : Z) : deferred W :=
  set_table (set_current_token s tok) (<[i := mk_executor tok (u32 (time s + d)) cb arg]> (table s)).

Lemma find_token (s : deferred W) tok :
  match list_find (fun e => token e = tok) (table s) with
  | Some (i, e) => table s !! i = Some e /\ token e = tok
  | None => forall i e, table s !! i = Some e -> token e <> tok
  end.
Proof.
  destruct (list_find _ _) as [[i e]|] eqn:E.
  - by apply list_find_Some in E as (? & ? & _).
  - intros i e He. apply list_find_None in E. exact (proj1 (Forall_lookup _ _) E _ _ He).
Qed.

Lemma wf_tab s : wf s -> (lenZ (table s) =? 0) = false.
Proof. intros [[]]. apply Z.eqb_neq. lia. Qed.

Lemma defer_takes s d cb arg :
  wf s -> d <> 0 -> cb <> NULL -> free s ->
  exists i e tok, table s !! i = Some e /\ token e = INVALID_DEFERRED_TOKEN /\ byte_range tok /\
    token_can_be_used (table s) tok = true /\
    defer_exec_advanced s d cb arg = (tok, take s i tok d cb arg).
Proof.
  intros Hw Hd Hc (i0 & e0 & Hi0 & He0). unfold defer_exec_advanced.
  rewrite wf_tab by done. rewrite (proj2 (Z.eqb_neq _ _) Hd), (proj2 (Z.eqb_neq _ _) Hc). cbn [orb].
  pose proof (find_token s INVALID_DEFERRED_TOKEN) as Hf.
  destruct (list_find _ _) as [[i e]|]; [|exfalso; by eapply Hf]. destruct Hf as [Hi He].
  destruct (allocate_token_fresh s i e Hw Hi He) as (tok & -> & Hb & Hu).
  exists i, e, tok. do 4 (split; [done|]).
  apply token_can_be_used_spec in Hu as [H0 _]. cbv zeta iota. destruct (Z.eqb_spec tok INVALID_DEFERRED_TOKEN) as [Hx|_]; [done|].
  unfold take. replace (u32 (time s + d)) with (u32 (timer_read32 s + d)) by (unfold timer_read32, u32; dlia). reflexivity.
Qed.

Lemma defer_full s d cb arg :
  wf s -> d = 0 \/ cb = NULL \/ ~ free s -> defer_exec_advanced s d cb arg = (INVALID_DEFERRED_TOKEN, s).
Proof.
  intros Hw H. unfold defer_exec_advanced. case_if; [done|].
  destruct H as [->|[->|H]]; [done..|]. pose proof (find_token s INVALID_DEFERRED_TOKEN) as Hf.
  destruct (list_find _ _) as [[i e]|]; [|done]. exfalso. apply H. by exists i, e.
Qed.

(** What other code does between two passes, the callbacks included. *)
Inductive op : Type :=
| Defer (delay cb arg : Z)
| Extend (tok delay : Z)
| Cancel (tok : Z)
| Pass (ms : Z)
| Become (w : W).

Definition run_op (o : op) (s : deferred W) : deferred W :=
  match o with
  | Defer d cb arg => (defer_exec_advanced s d cb arg).2
  | Extend tok d => (extend_deferred_exec_advanced s tok d).2
  | Cancel tok => (cancel_deferred_exec_advanced s tok).2
  | Pass ms => set_time s (time s + ms)
  | Become w => set_outside s w
  end.

Definition run_ops (os : list op) (s : deferred W) : deferred W := foldl (fun s o => run_op o s) s os.

Definition op_ok (o : op) : Prop := match o with Pass ms => 0 <= ms | _ => True end.

(** [o] neither extends nor cancels [tok]. *)
Definition spares (tok : Z) (o : op) : Prop :=
  match o with Extend t _ => t <> tok | Cancel t => t <> tok | _ => True end.

Lemma wf_take s i e tok d cb arg :
  wf s -> table s !! i = Some e -> cb <> NULL -> byte_range tok -> token_can_be_used (table s) tok = true ->
  wf (take s i tok d cb arg).
Proof.
  intros Hw Hi Hc Hb Hu. apply token_can_be_used_spec in Hu as [H0 Hu].
  assert (Hw' : wf (set_current_token s tok)) by (destruct Hw; by split).
  apply (wf_insert (set_current_token s tok) i _ Hw').
  - split; simpl; [done|apply u32_range|done].
  - intros _ j a _ Ha. by apply (Hu j).
Qed.

Lemma defer_cases s d cb arg : wf s ->
  (defer_exec_advanced s d cb arg = (INVALID_DEFERRED_TOKEN, s)) \/
  exists i e tok, table s !! i = Some e /\ token e = INVALID_DEFERRED_TOKEN /\ cb <> NULL /\ byte_range tok /\
    token_can_be_used (table s) tok = true /\
    defer_exec_advanced s d cb arg = (tok, take s i tok d cb arg).
Proof.
  intros Hw. destruct (Z.eq_dec d 0); [left; apply defer_full; auto|].
  destruct (Z.eq_dec cb NULL); [left; apply defer_full; auto|].
  destruct (decide (Exists (fun e => token e = INVALID_DEFERRED_TOKEN) (table s))) as [Hx|Hx].
  - right. apply list.Exists_exists in Hx as (e & He & H0). apply list_elem_of_lookup in He as [i He].
    destruct (defer_takes s d cb arg) as (i' & e' & tok & ?); [done..|by exists i, e|].
    destruct_and?. by exists i', e', tok.
  - left. apply defer_full; [done|]. right. right. intros (i & e & He & Hn). apply Hx.
    apply list.Exists_exists. exists e. split; [by eapply list_elem_of_lookup_2|done].
Qed.

Lemma run_op_wf o s : wf s -> wf (run_op o s).
Proof.
  intros Hw. destruct o as [d cb arg|tok d|tok|ms|w]; simpl.
  - destruct (defer_cases s d cb arg Hw) as [->|(i & e & tok & ? & ? & ? & ? & ? & ->)]; [done|].
    by eapply wf_take.
  - unfold extend_deferred_exec_advanced. case_if; [done|]. pose proof (find_token s tok) as Hf.
    destruct (list_find _ _) as [[i e]|]; [|done]. destruct Hf as [Hi He]. simpl.
    destruct (wf_entry _ _ _ Hw Hi). apply wf_insert; [done| |].
    + split; simpl; [done|apply u32_range|done].
    + intros Hn j a Hj Ha Heq. apply Hj. simpl in *. apply (wf_named _ Hw j i a e); congruence.
  - unfold cancel_deferred_exec_advanced. case_if; [done|]. pose proof (find_token s tok) as Hf.
    destruct (list_find _ _) as [[i e]|]; [|done]. simpl. apply wf_insert; [done|apply wf_no_executor|done].
  - destruct Hw. by split.
  - destruct Hw. by split.
Qed.

(** Operations that spare a token leave its entry where it is. *)
Lemma run_op_entry o (s : deferred W) i e :
  wf s -> table s !! i = Some e -> token e <> INVALID_DEFERRED_TOKEN -> spares (token e) o ->
  table (run_op o s) !! i = Some e.
Proof.
  intros Hw Hi Hn Hs. destruct o as [d cb arg|tok d|tok|ms|w]; simpl in *; [| | |done..].
  - destruct (defer_cases s d cb arg Hw) as [->|(j & e' & tok & ? & ? & ? & ? & ? & ->)]; [done|]. simpl.
    rewrite list_lookup_insert_ne; [done|]. intros ->. congruence.
  - unfold extend_deferred_exec_advanced. case_if; [done|]. pose proof (find_token s tok) as Hf.
    destruct (list_find _ _) as [[j e']|]; [|done]. destruct Hf as [Hj He]. simpl.
    rewrite list_lookup_insert_ne; [done|]. intros ->. congruence.
  - unfold cancel_deferred_exec_advanced. case_if; [done|]. pose proof (find_token s tok) as Hf.
    destruct (list_find _ _) as [[j e']|]; [|done]. destruct Hf as [Hj He]. simpl.
    rewrite list_lookup_insert_ne; [done|]. intros ->. congruence.
Qed.

(** The log, the time of the last pass and the size of the table are not theirs
    to change, and time does not go back. *)
Record frame (s s' : deferred W) : Prop := mk_frame
  { frame_calls : calls s' = calls s; frame_check : last_deferred_exec_check s' = last_deferred_exec_check s;
    frame_size : lenZ (table s') = lenZ (table s); frame_time : time s <= time s' }.

Lemma run_op_frame o (s : deferred W) : op_ok o -> frame s (run_op o s).
Proof.
  assert (Hi : forall i e, lenZ (<[i := e]> (table s)) = lenZ (table s))
    by (intros; unfold lenZ; by rewrite length_insert).
  intros Ho. destruct o as [d cb arg|tok d|tok|ms|w]; simpl in *; try (by split; simpl; lia || done).
  - unfold defer_exec_advanced, allocate_token. case_if; [by split|].
    destruct (list_find _ _) as [[i e]|]; [|by split]. destruct (allocate_loop _ _ _ _) as [tok cur].
    case_if; by split; simpl; rewrite ?Hi.
  - unfold extend_deferred_exec_advanced. case_if; [by split|].
    destruct (list_find _ _) as [[i e]|]; by split; simpl; rewrite ?Hi.
  - unfold cancel_deferred_exec_advanced. case_if; [by split|].
    destruct (list_find _ _) as [[i e]|]; by split; simpl; rewrite ?Hi.
Qed.

Lemma run_ops_ok os s :
  wf s -> Forall op_ok os ->
  wf (run_ops os s) /\ frame s (run_ops os s) /\
  forall i e, table s !! i = Some e -> token e <> INVALID_DEFERRED_TOKEN -> Forall (spares (token e)) os ->
    table (run_ops os s) !! i = Some e.
Proof.
  revert s. induction os as [|o os IH]; intros s Hw Ho.
  - by split_and!.
  - inversion_clear Ho as [|? ? Ho1 Ho2]. pose proof (run_op_wf o s Hw) as Hw1.
    pose proof (run_op_frame o s Ho1) as [F1 F2 F3 F4]. destruct (IH _ Hw1 Ho2) as (Hw2 & [G1 G2 G3 G4] & He).
    split_and!; [done| |].
    + split; [etrans; [exact G1|exact F1]|etrans; [exact G2|exact F2]|etrans; [exact G3|exact F3]|].
      etrans; [exact F4|exact G4].
    + intros i e Hi H0 Hs. inversion_clear Hs. apply He; try done. by apply run_op_entry.
Qed.

(** ** A pass over the table

    The callbacks do to the table what other code can do: each call of one is a
    sequence of operations, all of which satisfy [P]. *)

Context (invoke : Z -> Z -> Z -> deferred W -> Z * deferred W).

Definition acts (P : op -> Prop) : Prop :=
  forall cb t arg s, exists os, Forall P os /\ (invoke cb t arg s).2 = run_ops os s.

(** [s'] is [s] after some calls. *)
Record later (s s' : deferred W) (cs : list called) : Prop := mk_later
  { later_wf : wf s'; later_calls : calls s' = calls s ++ cs;
    later_check : last_deferred_exec_check s' = last_deferred_exec_check s;
    later_size : lenZ (table s') = lenZ (table s); later_time : time s <= time s' }.

Lemma later_refl s : wf s -> later s s [].
Proof. intros. by split; rewrite ?app_nil_r. Qed.

Lemma later_trans s1 s2 s3 cs ds : later s1 s2 cs -> later s2 s3 ds -> later s1 s3 (cs ++ ds).
Proof.
  intros [A1 A2 A3 A4 A5] [B1 B2 B3 B4 B5].
  split; [done|by rewrite B2, A2, app_assoc|congruence|congruence|lia].
Qed.

Lemma later_insert s s' cs i e :
  later s s' cs -> wf_executor e ->
  (token e <> INVALID_DEFERRED_TOKEN -> forall j a, j <> i -> table s' !! j = Some a -> token a <> token e) ->
  later s (set_table s' (<[i := e]> (table s'))) cs.
Proof.
  intros [A1 A2 A3 A4 A5] He Hn. split; simpl; try done; [by apply wf_insert|].
  rewrite <- A4. unfold lenZ. by rewrite length_insert.
Qed.

Definition call_of (e : deferred_executor_t) : called :=
  mk_called (token e) (callback e) (trigger_time e) (cb_arg e).

Lemma call_back_ok (P : op -> Prop) s e :
  wf s -> acts P -> (forall o, P o -> op_ok o) ->
  later s (call_back invoke e s).2 [call_of e] /\
  forall i a, table s !! i = Some a -> token a <> INVALID_DEFERRED_TOKEN ->
    (forall o, P o -> spares (token a) o) -> table (call_back invoke e s).2 !! i = Some a.
Proof.
  intros Hw Ha Hp. unfold call_back. fold (call_of e).
  destruct (Ha (callback e) (trigger_time e) (cb_arg e) (log_call s (call_of e))) as (os & Hos & ->).
  assert (Hw1 : wf (log_call s (call_of e))) by (destruct Hw; by split).
  destruct (run_ops_ok os _ Hw1) as (Hw2 & [F1 F2 F3 F4] & He); [by eapply Forall_impl|].
  split; [by split|]. intros i a Hi Hn Hs. apply He; [done..|]. by eapply Forall_impl.
Qed.

(** The entry [i] in a pass. When it is called, the others are as the callback
    left them; when it is not, nothing happens. *)
Lemma run_executor_cases P now i s :
  wf s -> acts P -> (forall o, P o -> op_ok o) ->
  let s' := run_executor invoke now i s in
  (s' = s /\ forall e, table s !! Z.to_nat i = Some e -> is_due now e = false) \/
  exists e, table s !! Z.to_nat i = Some e /\ is_due now e = true /\ later s s' [call_of e] /\
    (forall j a, table s !! j = Some a -> j <> Z.to_nat i -> token a <> INVALID_DEFERRED_TOKEN ->
      (forall o, P o -> spares (token a) o) -> table s' !! j = Some a) /\
    ((forall o, P o -> spares (token e) o) -> 0 < (call_back invoke e s).1 ->
      table s' !! Z.to_nat i =
        Some (mk_executor (token e) (u32 (trigger_time e + (call_back invoke e s).1)) (callback e) (cb_arg e))).
Proof.
  intros Hw Ha Hp s'. unfold s', run_executor. destruct (table s !! Z.to_nat i) as [e|] eqn:Hi; [|by left].
  destruct (is_due now e) eqn:Hd; [|left; split; [done|intros ? [= <-]; done]]. right. exists e.
  split; [done|]. split; [done|].
  assert (Hn : token e <> INVALID_DEFERRED_TOKEN) by (unfold is_due in Hd; b2p; done).
  destruct (call_back_ok P s e Hw Ha Hp) as [Hl He]. destruct (call_back invoke e s) as [delay s1]. simpl in *.
  assert (exists e1, table s1 !! Z.to_nat i = Some e1) as [e1 Hi1].
  { apply lookup_lt_is_Some. apply lookup_lt_Some in Hi. pose proof (later_size _ _ _ Hl). unfold lenZ in *. lia. }
  rewrite Hi1. case_if; [|case_if].
  - split_and!; [done|by intros; apply He|]. intros Hs _. exfalso.
    specialize (He _ _ Hi Hn Hs). congruence.
  - split_and!.
    + apply later_insert; [done| |].
      * destruct (wf_entry _ _ _ (later_wf _ _ _ Hl) Hi1). split; simpl; [done|apply u32_range|done].
      * intros Hn1 j a Hj Haj Heq. simpl in *. apply Hj. apply (wf_named _ (later_wf _ _ _ Hl) j (Z.to_nat i) a e1); congruence.
    + intros j a Hj Hji Hna Hs. simpl. rewrite list_lookup_insert_ne by done. by apply He.
    + intros Hs _. simpl. specialize (He _ _ Hi Hn Hs). rewrite Hi1 in He. injection He as ->.
      by rewrite list_lookup_insert_eq by (by eapply lookup_lt_Some).
  - split_and!.
    + apply later_insert; [done|apply wf_no_executor|done].
    + intros j a Hj Hji Hna Hs. simpl. rewrite list_lookup_insert_ne by done. by apply He.
    + intros Hs ?. lia.
Qed.

(** A stretch of a pass that does not reach the entry of [tok]. *)
Definition calls_not (tok : Z) (cs : list called) : Prop := Forall (fun c => called_token c <> tok) cs.

Lemma executors_before P now lo hi s i e :
  wf s -> acts P -> (forall o, P o -> op_ok o /\ spares (token e) o) ->
  table s !! i = Some e -> token e <> INVALID_DEFERRED_TOKEN -> 0 <= lo <= hi ->
  hi <= Z.of_nat i \/ Z.of_nat i < lo ->
  exists cs, let s' := for_Z lo hi (run_executor invoke now) s in
    later s s' cs /\ calls_not (token e) cs /\ table s' !! i = Some e.
Proof.
  intros Hw Ha Hp Hi Hn Hlo Hr. simpl.
  apply (for_Z_inv (run_executor invoke now) (fun _ s' => exists cs,
    later s s' cs /\ calls_not (token e) cs /\ table s' !! i = Some e)); [lia| |].
  - exists []. split_and!; [by apply later_refl|by constructor|done].
  - intros j s1 Hj (cs & Hl & Hc & Hi1). pose proof (later_wf _ _ _ Hl) as Hw1.
    destruct (run_executor_cases P now j s1 Hw1 Ha) as [[-> _]|(e1 & Hj1 & _ & Hl1 & Hkeep & _)];
      [by intros; apply Hp|by exists cs|].
    assert (Hij : i <> Z.to_nat j) by lia.
    exists (cs ++ [call_of e1]). split_and!; [by eapply later_trans| |].
    + apply list.Forall_app. split; [done|]. constructor; [|constructor]. simpl. intros Heq.
      apply Hij. by apply (wf_named _ Hw1 i (Z.to_nat j) e e1).
    + apply Hkeep; try done. intros o Ho. by apply Hp.
Qed.

Lemma executors_later P now lo hi s :
  wf s -> acts P -> (forall o, P o -> op_ok o) -> 0 <= lo <= hi ->
  exists cs, later s (for_Z lo hi (run_executor invoke now) s) cs.
Proof.
  intros Hw Ha Hp Hlo.
  apply (for_Z_inv (run_executor invoke now) (fun _ s' => exists cs, later s s' cs)); [lia| |].
  - exists []. by apply later_refl.
  - intros j s1 Hj (cs & Hl). pose proof (later_wf _ _ _ Hl) as Hw1.
    destruct (run_executor_cases P now j s1 Hw1 Ha Hp) as [[-> _]|(e1 & _ & _ & Hl1 & _)]; [by exists cs|].
    eexists. by eapply later_trans.
Qed.

Section one_token.
Context (tok : Z) (Htok : tok <> INVALID_DEFERRED_TOKEN).

Definition spared (o : op) : Prop := op_ok o /\ spares tok o.

(** [tok] names a callback that is to be called at [T]. *)
Definition pending (cb arg T : Z) (s : deferred W) : Prop :=
  exists i, table s !! i = Some (mk_executor tok (u32 T) cb arg).

Definition a_pass (now : Z) (s : deferred W) : deferred W :=
  for_Z 0 (lenZ (table s)) (run_executor invoke now) s.

Lemma index_in (s : deferred W) i e : table s !! i = Some e -> 0 <= Z.of_nat i < lenZ (table s).
Proof. intros H. apply lookup_lt_Some in H. unfold lenZ. lia. Qed.

Lemma due_time now cb arg T :
  -2147483648 <= T - now < 2147483648 -> is_due (u32 now) (mk_executor tok (u32 T) cb arg) = (T <=? now).
Proof using Htok.
  intros H. unfold is_due. simpl. rewrite timer_diff_s32 by done.
  destruct (Z.eqb_spec tok INVALID_DEFERRED_TOKEN); [done|]. simpl.
  destruct (Z.leb_spec (T - now) 0), (Z.leb_spec T now); lia.
Qed.

Lemma pass_early now s cb arg T :
  wf s -> acts spared -> pending cb arg T s -> now < T -> T - now < 2147483648 ->
  exists cs, later s (a_pass (u32 now) s) cs /\ calls_not tok cs /\ pending cb arg T (a_pass (u32 now) s).
Proof using Htok.
  intros Hw Ha (i & Hi) HT Hd. set (e := mk_executor tok (u32 T) cb arg) in *. pose proof (index_in _ _ _ Hi).
  assert (Hdue : is_due (u32 now) e = false) by (unfold e; rewrite due_time by lia; apply Z.leb_gt; lia).
  unfold a_pass. rewrite (for_Z_split _ 0 (Z.of_nat i)) by lia.
  destruct (executors_before spared (u32 now) 0 (Z.of_nat i) s i e Hw Ha) as (cs & Hl & Hc & Hi1); [done..|lia|lia|].
  rewrite (for_Z_split _ (Z.of_nat i) (Z.of_nat i + 1)) by lia. set (s1 := for_Z 0 _ _ s) in *.
  rewrite (for_Z_first _ (Z.of_nat i) (Z.of_nat i + 1)), (for_Z_done _ (Z.of_nat i + 1) (Z.of_nat i + 1)) by lia. pose proof (later_wf _ _ _ Hl) as Hw1.
  destruct (run_executor_cases spared (u32 now) (Z.of_nat i) s1 Hw1 Ha) as [[-> _]|(e1 & Hi1' & Hx & _)];
    [by intros ? []| |rewrite Nat2Z.id in Hi1'; congruence].
  destruct (executors_before spared (u32 now) (Z.of_nat i + 1) (lenZ (table s)) s1 i e Hw1 Ha)
    as (ds & Hl2 & Hd2 & Hi2); [done..|lia|lia|].
  exists (cs ++ ds). split_and!; [by eapply later_trans|by apply list.Forall_app|by exists i].
Qed.

(** The pass that calls it, and when it is to be called again. *)
Lemma pass_due now s cb arg T :
  wf s -> acts spared -> pending cb arg T s -> T <= now < T + 2147483648 ->
  exists s1 cs ds, later s s1 cs /\ calls_not tok cs /\ pending cb arg T s1 /\
    let c := mk_called tok cb (u32 T) arg in
    let again := (invoke cb (u32 T) arg (log_call s1 c)).1 in
    later s1 (a_pass (u32 now) s) (c :: ds) /\
    (0 < again -> pending cb arg (T + again) (a_pass (u32 now) s)).
Proof using Htok.
  intros Hw Ha (i & Hi) HT. set (e := mk_executor tok (u32 T) cb arg) in *. pose proof (index_in _ _ _ Hi).
  assert (Hdue : is_due (u32 now) e = true) by (unfold e; rewrite due_time by lia; apply Z.leb_le; lia).
  unfold a_pass. rewrite (for_Z_split _ 0 (Z.of_nat i)) by lia.
  destruct (executors_before spared (u32 now) 0 (Z.of_nat i) s i e Hw Ha) as (cs & Hl & Hc & Hi1); [done..|lia|lia|].
  rewrite (for_Z_split _ (Z.of_nat i) (Z.of_nat i + 1)) by lia. set (s1 := for_Z 0 _ _ s) in *.
  rewrite (for_Z_first _ (Z.of_nat i) (Z.of_nat i + 1)), (for_Z_done _ (Z.of_nat i + 1) (Z.of_nat i + 1)) by lia. pose proof (later_wf _ _ _ Hl) as Hw1.
  destruct (run_executor_cases spared (u32 now) (Z.of_nat i) s1 Hw1 Ha) as [[_ Hx]|(e1 & Hi1' & _ & Hl1 & _ & Hg)];
    [by intros ? []|rewrite Nat2Z.id in Hx; by rewrite (Hx _ Hi1) in Hdue|].
  rewrite Nat2Z.id in Hi1', Hg. assert (e1 = e) as -> by congruence.
  set (s2 := run_executor _ _ _ s1) in *. pose proof (later_wf _ _ _ Hl1) as Hw2.
  destruct (executors_later spared (u32 now) (Z.of_nat i + 1) (lenZ (table s)) s2 Hw2 Ha) as (ds & Hl2);
    [by intros ? []|lia|].
  exists s1, cs, ds. split_and!; [done|done|by exists i|exact (later_trans _ _ _ _ _ Hl1 Hl2)|].
  intros Hagain. specialize (Hg ltac:(by intros ? []) Hagain). simpl in Hg.
  destruct (executors_before spared (u32 now) (Z.of_nat i + 1) (lenZ (table s)) s2 i
    (mk_executor tok (u32 (u32 T + (call_back invoke e s1).1)) cb arg) Hw2 Ha)
    as (ds' & _ & _ & Hi2); [done|exact Hg|done|lia|lia|].
  exists i. rewrite Hi2. f_equal. f_equal. unfold call_back. simpl. unfold u32. dlia.
Qed.
End one_token.

(** ** Runs

    The main loop calls the task; between two of its calls other code runs. *)

Inductive event : Type :=
| Do (o : op)
| Task.

Definition run_event (e : event) (s : deferred W) : deferred W :=
  match e with Do o => run_op o s | Task => deferred_exec_task invoke s end.

Definition run (evs : list event) (s : deferred W) : deferred W := foldl (fun s e => run_event e s) s evs.

Definition event_ok (P : op -> Prop) (e : event) : Prop := match e with Do o => P o | Task => True end.

Lemma wf_checked s t : wf s -> wf (set_last_check s t).
Proof. intros []. by split. Qed.

Lemma task_later P s : wf s -> acts P -> (forall o, P o -> op_ok o) ->
  wf (deferred_exec_task invoke s) /\ time s <= time (deferred_exec_task invoke s).
Proof.
  intros Hw Ha Hp. unfold deferred_exec_task, deferred_exec_advanced_task. case_if; [|done].
  destruct (executors_later P (timer_read32 s) 0 (lenZ (table s)) _ (wf_checked s (timer_read32 s) Hw) Ha Hp) as [cs [? _ _ _ ?]];
    [|done]. destruct Hw. lia.
Qed.

Lemma run_event_later P s e : wf s -> acts P -> (forall o, P o -> op_ok o) -> event_ok P e ->
  wf (run_event e s) /\ time s <= time (run_event e s).
Proof.
  intros Hw Ha Hp He. destruct e as [o|]; [|by eapply task_later].
  split; [by apply run_op_wf|]. apply (run_op_frame o s). by apply Hp.
Qed.

Lemma run_later P evs s : wf s -> acts P -> (forall o, P o -> op_ok o) -> Forall (event_ok P) evs ->
  wf (run evs s) /\ time s <= time (run evs s).
Proof.
  intros Hw Ha Hp. revert s Hw. induction evs as [|e evs IH]; intros s Hw He; [done|].
  inversion_clear He as [|? ? He1 He2]. destruct (run_event_later P s e Hw Ha Hp He1) as [Hw1 Ht1].
  destruct (IH _ Hw1 He2) as [Hw2 Ht2]. split; [done|]. unfold run in *. simpl. lia.
Qed.

Lemma basic_executors_wf (w : W) : wf (basic_executors w).
Proof.
  split; [done|by apply Forall_replicate, wf_no_executor| |done].
  intros i j a b Ha Hb _ Hn. apply lookup_replicate in Ha as [-> _]. done.
Qed.

(** A task that comes before the time of the callback. *)
Lemma task_early tok s cb arg T L :
  tok <> INVALID_DEFERRED_TOKEN -> wf s -> acts (spared tok) -> pending tok cb arg T s ->
  last_deferred_exec_check s = u32 L -> L <= time s < T -> T - L < 2147483648 ->
  let s' := deferred_exec_task invoke s in
  exists cs L', calls s' = calls s ++ cs /\ calls_not tok cs /\ pending tok cb arg T s' /\ wf s' /\
    last_deferred_exec_check s' = u32 L' /\ L <= L' <= time s.
Proof.
  intros Htok Hw Ha Hp HL Ht Hd. unfold deferred_exec_task, deferred_exec_advanced_task. rewrite HL.
  unfold timer_read32. rewrite timer_diff_s32 by lia. case_if.
  - destruct (pass_early tok Htok (time s) (set_last_check s (u32 (time s))) cb arg T (wf_checked _ _ Hw) Ha Hp)
      as (cs & [] & Hc & Hp'); [lia..|]. exists cs, (time s). split_and!; done || lia.
  - exists [], L. rewrite app_nil_r. split_and!; try done; try lia. by constructor.
Qed.

Lemma run_early tok evs s cb arg T L :
  tok <> INVALID_DEFERRED_TOKEN -> wf s -> acts (spared tok) -> Forall (event_ok (spared tok)) evs ->
  pending tok cb arg T s -> last_deferred_exec_check s = u32 L -> L <= time s -> L < T ->
  (forall evs0 rest, evs = evs0 ++ Task :: rest -> time (run evs0 s) < T) ->
  T - L < 2147483648 ->
  exists cs L', calls (run evs s) = calls s ++ cs /\ calls_not tok cs /\ pending tok cb arg T (run evs s) /\
    wf (run evs s) /\ last_deferred_exec_check (run evs s) = u32 L' /\ L <= L' <= time (run evs s) /\ L' < T.
Proof.
  intros Htok Hw Ha He. revert s L Hw He. induction evs as [|e evs IH]; intros s L Hw He Hp HL Ht HLT Hev Hd.
  { exists [], L. rewrite app_nil_r. split_and!; try done; lia || by constructor. }
  inversion_clear He as [|? ? He1 He2]. pose proof (run_event_later _ s e Hw Ha ltac:(by intros ? []) He1) as [Hw1 Ht1].
  assert (exists cs L', calls (run_event e s) = calls s ++ cs /\ calls_not tok cs /\ pending tok cb arg T (run_event e s) /\
    last_deferred_exec_check (run_event e s) = u32 L' /\ L <= L' <= time (run_event e s) /\ L' < T)
    as (cs & L1 & C1 & C2 & Hp1 & HL1 & HL2 & HL3).
  { destruct e as [o|]; simpl in *.
    - destruct He1 as [Ho Hs]. destruct (run_op_frame o s Ho). destruct Hp as [i Hi].
      exists [], L. rewrite app_nil_r. split_and!; try done; try lia; [by constructor|].
      exists i. by apply run_op_entry.
    - pose proof (Hev [] evs eq_refl) as HT. unfold run in HT. simpl in HT.
      destruct (task_early tok s cb arg T L) as (cs & L1 & ? & ? & ? & ? & ? & ?); [done..|lia|lia|].
      exists cs, L1. split_and!; try done; lia. }
  destruct (IH _ L1 Hw1 He2 Hp1 HL1) as (ds & L2 & D1 & D2 & Hp2 & Hw2 & HLa & HLb & HLc); [lia|lia| |lia|].
  - intros evs0 rest ->. by apply (Hev (e :: evs0) rest).
  - exists (cs ++ ds), L2. unfold run in *. simpl. rewrite D1, C1, app_assoc.
    split_and!; try done; [by apply list.Forall_app|lia..].
Qed.
End deferred.

(** ** The theorems *)

(** C33: a callback that was deferred is called by the first call of the task that
    comes at its time or later, and by none before. [evs] is anything that
    happens until then: other code and callbacks that defer, extend and cancel
    other tokens, and calls of the task that come too early. At the time [T] or
    later the task calls the callback with [T] as its trigger time, and no other
    callback of that token before it; a callback that asks to be repeated after
    [again] milliseconds is pending again for [T + again], however late the call
    was. The stretch from the last pass before [evs] is shorter than 2^31 ms
    (about 24 days), since times are compared by their 32-bit difference. *)
Theorem deferred_exec_on_time {W} (invoke : Z -> Z -> Z -> deferred W -> Z * deferred W) tok cb arg T L s evs :
  wf s -> tok <> INVALID_DEFERRED_TOKEN -> pending tok cb arg T s ->
  acts invoke (spared tok) -> Forall (event_ok (spared tok)) evs ->
  last_deferred_exec_check s = u32 L -> L <= time s -> L < T ->
  (forall evs0 rest, evs = evs0 ++ Task :: rest -> time (run invoke evs0 s) < T) ->
  T <= time (run invoke evs s) < L + 2147483648 ->
  (exists cs, calls (run invoke evs s) = calls s ++ cs /\ calls_not tok cs) /\
  let c := mk_called tok cb (u32 T) arg in
  let s' := deferred_exec_task invoke (run invoke evs s) in
  exists s1 cs ds, calls s1 = calls (run invoke evs s) ++ cs /\ calls_not tok cs /\
    calls s' = calls s1 ++ c :: ds /\
    let again := (invoke cb (u32 T) arg (log_call s1 c)).1 in
    (0 < again -> pending tok cb arg (T + again) s').
Proof.
  intros Hw Htok Hp Ha He HL Ht HLT Hev HT.
  destruct (run_early invoke tok evs s cb arg T L) as (cs & L' & C1 & C2 & Hp1 & Hw1 & HL1 & HL2 & HL3); [done..|lia|].
  split; [by exists cs|]. intros c s'.
  unfold s', deferred_exec_task, deferred_exec_advanced_task. rewrite HL1. unfold timer_read32.
  rewrite timer_diff_s32 by lia. destruct (Z.ltb_spec 0 (time (run invoke evs s) - L')); [|lia].
  destruct (pass_due invoke tok Htok (time (run invoke evs s)) _ cb arg T (wf_checked _ (u32 (time (run invoke evs s))) Hw1) Ha Hp1)
    as (s1 & ds & es & [] & D1 & _ & [] & Hagain); [lia|].
  by exists s1, ds, es.
Qed.

(** The tokens of the table are the names of its entries, whatever the
    callbacks and the rest of the firmware do through the operations: after any
    run, a deferral with a delay and a callback succeeds exactly when an entry
    is free, and then returns a token that no entry has; its callback is pending
    under that token after the delay. Cancelling a token removes its entry, says
    whether there was one, and leaves the other entries alone. *)
Theorem deferred_tokens_name_entries {W} (invoke : Z -> Z -> Z -> deferred W -> Z * deferred W) evs s :
  wf s -> acts invoke op_ok -> Forall (event_ok op_ok) evs ->
  let s' := run invoke evs s in
  wf s' /\
  (forall d cb arg, d <> 0 -> cb <> NULL ->
    (free s' -> exists tok s1, defer_exec s' d cb arg = (tok, s1) /\ tok <> INVALID_DEFERRED_TOKEN /\
       (forall i e, table s' !! i = Some e -> token e <> tok) /\ pending tok cb arg (time s' + d) s1) /\
    (~ free s' -> defer_exec s' d cb arg = (INVALID_DEFERRED_TOKEN, s'))) /\
  (forall tok, tok <> INVALID_DEFERRED_TOKEN ->
    let '(found, s1) := cancel_deferred_exec s' tok in
    (found = true <-> exists i e, table s' !! i = Some e /\ token e = tok) /\
    (forall i e, table s1 !! i = Some e -> token e <> tok) /\
    (forall i e, table s' !! i = Some e -> token e <> tok -> table s1 !! i = Some e)).
Proof.
  intros Hw Ha He s'. destruct (run_later invoke op_ok evs s Hw Ha) as [Hw' _]; [done..|]. fold s' in Hw'.
  split; [done|]. split.
  - intros d cb arg Hd Hc. split; intros Hf; [|by apply defer_full; auto].
    destruct (defer_takes s' d cb arg Hw' Hd Hc Hf) as (i & e & tok & Hi & _ & _ & Hu & E).
    apply token_can_be_used_spec in Hu as [Hn Hu]. exists tok. eexists. split_and!; [exact E|done|done|].
    exists i. simpl. apply list_lookup_insert_eq. by eapply lookup_lt_Some.
  - intros tok Htok. unfold cancel_deferred_exec, cancel_deferred_exec_advanced. rewrite wf_tab by done.
    destruct (Z.eqb_spec tok INVALID_DEFERRED_TOKEN); [done|]. simpl. pose proof (find_token s' tok) as Hf.
    destruct (list_find _ _) as [[i e]|].
    + destruct Hf as [Hi Het]. split_and!; [split; [by exists i, e|done]| |].
      * intros j a Hj Heq. simpl in Hj. apply list_lookup_insert_Some in Hj as [(-> & <- & _)|[Hij Hj]];
          [by apply Htok|]. apply Hij. apply (wf_named _ Hw' i j e a); congruence.
      * intros j a Hj Hat. simpl. rewrite list_lookup_insert_ne; [done|]. intros ->. congruence.
    + split_and!; [|done..]. split; [done|]. intros (i & e & Hi & Het). exfalso. by eapply Hf.
Qed.

(** ** An example

    Callback 1 repeats every 500 ms; callback 2 defers callback 1 by 300 ms. *)

Module DeferredExample.
Definition invoke (cb t arg : Z) (s : deferred unit) : Z * deferred unit :=
  if cb =? 1 then (500, s)
  else if cb =? 2 then (0, (defer_exec s 300 1 arg).2)
  else (0, s).

Lemma invoke_acts P : (forall arg, P (Defer 300 1 arg)) -> acts invoke P.
Proof.
  intros HP cb t arg s. unfold invoke. case_if; [by exists []|]. case_if; [|by exists []].
  exists [Defer 300 1 arg]. split; [|done]. by constructor.
Qed.

(** Ten milliseconds after the start, callbacks 1 and 2 are deferred. *)
Definition start : deferred unit :=
  run invoke [Do (Pass 10); Task; Do (Defer 100 1 7); Do (Defer 40 2 8)] (basic_executors tt).

Definition meanwhile : list (event (W := unit)) := [Do (Pass 50); Task; Do (Extend 2 1000); Do (Pass 80)].

Example calls_made :
  calls (run invoke (meanwhile ++ [Task; Do (Pass 480); Task]) start) =
    [mk_called 2 2 50 8; mk_called 1 1 110 7; mk_called 1 1 610 7; mk_called 3 1 360 8].
Proof. vm_compute. reflexivity. Qed.

Lemma example_start_wf : wf start.
Proof.
  apply (run_later invoke op_ok); [apply basic_executors_wf|by apply invoke_acts|done|by repeat constructor].
Qed.
End DeferredExample.

Lemma deferred_exec_on_time_witness :
  let s := run DeferredExample.invoke DeferredExample.meanwhile DeferredExample.start in
  pending 1 1 7 110 DeferredExample.start /\
  mk_called 1 1 110 7 ∈ calls (deferred_exec_task DeferredExample.invoke s).
Proof.
  intros s. assert (Hp : pending 1 1 7 110 DeferredExample.start) by (exists 0%nat; reflexivity). split; [exact Hp|].
  destruct (deferred_exec_on_time DeferredExample.invoke 1 1 7 110 10 DeferredExample.start DeferredExample.meanwhile)
    as (_ & s1 & cs & ds & _ & _ & E & _).
  - apply DeferredExample.example_start_wf.
  - discriminate.
  - exact Hp.
  - by apply DeferredExample.invoke_acts.
  - by repeat constructor.
  - reflexivity.
  - vm_compute. discriminate.
  - lia.
  - intros evs0 rest He. destruct evs0 as [|e0 [|e1 [|e2 [|e3 evs0]]]]; inversion He; subst; [vm_compute; reflexivity|].
    match goal with E : [] = _ |- _ => destruct evs0; discriminate E end.
  - vm_compute. split; congruence.
  - unfold s. rewrite E. apply elem_of_app. right. left.
Defined.

Lemma deferred_tokens_name_entries_witness :
  let s := run DeferredExample.invoke DeferredExample.meanwhile DeferredExample.start in
  exists tok s1, defer_exec s 20 1 0 = (tok, s1) /\ pending tok 1 0 (time s + 20) s1.
Proof.
  intros s.
  destruct (deferred_tokens_name_entries DeferredExample.invoke DeferredExample.meanwhile DeferredExample.start)
    as (_ & Hd & _).
  - apply DeferredExample.example_start_wf.
  - by apply DeferredExample.invoke_acts.
  - by repeat constructor.
  - destruct (proj1 (Hd 20 1 0 ltac:(discriminate) ltac:(discriminate))) as (tok & s1 & E & _ & _ & Hp).
    + exists 1%nat, no_executor. split; reflexivity.
    + exists tok, s1. split; [exact E|exact Hp].
Defined.

(** A delay of 2^31 ms or more does not delay at all. *)
Lemma long_delay_runs_at_once :
  let s := run DeferredExample.invoke [Do (Pass 10); Do (Defer 2147483648 3 0); Task] (basic_executors tt) in
  calls s = [mk_called 1 3 2147483658 0].
Proof. vm_compute. reflexivity. Qed.
