(* ===== verification/Encoder.v ===== *)
(** Rotary encoders: the event queue of [quantum/encoder.c] and the quadrature
    driver of [drivers/encoder/encoder_quadrature.c]. The build maps encoders to
    keycodes, as Vial does, is not split, and has no default position. *)

From S2P Require Import Prelude.
From S2P Require Import KeymapCommon.
From S2P Require Import Keyboard.

Class EncoderConfig := {
  encoder_count : Z;
  (** [ENCODER_RESOLUTIONS], or [ENCODER_RESOLUTION] for all. *)
  encoder_resolution : Z -> Z;
  ENCODER_DIRECTION_FLIP : bool;
  ENCODER_MAP_KEY_DELAY : Z;
}.
Class EncoderConfigOk (cfg : EncoderConfig) : Prop := {
  encoder_count_ok : 0 <= encoder_count <= 127;
  encoder_resolution_ok : forall i, 0 <= i < encoder_count -> 1 <= encoder_resolution i <= 127;
}.

(** What the code that makes key events sees of the firmware: [action_exec],
    [timer_read] and [wait_ms]. *)
Class EventHost (W : Type) := {
  exec : keyevent_t -> W -> W;
  read_time : W -> Z;
  delay : Z -> W -> W;
}.
(** A host that also notes the events, the latest first. *)
#[export] Instance logging {W} (h : EventHost W) : EventHost (W * list keyevent_t) := {
  exec e w := (exec e w.1, e :: w.2);
  read_time w := read_time w.1;
  delay ms w := (delay ms w.1, w.2);
}.

Record encoder_event_t := mk_enc_event { enc_index : Z; enc_clockwise : bool }.
#[export] Instance encoder_event_inhabited : Inhabited encoder_event_t := populate (mk_enc_event 0 false).
Record encoder_events_t := mk_enc_events {
  enqueued : Z;
  dequeued : Z;
  enc_head : Z;
  enc_tail : Z;
  enc_queue : list encoder_event_t;
}.

(** The statics of both files. *)
Record encoder_st := mk_encoders {
  encoder_events : encoder_events_t;
  signal_queue_drain : bool;
  encoder_state : list Z;
  encoder_pulses : list Z;
}.

Definition i8 (z : Z) : Z := (z + 128) mod 256 - 128.
Definition encoder_LUT : list Z := [0; -1; 1; 0; 1; 0; 0; -1; -1; 0; 0; 1; 0; 1; -1; 0].

Section encoder.
Context {W : Type} {host : EventHost W} {cfg : EncoderConfig}.
Implicit Types (w : W) (s : encoder_st) (q : encoder_events_t).

Definition MAX_QUEUED_ENCODER_EVENTS : Z := Z.max 4 (encoder_count + 1).
Definition ENCODER_CLOCKWISE : bool := negb ENCODER_DIRECTION_FLIP.
Definition ENCODER_COUNTER_CLOCKWISE : bool := ENCODER_DIRECTION_FLIP.
Definition MAKE_ENCODER_EVENT (clockwise : bool) (index : Z) (press : bool) (now : Z) : keyevent_t :=
  if clockwise then mk_event (mk_key index KEYLOC_ENCODER_CW) now ENCODER_CW_EVENT press
  else mk_event (mk_key index KEYLOC_ENCODER_CCW) now ENCODER_CCW_EVENT press.

(** ** The queue *)

Definition encoder_queue_full_advanced q : bool := enc_tail q =? (enc_head q + 1) mod MAX_QUEUED_ENCODER_EVENTS.
Definition encoder_queue_empty_advanced q : bool := enc_head q =? enc_tail q.

Definition encoder_queue_event_advanced q (index : Z) (clockwise : bool) : bool * encoder_events_t :=
  if encoder_queue_full_advanced q then (false, q)
  else (true, mk_enc_events (u8 (enqueued q + 1)) (dequeued q) ((enc_head q + 1) mod MAX_QUEUED_ENCODER_EVENTS) (enc_tail q)
                (<[Z.to_nat (enc_head q) := mk_enc_event (index .& 127) clockwise]> (enc_queue q))).

Definition encoder_dequeue_event_advanced q : option (Z * bool) * encoder_events_t :=
  if encoder_queue_empty_advanced q then (None, q)
  else
    let event := enc_queue q !!! Z.to_nat (enc_tail q) in
    (Some (enc_index event, enc_clockwise event),
     mk_enc_events (enqueued q) (u8 (dequeued q + 1)) (enc_head q) ((enc_tail q + 1) mod MAX_QUEUED_ENCODER_EVENTS) (enc_queue q)).

Definition set_events q s : encoder_st := mk_encoders q (signal_queue_drain s) (encoder_state s) (encoder_pulses s).
Definition encoder_queue_event (index : Z) (clockwise : bool) s : bool * encoder_st :=
  let '(ok, q) := encoder_queue_event_advanced (encoder_events s) index clockwise in (ok, set_events q s).
Definition encoder_dequeue_event s : option (Z * bool) * encoder_st :=
  let '(e, q) := encoder_dequeue_event_advanced (encoder_events s) in (e, set_events q s).
Definition encoder_queue_drain s : encoder_st :=
  let q := encoder_events s in
  set_events (mk_enc_events (enqueued q) (enqueued q) (enc_head q) (enc_head q) (enc_queue q)) s.
Definition encoder_signal_queue_drain s : encoder_st :=
  mk_encoders (encoder_events s) true (encoder_state s) (encoder_pulses s).

(** A detent is a key that is pressed and released. *)
Definition encoder_tap (index : Z) (clockwise : bool) w : W :=
  let w := delay ENCODER_MAP_KEY_DELAY (exec (MAKE_ENCODER_EVENT clockwise index true (read_time w)) w) in
  delay ENCODER_MAP_KEY_DELAY (exec (MAKE_ENCODER_EVENT clockwise index false (read_time w)) w).

(** The loop ends when the queue is empty. *)
Fixpoint handle_queue (fuel : nat) (changed : bool) w s : bool * W * encoder_st :=
  match fuel with
  | O => (changed, w, s)
  | S fuel =>
      let '(e, s) := encoder_dequeue_event s in
      match e with
      | None => (changed, w, s)
      | Some (index, clockwise) => handle_queue fuel true (encoder_tap index clockwise w) s
      end
  end.
Definition queue_fuel : nat := S (Z.to_nat MAX_QUEUED_ENCODER_EVENTS).
Definition encoder_handle_queue w s : bool * W * encoder_st := handle_queue queue_fuel false w s.

(** ** The driver *)

Definition set_pulses (i p : Z) s : encoder_st :=
  mk_encoders (encoder_events s) (signal_queue_drain s) (encoder_state s) (updZ (encoder_pulses s) i p).
Definition encoder_handle_state_change (index state : Z) s : encoder_st :=
  let resolution := encoder_resolution index in
  let s := set_pulses index (i8 (nthZ (encoder_pulses s) index + nthZ encoder_LUT (state .& 0xF))) s in
  let s := if resolution <=? nthZ (encoder_pulses s) index then (encoder_queue_event index ENCODER_COUNTER_CLOCKWISE s).2 else s in
  let s := if nthZ (encoder_pulses s) index <=? - resolution then (encoder_queue_event index ENCODER_CLOCKWISE s).2 else s in
  set_pulses index (i8 (Z.rem (nthZ (encoder_pulses s) index) resolution)) s.

Definition encoder_quadrature_handle_read (index pin_a_state pin_b_state : Z) s : encoder_st :=
  let state := u8 (pin_a_state .| (pin_b_state << 1)) in
  if negb (nthZ (encoder_state s) index .& 0x3 =? state) then
    let s := mk_encoders (encoder_events s) (signal_queue_drain s)
      (updZ (encoder_state s) index (u8 (nthZ (encoder_state s) index << 2) .| state)) (encoder_pulses s) in
    encoder_handle_state_change index (nthZ (encoder_state s) index) s
  else s.

(** [pins] are what the pads of each encoder read. *)
Definition encoder_driver_task (pins : Z -> Z * Z) s : encoder_st :=
  for_Z 0 encoder_count (fun i => encoder_quadrature_handle_read i (pins i).1 (pins i).2) s.

Definition encoder_init (pins : Z -> Z * Z) : encoder_st :=
  mk_encoders (mk_enc_events 0 0 0 0 (replicate (Z.to_nat MAX_QUEUED_ENCODER_EVENTS) inhabitant)) false
    (map (fun i => (pins i).1 .| ((pins i).2 << 1)) (seqZ 0 encoder_count)) (memset 0 encoder_count).

Definition encoder_task (should_process_encoder : bool) (pins : Z -> Z * Z) w s : bool * W * encoder_st :=
  let s :=
    if signal_queue_drain s
    then encoder_queue_drain (mk_encoders (encoder_events s) false (encoder_state s) (encoder_pulses s)) else s in
  let s := encoder_driver_task pins s in
  if should_process_encoder then encoder_handle_queue w s else (false, w, s).
End encoder.
