(* ===== verification/EncoderProofs.v ===== *)
(** What rotary encoders do: every step of the shaft is counted, and every
    detent is one key press and release. *)

From S2P Require Import Prelude.
From S2P Require Import KeymapCommon.
From S2P Require Import Keyboard.
From S2P Require Import Encoder.

Section proofs.
Context {W : Type} {host : EventHost W} {cfg : EncoderConfig} {ok : EncoderConfigOk cfg}.
Implicit Types (w : W) (s : encoder_st) (q : encoder_events_t) (l : list (Z * bool)).

(** ** The queue is a list *)

#[local] Abbreviation MAX := MAX_QUEUED_ENCODER_EVENTS.

Lemma mod_wrap m z : 0 <= z < 2 * m -> z mod m = if z <? m then z else z - m.
Proof using.
  intros Hz. destruct (Z.ltb_spec z m); [apply Z.mod_small; lia|]. symmetry. apply Z.mod_unique with 1; lia.
Qed.
Lemma mod_shift m t k k' : 0 <= t < m -> 0 <= k < m -> 0 <= k' < m -> (t + k) mod m = (t + k') mod m -> k = k'.
Proof using. intros. rewrite !mod_wrap in * by lia. destruct (Z.ltb_spec (t + k) m), (Z.ltb_spec (t + k') m); lia. Qed.

Record ring l q : Prop := {
  ring_size : length (enc_queue q) = Z.to_nat MAX;
  ring_tail : 0 <= enc_tail q < MAX;
  ring_head : enc_head q = (enc_tail q + lenZ l) mod MAX;
  ring_short : lenZ l < MAX;
  ring_at : forall k e, l !! k = Some e ->
    enc_queue q !!! Z.to_nat ((enc_tail q + Z.of_nat k) mod MAX) = mk_enc_event e.1 e.2;
}.

Lemma MAX_pos : 4 <= MAX.
Proof using. unfold MAX. lia. Qed.

Lemma ring_empty l q : ring l q -> encoder_queue_empty_advanced q = bool_decide (l = []).
Proof using.
  intros [_ Ht Hh Hs _]. unfold encoder_queue_empty_advanced. rewrite Hh. pose proof MAX_pos. pose proof (lenZ_nonneg l).
  destruct l as [|e l]; [by rewrite lenZ_nil, Z.add_0_r, Z.mod_small, Z.eqb_refl by lia|].
  rewrite lenZ_cons in *. pose proof (lenZ_nonneg l). rewrite bool_decide_eq_false_2 by done. apply Z.eqb_neq.
  rewrite mod_wrap by lia. destruct (Z.ltb_spec (enc_tail q + (1 + lenZ l)) MAX); lia.
Qed.
Lemma steps_ring_full l q : ring l q -> lenZ l + 1 < MAX -> encoder_queue_full_advanced q = false.
Proof using.
  intros [_ Ht Hh _ _] Hs. unfold encoder_queue_full_advanced. rewrite Hh. pose proof MAX_pos. pose proof (lenZ_nonneg l).
  apply Z.eqb_neq. rewrite Zplus_mod_idemp_l.
  rewrite mod_wrap by lia. destruct (Z.ltb_spec (enc_tail q + lenZ l + 1) MAX); lia.
Qed.

Lemma ring_enqueue l q index clockwise : ring l q -> lenZ l + 1 < MAX -> 0 <= index <= 127 ->
  exists q', encoder_queue_event_advanced q index clockwise = (true, q') /\ ring (l ++ [(index, clockwise)]) q'.
Proof using.
  intros Hr Hs Hi. unfold encoder_queue_event_advanced. rewrite (steps_ring_full l) by done. eexists. split; [done|].
  pose proof MAX_pos. pose proof (lenZ_nonneg l). destruct Hr as [Hz Ht Hh _ Ha].
  assert (Hhr : 0 <= enc_head q < MAX) by (rewrite Hh; apply Z.mod_pos_bound; lia).
  constructor; cbn [enc_queue enc_tail enc_head].
  - by rewrite length_insert.
  - done.
  - rewrite Hh, lenZ_app, lenZ_cons, lenZ_nil, Zplus_mod_idemp_l. f_equal. lia.
  - rewrite lenZ_app, lenZ_cons, lenZ_nil. lia.
  - intros k e Hk. apply lookup_app_Some in Hk as [Hk|[Hlen Hk]].
    + pose proof (lookup_lt_Some _ _ _ Hk). rewrite list_lookup_total_insert_ne; [by apply Ha|].
      rewrite Hh. unfold lenZ in *. intros E. apply Z2Nat.inj in E; [|apply Z.mod_pos_bound; lia|apply Z.mod_pos_bound; lia].
      apply mod_shift in E; lia.
    + assert (k = length l) as -> by (apply lookup_lt_Some in Hk; cbn in Hk; lia). rewrite Nat.sub_diag in Hk.
      injection Hk as <-. fold (lenZ l). rewrite <- Hh. rewrite list_lookup_total_insert_eq by (rewrite Hz; lia).
      cbn. f_equal. change 127 with (Z.ones 7). rewrite Z.land_ones by done. apply Z.mod_small. change (2 ^ 7) with 128. lia.
Qed.

Lemma ring_dequeue e l q : ring (e :: l) q ->
  exists q', encoder_dequeue_event_advanced q = (Some e, q') /\ ring l q'.
Proof using.
  intros Hr. unfold encoder_dequeue_event_advanced. rewrite (ring_empty _ _ Hr), bool_decide_eq_false_2 by done.
  destruct Hr as [Hz Ht Hh Hs Ha]. rewrite lenZ_cons in *. pose proof MAX_pos. pose proof (lenZ_nonneg l).
  assert (He := Ha 0%nat e eq_refl). rewrite Z.add_0_r, Z.mod_small in He by lia. rewrite He. cbn [enc_index enc_clockwise].
  eexists. split; [by destruct e|]. constructor; cbn [enc_queue enc_tail enc_head].
  - done.
  - apply Z.mod_pos_bound. lia.
  - rewrite Hh, Zplus_mod_idemp_l. f_equal. lia.
  - lia.
  - intros k e' Hk. rewrite Zplus_mod_idemp_l. specialize (Ha (S k) e' Hk). rewrite <- Ha. do 2 f_equal. f_equal. lia.
Qed.

(** ** Handling the queue *)

Definition taps l w : W := foldl (fun w e => encoder_tap e.1 e.2 w) w l.

Lemma handle_all l : forall fuel changed w s, ring l (encoder_events s) -> (length l < fuel)%nat ->
  exists q, handle_queue fuel changed w s = (changed || negb (bool_decide (l = [])), taps l w, set_events q s) /\ ring [] q.
Proof using.
  induction l as [|e l IH]; intros [|fuel] changed w s Hr Hf; cbn in Hf; try lia; cbn [handle_queue].
  - unfold encoder_dequeue_event, encoder_dequeue_event_advanced. rewrite (ring_empty _ _ Hr), bool_decide_eq_true_2 by done.
    cbn [negb]. rewrite orb_false_r. by exists (encoder_events s).
  - destruct (ring_dequeue _ _ _ Hr) as (q & Eq & Hr'). unfold encoder_dequeue_event. rewrite Eq. destruct e as [i c].
    destruct (IH fuel true (encoder_tap i c w) (set_events q s) Hr' ltac:(lia)) as (q' & -> & Hq').
    exists q'. split; [|done]. by rewrite orb_true_r.
Qed.
Lemma handle_queue_all l w s : ring l (encoder_events s) ->
  exists q, encoder_handle_queue w s = (negb (bool_decide (l = [])), taps l w, set_events q s) /\ ring [] q.
Proof using.
  intros Hr. destruct (handle_all l queue_fuel false w s Hr) as (q & E & Hq); [|by exists q].
  pose proof (ring_short _ _ Hr). unfold queue_fuel, lenZ in *. lia.
Qed.

(** ** One step of the shaft *)

(** The pads at a position of the shaft, and as a number. *)
Definition gray (p : Z) : Z := let r := p mod 4 in if r =? 0 then 0 else if r =? 1 then 2 else if r =? 2 then 3 else 1.
Definition pads (p : Z) : Z * Z := (gray p .& 1, gray p >> 1).

(** The pulses after a step from [x], and the detent it completes, by its
    direction. *)
Definition detent (resolution x : Z) : list bool :=
  if x =? resolution then [ENCODER_COUNTER_CLOCKWISE] else if x =? - resolution then [ENCODER_CLOCKWISE] else [].

Lemma gray_cases p : exists r, (r = 0 \/ r = 1 \/ r = 2 \/ r = 3) /\ p mod 4 = r.
Proof using. exists (p mod 4). split; [dlia|done]. Qed.

Lemma gray_step p p' : Z.abs (p' - p) <= 1 ->
  0 <= gray p < 4 /\ u8 ((pads p).1 .| ((pads p).2 << 1)) = gray p
  /\ (gray p =? gray p') = (p =? p') /\ (p <> p' -> nthZ encoder_LUT (gray p * 4 + gray p') = p' - p).
Proof using.
  intros Hd. assert (Hc : p' = p \/ p' = p + 1 \/ p' = p - 1) by lia. unfold pads, gray. cbn [fst snd].
  destruct (gray_cases p) as (r & Hr & Er).
  assert (Ep : p' mod 4 = r /\ p' = p \/ p' mod 4 = (r + 1) mod 4 /\ p' = p + 1 \/ p' mod 4 = (r + 3) mod 4 /\ p' = p - 1) by dlia.
  rewrite Er. destruct Ep as [[-> ->]|[[-> ->]|[-> ->]]]; destruct Hr as [->|[->|[->| ->]]]; cbv zeta;
    repeat match goal with |- context [(?a + ?b) mod 4] => let x := eval vm_compute in ((a + b) mod 4) in change ((a + b) mod 4) with x end;
    cbn;
    (split; [lia|]); (split; [reflexivity|]);
    (split; [symmetry; first [apply Z.eqb_refl|apply Z.eqb_neq; lia]|intros; try done;
      match goal with |- ?a = _ => let x := eval vm_compute in a in change a with x end; lia]).
Qed.

(** The two bits of the pads enter the history of an encoder. *)
Lemma state_bits z g : 0 <= g < 4 ->
  (u8 (z << 2) .| g) .& 0x3 = g /\ (u8 (z << 2) .| g) .& 0xF = (z .& 0x3) * 4 + g.
Proof using.
  intros Hg. assert (Hu : u8 (z << 2) = (z mod 64) << 2).
  { rewrite !Z.shiftl_mul_pow2 by done. unfold u8. change (2 ^ 2) with 4. dlia. }
  rewrite Hu, lor_add by (done || lia). change 0x3 with (Z.ones 2). change 0xF with (Z.ones 4). rewrite !Z.land_ones by done.
  change (2 ^ 2) with 4. change (2 ^ 4) with 16. dlia.
Qed.

Record sizes s : Prop := {
  size_state : lenZ (encoder_state s) = encoder_count;
  size_pulses : lenZ (encoder_pulses s) = encoder_count;
}.
(** Encoder [i] was last seen at position [p]. *)
Definition at_position (i p : Z) s : Prop :=
  nthZ (encoder_state s) i .& 0x3 = gray p /\ Z.abs (nthZ (encoder_pulses s) i) < encoder_resolution i.
(** The other encoders are left alone. *)
Definition others (i : Z) s s' : Prop :=
  forall j, j <> i -> nthZ (encoder_state s') j = nthZ (encoder_state s) j /\ nthZ (encoder_pulses s') j = nthZ (encoder_pulses s) j.

(** The turns of detents: one way and the other. *)
Definition turn (clockwise : bool) : Z := if eqb clockwise ENCODER_COUNTER_CLOCKWISE then 1 else -1.
Definition turns (l : list bool) : Z := foldr (fun c n => turn c + n) 0 l.

Lemma detent_turns resolution x : 1 <= resolution -> Z.abs x <= resolution ->
  resolution * turns (detent resolution x) + Z.rem x resolution = x /\ Z.abs (Z.rem x resolution) < resolution
  /\ lenZ (detent resolution x) <= 1.
Proof using.
  intros Hr Hx. unfold detent, turns, turn, ENCODER_COUNTER_CLOCKWISE, ENCODER_CLOCKWISE.
  assert (Hrem : Z.abs (Z.rem x resolution) < resolution) by (pose proof (Z.rem_bound_abs x resolution); lia).
  assert (He : x = resolution \/ x = - resolution \/ Z.abs x < resolution) by lia. destruct He as [->|[->|He]].
  - rewrite Z.eqb_refl, Z.rem_same by lia. cbn [foldr]. rewrite eqb_reflx. unfold lenZ. cbn. split; lia.
  - rewrite (proj2 (Z.eqb_neq _ _)), Z.eqb_refl, Z.rem_opp_l, Z.rem_same by lia. cbn [foldr].
    assert (E : eqb (negb ENCODER_DIRECTION_FLIP) ENCODER_DIRECTION_FLIP = false) by (by destruct ENCODER_DIRECTION_FLIP).
    rewrite E. unfold lenZ. cbn. split; lia.
  - rewrite !(proj2 (Z.eqb_neq _ _)) by lia. assert (E : Z.rem x resolution = x).
    { destruct (Z.le_ge_cases 0 x); [apply Z.rem_small; lia|]. rewrite <- (Z.opp_involutive x), Z.rem_opp_l, Z.rem_small by lia. done. }
    rewrite E. unfold lenZ. cbn. split; lia.
Qed.

Lemma queue_detent i c l s : ring l (encoder_events s) -> lenZ l + 1 < MAX -> 0 <= i < encoder_count ->
  exists q, (encoder_queue_event i c s).2 = set_events q s /\ ring (l ++ [(i, c)]) q.
Proof using ok.
  intros Hr Hs Hi. pose proof encoder_count_ok. unfold encoder_queue_event.
  destruct (ring_enqueue l _ i c Hr Hs ltac:(lia)) as (q & -> & Hq). by exists q.
Qed.

Lemma change_step i state x l s : sizes s -> 0 <= i < encoder_count -> ring l (encoder_events s) -> lenZ l + 1 < MAX ->
  nthZ (encoder_pulses s) i + nthZ encoder_LUT (state .& 0xF) = x -> Z.abs x <= encoder_resolution i ->
  exists q, encoder_handle_state_change i state s = set_pulses i (Z.rem x (encoder_resolution i)) (set_events q s)
    /\ ring (l ++ map (pair i) (detent (encoder_resolution i) x)) q.
Proof using ok.
  intros Hsz Hi Hr Hs Hx Hb. pose proof (encoder_resolution_ok i Hi) as Hres.
  destruct (detent_turns (encoder_resolution i) x (proj1 Hres) Hb) as (_ & Hrem & _).
  unfold encoder_handle_state_change. cbv zeta. rewrite Hx.
  assert (Hi8 : forall z, Z.abs z <= 127 -> i8 z = z) by (intros z Hz; unfold i8; dlia). rewrite (Hi8 x) by lia.
  set (s1 := set_pulses i x s).
  assert (Hp : nthZ (encoder_pulses s1) i = x) by (unfold s1; cbn; apply nthZ_updZ_eq; rewrite size_pulses by done; lia).
  assert (Hend : forall q, set_pulses i (i8 (Z.rem x (encoder_resolution i))) (set_events q s1)
                           = set_pulses i (Z.rem x (encoder_resolution i)) (set_events q s)).
  { intros q. rewrite Hi8 by lia. unfold s1, set_pulses. cbn. by rewrite updZ_updZ. }
  rewrite Hp. unfold detent.
  assert (Hc : (x = encoder_resolution i /\ (encoder_resolution i <=? x) = true /\ (x <=? - encoder_resolution i) = false)
    \/ (x = - encoder_resolution i /\ (encoder_resolution i <=? x) = false /\ (x <=? - encoder_resolution i) = true)
    \/ (Z.abs x < encoder_resolution i /\ (encoder_resolution i <=? x) = false /\ (x <=? - encoder_resolution i) = false))
    by (rewrite !Z.leb_le, !Z.leb_gt; lia).
  destruct Hc as [(E & L1 & L2)|[(E & L1 & L2)|(E & L1 & L2)]].
  - rewrite L1. destruct (queue_detent i ENCODER_COUNTER_CLOCKWISE l s1 Hr Hs Hi) as (q & -> & Hq).
    assert (Hq1 : nthZ (encoder_pulses (set_events q s1)) i = x) by exact Hp. rewrite Hq1, L2, Hq1.
    rewrite (proj2 (Z.eqb_eq x _) E). exists q. split; [exact (Hend q)|exact Hq].
  - rewrite L1, Hp, L2. destruct (queue_detent i ENCODER_CLOCKWISE l s1 Hr Hs Hi) as (q & -> & Hq).
    assert (Hq1 : nthZ (encoder_pulses (set_events q s1)) i = x) by exact Hp. rewrite Hq1.
    rewrite (proj2 (Z.eqb_neq x (encoder_resolution i))), (proj2 (Z.eqb_eq x _) E) by lia. exists q. split; [exact (Hend q)|exact Hq].
  - rewrite L1, Hp, L2. rewrite Hp, !(proj2 (Z.eqb_neq x _)) by lia. exists (encoder_events s). split; [|by rewrite app_nil_r].
    exact (Hend (encoder_events s)).
Qed.

Lemma read_step i p p' l s : sizes s -> 0 <= i < encoder_count -> at_position i p s -> Z.abs (p' - p) <= 1 ->
  ring l (encoder_events s) -> lenZ l + 1 < MAX ->
  let s' := encoder_quadrature_handle_read i (pads p').1 (pads p').2 s in
  exists out, ring (l ++ map (pair i) out) (encoder_events s') /\ lenZ out <= 1
    /\ sizes s' /\ at_position i p' s' /\ others i s s' /\ signal_queue_drain s' = signal_queue_drain s
    /\ encoder_resolution i * turns out + nthZ (encoder_pulses s') i = nthZ (encoder_pulses s) i + (p' - p).
Proof using ok.
  intros Hsz Hi [Hst Hpu] Hd Hr Hs s'. destruct (gray_step p p' Hd) as (Hg & _ & He & Hlut).
  destruct (gray_step p' p' ltac:(lia)) as (Hg' & Hpads & _). pose proof (encoder_resolution_ok i Hi) as Hres.
  unfold s', encoder_quadrature_handle_read. cbv zeta. rewrite Hpads, Hst, He. destruct (Z.eqb_spec p p') as [<-|Hne]; cbn [negb].
  - exists []. rewrite app_nil_r. split_and!; [done|by unfold lenZ|done|by split|by intros j _|done|]. cbn. lia.
  - set (state := u8 (nthZ (encoder_state s) i << 2) .| gray p').
    destruct (state_bits (nthZ (encoder_state s) i) (gray p') Hg') as [B1 B2]. fold state in B1, B2. rewrite Hst in B2.
    set (s1 := mk_encoders _ _ _ _).
    assert (Hs1 : nthZ (encoder_state s1) i = state) by (unfold s1; cbn; apply nthZ_updZ_eq; rewrite size_state by done; lia).
    assert (Hz1 : sizes s1) by (destruct Hsz; constructor; cbn; by rewrite ?lenZ_updZ).
    set (x := nthZ (encoder_pulses s) i + (p' - p)).
    destruct (change_step i state x l s1 Hz1 Hi Hr Hs) as (q & E & Hq);
      [by rewrite B2, Hlut|unfold x; lia|].
    rewrite Hs1, E. destruct (detent_turns (encoder_resolution i) x (proj1 Hres) ltac:(unfold x; lia)) as (T1 & T2 & T3).
    assert (Hp : nthZ (updZ (encoder_pulses s) i (Z.rem x (encoder_resolution i))) i = Z.rem x (encoder_resolution i))
      by (apply nthZ_updZ_eq; rewrite size_pulses by done; lia).
    exists (detent (encoder_resolution i) x). split_and!; [exact Hq|exact T3| |split| |done|].
    + destruct Hsz. constructor; cbn; by rewrite lenZ_updZ.
    + cbn. change (nthZ (encoder_state s1) i .& 0x3 = gray p'). by rewrite Hs1.
    + cbn. by rewrite Hp.
    + intros j Hj. cbn. by rewrite !nthZ_updZ_ne.
    + cbn. rewrite Hp. exact T1.
Qed.

(** ** A reading of all encoders *)

(** The detents of encoder [i] in a list. *)
Definition detents_of (i : Z) l : list bool := omap (fun e => if e.1 =? i then Some e.2 else None) l.
Lemma detents_app i l1 l2 : detents_of i (l1 ++ l2) = detents_of i l1 ++ detents_of i l2.
Proof using. apply omap_app. Qed.
Lemma detents_pair i j out : detents_of i (map (pair j) out) = if j =? i then out else [].
Proof using. unfold detents_of. induction out as [|c out IH]; cbn; [by case_if|]. destruct (j =? i); [by f_equal|done]. Qed.
Lemma turns_app d1 d2 : turns (d1 ++ d2) = turns d1 + turns d2.
Proof using. induction d1 as [|c d1 IH]; cbn [app turns foldr]; [done|]. unfold turns in *. lia. Qed.

(** All encoders at their positions. *)
Definition all_at (p : Z -> Z) s : Prop := sizes s /\ forall i, 0 <= i < encoder_count -> at_position i (p i) s.

Lemma driver_step p p' s : all_at p s -> (forall i, 0 <= i < encoder_count -> Z.abs (p' i - p i) <= 1) ->
  ring [] (encoder_events s) ->
  let s' := encoder_driver_task (fun i => pads (p' i)) s in
  exists l, ring l (encoder_events s') /\ all_at p' s' /\ signal_queue_drain s' = signal_queue_drain s
    /\ forall i, 0 <= i < encoder_count ->
        encoder_resolution i * turns (detents_of i l) + nthZ (encoder_pulses s') i = nthZ (encoder_pulses s) i + (p' i - p i).
Proof using ok.
  intros [Hsz Hat] Hd Hr s'. pose proof encoder_count_ok as Hc.
  set (P n t := exists l, ring l (encoder_events t) /\ lenZ l <= n /\ sizes t /\ signal_queue_drain t = signal_queue_drain s
    /\ (forall i, 0 <= i < n -> at_position i (p' i) t
          /\ encoder_resolution i * turns (detents_of i l) + nthZ (encoder_pulses t) i = nthZ (encoder_pulses s) i + (p' i - p i))
    /\ (forall i, n <= i < encoder_count -> at_position i (p i) t /\ detents_of i l = []
          /\ nthZ (encoder_pulses t) i = nthZ (encoder_pulses s) i)).
  assert (HP : P encoder_count s').
  { unfold s', encoder_driver_task. apply (for_Z_inv _ P); [lia| |].
    - exists []. split_and!; [done|by unfold lenZ|done|done|intros; lia|]. intros i Hi. split_and!; [by apply Hat|done|done].
    - intros n t Hn (l & R & L & Z & S & A & B). destruct (B n ltac:(lia)) as (Bn & Dn & Pn).
      assert (Hroom : lenZ l + 1 < MAX) by (unfold MAX_QUEUED_ENCODER_EVENTS; lia).
      destruct (read_step n (p n) (p' n) l t Z ltac:(lia) Bn (Hd n ltac:(lia)) R Hroom) as (out & R' & O & Z' & A' & Oth & S' & T).
      exists (l ++ map (pair n) out). split_and!; [exact R'| |exact Z'|by rewrite S'| |].
      + rewrite lenZ_app. unfold lenZ at 2. rewrite length_map. fold (lenZ out). lia.
      + intros i Hi. rewrite detents_app, turns_app, detents_pair. destruct (Z.eq_dec i n) as [->|Hne].
        * rewrite Dn, Z.eqb_refl. cbn [turns foldr]. split; [done|]. rewrite Pn in T. unfold turns in *. cbn [foldr]. lia.
        * destruct (A i ltac:(lia)) as [Ai Ti]. destruct (Oth i Hne) as [O1 O2]. rewrite (proj2 (Z.eqb_neq n i)) by lia.
          unfold at_position. rewrite O1, O2. split; [exact Ai|]. cbn [turns foldr]. rewrite Z.add_0_r. exact Ti.
      + intros i Hi. destruct (B i ltac:(lia)) as (Bi & Di & Pi). destruct (Oth i ltac:(lia)) as [O1 O2].
        unfold at_position. rewrite O1, O2, detents_app, detents_pair, Di, (proj2 (Z.eqb_neq n i)) by lia. done. }
  destruct HP as (l & H1 & _ & H3 & H4 & H5 & _). exists l. split_and!; [done|split; [done|]|done|]; intros i Hi; by apply H5.
Qed.

(** ** The task *)

Lemma task_step p p' w s : all_at p s -> (forall i, 0 <= i < encoder_count -> Z.abs (p' i - p i) <= 1) ->
  ring [] (encoder_events s) -> signal_queue_drain s = false ->
  exists l s', encoder_task true (fun i => pads (p' i)) w s = (negb (bool_decide (l = [])), taps l w, s')
    /\ all_at p' s' /\ ring [] (encoder_events s') /\ signal_queue_drain s' = false
    /\ forall i, 0 <= i < encoder_count ->
        encoder_resolution i * turns (detents_of i l) + nthZ (encoder_pulses s') i = nthZ (encoder_pulses s) i + (p' i - p i).
Proof using ok.
  intros Hat Hd Hr Hsig. unfold encoder_task. rewrite Hsig.
  destruct (driver_step p p' s Hat Hd Hr) as (l & Hr' & Hat' & Hsig' & Ht). set (s1 := encoder_driver_task _ s) in *.
  destruct (handle_queue_all l w s1 Hr') as (q & -> & Hq). exists l, (set_events q s1). split; [done|].
  destruct Hat' as [[Z1 Z2] A]. split_and!; [split; [by constructor|exact A]|exact Hq|by rewrite <- Hsig, <- Hsig'|exact Ht].
Qed.

Lemma init_at p : all_at p (encoder_init (fun i => pads (p i))) /\ ring [] (encoder_events (encoder_init (fun i => pads (p i)))).
Proof using ok.
  pose proof encoder_count_ok as Hc. pose proof MAX_pos. split; [split; [constructor|]|].
  - cbn. unfold lenZ. rewrite length_map, length_seqZ. lia.
  - cbn. apply lenZ_replicate. lia.
  - intros i Hi. unfold at_position. cbn. rewrite nthZ_memset by lia. split; [|pose proof (encoder_resolution_ok i Hi); lia].
    assert (E : nthZ (map (fun i => (pads (p i)).1 .| ((pads (p i)).2 << 1)) (seqZ 0 encoder_count)) i
                = (pads (p i)).1 .| ((pads (p i)).2 << 1)).
    { rewrite nthZ_lookup by lia. change (map ?f ?l) with (f <$> l). rewrite list_lookup_fmap.
      assert (Hl : seqZ 0 encoder_count !! Z.to_nat i = Some i) by (apply lookup_seqZ; lia). by rewrite Hl. }
    cbn in E. rewrite E. unfold gray. destruct (gray_cases (p i)) as (r & Hr & ->).
    by destruct Hr as [->|[->|[->| ->]]].
  - constructor; cbn [encoder_events encoder_init enc_queue enc_tail enc_head]; rewrite ?lenZ_nil; [|lia| |lia|].
    + by rewrite length_replicate.
    + symmetry. apply Z.mod_small. lia.
    + intros k e Hk. by destruct k.
Qed.
End proofs.

(** ** The session *)

Section session.
Context {W : Type} {host : EventHost W} {cfg : EncoderConfig} {ok : EncoderConfigOk cfg}.

(** The main loop runs the task; [p] are the positions of the shafts. The host
    notes the events. *)
Definition encoder_step (st : (W * list keyevent_t) * encoder_st) (p : Z -> Z) : (W * list keyevent_t) * encoder_st :=
  let '(_, w, s) := encoder_task true (fun i => pads (p i)) st.1 st.2 in (w, s).
Definition encoder_session (w : W) (p0 : Z -> Z) (ps : list (Z -> Z)) : (W * list keyevent_t) * encoder_st :=
  foldl encoder_step ((w, []), encoder_init (fun i => pads (p0 i))) ps.

(** The shafts move by at most one step between two readings. *)
Fixpoint slow (p : Z -> Z) (ps : list (Z -> Z)) : Prop :=
  match ps with
  | [] => True
  | p' :: ps => (forall i, 0 <= i < encoder_count -> Z.abs (p' i - p i) <= 1) /\ slow p' ps
  end.

(** What an event says: the encoder, clockwise or not, press or release. *)
Definition sign_of (e : keyevent_t) : Z * bool * bool :=
  (col (ev_key e), bool_decide (ev_type e = ENCODER_CW_EVENT), ev_pressed e).
Definition press_release (e : Z * bool) : list (Z * bool * bool) := [(e.1, e.2, true); (e.1, e.2, false)].

Lemma taps_log (l : list (Z * bool)) (w : W * list keyevent_t) :
  map sign_of (rev (taps l w).2) = map sign_of (rev w.2) ++ flat_map press_release l.
Proof using.
  revert w. induction l as [|[i c] l IH]; intros w; cbn [taps foldl flat_map]; [by rewrite app_nil_r|].
  unfold taps in IH. rewrite IH. unfold encoder_tap. cbn [delay exec logging fst snd rev].
  rewrite !map_app, <- !app_assoc. by destruct c.
Qed.

Lemma last_cons {A} (x : A) ps d : List.last (x :: ps) d = List.last ps x.
Proof using.
  revert x d. induction ps as [|y ps IH]; intros x d; [done|]. change (List.last (y :: ps) d = List.last (y :: ps) x).
  by rewrite !(IH y).
Qed.

(** C29: encoders count steps. Shafts that move by at most a step between two
    readings, in any way: what the firmware sees is a sequence of presses, each
    followed by its release, of the keys of encoders and directions; for every
    encoder the turns one way less those the other way, times its resolution,
    and the pulses it has counted since are the distance its shaft has moved,
    and the pulses are less than a detent; so a shaft that has moved by a whole
    number of detents has given exactly that number of turns. The queue never
    drops a detent and is empty after every reading. *)
Theorem encoders_count_steps w p0 ps :
  slow p0 ps ->
  let st := encoder_session w p0 ps in
  exists l, map sign_of (rev st.1.2) = flat_map press_release l
    /\ (forall i, 0 <= i < encoder_count ->
        let moved := List.last ps p0 i - p0 i in
        encoder_resolution i * turns (detents_of i l) + nthZ (encoder_pulses st.2) i = moved
        /\ Z.abs (nthZ (encoder_pulses st.2) i) < encoder_resolution i
        /\ (forall n, moved = n * encoder_resolution i -> turns (detents_of i l) = n))
    /\ encoder_queue_empty_advanced (encoder_events st.2) = true.
Proof using ok.
  intros Hslow st. destruct (init_at p0) as [Hat Hr].
  assert (H : forall ps p w s, all_at p s -> ring [] (encoder_events s) -> signal_queue_drain s = false -> slow p ps ->
    exists l, let st := foldl encoder_step (w, s) ps in
      map sign_of (rev st.1.2) = map sign_of (rev w.2) ++ flat_map press_release l
      /\ (forall i, 0 <= i < encoder_count ->
           encoder_resolution i * turns (detents_of i l) + nthZ (encoder_pulses st.2) i
             = nthZ (encoder_pulses s) i + (List.last ps p i - p i)
           /\ Z.abs (nthZ (encoder_pulses st.2) i) < encoder_resolution i)
      /\ ring [] (encoder_events st.2)).
  { clear - ok. induction ps as [|p' ps IH]; intros p w s Hat Hr Hsig Hslow.
    - exists []. cbn. rewrite app_nil_r. split_and!; [done| |done]. intros i Hi. destruct Hat as [_ A]. destruct (A i Hi) as [_ Hb].
      unfold turns. cbn. split; [lia|done].
    - destruct Hslow as [Hd Hslow]. destruct (task_step p p' w s Hat Hd Hr Hsig) as (l & s' & E & A & R & S & T).
      destruct (IH p' (taps l w) s' A R S Hslow) as (l' & L & T' & R'). exists (l ++ l'). cbn [foldl]. unfold encoder_step at 2 4 6 8.
      cbn [fst snd]. rewrite E. split_and!; [|intros i Hi|exact R'].
      + rewrite L, taps_log, flat_map_app. by rewrite app_assoc.
      + destruct (T' i Hi) as [T1 T2]. split; [|exact T2]. specialize (T i Hi). rewrite detents_app, turns_app.
        assert (El : List.last (p' :: ps) p i = List.last ps p' i) by (by rewrite last_cons).
        rewrite El. lia. }
  destruct (H ps p0 (w, []) (encoder_init (fun i => pads (p0 i))) Hat Hr eq_refl Hslow) as (l & L & T & R).
  exists l. split_and!; [exact L| |].
  - intros i Hi moved. destruct (T i Hi) as [T1 T2].
    assert (E0 : nthZ (encoder_pulses (encoder_init (fun i => pads (p0 i)))) i = 0) by (cbn; apply nthZ_memset; lia).
    rewrite E0, Z.add_0_l in T1. split_and!; [exact T1|exact T2|]. intros n Hn. fold moved in T1. rewrite Hn in T1.
    change (foldl encoder_step (w, [], encoder_init (fun i => pads (p0 i))) ps) with st in T1, T2. nia.
  - refine (eq_trans (ring_empty _ _ R) _). by apply bool_decide_eq_true_2.
Qed.
End session.

(** ** An example *)

Module EncoderExample.
(** Two encoders with four steps to a detent, and a host that does nothing. *)
#[export] Instance pair_config : EncoderConfig :=
  {| encoder_count := 2; encoder_resolution _ := 4; ENCODER_DIRECTION_FLIP := false; ENCODER_MAP_KEY_DELAY := 0 |}.
#[export] Instance pair_ok : EncoderConfigOk pair_config.
Proof. split; cbn; lia. Qed.
#[export] Instance clock_host : EventHost Z := {| exec _ w := w; read_time w := w; delay ms w := u16 (w + ms) |}.
(** The first shaft turns by a detent and a step, the second wavers. *)
Definition shafts (a b : Z) : Z -> Z := fun i => if i =? 0 then a else b.
Definition turning : list (Z -> Z) := [shafts 1 0; shafts 2 (-1); shafts 3 0; shafts 4 (-1); shafts 5 0].
End EncoderExample.

Section witnesses.
Import EncoderExample.

Lemma encoders_count_steps_witness :
  slow (shafts 0 0) turning
  /\ exists l, map sign_of (rev (encoder_session 0 (shafts 0 0) turning).1.2) = flat_map press_release l
       /\ (encoder_resolution 0 * turns (detents_of 0 l) + nthZ (encoder_pulses (encoder_session 0 (shafts 0 0) turning).2) 0 = 5).
Proof.
  assert (H : slow (shafts 0 0) turning).
  { cbn. repeat split; intros i Hi; unfold shafts; case_if; lia. }
  split; [exact H|]. destruct (encoders_count_steps 0 (shafts 0 0) turning H) as (l & H1 & H2 & _).
  exists l. split; [exact H1|]. assert (Hi : 0 <= 0 < encoder_count) by (cbn; lia). specialize (H2 0 Hi). cbv zeta in H2.
  assert (E : List.last turning (shafts 0 0) 0 - shafts 0 0 0 = 5) by (vm_compute; reflexivity). rewrite E in H2. exact (proj1 H2).
Defined.
End witnesses.
