(* ===== verification/KeyboardTask.v ===== *)
(** The main loop: [quantum/keyboard.c]. It scans the matrix, makes the events
    of the keys that have changed, and runs the tasks of the features. The build
    is not split and has no pointing device and no lighting; the printing of the
    matrix is left out. *)

From S2P Require Import Prelude.
From S2P Require Import Debounce.
From S2P Require Import KeymapCommon.
From S2P Require Import Keyboard.
From S2P Require Import Encoder.

(** The rest of the firmware, and what the build has of it. *)
Class KeyboardHost (W : Type) := {
  event_host : EventHost W;
  (** [timer_read_fast], [sync_timer_read32] *)
  read_time_fast : W -> Z;
  read_time32 : W -> Z;
  (** [keycode_at_keymap_location] on layer 0, by row and column *)
  base_keycode : W -> Z -> Z -> Z;
  matrix_can_read : W -> bool;
  should_process_keypress : W -> bool;
  should_process_encoder : W -> bool;
  MATRIX_HAS_GHOST : bool;
  (** The tasks of [quantum_task], and those of [keyboard_task] after the encoders. *)
  quantum_tasks : list (W -> W);
  late_tasks : list (W -> W);
}.
#[export] Existing Instance event_host.

(** The rest of the firmware noting its events. *)
#[export] Instance logging_host {W} (h : KeyboardHost W) : KeyboardHost (W * list keyevent_t) := {
  event_host := logging event_host;
  read_time_fast w := read_time_fast w.1;
  read_time32 w := read_time32 w.1;
  base_keycode w := base_keycode w.1;
  matrix_can_read w := matrix_can_read w.1;
  should_process_keypress w := should_process_keypress w.1;
  should_process_encoder w := should_process_encoder w.1;
  MATRIX_HAS_GHOST := MATRIX_HAS_GHOST;
  quantum_tasks := map (fun f w => (f w.1, w.2)) quantum_tasks;
  late_tasks := map (fun f w => (f w.1, w.2)) late_tasks;
}.

(** When there was input last. *)
Record activity := mk_activity {
  last_input_modification_time : Z;
  last_matrix_modification_time : Z;
  last_encoder_modification_time : Z;
  last_pointing_device_modification_time : Z;
}.
Definition last_matrix_activity_trigger (now : Z) (a : activity) : activity :=
  mk_activity now now (last_encoder_modification_time a) (last_pointing_device_modification_time a).
Definition last_encoder_activity_trigger (now : Z) (a : activity) : activity :=
  mk_activity now (last_matrix_modification_time a) now (last_pointing_device_modification_time a).
Definition last_pointing_device_activity_trigger (now : Z) (a : activity) : activity :=
  mk_activity now (last_matrix_modification_time a) (last_encoder_modification_time a) now.
Definition set_activity_timestamps (matrix_timestamp encoder_timestamp pointing_device_timestamp : Z) : activity :=
  mk_activity (Z.max matrix_timestamp (Z.max encoder_timestamp pointing_device_timestamp))
    matrix_timestamp encoder_timestamp pointing_device_timestamp.
Definition last_input_activity_elapsed (now : Z) (a : activity) : Z := TIMER_DIFF_32 now (last_input_modification_time a).
Definition last_matrix_activity_elapsed (now : Z) (a : activity) : Z := TIMER_DIFF_32 now (last_matrix_modification_time a).
Definition last_encoder_activity_elapsed (now : Z) (a : activity) : Z := TIMER_DIFF_32 now (last_encoder_modification_time a).
Definition last_pointing_device_activity_elapsed (now : Z) (a : activity) : Z :=
  TIMER_DIFF_32 now (last_pointing_device_modification_time a).

(** The matrix as the scan leaves it is [M], its rows [rows_of]. *)
Record keyboard (W M : Type) := mk_keyboard {
  rest_of : W;
  the_matrix : M;
  matrix_previous : list Z;
  last_tick : Z;
  the_encoders : encoder_st;
  input_activity : activity;
}.
Arguments mk_keyboard {W M} _ _ _ _ _ _.
Arguments rest_of {W M} _.
Arguments the_matrix {W M} _.
Arguments matrix_previous {W M} _.
Arguments last_tick {W M} _.
Arguments the_encoders {W M} _.
Arguments input_activity {W M} _.

Section keyboard.
Context {W M : Type} {host : KeyboardHost W} {dcfg : DebounceConfig} {ecfg : EncoderConfig}.
(** [matrix_get_row], and [matrix_scan] for what the pins read. *)
Context (rows_of : M -> list Z) (scan : list Z -> Z -> M -> M).
Implicit Types (s : keyboard W M) (w : W) (row col rowdata : Z).

Definition on_rest (f : W -> W) s : keyboard W M :=
  mk_keyboard (f (rest_of s)) (the_matrix s) (matrix_previous s) (last_tick s) (the_encoders s) (input_activity s).
Definition matrix_get_row s row : Z := nthZ (rows_of (the_matrix s)) row.

(** ** Ghosts *)

Definition get_real_keys w row rowdata : Z :=
  for_Z 0 num_cols (fun col out =>
    if negb (base_keycode w row col =? 0) && truthy (rowdata .& (1 << col)) then out .| (1 << col) else out) 0.
Definition popcount_more_than_one rowdata : bool := truthy (rowdata .& (rowdata - 1)).

Definition has_ghost_in_row s row rowdata : bool :=
  if negb MATRIX_HAS_GHOST then false
  else
    let w := rest_of s in
    let rowdata := get_real_keys w row rowdata in
    if negb (popcount_more_than_one rowdata) then false
    else existsb (fun i => negb (i =? row)
                    && popcount_more_than_one (get_real_keys w i (matrix_get_row s i) .& rowdata)) (seqZ 0 num_rows).

(** ** The matrix *)

Definition generate_tick_event s : keyboard W M :=
  let now := read_time (rest_of s) in
  if negb (TIMER_DIFF_16 now (last_tick s) =? 0) then
    mk_keyboard (exec (MAKE_TICK_EVENT (read_time (rest_of s))) (rest_of s)) (the_matrix s) (matrix_previous s) now
      (the_encoders s) (input_activity s)
  else s.

(** The events of a row, columns in order. *)
Definition process_col (process_keypress : bool) row (current_row row_changes : Z) col s : keyboard W M :=
  if truthy (row_changes .& (1 << col)) then
    if process_keypress then
      on_rest (fun w => exec (MAKE_KEYEVENT row col (truthy (current_row .& (1 << col))) (read_time w)) w) s
    else s
  else s.
Definition process_row (process_keypress : bool) row s : keyboard W M :=
  let current_row := matrix_get_row s row in
  let row_changes := Z.lxor current_row (nthZ (matrix_previous s) row) in
  if negb (truthy row_changes) || has_ghost_in_row s row current_row then s
  else
    let s := for_Z 0 num_cols (process_col process_keypress row current_row row_changes) s in
    mk_keyboard (rest_of s) (the_matrix s) (updZ (matrix_previous s) row current_row) (last_tick s) (the_encoders s)
      (input_activity s).

Definition matrix_task (pins : list Z) s : bool * keyboard W M :=
  if negb (matrix_can_read (rest_of s)) then (false, generate_tick_event s)
  else
    let s := mk_keyboard (rest_of s) (scan pins (read_time_fast (rest_of s)) (the_matrix s)) (matrix_previous s) (last_tick s)
               (the_encoders s) (input_activity s) in
    let matrix_changed :=
      existsb (fun row => truthy (Z.lxor (nthZ (matrix_previous s) row) (matrix_get_row s row))) (seqZ 0 num_rows) in
    if negb matrix_changed then (false, generate_tick_event s)
    else
      let process_keypress := should_process_keypress (rest_of s) in
      (true, for_Z 0 num_rows (process_row process_keypress) s).

(** ** The loop *)

Definition quantum_task s : keyboard W M := on_rest (fun w => foldl (fun w f => f w) w quantum_tasks) s.

Definition set_activity (f : Z -> activity -> activity) s : keyboard W M :=
  mk_keyboard (rest_of s) (the_matrix s) (matrix_previous s) (last_tick s) (the_encoders s)
    (f (read_time32 (rest_of s)) (input_activity s)).

(** [pads] are what the encoders read. *)
Definition keyboard_task (pins : list Z) (pads : Z -> Z * Z) s : keyboard W M :=
  let '(changed, s) := matrix_task pins s in
  let s := if changed : bool then set_activity last_matrix_activity_trigger s else s in
  let s := quantum_task s in
  let '(turned, w, e) := encoder_task (should_process_encoder (rest_of s)) pads (rest_of s) (the_encoders s) in
  let s := mk_keyboard w (the_matrix s) (matrix_previous s) (last_tick s) e (input_activity s) in
  let s := if turned : bool then set_activity last_encoder_activity_trigger s else s in
  on_rest (fun w => foldl (fun w f => f w) w late_tasks) s.
End keyboard.
