(* ===== verification/Combo.v ===== *)
(** Combos: [quantum/process_keycode/process_combo.c]. Keys of a combo are held
    back in a buffer until it is known whether the combo is complete. The build
    is Vial's: the table is in RAM, the term is a setting, there is a timer, and
    the options of keys that must be tapped, held or pressed in order are off. *)

From S2P Require Import Prelude.
From S2P Require Import QmkSettings.
From S2P Require Import KeymapCommon.
From S2P Require Import Keyboard.

Definition COMBO_END : Z := 0.
Definition MAX_COMBO_LENGTH : Z := 8.
Definition COMBO_KEY_BUFFER_LENGTH : Z := MAX_COMBO_LENGTH.
Definition COMBO_BUFFER_LENGTH : Z := 4.
Definition QK_COMBO_ON : Z := 0x7C50.
Definition QK_COMBO_OFF : Z := 0x7C51.
Definition QK_COMBO_TOGGLE : Z := 0x7C52.
(** [(uint16_t)-1]: no combo, no key. *)
Definition NONE16 : Z := 65535.

Record combo_t := mk_combo { keys : list Z; keycode : Z; disabled : bool; active : bool; state : Z }.
Record queued_record_t := mk_queued { q_record : keyrecord_t; q_combo_index : Z; q_keycode : Z }.

(** The statics of the file and the table. *)
Record combo_st := mk_combo_st {
  key_combos : list combo_t;
  timer : Z;
  b_combo_enable : bool;
  longest_term : Z;
  key_buffer_size : Z;
  key_buffer : list queued_record_t;
  key_buffer_next : Z;
  combo_buffer_write : Z;
  combo_buffer_read : Z;
  combo_buffer : list Z;
}.

Definition no_combo : combo_t := mk_combo [] 0 false false 0.
Definition zero_queued : queued_record_t := mk_queued zero_record 0 0.

(** After the start: the table as [reload_combo] leaves it. *)
Definition combos_start (table : list (list Z * Z)) : combo_st :=
  mk_combo_st (map (fun e => mk_combo e.1 e.2 false false 0) table) 0 true 0
    0 (repeat zero_queued (Z.to_nat COMBO_KEY_BUFFER_LENGTH)) 0 0 0 (memset 0 COMBO_BUFFER_LENGTH).

Section statics.
Implicit Types (c : combo_st) (combo : combo_t) (idx : Z).

Definition set_key_combos l c : combo_st :=
  mk_combo_st l (timer c) (b_combo_enable c) (longest_term c) (key_buffer_size c) (key_buffer c) (key_buffer_next c)
    (combo_buffer_write c) (combo_buffer_read c) (combo_buffer c).
Definition set_timer t c : combo_st :=
  mk_combo_st (key_combos c) t (b_combo_enable c) (longest_term c) (key_buffer_size c) (key_buffer c) (key_buffer_next c)
    (combo_buffer_write c) (combo_buffer_read c) (combo_buffer c).
Definition set_enable b c : combo_st :=
  mk_combo_st (key_combos c) (timer c) b (longest_term c) (key_buffer_size c) (key_buffer c) (key_buffer_next c)
    (combo_buffer_write c) (combo_buffer_read c) (combo_buffer c).
Definition set_longest t c : combo_st :=
  mk_combo_st (key_combos c) (timer c) (b_combo_enable c) t (key_buffer_size c) (key_buffer c) (key_buffer_next c)
    (combo_buffer_write c) (combo_buffer_read c) (combo_buffer c).
Definition set_key_buffer size l next c : combo_st :=
  mk_combo_st (key_combos c) (timer c) (b_combo_enable c) (longest_term c) size l next
    (combo_buffer_write c) (combo_buffer_read c) (combo_buffer c).
Definition set_combo_buffer write read l c : combo_st :=
  mk_combo_st (key_combos c) (timer c) (b_combo_enable c) (longest_term c) (key_buffer_size c) (key_buffer c)
    (key_buffer_next c) write read l.

Definition combo_count c : Z := lenZ (key_combos c).
Definition combo_get c idx : combo_t := nth (Z.to_nat idx) (key_combos c) no_combo.
Definition set_combo idx (f : combo_t -> combo_t) c : combo_st :=
  set_key_combos (alter f (Z.to_nat idx) (key_combos c)) c.

Definition ACTIVATE_COMBO combo : combo_t := mk_combo (keys combo) (keycode combo) (disabled combo) true (state combo).
Definition DEACTIVATE_COMBO combo : combo_t := mk_combo (keys combo) (keycode combo) (disabled combo) false (state combo).
Definition DISABLE_COMBO combo : combo_t := mk_combo (keys combo) (keycode combo) true (active combo) (state combo).
Definition RESET_COMBO_STATE combo : combo_t := mk_combo (keys combo) (keycode combo) false (active combo) 0.
Definition KEY_STATE_DOWN (key_index state : Z) : Z := u8 (state .| (1 << key_index)).
Definition KEY_STATE_UP (key_index state : Z) : Z := u8 (state .& Z.lnot (1 << key_index)).
Definition with_state (f : Z -> Z) combo : combo_t :=
  mk_combo (keys combo) (keycode combo) (disabled combo) (active combo) (f (state combo)).
Definition ALL_COMBO_KEYS_ARE_DOWN (state key_count : Z) : bool := (1 << key_count) - 1 =? state.
Definition ONLY_ONE_KEY_IS_DOWN (state : Z) : bool := negb (truthy (state .& (state - 1))).
Definition KEY_NOT_YET_RELEASED (state key_index : Z) : bool := truthy ((1 << key_index) .& state).
Definition INCREMENT_MOD (i : Z) : Z := (i + 1) mod COMBO_BUFFER_LENGTH.

(** The index of the key, the last one if it occurs twice, and the number of keys. *)
Fixpoint find_key_index_and_count (keys : list Z) (keycode key_index key_count : Z) : Z * Z :=
  match keys with
  | [] => (key_index, key_count)
  | key :: keys =>
      if COMBO_END =? key then (key_index, key_count)
      else find_key_index_and_count keys keycode (if keycode =? key then key_count else key_index) (u8 (key_count + 1))
  end.
Definition find_key combo (keycode : Z) : Z * Z := find_key_index_and_count (keys combo) keycode NONE16 0.

Definition clear_combos c : combo_st :=
  set_longest 0
    (set_key_combos (map (fun combo => if active combo then combo else RESET_COMBO_STATE combo) (key_combos c)) c).

(** From [i] to the end of the ring of combos. *)
Fixpoint drop_from (fuel : nat) (i idx : Z) c : combo_st :=
  match fuel with
  | O => c
  | S fuel =>
      if i =? combo_buffer_write c then c
      else if nthZ (combo_buffer c) i =? idx then
        let c := set_combo idx DISABLE_COMBO c in
        if i =? combo_buffer_read c
        then set_combo_buffer (combo_buffer_write c) (INCREMENT_MOD (combo_buffer_read c)) (combo_buffer c) c
        else c
      else drop_from fuel (INCREMENT_MOD i) idx c
  end.
Definition ring_fuel : nat := Z.to_nat COMBO_BUFFER_LENGTH.
Definition drop_combo_from_buffer idx c : combo_st := drop_from ring_fuel (combo_buffer_read c) idx c.

Definition tick_record (r : keyrecord_t) : keyrecord_t :=
  mk_record (mk_event (ev_key (rec_event r)) (ev_time (rec_event r)) TICK_EVENT (ev_pressed (rec_event r)))
    (rec_tap r) (rec_keycode r).
Definition tick_queued (q : queued_record_t) : queued_record_t :=
  mk_queued (tick_record (q_record q)) (q_combo_index q) (q_keycode q).
(** The record that carries the combo. *)
Definition combo_record (keycode : Z) (r : keyrecord_t) : keyrecord_t :=
  mk_record (mk_event (mk_key 0 0) (ev_time (rec_event r)) COMBO_EVENT (ev_pressed (rec_event r)))
    (rec_tap r) keycode.

(** The loop of [apply_combo] over the buffered keys; [state] is the local
    variable. The boolean is whether the combo is activated. *)
Fixpoint apply_keys combo idx (state : Z) (queue : list queued_record_t) : list queued_record_t * bool :=
  match queue with
  | [] => ([], false)
  | q :: queue =>
      let '(key_index, key_count) := find_key combo (q_keycode q) in
      if key_index =? NONE16 then
        let '(queue, fired) := apply_keys combo idx state queue in (q :: queue, fired)
      else
        let state := KEY_STATE_DOWN key_index state in
        if ALL_COMBO_KEYS_ARE_DOWN state key_count
        then (mk_queued (combo_record (keycode combo) (q_record q)) idx (q_keycode q) :: queue, true)
        else let '(queue, fired) := apply_keys combo idx state queue in (tick_queued q :: queue, fired)
  end.

Definition apply_combo idx c : combo_st :=
  let combo := combo_get c idx in
  if disabled combo then c
  else
    let size := Z.to_nat (key_buffer_size c) in
    let '(queue, fired) := apply_keys combo idx 0 (take size (key_buffer c)) in
    let c := set_key_buffer (key_buffer_size c) (queue ++ drop size (key_buffer c)) (key_buffer_next c) c in
    let c := if fired : bool then set_combo idx ACTIVATE_COMBO c else c in
    drop_combo_from_buffer idx c.

(** The loop of [apply_combos]. *)
Fixpoint apply_from (fuel : nat) (i : Z) c : combo_st :=
  match fuel with
  | O => c
  | S fuel =>
      if i =? combo_buffer_write c then c
      else apply_from fuel (INCREMENT_MOD i) (apply_combo (nthZ (combo_buffer c) i) c)
  end.

(** The keys of a combo, up to its end. *)
Fixpoint combo_keys_of (keys : list Z) : list Z :=
  match keys with
  | [] => []
  | key :: keys => if COMBO_END =? key then [] else key :: combo_keys_of keys
  end.
Definition the_keys combo : list Z := combo_keys_of (keys combo).

(** The combo to drop of two that share a key: the shorter one, the first if
    they are as long. *)
Definition overlaps c idx1 idx2 : option Z :=
  let keys1 := the_keys (combo_get c idx1) in
  let keys2 := the_keys (combo_get c idx2) in
  if existsb (fun key1 => existsb (fun key2 => key1 =? key2) keys2) keys1 then
    Some (if lenZ keys2 <? lenZ keys1 then idx2 else idx1)
  else None.

(** A complete combo against those in the ring, from [i] on: whether the
    complete one is the one that is dropped. *)
Fixpoint check_overlaps (fuel : nat) (i idx : Z) c : bool * combo_st :=
  match fuel with
  | O => (false, c)
  | S fuel =>
      if i =? combo_buffer_write c then (false, c)
      else
        let buffered := nthZ (combo_buffer c) i in
        match overlaps c buffered idx with
        | None => check_overlaps fuel (INCREMENT_MOD i) idx c
        | Some drop =>
            let c := set_combo drop DISABLE_COMBO c in
            if drop =? idx then (true, c)
            else
              let c := if (i =? combo_buffer_read c) && (drop =? buffered)
                       then set_combo_buffer (combo_buffer_write c) (INCREMENT_MOD (combo_buffer_read c)) (combo_buffer c) c
                       else c in
              check_overlaps fuel (INCREMENT_MOD i) idx c
        end
  end.

(** A combo is complete. [_get_wait_time] is [longest_term] in this build. *)
Definition buffer_combo idx c : combo_st :=
  let '(dropped, c) := check_overlaps ring_fuel (combo_buffer_read c) idx c in
  if dropped : bool then c
  else set_combo_buffer (INCREMENT_MOD (combo_buffer_write c)) (combo_buffer_read c)
         (updZ (combo_buffer c) (combo_buffer_write c) idx) c.

(** A key of the combo goes down. [term] is the combo's term. *)
Definition combo_key_down idx (key_index key_count term now : Z) c : combo_st :=
  let c :=
    if active (combo_get c idx) then c
    else
      let c := set_combo idx (with_state (KEY_STATE_DOWN key_index)) c in
      if longest_term c <? term then set_longest term c else c in
  if ALL_COMBO_KEYS_ARE_DOWN (state (combo_get c idx)) key_count then
    if truthy (timer c) && (term <? TIMER_DIFF_16 now (timer c))
    then set_combo idx DISABLE_COMBO c
    else buffer_combo idx c
  else c.
End statics.

(** The firmware below: [W] is its state. [tapping_process] is
    [action_tapping_process]; [get_combo_term] is Vial's, the same for every
    combo. *)
Class ComboHost (W : Type) := {
  tapping_process : keyrecord_t -> W -> W;
  clear_weak : W -> W;
  tap_record : keyrecord_t -> W -> bool;
  host_wait : Z -> W -> W;
  host_time : W -> Z;
  get_combo_term : W -> Z;
}.

Record combined (W : Type) := mk_combined { combos : combo_st; below : W }.
Arguments mk_combined {W} _ _.
Arguments combos {W} _.
Arguments below {W} _.

Section combo.
Context {W : Type} {host : ComboHost W} {qcfg : QmkSettingsConfig}.
Implicit Types (s : combined W) (record : keyrecord_t) (keycode idx : Z).

Definition on_combos (f : combo_st -> combo_st) s : combined W := mk_combined (f (combos s)) (below s).
Definition on_below (f : W -> W) s : combined W := mk_combined (combos s) (f (below s)).

(** The weak definition. *)
Definition process_combo_event (idx : Z) (pressed : bool) s : combined W := s.

Definition release_combo idx s : combined W :=
  let combo := combo_get (combos s) idx in
  let s :=
    if truthy (Combo.keycode combo) then
      let event := mk_event (mk_key 0 0) (host_time (below s)) COMBO_EVENT false in
      on_below (tapping_process (mk_record event no_tap (Combo.keycode combo))) s
    else process_combo_event idx false s in
  on_combos (set_combo idx DEACTIVATE_COMBO) s.

Definition queued_at s (i : Z) : queued_record_t := nth (Z.to_nat i) (key_buffer (combos s)) zero_queued.
Definition set_next next c : combo_st := set_key_buffer (key_buffer_size c) (key_buffer c) next c.
Definition tick_at (i : Z) c : combo_st :=
  set_key_buffer (key_buffer_size c) (alter tick_queued (Z.to_nat i) (key_buffer c)) (key_buffer_next c) c.

(** The loop of [dump_key_buffer]. The delay is for a record that has just been
    made a tick. *)
Fixpoint dump_from (fuel : nat) (i : Z) (delay_done : bool) s : combined W :=
  match fuel with
  | O => s
  | S fuel =>
      if i <? key_buffer_size (combos s) then
        let s := on_combos (set_next (u8 (i + 1))) s in
        let q := queued_at s i in
        if IS_NOEVENT (rec_event (q_record q)) then dump_from fuel (i + 1) delay_done s
        else
          let s :=
            if negb (truthy (rec_keycode (q_record q))) && negb (q_combo_index q =? NONE16)
            then process_combo_event (q_combo_index q) true s
            else on_below (tapping_process (q_record q)) s in
          let s := on_below clear_weak (on_combos (tick_at i) s) in
          let delay := (0 <? TAP_CODE_DELAY)
                       && (negb delay_done && negb (tap_record (q_record (queued_at s i)) (below s))) in
          dump_from fuel (i + 1) (delay_done || delay) (if delay then on_below (host_wait TAP_CODE_DELAY) s else s)
      else s
  end.
Definition buffer_fuel : nat := Z.to_nat COMBO_KEY_BUFFER_LENGTH.

Definition dump_key_buffer s : combined W :=
  if key_buffer_size (combos s) =? 0 then s
  else
    let s := dump_from buffer_fuel (key_buffer_next (combos s)) false s in
    on_combos (fun c => set_key_buffer 0 (key_buffer c) 0 c) s.

Definition apply_combos s : combined W :=
  let s := on_combos (fun c => apply_from ring_fuel (combo_buffer_read c) c) s in
  on_combos clear_combos (dump_key_buffer s).

(** A key of the combo goes up, or down while the combo is disabled. *)
Definition combo_key_up idx (key_index key_count : Z) (part : bool) s : bool * combined W :=
  let combo := combo_get (combos s) idx in
  let st := state combo in
  let '(part, s) :=
    if negb (active combo) && ALL_COMBO_KEYS_ARE_DOWN st key_count then
      if disabled combo then (false, on_combos (drop_combo_from_buffer idx) s) else (part, s)
    else if active combo && ONLY_ONE_KEY_IS_DOWN st && KEY_NOT_YET_RELEASED st key_index
    then (true, release_combo idx s)
    else if active combo && KEY_NOT_YET_RELEASED st key_index then (true, s)
    else (false, s) in
  (part, on_combos (set_combo idx (with_state (KEY_STATE_UP key_index))) s).

(** Whether the key belongs to the combo. *)
Definition process_single_combo keycode record idx s : bool * combined W :=
  let combo := combo_get (combos s) idx in
  let '(key_index, key_count) := find_key combo keycode in
  if key_index =? NONE16 then (false, s)
  else
    let part := negb (disabled combo) && b_combo_enable (combos s) in
    if ev_pressed (rec_event record) && part then
      let term := get_combo_term (below s) in
      let now := host_time (below s) in
      (true, on_combos (combo_key_down idx key_index key_count term now) s)
    else combo_key_up idx key_index key_count part s.

Definition combo_enable c : combo_st := set_enable true c.
Definition combo_disable s : combined W :=
  let disable c := clear_combos (set_combo_buffer (combo_buffer_write c) (combo_buffer_write c) (combo_buffer c)
                                   (set_enable false (set_timer 0 c))) in
  dump_key_buffer (on_combos disable s).
Definition combo_toggle s : combined W :=
  if b_combo_enable (combos s) then combo_disable s else on_combos combo_enable s.

(** The loop of [process_combo] over the table. *)
Definition process_combo_table keycode record s : bool * combined W :=
  foldl (fun '(is_combo_key, s) idx =>
           let '(part, s) := process_single_combo keycode record idx s in (is_combo_key || part, s))
    (false, s) (seqZ 0 (combo_count (combos s))).

Definition enqueue_key keycode record c : combo_st :=
  if key_buffer_size c <? COMBO_KEY_BUFFER_LENGTH then
    set_key_buffer (key_buffer_size c + 1)
      (<[Z.to_nat (key_buffer_size c) := mk_queued record NONE16 keycode]> (key_buffer c)) (key_buffer_next c) c
  else c.

Definition combo_prepared c : bool := negb (combo_buffer_read c =? combo_buffer_write c).

(** [combo_ref_from_layer] is its weak definition, so the keycode is the one of
    the key event. False claims the record. *)
Definition process_combo keycode record s : bool * combined W :=
  let pressed := ev_pressed (rec_event record) in
  if (keycode =? QK_COMBO_ON) && pressed then (true, on_combos combo_enable s)
  else if (keycode =? QK_COMBO_OFF) && pressed then (true, combo_disable s)
  else if (keycode =? QK_COMBO_TOGGLE) && pressed then (true, combo_toggle s)
  else
    let '(is_combo_key, s) := process_combo_table keycode record s in
    let s :=
      if pressed && is_combo_key then
        on_combos (fun c => enqueue_key keycode record (set_timer (host_time (below s)) c)) s
      else if combo_prepared (combos s) then apply_combos s
      else on_combos (fun c => clear_combos (set_timer 0 c)) (dump_key_buffer s) in
    (negb is_combo_key, s).

Definition combo_task s : combined W :=
  let c := combos s in
  if negb (b_combo_enable c) then s
  else if truthy (timer c) && (longest_term c <? TIMER_DIFF_16 (host_time (below s)) (timer c)) then
    if combo_prepared c
    then on_combos (fun c => set_timer 0 (set_longest 0 c)) (apply_combos s)
    else on_combos (fun c => clear_combos (set_timer 0 c)) (dump_key_buffer s)
  else s.
End combo.
