(* ===== verification/ComboProofs.v ===== *)
(** What the operations of [Combo] keep: the arrays and indices of the combo
    code are in bounds, and what waits in the buffer is what goes to the tapping
    code when it is emptied. *)

From S2P Require Import Prelude.
From S2P Require Import QmkSettings.
From S2P Require Import KeymapCommon.
From S2P Require Import Keyboard.
From S2P Require Import Combo.

(** The constant part of the table. *)
Definition shape (combo : combo_t) : list Z * Z := (keys combo, keycode combo).
Definition table (c : combo_st) : list (list Z * Z) := map shape (key_combos c).

(** The bounds of the statics. *)
Record combo_wf (c : combo_st) : Prop := {
  wf_count : combo_count c < NONE16;
  wf_states : Forall (fun combo => byte_range (state combo)) (key_combos c);
  wf_size : 0 <= key_buffer_size c <= COMBO_KEY_BUFFER_LENGTH;
  wf_keys : lenZ (key_buffer c) = COMBO_KEY_BUFFER_LENGTH;
  wf_next : key_buffer_next c = 0;
  wf_write : 0 <= combo_buffer_write c < COMBO_BUFFER_LENGTH;
  wf_read : 0 <= combo_buffer_read c < COMBO_BUFFER_LENGTH;
  wf_ring : lenZ (combo_buffer c) = COMBO_BUFFER_LENGTH;
  wf_indices : Forall (fun idx => 0 <= idx < Z.max 1 (combo_count c)) (combo_buffer c);
}.

(** The keys waiting in the buffer. *)
Definition queue (c : combo_st) : list queued_record_t := take (Z.to_nat (key_buffer_size c)) (key_buffer c).

(** [c'] differs from [c] in flags and in the ring only. *)
Definition same_keys (c c' : combo_st) : Prop :=
  combo_wf c' /\ table c' = table c /\ key_buffer_size c' = key_buffer_size c /\ key_buffer c' = key_buffer c
  /\ key_buffer_next c' = key_buffer_next c.
(** The same, and the same term. *)
Definition flags_only (f : combo_st -> combo_st) : Prop := forall c, combo_wf c -> same_keys c (f c).

Lemma same_keys_refl c : combo_wf c -> same_keys c c.
Proof. done. Qed.
Lemma same_keys_trans c1 c2 c3 : same_keys c1 c2 -> same_keys c2 c3 -> same_keys c1 c3.
Proof. intros (_ & ? & ? & ? & ?) (? & ? & ? & ? & ?). split_and!; [done|congruence..]. Qed.
Lemma same_keys_wf c c' : same_keys c c' -> combo_wf c'.
Proof. by intros []. Qed.
Lemma same_keys_queue c c' : same_keys c c' -> queue c' = queue c.
Proof. intros (_ & _ & E1 & E2 & _). unfold queue. by rewrite E1, E2. Qed.

Lemma table_count c c' : table c' = table c -> combo_count c' = combo_count c.
Proof. intros H. apply (f_equal length) in H. unfold table in H. rewrite !length_map in H. unfold combo_count, lenZ. lia. Qed.

Lemma increment_range i : 0 <= INCREMENT_MOD i < COMBO_BUFFER_LENGTH.
Proof. apply Z.mod_pos_bound. done. Qed.

Definition keeps_shape (f : combo_t -> combo_t) : Prop :=
  forall combo, shape (f combo) = shape combo /\ (byte_range (state combo) -> byte_range (state (f combo))).

Lemma table_alter f n c : keeps_shape f -> map shape (alter f n (key_combos c)) = map shape (key_combos c).
Proof.
  intros Hf. apply list_eq. intros i. change (map shape) with (fmap (M := list) shape). rewrite !list_lookup_fmap, list_lookup_alter.
  case_decide; [subst|done]. destruct (key_combos c !! i); [|done]. simpl. by rewrite (proj1 (Hf _)).
Qed.

(** A new table with the same constant part. *)
Lemma set_table_keys l c : combo_wf c -> map shape l = map shape (key_combos c) ->
  Forall (fun combo => byte_range (state combo)) l -> same_keys c (set_key_combos l c).
Proof.
  intros [] Hs Hl. assert (Ht : table (set_key_combos l c) = table c) by done.
  split; [|done]. constructor; try done; by rewrite (table_count _ _ Ht).
Qed.

Lemma set_combo_flags idx f : keeps_shape f -> flags_only (set_combo idx f).
Proof.
  intros Hf c Hc. apply set_table_keys; [done|by apply table_alter|].
  apply Forall_alter; [apply Hc|]. intros combo _ H. by apply (proj2 (Hf combo)).
Qed.

Lemma disable_keeps : keeps_shape DISABLE_COMBO. Proof. done. Qed.
Lemma activate_keeps : keeps_shape ACTIVATE_COMBO. Proof. done. Qed.
Lemma deactivate_keeps : keeps_shape DEACTIVATE_COMBO. Proof. done. Qed.
Lemma state_keeps f : (forall z, byte_range (f z)) -> keeps_shape (with_state f).
Proof. intros H combo. split; [done|]. intros _. apply H. Qed.
Lemma down_keeps i : keeps_shape (with_state (KEY_STATE_DOWN i)).
Proof. apply state_keeps. intros. apply u8_range. Qed.
Lemma up_keeps i : keeps_shape (with_state (KEY_STATE_UP i)).
Proof. apply state_keeps. intros. apply u8_range. Qed.

Lemma set_ring_keys write read l c : combo_wf c ->
  0 <= write < COMBO_BUFFER_LENGTH -> 0 <= read < COMBO_BUFFER_LENGTH ->
  lenZ l = COMBO_BUFFER_LENGTH -> Forall (fun idx => 0 <= idx < Z.max 1 (combo_count c)) l ->
  same_keys c (set_combo_buffer write read l c).
Proof. intros [] ? ? ? ?. split; [by constructor|done]. Qed.

Lemma read_next_keys c : combo_wf c ->
  same_keys c (set_combo_buffer (combo_buffer_write c) (INCREMENT_MOD (combo_buffer_read c)) (combo_buffer c) c).
Proof. intros H. apply set_ring_keys; try apply H. apply increment_range. Qed.

Lemma set_longest_keys t c : combo_wf c -> same_keys c (set_longest t c).
Proof. intros []. split; [by constructor|done]. Qed.
Lemma set_timer_keys t c : combo_wf c -> same_keys c (set_timer t c).
Proof. intros []. split; [by constructor|done]. Qed.
Lemma set_enable_keys b c : combo_wf c -> same_keys c (set_enable b c).
Proof. intros []. split; [by constructor|done]. Qed.

Lemma clear_combos_keys c : combo_wf c -> same_keys c (clear_combos c).
Proof.
  intros Hc. unfold clear_combos.
  assert (H : same_keys c (set_key_combos
    (map (fun combo => if active combo then combo else RESET_COMBO_STATE combo) (key_combos c)) c)).
  { apply set_table_keys; [done|rewrite map_map; apply map_ext; intros; by case_if|].
    apply Forall_map. refine (Forall_impl _ _ (wf_states c Hc)). intros combo H. simpl. case_if; [done|]. cbn. lia. }
  eapply same_keys_trans; [exact H|]. apply set_longest_keys, H.
Qed.

Create HintDb combo.
#[local] Hint Resolve disable_keeps activate_keeps deactivate_keeps down_keeps up_keeps same_keys_refl
  read_next_keys set_longest_keys set_timer_keys set_enable_keys clear_combos_keys : combo.
#[local] Hint Extern 5 (same_keys _ (set_combo _ _ _)) => apply set_combo_flags : combo.

Lemma drop_from_keys fuel i idx c : combo_wf c -> same_keys c (drop_from fuel i idx c).
Proof.
  revert i. induction fuel as [|fuel IH]; intros i Hc; cbn [drop_from]; [auto with combo|].
  case_if; [auto with combo|]. case_if; [|by apply IH].
  assert (H : same_keys c (set_combo idx DISABLE_COMBO c)) by auto with combo.
  case_if; [|done]. eapply same_keys_trans; [exact H|]. apply read_next_keys. apply H.
Qed.

Lemma check_overlaps_keys fuel i idx c : combo_wf c -> same_keys c (check_overlaps fuel i idx c).2.
Proof.
  revert i c. induction fuel as [|fuel IH]; intros i c Hc; cbn [check_overlaps]; [auto with combo|].
  case_if; [cbn; auto with combo|]. destruct (overlaps c _ idx) as [d|]; [|by apply IH].
  assert (H : same_keys c (set_combo d DISABLE_COMBO c)) by auto with combo.
  case_if; [done|]. case_if.
  - assert (H2 := read_next_keys _ (same_keys_wf _ _ H)).
    eapply same_keys_trans; [exact H|]. eapply same_keys_trans; [exact H2|]. apply IH, H2.
  - eapply same_keys_trans; [exact H|]. apply IH, H.
Qed.

Lemma buffer_combo_keys idx c : combo_wf c -> 0 <= idx < combo_count c -> same_keys c (buffer_combo idx c).
Proof.
  intros Hc Hi. unfold buffer_combo. pose proof (check_overlaps_keys ring_fuel (combo_buffer_read c) idx c Hc) as H.
  destruct (check_overlaps _ _ _ _) as [dropped c']. simpl in H. case_if; [done|].
  eapply same_keys_trans; [exact H|]. destruct H as (Hw & Ht & _). apply set_ring_keys; try apply Hw; [apply increment_range|..].
  - rewrite lenZ_updZ. apply Hw.
  - unfold updZ. case_if; [apply Hw|]. apply Forall_insert; [apply Hw|]. rewrite (table_count _ _ Ht). lia.
Qed.

Lemma combo_key_down_keys idx key_index key_count term now c : combo_wf c -> 0 <= idx < combo_count c ->
  same_keys c (combo_key_down idx key_index key_count term now c).
Proof.
  intros Hc Hi. unfold combo_key_down.
  set (c1 := if active _ then c else _).
  assert (H1 : same_keys c c1).
  { unfold c1. case_if; [auto with combo|].
    assert (H : same_keys c (set_combo idx (with_state (KEY_STATE_DOWN key_index)) c)) by auto with combo.
    cbv zeta. case_if; [|done]. eapply same_keys_trans; [exact H|]. apply set_longest_keys, H. }
  clearbody c1. pose proof (same_keys_wf _ _ H1) as Hw. assert (Hn := table_count _ _ (proj1 (proj2 H1))).
  case_if; [|done]. eapply same_keys_trans; [exact H1|]. case_if; [auto with combo|]. apply buffer_combo_keys; [done|lia].
Qed.

(** ** The buffered keys *)

(** What [dump_key_buffer] gives to the tapping code for an entry. *)
Definition delivered (q : queued_record_t) : list keyrecord_t :=
  if IS_NOEVENT (rec_event (q_record q)) then []
  else if negb (truthy (rec_keycode (q_record q))) && negb (q_combo_index q =? NONE16) then []
  else [q_record q].

Lemma find_key_in keys keycode key_index key_count :
  (find_key_index_and_count keys keycode key_index key_count).1 <> key_index ->
  In keycode (combo_keys_of keys).
Proof.
  revert key_index key_count. induction keys as [|key keys IH]; intros i n; [done|]. cbn [find_key_index_and_count combo_keys_of].
  case_if; [done|]. intros H. destruct (Z.eqb_spec keycode key) as [->|]; [by left|right]. by apply IH in H.
Qed.

(** What the operations on the buffered keys keep. *)
Definition same_size (c c' : combo_st) : Prop :=
  combo_wf c' /\ table c' = table c /\ key_buffer_size c' = key_buffer_size c.

Lemma same_keys_size c c' : same_keys c c' -> same_size c c'.
Proof. by intros (H1 & H2 & H3 & _). Qed.
Lemma same_size_refl c : combo_wf c -> same_size c c.
Proof. done. Qed.
Lemma same_size_trans c1 c2 c3 : same_size c1 c2 -> same_size c2 c3 -> same_size c1 c3.
Proof. intros (_ & E1 & E2) (Hw & E3 & E4). split_and!; [done|congruence..]. Qed.

Lemma queue_length c : combo_wf c -> length (queue c) = Z.to_nat (key_buffer_size c).
Proof.
  intros Hc. destruct (wf_size c Hc). pose proof (wf_keys c Hc) as Hk. unfold lenZ in Hk.
  unfold queue. rewrite length_take. lia.
Qed.

(** The keys in the buffer replaced. *)
Lemma set_queue_size l c : combo_wf c -> length l = length (queue c) ->
  let c' := set_key_buffer (key_buffer_size c) (l ++ drop (Z.to_nat (key_buffer_size c)) (key_buffer c)) (key_buffer_next c) c in
  same_size c c' /\ queue c' = l.
Proof.
  intros Hc Hl. rewrite queue_length in Hl by done. split.
  - split; [|done]. destruct (wf_size c Hc). pose proof (wf_keys c Hc) as Hk. destruct Hc. constructor; try done.
    cbn. unfold lenZ in *. rewrite length_app, length_drop. lia.
  - unfold queue. cbn. rewrite take_app_le by lia. by rewrite take_ge by lia.
Qed.

Lemma apply_keys_length combo idx st queue : length (apply_keys combo idx st queue).1 = length queue.
Proof.
  revert st. induction queue as [|q queue IH]; intros st; [done|]. cbn [apply_keys].
  destruct (find_key combo (q_keycode q)) as [i n]. case_if; [specialize (IH st)|case_if; [done|specialize (IH (KEY_STATE_DOWN i st))]];
    destruct (apply_keys _ _ _ queue); cbn in *; by rewrite IH.
Qed.

Lemma apply_combo_size idx c : combo_wf c -> same_size c (apply_combo idx c).
Proof.
  intros Hc. unfold apply_combo. case_if; [by apply same_size_refl|].
  pose proof (apply_keys_length (combo_get c idx) idx 0 (queue c)) as Hl.
  fold (queue c). destruct (apply_keys _ _ _ _) as [l fired]. cbn [fst] in *.
  destruct (set_queue_size l c Hc Hl) as [H1 _]. eapply same_size_trans; [exact H1|].
  set (c1 := set_key_buffer _ _ _ c) in *. destruct H1 as (Hc1 & _). apply same_keys_size.
  set (c2 := if fired then _ else c1). assert (H2 : same_keys c1 c2) by (unfold c2; case_if; auto with combo).
  eapply same_keys_trans; [exact H2|]. apply drop_from_keys, H2.
Qed.

Lemma apply_from_size fuel i c : combo_wf c -> same_size c (apply_from fuel i c).
Proof.
  revert i c. induction fuel as [|fuel IH]; intros i c Hc; cbn [apply_from]; [by apply same_size_refl|].
  case_if; [by apply same_size_refl|].
  assert (H := apply_combo_size (nthZ (combo_buffer c) i) c Hc). eapply same_size_trans; [exact H|]. apply IH, H.
Qed.

(** ** Keeping a log

    The host with the list of the records the tapping code is given. *)
#[export] Instance logged {W} (host : ComboHost W) : ComboHost (W * list keyrecord_t) := {|
  tapping_process record w := (tapping_process record w.1, w.2 ++ [record]);
  clear_weak w := (clear_weak w.1, w.2);
  tap_record record w := tap_record record w.1;
  host_wait ms w := (host_wait ms w.1, w.2);
  host_time w := host_time w.1;
  get_combo_term w := get_combo_term w.1;
|}.

Section logging.
Context {W : Type} {host : ComboHost W} {qcfg : QmkSettingsConfig}.
Implicit Types (s : combined (W * list keyrecord_t)) (record : keyrecord_t).

Definition log s : list keyrecord_t := (below s).2.
Definition released (record : keyrecord_t) : Prop := ev_pressed (rec_event record) = false.

(** The keys are as before, and only releases were passed on. *)
Definition quietly s s' : Prop :=
  same_keys (combos s) (combos s') /\ exists out, log s' = log s ++ out /\ Forall released out.

Lemma quietly_refl s : combo_wf (combos s) -> quietly s s.
Proof. intros. split; [done|]. exists []. by rewrite app_nil_r. Qed.
Lemma quietly_trans s1 s2 s3 : quietly s1 s2 -> quietly s2 s3 -> quietly s1 s3.
Proof.
  intros [H1 (o1 & E1 & F1)] [H2 (o2 & E2 & F2)]. split; [by eapply same_keys_trans|].
  exists (o1 ++ o2). rewrite E2, E1, app_assoc. split; [done|]. by apply Forall_app.
Qed.
Lemma quietly_combos f s : same_keys (combos s) (f (combos s)) -> quietly s (on_combos f s).
Proof. intros H. split; [done|]. exists []. by rewrite app_nil_r. Qed.

Lemma release_combo_quiet idx s : combo_wf (combos s) -> quietly s (release_combo idx s).
Proof.
  intros Hc. unfold release_combo. set (s1 := if truthy _ then _ else _).
  assert (H1 : quietly s s1 /\ combos s1 = combos s).
  { unfold s1. case_if; [|by split; [apply quietly_refl|]]. split; [|done]. split; [done|].
    eexists [_]. split; [reflexivity|]. by repeat constructor. }
  destruct H1 as [H1 E1]. eapply quietly_trans; [exact H1|]. apply quietly_combos. rewrite E1. by auto with combo.
Qed.

Lemma combo_key_up_quiet idx i n part s : combo_wf (combos s) -> quietly s (combo_key_up idx i n part s).2.
Proof.
  intros Hc. unfold combo_key_up.
  match goal with |- quietly _ (let '(p, t) := ?b in _).2 => set (r := b) end.
  assert (H : quietly s r.2).
  { unfold r. case_if.
    - case_if; [|by apply quietly_refl]. apply quietly_combos. by apply drop_from_keys.
    - case_if; [by apply release_combo_quiet|]. case_if; by apply quietly_refl. }
  destruct r as [p t]. cbn in *. eapply quietly_trans; [exact H|]. apply quietly_combos.
  assert (combo_wf (combos t)) by apply H. apply set_combo_flags; [apply up_keeps|done].
Qed.

Lemma process_single_quiet keycode record idx s : combo_wf (combos s) -> 0 <= idx < combo_count (combos s) ->
  quietly s (process_single_combo keycode record idx s).2.
Proof.
  intros Hc Hi. unfold process_single_combo. destruct (find_key _ _) as [i n].
  case_if; [by apply quietly_refl|]. cbv zeta. case_if; [|by apply combo_key_up_quiet].
  apply quietly_combos. by apply combo_key_down_keys.
Qed.

Lemma table_quiet keycode record s : combo_wf (combos s) -> quietly s (process_combo_table keycode record s).2.
Proof.
  intros Hc. unfold process_combo_table.
  assert (Hl : Forall (fun idx => 0 <= idx < combo_count (combos s)) (seqZ 0 (combo_count (combos s)))).
  { apply Forall_seqZ. intros. lia. }
  assert (H0 : quietly s (false, s).2) by by apply quietly_refl. revert H0.
  generalize (false, s) as r. induction Hl as [|idx l Hi _ IH]; intros r Hr; [done|].
  cbn [foldl]. apply IH. destruct r as [b t]. cbn in Hr |- *.
  destruct Hr as [Hk Hr].
  assert (H : quietly t (process_single_combo keycode record idx t).2).
  { apply process_single_quiet; [apply Hk|]. by rewrite (table_count _ _ (proj1 (proj2 Hk))). }
  destruct (process_single_combo _ _ _ t). cbn in *. eapply quietly_trans; [|exact H]. by split.
Qed.

(** ** Emptying the buffer *)

(** Everything but the contents of the buffer. *)
Definition rebuffered (c c' : combo_st) : Prop :=
  exists l next, c' = set_key_buffer (key_buffer_size c) l next c /\ length l = length (key_buffer c).

Lemma rebuffered_refl c : rebuffered c c.
Proof. exists (key_buffer c), (key_buffer_next c). by destruct c. Qed.
Lemma rebuffered_trans c1 c2 c3 : rebuffered c1 c2 -> rebuffered c2 c3 -> rebuffered c1 c3.
Proof. intros (l1 & n1 & -> & E1) (l2 & n2 & -> & E2). exists l2, n2. cbn in *. split; [done|lia]. Qed.

Lemma drop_queue c n : (n < length (queue c))%nat ->
  drop n (queue c) = nth n (key_buffer c) zero_queued :: drop (S n) (queue c).
Proof.
  intros Hn. destruct (lookup_lt_is_Some_2 (queue c) n Hn) as [q Hq]. rewrite (drop_S _ _ _ Hq). f_equal.
  unfold queue in *. apply lookup_take_Some in Hq. destruct Hq as [Hq _]. by rewrite nth_lookup, Hq.
Qed.

Lemma tick_queue c i next : 0 <= i ->
  drop (Z.to_nat (i + 1)) (queue (tick_at i (set_next next c))) = drop (Z.to_nat (i + 1)) (queue c).
Proof.
  intros Hi. unfold queue, tick_at. cbn. apply list_eq. intros j. rewrite !lookup_drop, !lookup_take, list_lookup_alter.
  repeat case_decide; try done. lia.
Qed.

Lemma dump_from_delivers fuel i delay s :
  0 <= i <= key_buffer_size (combos s) -> key_buffer_size (combos s) <= lenZ (key_buffer (combos s)) ->
  key_buffer_size (combos s) - i <= Z.of_nat fuel ->
  let s' := dump_from fuel i delay s in
  rebuffered (combos s) (combos s')
  /\ log s' = log s ++ concat (map delivered (drop (Z.to_nat i) (queue (combos s)))).
Proof.
  revert i delay s. induction fuel as [|fuel IH]; intros i delay s Hi Hl Hf; cbn [dump_from]; cbv zeta.
  { split; [apply rebuffered_refl|]. unfold queue. rewrite drop_ge, app_nil_r; [done|]. rewrite length_take. lia. }
  destruct (Z.ltb_spec i (key_buffer_size (combos s))) as [H|H].
  2:{ split; [apply rebuffered_refl|]. unfold queue. rewrite drop_ge, app_nil_r; [done|]. rewrite length_take. lia. }
  set (s1 := on_combos (set_next (u8 (i + 1))) s).
  assert (R1 : rebuffered (combos s) (combos s1)) by (by exists (key_buffer (combos s)), (u8 (i + 1))).
  assert (Hd : drop (Z.to_nat i) (queue (combos s)) = queued_at s i :: drop (Z.to_nat (i + 1)) (queue (combos s))).
  { replace (Z.to_nat (i + 1)) with (S (Z.to_nat i)) by lia. apply drop_queue. unfold queue. rewrite length_take. unfold lenZ in Hl. lia. }
  change (queued_at s1 i) with (queued_at s i). set (q := queued_at s i) in *. rewrite Hd. cbn [map concat].
  assert (Hsame : forall t d, rebuffered (combos s) (combos t) ->
    drop (Z.to_nat (i + 1)) (queue (combos t)) = drop (Z.to_nat (i + 1)) (queue (combos s)) ->
    let s' := dump_from fuel (i + 1) d t in
    rebuffered (combos s) (combos s')
    /\ log s' = log t ++ concat (map delivered (drop (Z.to_nat (i + 1)) (queue (combos s))))).
  { intros t d Hr Hq. rewrite <- Hq. destruct Hr as (l & n & Et & El). unfold lenZ in *. destruct (IH (i + 1) d t) as [H1 H2].
    - rewrite Et. cbn. lia.
    - rewrite Et. cbn. unfold lenZ. lia.
    - rewrite Et. cbn. lia.
    - split; [|exact H2]. eapply rebuffered_trans; [|exact H1]. by exists l, n. }
  unfold delivered at 1. destruct (IS_NOEVENT (rec_event (q_record q))) eqn:En.
  { exact (Hsame s1 delay R1 eq_refl). }
  set (s2 := if _ && _ then _ else _).
  assert (H2 : combos s2 = combos s1 /\ log s2 = log s ++
    (if negb (truthy (rec_keycode (q_record q))) && negb (q_combo_index q =? NONE16) then [] else [q_record q])).
  { unfold s2. case_if; [|done]. by rewrite app_nil_r. }
  clearbody s2. destruct H2 as [E2 L2].
  assert (R3 : rebuffered (combos s) (combos (on_below clear_weak (on_combos (tick_at i) s2)))).
  { eapply rebuffered_trans; [exact R1|]. cbn [on_below on_combos combos]. rewrite E2.
    eexists _, _. split; [reflexivity|]. by rewrite length_alter. }
  assert (Q3 : drop (Z.to_nat (i + 1)) (queue (combos (on_below clear_weak (on_combos (tick_at i) s2))))
               = drop (Z.to_nat (i + 1)) (queue (combos s))).
  { cbn [on_below on_combos combos]. rewrite E2. apply tick_queue. lia. }
  rewrite app_assoc, <- L2.
  match goal with |- context [if ?b then on_below _ _ else _] => destruct b end;
    match goal with |- context [dump_from fuel _ _ ?t] => exact (Hsame t _ R3 Q3) end.
Qed.

Lemma dump_delivers s : combo_wf (combos s) ->
  let s' := dump_key_buffer s in
  (exists l, combos s' = set_key_buffer 0 l 0 (combos s) /\ lenZ l = COMBO_KEY_BUFFER_LENGTH)
  /\ log s' = log s ++ concat (map delivered (queue (combos s))).
Proof.
  intros Hc. unfold dump_key_buffer. pose proof (wf_size _ Hc) as Hz. pose proof (wf_keys _ Hc) as Hk. cbv zeta.
  pose proof (wf_next _ Hc) as Hn. rewrite Hn.
  destruct (Z.eqb_spec (key_buffer_size (combos s)) 0) as [E|E].
  { split; [|unfold queue; by rewrite E, app_nil_r]. exists (key_buffer (combos s)). split; [|done].
    destruct s as [[] w]. cbn in *. by subst. }
  destruct (dump_from_delivers buffer_fuel 0 false s) as [(l & n & E1 & E2) H2]; [lia|lia|unfold buffer_fuel; rewrite Z2Nat.id by done; lia|].
  change (Z.to_nat 0) with O in H2. rewrite drop_0 in H2. generalize dependent (dump_from buffer_fuel 0 false s). intros t E1 H2.
  split; [|exact H2]. exists l. cbn [on_combos combos]. rewrite E1. unfold lenZ in *. cbn. split; [done|]. cbn in *. lia.
Qed.
End logging.
