(* ===== verification/ComboTheorems.v ===== *)
(** What calls into the combo code, and the bounds of its statics. *)

From S2P Require Import Prelude.
From S2P Require Import QmkSettings.
From S2P Require Import KeymapCommon.
From S2P Require Import Keyboard.
From S2P Require Import Combo.
From S2P Require Import ComboProofs.

(** What calls into the combo code: key records with their keycodes, the task of
    the main loop, the public functions, and the rest of the firmware, which
    changes its own state. *)
Inductive combo_step (W : Type) :=
| Key (keycode : Z) (record : keyrecord_t)
| Task
| Enable
| Disable
| Toggle
| Elsewhere (f : W -> W).
Arguments Key {W} _ _.
Arguments Task {W}.
Arguments Enable {W}.
Arguments Disable {W}.
Arguments Toggle {W}.
Arguments Elsewhere {W} _.

Definition is_control (keycode : Z) : bool :=
  (keycode =? QK_COMBO_ON) || (keycode =? QK_COMBO_OFF) || (keycode =? QK_COMBO_TOGGLE).

Section steps.
Context {W : Type} {host : ComboHost W} {qcfg : QmkSettingsConfig}.
Implicit Types (s : combined (W * list keyrecord_t)) (record : keyrecord_t) (steps : list (combo_step W)).

Definition combo_run_step s (step : combo_step W) : combined (W * list keyrecord_t) :=
  match step with
  | Key keycode record =>
      let '(go, s) := process_combo keycode record s in
      if go : bool then on_below (tapping_process record) s else s
  | Task => combo_task s
  | Enable => on_combos combo_enable s
  | Disable => combo_disable s
  | Toggle => combo_toggle s
  | Elsewhere f => on_below (fun w => (f w.1, w.2)) s
  end.
Definition combo_run steps s : combined (W * list keyrecord_t) := foldl combo_run_step s steps.
Definition combo_boot (tbl : list (list Z * Z)) (w : W) : combined (W * list keyrecord_t) :=
  mk_combined (combos_start tbl) (w, []).

(** Key records are events, with keycodes that do not control the combos. *)
Definition step_ok (step : combo_step W) : Prop :=
  match step with
  | Key keycode record => IS_EVENT (rec_event record) = true /\ is_control keycode = false
  | _ => True
  end.
Definition presses_of (step : combo_step W) : list (keyrecord_t * Z) :=
  match step with
  | Key keycode record => if ev_pressed (rec_event record) then [(record, keycode)] else []
  | _ => []
  end.
(** There is room in the buffer for each press. *)
Definition has_room (step : combo_step W) s : Prop :=
  match step with
  | Key _ record => ev_pressed (rec_event record) = true -> key_buffer_size (combos s) < COMBO_KEY_BUFFER_LENGTH
  | _ => True
  end.

Definition pressed_records (l : list keyrecord_t) : list keyrecord_t :=
  List.filter (fun r => ev_pressed (rec_event r)) l.

Lemma clear_timer_keys c : combo_wf c -> same_keys c (clear_combos (set_timer 0 c)).
Proof. intros H. pose proof (set_timer_keys 0 c H) as H1. eapply same_keys_trans; [exact H1|]. apply clear_combos_keys, H1. Qed.

Lemma enqueue_wf record keycode c : combo_wf c -> combo_wf (enqueue_key keycode record c).
Proof.
  intros H. unfold enqueue_key. case_if; [|done]. pose proof (wf_size _ H). destruct H. constructor; try done; cbn; [lia|].
  unfold lenZ in *. by rewrite length_insert.
Qed.

Lemma enqueue_queue record keycode c : combo_wf c -> key_buffer_size c < COMBO_KEY_BUFFER_LENGTH ->
  queue (enqueue_key keycode record c) = queue c ++ [mk_queued record NONE16 keycode].
Proof.
  intros Hw Hz. pose proof (wf_size _ Hw). pose proof (wf_keys _ Hw) as Hk. unfold lenZ in Hk.
  unfold enqueue_key. rewrite (proj2 (Z.ltb_lt _ _)) by done. unfold queue. cbn [set_key_buffer key_buffer_size key_buffer].
  replace (Z.to_nat (key_buffer_size c + 1)) with (S (Z.to_nat (key_buffer_size c))) by lia.
  erewrite take_S_r; [|apply list_lookup_insert_eq; lia]. f_equal. apply take_insert_ge. lia.
Qed.

(** [combo_disable] before the buffer is emptied. *)
Lemma disabling_keys c : combo_wf c -> same_keys c
  (clear_combos (set_combo_buffer (combo_buffer_write c) (combo_buffer_write c) (combo_buffer c) (set_enable false (set_timer 0 c)))).
Proof.
  intros Hw. pose proof (set_timer_keys 0 _ Hw) as H1. pose proof (set_enable_keys false _ (same_keys_wf _ _ H1)) as H2.
  pose proof (same_keys_trans _ _ _ H1 H2) as H3. assert (Hc := same_keys_wf _ _ H3).
  eapply same_keys_trans; [exact H3|]. eapply same_keys_trans; [|apply clear_combos_keys]; apply set_ring_keys; apply Hc.
Qed.

Lemma clear_longest_keys c : combo_wf c -> same_keys c (set_timer 0 (set_longest 0 c)).
Proof. intros H. pose proof (set_longest_keys 0 _ H) as H1. eapply same_keys_trans; [exact H1|]. apply set_timer_keys, H1. Qed.

(** The task empties the buffer once the term is over. *)
Definition combos_due s : bool :=
  b_combo_enable (combos s)
  && (truthy (timer (combos s)) && (longest_term (combos s) <? TIMER_DIFF_16 (host_time (below s)) (timer (combos s)))).

Lemma combo_task_due s : combos_due s = false -> combo_task s = s.
Proof. unfold combos_due, combo_task. destruct (b_combo_enable (combos s)); [|done]. cbn [negb andb]. by intros ->. Qed.

(** Nothing is pressed at the start. *)
Lemma boot_wf tbl (w : W) : lenZ tbl < NONE16 -> combo_wf (combos (combo_boot tbl w)) /\ table (combos (combo_boot tbl w)) = tbl.
Proof.
  intros Hn. split.
  - constructor; try done.
    + unfold combo_count, lenZ in *. cbn. by rewrite length_map.
    + cbn. apply Forall_map, Forall_true. intros. cbn. lia.
    + repeat constructor; lia.
  - unfold table. cbn. rewrite map_map. rewrite <- (map_id tbl) at 2. apply map_ext. by intros [].
Qed.

(** ** Bounds *)

Lemma dump_wf s : combo_wf (combos s) -> combo_wf (combos (dump_key_buffer s)).
Proof.
  intros Hw. destruct (dump_delivers s Hw) as [(l & -> & El) _]. destruct Hw; by constructor.
Qed.
Lemma dump_term s : combo_wf (combos s) -> longest_term (combos (dump_key_buffer s)) = longest_term (combos s).
Proof. intros Hw. by destruct (dump_delivers s Hw) as [(l & -> & El) _]. Qed.
Lemma dump_table s : combo_wf (combos s) -> table (combos (dump_key_buffer s)) = table (combos s).
Proof. intros Hw. by destruct (dump_delivers s Hw) as [(l & -> & El) _]. Qed.
Lemma apply_combos_wf s : combo_wf (combos s) -> combo_wf (combos (apply_combos s)).
Proof. intros H. unfold apply_combos. apply clear_combos_keys, dump_wf, apply_from_size, H. Qed.
Lemma apply_combos_table s : combo_wf (combos s) -> table (combos (apply_combos s)) = table (combos s).
Proof.
  intros H. unfold apply_combos. destruct (apply_from_size ring_fuel (combo_buffer_read (combos s)) (combos s) H) as (Hw & Ht & _).
  set (s1 := on_combos _ s). change (combo_wf (combos s1)) in Hw. change (table (combos s1) = table (combos s)) in Ht.
  pose proof (clear_combos_keys _ (dump_wf s1 Hw)) as (_ & Hc & _). cbn [on_combos combos]. by rewrite Hc, dump_table.
Qed.
(** Every state of a run has its indices in bounds and the table it started
    with, and no combo's term makes the code wait longer than [max_term]. *)
Definition combo_good tbl (max_term : Z) s : Prop :=
  combo_wf (combos s) /\ table (combos s) = tbl /\ longest_term (combos s) <= max_term.

Lemma keys_good tbl max_term f s : (forall c, combo_wf c -> same_keys c (f c)) ->
  longest_term (f (combos s)) <= max_term -> combo_wf (combos s) -> table (combos s) = tbl ->
  combo_good tbl max_term (on_combos f s).
Proof. intros Hf Hl Hw Ht. destruct (Hf _ Hw) as (H1 & H2 & _). split_and!; [done|cbn; by rewrite H2|done]. Qed.

Lemma disable_good tbl max_term s : 0 <= max_term -> combo_good tbl max_term s -> combo_good tbl max_term (combo_disable s).
Proof.
  intros Hm (Hw & Ht & Hl). pose proof (disabling_keys _ Hw) as Hd. unfold combo_disable.
  pose proof (same_keys_wf _ _ Hd). split_and!; [by apply dump_wf|rewrite dump_table by done|by rewrite dump_term].
  etransitivity; [apply Hd|done].
Qed.
Lemma enable_good tbl max_term s : combo_good tbl max_term s -> combo_good tbl max_term (on_combos combo_enable s).
Proof. intros (Hw & Ht & Hl). by apply keys_good; [intros; apply set_enable_keys|..]. Qed.
Lemma toggle_good tbl max_term s : 0 <= max_term -> combo_good tbl max_term s -> combo_good tbl max_term (combo_toggle s).
Proof. intros Hm H. unfold combo_toggle. case_if; [by apply disable_good|by apply enable_good]. Qed.

(** After the buffer is emptied. *)
Lemma flushed_good tbl max_term s : 0 <= max_term -> combo_wf (combos s) -> table (combos s) = tbl ->
  combo_good tbl max_term (apply_combos s)
  /\ combo_good tbl max_term (on_combos (fun c => clear_combos (set_timer 0 c)) (dump_key_buffer s)).
Proof.
  intros Hm Hw Ht. split.
  - split_and!; [by apply apply_combos_wf|by rewrite apply_combos_table|done].
  - apply keys_good; [apply clear_timer_keys|done|by apply dump_wf|by rewrite dump_table].
Qed.

Lemma drop_from_term fuel i idx c : longest_term (drop_from fuel i idx c) = longest_term c.
Proof. revert i. induction fuel as [|fuel IH]; intros i; [done|]. cbn [drop_from]. by repeat case_if. Qed.
Lemma check_overlaps_term fuel i idx c : longest_term (check_overlaps fuel i idx c).2 = longest_term c.
Proof.
  revert i c. induction fuel as [|fuel IH]; intros i c; [done|]. cbn [check_overlaps]. case_if; [done|].
  destruct (overlaps c _ idx); [|by rewrite IH]. case_if; [done|]. rewrite IH. by case_if.
Qed.
Lemma combo_key_down_term idx i n term now c max_term : term <= max_term -> longest_term c <= max_term ->
  longest_term (combo_key_down idx i n term now c) <= max_term.
Proof.
  intros Ht Hc. unfold combo_key_down. set (c1 := if active _ then c else _).
  assert (H1 : longest_term c1 <= max_term) by (unfold c1; case_if; [done|]; cbv zeta; case_if; done).
  clearbody c1. case_if; [|done]. case_if; [done|]. unfold buffer_combo.
  pose proof (check_overlaps_term ring_fuel (combo_buffer_read c1) idx c1) as Eo.
  destruct (check_overlaps _ _ _ c1). cbn in Eo. case_if; [by rewrite Eo|]. cbn. by rewrite Eo.
Qed.

Lemma single_term keycode record idx s max_term : (forall w : W, get_combo_term w <= max_term) ->
  longest_term (combos s) <= max_term -> longest_term (combos (process_single_combo keycode record idx s).2) <= max_term.
Proof.
  intros Hm Hs. unfold process_single_combo. destruct (find_key _ _) as [i n]. case_if; [done|]. cbv zeta. case_if.
  - cbn. apply combo_key_down_term; [apply Hm|done].
  - unfold combo_key_up. match goal with |- context [let '(p, t) := ?b in _] => set (r := b) end.
    assert (H : longest_term (combos r.2) <= max_term).
    { unfold r, drop_combo_from_buffer, release_combo. repeat case_if; cbn; by rewrite ?drop_from_term. }
    by destruct r.
Qed.

Lemma table_term keycode record s max_term : (forall w : W, get_combo_term w <= max_term) ->
  longest_term (combos s) <= max_term -> longest_term (combos (process_combo_table keycode record s).2) <= max_term.
Proof.
  intros Hm Hs. unfold process_combo_table. generalize (seqZ 0 (combo_count (combos s))) as l.
  change (longest_term (combos (false, s).2) <= max_term) in Hs. revert Hs. generalize (false, s) as r.
  intros r Hr l. revert r Hr. induction l as [|idx l IH]; intros [b t] Hr; [done|]. cbn [foldl]. apply IH. cbn in Hr.
  pose proof (single_term keycode record idx t max_term Hm Hr). by destruct (process_single_combo _ _ _ t).
Qed.

Lemma process_combo_good tbl keycode record s max_term : 0 <= max_term -> (forall w : W, get_combo_term w <= max_term) ->
  combo_good tbl max_term s -> combo_good tbl max_term (process_combo keycode record s).2.
Proof.
  intros H0 Hm H. pose proof H as (Hw & Ht & Hl). unfold process_combo.
  case_if; [by apply enable_good|]. case_if; [by apply disable_good|]. case_if; [by apply toggle_good|].
  pose proof (table_quiet keycode record s Hw) as [Hq _]. pose proof (table_term keycode record s max_term Hm Hl) as Hterm.
  destruct (process_combo_table keycode record s) as [hit s1]. cbn [snd] in *. destruct Hq as (Hq & Ht1 & _).
  rewrite <- Ht1 in Ht. case_if; [|case_if; by apply flushed_good].
  split_and!; [apply enqueue_wf, set_timer_keys, Hq|..]; cbn; unfold enqueue_key; by case_if.
Qed.

Lemma combo_step_good tbl step s max_term : 0 <= max_term -> (forall w : W, get_combo_term w <= max_term) ->
  combo_good tbl max_term s -> combo_good tbl max_term (combo_run_step s step).
Proof.
  intros H0 Hm H. destruct step; cbn [combo_run_step]; [..|done].
  - pose proof (process_combo_good tbl keycode record s max_term H0 Hm H) as Hp. destruct (process_combo _ _ s) as [[] t]; done.
  - unfold combo_task. destruct H as (Hw & Ht & Hl). repeat case_if; try done.
    + destruct (flushed_good tbl max_term s H0 Hw Ht) as [(Ha & Hb & _) _]. by apply keys_good; [apply clear_longest_keys|..].
    + by apply flushed_good.
  - by apply enable_good.
  - by apply disable_good.
  - by apply toggle_good.
Qed.

Lemma combo_run_good tbl steps s max_term : 0 <= max_term -> (forall w : W, get_combo_term w <= max_term) ->
  combo_good tbl max_term s -> combo_good tbl max_term (combo_run steps s).
Proof. intros H0 Hm. revert s. induction steps as [|step steps IH]; intros s H; [done|]. apply IH. by apply combo_step_good. Qed.

Lemma boot_good tbl w max_term : 0 <= max_term -> lenZ tbl < NONE16 -> combo_good tbl max_term (combo_boot tbl w).
Proof. intros Hm Hn. destruct (boot_wf tbl w Hn). by split_and!. Qed.

(** C26: the statics of the combo code stay in bounds: however keys, tasks and
    calls follow each other, the size of the key buffer, the indices of the ring
    and the combos in it are within the arrays, the states are bytes, and the
    time to wait is no longer than the longest term. *)
Theorem combo_statics_in_bounds tbl w steps max_term :
  lenZ tbl < NONE16 -> 0 <= max_term -> (forall w : W, get_combo_term w <= max_term) ->
  let c := combos (combo_run steps (combo_boot tbl w)) in
  combo_wf c /\ table c = tbl /\ longest_term c <= max_term.
Proof.
  intros Hn H0 Hm. exact (combo_run_good tbl steps _ max_term H0 Hm (boot_good tbl w max_term H0 Hn)).
Qed.

End steps.
