(* ===== verification/ComboChord.v ===== *)
(** The life of a combo: its keys pressed together give one press of its
    keycode, and their releases one release. *)

From S2P Require Import Prelude.
From S2P Require Import QmkSettings.
From S2P Require Import KeymapCommon.
From S2P Require Import Keyboard.
From S2P Require Import Combo.
From S2P Require Import ComboProofs.
From S2P Require Import ComboTheorems.

(** ** Places of keys and the bits of a state *)

Fixpoint place (kc : Z) (l : list Z) : option nat :=
  match l with
  | [] => None
  | k :: l => if kc =? k then Some O else S <$> place kc l
  end.

Lemma place_lookup kc l n : place kc l = Some n -> l !! n = Some kc.
Proof.
  revert n. induction l as [|k l IH]; intros n H; [done|]. cbn in H. case_if_in H; [injection H as <-; by subst|].
  destruct (place kc l) as [m|] eqn:Ep; [|done]. injection H as <-. by apply IH.
Qed.
Lemma place_none kc l : place kc l = None -> ~ In kc l.
Proof.
  induction l as [|k l IH]; intros H; [by intros []|]. cbn in H. case_if_in H; [done|].
  destruct (place kc l); [discriminate H|]. intros [Hk|Hi]; [congruence|]. by apply IH.
Qed.

Lemma find_place keys kc i n : 0 <= n -> n + lenZ (combo_keys_of keys) < 256 -> NoDup (combo_keys_of keys) ->
  find_key_index_and_count keys kc i n =
    (match place kc (combo_keys_of keys) with Some p => n + Z.of_nat p | None => i end, n + lenZ (combo_keys_of keys)).
Proof.
  revert i n. induction keys as [|k keys IH]; intros i n Hn Hl Hd.
  { cbn. by rewrite lenZ_nil, Z.add_0_r. }
  cbn [find_key_index_and_count combo_keys_of place] in *. destruct (Z.eqb_spec COMBO_END k).
  { cbn. by rewrite lenZ_nil, Z.add_0_r. }
  rewrite lenZ_cons in *. pose proof (lenZ_nonneg (combo_keys_of keys)). inversion Hd as [|? ? Hk Hd']; subst. cbn [place].
  rewrite u8_id, IH by (done || lia). f_equal; [|lia].
  destruct (Z.eqb_spec kc k) as [->|].
  - destruct (place k (combo_keys_of keys)) eqn:Ep; [|lia]. apply place_lookup, list_elem_of_lookup_2 in Ep. done.
  - destruct (place kc (combo_keys_of keys)); cbn; [lia|done].
Qed.

(** A duplicate-free part of a list is all of it or misses an element. *)
Lemma part_or_all (l k : list Z) : NoDup l -> Forall (fun x => In x k) l -> NoDup k ->
  (lenZ l = lenZ k /\ l ≡ₚ k) \/ (lenZ l < lenZ k /\ exists x, In x k /\ ~ In x l).
Proof.
  unfold lenZ. intros Hl Hin Hk. assert (Hs : l ⊆+ k).
  { apply NoDup_submseteq; [done|]. intros x Hx. apply list_elem_of_In. rewrite Forall_forall in Hin. apply Hin. by apply list_elem_of_In. }
  pose proof (submseteq_length _ _ Hs) as Hn. destruct (decide (length l = length k)) as [E|E].
  - left. split; [lia|]. by apply submseteq_length_Permutation; [|lia].
  - right. split; [lia|]. destruct (decide (Forall (fun x => x ∈ l) k)) as [Hall|Hnot].
    + exfalso. assert (Hs' : k ⊆+ l).
      { apply NoDup_submseteq; [done|]. intros x Hx. rewrite Forall_forall in Hall. apply Hall. by apply list_elem_of_In. }
      apply submseteq_length in Hs'. lia.
    + apply not_Forall_Exists in Hnot; [|intros x; apply _]. apply Exists_exists in Hnot as (x & Hx & Hni).
      exists x. split; [done|]. intros Hi. apply Hni. by apply list_elem_of_In.
Qed.

Section keys.
Context (ks : list Z) (Hdup : NoDup ks) (Hlen : lenZ ks <= 8).
Implicit Types (l : list Z) (kc st : Z).

Definition bit kc : Z := Z.of_nat (default O (place kc ks)).

Lemma bit_range kc : In kc ks -> 0 <= bit kc < lenZ ks.
Proof using.
  intros H. unfold bit. destruct (place kc ks) as [p|] eqn:E; [|by apply place_none in E].
  apply place_lookup, lookup_lt_Some in E. unfold lenZ. cbn. lia.
Qed.
Lemma bit_inj a b : In a ks -> In b ks -> bit a = bit b -> a = b.
Proof using.
  intros Ha Hb. unfold bit. destruct (place a ks) as [p|] eqn:Ea; [|by apply place_none in Ea].
  destruct (place b ks) as [q|] eqn:Eb; [|by apply place_none in Eb]. cbn. intros E. assert (p = q) as -> by lia.
  apply place_lookup in Ea, Eb. congruence.
Qed.
Lemma bit_onto i : 0 <= i < lenZ ks -> exists kc, In kc ks /\ bit kc = i.
Proof using Hdup.
  intros Hi. unfold lenZ in Hi. destruct (lookup_lt_is_Some_2 ks (Z.to_nat i)) as [kc Hk]; [lia|].
  assert (Hin : In kc ks) by (apply list_elem_of_In, list_elem_of_lookup; eauto). exists kc. split; [done|].
  unfold bit. destruct (place kc ks) as [p|] eqn:E; [|by apply place_none in E]. apply place_lookup in E. cbn.
  rewrite (NoDup_lookup ks p (Z.to_nat i) kc Hdup E Hk). lia.
Qed.

(** [st] has the bits of the keys [l]. *)
Definition bits_of l st : Prop :=
  byte_range st /\ forall i, 0 <= i -> Z.testbit st i = true <-> exists kc, In kc l /\ bit kc = i.

Lemma bits_nil : bits_of [] 0.
Proof using. split; [lia|]. intros i _. rewrite Z.bits_0. split; [done|]. by intros (? & [] & _). Qed.

Lemma bits_perm l k st : l ≡ₚ k -> bits_of l st -> bits_of k st.
Proof using.
  intros Hp [H1 H2]. split; [done|]. intros i Hi. rewrite H2 by done.
  assert (Hin : forall x, In x l <-> In x k) by (intros x; split; apply Permutation_in; [done|by symmetry]).
  split; intros (kc & Hk & Hb); exists kc; (split; [by apply Hin|done]).
Qed.

Lemma one_bit i j : 0 <= i -> 0 <= j -> Z.testbit (1 << i) j = (i =? j).
Proof using. intros. rewrite Z.shiftl_1_l. by apply Z.pow2_bits_eqb. Qed.

Lemma small_bits z : 0 <= z -> (forall i, 8 <= i -> Z.testbit z i = false) -> byte_range z.
Proof using. intros. split; [done|]. apply (bounded_of_bits 8); done. Qed.

Lemma bits_down l kc st : In kc ks -> bits_of l st -> bits_of (kc :: l) (KEY_STATE_DOWN (bit kc) st).
Proof using Hlen.
  intros Hk [H1 H2]. pose proof (bit_range kc Hk) as Hb. unfold KEY_STATE_DOWN.
  assert (Hs : byte_range (st .| (1 << bit kc))).
  { apply (lor_range 8); [done|exact H1|]. rewrite Z.shiftl_1_l. split; [lia|]. apply Z.pow_lt_mono_r; lia. }
  rewrite u8_id by done. split; [done|]. intros i Hi. rewrite Z.lor_spec, one_bit, orb_true_iff, H2, Z.eqb_eq by lia.
  split; [intros [(x & Hx & Hi')|E]|intros (x & [->|Hx] & E)]; eauto using in_eq, in_cons.
Qed.

Lemma bits_up l kc st : In kc ks -> ~ In kc l -> Forall (fun k => In k ks) l ->
  bits_of (kc :: l) st -> bits_of l (KEY_STATE_UP (bit kc) st).
Proof using Hlen.
  intros Hk Hn Hl [H1 H2]. pose proof (bit_range kc Hk) as Hb. unfold KEY_STATE_UP.
  assert (Hs : byte_range (st .& Z.lnot (1 << bit kc))) by (apply (land_range_l 8); [done|exact H1]).
  rewrite u8_id by done. split; [done|]. intros i Hi.
  rewrite Z.land_spec, Z.lnot_spec, one_bit, andb_true_iff, H2, negb_true_iff, Z.eqb_neq by lia.
  rewrite Forall_forall in Hl. split.
  - intros [(x & [->|Hx] & E) Hne]; [done|]. eauto.
  - intros (x & Hx & E). split; [exists x; by split; [right|]|]. intros E2. apply Hn.
    rewrite (bit_inj kc x Hk); [done| |lia]. by apply Hl.
Qed.

Lemma bits_full l st : l ≡ₚ ks -> bits_of l st -> ALL_COMBO_KEYS_ARE_DOWN st (lenZ ks) = true.
Proof using Hdup Hlen.
  intros Hp Hb. apply (bits_perm _ _ _ Hp) in Hb. destruct Hb as [H1 H2]. unfold ALL_COMBO_KEYS_ARE_DOWN. apply Z.eqb_eq.
  pose proof (lenZ_nonneg ks). replace ((1 << lenZ ks) - 1) with (Z.ones (lenZ ks)) by (unfold Z.ones; lia).
  apply Z.bits_inj'. intros i Hi. rewrite Z.testbit_ones_nonneg by done.
  apply eq_true_iff_eq. rewrite H2, Z.ltb_lt by done. split; [intros; by apply bit_onto|].
  intros (kc & Hk & <-). by apply bit_range.
Qed.

Lemma bits_partial l kc st : In kc ks -> ~ In kc l -> Forall (fun k => In k ks) l ->
  bits_of l st -> ALL_COMBO_KEYS_ARE_DOWN st (lenZ ks) = false.
Proof using.
  intros Hk Hn Hl [H1 H2]. unfold ALL_COMBO_KEYS_ARE_DOWN. apply Z.eqb_neq. intros E.
  pose proof (bit_range kc Hk). assert (Ht : Z.testbit st (bit kc) = true).
  { rewrite <- E. replace ((1 << lenZ ks) - 1) with (Z.ones (lenZ ks)) by (unfold Z.ones; lia).
    rewrite Z.testbit_ones_nonneg by lia. apply Z.ltb_lt. lia. }
  apply H2 in Ht; [|lia]. destruct Ht as (x & Hx & Eb). apply Hn. rewrite Forall_forall in Hl.
  rewrite (bit_inj kc x Hk); [done| |lia]. by apply Hl.
Qed.

(** [ONLY_ONE_KEY_IS_DOWN] on bytes. *)
Lemma only_one_bit st i j : byte_range st -> ONLY_ONE_KEY_IS_DOWN st = true ->
  0 <= i -> 0 <= j -> Z.testbit st i = true -> Z.testbit st j = true -> i = j.
Proof using.
  intros Hs H Hi Hj Ei Ej.
  assert (Hi8 : i < 8) by (destruct (Z.lt_ge_cases i 8); [done|by rewrite (testbit_byte st i) in Ei]).
  assert (Hj8 : j < 8) by (destruct (Z.lt_ge_cases j 8); [done|by rewrite (testbit_byte st j) in Ej]).
  assert (Hall : forallb (fun st => forallb (fun i => forallb (fun j =>
    implb (ONLY_ONE_KEY_IS_DOWN st && Z.testbit st i && Z.testbit st j) (i =? j)) (seqZ 0 8)) (seqZ 0 8)) (seqZ 0 256) = true)
    by (vm_compute; reflexivity).
  rewrite forallb_forall in Hall. specialize (Hall st). rewrite <- list_elem_of_In, elem_of_seqZ in Hall. specialize (Hall ltac:(lia)).
  rewrite forallb_forall in Hall. specialize (Hall i). rewrite <- list_elem_of_In, elem_of_seqZ in Hall. specialize (Hall ltac:(lia)).
  rewrite forallb_forall in Hall. specialize (Hall j). rewrite <- list_elem_of_In, elem_of_seqZ in Hall. specialize (Hall ltac:(lia)).
  rewrite H, Ei, Ej in Hall. by apply Z.eqb_eq.
Qed.

Lemma bits_down_now l kc st : In kc ks -> In kc l -> bits_of l st -> KEY_NOT_YET_RELEASED st (bit kc) = true.
Proof using.
  intros Hk Hl [H1 H2]. pose proof (bit_range kc Hk). unfold KEY_NOT_YET_RELEASED. rewrite Z.land_comm, truthy_bit by lia.
  apply H2; [lia|]. eauto.
Qed.

Lemma bits_last kc st : In kc ks -> bits_of [kc] st -> ONLY_ONE_KEY_IS_DOWN st = true.
Proof using Hlen.
  intros Hk [H1 H2]. pose proof (bit_range kc Hk). assert (E : st = 1 << bit kc).
  { apply Z.bits_inj'. intros i Hi. rewrite one_bit by lia. apply eq_true_iff_eq. rewrite H2, Z.eqb_eq by done.
    split; [intros (x & [->|[]] & E); done|]. intros <-. exists kc. split; [by left|done]. }
  assert (Hall : forallb (fun i => ONLY_ONE_KEY_IS_DOWN (1 << i)) (seqZ 0 8) = true) by (vm_compute; reflexivity).
  rewrite forallb_forall in Hall. rewrite E. apply Hall. rewrite <- list_elem_of_In, elem_of_seqZ. lia.
Qed.

Lemma bits_more a b l st : In a ks -> In b ks -> a <> b -> bits_of (a :: b :: l) st -> ONLY_ONE_KEY_IS_DOWN st = false.
Proof using.
  intros Ha Hb Hne [H1 H2]. destruct (ONLY_ONE_KEY_IS_DOWN st) eqn:E; [|done]. exfalso. apply Hne.
  pose proof (bit_range a Ha). pose proof (bit_range b Hb). apply bit_inj; [done|done|].
  apply (only_one_bit st); try done; try lia; apply H2; try lia; eexists; (split; [|reflexivity]); cbn; auto.
Qed.
End keys.

(** A moment in the main loop: the state of the rest of the firmware, and a key
    record with its keycode, or none, in which case the task runs. *)
Section moments.
Context {W : Type} {host : ComboHost W}.
Definition moment : Type := W * option (keyrecord_t * Z).
Definition moment_steps (m : moment) : list (combo_step W) :=
  [Elsewhere (fun _ => m.1); match m.2 with Some (record, kc) => Key kc record | None => Task end].
Definition moments_steps (ms : list moment) : list (combo_step W) := concat (map moment_steps ms).
Definition keys_of (ms : list moment) : list (keyrecord_t * Z) := omap snd ms.
Definition keys_pressed (b : bool) (ms : list moment) : Prop :=
  Forall (fun p => ev_pressed (rec_event p.1) = b) (keys_of ms).
(** The time of the last key. *)
Definition last_key (ms : list moment) (last : option Z) : option Z :=
  foldl (fun last (m : moment) => match m.2 with Some _ => Some (host_time m.1) | None => last end) last ms.
(** The term of the combos is [term], and each moment is within it after the
    last key. *)
Fixpoint in_time (term : Z) (ms : list moment) (last : option Z) : Prop :=
  match ms with
  | [] => True
  | m :: ms =>
      get_combo_term m.1 = term /\ (forall time, last = Some time -> TIMER_DIFF_16 (host_time m.1) time <= term)
      /\ in_time term ms (match m.2 with Some _ => Some (host_time m.1) | None => last end)
  end.
End moments.

Lemma combo_get_set c i j f : 0 <= i < combo_count c -> 0 <= j ->
  combo_get (set_combo i f c) j = if i =? j then f (combo_get c j) else combo_get c j.
Proof.
  intros Hi Hj. unfold combo_get, set_combo, combo_count, lenZ in *. cbn [set_key_combos key_combos].
  rewrite !nth_lookup, list_lookup_alter. destruct (Z.eqb_spec i j) as [->|]; case_decide; try lia; [|done].
  destruct (lookup_lt_is_Some_2 (key_combos c) (Z.to_nat j)) as [x ->]; [lia|done].
Qed.

Lemma combo_get_map c f j : 0 <= j < combo_count c ->
  combo_get (set_key_combos (map f (key_combos c)) c) j = f (combo_get c j).
Proof.
  intros Hj. unfold combo_get, combo_count, lenZ in *. cbn [set_key_combos key_combos]. rewrite !nth_lookup.
  change (map f (key_combos c)) with (f <$> key_combos c). rewrite list_lookup_fmap.
  destruct (lookup_lt_is_Some_2 (key_combos c) (Z.to_nat j)) as [x ->]; [lia|done].
Qed.

Lemma combo_get_table c c' j : table c' = table c -> shape (combo_get c' j) = shape (combo_get c j).
Proof.
  intros Ht. unfold combo_get. rewrite !nth_lookup.
  assert (Hk : shape <$> key_combos c' !! Z.to_nat j = shape <$> key_combos c !! Z.to_nat j).
  { rewrite <- !list_lookup_fmap. unfold fmap, list_fmap. by f_equal. }
  destruct (key_combos c' !! Z.to_nat j), (key_combos c !! Z.to_nat j); cbn in *; congruence.
Qed.
Lemma find_key_table c c' kc j : table c' = table c -> find_key (combo_get c' j) kc = find_key (combo_get c j) kc.
Proof. intros Ht. unfold find_key. pose proof (combo_get_table _ _ j Ht) as H. injection H as Hk _. by rewrite Hk. Qed.

(** Nothing is pressed. *)
Record combos_rest (c : combo_st) : Prop := {
  rest_wf : combo_wf c;
  rest_enabled : b_combo_enable c = true;
  rest_size : key_buffer_size c = 0;
  rest_timer : timer c = 0;
  rest_term : longest_term c = 0;
  rest_ring : combo_buffer_read c = combo_buffer_write c;
  rest_flags : forall j, 0 <= j < combo_count c ->
    disabled (combo_get c j) = false /\ active (combo_get c j) = false /\ state (combo_get c j) = 0;
}.

(** Combo [idx] has up to eight keys, which are keys of no other combo. *)
Record chord (c : combo_st) (idx : Z) : Prop := {
  chord_idx : 0 <= idx < combo_count c;
  chord_nodup : NoDup (the_keys (combo_get c idx));
  chord_length : 0 < lenZ (the_keys (combo_get c idx)) <= 8;
  chord_alone : forall j k, 0 <= j < combo_count c -> j <> idx ->
    In k (the_keys (combo_get c j)) -> ~ In k (the_keys (combo_get c idx));
  chord_plain : Forall (fun k => is_control k = false) (the_keys (combo_get c idx));
  chord_output : keycode (combo_get c idx) <> 0;
}.

Section chord.
Context {W : Type} {host : ComboHost W} {qcfg : QmkSettingsConfig}.
Context (c0 : combo_st) (idx term : Z) (Hrest : combos_rest c0) (Hchord : chord c0 idx) (Hterm : 0 <= term).
Implicit Types (c : combo_st) (s : combined (W * list keyrecord_t)).

Definition chord_keys : list Z := the_keys (combo_get c0 idx).
Definition chord_bit (kc : Z) : Z := bit chord_keys kc.

Lemma find_chord c kc : table c = table c0 -> In kc chord_keys ->
  find_key (combo_get c idx) kc = (chord_bit kc, lenZ chord_keys).
Proof using Hchord.
  intros Ht Hk. rewrite (find_key_table c0) by done. unfold find_key. destruct (chord_length _ _ Hchord).
  rewrite find_place; [|done|unfold the_keys in *; lia|apply Hchord]. fold (the_keys (combo_get c0 idx)). fold chord_keys.
  unfold chord_bit, bit. destruct (place kc chord_keys) eqn:E; [done|by apply place_none in E].
Qed.

Lemma find_other c kc j : table c = table c0 -> In kc chord_keys -> 0 <= j < combo_count c -> j <> idx ->
  (find_key (combo_get c j) kc).1 = NONE16.
Proof using Hchord.
  intros Ht Hk Hj Hne. rewrite (find_key_table c0) by done. unfold find_key.
  destruct (decide ((find_key_index_and_count (keys (combo_get c0 j)) kc NONE16 0).1 = NONE16)) as [|Hf]; [done|].
  exfalso. apply find_key_in in Hf. rewrite (table_count _ _ Ht) in Hj.
  by apply (chord_alone _ _ Hchord j kc Hj Hne Hf).
Qed.

(** Only combo [idx] sees its keys. *)
Lemma table_chord kc record s : combo_wf (combos s) -> table (combos s) = table c0 -> In kc chord_keys ->
  process_combo_table kc record s = process_single_combo kc record idx s.
Proof using Hchord.
  intros Hw Ht Hk. unfold process_combo_table.
  pose proof (table_count _ _ Ht) as Hn. pose proof (chord_idx _ _ Hchord) as Hi.
  assert (Hskip : forall l b (t : combined (W * list keyrecord_t)), table (combos t) = table c0 -> Forall (fun j => 0 <= j < combo_count c0 /\ j <> idx) l ->
    foldl (fun '(is_combo_key, s) idx => let '(part, s) := process_single_combo kc record idx s in (is_combo_key || part, s))
      (b, t) l = (b, t)).
  { intros l b t Htt Hl. induction Hl as [|j l [Hj Hne] _ IH]; [done|]. cbn [foldl].
    unfold process_single_combo at 2. pose proof (find_other (combos t) kc j Htt Hk) as Hf.
    rewrite (table_count _ _ Htt) in Hf. specialize (Hf Hj Hne). destruct (find_key _ kc) as [i n]. cbn in Hf. subst i.
    change (NONE16 =? NONE16) with true. cbv iota. rewrite orb_false_r. exact IH. }
  replace (combo_count (combos s)) with (idx + (1 + (combo_count (combos s) - idx - 1))) by lia.
  rewrite seqZ_app, foldl_app by lia. rewrite Hskip; [|done|apply Forall_seqZ; intros; lia].
  rewrite seqZ_app, foldl_app by lia. change (seqZ (0 + idx) 1) with [0 + idx]. cbn [foldl]. rewrite Z.add_0_l.
  assert (Hq : quietly s (process_single_combo kc record idx s).2) by (apply process_single_quiet; [done|lia]).
  destruct (process_single_combo kc record idx s) as [part t]. cbn [orb]. apply Hskip.
  - destruct Hq as [(_ & Hq & _) _]. cbn in Hq. congruence.
  - apply Forall_seqZ. intros. lia.
Qed.

(** ** Pressing the keys *)

Definition fresh (p : keyrecord_t * Z) : queued_record_t := mk_queued p.1 NONE16 p.2.

(** The keys [pressed] are down, the last one since [last]. *)
Record pressing (pressed : list (keyrecord_t * Z)) (last : Z) c : Prop := {
  pr_wf : combo_wf c;
  pr_table : table c = table c0;
  pr_enabled : b_combo_enable c = true;
  pr_others : forall j, 0 <= j < combo_count c0 -> j <> idx -> combo_get c j = combo_get c0 j;
  pr_disabled : disabled (combo_get c idx) = false;
  pr_active : active (combo_get c idx) = false;
  pr_nodup : NoDup (map snd pressed);
  pr_keys : Forall (fun k => In k chord_keys) (map snd pressed);
  pr_state : bits_of chord_keys (map snd pressed) (state (combo_get c idx));
  pr_queue : queue c = map fresh pressed;
  pr_timer : timer c = last;
  pr_started : match pressed with [] => last = 0 /\ longest_term c = 0 | _ => longest_term c = term end;
  pr_ring : if lenZ pressed =? lenZ chord_keys
            then combo_buffer_write c = INCREMENT_MOD (combo_buffer_read c) /\ nthZ (combo_buffer c) (combo_buffer_read c) = idx
            else combo_buffer_write c = combo_buffer_read c;
}.

Lemma rest_pressing : pressing [] 0 c0.
Proof using Hrest Hchord.
  destruct Hrest. destruct (rest_flags0 idx) as (? & ? & Hs); [apply Hchord|]. constructor; try done.
  - constructor.
  - rewrite Hs. apply bits_nil.
  - unfold queue. by rewrite rest_size0.
  - change (lenZ (@nil (keyrecord_t * Z))) with 0. destruct (chord_length _ _ Hchord). fold chord_keys in *.
    case_if; [lia|done].
Qed.

Lemma pressing_size pressed last c : pressing pressed last c -> key_buffer_size c = lenZ pressed.
Proof using.
  intros H. pose proof (queue_length c (pr_wf _ _ _ H)) as Hl. rewrite (pr_queue _ _ _ H), length_map in Hl.
  pose proof (wf_size c (pr_wf _ _ _ H)). unfold lenZ. lia.
Qed.

(** The statics of the key going down, before the key is put in the buffer. *)
Lemma press_down pressed last c kc now : pressing pressed last c ->
  In kc chord_keys -> ~ In kc (map snd pressed) ->
  (pressed <> [] -> TIMER_DIFF_16 now last <= term) ->
  let c' := combo_key_down idx (chord_bit kc) (lenZ chord_keys) term now c in
  same_keys c c' /\ b_combo_enable c' = true
  /\ (forall j, 0 <= j < combo_count c0 -> j <> idx -> combo_get c' j = combo_get c0 j)
  /\ disabled (combo_get c' idx) = false /\ active (combo_get c' idx) = false
  /\ bits_of chord_keys (kc :: map snd pressed) (state (combo_get c' idx))
  /\ longest_term c' = term
  /\ if lenZ pressed + 1 =? lenZ chord_keys
     then combo_buffer_write c' = INCREMENT_MOD (combo_buffer_read c') /\ nthZ (combo_buffer c') (combo_buffer_read c') = idx
     else combo_buffer_write c' = combo_buffer_read c'.
Proof using Hchord Hterm.
  intros Hp Hk Hn Htime. cbv zeta. pose proof (chord_idx _ _ Hchord) as Hi. pose proof (chord_length _ _ Hchord) as Hlen.
  fold chord_keys in Hlen. pose proof (table_count _ _ (pr_table _ _ _ Hp)) as Hcount.
  split; [apply combo_key_down_keys; [apply Hp|lia]|].
  unfold combo_key_down. rewrite (pr_active _ _ _ Hp). cbv zeta.
  set (c1 := set_combo idx (with_state (KEY_STATE_DOWN (chord_bit kc))) c).
  assert (G1 : forall j, 0 <= j -> combo_get c1 j = if idx =? j then with_state (KEY_STATE_DOWN (chord_bit kc)) (combo_get c j) else combo_get c j)
    by (intros; apply combo_get_set; lia).
  set (c2 := if longest_term c1 <? term then set_longest term c1 else c1).
  assert (G2 : (forall j, combo_get c2 j = combo_get c1 j) /\ longest_term c2 = term /\ timer c2 = last
               /\ combo_buffer_read c2 = combo_buffer_read c /\ combo_buffer_write c2 = combo_buffer_write c
               /\ combo_buffer c2 = combo_buffer c /\ b_combo_enable c2 = true).
  { pose proof (pr_started _ _ _ Hp) as Hs. pose proof (pr_timer _ _ _ Hp). pose proof (pr_enabled _ _ _ Hp).
    change (longest_term c1) with (longest_term c) in *. unfold c2. change (longest_term c1) with (longest_term c).
    destruct (Z.ltb_spec (longest_term c) term) as [Hlt|Hge]; [by split_and!|]. split_and!; try done. cbn.
    destruct pressed; [lia|done]. }
  clearbody c2. destruct G2 as (G2 & L2 & T2 & R2 & W2 & B2 & E2).
  assert (Hst : bits_of chord_keys (kc :: map snd pressed) (state (combo_get c2 idx))).
  { rewrite G2, G1, Z.eqb_refl by lia. apply bits_down; [lia|done|apply Hp]. }
  assert (Hget : forall j, 0 <= j < combo_count c0 -> j <> idx -> combo_get c2 j = combo_get c0 j).
  { intros j Hj Hne. rewrite G2, G1 by lia. rewrite (proj2 (Z.eqb_neq _ _)) by done. by apply Hp. }
  assert (Hd : disabled (combo_get c2 idx) = false /\ active (combo_get c2 idx) = false).
  { rewrite G2, G1, Z.eqb_refl by lia. split; apply Hp. }
  destruct Hd as [Hd Ha].
  assert (Hnd : NoDup (kc :: map snd pressed)).
  { constructor; [|apply Hp]. intros Hin. apply Hn. by apply list_elem_of_In. }
  assert (Hks : Forall (fun k => In k chord_keys) (kc :: map snd pressed)) by (constructor; [done|apply Hp]).
  assert (Hl : lenZ (kc :: map snd pressed) = lenZ pressed + 1) by (rewrite lenZ_cons; unfold lenZ; rewrite length_map; lia).
  assert (Hring : combo_buffer_write c2 = combo_buffer_read c2).
  { rewrite W2, R2. pose proof (pr_ring _ _ _ Hp) as Hr.
    destruct (part_or_all _ _ Hnd Hks (chord_nodup _ _ Hchord)) as [[El _]|[El _]]; fold chord_keys in El;
      (rewrite (proj2 (Z.eqb_neq _ _)) in Hr by lia); done. }
  destruct (part_or_all _ _ Hnd Hks (chord_nodup _ _ Hchord)) as [[El Hfull]|[El (k & Hk' & Hni)]]; fold chord_keys in El.
  - rewrite (bits_full chord_keys (chord_nodup _ _ Hchord) (proj2 Hlen) _ _ Hfull Hst). rewrite (proj2 (Z.eqb_eq (lenZ pressed + 1) _)) by lia.
    assert (truthy (timer c2) && (term <? TIMER_DIFF_16 now (timer c2)) = false) as ->.
    { rewrite T2. pose proof (pr_started _ _ _ Hp) as Hs. destruct pressed as [|p ps]; [by destruct Hs as [-> _]|].
      specialize (Htime ltac:(done)). rewrite (proj2 (Z.ltb_ge _ _)) by done. apply andb_false_r. }
    unfold buffer_combo. change ring_fuel with 4%nat. cbn [check_overlaps]. rewrite Hring, Z.eqb_refl. cbv iota.
    cbn [set_combo_buffer combo_buffer combo_buffer_read combo_buffer_write]. rewrite Hring. split_and!; try done.
    rewrite nthZ_updZ_eq; [done|]. rewrite <- Hring, W2, B2. pose proof (wf_ring _ (pr_wf _ _ _ Hp)) as ->. apply Hp.
  - rewrite (bits_partial chord_keys _ _ _ Hk' Hni Hks Hst). rewrite (proj2 (Z.eqb_neq (lenZ pressed + 1) _)) by lia. by split_and!.
Qed.

Lemma chord_bit_some kc : In kc chord_keys -> (chord_bit kc =? NONE16) = false.
Proof using Hchord.
  intros Hk. pose proof (bit_range chord_keys kc Hk) as Hb. destruct (chord_length _ _ Hchord). unfold chord_keys, NONE16 in *.
  apply Z.eqb_neq. unfold chord_bit, chord_keys. lia.
Qed.

Lemma not_control kc : In kc chord_keys -> is_control kc = false.
Proof using Hchord. intros Hk. pose proof (chord_plain _ _ Hchord) as H. rewrite Forall_forall in H. by apply H. Qed.

Lemma process_plain kc record s : In kc chord_keys ->
  process_combo kc record s =
    let '(is_combo_key, s) := process_combo_table kc record s in
    let s :=
      if ev_pressed (rec_event record) && is_combo_key then
        on_combos (fun c => enqueue_key kc record (set_timer (host_time (below s)) c)) s
      else if combo_prepared (combos s) then apply_combos s
      else on_combos (fun c => clear_combos (set_timer 0 c)) (dump_key_buffer s) in
    (negb is_combo_key, s).
Proof using Hchord.
  intros Hk. pose proof (not_control kc Hk) as Hc. unfold is_control in Hc.
  apply orb_false_iff in Hc as [[Hon Hoff]%orb_false_iff Htog]. unfold process_combo. by rewrite Hon, Hoff, Htog.
Qed.

Lemma combo_press_step pressed last c record kc (w : W * list keyrecord_t) : pressing pressed last c ->
  In kc chord_keys -> ~ In kc (map snd pressed) -> ev_pressed (rec_event record) = true ->
  get_combo_term w = term -> (pressed <> [] -> TIMER_DIFF_16 (host_time w) last <= term) ->
  exists c', process_combo kc record (mk_combined c w) = (false, mk_combined c' w)
    /\ pressing (pressed ++ [(record, kc)]) (host_time w) c'.
Proof using Hchord Hterm.
  intros Hp Hk Hn Hr Ht Htime. rewrite process_plain, table_chord; [|apply Hp|apply Hp|done|done].
  unfold process_single_combo. cbn [combos below]. rewrite find_chord by (done || apply Hp). rewrite chord_bit_some by done.
  rewrite (pr_disabled _ _ _ Hp), (pr_enabled _ _ _ Hp), Hr, Ht. cbv zeta. cbn [negb andb].
  destruct (press_down pressed last c kc (host_time w) Hp Hk Hn Htime) as (Hs & He & Ho & Hd & Ha & Hb & Hl & Hring).
  set (c' := combo_key_down idx (chord_bit kc) (lenZ chord_keys) term (host_time w) c) in *.
  eexists. split; [reflexivity|]. cbn [on_combos combos below]. fold c'.
  assert (Hs' : same_keys c (set_timer (host_time w) c')).
  { eapply same_keys_trans; [exact Hs|]. apply set_timer_keys, Hs. }
  pose proof (same_keys_wf _ _ Hs') as Hw. set (c1 := set_timer (host_time w) c') in *.
  assert (Hsnoc : map snd (pressed ++ [(record, kc)]) ≡ₚ kc :: map snd pressed).
  { rewrite map_app. cbn. symmetry. apply Permutation_cons_append. }
  assert (Hnd : NoDup (kc :: map snd pressed)).
  { constructor; [|apply Hp]. intros Hin. apply Hn. by apply list_elem_of_In. }
  assert (Hks : Forall (fun k => In k chord_keys) (kc :: map snd pressed)) by (constructor; [done|apply Hp]).
  assert (Hsize : key_buffer_size c1 < COMBO_KEY_BUFFER_LENGTH).
  { destruct Hs' as (_ & _ & -> & _). rewrite (pressing_size _ _ _ Hp).
    pose proof (chord_length _ _ Hchord) as Hlen. fold chord_keys in Hlen.
    destruct (part_or_all _ _ Hnd Hks (chord_nodup _ _ Hchord)) as [[El _]|[El _]]; fold chord_keys in El;
      rewrite lenZ_cons in El; unfold lenZ in *; rewrite length_map in El; unfold COMBO_KEY_BUFFER_LENGTH, MAX_COMBO_LENGTH; lia. }
  assert (Hf : forall (P : combo_st -> Prop), (forall n l, P (set_key_buffer n l (key_buffer_next c1) c1)) -> P (enqueue_key kc record c1)).
  { intros P HP. unfold enqueue_key. rewrite (proj2 (Z.ltb_lt _ _)) by done. apply HP. }
  constructor.
  - by apply enqueue_wf.
  - apply Hf. intros. cbn. change (table c' = table c0). etransitivity; [apply Hs|apply Hp].
  - by apply Hf.
  - intros j Hj Hne. apply Hf. intros. by apply Ho.
  - by apply Hf.
  - by apply Hf.
  - by rewrite Hsnoc.
  - by rewrite Hsnoc.
  - apply Hf. intros. by apply (bits_perm _ (kc :: map snd pressed)).
  - rewrite enqueue_queue by done. rewrite map_app. f_equal. rewrite (same_keys_queue _ _ Hs'). apply Hp.
  - by apply Hf.
  - assert (Hl' : longest_term (enqueue_key kc record c1) = term) by (by apply Hf). by destruct pressed.
  - replace (lenZ (pressed ++ [(record, kc)])) with (lenZ pressed + 1) by (rewrite lenZ_app; done).
    apply Hf. intros. exact Hring.
Qed.

Lemma combo_poll_step pressed last c (w : W * list keyrecord_t) : pressing pressed last c ->
  (pressed <> [] -> TIMER_DIFF_16 (host_time w) last <= term) ->
  combo_task (mk_combined c w) = mk_combined c w.
Proof using.
  intros Hp Htime. apply combo_task_due. unfold combos_due. cbn [combos below].
  rewrite (pr_enabled _ _ _ Hp), (pr_timer _ _ _ Hp). cbn [andb]. pose proof (pr_started _ _ _ Hp) as Hs.
  destruct pressed as [|p ps]; [by destruct Hs as [-> _]|]. rewrite Hs. rewrite (proj2 (Z.ltb_ge _ _)) by (by apply Htime).
  apply andb_false_r.
Qed.

(** ** The combo fires *)

Definition output : Z := keycode (combo_get c0 idx).

Lemma output_table c : table c = table c0 -> keycode (combo_get c idx) = output.
Proof using. intros Ht. pose proof (combo_get_table c0 c idx Ht) as H. by injection H. Qed.

(** The keys of the combo in the buffer: all but the last become ticks, the last
    carries the combo. [down] are the keys met before. *)
Lemma apply_chord c down st ps record kc : table c = table c0 ->
  down ++ map snd (ps ++ [(record, kc)]) ≡ₚ chord_keys -> bits_of chord_keys down st ->
  exists l, apply_keys (combo_get c idx) idx st (map fresh (ps ++ [(record, kc)])) = (l, true)
    /\ length l = length (ps ++ [(record, kc)]) /\ concat (map delivered l) = [combo_record output record].
Proof using Hchord.
  intros Ht. revert down st. pose proof (chord_nodup _ _ Hchord) as Hnd. pose proof (chord_length _ _ Hchord) as [_ Hlen].
  fold chord_keys in Hnd, Hlen.
  induction ps as [|[r k] ps IH]; intros down st Hperm Hb; cbn [app map] in *.
  - assert (Hk : In kc chord_keys) by (apply (Permutation_in _ Hperm), in_app_iff; right; by left).
    cbn [apply_keys fresh fst snd q_keycode q_record]. rewrite find_chord, chord_bit_some by done.
    assert (Hf : bits_of chord_keys (kc :: down) (KEY_STATE_DOWN (chord_bit kc) st)) by (by apply bits_down).
    rewrite (bits_full chord_keys Hnd Hlen (kc :: down) _); [|by rewrite <- Hperm, Permutation_app_comm|done].
    eexists. split; [reflexivity|]. split; [done|]. cbn. unfold delivered. cbn. rewrite output_table by done.
    assert (truthy output = true) as -> by (apply negb_true_iff, Z.eqb_neq, Hchord). done.
  - assert (Hk : In k chord_keys) by (apply (Permutation_in _ Hperm), in_app_iff; right; by left).
    assert (Hperm' : (k :: down) ++ map snd (ps ++ [(record, kc)]) ≡ₚ chord_keys).
    { rewrite <- Hperm. cbn. apply Permutation_middle. }
    cbn [apply_keys fresh fst snd q_keycode q_record]. rewrite find_chord, chord_bit_some by done.
    assert (Hf : bits_of chord_keys (k :: down) (KEY_STATE_DOWN (chord_bit k) st)) by (by apply bits_down).
    assert (Hkc : In kc (map snd (ps ++ [(record, kc)]))) by (rewrite map_app; apply in_app_iff; right; by left).
    assert (Hd : NoDup ((k :: down) ++ map snd (ps ++ [(record, kc)]))) by (by rewrite Hperm').
    rewrite (bits_partial chord_keys (k :: down) kc _); [| | | |done].
    + destruct (IH _ _ Hperm' Hf) as (l & E & El & Ed). rewrite E. eexists. split; [reflexivity|]. cbn. rewrite El. by split.
    + apply (Permutation_in _ Hperm'), in_app_iff. by right.
    + intros Hin. apply list.NoDup_app in Hd as (_ & Hd & _). apply (Hd kc); by apply list_elem_of_In.
    + apply Forall_forall. intros x Hx. apply (Permutation_in _ Hperm'), in_app_iff. by left.
Qed.

(** The combo is down: the keys [held] of it are not yet released. *)
Record holding (held : list Z) c : Prop := {
  hd_wf : combo_wf c;
  hd_table : table c = table c0;
  hd_enabled : b_combo_enable c = true;
  hd_size : key_buffer_size c = 0;
  hd_timer : timer c = 0;
  hd_term : longest_term c = 0;
  hd_ring : combo_buffer_read c = combo_buffer_write c;
  hd_others : forall j, 0 <= j < combo_count c0 -> j <> idx -> combo_get c j = combo_get c0 j;
  hd_active : active (combo_get c idx) = true;
  hd_state : bits_of chord_keys held (state (combo_get c idx));
}.

Lemma rest_reset j : 0 <= j < combo_count c0 ->
  (if active (combo_get c0 j) then combo_get c0 j else RESET_COMBO_STATE (combo_get c0 j)) = combo_get c0 j.
Proof using Hrest.
  intros Hj. destruct (rest_flags _ Hrest j Hj) as (Hd & Ha & Hs). destruct (combo_get c0 j). cbn in *. by subst.
Qed.

Lemma clear_get c j : 0 <= j < combo_count c ->
  combo_get (clear_combos c) j = if active (combo_get c j) then combo_get c j else RESET_COMBO_STATE (combo_get c j).
Proof using. intros Hj. exact (combo_get_map c _ j Hj). Qed.

Lemma increment_ne i : (i =? INCREMENT_MOD i) = false.
Proof using. apply Z.eqb_neq. unfold INCREMENT_MOD. change COMBO_BUFFER_LENGTH with 4. dlia. Qed.

Lemma apply_from_end fuel c : apply_from fuel (combo_buffer_write c) c = c.
Proof using. destruct fuel; [done|]. cbn. by rewrite Z.eqb_refl. Qed.

Lemma apply_from_S fuel i c : apply_from (S fuel) i c =
  if i =? combo_buffer_write c then c else apply_from fuel (INCREMENT_MOD i) (apply_combo (nthZ (combo_buffer c) i) c).
Proof using. done. Qed.

(** The combo at the start of the ring is dropped from it. *)
Lemma drop_first i c : (combo_buffer_read c =? combo_buffer_write c) = false ->
  nthZ (combo_buffer c) (combo_buffer_read c) = i ->
  drop_combo_from_buffer i c =
    set_combo_buffer (combo_buffer_write c) (INCREMENT_MOD (combo_buffer_read c)) (combo_buffer c) (set_combo i DISABLE_COMBO c).
Proof using.
  intros Hne Hi. unfold drop_combo_from_buffer. change ring_fuel with (S 3).
  assert (E : forall fuel j, drop_from (S fuel) j i c =
    if j =? combo_buffer_write c then c
    else if nthZ (combo_buffer c) j =? i then
      let c := set_combo i DISABLE_COMBO c in
      if j =? combo_buffer_read c
      then set_combo_buffer (combo_buffer_write c) (INCREMENT_MOD (combo_buffer_read c)) (combo_buffer c) c else c
    else drop_from fuel (INCREMENT_MOD j) i c) by done.
  rewrite E, Hne, Hi, Z.eqb_refl. cbv zeta. change (combo_buffer_read (set_combo i DISABLE_COMBO c)) with (combo_buffer_read c).
  by rewrite Z.eqb_refl.
Qed.

(** [apply_combos] up to the emptying of the buffer. *)
Lemma apply_pressing ps record kc last c : pressing (ps ++ [(record, kc)]) last c ->
  map snd (ps ++ [(record, kc)]) ≡ₚ chord_keys ->
  let c' := apply_from ring_fuel (combo_buffer_read c) c in
  same_size c c' /\ concat (map delivered (queue c')) = [combo_record output record]
  /\ b_combo_enable c' = true /\ combo_buffer_read c' = combo_buffer_write c'
  /\ (forall j, 0 <= j < combo_count c0 -> j <> idx -> combo_get c' j = combo_get c0 j)
  /\ active (combo_get c' idx) = true /\ state (combo_get c' idx) = state (combo_get c idx).
Proof using Hchord.
  intros Hp Hperm. cbv zeta. split; [apply apply_from_size, Hp|].
  pose proof (pr_table _ _ _ Hp) as Ht. pose proof (pr_ring _ _ _ Hp) as Hring.
  rewrite (proj2 (Z.eqb_eq (lenZ _) _)) in Hring.
  2:{ apply Permutation_length in Hperm. rewrite length_map in Hperm. unfold lenZ. lia. }
  destruct Hring as [Hwr Hidx]. change ring_fuel with (S 3). rewrite apply_from_S, Hwr, increment_ne, Hidx.
  pose proof (chord_idx _ _ Hchord) as Hi. pose proof (table_count _ _ Ht) as Hn.
  unfold apply_combo. rewrite (pr_disabled _ _ _ Hp). fold (queue c). rewrite (pr_queue _ _ _ Hp).
  destruct (apply_chord c [] 0 ps record kc Ht Hperm (bits_nil _)) as (l & -> & Hl & Hd).
  set (c1 := set_key_buffer _ _ _ c). cbv zeta iota.
  rewrite (drop_first idx (set_combo idx ACTIVATE_COMBO c1)) by (done || (cbn; rewrite Hwr; apply increment_ne)).
  set (c3 := set_combo_buffer _ _ _ _).
  assert (Hw3 : combo_buffer_write c3 = INCREMENT_MOD (combo_buffer_read c)) by exact Hwr.
  rewrite <- Hw3, apply_from_end.
  assert (G : forall j, 0 <= j -> combo_get c3 j = if idx =? j then DISABLE_COMBO (ACTIVATE_COMBO (combo_get c j)) else combo_get c j).
  { intros j Hj. change (combo_get c3 j) with (combo_get (set_combo idx DISABLE_COMBO (set_combo idx ACTIVATE_COMBO c1)) j).
    assert (Hc1 : combo_count (set_combo idx ACTIVATE_COMBO c1) = combo_count c).
    { unfold combo_count, set_combo, lenZ. cbn. by rewrite length_alter. }
    rewrite combo_get_set by (done || lia). rewrite combo_get_set by (done || (change (combo_count c1) with (combo_count c); lia)).
    change (combo_get c1 j) with (combo_get c j). by case_if. }
  split_and!.
  - unfold queue. change (key_buffer_size c3) with (key_buffer_size c). rewrite (pressing_size _ _ _ Hp). cbn.
    rewrite take_app_le by (unfold lenZ; lia). rewrite take_ge by (unfold lenZ; lia). done.
  - apply Hp.
  - by rewrite Hw3.
  - intros j Hj Hne. rewrite G by lia. rewrite (proj2 (Z.eqb_neq _ _)) by done. by apply Hp.
  - by rewrite G, Z.eqb_refl by lia.
  - by rewrite G, Z.eqb_refl by lia.
Qed.

Lemma fire ps record kc last c (w : W) lg : pressing (ps ++ [(record, kc)]) last c ->
  map snd (ps ++ [(record, kc)]) ≡ₚ chord_keys -> last <> 0 -> term < TIMER_DIFF_16 (host_time w) last ->
  exists s', combo_task (mk_combined c (w, lg)) = s' /\ log s' = lg ++ [combo_record output record]
    /\ holding chord_keys (combos s').
Proof using Hchord Hrest.
  intros Hp Hperm Hlast Hdue. eexists. split; [reflexivity|].
  destruct (apply_pressing _ _ _ _ _ Hp Hperm) as ((Hw & Ht & _) & Hd & He & Hr & Ho & Ha & Hs).
  unfold combo_task. cbn [combos below]. rewrite (pr_enabled _ _ _ Hp), (pr_timer _ _ _ Hp).
  assert (longest_term c = term) as -> by (pose proof (pr_started _ _ _ Hp) as H; by destruct ps).
  unfold truthy. rewrite (proj2 (Z.eqb_neq _ _) Hlast). cbn [negb andb].
  change (host_time (w, lg)) with (host_time w). rewrite (proj2 (Z.ltb_lt _ _)) by done.
  assert (combo_prepared c = true) as ->.
  { unfold combo_prepared. pose proof (pr_ring _ _ _ Hp) as Hring. rewrite (proj2 (Z.eqb_eq (lenZ _) _)) in Hring.
    2:{ apply Permutation_length in Hperm. rewrite length_map in Hperm. unfold lenZ. lia. }
    destruct Hring as [-> _]. by rewrite increment_ne. }
  unfold apply_combos. set (s1 := on_combos _ (mk_combined c (w, lg))).
  change (apply_from ring_fuel (combo_buffer_read c) c) with (combos s1) in *.
  destruct (dump_delivers s1 Hw) as [(l & Ec & El) Hlog]. pose proof (dump_wf s1 Hw) as Hwd.
  assert (Gd : forall j, combo_get (combos (dump_key_buffer s1)) j = combo_get (combos s1) j) by (intros; by rewrite Ec).
  rewrite Hd in Hlog. set (s2 := dump_key_buffer s1) in *. clearbody s2.
  split; [exact Hlog|]. cbn [on_combos combos].
  pose proof (chord_idx _ _ Hchord) as Hi.
  assert (Htab : table (combos s2) = table c0) by (rewrite Ec; etransitivity; [exact Ht|apply Hp]).
  assert (Hcount : combo_count (combos s2) = combo_count c0) by (by apply table_count).
  pose proof (clear_combos_keys _ Hwd) as Hck. set (c2 := clear_combos (combos s2)) in *.
  assert (Gc : forall j, 0 <= j < combo_count c0 -> combo_get c2 j =
    if active (combo_get (combos s1) j) then combo_get (combos s1) j else RESET_COMBO_STATE (combo_get (combos s1) j)).
  { intros j Hj. unfold c2. rewrite clear_get by lia. by rewrite Gd. }
  constructor; try done.
  - apply set_timer_keys, set_longest_keys, Hck.
  - change (table c2 = table c0). etransitivity; [apply Hck|done].
  - change (b_combo_enable (combos s2) = true). by rewrite Ec.
  - change (key_buffer_size (combos s2) = 0). by rewrite Ec.
  - change (combo_buffer_read (combos s2) = combo_buffer_write (combos s2)). by rewrite Ec.
  - intros j Hj Hne. change (combo_get c2 j = combo_get c0 j). rewrite Gc, Ho by done. by apply rest_reset.
  - change (active (combo_get c2 idx) = true). by rewrite Gc, Ha.
  - change (bits_of chord_keys chord_keys (state (combo_get c2 idx))). rewrite Gc, Ha, Hs by done.
    apply (bits_perm _ _ _ _ Hperm), Hp.
Qed.

(** ** Releasing the keys *)

Definition release_record (time : Z) : keyrecord_t := mk_record (mk_event (mk_key 0 0) time COMBO_EVENT false) no_tap output.

Lemma holding_perm held held' c : held ≡ₚ held' -> holding held c -> holding held' c.
Proof using. intros Hp []. constructor; try done. by apply (bits_perm _ held). Qed.

(** What follows a release: the buffer is empty and the flags are cleared. *)
Lemma after_release s : combo_wf (combos s) -> table (combos s) = table c0 -> key_buffer_size (combos s) = 0 ->
  combo_buffer_read (combos s) = combo_buffer_write (combos s) ->
  let s' := if combo_prepared (combos s) then apply_combos s
            else on_combos (fun c => clear_combos (set_timer 0 c)) (dump_key_buffer s) in
  below s' = below s /\ same_keys (combos s) (combos s') /\ timer (combos s') = 0 /\ longest_term (combos s') = 0
  /\ combo_buffer_read (combos s') = combo_buffer_write (combos s')
  /\ b_combo_enable (combos s') = b_combo_enable (combos s)
  /\ forall j, 0 <= j < combo_count c0 -> combo_get (combos s') j =
       if active (combo_get (combos s) j) then combo_get (combos s) j else RESET_COMBO_STATE (combo_get (combos s) j).
Proof using.
  intros Hw Ht Hz Hr. unfold combo_prepared. rewrite Hr, Z.eqb_refl. cbn [negb].
  unfold dump_key_buffer. rewrite Hz, Z.eqb_refl. cbv zeta. split_and!; try done.
  - apply clear_timer_keys, Hw.
  - intros j Hj. cbn [on_combos combos]. rewrite clear_get; [done|].
    change (0 <= j < combo_count (combos s)). by rewrite (table_count _ _ Ht).
Qed.

(** The end of a release, once combo [idx] is [x]. *)
Lemma release_end held c kc x s : holding held c -> In kc chord_keys -> same_keys c (combos s) ->
  combo_buffer_read (combos s) = combo_buffer_write (combos s) -> b_combo_enable (combos s) = true ->
  (forall j, 0 <= j -> combo_get (combos s) j = if idx =? j then x else combo_get c j) ->
  let s1 := on_combos (set_combo idx (with_state (KEY_STATE_UP (chord_bit kc)))) s in
  let s2 := if combo_prepared (combos s1) then apply_combos s1
            else on_combos (fun c => clear_combos (set_timer 0 c)) (dump_key_buffer s1) in
  let y := with_state (KEY_STATE_UP (chord_bit kc)) x in
  below s2 = below s /\ same_keys c (combos s2) /\ timer (combos s2) = 0 /\ longest_term (combos s2) = 0
  /\ combo_buffer_read (combos s2) = combo_buffer_write (combos s2) /\ b_combo_enable (combos s2) = true
  /\ (forall j, 0 <= j < combo_count c0 -> j <> idx -> combo_get (combos s2) j = combo_get c0 j)
  /\ combo_get (combos s2) idx = if active y then y else RESET_COMBO_STATE y.
Proof using Hchord Hrest.
  intros Hh Hk Hs Hring Hen Hget. cbv zeta. pose proof (chord_idx _ _ Hchord) as Hi.
  pose proof (table_count _ _ (hd_table _ _ Hh)) as Hn. pose proof (table_count _ _ (proj1 (proj2 Hs))) as Hn2.
  set (s1 := on_combos _ s).
  assert (H1 : same_keys (combos s) (combos s1)) by (cbn; apply set_combo_flags; [apply up_keeps|apply Hs]).
  pose proof (same_keys_trans _ _ _ Hs H1) as Hc1.
  assert (G1 : forall j, 0 <= j -> combo_get (combos s1) j =
    if idx =? j then with_state (KEY_STATE_UP (chord_bit kc)) x else combo_get c j).
  { intros j Hj. unfold s1. cbn [on_combos combos]. rewrite combo_get_set, Hget by lia. by case_if. }
  assert (Ht1 : table (combos s1) = table c0) by (etransitivity; [apply Hc1|apply Hh]).
  destruct (after_release s1) as (Hb & Hk2 & Htm & Hl & Hrg & He & Hg); [apply Hc1|done| |done|].
  { etransitivity; [apply Hc1|apply Hh]. }
  split; [exact Hb|]. split; [by eapply same_keys_trans|]. split; [done|]. split; [done|]. split; [done|].
  split; [by rewrite He|]. split.
  - intros j Hj Hne. rewrite Hg, G1 by lia. rewrite (proj2 (Z.eqb_neq _ _)) by done.
    rewrite (hd_others _ _ Hh) by done. by apply rest_reset.
  - by rewrite Hg, G1, Z.eqb_refl by lia.
Qed.

Lemma release_step held rest c record kc (w : W) lg : holding held c -> NoDup held ->
  Forall (fun k => In k chord_keys) held -> held ≡ₚ kc :: rest -> ev_pressed (rec_event record) = false ->
  exists s', process_combo kc record (mk_combined c (w, lg)) = (false, s')
    /\ match rest with
       | [] => log s' = lg ++ [release_record (host_time w)] /\ combos_rest (combos s') /\ table (combos s') = table c0
       | _ => log s' = lg /\ holding rest (combos s')
       end.
Proof using Hchord Hrest.
  intros Hh Hnd Hks Hperm Hr. apply (holding_perm _ _ _ Hperm) in Hh. rewrite Hperm in Hnd, Hks. clear held Hperm.
  inversion Hnd as [|? ? Hni Hnd']; subst. inversion Hks as [|? ? Hk Hks']; subst.
  pose proof (chord_idx _ _ Hchord) as Hi. pose proof (table_count _ _ (hd_table _ _ Hh)) as Hn.
  pose proof (chord_length _ _ Hchord) as [_ Hlen]. fold chord_keys in Hlen. pose proof (hd_state _ _ Hh) as Hst.
  rewrite process_plain, table_chord; [|apply Hh|apply Hh|done|done].
  unfold process_single_combo. cbn [combos below]. rewrite find_chord by (done || apply Hh). rewrite chord_bit_some by done.
  rewrite Hr. cbv zeta. cbn [andb]. unfold combo_key_up. cbn [combos]. rewrite (hd_active _ _ Hh). cbn [negb andb].
  assert (KEY_NOT_YET_RELEASED (state (combo_get c idx)) (chord_bit kc) = true) as ->
    by exact (bits_down_now chord_keys (kc :: rest) kc _ Hk (in_eq _ _) Hst).
  assert (Hup : bits_of chord_keys rest (KEY_STATE_UP (chord_bit kc) (state (combo_get c idx)))).
  { apply bits_up; try done. intros Hin. apply Hni. by apply list_elem_of_In. }
  destruct rest as [|b rest].
  - rewrite (bits_last chord_keys Hlen kc _ Hk Hst). cbn [andb].
    assert (Hc1 : same_keys c (set_combo idx DEACTIVATE_COMBO c)) by (apply set_combo_flags; [apply deactivate_keeps|apply Hh]).
    assert (Hg1 : forall j, 0 <= j -> combo_get (set_combo idx DEACTIVATE_COMBO c) j =
      if idx =? j then DEACTIVATE_COMBO (combo_get c idx) else combo_get c j).
    { intros j Hj. rewrite combo_get_set by lia. destruct (Z.eqb_spec idx j) as [->|]; done. }
    unfold release_combo. cbn [combos]. rewrite (output_table c) by apply Hh.
    assert (truthy output = true) as -> by (apply negb_true_iff, Z.eqb_neq, Hchord).
    eexists. split; [reflexivity|]. cbn [on_below combos below].
    edestruct (release_end _ c kc (DEACTIVATE_COMBO (combo_get c idx)) (on_combos (set_combo idx DEACTIVATE_COMBO)
      (on_below (tapping_process (release_record (host_time w))) (mk_combined c (w, lg)))) Hh Hk Hc1)
      as (Hb & Hk2 & Htm & Hl & Hrg & He & Ho & Hx); [apply Hh|apply Hh|exact Hg1|].
    set (s2 := if combo_prepared _ then _ else _) in *. clearbody s2.
    assert (Ht2 : table (combos s2) = table c0) by (etransitivity; [apply Hk2|apply Hh]).
    split; [unfold log; by rewrite Hb|]. split; [|done]. constructor; try done; [apply Hk2|etransitivity; [apply Hk2|apply Hh]|].
    intros j Hj. rewrite (table_count _ _ Ht2) in Hj. destruct (Z.eq_dec j idx) as [->|Hne]; [by rewrite Hx|].
    rewrite Ho by done. by apply (rest_flags _ Hrest).
  - assert (Hkb : kc <> b) by (intros ->; apply Hni; by left).
    rewrite (bits_more chord_keys kc b rest _ Hk) by (done || by inversion Hks'). cbn [andb].
    eexists. split; [reflexivity|].
    edestruct (release_end _ c kc (combo_get c idx) (mk_combined c (w, lg)) Hh Hk)
      as (Hb & Hk2 & Htm & Hl & Hrg & He & Ho & Hx); [apply same_keys_refl, Hh|apply Hh|apply Hh| |].
    { intros j Hj. cbn. destruct (Z.eqb_spec idx j) as [->|]; done. }
    set (s2 := if combo_prepared _ then _ else _) in *. clearbody s2. cbn in Hx. rewrite (hd_active _ _ Hh) in Hx.
    split; [unfold log; by rewrite Hb|].
    constructor; try done; [apply Hk2|etransitivity; [apply Hk2|apply Hh]..|rewrite Hx; apply Hh|by rewrite Hx].
Qed.

Lemma run_moment wm e ms c (w : W) lg :
  combo_run (moments_steps ((wm, e) :: ms)) (mk_combined c (w, lg)) =
  combo_run (moments_steps ms)
    (combo_run_step (mk_combined c (wm, lg)) match e with Some (record, kc) => Key kc record | None => Task end).
Proof using. done. Qed.

Lemma presses_run ms pressed last c (w : W) lg :
  pressing pressed (default 0 last) c -> (last = None -> pressed = []) ->
  NoDup (map snd (pressed ++ keys_of ms)) -> Forall (fun k => In k chord_keys) (map snd (keys_of ms)) ->
  keys_pressed true ms -> in_time term ms last ->
  exists c' w', combo_run (moments_steps ms) (mk_combined c (w, lg)) = mk_combined c' (w', lg)
    /\ pressing (pressed ++ keys_of ms) (default 0 (last_key ms last)) c'.
Proof using Hchord Hterm.
  revert pressed last c w. induction ms as [|[wm [[record kc]|]] ms IH]; intros pressed last c w Hp Hl Hnd Hks Hpr Htime.
  - exists c, w. split; [done|]. by rewrite app_nil_r.
  - cbn in Hks, Hpr, Htime. destruct Htime as (Ht & Hd & Htime). change (keys_of ((wm, Some (record, kc)) :: ms)) with ((record, kc) :: keys_of ms) in *.
    inversion Hks as [|? ? Hk Hks']; subst. inversion Hpr as [|? ? Hr Hpr']; subst.
    destruct (combo_press_step pressed (default 0 last) c record kc (wm, lg) Hp Hk) as (c' & E & Hp'); [|done|done| |].
    { rewrite map_app in Hnd. intros Hin. apply list.NoDup_app in Hnd as (_ & Hni & _). apply (Hni kc); [by apply list_elem_of_In|by left]. }
    { intros Hne. destruct last as [time|]; [by apply Hd|]. by specialize (Hl eq_refl). }
    destruct (IH (pressed ++ [(record, kc)]) (Some (host_time wm)) c' wm Hp') as (c2 & w2 & E2 & Hp2); [done| |done..|].
    { by rewrite <- app_assoc. }
    exists c2, w2. rewrite <- app_assoc in Hp2. split; [|done]. rewrite run_moment. cbn [combo_run_step]. by rewrite E.
  - cbn in Htime. destruct Htime as (Ht & Hd & Htime). change (keys_of ((wm, None) :: ms)) with (keys_of ms) in *.
    destruct (IH pressed last c wm Hp Hl Hnd Hks Hpr Htime) as (c2 & w2 & E2 & Hp2). exists c2, w2. split; [|done].
    rewrite <- E2, run_moment. f_equal. apply (combo_poll_step pressed (default 0 last)); [done|].
    intros Hne. destruct last as [time|]; [by apply Hd|]. by specialize (Hl eq_refl).
Qed.

(** Without keys nothing happens at rest. *)
Lemma idle_run ms c (w : W) lg : combos_rest c -> keys_of ms = [] ->
  exists w', combo_run (moments_steps ms) (mk_combined c (w, lg)) = mk_combined c (w', lg).
Proof using.
  intros Hc. revert w. induction ms as [|[wm [[record kc]|]] ms IH]; intros w Hk; [by exists w|discriminate Hk|].
  destruct (IH wm Hk) as (w' & E). exists w'. rewrite <- E, run_moment. f_equal. apply combo_task_due. unfold combos_due.
  cbn [combos]. by rewrite (rest_timer _ Hc), andb_false_r.
Qed.

Lemma releases_run rels held c (w : W) lg :
  holding held c -> held <> [] -> NoDup held -> Forall (fun k => In k chord_keys) held ->
  map snd (keys_of rels) ≡ₚ held -> keys_pressed false rels ->
  exists c' w' time, combo_run (moments_steps rels) (mk_combined c (w, lg)) = mk_combined c' (w', lg ++ [release_record time])
    /\ combos_rest c' /\ table c' = table c0.
Proof using Hchord Hrest.
  revert held c w. induction rels as [|[wm [[record kc]|]] rels IH]; intros held c w Hh Hne Hnd Hks Hperm Hr.
  - by apply Permutation_nil in Hperm.
  - change (keys_of ((wm, Some (record, kc)) :: rels)) with ((record, kc) :: keys_of rels) in Hperm. cbn [map snd] in Hperm.
    inversion Hr as [|? ? Hr1 Hr']; subst.
    destruct (release_step held (map snd (keys_of rels)) c record kc wm lg Hh Hnd Hks) as (s' & E & H); [by symmetry|done|].
    rewrite run_moment. cbn [combo_run_step]. rewrite E.
    rewrite <- Hperm in Hnd, Hks. inversion Hnd as [|? ? Hni Hnd']; subst. inversion Hks as [|? ? Hk Hks']; subst.
    destruct s' as [c' [w' lg']]. destruct (map snd (keys_of rels)) as [|b held'] eqn:Er.
    + destruct H as (Hlog & Hrest' & Ht). unfold log in Hlog. cbn in Hlog, Hrest', Ht. subst lg'.
      destruct (idle_run rels c' w' (lg ++ [release_record (host_time wm)])) as (w2 & E2); [done| |].
      { apply map_eq_nil in Er. exact Er. }
      exists c', w2, (host_time wm). split_and!; [exact E2|done|done].
    + destruct H as (Hlog & Hh'). unfold log in Hlog. cbn in Hlog, Hh'. subst lg'.
      destruct (IH (b :: held') c' w' Hh') as (c2 & w2 & t2 & E2 & Hr2 & Ht2); [done..|]. by exists c2, w2, t2.
  - change (keys_of ((wm, None) :: rels)) with (keys_of rels) in Hperm.
    destruct (IH held c wm Hh Hne Hnd Hks Hperm Hr) as (c2 & w2 & t2 & E2 & H2). exists c2, w2, t2. split; [|done].
    rewrite <- E2, run_moment. f_equal. apply combo_task_due. unfold combos_due.
    cbn [combos]. by rewrite (hd_timer _ _ Hh), andb_false_r.
Qed.
End chord.

(** C23: a combo acts as one key, when it overlaps no other: it has one to eight
    keys, all different, none of them a key of another combo or a keycode that
    controls the combos, and a keycode of its own. From rest, its keys are pressed
    in any order, each within the term after the one before, with the task running
    in between; nothing is passed on. The clock must not read 0 at the last of
    them (the code takes a timer of 0 for one that is off). When the term is over
    the task passes on one press of the combo's keycode, with the place in time of
    the last key. Then the keys are released in any order: none of them is passed
    on, the release of the last one passes on one release of the keycode, and the
    combo code is at rest again with the same table. *)
Theorem combo_acts_as_key {W : Type} {host : ComboHost W} {qcfg : QmkSettingsConfig}
    c0 idx term ms ps record kc time (rels : list moment) (w0 wfire : W) :
  combos_rest c0 -> chord c0 idx -> 0 <= term ->
  keys_of ms = ps ++ [(record, kc)] -> map snd (keys_of ms) ≡ₚ the_keys (combo_get c0 idx) ->
  keys_pressed true ms -> in_time term ms None -> last_key ms None = Some time ->
  time <> 0 -> term < TIMER_DIFF_16 (host_time wfire) time ->
  map snd (keys_of rels) ≡ₚ the_keys (combo_get c0 idx) -> keys_pressed false rels ->
  let s0 := mk_combined c0 (w0, []) in
  let s1 := combo_run (moments_steps ms) s0 in
  let s2 := combo_run (moment_steps (wfire, None)) s1 in
  let s3 := combo_run (moments_steps rels) s2 in
  let output := keycode (combo_get c0 idx) in
  log s1 = [] /\ log s2 = [combo_record output record]
  /\ (exists t, log s3 = [combo_record output record; mk_record (mk_event (mk_key 0 0) t COMBO_EVENT false) no_tap output])
  /\ combos_rest (combos s3) /\ table (combos s3) = table c0.
Proof.
  intros Hrest Hchord Hterm Hlast Hperm Hpr Htime Ht Hne Hdue Hrel Hrr. cbv zeta.
  pose proof (chord_nodup _ _ Hchord) as Hnd.
  assert (Hin : forall l, l ≡ₚ the_keys (combo_get c0 idx) -> Forall (fun k => In k (the_keys (combo_get c0 idx))) l).
  { intros l Hl. rewrite Hl. apply Forall_forall. done. }
  destruct (presses_run c0 idx term Hchord Hterm ms [] None c0 w0 []) as (c1 & w1 & E1 & Hp1);
    [by apply rest_pressing|done|by rewrite Hperm|by apply Hin|done|done|].
  rewrite E1, Ht in *. cbn [default app] in Hp1. rewrite Hlast in Hp1, Hperm.
  destruct (fire c0 idx term Hrest Hchord ps record kc time c1 wfire [] Hp1 Hperm Hne Hdue) as (s2 & E2 & Hlog & Hh).
  change (combo_run (moment_steps (wfire, None)) (mk_combined c1 (w1, []))) with (combo_task (mk_combined c1 (wfire, []))).
  rewrite E2. split; [done|]. split; [exact Hlog|]. destruct s2 as [c2 [w2 lg2]]. unfold log in Hlog. cbn in Hlog, Hh. subst lg2.
  destruct (releases_run c0 idx Hrest Hchord rels _ c2 w2 [combo_record (output c0 idx) record] Hh)
    as (c3 & w3 & t & E3 & Hr3 & Ht3); [|done|by apply Hin|done|done|].
  { intros E. destruct (chord_length _ _ Hchord) as [Hl _]. unfold chord_keys in E. by rewrite E in Hl. }
  rewrite E3. split; [|done]. by exists t.
Qed.

(** ** Examples *)

Module ComboExample.
(** A host with a clock, whose combo term is 50. *)
#[export] Instance clock : ComboHost Z := {|
  tapping_process record now := now;
  clear_weak now := now;
  tap_record record now := false;
  host_wait ms now := u16 (now + ms);
  host_time now := now;
  get_combo_term now := 50;
|}.
#[export] Instance build : QmkSettingsConfig := {|
  AUTO_SHIFT_TIMEOUT := 175; ONESHOT_TAP_TOGGLE := 5; ONESHOT_TIMEOUT := 5000;
  MOUSEKEY_DELAY := 10; MOUSEKEY_INTERVAL := 20; MOUSEKEY_MOVE_DELTA := 8;
  MOUSEKEY_MAX_SPEED := 10; MOUSEKEY_TIME_TO_MAX := 30; MOUSEKEY_WHEEL_DELAY := 10;
  MOUSEKEY_WHEEL_INTERVAL := 80; MOUSEKEY_WHEEL_MAX_SPEED := 8; MOUSEKEY_WHEEL_TIME_TO_MAX := 40;
  COMBO_TERM := 50; TAP_CODE_DELAY := 0; TAP_HOLD_CAPS_DELAY := 80; TAPPING_TOGGLE := 5;
|}.

(** Key [kc] in column [kc] at [time]. *)
Definition record_at (kc time : Z) (pressed : bool) : keyrecord_t :=
  mk_record (mk_event (mk_key kc 0) time KEY_EVENT pressed) no_tap 0.
Definition key_down (kc time : Z) : moment := (time, Some (record_at kc time true, kc)).
Definition key_up (kc time : Z) : moment := (time, Some (record_at kc time false, kc)).
Definition poll (time : Z) : moment := (time, None).
Definition combo_moments (tbl : list (list Z * Z)) (ms : list (moment (W := Z))) : combined (Z * list keyrecord_t) :=
  combo_run (moments_steps ms) (combo_boot tbl 1).
(** Place, keycode and direction of what was passed on. *)
Definition output_of (s : combined (Z * list keyrecord_t)) : list (Z * Z * bool) :=
  map (fun r => (col (ev_key (rec_event r)), rec_keycode r, ev_pressed (rec_event r))) (log s).

Definition two_combos : list (list Z * Z) := [([4; 5; 0; 0; 0], 0x1E); ([6; 7; 8; 0; 0], 0x1F)].
End ComboExample.
Import ComboExample.

Lemma combo_start_rest tbl : lenZ tbl < NONE16 -> combos_rest (combos_start tbl).
Proof.
  intros Hn. destruct (boot_wf tbl (1 : Z) Hn) as (Hw & _). constructor; try done.
  intros j Hj. unfold combo_get, combos_start. cbn. rewrite nth_lookup.
  change (map ?f tbl) with (f <$> tbl). rewrite list_lookup_fmap. by destruct (tbl !! Z.to_nat j).
Qed.

Lemma two_combos_chord : chord (combos_start two_combos) 1.
Proof.
  constructor; try done.
  - change (NoDup [6; 7; 8]). repeat constructor; rewrite list_elem_of_In; cbn; lia.
  - intros j k Hj Hne. change (combo_count _) with 2 in Hj. assert (j = 0) as -> by lia.
    change (In k [4; 5] -> ~ In k [6; 7; 8]). cbn. lia.
  - repeat constructor.
Qed.

Lemma combo_acts_as_key_witness :
  let ms := [key_down 7 1000; poll 1010; key_down 6 1030; poll 1060; key_down 8 1070; poll 1100] in
  let rels := [key_up 6 1200; poll 1201; key_up 8 1210; key_up 7 1220] in
  let s0 := mk_combined (combos_start two_combos) (1, []) in
  let s1 := combo_run (moments_steps ms) s0 in
  let s2 := combo_run (moment_steps (1130, None)) s1 in
  let s3 := combo_run (moments_steps rels) s2 in
  let output := keycode (combo_get (combos_start two_combos) 1) in
  log s1 = [] /\ log s2 = [combo_record output (record_at 8 1070 true)]
  /\ (exists t, log s3 = [combo_record output (record_at 8 1070 true);
                         mk_record (mk_event (mk_key 0 0) t COMBO_EVENT false) no_tap output])
  /\ combos_rest (combos s3) /\ table (combos s3) = table (combos_start two_combos).
Proof.
  cbv zeta.
  apply (combo_acts_as_key (combos_start two_combos) 1 50
    [key_down 7 1000; poll 1010; key_down 6 1030; poll 1060; key_down 8 1070; poll 1100]
    [(record_at 7 1000 true, 7); (record_at 6 1030 true, 6)] (record_at 8 1070 true) 8 1070
    [key_up 6 1200; poll 1201; key_up 8 1210; key_up 7 1220] 1 1130).
  - apply combo_start_rest. done.
  - exact two_combos_chord.
  - done.
  - reflexivity.
  - change ([7; 6; 8] ≡ₚ [6; 7; 8]). constructor.
  - repeat constructor.
  - cbn. split_and!; try done; intros t Ht; by injection Ht as <-.
  - reflexivity.
  - done.
  - done.
  - change ([6; 8; 7] ≡ₚ [6; 7; 8]). apply perm_skip. constructor.
  - repeat constructor.
Defined.

(** ** The bounds on an example *)

(** A key outside the combos, a combo, and a key waiting. *)
Definition busy : list (combo_step Z) :=
  moments_steps [key_down 9 1000; key_down 4 1010; key_down 5 1020; poll 1080; key_up 9 1090; key_down 6 1100].

Lemma combo_statics_in_bounds_witness :
  let c := combos (combo_run busy (combo_boot two_combos 1)) in
  combo_wf c /\ table c = two_combos /\ longest_term c <= 50.
Proof. apply (combo_statics_in_bounds two_combos 1 busy 50); done. Defined.

(** ** What the conditions are for *)

(** The ninth key that waits is lost: only its release is passed on. *)
Definition many_combos : list (list Z * Z) :=
  map (fun k => ([k; 20; 0; 0; 0], 0x1E + k)) (seqZ 4 9).
Lemma full_buffer_loses_key :
  output_of (combo_moments many_combos (map (fun k => key_down k (1000 + k)) (seqZ 4 9) ++ [poll 1100; key_up 12 1110]))
  = map (fun k => (k, 0, true)) (seqZ 4 8) ++ [(12, 0, false)].
Proof. vm_compute. reflexivity. Qed.

(** Four complete combos fill the ring, which then looks empty: none fires. *)
Definition four_combos : list (list Z * Z) :=
  [([4; 5; 0; 0; 0], 0x1E); ([6; 7; 0; 0; 0], 0x1F); ([8; 9; 0; 0; 0], 0x20); ([10; 11; 0; 0; 0], 0x21)].
Lemma four_combos_do_not_fire :
  output_of (combo_moments four_combos (map (fun k => key_down k (1000 + k)) (seqZ 4 8) ++ [poll 1100]))
  = map (fun k => (k, 0, true)) (seqZ 4 8).
Proof. vm_compute. reflexivity. Qed.

(** A combo dropped for a longer one behind another combo stays in the ring and
    swallows its next key: of the press and release of key 6 only the release is
    passed on. *)
Definition nested_combos : list (list Z * Z) :=
  [([4; 5; 0; 0; 0], 0x1E); ([6; 7; 0; 0; 0], 0x1F); ([6; 7; 8; 0; 0], 0x20)].
Lemma dropped_combo_swallows_key :
  output_of (combo_moments nested_combos
    [key_down 4 1000; key_down 5 1010; key_down 6 1020; key_down 7 1030; key_down 8 1040; poll 1100;
     key_up 4 1200; key_up 5 1210; key_up 6 1220; key_up 7 1230; key_up 8 1240; key_down 6 2000; key_up 6 2020])
  = [(0, 0x1E, true); (0, 0x20, true); (0, 0x1E, false); (0, 0x20, false); (6, 0, false)].
Proof. vm_compute. reflexivity. Qed.

(** A key pressed when the clock reads 0 waits for the next key. *)
Lemma clock_zero_waits :
  output_of (combo_moments two_combos [key_down 4 0; poll 100; poll 1000; poll 30000]) = [].
Proof. vm_compute. reflexivity. Qed.

(** A combo of one key that is tapped within the term stays down, and is disabled
    from then on. *)
Lemma one_key_combo_sticks :
  output_of (combo_moments [([4; 0; 0; 0; 0], 0x1E)]
    [key_down 4 1000; key_up 4 1010; poll 1200; key_down 4 2000; key_up 4 2010; poll 2200])
  = [(0, 0x1E, true); (4, 0, true); (4, 0, false)].
Proof. vm_compute. reflexivity. Qed.
