(* ===== verification/ComboLedger.v ===== *)
(** The ledger of key presses: what the combo code makes of each press, batch by
    batch as its buffer is emptied. *)

From S2P Require Import Prelude.
From S2P Require Import QmkSettings.
From S2P Require Import KeymapCommon.
From S2P Require Import Keyboard.
From S2P Require Import Combo.
From S2P Require Import ComboProofs.
From S2P Require Import ComboTheorems.
From S2P Require Import ComboChord.

(** ** The outcome of a press *)

(** Passed on as it is, a part of combo [i], or the last part, which carries it. *)
Inductive outcome := Passed | Joined (i : Z) | Fired (i : Z).
Definition part_of (o : outcome) : option Z := match o with Passed => None | Joined i | Fired i => Some i end.

Section ledger.
Context (tbl : list (list Z * Z)).

Definition entry_at (i : Z) : list Z * Z := nth (Z.to_nat i) tbl ([], 0).
Definition keys_at (i : Z) : list Z := combo_keys_of (entry_at i).1.
Definition output_at (i : Z) : Z := (entry_at i).2.

(** A press, that is a record and its keycode, with its outcome. *)
Definition line : Type := (keyrecord_t * Z) * outcome.
Implicit Types (l : list line) (ln : line) (i kc : Z).

(** What is passed on of it: a combo without a keycode is passed on as nothing. *)
Definition result ln : list keyrecord_t :=
  match ln.2 with
  | Passed => [ln.1.1]
  | Joined _ => []
  | Fired i => if output_at i =? 0 then [] else [combo_record (output_at i) ln.1.1]
  end.
Definition results l : list keyrecord_t := concat (map result l).

(** The presses that became combo [i]: none, or presses of all its keys and of no
    other, of which the last one carries the combo. *)
Definition parts i l : list line := List.filter (fun ln => bool_decide (part_of ln.2 = Some i)) l.
Definition whole i l : Prop :=
  parts i l = []
  \/ exists ps p, parts i l = ps ++ [(p, Fired i)] /\ Forall (fun ln => ln.2 = Joined i) ps /\ 0 <= i < lenZ tbl
     /\ forall kc, In kc (keys_at i) <-> In kc (map (fun ln => ln.1.2) (parts i l)).
(** A batch: no press is a part of a combo that is not complete in it. *)
Definition batch l : Prop := forall i, whole i l.

(** What is in the buffer of a line of the ledger. *)
Definition render ln : queued_record_t :=
  match ln.2 with
  | Passed => fresh ln.1
  | Joined _ => tick_queued (fresh ln.1)
  | Fired i => mk_queued (combo_record (output_at i) ln.1.1) i ln.1.2
  end.

Lemma render_keycode ln : q_keycode (render ln) = ln.1.2.
Proof using. by destruct ln as [? []]. Qed.

Definition real (p : keyrecord_t * Z) : Prop := IS_EVENT (rec_event p.1) = true /\ ev_pressed (rec_event p.1) = true.

Lemma render_delivered ln : real ln.1 -> lenZ tbl < NONE16 -> (forall i, ln.2 = Fired i -> i < lenZ tbl) ->
  delivered (render ln) = result ln.
Proof using.
  intros [He _] Hn Hi. destruct ln as [[record kc] []]; unfold delivered, render, result, fresh; cbn.
  - unfold IS_NOEVENT. unfold IS_EVENT in He. cbn in He. rewrite (proj1 (negb_true_iff _) He). by rewrite andb_false_r.
  - done.
  - specialize (Hi _ eq_refl). rewrite (proj2 (Z.eqb_neq i NONE16)) by lia. unfold truthy. rewrite negb_involutive, andb_true_r.
    by case_if.
Qed.
Lemma result_pressed ln : real ln.1 -> pressed_records (result ln) = result ln.
Proof using. intros [_ Hp]. destruct ln as [[record kc] []]; unfold result; cbn in *; try case_if; cbn; by rewrite ?Hp. Qed.

Lemma parts_app i l k : parts i (l ++ k) = parts i l ++ parts i k.
Proof using. apply List.filter_app. Qed.
Lemma parts_passed i l : Forall (fun ln => ln.2 = Passed) l -> parts i l = [].
Proof using. induction 1 as [|[p o] l Ho _ IH]; [done|]. cbn in *. subst. exact IH. Qed.
Lemma batch_passed ps : batch (map (fun p => (p, Passed)) ps).
Proof using. intros i. left. apply parts_passed. by induction ps; constructor. Qed.

(** The keycode of a part is one of its combo's. *)
Lemma parts_key l i ln : batch l -> In ln l -> part_of ln.2 = Some i -> In ln.1.2 (keys_at i) /\ 0 <= i < lenZ tbl.
Proof using.
  intros Hb Hin Hp. assert (Hm : In ln (parts i l)) by (apply filter_In; split; [done|by apply bool_decide_eq_true]).
  destruct (Hb i) as [E|(ps & p & _ & _ & Hi & Hk)]; [by rewrite E in Hm|]. split; [|done]. apply Hk.
  apply in_map_iff. by exists ln.
Qed.

(** ** A combo taken from a batch *)

(** The lines of the keys [ks] become parts of combo [i]. *)
Definition join i (ks : list Z) ln : line := if existsb (Z.eqb ln.1.2) ks then (ln.1, Joined i) else ln.

Lemma has_key kc ks : existsb (Z.eqb kc) ks = true <-> In kc ks.
Proof using.
  rewrite existsb_exists. split; [intros (x & Hx & E)|intros H; exists kc; split; [done|lia]].
  assert (kc = x) as -> by lia. done.
Qed.

Lemma join_parts i ks pre : Forall (fun ln => In ln.1.2 ks -> ln.2 = Passed) pre -> parts i pre = [] ->
  Forall (fun ln => ln.2 = Joined i) (parts i (map (join i ks) pre))
  /\ (forall kc, In kc (map (fun ln => ln.1.2) (parts i (map (join i ks) pre))) <-> In kc ks /\ In kc (map (fun ln => ln.1.2) pre)).
Proof using.
  induction pre as [|ln pre IH]; intros Hf Hn; [split; [constructor|by cbn; tauto]|].
  inversion Hf as [|? ? Hl Hf']; subst. cbn [parts List.filter] in Hn. destruct (bool_decide _) eqn:E; [done|].
  destruct (IH Hf' Hn) as [I1 I2]. cbn [map]. unfold join at 1 3. destruct (existsb _ _) eqn:Ek.
  - apply has_key in Ek. cbn [parts List.filter part_of snd]. rewrite bool_decide_true by done. split; [by constructor|].
    intros kc. cbn [map fst In]. rewrite I2. split; [intros [<-|[? ?]]; auto|intros [? [?|?]]; auto].
  - cbn [parts List.filter]. rewrite E. split; [done|]. intros kc. rewrite I2. cbn [map In]. split; [intros []; auto|].
    intros [Hk [<-|?]]; [|done]. apply has_key in Hk. congruence.
Qed.

Lemma join_others i j ks l : j <> i -> Forall (fun ln => In ln.1.2 ks -> ln.2 = Passed) l ->
  parts j (map (join i ks) l) = parts j l.
Proof using.
  intros Hne. induction 1 as [|[p o] l Hl _ IH]; [done|]. cbn [map]. unfold join at 1.
  destruct (existsb _ _) eqn:Ek; cbn [parts List.filter fst snd] in *; fold (parts j (map (join i ks) l)); fold (parts j l); rewrite IH; [|done].
  apply has_key, Hl in Ek. subst o. cbn [part_of]. by rewrite !bool_decide_false by congruence.
Qed.

Lemma join_batch i pre p post : 0 <= i < lenZ tbl ->
  Forall (fun ln => In ln.1.2 (keys_at i) -> ln.2 = Passed) (pre ++ (p, Passed) :: post) ->
  In p.2 (keys_at i) -> (forall kc, In kc (keys_at i) -> In kc (map (fun ln => ln.1.2) pre ++ [p.2])) ->
  batch (pre ++ (p, Passed) :: post) -> batch (map (join i (keys_at i)) pre ++ (p, Fired i) :: post).
Proof using.
  intros Hi Hf Hp Hall Hb.
  assert (Hnone : parts i (pre ++ (p, Passed) :: post) = []).
  { destruct (parts i _) as [|ln rest] eqn:E; [done|]. exfalso.
    assert (Hin : In ln (parts i (pre ++ (p, Passed) :: post))) by (rewrite E; by left).
    apply filter_In in Hin as [Hin Ho]. apply bool_decide_eq_true in Ho.
    destruct (parts_key _ _ _ Hb Hin Ho) as [Hk _]. rewrite List.Forall_forall in Hf. rewrite (Hf _ Hin Hk) in Ho. done. }
  apply Forall_app in Hf as [Hpre Hpost]. inversion Hpost as [|? ? _ Hpost']; subst.
  rewrite parts_app in Hnone. apply app_eq_nil in Hnone as [Hn1 Hn2].
  change (parts i post = []) in Hn2.
  intros j. unfold whole. rewrite parts_app. destruct (decide (j = i)) as [->|Hne].
  - right. destruct (join_parts i (keys_at i) pre Hpre Hn1) as [J1 J2].
    assert (E : parts i ((p, Fired i) :: post) = [(p, Fired i)])
      by (cbn [parts List.filter part_of snd]; rewrite bool_decide_true by done; f_equal; exact Hn2).
    rewrite E. eexists _, p. split; [reflexivity|]. split_and!; [done|lia|lia|]. intros kc. rewrite map_app, in_app_iff, J2. cbn [map In fst].
    split; [intros Hk|intros [[? ?]|[<-|[]]]; done]. specialize (Hall kc Hk). apply in_app_iff in Hall as [?|[<-|[]]]; auto.
  - assert (E : parts j (map (join i (keys_at i)) pre) ++ parts j ((p, Fired i) :: post) = parts j (pre ++ (p, Passed) :: post)).
    { rewrite join_others, parts_app by done. f_equal. cbn [parts List.filter part_of snd]. by rewrite !bool_decide_false by congruence. }
    rewrite E. destruct (Hb j) as [Hb1|Hb2]; [by left|right; exact Hb2].
Qed.
End ledger.

(** ** A complete combo in the buffer *)

Section complete.
Context (ks : list Z) (Hdup : NoDup ks) (Hlen : lenZ ks <= 8).

Lemma bits_same l k st : (forall x, In x l <-> In x k) -> bits_of ks l st -> bits_of ks k st.
Proof using.
  intros Hp [H1 H2]. split; [done|]. intros i Hi. rewrite H2 by done.
  split; intros (kc & Hk & Hb); exists kc; (split; [by apply Hp|done]).
Qed.

Lemma all_down l st : Forall (fun kc => In kc ks) l -> bits_of ks l st ->
  ALL_COMBO_KEYS_ARE_DOWN st (lenZ ks) = true <-> forall kc, In kc ks -> In kc l.
Proof using Hdup Hlen.
  intros Hl Hb. rewrite List.Forall_forall in Hl. split.
  - intros Ha kc Hk. destruct (in_dec Z.eq_dec kc l) as [|Hn]; [done|]. exfalso.
    rewrite (bits_partial ks l kc st Hk Hn) in Ha; [done|by apply List.Forall_forall|done].
  - intros Ha. apply (bits_full ks Hdup Hlen ks); [done|]. apply (bits_same l); [|done]. intros x. split; auto.
Qed.

Lemma find_key_spec combo kc : the_keys combo = ks ->
  find_key combo kc = (if existsb (Z.eqb kc) ks then bit ks kc else NONE16, lenZ ks).
Proof using Hdup Hlen.
  intros Hk. unfold find_key. rewrite find_place by (unfold the_keys in Hk; rewrite ?Hk; (done || lia)).
  unfold the_keys in Hk. rewrite Hk. unfold bit. destruct (place kc ks) as [p|] eqn:E.
  - rewrite (proj2 (has_key kc ks)); [done|]. apply place_lookup, list_elem_of_lookup_2 in E. by apply list_elem_of_In.
  - destruct (existsb _ _) eqn:Ex; [|done]. apply has_key in Ex. by apply place_none in E.
Qed.
End complete.

Section apply.
Context (tbl : list (list Z * Z)).
Implicit Types (l : list line) (ln : line) (c : combo_st) (i kc : Z).

Lemma entry_shape c i : table c = tbl -> shape (combo_get c i) = entry_at tbl i.
Proof using. intros <-. unfold entry_at, table, combo_get. symmetry. apply (map_nth shape (key_combos c) no_combo). Qed.
Lemma keys_shape c i : table c = tbl -> the_keys (combo_get c i) = keys_at tbl i.
Proof using. intros Ht. unfold keys_at, the_keys. by rewrite <- (entry_shape c i Ht). Qed.
Lemma keys_at_range i kc : 0 <= i -> In kc (keys_at tbl i) -> 0 <= i < lenZ tbl.
Proof using.
  intros Hi Hk. split; [done|]. unfold keys_at, entry_at in Hk. unfold lenZ.
  destruct (Nat.lt_ge_cases (Z.to_nat i) (length tbl)) as [|Hge]; [lia|]. by rewrite nth_overflow in Hk.
Qed.

(** The loop of [apply_combo] joins the presses up to the one that completes the
    combo. *)
Lemma apply_keys_joins combo i : shape combo = entry_at tbl i -> NoDup (keys_at tbl i) -> lenZ (keys_at tbl i) <= 8 ->
  forall l seen st, bits_of (keys_at tbl i) seen st -> Forall (fun kc => In kc (keys_at tbl i)) seen ->
  ~ (forall kc, In kc (keys_at tbl i) -> In kc seen) ->
  Forall (fun ln => In ln.1.2 (keys_at tbl i) -> ln.2 = Passed) l ->
  (forall kc, In kc (keys_at tbl i) -> In kc seen \/ In kc (map (fun ln => ln.1.2) l)) ->
  exists pre p post, l = pre ++ (p, Passed) :: post /\ In p.2 (keys_at tbl i)
    /\ (forall kc, In kc (keys_at tbl i) -> In kc seen \/ In kc (map (fun ln => ln.1.2) pre ++ [p.2]))
    /\ apply_keys combo i st (map (render tbl) l)
       = (map (render tbl) (map (join i (keys_at tbl i)) pre ++ (p, Fired i) :: post), true).
Proof using.
  intros Hshape Hdup Hlen. assert (Hks : the_keys combo = keys_at tbl i) by (unfold the_keys, keys_at; by rewrite <- Hshape).
  assert (Hout : keycode combo = output_at tbl i) by (unfold output_at; by rewrite <- Hshape).
  induction l as [|ln l IH]; intros seen st Hb Hs Hnot Hf Hall.
  { exfalso. apply Hnot. intros kc Hk. by destruct (Hall kc Hk). }
  inversion Hf as [|? ? Hln Hf']; subst. cbn [map apply_keys]. rewrite render_keycode.
  rewrite (find_key_spec _ Hdup Hlen combo) by done. destruct (existsb (Z.eqb ln.1.2) _) eqn:Ek.
  - apply has_key in Ek as Hk. destruct ln as [p o]. cbn [fst snd] in *. rewrite (Hln Hk) in *.
    pose proof (bit_range _ _ Hk). rewrite (proj2 (Z.eqb_neq _ NONE16)) by (unfold NONE16; lia).
    pose proof (bits_down _ Hlen _ _ _ Hk Hb) as Hb'.
    assert (Hs' : Forall (fun kc => In kc (keys_at tbl i)) (p.2 :: seen)) by (by constructor).
    pose proof (all_down _ Hdup Hlen _ _ Hs' Hb') as Hd. destruct (ALL_COMBO_KEYS_ARE_DOWN _ _).
    + exists [], p, l. split_and!; [done|done| |].
      * intros kc Hkc. destruct (proj1 Hd eq_refl kc Hkc) as [->|]; [right; by left|by left].
      * cbn [map app]. unfold render at 1 3. cbn [snd fst fresh q_record q_keycode]. by rewrite Hout.
    + destruct (IH (p.2 :: seen) _ Hb' Hs') as (pre & q & post & -> & Hq & Hcov & ->); [|done| |].
      * intros Ha. by apply Hd in Ha.
      * intros kc Hkc. destruct (Hall kc Hkc) as [|[<-|]]; [left; by right|left; by left|by right].
      * exists ((p, Passed) :: pre), q, post. split_and!; [done|done| |].
        -- intros kc Hkc. destruct (Hcov kc Hkc) as [[<-|]|]; [right; by left|by left|right; by right].
        -- cbn [map app]. unfold join at 2. cbn [fst]. by rewrite Ek.
  - rewrite Z.eqb_refl. destruct (IH seen st Hb Hs Hnot Hf') as (pre & q & post & -> & Hq & Hcov & ->).
    + intros kc Hkc. destruct (Hall kc Hkc) as [|[<-|]]; [by left| |by right]. apply has_key in Hkc. congruence.
    + exists (ln :: pre), q, post. split_and!; [done|done| |].
      * intros kc Hkc. destruct (Hcov kc Hkc) as [|]; [by left|right; by right].
      * cbn [map app]. unfold join at 2. by rewrite Ek.
Qed.

Lemma apply_keys_nothing combo i st queue : the_keys combo = [] -> apply_keys combo i st queue = (queue, false).
Proof using.
  intros Hk. induction queue as [|q queue IH]; [done|]. cbn [apply_keys].
  rewrite (find_key_spec [] NoDup_nil_2 ltac:(by vm_compute) combo) by done. cbn [existsb]. rewrite Z.eqb_refl. by rewrite IH.
Qed.

(** One combo of the ring. *)
Lemma apply_combo_ledger i c l : combo_wf c -> table c = tbl -> queue c = map (render tbl) l -> batch tbl l ->
  0 <= i -> NoDup (keys_at tbl i) -> lenZ (keys_at tbl i) <= 8 ->
  Forall (fun ln => In ln.1.2 (keys_at tbl i) -> ln.2 = Passed) l ->
  (forall kc, In kc (keys_at tbl i) -> In kc (map (fun ln => ln.1.2) l)) -> disabled (combo_get c i) = false ->
  exists l', queue (apply_combo i c) = map (render tbl) l' /\ map fst l' = map fst l /\ batch tbl l'
    /\ Forall (fun ln => In ln l \/ In ln.1.2 (keys_at tbl i)) l'.
Proof using.
  intros Hw Ht Hq Hb Hi Hdup Hlen Hf Hall Hd.
  assert (Hend : forall l' (fired : bool), map fst l' = map fst l -> (map (render tbl) l', fired) = apply_keys (combo_get c i) i 0 (queue c) ->
    queue (apply_combo i c) = map (render tbl) l').
  { intros l' fired El Ea. unfold apply_combo. rewrite Hd. fold (queue c). rewrite <- Ea.
    assert (Hll : length (map (render tbl) l') = length (queue c)).
    { rewrite Hq, !length_map. apply (f_equal length) in El. by rewrite !length_map in El. }
    destruct (set_queue_size _ c Hw Hll) as [H1 H2]. set (c1 := set_key_buffer _ _ _ c) in *. rewrite <- H2.
    apply same_keys_queue. eapply same_keys_trans; [|apply drop_from_keys; case_if; [apply set_combo_flags; [done|]|]; apply H1].
    case_if; [apply set_combo_flags; [done|]; apply H1|]. apply same_keys_refl, H1. }
  destruct (keys_at tbl i) as [|k0 rest] eqn:Ek.
  - exists l. split_and!; [|done|done|apply List.Forall_forall; by left].
    apply (Hend _ false); [done|]. rewrite apply_keys_nothing, Hq; [done|]. by rewrite (keys_shape c i Ht).
  - rewrite <- Ek in *. assert (Hr : 0 <= i < lenZ tbl) by (apply (keys_at_range i k0 Hi); rewrite Ek; by left).
    destruct (apply_keys_joins (combo_get c i) i (entry_shape c i Ht) Hdup Hlen l [] 0 (bits_nil _)) as (pre & p & post & -> & Hp & Hcov & Ha);
      [constructor| |done|by right; apply Hall|].
    { intros H. apply (H k0). rewrite Ek. by left. }
    exists (map (join i (keys_at tbl i)) pre ++ (p, Fired i) :: post).
    assert (Hfst : map fst (map (join i (keys_at tbl i)) pre) = map fst pre)
      by (rewrite map_map; apply map_ext; intros ln; unfold join; by case_if).
    split_and!.
    + apply (Hend _ true); [rewrite !map_app; f_equal; exact Hfst|]. by rewrite Hq.
    + rewrite !map_app. f_equal. exact Hfst.
    + apply join_batch; [done|done|done| |done]. intros kc Hkc. by destruct (Hcov kc Hkc).
    + apply Forall_app. split.
      * apply List.Forall_forall. intros ln (x & <- & Hx)%in_map_iff. unfold join. destruct (existsb _ _) eqn:Ex.
        -- right. by apply has_key.
        -- left. apply in_app_iff. by left.
      * constructor; [by right|]. apply List.Forall_forall. intros ln Hln. left. apply in_app_iff. right. by right.
Qed.
End apply.

(** ** The ring of complete combos *)

Definition sleeps (f : combo_t -> combo_t) : Prop := forall combo, disabled (f combo) = false -> disabled combo = false.

Lemma set_combo_sleeps i j f c : sleeps f -> disabled (combo_get (set_combo i f c) j) = false -> disabled (combo_get c j) = false.
Proof.
  intros Hf. unfold combo_get, set_combo. cbn [set_key_combos key_combos]. rewrite !nth_lookup, list_lookup_alter.
  case_decide as E; [|done]. rewrite <- E. destruct (key_combos c !! Z.to_nat i); [apply Hf|done].
Qed.

(** What stays when a combo is applied. *)
Definition same_ring c c' : Prop :=
  combo_buffer c' = combo_buffer c /\ combo_buffer_write c' = combo_buffer_write c
  /\ forall j, disabled (combo_get c' j) = false -> disabled (combo_get c j) = false.

Lemma drop_from_ring fuel i idx c : same_ring c (drop_from fuel i idx c).
Proof.
  revert i. induction fuel as [|fuel IH]; intros i; cbn [drop_from]; [done|]. case_if; [done|]. case_if; [|apply IH].
  case_if; (split; [done|split; [done|]]); intros j; apply (set_combo_sleeps idx j DISABLE_COMBO c); by intros combo Hc.
Qed.
Lemma apply_combo_ring idx c : same_ring c (apply_combo idx c).
Proof.
  unfold apply_combo. case_if; [done|]. destruct (apply_keys _ _ _ _) as [l fired].
  set (c1 := set_key_buffer _ _ _ c). set (c2 := if fired then _ else c1).
  assert (H2 : same_ring c c2).
  { unfold c2. case_if; [|done]. split; [done|split; [done|]]. intros j. apply (set_combo_sleeps idx j ACTIVATE_COMBO c1). by intros combo Hc. }
  destruct (drop_from_ring ring_fuel (combo_buffer_read c2) idx c2) as (E1 & E2 & E3). destruct H2 as (F1 & F2 & F3).
  split; [by rewrite <- F1|split; [by rewrite <- F2|]]. intros j Hj. by apply F3, E3.
Qed.

(** The combos of the ring from index [i] on. *)
Fixpoint ring_from (fuel : nat) (i : Z) c : list Z :=
  match fuel with
  | O => []
  | S fuel => if i =? combo_buffer_write c then [] else nthZ (combo_buffer c) i :: ring_from fuel (INCREMENT_MOD i) c
  end.
Lemma ring_from_same fuel i c c' : same_ring c c' -> ring_from fuel i c' = ring_from fuel i c.
Proof.
  intros (E1 & E2 & _). revert i. induction fuel as [|fuel IH]; intros i; [done|]. cbn [ring_from]. by rewrite E1, E2, IH.
Qed.

(** The combos about to be applied. *)
Definition due c : list Z :=
  List.filter (fun idx => negb (disabled (combo_get c idx))) (ring_from ring_fuel (combo_buffer_read c) c).
(** They have up to eight keys each, which all wait in the buffer, and no two of
    them share a key. *)
Definition ring_complete c : bool :=
  bool_decide (NoDup (concat (map (fun idx => the_keys (combo_get c idx)) (due c))))
  && forallb (fun idx => (lenZ (the_keys (combo_get c idx)) <=? 8)
       && forallb (fun kc => existsb (Z.eqb kc) (map q_keycode (queue c))) (the_keys (combo_get c idx))) (due c).
Lemma ring_complete_spec c : ring_complete c = true ->
  NoDup (concat (map (fun idx => the_keys (combo_get c idx)) (due c)))
  /\ Forall (fun idx => lenZ (the_keys (combo_get c idx)) <= 8
       /\ forall kc, In kc (the_keys (combo_get c idx)) -> In kc (map q_keycode (queue c))) (due c).
Proof.
  unfold ring_complete. intros [H1 H2]%andb_true_iff. split; [by apply bool_decide_eq_true in H1|].
  rewrite forallb_forall in H2. apply List.Forall_forall. intros idx Hi. apply H2 in Hi as [Hl Hk]%andb_true_iff.
  split; [lia|]. rewrite forallb_forall in Hk. intros kc Hkc. by apply has_key, Hk.
Qed.

Section ring.
Context (tbl : list (list Z * Z)).
Implicit Types (l : list line) (ln : line) (c : combo_st) (i kc : Z).

Lemma ring_nonneg c i : combo_wf c -> 0 <= nthZ (combo_buffer c) i.
Proof using.
  intros Hc. destruct (decide (0 <= i < lenZ (combo_buffer c))) as [Hi|Hi]; [|by rewrite nthZ_out by done].
  rewrite nthZ_lookup by lia. unfold lenZ in Hi.
  destruct (lookup_lt_is_Some_2 (combo_buffer c) (Z.to_nat i)) as [x Hx]; [lia|]. rewrite Hx. cbn.
  pose proof (Forall_lookup_1 _ _ _ _ (wf_indices c Hc) Hx) as H. cbn in H. lia.
Qed.

Lemma apply_from_ledger (alive : Z -> bool) fuel i c l :
  combo_wf c -> table c = tbl -> queue c = map (render tbl) l -> batch tbl l ->
  (forall j, disabled (combo_get c j) = false -> alive j = true) ->
  NoDup (concat (map (keys_at tbl) (List.filter alive (ring_from fuel i c)))) ->
  Forall (fun j => lenZ (keys_at tbl j) <= 8 /\ forall kc, In kc (keys_at tbl j) -> In kc (map (fun ln => ln.1.2) l))
    (List.filter alive (ring_from fuel i c)) ->
  Forall (fun ln => In ln.1.2 (concat (map (keys_at tbl) (List.filter alive (ring_from fuel i c)))) -> ln.2 = Passed) l ->
  exists l', queue (apply_from fuel i c) = map (render tbl) l' /\ map fst l' = map fst l /\ batch tbl l'.
Proof using.
  revert i c l. induction fuel as [|fuel IH]; intros i c l Hw Ht Hq Hb Hal Hnd Hall Hf; cbn [apply_from]; [by exists l|].
  cbn [ring_from] in *. destruct (i =? combo_buffer_write c); [by exists l|].
  pose proof (apply_combo_ring (nthZ (combo_buffer c) i) c) as Hr. pose proof (apply_combo_size (nthZ (combo_buffer c) i) c Hw) as (Hw' & Ht' & _).
  pose proof (ring_nonneg c i Hw) as Hi0. set (idx := nthZ (combo_buffer c) i) in *. cbn [List.filter] in *.
  set (R := List.filter alive (ring_from fuel (INCREMENT_MOD i) c)) in *.
  assert (HR : List.filter alive (ring_from fuel (INCREMENT_MOD i) (apply_combo idx c)) = R) by (by rewrite (ring_from_same _ _ c)).
  assert (Hal' : forall j, disabled (combo_get (apply_combo idx c) j) = false -> alive j = true) by (intros j Hj; by apply Hal, Hr).
  specialize (IH (INCREMENT_MOD i) (apply_combo idx c)). rewrite HR in IH.
  destruct (disabled (combo_get c idx)) eqn:Hd.
  - assert (E : apply_combo idx c = c) by (unfold apply_combo; by rewrite Hd). rewrite E in *.
    apply IH; try done; destruct (alive idx); cbn [map concat] in *; try done.
    + by apply list.NoDup_app in Hnd as (_ & _ & ?).
    + by inversion Hall.
    + refine (List.Forall_impl _ _ Hf). intros ln Hln Hin. apply Hln, in_app_iff. by right.
  - rewrite (Hal _ Hd) in *. cbn [map concat] in *. apply list.NoDup_app in Hnd as (Hnd1 & Hdis & Hnd2).
    inversion Hall as [|? ? [Hlen Hkeys] Hall']; subst.
    destruct (apply_combo_ledger (table c) idx c l Hw eq_refl Hq Hb Hi0 Hnd1 Hlen) as (l' & Hq' & El & Hb' & Hf'); [|done|done|].
    { refine (List.Forall_impl _ _ Hf). intros ln Hln Hin. apply Hln, in_app_iff. by left. }
    assert (Ek : map (fun ln => ln.1.2) l' = map (fun ln => ln.1.2) l).
    { assert (Em : forall k : list line, map (fun ln => ln.1.2) k = map snd (map fst k)) by (intros k; by rewrite map_map).
      rewrite !Em. by f_equal. }
    destruct (IH l' Hw' Ht' Hq' Hb' Hal' Hnd2) as (l2 & ? & E2 & ?).
    + refine (List.Forall_impl _ _ Hall'). intros j. by rewrite Ek.
    + rewrite List.Forall_forall in Hf, Hf' |- *. intros ln Hln Hin. destruct (Hf' _ Hln) as [Hold|Hk].
      * apply Hf; [done|]. apply in_app_iff. by right.
      * exfalso. apply (Hdis ln.1.2); by apply list_elem_of_In.
    + exists l2. split_and!; [done|congruence|done].
Qed.
End ring.

(** ** The ledger of a run *)

Section runs.
Context {W : Type} {host : ComboHost W} {qcfg : QmkSettingsConfig} (tbl : list (list Z * Z)) (Hn : lenZ tbl < NONE16).
Implicit Types (s : combined (W * list keyrecord_t)) (record : keyrecord_t) (steps : list (combo_step W)).
Implicit Types (presses waiting : list (keyrecord_t * Z)) (batches : list (list line)).

Lemma released_records l : Forall released l -> pressed_records l = [].
Proof using. induction 1 as [|r l Hr _ IH]; [done|]. cbn. unfold released in Hr. by rewrite Hr. Qed.
Lemma pressed_app l k : pressed_records (l ++ k) = pressed_records l ++ pressed_records k.
Proof using. apply List.filter_app. Qed.
Lemma results_app l k : results tbl (l ++ k) = results tbl l ++ results tbl k.
Proof using. unfold results. by rewrite map_app, concat_app. Qed.

(** The presses so far are those of the batches, in order, then those in the
    buffer; what was pressed on the tapping code are the results of the batches. *)
Definition ledger presses s batches waiting : Prop :=
  presses = map fst (concat batches) ++ waiting /\ queue (combos s) = map fresh waiting /\ Forall real waiting
  /\ Forall (batch tbl) batches /\ pressed_records (log s) = results tbl (concat batches).
Definition accounted presses s : Prop :=
  combo_wf (combos s) /\ table (combos s) = tbl /\ exists batches waiting, ledger presses s batches waiting.
Definition settled presses s : Prop := accounted presses s /\ key_buffer_size (combos s) = 0.

Lemma quiet_accounted presses s s' : quietly s s' -> accounted presses s -> accounted presses s'.
Proof using.
  intros [Hk (out & Hl & Hr)] (Hw & Ht & b & w & E & Hq & Hf & Hb & Hg). pose proof (same_keys_queue _ _ Hk) as Hq'.
  destruct Hk as (Hw' & Ht' & _). split; [done|]. split; [congruence|]. exists b, w.
  split; [done|]. split; [congruence|]. split; [done|]. split; [done|].
  by rewrite Hl, pressed_app, (released_records _ Hr), app_nil_r.
Qed.
Lemma keys_accounted presses f s : same_keys (combos s) (f (combos s)) -> accounted presses s -> accounted presses (on_combos f s).
Proof using. intros H. apply quiet_accounted. by apply quietly_combos. Qed.
Lemma keys_settled presses f s : (forall c, combo_wf c -> same_keys c (f c)) -> settled presses s -> settled presses (on_combos f s).
Proof using.
  intros Hf [H1 H2]. specialize (Hf _ (proj1 H1)). split; [by apply keys_accounted|]. cbn. destruct Hf as (_ & _ & -> & _). done.
Qed.

(** The buffer is emptied: its lines are the next batch. *)
Lemma dump_batch presses s batches l : combo_wf (combos s) -> table (combos s) = tbl ->
  presses = map fst (concat batches) ++ map fst l -> queue (combos s) = map (render tbl) l -> Forall real (map fst l) ->
  batch tbl l -> Forall (batch tbl) batches -> pressed_records (log s) = results tbl (concat batches) ->
  settled presses (dump_key_buffer s).
Proof using Hn.
  intros Hw Ht Hp Hq Hr Hb Hbs Hg. destruct (dump_delivers s Hw) as [(k & Ec & El) Hl].
  assert (Hres : concat (map delivered (queue (combos s))) = results tbl l).
  { rewrite Hq, map_map. unfold results. f_equal. apply map_ext_in. intros ln Hin. apply render_delivered; [|done|].
    - rewrite List.Forall_forall in Hr. by apply Hr, in_map.
    - intros i Ho. apply (parts_key tbl l i ln Hb Hin). by rewrite Ho. }
  assert (Hpr : pressed_records (results tbl l) = results tbl l).
  { clear -Hr. induction l as [|ln l IH]; [done|]. inversion Hr; subst. cbn [results map concat]. fold (results tbl l).
    by rewrite pressed_app, result_pressed, IH. }
  split; [|by rewrite Ec]. split; [rewrite Ec; destruct Hw; by constructor|]. split; [by rewrite Ec|].
  exists (batches ++ [l]), []. unfold ledger. rewrite concat_app. cbn [concat]. rewrite !app_nil_r. split; [|split; [|split; [|split]]].
  - by rewrite map_app.
  - unfold queue. by rewrite Ec.
  - constructor.
  - apply Forall_app. split; [done|by constructor].
  - by rewrite Hl, pressed_app, Hres, Hpr, results_app, Hg.
Qed.

Lemma fresh_lines waiting : map (render tbl) (map (fun p => (p, Passed)) waiting) = map fresh waiting /\ map fst (map (fun p => (p, Passed)) waiting) = waiting.
Proof using. split; rewrite map_map; [done|apply map_id]. Qed.

Lemma dump_settles presses s : accounted presses s -> settled presses (dump_key_buffer s).
Proof using Hn.
  intros (Hw & Ht & b & w & E & Hq & Hf & Hb & Hg). destruct (fresh_lines w) as [F1 F2].
  apply (dump_batch presses s b (map (fun p => (p, Passed)) w)); rewrite ?F1, ?F2; try done. apply batch_passed.
Qed.

Lemma apply_combos_settles presses s : accounted presses s -> ring_complete (combos s) = true -> settled presses (apply_combos s).
Proof using Hn.
  intros (Hw & Ht & b & w & E & Hq & Hf & Hb & Hg) [Hnd Hall]%ring_complete_spec. unfold apply_combos. apply keys_settled; [apply clear_combos_keys|].
  destruct (fresh_lines w) as [F1 F2]. set (l := map (fun p => (p, Passed)) w) in *.
  assert (Hkeys : map (fun idx => the_keys (combo_get (combos s) idx)) (due (combos s)) = map (keys_at tbl) (due (combos s)))
    by (apply map_ext; intros; by apply keys_shape).
  rewrite Hkeys in Hnd.
  destruct (apply_from_ledger tbl (fun j => negb (disabled (combo_get (combos s) j))) ring_fuel (combo_buffer_read (combos s))
    (combos s) l Hw Ht) as (l' & Q & El & Hb'); [by rewrite F1|apply batch_passed|by intros j ->|done|..].
  - refine (List.Forall_impl _ _ Hall). intros j. rewrite (keys_shape tbl _ j Ht). intros [H1 H2]. split; [done|].
    intros kc Hk. specialize (H2 kc Hk). rewrite Hq, map_map in H2. unfold l. by rewrite map_map.
  - apply List.Forall_forall. intros ln Hln _. apply in_map_iff in Hln as (p & <- & _). done.
  - destruct (apply_from_size ring_fuel (combo_buffer_read (combos s)) (combos s) Hw) as (Hw' & Ht' & _).
    apply (dump_batch presses _ b l'); cbn [on_combos combos]; rewrite ?El, ?F2; try done. congruence.
Qed.

Lemma combo_disable_settles presses s : accounted presses s -> settled presses (combo_disable s).
Proof using Hn.
  intros H. unfold combo_disable. apply dump_settles. apply keys_accounted; [|done]. apply disabling_keys, H.
Qed.
Lemma enable_accounted presses s : accounted presses s -> accounted presses (on_combos combo_enable s).
Proof using. intros H. apply keys_accounted; [apply set_enable_keys, H|done]. Qed.

(** ** The conditions of a step *)

(** When the buffer is emptied, the combos about to be applied are complete. *)
Definition flushes_complete (step : combo_step W) s : Prop :=
  match step with
  | Key keycode record =>
      let '(hit, s) := process_combo_table keycode record s in
      ev_pressed (rec_event record) && hit = false -> ring_complete (combos s) = true
  | Task => combos_due s = true -> ring_complete (combos s) = true
  | _ => True
  end.
(** Key records are events, with keycodes that do not control the combos; there
    is room in the buffer for each press, and only complete combos are applied. *)
Fixpoint regular steps s : Prop :=
  match steps with
  | [] => True
  | step :: steps =>
      step_ok step /\ has_room step s /\ flushes_complete step s /\ regular steps (combo_run_step s step)
  end.

Lemma combo_task_settles presses s : combos_due s = true -> ring_complete (combos s) = true -> accounted presses s ->
  settled presses (combo_task s).
Proof using Hn.
  unfold combos_due, combo_task. intros [-> ->]%andb_true_iff Hc H. cbn [negb]. case_if.
  - apply (keys_settled _ _ _ clear_longest_keys). by apply apply_combos_settles.
  - apply (keys_settled _ _ _ clear_timer_keys). by apply dump_settles.
Qed.

(** A key that is not held back comes after the keys that were. *)
Lemma passes presses record keycode s : IS_EVENT (rec_event record) = true -> settled presses s ->
  accounted (presses ++ presses_of (Key (W := W) keycode record)) (on_below (tapping_process record) s).
Proof using Hn.
  intros He [(Hw & Ht & b & w & E & Hq & Hf & Hb & Hg) Hz].
  assert (w = []) as ->.
  { unfold queue in Hq. rewrite Hz in Hq. by destruct w. }
  rewrite app_nil_r in E. subst presses. split; [done|]. split; [done|].
  assert (Hlog : log (on_below (tapping_process record) s) = log s ++ [record]) by done. cbn [presses_of].
  destruct (ev_pressed (rec_event record)) eqn:Ep.
  - exists (b ++ [[((record, keycode), Passed)]]), []. unfold ledger. rewrite concat_app. split; [|split; [|split; [|split]]].
    + by rewrite app_nil_r, map_app.
    + done.
    + done.
    + apply Forall_app. split; [done|]. constructor; [|done]. apply (batch_passed tbl [(record, keycode)]).
    + rewrite Hlog, pressed_app, results_app, Hg. f_equal. cbn. by rewrite Ep.
  - exists b, []. unfold ledger. rewrite !app_nil_r. split; [done|]. split; [done|]. split; [done|]. split; [done|].
    rewrite Hlog, pressed_app, Hg. cbn. by rewrite Ep, app_nil_r.
Qed.

Lemma enqueue_accounted presses record keycode s :
  IS_EVENT (rec_event record) = true -> ev_pressed (rec_event record) = true ->
  key_buffer_size (combos s) < COMBO_KEY_BUFFER_LENGTH -> accounted presses s ->
  accounted (presses ++ [(record, keycode)]) (on_combos (enqueue_key keycode record) s).
Proof using.
  intros He Hp Hz (Hw & Ht & b & w & E & Hq & Hf & Hb & Hg).
  assert (Ht' : table (enqueue_key keycode record (combos s)) = table (combos s)) by (unfold enqueue_key; by case_if).
  split; [by apply enqueue_wf|]. split; [cbn; congruence|]. exists b, (w ++ [(record, keycode)]).
  split; [by rewrite E, app_assoc|]. split; [|split; [apply Forall_app; split; [done|constructor; [by split|constructor]]|done]].
  cbn [on_combos combos]. by rewrite enqueue_queue, Hq, map_app by done.
Qed.

Lemma key_accounted presses keycode record s :
  step_ok (Key (W := W) keycode record) -> has_room (Key keycode record) s -> flushes_complete (Key keycode record) s ->
  accounted presses s ->
  accounted (presses ++ presses_of (Key (W := W) keycode record)) (combo_run_step s (Key keycode record)).
Proof using Hn.
  intros [He Hc] Hz Hfl H. cbn [combo_run_step]. unfold process_combo. apply orb_false_iff in Hc as [[Hon Hoff]%orb_false_iff Htog].
  rewrite Hon, Hoff, Htog. cbn [andb]. pose proof (table_quiet keycode record s (proj1 H)) as Hq. cbn [flushes_complete] in Hfl.
  destruct (process_combo_table keycode record s) as [hit s1]. cbn [snd] in Hq.
  pose proof (quiet_accounted _ _ _ Hq H) as H1.
  assert (Hz1 : has_room (Key keycode record) s1) by (cbn; destruct Hq as [(_ & _ & -> & _) _]; exact Hz).
  set (s2 := if _ && hit then _ else _).
  assert (Hflush : ev_pressed (rec_event record) && hit = false -> settled presses s2).
  { intros E. unfold s2. rewrite E. case_if; [by apply apply_combos_settles; [|apply Hfl]|].
    apply (keys_settled _ (fun c => clear_combos (set_timer 0 c))); [apply clear_timer_keys|by apply dump_settles]. }
  destruct hit; cbn [negb].
  - cbn [presses_of]. destruct (ev_pressed (rec_event record)) eqn:Ep; cbn [andb] in *.
    + unfold s2. apply enqueue_accounted with (s := on_combos (set_timer (host_time (below s1))) s1); try done; [by apply Hz1|].
      apply keys_accounted; [apply set_timer_keys, H1|done].
    + rewrite app_nil_r. by apply Hflush.
  - apply passes; [done|]. apply Hflush. by destruct (ev_pressed _).
Qed.

Lemma press_accounted presses step s : step_ok step -> has_room step s -> flushes_complete step s -> accounted presses s ->
  accounted (presses ++ presses_of step) (combo_run_step s step).
Proof using Hn.
  intros Hok Hr Hf H. destruct step; [by apply key_accounted|..]; cbn [presses_of]; rewrite ?app_nil_r.
  - cbn [combo_run_step]. destruct (combos_due s) eqn:E; [apply combo_task_settles; auto|]. by rewrite combo_task_due.
  - by apply enable_accounted.
  - by apply combo_disable_settles.
  - cbn. unfold combo_toggle. case_if; [by apply combo_disable_settles|by apply enable_accounted].
  - done.
Qed.

Lemma presses_accounted steps s presses : accounted presses s -> regular steps s ->
  accounted (presses ++ concat (map presses_of steps)) (combo_run steps s).
Proof using Hn.
  revert s presses. induction steps as [|step steps IH]; intros s presses H Hr; [by rewrite app_nil_r|].
  destruct Hr as (Hok & Hroom & Hfl & Hr). cbn [map concat combo_run foldl]. rewrite app_assoc.
  apply IH; [|done]. by apply press_accounted.
Qed.

Lemma boot_accounted (w : W) : accounted [] (combo_boot tbl w).
Proof using Hn.
  destruct (boot_wf tbl w Hn) as [H1 H2]. split; [done|]. split; [done|]. exists [], []. by split_and!.
Qed.

(** C24: no key press is lost, repeated or overtaken in the combo code. Let key
    presses and releases, the task, the switches of the combos and other work of
    the firmware follow each other, as long as there is room in the buffer for
    each press, and each time the buffer is emptied the combos about to be
    applied have all their keys (eight at most) in it and share none (the code
    itself breaks this when it drops a combo behind another for a longer one).
    The presses so far fall into batches, in order, and those waiting in the
    buffer, as they came. In a batch every press is passed on as it is, is part
    of a combo, or carries a combo's keycode in its place, and a press is part of
    a combo only when the batch has a press of each of the combo's keys; the last
    of these carries the combo, once. What was pressed on the tapping code is
    exactly the results of the batches, in order. *)
Theorem combo_presses_conserved (w : W) steps :
  regular steps (combo_boot tbl w) ->
  let s := combo_run steps (combo_boot tbl w) in
  exists batches waiting,
    concat (map presses_of steps) = map fst (concat batches) ++ waiting
    /\ queue (combos s) = map fresh waiting
    /\ Forall (batch tbl) batches
    /\ pressed_records (log s) = results tbl (concat batches).
Proof using Hn.
  intros Hr s. destruct (presses_accounted steps _ [] (boot_accounted w) Hr) as (_ & _ & b & wt & E & Hq & _ & Hb & Hg).
  by exists b, wt.
Qed.

(** C25: no key press waits for ever. In any state that the combo code reaches
    while there is room in its buffer for each press and the combos it applies
    are complete in it, with combos enabled and the timer running, the first task
    later than the longest term after the last combo key empties the buffer. Then
    every press so far is in a batch, and what was pressed on the tapping code is
    their results: each press passed on, or part of a combo that is complete in
    its batch and carried by the last of its keys. *)
Theorem combo_presses_delivered (w : W) steps max_term :
  0 <= max_term -> (forall w : W, get_combo_term w <= max_term) ->
  let s := combo_run steps (combo_boot tbl w) in
  regular (steps ++ [Task]) (combo_boot tbl w) ->
  b_combo_enable (combos s) = true -> timer (combos s) <> 0 ->
  max_term < TIMER_DIFF_16 (host_time (below s)) (timer (combos s)) ->
  let s' := combo_task s in
  key_buffer_size (combos s') = 0
  /\ exists batches, concat (map presses_of steps) = map fst (concat batches) /\ Forall (batch tbl) batches
       /\ pressed_records (log s') = results tbl (concat batches).
Proof using Hn.
  intros H0 Hm s Hr He Ht Hd s'.
  assert (Hr2 : regular steps (combo_boot tbl w) /\ regular [Task] s).
  { unfold s. clear -Hr. revert Hr. generalize (combo_boot tbl w). induction steps as [|step steps IH]; intros t Hr; [done|].
    destruct Hr as (H1 & H2 & H3 & H4). destruct (IH _ H4). by split. }
  destruct Hr2 as [Hr2 (_ & _ & Hc & _)].
  destruct (combo_run_good tbl steps _ max_term H0 Hm (boot_good tbl w max_term H0 Hn)) as (_ & _ & Hl). fold s in Hl.
  pose proof (presses_accounted steps _ [] (boot_accounted w) Hr2) as Ha. fold s in Ha.
  assert (Hdue : combos_due s = true).
  { unfold combos_due, truthy. rewrite He, (proj2 (Z.eqb_neq _ _) Ht). cbn [negb andb]. apply Z.ltb_lt. lia. }
  destruct (combo_task_settles _ s Hdue (Hc Hdue) Ha) as [(_ & _ & b & wt & E & Hq & _ & Hb & Hg) Hz].
  split; [done|]. exists b. split; [|done]. unfold queue in Hq. fold s' in Hz, Hq. rewrite Hz in Hq.
  destruct wt; [by rewrite app_nil_r in E|done].
Qed.
End runs.

(** ** Examples *)
Import ComboExample.

Lemma busy_regular : regular (busy ++ [Elsewhere (fun _ => 1200); Task]) (combo_boot two_combos 1).
Proof. vm_compute. by split_and!. Qed.
Lemma waiting_regular : regular busy (combo_boot two_combos 1).
Proof. vm_compute. by split_and!. Qed.

(** 9 is passed on, 4 and 5 are a combo, 6 waits. *)
Lemma combo_presses_conserved_witness :
  lenZ two_combos < NONE16 /\ regular busy (combo_boot two_combos 1)
  /\ exists batches waiting,
    concat (map presses_of busy) = map fst (concat batches) ++ waiting
    /\ queue (combos (combo_run busy (combo_boot two_combos 1))) = map fresh waiting
    /\ Forall (batch two_combos) batches
    /\ pressed_records (log (combo_run busy (combo_boot two_combos 1)))
       = results two_combos (concat batches).
Proof.
  split; [done|]. split; [exact waiting_regular|].
  exact (combo_presses_conserved two_combos eq_refl 1 busy waiting_regular).
Defined.

Lemma combo_presses_delivered_witness :
  let s' := combo_task (combo_run (busy ++ [Elsewhere (fun _ => 1200)]) (combo_boot two_combos 1)) in
  key_buffer_size (combos s') = 0
  /\ exists batches, concat (map presses_of (busy ++ [Elsewhere (fun _ => 1200)])) = map fst (concat batches)
       /\ Forall (batch two_combos) batches /\ pressed_records (log s') = results two_combos (concat batches).
Proof.
  apply (combo_presses_delivered two_combos eq_refl 1 (busy ++ [Elsewhere (fun _ => 1200)]) 50).
  - done.
  - done.
  - exact busy_regular.
  - vm_compute. reflexivity.
  - vm_compute. discriminate.
  - vm_compute. reflexivity.
Defined.
