(* ===== verification/ActionTapping.v ===== *)
(** Telling taps from holds: [quantum/action_tapping.c]. The tapping key, the
    ring of waiting events, and the state machine between them. The settings of
    the tapping decision are those of Vial and of the QMK settings. *)

From S2P Require Import Prelude.
From S2P Require Import Eeprom.
From S2P Require Import DynamicKeymap.
From S2P Require Import QmkSettings.
From S2P Require Import Vial.
From S2P Require Import KeycodeConfig.
From S2P Require Import KeymapCommon.
From S2P Require Import Keyboard.

Definition WAITING_BUFFER_SIZE : Z := 8.

(** The statics of the file, and the rest of the firmware. *)
Record tapping (W : Type) := mk_tapping {
  tapping_key : keyrecord_t;
  waiting_buffer : list keyrecord_t;
  waiting_buffer_head : Z;
  waiting_buffer_tail : Z;
  world : W;
}.
Arguments mk_tapping {W} _ _ _ _ _.
Arguments tapping_key {W} _.
Arguments waiting_buffer {W} _.
Arguments waiting_buffer_head {W} _.
Arguments waiting_buffer_tail {W} _.
Arguments world {W} _.

Section tapping.
Context {W E : Type} {fw : Firmware W E} {eeprom : Eeprom E} {cfg : KeymapConfig}
        {qcfg : QmkSettingsConfig}.
Implicit Types (s : tapping W) (record keyp : keyrecord_t) (event : keyevent_t).

Definition set_tapping_key record s : tapping W :=
  mk_tapping record (waiting_buffer s) (waiting_buffer_head s) (waiting_buffer_tail s) (world s).
Definition set_world (w : W) s : tapping W :=
  mk_tapping (tapping_key s) (waiting_buffer s) (waiting_buffer_head s) (waiting_buffer_tail s) w.
Definition set_ring (head tail : Z) s : tapping W :=
  mk_tapping (tapping_key s) (waiting_buffer s) head tail (world s).

Definition buffer_at s (i : Z) : keyrecord_t := nth (Z.to_nat i) (waiting_buffer s) zero_record.
Definition set_buffer_at (i : Z) record s : tapping W :=
  mk_tapping (tapping_key s) (<[Z.to_nat i := record]> (waiting_buffer s)) (waiting_buffer_head s)
    (waiting_buffer_tail s) (world s).

(** [process_record(&record)]: the record as the call leaves it. *)
Definition process record s : keyrecord_t * tapping W :=
  let '(kept, w) := process_record record (world s) in
  (if kept : bool then record else set_pressed false record, set_world w s).

(** [process_record(&tapping_key)]. *)
Definition process_tapping_key s : tapping W :=
  let '(record, s) := process (tapping_key s) s in set_tapping_key record s.

Definition tapping_keycode s : Z := (get_record_keycode (tapping_key s) false (world s)).1.

Definition WITHIN_TAPPING_TERM event s : bool :=
  TIMER_DIFF_16 (ev_time event) (ev_time (rec_event (tapping_key s)))
  <? get_tapping_term (fw_vial (world s)) (tapping_keycode s).
Definition WITHIN_QUICK_TAP_TERM event s : bool :=
  TIMER_DIFF_16 (ev_time event) (ev_time (rec_event (tapping_key s)))
  <? get_quick_tap_term (settings (fw_vial (world s))).
Definition TAP_GET_PERMISSIVE_HOLD s : bool := get_permissive_hold (settings (fw_vial (world s))).
Definition TAP_GET_HOLD_ON_OTHER_KEY_PRESS s : bool :=
  get_hold_on_other_key_press (settings (fw_vial (world s))).

(** With combos a record is the tapping key's if the keycodes agree too. *)
Definition IS_TAPPING_RECORD keyp s : bool :=
  KEYEQ (ev_key (rec_event (tapping_key s))) (ev_key (rec_event keyp))
  && (rec_keycode (tapping_key s) =? rec_keycode keyp).

(** ** The ring *)

Definition waiting_buffer_enq record s : bool * tapping W :=
  if IS_NOEVENT (rec_event record) then (true, s)
  else if (waiting_buffer_head s + 1) mod WAITING_BUFFER_SIZE =? waiting_buffer_tail s then (false, s)
  else
    let s := set_buffer_at (waiting_buffer_head s) record s in
    (true, set_ring ((waiting_buffer_head s + 1) mod WAITING_BUFFER_SIZE) (waiting_buffer_tail s) s).

Definition waiting_buffer_clear s : tapping W := set_ring 0 0 s.

(** The indices of [for (i = tail; i != head; i = (i + 1) % SIZE)]. *)
Fixpoint ring_indices (fuel : nat) (i head : Z) : list Z :=
  match fuel with
  | O => []
  | S fuel => if i =? head then [] else i :: ring_indices fuel ((i + 1) mod WAITING_BUFFER_SIZE) head
  end.
Definition waiting s : list Z :=
  ring_indices (Z.to_nat WAITING_BUFFER_SIZE) (waiting_buffer_tail s) (waiting_buffer_head s).

Definition waiting_buffer_typed event s : bool :=
  existsb (fun i => KEYEQ (ev_key event) (ev_key (rec_event (buffer_at s i)))
                    && negb (eqb (ev_pressed event) (ev_pressed (rec_event (buffer_at s i)))))
          (waiting s).

Definition waiting_buffer_has_anykey_pressed s : bool :=
  existsb (fun i => ev_pressed (rec_event (buffer_at s i))) (waiting s).

(** The waiting release that makes the tapping key a tap. *)
Definition scan_candidate s (i : Z) : bool :=
  let candidate := rec_event (buffer_at s i) in
  IS_EVENT candidate && KEYEQ (ev_key candidate) (ev_key (rec_event (tapping_key s)))
  && negb (ev_pressed candidate) && WITHIN_TAPPING_TERM candidate s.

Definition waiting_buffer_scan_tap s : tapping W :=
  if (0 <? tap_count (rec_tap (tapping_key s))) || negb (ev_pressed (rec_event (tapping_key s))) then s
  else
    match find (scan_candidate s) (waiting s) with
    | None => s
    | Some i =>
        let s := set_tapping_key (set_count 1 (tapping_key s)) s in
        let s := set_buffer_at i (set_count 1 (buffer_at s i)) s in
        process_tapping_key s
    end.

(** ** The state machine

    Each part returns whether the record is consumed, the record as it is left
    in the place it was passed from, and the state. *)

(** A release that has to wait for the end of the tap, because its key holds
    modifiers or a layer. *)
Definition retained_release keyp s : bool :=
  let action := fw_get_action (ev_key (rec_event keyp)) (world s) in
  let kind := action_kind action in
  if (kind =? ACT_LMODS) || (kind =? ACT_RMODS) then
    (truthy (action_key_mods action) && negb (truthy (key_code action)))
    || IS_MODIFIER_KEYCODE (key_code action)
  else if (kind =? ACT_LMODS_TAP) || (kind =? ACT_RMODS_TAP) then
    (truthy (action_key_mods action) && (tap_count (rec_tap keyp) =? 0))
    || IS_MODIFIER_KEYCODE (key_code action)
  else if (kind =? ACT_LAYER_TAP) || (kind =? ACT_LAYER_TAP_EXT) then
    in_range 0 (OP_TAP_TOGGLE - 1) (key_code action) || (key_code action =? OP_ON_OFF)
    || (key_code action =? OP_OFF_ON) || (key_code action =? OP_SET_CLEAR)
  else false.

(** No tapping key. Without swap-hands [process_record_tap_hint] does nothing. *)
Definition tapping_reset keyp s : bool * keyrecord_t * tapping W :=
  let event := rec_event keyp in
  if negb (IS_EVENT event) then (true, keyp, s)
  else if ev_pressed event && is_tap_record keyp (world s) then
    (true, keyp, waiting_buffer_scan_tap (set_tapping_key keyp s))
  else
    let '(keyp, s) := process keyp s in (true, keyp, s).

(** The tapping key is down, within the term, neither tap nor hold yet. *)
Definition tapping_undecided keyp s : bool * keyrecord_t * tapping W :=
  let event := rec_event keyp in
  if IS_TAPPING_RECORD keyp s && negb (ev_pressed event) then
    let s := process_tapping_key (set_tapping_key (set_count 1 (tapping_key s)) s) in
    (false, set_tap (rec_tap (tapping_key s)) keyp, s)
  else if negb (ev_pressed event) && waiting_buffer_typed event s && TAP_GET_PERMISSIVE_HOLD s then
    (false, keyp, set_tapping_key zero_record (process_tapping_key s))
  else if negb (ev_pressed event) && negb (waiting_buffer_typed event s) then
    if retained_release keyp s then (false, keyp, s)
    else let '(keyp, s) := process keyp s in (true, keyp, s)
  else
    let s :=
      if ev_pressed event then
        let hold := TAP_GET_HOLD_ON_OTHER_KEY_PRESS s in
        let s := set_tapping_key (set_interrupted true (tapping_key s)) s in
        if hold then set_tapping_key zero_record (process_tapping_key s) else s
      else s in
    (false, keyp, s).

(** The release of a tap that a new tap key cuts short. *)
Definition tap_release event s : keyrecord_t :=
  let t := rec_event (tapping_key s) in
  mk_record (mk_event (ev_key t) (ev_time event) (ev_type t) false)
    (rec_tap (tapping_key s)) (rec_keycode (tapping_key s)).

(** A tap key is pressed while the last tap is still down. *)
Definition start_while_tapped keyp s : tapping W :=
  let s :=
    if 1 <? tap_count (rec_tap (tapping_key s))
    then (process (tap_release (rec_event keyp) s) s).2
    else s in
  waiting_buffer_scan_tap (set_tapping_key keyp s).

(** The tapping key is down, within the term, and counts as tapped. *)
Definition tapping_tapped keyp s : bool * keyrecord_t * tapping W :=
  let event := rec_event keyp in
  if IS_TAPPING_RECORD keyp s && negb (ev_pressed event) then
    let keyp := set_tap (rec_tap (tapping_key s)) keyp in
    let '(keyp, s) := process keyp s in
    (true, keyp, set_tapping_key keyp s)
  else if is_tap_record keyp (world s) && ev_pressed event then
    (true, keyp, start_while_tapped keyp s)
  else let '(keyp, s) := process keyp s in (true, keyp, s).

(** The tapping key is down and its term is over. *)
Definition tapping_timeout keyp s : bool * keyrecord_t * tapping W :=
  let event := rec_event keyp in
  if tap_count (rec_tap (tapping_key s)) =? 0 then
    (false, keyp, set_tapping_key zero_record (process_tapping_key s))
  else if IS_NOEVENT event then (true, keyp, s)
  else if IS_TAPPING_RECORD keyp s && negb (ev_pressed event) then
    let keyp := set_tap (rec_tap (tapping_key s)) keyp in
    let '(keyp, s) := process keyp s in
    (true, keyp, set_tapping_key zero_record s)
  else if is_tap_record keyp (world s) && ev_pressed event then
    (true, keyp, start_while_tapped keyp s)
  else let '(keyp, s) := process keyp s in (true, keyp, s).

(** The tapping key is up again. *)
Definition tapping_released keyp s : bool * keyrecord_t * tapping W :=
  let event := rec_event keyp in
  if WITHIN_TAPPING_TERM event s then
    if IS_NOEVENT event then (true, keyp, s)
    else if ev_pressed event then
      if IS_TAPPING_RECORD keyp s then
        let t := rec_tap (tapping_key s) in
        if WITHIN_QUICK_TAP_TERM event s && negb (tap_interrupted t) && (0 <? tap_count t) then
          let keyp := set_tap t keyp in
          let keyp := if tap_count t <? 15 then set_count (tap_count t + 1) keyp else keyp in
          let '(keyp, s) := process keyp s in
          (true, keyp, set_tapping_key keyp s)
        else (true, keyp, set_tapping_key keyp s)
      else if is_tap_record keyp (world s) then
        (true, keyp, waiting_buffer_scan_tap (set_tapping_key keyp s))
      else
        let s := set_tapping_key (set_interrupted true (tapping_key s)) s in
        let '(keyp, s) := process keyp s in (true, keyp, s)
    else let '(keyp, s) := process keyp s in (true, keyp, s)
  else (false, keyp, set_tapping_key zero_record s).

Definition process_tapping keyp s : bool * keyrecord_t * tapping W :=
  let event := rec_event keyp in
  if IS_NOEVENT (rec_event (tapping_key s)) then tapping_reset keyp s
  else if ev_pressed (rec_event (tapping_key s)) then
    if WITHIN_TAPPING_TERM event s then
      if IS_NOEVENT event then (true, keyp, s)
      else if tap_count (rec_tap (tapping_key s)) =? 0 then tapping_undecided keyp s
      else tapping_tapped keyp s
    else tapping_timeout keyp s
  else tapping_released keyp s.

(** The loop that works through the ring. [process_tapping] is given a pointer
    into the ring: the record is stored back. *)
Fixpoint process_waiting (fuel : nat) s : tapping W :=
  match fuel with
  | O => s
  | S fuel =>
      if waiting_buffer_tail s =? waiting_buffer_head s then s
      else
        let i := waiting_buffer_tail s in
        let '(processed, keyp, s) := process_tapping (buffer_at s i) s in
        let s := set_buffer_at i keyp s in
        if processed : bool
        then process_waiting fuel
               (set_ring (waiting_buffer_head s) ((waiting_buffer_tail s + 1) mod WAITING_BUFFER_SIZE) s)
        else s
  end.

Definition action_tapping_process record s : tapping W :=
  let '(processed, record, s) := process_tapping record s in
  let s :=
    if processed : bool then s
    else
      let '(queued, s) := waiting_buffer_enq record s in
      if queued : bool then s
      else set_tapping_key zero_record (waiting_buffer_clear (set_world (fw_clear_keyboard (world s)) s)) in
  process_waiting (Z.to_nat WAITING_BUFFER_SIZE) s.
End tapping.
