(* ===== verification/TappingProofs.v ===== *)
(** What the tapping code does with the events it is given: none is lost and
    none is processed twice, none waits for ever, and what makes a key a tap or
    a hold. *)

From S2P Require Import Prelude.
From S2P Require Import Eeprom.
From S2P Require Import DynamicKeymap.
From S2P Require Import QmkSettings.
From S2P Require Import Vial.
From S2P Require Import KeycodeConfig.
From S2P Require Import KeymapCommon.
From S2P Require Import Keyboard.
From S2P Require Import ActionTapping.

(** ** The ring as a queue *)

Definition ring (tail head : Z) : list Z := ring_indices (Z.to_nat WAITING_BUFFER_SIZE) tail head.
Definition ring_index (i : Z) : Prop := 0 <= i < WAITING_BUFFER_SIZE.

(** A property of the two indices, by their sixty-four values. *)
Lemma ring_cases (P : Z -> Z -> Prop) `{HP : forall t h, Decision (P t h)} :
  bool_decide (Forall (fun t => Forall (P t) (seqZ 0 8)) (seqZ 0 8)) = true ->
  forall t h, ring_index t -> ring_index h -> P t h.
Proof.
  intros H%bool_decide_eq_true_1 t h Ht Hh. rewrite list.Forall_forall in H.
  assert (Hin : forall i, ring_index i -> i ∈ seqZ 0 8).
  { intros i Hi. apply elem_of_seqZ. unfold ring_index, WAITING_BUFFER_SIZE in Hi. lia. }
  specialize (H t (Hin t Ht)). rewrite list.Forall_forall in H. auto.
Qed.

Lemma ring_enq t h : ring_index t -> ring_index h -> (h + 1) mod WAITING_BUFFER_SIZE <> t ->
  ring t ((h + 1) mod WAITING_BUFFER_SIZE) = ring t h ++ [h] /\ h ∉ ring t h.
Proof.
  revert t h. apply (ring_cases (fun t h => (h + 1) mod WAITING_BUFFER_SIZE <> t -> _)).
  vm_compute. reflexivity.
Qed.

Lemma ring_deq t h : ring_index t -> ring_index h -> t <> h ->
  ring t h = t :: ring ((t + 1) mod WAITING_BUFFER_SIZE) h.
Proof.
  revert t h. apply (ring_cases (fun t h => t <> h -> _)). vm_compute. reflexivity.
Qed.

Lemma ring_same t : ring t t = [].
Proof. unfold ring. change (Z.to_nat _) with 8%nat. cbn [ring_indices]. by rewrite Z.eqb_refl. Qed.

Lemma ring_shape t h : ring_index t -> ring_index h ->
  NoDup (ring t h) /\ Forall (fun i => 0 <= i < 8) (ring t h) /\ (length (ring t h) < 8)%nat.
Proof.
  revert t h.
  apply (ring_cases (fun t h => NoDup (ring t h) /\ Forall (fun i => 0 <= i < 8) (ring t h)
                                /\ (length (ring t h) < 8)%nat)).
  vm_compute. reflexivity.
Qed.

Lemma ring_next i : ring_index ((i + 1) mod WAITING_BUFFER_SIZE).
Proof. apply Z.mod_pos_bound. done. Qed.

Section tapping.
Context {W E : Type} {fw : Firmware W E} {eeprom : Eeprom E} {cfg : KeymapConfig}
        {qcfg : QmkSettingsConfig}.
Implicit Types (s : tapping W) (record keyp : keyrecord_t) (event : keyevent_t).

(** The statics are in range; a waiting press has not been counted as a tap. *)
Record ring_wf s : Prop := {
  wf_size : length (waiting_buffer s) = 8%nat;
  wf_head : ring_index (waiting_buffer_head s);
  wf_tail : ring_index (waiting_buffer_tail s);
}.

Definition fresh record : Prop :=
  ev_pressed (rec_event record) = true -> tap_count (rec_tap record) = 0.

(** What waits, oldest first. *)
Definition queue s : list keyrecord_t := map (buffer_at s) (waiting s).

Lemma waiting_ring s : waiting s = ring (waiting_buffer_tail s) (waiting_buffer_head s).
Proof. done. Qed.

Lemma buffer_at_set s i record j : ring_wf s -> ring_index i -> ring_index j ->
  buffer_at (set_buffer_at i record s) j = if i =? j then record else buffer_at s j.
Proof.
  unfold ring_index, WAITING_BUFFER_SIZE. intros Hw Hi Hj.
  unfold buffer_at, set_buffer_at. cbn. rewrite !nth_lookup.
  pose proof (wf_size s Hw). case_if.
  - subst. rewrite list_lookup_insert_eq by lia. done.
  - rewrite list_lookup_insert_ne by lia. done.
Qed.

Lemma set_buffer_wf s i record : ring_wf s -> ring_wf (set_buffer_at i record s).
Proof. intros []. split; cbn; [by rewrite length_insert|done|done]. Qed.

Lemma queue_frame s i record : ring_wf s -> ring_index i -> i ∉ waiting s ->
  queue (set_buffer_at i record s) = queue s.
Proof.
  intros Hw Hi Hin. unfold queue. apply map_ext_in. intros j Hj.
  pose proof (ring_shape _ _ (wf_tail s Hw) (wf_head s Hw)) as (_ & Hr & _).
  rewrite list.Forall_forall in Hr. rewrite buffer_at_set; [|done|done|exact (Hr j (proj2 (list_elem_of_In _ _) Hj))].
  case_if; [|done]. subst. exfalso. apply Hin. by apply list_elem_of_In.
Qed.

(** Enqueuing, the queue not being full. *)
Lemma queue_enq s record : ring_wf s ->
  (waiting_buffer_head s + 1) mod WAITING_BUFFER_SIZE <> waiting_buffer_tail s ->
  let s' := set_ring ((waiting_buffer_head s + 1) mod WAITING_BUFFER_SIZE) (waiting_buffer_tail s)
              (set_buffer_at (waiting_buffer_head s) record s) in
  ring_wf s' /\ queue s' = queue s ++ [record].
Proof.
  intros Hw Hne s'. pose proof Hw as [H1 H2 H3].
  destruct (ring_enq _ _ H3 H2 Hne) as [Hr Hn].
  split; [split; [cbn; by rewrite length_insert|exact (ring_next (waiting_buffer_head s))|exact H3]|].
  unfold queue. rewrite waiting_ring. cbn [waiting_buffer_tail waiting_buffer_head s' set_ring].
  rewrite Hr, map_app. f_equal.
  - exact (queue_frame s _ record Hw H2 Hn).
  - cbn [map]. f_equal. change (buffer_at s' _) with (buffer_at (set_buffer_at (waiting_buffer_head s) record s) (waiting_buffer_head s)).
    rewrite buffer_at_set by done. by rewrite Z.eqb_refl.
Qed.

(** Taking the oldest. *)
Lemma queue_deq s : ring_wf s -> waiting_buffer_tail s <> waiting_buffer_head s ->
  let s' := set_ring (waiting_buffer_head s) ((waiting_buffer_tail s + 1) mod WAITING_BUFFER_SIZE) s in
  ring_wf s' /\ queue s = buffer_at s (waiting_buffer_tail s) :: queue s'.
Proof.
  intros Hw Hne s'. pose proof Hw as [H1 H2 H3]. split; [split; [exact H1|exact H2|exact (ring_next (waiting_buffer_tail s))]|].
  unfold queue. rewrite !waiting_ring. cbn [waiting_buffer_tail waiting_buffer_head s' set_ring].
  by rewrite (ring_deq _ _ H3 H2 Hne).
Qed.

Lemma queue_empty s : waiting_buffer_tail s = waiting_buffer_head s -> queue s = [].
Proof. intros H. unfold queue. by rewrite waiting_ring, H, ring_same. Qed.

Lemma queue_short s : ring_wf s -> (length (queue s) < 8)%nat.
Proof.
  intros [_ H2 H3]. unfold queue. rewrite length_map. apply (ring_shape _ _ H3 H2).
Qed.
End tapping.

(** ** The ledger

    The world is given a log of the calls that the tapping code makes. *)

Inductive tap_call := Processed (record : keyrecord_t) | Cleared.

#[export] Instance logged {W E : Type} (fw : Firmware W E) : Firmware (W * list tap_call) E := {
  fw_state := {|
    fw_vial w := fw_vial w.1;
    fw_layers w := fw_layers w.1;
    fw_magic_keycode_override w := fw_magic_keycode_override w.1;
    fw_disable_action_cache w := fw_disable_action_cache w.1;
  |};
  process_record record w :=
    let '(kept, w') := process_record record w.1 in (kept, (w', w.2 ++ [Processed record]));
  fw_clear_keyboard w := (fw_clear_keyboard w.1, w.2 ++ [Cleared]);
}.

Section ledger.
Context {W E : Type} {fw : Firmware W E} {eeprom : Eeprom E} {cfg : KeymapConfig}
        {qcfg : QmkSettingsConfig}.
Implicit Types (s : tapping (W * list tap_call)) (record keyp : keyrecord_t).

Definition log s : list tap_call := (world s).2.

(** A key event, which has to be accounted for; a tick is nothing. *)
Definition real (e : keyevent_t) : list keyevent_t := if IS_NOEVENT e then [] else [e].

(** The press of the tapping key has not been processed yet. *)
Definition undecided record : bool :=
  ev_pressed (rec_event record) && (tap_count (rec_tap record) =? 0).
Definition held_back record : list keyevent_t :=
  if undecided record then real (rec_event record) else [].

(** The ring holds the same events, and no press is marked as a tap. *)
Definition same_ring s s' : Prop :=
  waiting_buffer_head s' = waiting_buffer_head s /\ waiting_buffer_tail s' = waiting_buffer_tail s
  /\ length (waiting_buffer s') = length (waiting_buffer s)
  /\ forall i, ring_index i -> rec_event (buffer_at s' i) = rec_event (buffer_at s i)
       /\ (fresh (buffer_at s i) -> fresh (buffer_at s' i)).

(** A press that has been tapped before: count two or more. Only its tap can be
    cut short. *)
Definition repeated record : bool := ev_pressed (rec_event record) && (1 <? tap_count (rec_tap record)).
Definition credit record : list keyrecord_t := if repeated record then [record] else [].

(** The release made up for a tap that is cut short by the press of another tap
    key: the tap and the press. *)
Definition cut_release (c : keyrecord_t * keyevent_t) : keyrecord_t :=
  mk_record (mk_event (ev_key (rec_event c.1)) (ev_time c.2) (ev_type (rec_event c.1)) false)
    (rec_tap c.1) (rec_keycode c.1).

Definition presses (l : list keyevent_t) : list keyevent_t := filter (fun e => ev_pressed e = true) l.
Definition repeats (l : list keyrecord_t) : list keyrecord_t := filter (fun r => repeated r = true) l.

(** The records [new] are those of the events that were taken over and the
    releases of the taps [cut]. A tap that is cut short was processed before and
    is cut short once; so is a press. *)
Definition balance (new : list keyrecord_t) (cut : list (keyrecord_t * keyevent_t))
    (before after : list keyevent_t) (tap_before tap_after : list keyrecord_t) (press_before press_after : list keyevent_t) : Prop :=
  exists own, new ≡ₚ own ++ map cut_release cut
    /\ map rec_event own ++ after ≡ₚ before
    /\ map fst cut ++ tap_after ⊆+ tap_before ++ repeats own
    /\ map snd cut ++ press_after ⊆+ press_before.

(** What a part of the state machine did: the records [new] were processed. *)
Definition ledger keyp s (res : bool * keyrecord_t * tapping (W * list tap_call)) : Prop :=
  let '(processed, keyp', s') := res in
  exists new cut,
    log s' = log s ++ map Processed new
    /\ balance new cut
         (held_back (tapping_key s) ++ (if processed : bool then real (rec_event keyp) else [])) (held_back (tapping_key s'))
         (credit (tapping_key s)) (credit (tapping_key s'))
         (if processed then presses (real (rec_event keyp)) else []) []
    /\ same_ring s s'
    /\ (processed = false -> rec_event keyp' = rec_event keyp /\ (fresh keyp -> fresh keyp')).

Lemma same_ring_refl s : same_ring s s.
Proof. repeat split; done. Qed.

Lemma wf_same s s' : same_ring s s' -> ring_wf s -> ring_wf s'.
Proof. intros (H1 & H2 & H3 & _) [W1 W2 W3]. split; [by rewrite H3|by rewrite H1|by rewrite H2]. Qed.

Lemma process_spec record s : exists kept w,
  process record s
  = (if kept : bool then record else set_pressed false record, set_world (w, log s ++ [Processed record]) s).
Proof.
  unfold process. cbn. destruct (process_record record (world s).1) as [kept w]. by exists kept, w.
Qed.

(** A record counted as a tap, or a release, is not held back. *)
Lemma held_back_count record : tap_count (rec_tap record) <> 0 -> held_back record = [].
Proof. intros H. unfold held_back, undecided. by rewrite (proj2 (Z.eqb_neq _ _) H), andb_false_r. Qed.

Lemma held_back_up record : ev_pressed (rec_event record) = false -> held_back record = [].
Proof. intros H. unfold held_back, undecided. by rewrite H. Qed.

Lemma held_back_kept (kept : bool) record : tap_count (rec_tap record) <> 0 ->
  held_back (if kept then record else set_pressed false record) = [].
Proof. intros H. destruct kept; [by apply held_back_count|by apply held_back_up]. Qed.

Lemma held_back_down record : ev_pressed (rec_event record) = true -> tap_count (rec_tap record) = 0 ->
  held_back record = real (rec_event record).
Proof. intros H1 H2. unfold held_back, undecided. by rewrite H1, H2. Qed.

Lemma credit_count record : tap_count (rec_tap record) <= 1 -> credit record = [].
Proof. intros H. unfold credit, repeated. by rewrite (proj2 (Z.ltb_ge _ _) H), andb_false_r. Qed.
Lemma credit_up record : ev_pressed (rec_event record) = false -> credit record = [].
Proof. intros H. unfold credit, repeated. by rewrite H. Qed.
Lemma credit_repeats record : repeats [record] = credit record.
Proof. unfold repeats, credit. cbn [filter list_filter]. destruct (repeated record); by case_decide. Qed.
Lemma credit_kept (kept : bool) record : credit (if kept then record else set_pressed false record) ⊆+ credit record.
Proof. destruct kept; [done|]. rewrite credit_up by done. apply submseteq_nil_l. Qed.

(** Without a cut. *)
Lemma balance_own new before after tap_before tap_after press : map rec_event new ++ after ≡ₚ before ->
  tap_after ⊆+ tap_before ++ repeats new -> balance new [] before after tap_before tap_after press [].
Proof.
  intros H1 H2. exists new. split_and!; [by rewrite app_nil_r|done|done|apply submseteq_nil_l].
Qed.

Lemma real_event e : IS_NOEVENT e = false -> real e = [e].
Proof. intros H. unfold real. by rewrite H. Qed.

Lemma held_back_zero : held_back zero_record = [].
Proof. done. Qed.

Lemma same_ring_candidate s i : ring_wf s -> In i (waiting s) -> scan_candidate s i = true ->
  same_ring s (set_buffer_at i (set_count 1 (buffer_at s i)) s).
Proof.
  intros Hw Hin Hcand. split_and!; [done|done|cbn; by rewrite length_insert|]. intros j Hj.
  assert (Hi : ring_index i).
  { pose proof (ring_shape _ _ (wf_tail s Hw) (wf_head s Hw)) as (_ & Hr & _).
    rewrite list.Forall_forall in Hr. exact (Hr i (proj2 (list_elem_of_In _ _) Hin)). }
  rewrite buffer_at_set by done. case_if; [|done]. subst j. split; [done|]. intros _ Hpr.
  unfold scan_candidate in Hcand. cbn in Hpr. rewrite Hpr, andb_false_r in Hcand. done.
Qed.

(** The scan decides the tapping key or leaves it held back. *)
Lemma scan_ledger s : ring_wf s -> IS_NOEVENT (rec_event (tapping_key s)) = false ->
  ev_pressed (rec_event (tapping_key s)) = true -> tap_count (rec_tap (tapping_key s)) = 0 ->
  exists new, log (waiting_buffer_scan_tap s) = log s ++ map Processed new
    /\ map rec_event new ++ held_back (tapping_key (waiting_buffer_scan_tap s)) = held_back (tapping_key s)
    /\ credit (tapping_key (waiting_buffer_scan_tap s)) = []
    /\ same_ring s (waiting_buffer_scan_tap s).
Proof.
  intros Hw He Hp Hc. unfold waiting_buffer_scan_tap. rewrite Hp, Hc. cbn [Z.ltb Z.compare negb orb].
  destruct (find (scan_candidate s) (waiting s)) as [i|] eqn:Ef.
  - apply find_some in Ef as [Hin Hcand]. unfold process_tapping_key.
    match goal with |- context [process ?r ?x] => destruct (process_spec r x) as (kept & w & ->) end.
    cbn [set_tapping_key set_world set_buffer_at tapping_key log world snd].
    exists [set_count 1 (tapping_key s)]. split_and!.
    + done.
    + rewrite held_back_kept by done. rewrite held_back_down by done.
      rewrite real_event by done. by rewrite app_nil_r.
    + destruct kept; [by apply credit_count|by apply credit_up].
    + exact (same_ring_candidate s i Hw Hin Hcand).
  - exists []. rewrite app_nil_r. split_and!; [done|done|apply credit_count; lia|apply same_ring_refl].
Qed.

(** Runs the next call of [process_record]. *)
Ltac run :=
  unfold process_tapping_key;
  match goal with |- context [process ?r ?x] =>
    let kept := fresh "kept" in let w := fresh "w" in
    destruct (process_spec r x) as (kept & w & ->) end;
  cbn [set_tapping_key set_world tapping_key log world fst snd].

(** The taps that can be cut short: none, or the one of before, or the record. *)
Ltac credits :=
  cbn [set_world set_tapping_key tapping_key];
  first [ apply submseteq_inserts_r; reflexivity
        | rewrite credit_count by (cbn; lia); apply submseteq_nil_l
        | rewrite credit_up by done; apply submseteq_nil_l
        | rewrite credit_repeats; apply submseteq_inserts_l, credit_kept
        | etransitivity; [apply credit_kept|rewrite ?credit_count by (cbn; lia); rewrite ?credit_up by done; apply submseteq_nil_l] ].

(** Accounts for the records [new], without a cut. *)
Ltac account new :=
  exists new, []; split_and!;
  [ cbn; rewrite ?app_nil_r, <- ?app_assoc; try done
  | apply balance_own;
    [ cbn [set_world set_tapping_key tapping_key];
      rewrite ?held_back_zero, ?held_back_kept, ?app_nil_r by (cbn; done || lia)
    | try solve [credits] ]
  | match goal with |- same_ring ?s _ => try exact (same_ring_refl s) end
  | try done ].

(** Closes the equation of the events. *)
Ltac tally := cbn [map app]; rewrite ?app_nil_r; first [reflexivity | apply Permutation_swap].

Lemma reset_ledger keyp s : ring_wf s -> fresh keyp -> IS_NOEVENT (rec_event (tapping_key s)) = true ->
  ledger keyp s (tapping_reset keyp s).
Proof.
  intros Hw Hf Hn. unfold tapping_reset.
  assert (Hb : held_back (tapping_key s) = []).
  { unfold held_back, real. rewrite Hn. by case_if. }
  assert (He : IS_EVENT (rec_event keyp) = negb (IS_NOEVENT (rec_event keyp))) by done.
  rewrite He, negb_involutive. destruct (IS_NOEVENT (rec_event keyp)) eqn:En.
  { account (@nil keyrecord_t). unfold real. by rewrite En, app_nil_r. }
  case_if.
  - b2p. destruct (scan_ledger (set_tapping_key keyp s)) as (new & Hl & Hh & Hcr & Hr); [by apply (wf_same s)|done|done|exact (Hf H)|].
    account new; [|rewrite Hcr; apply submseteq_nil_l|exact Hr].
    rewrite Hh, Hb. cbn [set_tapping_key tapping_key app]. rewrite held_back_down by auto. done.
  - run. account [keyp]. rewrite Hb, real_event by done. tally.
Qed.

Lemma undecided_ledger keyp s : fresh keyp -> IS_NOEVENT (rec_event (tapping_key s)) = false ->
  ev_pressed (rec_event (tapping_key s)) = true -> tap_count (rec_tap (tapping_key s)) = 0 ->
  IS_NOEVENT (rec_event keyp) = false ->
  ledger keyp s (tapping_undecided keyp s).
Proof.
  intros Hf Hn Hp Hc He. unfold tapping_undecided.
  pose proof (held_back_down _ Hp Hc) as Hb. rewrite real_event in Hb by done.
  assert (Hi : forall b, rec_event (set_interrupted b (tapping_key s)) = rec_event (tapping_key s)) by done.
  case_if; [|case_if; [|case_if]].
  - b2p. run. account [set_count 1 (tapping_key s)].
    + rewrite Hb. tally.
    + intros _. split; [done|]. intros _ Hpr. cbn in Hpr. congruence.
  - run. account [tapping_key s]. rewrite Hb. tally.
  - case_if.
    + account (@nil keyrecord_t). tally.
    + run. account [keyp]. rewrite Hb, real_event by done. tally.
  - destruct (ev_pressed (rec_event keyp)).
    + destruct (TAP_GET_HOLD_ON_OTHER_KEY_PRESS s).
      * run. account [set_interrupted true (tapping_key s)]. rewrite Hb. tally.
      * account (@nil keyrecord_t). tally.
    + account (@nil keyrecord_t). tally.
Qed.

(** A tap key pressed while the last tap is down; the last tap is settled. *)
Lemma start_ledger keyp s : ring_wf s -> fresh keyp -> tap_count (rec_tap (tapping_key s)) <> 0 ->
  ev_pressed (rec_event (tapping_key s)) = true -> IS_NOEVENT (rec_event keyp) = false -> ev_pressed (rec_event keyp) = true ->
  ledger keyp s (true, keyp, start_while_tapped keyp s).
Proof.
  intros Hw Hf Hc Hq He Hp. unfold start_while_tapped.
  assert (Hk : held_back keyp = [rec_event keyp]) by (by rewrite held_back_down, real_event by auto).
  case_if.
  - run. match goal with |- context [waiting_buffer_scan_tap ?x] =>
      destruct (scan_ledger x) as (new & Hl & Hh & Hcr & Hr); [by apply (wf_same s)|done|done|by apply Hf|] end.
    cbn [set_tapping_key set_world tapping_key] in Hh. rewrite Hk in Hh.
    exists (tap_release (rec_event keyp) s :: new), [(tapping_key s, rec_event keyp)]. split_and!; [| |exact Hr|done].
    + cbn in Hl. rewrite Hl. by rewrite <- app_assoc.
    + exists new. rewrite Hcr, Hh, (held_back_count (tapping_key s)), real_event by done. split_and!; [|done| |].
      * apply Permutation_cons_append.
      * rewrite app_nil_r. apply submseteq_inserts_r. cbn [map fst]. unfold credit, repeated. rewrite Hq.
        rewrite (proj2 (Z.ltb_lt _ _)) by lia. done.
      * unfold presses. cbn [map app snd filter list_filter]. by rewrite decide_True.
  - match goal with |- context [waiting_buffer_scan_tap ?x] =>
      destruct (scan_ledger x) as (new & Hl & Hh & Hcr & Hr); [by apply (wf_same s)|done|done|by apply Hf|] end.
    cbn [set_tapping_key set_world tapping_key] in Hh. rewrite Hk in Hh.
    account new; [|rewrite Hcr; apply submseteq_nil_l|exact Hr].
    rewrite Hh, (held_back_count (tapping_key s)), real_event by done. tally.
Qed.

Lemma tapped_ledger keyp s : ring_wf s -> fresh keyp -> tap_count (rec_tap (tapping_key s)) <> 0 ->
  ev_pressed (rec_event (tapping_key s)) = true -> IS_NOEVENT (rec_event keyp) = false ->
  ledger keyp s (tapping_tapped keyp s).
Proof.
  intros Hw Hf Hc Hq He. unfold tapping_tapped.
  pose proof (held_back_count _ Hc) as Hb. case_if; [|case_if].
  - run. account [set_tap (rec_tap (tapping_key s)) keyp].
    rewrite Hb. cbn. rewrite real_event by done. tally.
  - b2p. by apply start_ledger.
  - run. account [keyp]. rewrite Hb, real_event by done. tally.
Qed.

Lemma timeout_ledger keyp s : ring_wf s -> fresh keyp -> IS_NOEVENT (rec_event (tapping_key s)) = false ->
  ev_pressed (rec_event (tapping_key s)) = true ->
  ledger keyp s (tapping_timeout keyp s).
Proof.
  intros Hw Hf Hn Hp. unfold tapping_timeout. case_if.
  { pose proof (held_back_down _ Hp E0) as Hb. rewrite real_event in Hb by done.
    run. account [tapping_key s]. rewrite Hb. tally. }
  pose proof (held_back_count _ E0) as Hb. destruct (IS_NOEVENT (rec_event keyp)) eqn:En.
  { account (@nil keyrecord_t). rewrite Hb. unfold real. rewrite En. tally. }
  case_if; [|case_if].
  - run. account [set_tap (rec_tap (tapping_key s)) keyp].
    rewrite Hb. cbn. rewrite real_event by done. tally.
  - b2p. by apply start_ledger.
  - run. account [keyp]. rewrite Hb, real_event by done. tally.
Qed.

Lemma released_ledger keyp s : ring_wf s -> fresh keyp ->
  ev_pressed (rec_event (tapping_key s)) = false ->
  ledger keyp s (tapping_released keyp s).
Proof.
  intros Hw Hf Hp. unfold tapping_released. pose proof (held_back_up _ Hp) as Hb.
  case_if.
  2: { account (@nil keyrecord_t). rewrite Hb. tally. }
  destruct (IS_NOEVENT (rec_event keyp)) eqn:En.
  { account (@nil keyrecord_t). rewrite Hb. unfold real. rewrite En. tally. }
  destruct (ev_pressed (rec_event keyp)) eqn:Epr.
  2: { run. account [keyp]. rewrite Hb, real_event by done. tally. }
  case_if; [case_if|case_if].
  - b2p. case_if; run;
      [account [set_count (tap_count (rec_tap (tapping_key s)) + 1) (set_tap (rec_tap (tapping_key s)) keyp)]
      |account [set_tap (rec_tap (tapping_key s)) keyp]];
      rewrite Hb; cbn; rewrite real_event by done; tally.
  - account (@nil keyrecord_t); [rewrite Hb, held_back_down by auto; tally|].
    cbn [set_tapping_key tapping_key]. rewrite (credit_count keyp) by (rewrite (Hf Epr); lia). apply submseteq_nil_l.
  - match goal with |- context [waiting_buffer_scan_tap ?x] =>
      destruct (scan_ledger x) as (new & Hl & Hh & Hcr & Hr); [by apply (wf_same s)|done|done|by apply Hf|] end.
    cbn [set_tapping_key tapping_key] in Hh.
    account new; [|rewrite Hcr; apply submseteq_nil_l|exact Hr].
    rewrite Hh, Hb, held_back_down by auto. tally.
  - run. account [keyp]. rewrite Hb, real_event by done.
    rewrite held_back_up by done. tally.
Qed.

Lemma process_tapping_ledger keyp s : ring_wf s -> fresh keyp ->
  ledger keyp s (process_tapping keyp s).
Proof.
  intros Hw Hf. unfold process_tapping.
  destruct (IS_NOEVENT (rec_event (tapping_key s))) eqn:En; [by apply reset_ledger|].
  destruct (ev_pressed (rec_event (tapping_key s))) eqn:Ep; [|by apply released_ledger].
  case_if; [|by apply timeout_ledger].
  destruct (IS_NOEVENT (rec_event keyp)) eqn:Ek.
  { account (@nil keyrecord_t). unfold real. rewrite Ek. tally. }
  case_if; [by apply undecided_ledger|by apply tapped_ledger].
Qed.

(** ** A whole step *)

(** Everything that has been taken over and not been processed. *)
Definition pending s : list keyevent_t := held_back (tapping_key s) ++ map rec_event (queue s).

Record tapping_wf s : Prop := {
  wf_ring : ring_wf s;
  wf_fresh : Forall fresh (queue s);
  wf_real : Forall (fun e => IS_NOEVENT e = false) (map rec_event (queue s));
}.

Lemma in_waiting s i : ring_wf s -> In i (waiting s) -> ring_index i.
Proof.
  intros Hw Hin. pose proof (ring_shape _ _ (wf_tail s Hw) (wf_head s Hw)) as (_ & Hr & _).
  rewrite list.Forall_forall in Hr. exact (Hr i (proj2 (list_elem_of_In _ _) Hin)).
Qed.

Lemma same_queue s s' : same_ring s s' -> tapping_wf s ->
  map rec_event (queue s') = map rec_event (queue s) /\ tapping_wf s'.
Proof.
  intros Hs [Hw Hf Hre]. pose proof (wf_same s s' Hs Hw) as Hw'. destruct Hs as (H1 & H2 & _ & H4).
  assert (Hwait : waiting s' = waiting s) by (by rewrite !waiting_ring, H1, H2).
  assert (Hq : map rec_event (queue s') = map rec_event (queue s)).
  { unfold queue. rewrite Hwait, !map_map. apply map_ext_in. intros i Hi. apply H4.
    exact (in_waiting s i Hw Hi). }
  split; [done|]. split; [done| |by rewrite Hq].
  unfold queue in *. rewrite Hwait. rewrite List.Forall_map in Hf |- *.
  rewrite list.Forall_forall in Hf |- *. intros i Hi. apply H4; [|by apply Hf].
  apply (in_waiting s i Hw). by apply list_elem_of_In.
Qed.

(** The record of the oldest waiting event is stored back. *)
Lemma same_ring_store s i keyp : ring_wf s -> ring_index i ->
  rec_event keyp = rec_event (buffer_at s i) -> (fresh (buffer_at s i) -> fresh keyp) ->
  same_ring s (set_buffer_at i keyp s).
Proof.
  intros Hw Hi He Hf. split_and!; [done|done|cbn; by rewrite length_insert|]. intros j Hj.
  rewrite buffer_at_set by done. case_if; [|done]. by subst.
Qed.

Lemma same_ring_trans s1 s2 s3 : same_ring s1 s2 -> same_ring s2 s3 -> same_ring s1 s3.
Proof.
  intros (A1 & A2 & A3 & A4) (B1 & B2 & B3 & B4). split_and!; [congruence..|].
  intros i Hi. destruct (A4 i Hi), (B4 i Hi). split; [congruence|auto].
Qed.

(** What happened from [s] to [s'], the events [given] being taken over. *)
Definition waiting_presses s : list keyevent_t := presses (map rec_event (queue s)).
Definition accounted (given : list keyevent_t) s s' : Prop :=
  exists new cut, log s' = log s ++ map Processed new
    /\ balance new cut (pending s ++ given) (pending s') (credit (tapping_key s)) (credit (tapping_key s'))
         (waiting_presses s ++ presses given) (waiting_presses s').

Lemma accounted_refl s : accounted [] s s.
Proof.
  exists [], []. split; [by rewrite app_nil_r|]. exists []. split_and!; [done|by rewrite app_nil_r|..].
  - by apply submseteq_inserts_r.
  - by apply submseteq_inserts_r.
Qed.

Lemma presses_app l k : presses (l ++ k) = presses l ++ presses k.
Proof. apply list.filter_app. Qed.
Lemma repeats_app l k : repeats (l ++ k) = repeats l ++ repeats k.
Proof. apply list.filter_app. Qed.

(** Two parts one after the other. *)
Lemma balance_trans n1 n2 c1 c2 l1 l2 l3 given a1 a2 a3 b1 b2 b3 press :
  balance n1 c1 l1 l2 a1 a2 b1 b2 -> balance n2 c2 (l2 ++ given) l3 a2 a3 (b2 ++ press) b3 ->
  balance (n1 ++ n2) (c1 ++ c2) (l1 ++ given) l3 a1 a3 (b1 ++ press) b3.
Proof.
  intros (o1 & N1 & P1 & T1 & E1) (o2 & N2 & P2 & T2 & E2). exists (o1 ++ o2). split_and!.
  - rewrite N1, N2, map_app. solve_Permutation.
  - rewrite map_app, <- app_assoc, P2, <- P1. by rewrite app_assoc.
  - rewrite map_app, repeats_app, <- app_assoc. etransitivity; [apply submseteq_skips_l, T2|].
    rewrite !app_assoc. by apply submseteq_skips_r.
  - rewrite map_app, <- app_assoc. etransitivity; [apply submseteq_skips_l, E2|].
    rewrite !app_assoc. by apply submseteq_skips_r.
Qed.

Lemma accounted_trans g1 g2 s1 s2 s3 :
  accounted g1 s1 s2 -> accounted g2 s2 s3 -> accounted (g1 ++ g2) s1 s3.
Proof.
  intros (n1 & c1 & L1 & B1) (n2 & c2 & L2 & B2). exists (n1 ++ n2), (c1 ++ c2).
  split; [by rewrite L2, L1, map_app, app_assoc|]. rewrite presses_app, !app_assoc. by eapply balance_trans.
Qed.

(** The same with more that is held before and after. *)
Lemma balance_frame new cut l1 l2 a1 a2 b1 b2 l b l1' l2' b1' b2' : balance new cut l1 l2 a1 a2 b1 b2 ->
  l1' ≡ₚ l1 ++ l -> l2' ≡ₚ l2 ++ l -> b1' ≡ₚ b1 ++ b -> b2' ≡ₚ b2 ++ b ->
  balance new cut l1' l2' a1 a2 b1' b2'.
Proof.
  intros (own & N & P & Tp & Ep) H1 H2 H3 H4. exists own. split_and!; [done| |done|].
  - by rewrite H1, H2, app_assoc, P.
  - rewrite H3, H4, app_assoc. by apply submseteq_skips_r.
Qed.

(** The oldest waiting event is stored back and taken out. *)
Lemma take_oldest s keyp : tapping_wf s -> waiting_buffer_tail s <> waiting_buffer_head s ->
  let i := waiting_buffer_tail s in
  let s' := set_ring (waiting_buffer_head s) ((i + 1) mod WAITING_BUFFER_SIZE) (set_buffer_at i keyp s) in
  tapping_wf s' /\ queue s = buffer_at s i :: queue s'
  /\ fresh (buffer_at s i) /\ IS_NOEVENT (rec_event (buffer_at s i)) = false.
Proof.
  intros [Hw Hf Hre] Hne i s'. destruct (queue_deq s Hw Hne) as [Hw2 Hq2]. fold i in Hw2, Hq2.
  assert (Hq3 : queue s' = queue (set_ring (waiting_buffer_head s) ((i + 1) mod WAITING_BUFFER_SIZE) s)).
  { apply (queue_frame (set_ring (waiting_buffer_head s) _ s) i keyp Hw2 (wf_tail s Hw)).
    rewrite waiting_ring. destruct (ring_shape _ _ (wf_tail s Hw) (wf_head s Hw)) as [Hnd _].
    rewrite (ring_deq _ _ (wf_tail s Hw) (wf_head s Hw) Hne) in Hnd. by inversion Hnd. }
  rewrite Hq2 in Hf, Hre. inversion_clear Hf. inversion_clear Hre.
  split_and!; [|by rewrite Hq3|done|done]. split; [exact (set_buffer_wf _ i keyp Hw2)|by rewrite Hq3..].
Qed.

Lemma process_waiting_accounted n s : tapping_wf s ->
  accounted [] s (process_waiting n s) /\ tapping_wf (process_waiting n s).
Proof.
  revert s. induction n as [|n IH]; intros s Hs; [split; [apply accounted_refl|done]|].
  cbn [process_waiting]. destruct (Z.eqb_spec (waiting_buffer_tail s) (waiting_buffer_head s)) as [|Hne].
  { split; [apply accounted_refl|done]. }
  set (i := waiting_buffer_tail s) in *. pose proof (wf_ring s Hs) as Hw.
  destruct (take_oldest s zero_record Hs Hne) as (_ & _ & Hfi & Hre). fold i in Hfi, Hre.
  pose proof (process_tapping_ledger (buffer_at s i) s Hw Hfi) as Hl.
  destruct (process_tapping (buffer_at s i) s) as [[ok keyp] s'].
  destruct Hl as (new & cut & Hlog & Hp & Hr & Hk).
  destruct (same_queue s s' Hr Hs) as [Hq' Hs'].
  pose proof Hr as (R1 & R2 & _ & R4). destruct (R4 i (wf_tail s Hw)) as [Hei _].
  destruct ok.
  - destruct (take_oldest s' keyp Hs' ltac:(by rewrite R1, R2)) as (Hs2 & Hq2 & _).
    cbn [set_buffer_at waiting_buffer_head waiting_buffer_tail]. rewrite R2 in Hs2, Hq2 |- *. fold i in Hs2, Hq2 |- *.
    set (s2 := set_ring _ _ (set_buffer_at i keyp s')) in *.
    destruct (IH s2 Hs2) as [IH1 IH2]. split; [|exact IH2].
    apply (accounted_trans [] [] s s2); [|exact IH1]. exists new, cut. split; [exact Hlog|].
    unfold pending, waiting_presses. rewrite <- Hq', Hq2. change (tapping_key s2) with (tapping_key s'). cbn [map].
    rewrite Hei. rewrite !app_nil_r. rewrite real_event in Hp by done.
    eapply (balance_frame _ _ _ _ _ _ _ _ (map rec_event (queue s2)) (presses (map rec_event (queue s2))) _ _ _ _ Hp);
      [by rewrite <- app_assoc|done| |done].
    by rewrite <- presses_app.
  - destruct (Hk eq_refl) as [Hk1 Hk2].
    assert (Hr2 : same_ring s (set_buffer_at i keyp s')).
    { apply (same_ring_trans s s'); [done|].
      apply same_ring_store; [by apply Hs'|exact (wf_tail s Hw)|by rewrite Hk1, Hei|].
      intros _. exact (Hk2 Hfi). }
    destruct (same_queue _ _ Hr2 Hs) as [Hq2 Hs2]. split; [|exact Hs2].
    exists new, cut. split; [exact Hlog|]. unfold pending, waiting_presses. rewrite Hq2.
    change (tapping_key (set_buffer_at i keyp s')) with (tapping_key s').
    eapply (balance_frame _ _ _ _ _ _ _ _ (map rec_event (queue s)) (presses (map rec_event (queue s))) _ _ _ _ Hp);
      [by rewrite !app_nil_r|done|by rewrite app_nil_r|done].
Qed.

Lemma enq_wf record s : tapping_wf s ->
  (waiting_buffer_head s + 1) mod WAITING_BUFFER_SIZE <> waiting_buffer_tail s ->
  IS_NOEVENT (rec_event record) = false -> fresh record ->
  tapping_wf (set_ring ((waiting_buffer_head s + 1) mod WAITING_BUFFER_SIZE) (waiting_buffer_tail s)
                (set_buffer_at (waiting_buffer_head s) record s)).
Proof.
  intros [Hw Hf Hre] Hne He Hfr. destruct (queue_enq s record Hw Hne) as [Hw2 Hq2].
  split; [exact Hw2| |]; rewrite Hq2, ?map_app; apply Forall_app; split; try done; by repeat constructor.
Qed.

(** A step takes over the event, or clears the keyboard because the ring is
    full. *)
Lemma step_accounted record s : tapping_wf s -> fresh record ->
  let s' := action_tapping_process record s in
  tapping_wf s' /\ (accounted (real (rec_event record)) s s' \/ exists l, log s' = log s ++ l /\ Cleared ∈ l).
Proof.
  intros Hs Hf. unfold action_tapping_process. pose proof (wf_ring s Hs) as Hw.
  pose proof (process_tapping_ledger record s Hw Hf) as Hl.
  destruct (process_tapping record s) as [[ok record'] s1].
  destruct Hl as (new & cut & Hlog & Hp & Hr & Hk).
  destruct (same_queue s s1 Hr Hs) as [Hq1 Hs1]. pose proof (wf_ring s1 Hs1) as Hw1.
  assert (Hrun : forall s2, tapping_wf s2 -> accounted (real (rec_event record)) s s2 ->
    let s' := process_waiting (Z.to_nat WAITING_BUFFER_SIZE) s2 in
    tapping_wf s' /\ (accounted (real (rec_event record)) s s' \/ exists l, log s' = log s ++ l /\ Cleared ∈ l)).
  { intros s2 Hs2 Ha. destruct (process_waiting_accounted (Z.to_nat WAITING_BUFFER_SIZE) s2 Hs2) as [Hb Hs3].
    split; [done|]. left. rewrite <- (app_nil_r (real _)). by apply (accounted_trans _ _ s s2). }
  destruct ok; [apply Hrun; [done|]|].
  { exists new, cut. split; [done|]. unfold pending, waiting_presses. rewrite Hq1.
    apply (balance_frame _ _ _ _ _ _ _ _ (map rec_event (queue s)) (presses (map rec_event (queue s))) _ _ _ _ Hp); solve_Permutation. }
  destruct (Hk eq_refl) as [Hk1 Hk2]. unfold waiting_buffer_enq. rewrite Hk1.
  destruct (IS_NOEVENT (rec_event record)) eqn:En.
  { apply Hrun; [done|]. exists new, cut. split; [done|]. unfold pending, waiting_presses, real. rewrite Hq1, En.
    apply (balance_frame _ _ _ _ _ _ _ _ (map rec_event (queue s)) (presses (map rec_event (queue s))) _ _ _ _ Hp); solve_Permutation. }
  case_if.
  - destruct (process_waiting_accounted (Z.to_nat WAITING_BUFFER_SIZE)
      (set_tapping_key zero_record (waiting_buffer_clear (set_world (fw_clear_keyboard (world s1)) s1))))
      as [(n2 & c2 & L2 & _) Hs3].
    { split; [split; [exact (wf_size s1 Hw1)|done|done]|constructor..]. }
    split; [done|]. right. exists (map Processed new ++ [Cleared] ++ map Processed n2).
    split; [|apply elem_of_app; right; apply elem_of_app; left; constructor].
    rewrite L2. change (log (set_tapping_key _ _)) with (log s1 ++ [Cleared]). by rewrite Hlog, <- !app_assoc.
  - cbn [set_buffer_at waiting_buffer_head waiting_buffer_tail].
    destruct (queue_enq s1 record' Hw1 E0) as [Hw2 Hq2]. apply Hrun.
    + by apply enq_wf; [| |rewrite Hk1|apply Hk2].
    + exists new, cut. split; [done|]. unfold pending, waiting_presses. rewrite Hq2, map_app, presses_app.
      cbn [map set_ring set_buffer_at tapping_key]. rewrite Hk1, Hq1, real_event by done.
      apply (balance_frame _ _ _ _ _ _ _ _ (map rec_event (queue s) ++ [rec_event record])
               (presses (map rec_event (queue s)) ++ presses [rec_event record]) _ _ _ _ Hp); solve_Permutation.
Qed.

(** ** No event is lost *)

Definition tapping_run (evs : list keyevent_t) s : tapping (W * list tap_call) :=
  foldl (fun s e => action_tapping_process (event_record e) s) s evs.

Definition key_events (evs : list keyevent_t) : list keyevent_t := concat (map real evs).

(** At the start: nothing waits. *)
Definition tapping_start (w : W) : tapping (W * list tap_call) :=
  mk_tapping zero_record (replicate 8 zero_record) 0 0 (w, []).

Lemma tapping_start_wf w : tapping_wf (tapping_start w).
Proof. split; [split; done|constructor..]. Qed.

Lemma tapping_run_accounted evs s : tapping_wf s ->
  tapping_wf (tapping_run evs s)
  /\ (accounted (key_events evs) s (tapping_run evs s)
      \/ exists l, log (tapping_run evs s) = log s ++ l /\ Cleared ∈ l).
Proof.
  revert s. induction evs as [|e evs IH]; intros s Hs.
  { split; [done|]. left. apply accounted_refl. }
  cbn [tapping_run foldl]. destruct (step_accounted (event_record e) s Hs ltac:(done)) as [Hs1 H1].
  destruct (IH _ Hs1) as [Hs2 H2]. unfold tapping_run in *. split; [exact Hs2|].
  destruct H2 as [H2|(l2 & L2 & C2)].
  - destruct H1 as [H1|(l1 & L1 & C1)].
    + left. unfold key_events. cbn [map concat]. by apply (accounted_trans _ _ s _ _ H1).
    + right. destruct H2 as (n & c & L & _). exists (l1 ++ map Processed n). rewrite L, L1, app_assoc.
      split; [done|]. apply elem_of_app. by left.
  - right. destruct H1 as [(n & c & L1 & _)|(l1 & L1 & C1)].
    + exists (map Processed n ++ l2). rewrite L2, L1, app_assoc. split; [done|]. apply elem_of_app. by right.
    + exists (l1 ++ l2). rewrite L2, L1, app_assoc. split; [done|]. apply elem_of_app. by right.
Qed.

(** ** Nothing waits for ever *)

(** The tapping key has not been settled: it is down and neither tap nor hold,
    or it is up and may be tapped again. *)
Definition open (record : keyrecord_t) : nat :=
  if IS_NOEVENT (rec_event record)
     || (ev_pressed (rec_event record) && negb (tap_count (rec_tap record) =? 0))
  then 0 else 1.

Lemma open_le record : (open record <= 1)%nat.
Proof. unfold open. case_if; lia. Qed.

(** Where the tapping key is from, and that it is not reopened by a record that
    is not consumed. *)
Definition moves keyp s (res : bool * keyrecord_t * tapping (W * list tap_call)) : Prop :=
  let '(processed, _, s') := res in
  (IS_NOEVENT (rec_event (tapping_key s')) = true
   \/ ev_time (rec_event (tapping_key s')) = ev_time (rec_event (tapping_key s))
      /\ IS_NOEVENT (rec_event (tapping_key s)) = false
   \/ ev_time (rec_event (tapping_key s')) = ev_time (rec_event keyp)
      /\ IS_NOEVENT (rec_event keyp) = false)
  /\ (processed = false -> open (tapping_key s') = 0%nat \/ open (tapping_key s) = 1%nat).

Lemma scan_time s : ev_time (rec_event (tapping_key (waiting_buffer_scan_tap s))) = ev_time (rec_event (tapping_key s)).
Proof.
  unfold waiting_buffer_scan_tap. case_if; [done|]. destruct (find _ _); [|done].
  run. by destruct kept.
Qed.

Ltac moved := split; [cbn [tapping_key set_tapping_key set_world]; rewrite ?scan_time; cbn;
    repeat match goal with |- context [if ?b then _ else set_pressed _ _] => destruct b end; cbn; auto
  |cbn; try done; auto].

Lemma start_time keyp s :
  ev_time (rec_event (tapping_key (start_while_tapped keyp s))) = ev_time (rec_event keyp).
Proof. unfold start_while_tapped. by rewrite scan_time. Qed.

Lemma open_down record : IS_NOEVENT (rec_event record) = false -> tap_count (rec_tap record) = 0 ->
  open record = 1%nat.
Proof. intros H1 H2. unfold open. rewrite H1, H2. by rewrite andb_false_r. Qed.

Lemma process_tapping_moves keyp s : moves keyp s (process_tapping keyp s).
Proof.
  unfold process_tapping. destruct (IS_NOEVENT (rec_event (tapping_key s))) eqn:En.
  { unfold tapping_reset. destruct (IS_NOEVENT (rec_event keyp)) eqn:Ek;
      unfold IS_EVENT; change (bool_decide (ev_type (rec_event keyp) = TICK_EVENT)) with (IS_NOEVENT (rec_event keyp));
      rewrite Ek; cbn [negb]; [moved|]. case_if; [moved|]. run. moved. }
  destruct (ev_pressed (rec_event (tapping_key s))) eqn:Ep.
  - case_if.
    + destruct (IS_NOEVENT (rec_event keyp)) eqn:Ek; [moved|]. case_if.
      * pose proof (open_down _ En E1) as Ho. unfold tapping_undecided.
        case_if; [run; moved|]. case_if; [run; moved|]. case_if.
        { case_if; [moved|]. run. moved. }
        destruct (ev_pressed (rec_event keyp)); [|moved].
        destruct (TAP_GET_HOLD_ON_OTHER_KEY_PRESS s); [run; moved|moved].
      * unfold tapping_tapped. case_if; [run; moved|]. case_if; [|run; moved].
        split; [rewrite start_time; auto|done].
    + unfold tapping_timeout. case_if; [run; moved|]. destruct (IS_NOEVENT (rec_event keyp)) eqn:Ek; [moved|].
      case_if; [run; moved|]. case_if; [|run; moved]. split; [rewrite start_time; auto|done].
  - unfold tapping_released. case_if; [|moved]. destruct (IS_NOEVENT (rec_event keyp)) eqn:Ek; [moved|].
    destruct (ev_pressed (rec_event keyp)); [|run; moved]. case_if; [case_if|case_if].
    + case_if; run; moved.
    + moved.
    + moved.
    + run. moved.
Qed.

(** With the tapping key settled every event is consumed. *)
Lemma settled_consumes keyp s : open (tapping_key s) = 0%nat -> IS_NOEVENT (rec_event keyp) = false ->
  (process_tapping keyp s).1.1 = true.
Proof.
  unfold open. intros Ho Ek. case_if_in Ho; [|done]. unfold process_tapping.
  destruct (IS_NOEVENT (rec_event (tapping_key s))) eqn:En.
  - unfold tapping_reset. case_if; [done|]. case_if; [done|]. by run.
  - cbn [orb] in E0. apply andb_true_iff in E0 as [-> Hc%negb_true_iff]. rewrite Ek, Hc.
    unfold tapping_tapped, tapping_timeout. rewrite Hc, Ek.
    case_if; (case_if; [by run|]; case_if; [done|by run]).
Qed.

Lemma late_tick now s :
  IS_NOEVENT (rec_event (tapping_key s)) = true \/ WITHIN_TAPPING_TERM (MAKE_TICK_EVENT now) s = false ->
  let res := process_tapping (event_record (MAKE_TICK_EVENT now)) s in
  open (tapping_key res.2) = 0%nat /\ (open (tapping_key s) = 0%nat -> res.2 = s).
Proof.
  intros Hl. unfold process_tapping. destruct (IS_NOEVENT (rec_event (tapping_key s))) eqn:En.
  { cbv zeta. change ((tapping_reset (event_record (MAKE_TICK_EVENT now)) s).2) with s.
    split; [|done]. unfold open. by rewrite En. }
  destruct Hl as [|Hl]; [done|].
  cbv zeta. change (rec_event (event_record (MAKE_TICK_EVENT now))) with (MAKE_TICK_EVENT now). rewrite Hl. destruct (ev_pressed (rec_event (tapping_key s))) eqn:Ep.
  - unfold tapping_timeout. case_if.
    + run. split; [done|]. rewrite open_down by done. done.
    + change (IS_NOEVENT (rec_event (event_record (MAKE_TICK_EVENT now)))) with true. cbn [snd]. split; [|done]. unfold open. by rewrite En, Ep, (proj2 (Z.eqb_neq _ _) E0).
  - unfold tapping_released. change (rec_event (event_record (MAKE_TICK_EVENT now))) with (MAKE_TICK_EVENT now).
    rewrite Hl. split; [done|].
    unfold open. rewrite En, Ep. done.
Qed.

(** What still has to be done. *)
Definition weight s : nat := 2 * length (queue s) + open (tapping_key s).

(** The times of the events that are held have the property [P]. *)
Definition aged (P : Z -> Prop) s : Prop :=
  (IS_NOEVENT (rec_event (tapping_key s)) = true \/ P (ev_time (rec_event (tapping_key s))))
  /\ Forall (fun e => P (ev_time e)) (map rec_event (queue s)).

Lemma aged_moves P keyp s res : aged P s ->
  P (ev_time (rec_event keyp)) \/ IS_NOEVENT (rec_event keyp) = true ->
  moves keyp s res ->
  IS_NOEVENT (rec_event (tapping_key res.2)) = true \/ P (ev_time (rec_event (tapping_key res.2))).
Proof.
  intros [Hl _] Hk Hm. destruct res as [[ok keyp'] s']. cbn [snd]. destruct Hm as [[H|[[-> H]|[-> H]]] _]; [by left| |].
  - destruct Hl; [congruence|by right].
  - destruct Hk; [by right|congruence].
Qed.

Lemma process_waiting_drains P n s : tapping_wf s -> aged P s ->
  let s' := process_waiting n s in
  aged P s' /\ (weight s' <= weight s)%nat
  /\ (open (tapping_key s) = 0%nat -> queue s <> [] -> (0 < n)%nat -> (weight s' < weight s)%nat).
Proof.
  revert s. induction n as [|n IH]; intros s Hs Hl; [split_and!; [done|done|lia]|].
  cbn [process_waiting]. destruct (Z.eqb_spec (waiting_buffer_tail s) (waiting_buffer_head s)) as [He|Hne].
  { split_and!; [done|done|]. by rewrite (queue_empty s He). }
  set (i := waiting_buffer_tail s) in *. pose proof (wf_ring s Hs) as Hw.
  destruct (take_oldest s zero_record Hs Hne) as (_ & Hq & Hfi & Hre). fold i in Hq, Hfi, Hre.
  assert (Hli : P (ev_time (rec_event (buffer_at s i)))).
  { destruct Hl as [_ Hl]. rewrite Hq in Hl. by inversion Hl. }
  pose proof (process_tapping_ledger (buffer_at s i) s Hw Hfi) as Hled.
  pose proof (process_tapping_moves (buffer_at s i) s) as Hmove.
  pose proof (settled_consumes (buffer_at s i) s) as Hcons.
  pose proof (aged_moves P _ s _ Hl (or_introl Hli) Hmove) as Hl'.
  destruct (process_tapping (buffer_at s i) s) as [[ok keyp] s'].
  cbn [fst snd] in Hcons, Hl'. destruct Hmove as [_ Hmove].
  destruct Hled as (_ & _ & _ & _ & Hr & Hk). destruct (same_queue s s' Hr Hs) as [Hq' Hs'].
  pose proof Hr as (R1 & R2 & _ & R4). destruct (R4 i (wf_tail s Hw)) as [Hei _].
  assert (Hlen : length (queue s') = length (queue s)) by (by rewrite <- !(length_map rec_event), Hq').
  pose proof (open_le (tapping_key s')). destruct ok.
  - destruct (take_oldest s' keyp Hs' ltac:(by rewrite R1, R2)) as (Hs2 & Hq2 & _).
    cbn [set_buffer_at waiting_buffer_head waiting_buffer_tail]. rewrite R2 in Hs2, Hq2 |- *.
    fold i in Hs2, Hq2 |- *. set (s2 := set_ring _ _ (set_buffer_at i keyp s')) in *.
    assert (Hl2 : aged P s2).
    { split; [exact Hl'|]. destruct Hl as [_ Hl]. rewrite <- Hq', Hq2 in Hl. by inversion Hl. }
    assert (Hw2 : (weight s2 < weight s)%nat).
    { unfold weight. rewrite <- Hlen, Hq2. cbn [length]. change (tapping_key s2) with (tapping_key s'). lia. }
    destruct (IH s2 Hs2 Hl2) as (I1 & I2 & _). split_and!; [done|lia|lia].
  - destruct (Hk eq_refl) as [Hk1 Hk2].
    assert (Hr2 : same_ring s (set_buffer_at i keyp s')).
    { apply (same_ring_trans s s'); [done|].
      apply same_ring_store; [by apply Hs'|exact (wf_tail s Hw)|by rewrite Hk1, Hei|].
      intros _. exact (Hk2 Hfi). }
    destruct (same_queue _ _ Hr2 Hs) as [Hq2 _]. split_and!.
    + split; [exact Hl'|]. rewrite Hq2. apply Hl.
    + unfold weight. rewrite <- (length_map rec_event (queue (set_buffer_at _ _ _))), Hq2, length_map.
      change (tapping_key (set_buffer_at i keyp s')) with (tapping_key s').
      destruct (Hmove eq_refl) as [->| ->]; lia.
    + intros Ho. by specialize (Hcons Ho Hre).
Qed.

(** The term is over for a time. *)
Definition over (T now time : Z) : Prop := T <= TIMER_DIFF_16 now time.

Lemma late_tick_drains T now s : (forall (w : W) k, get_tapping_term (fw_vial w) k <= T) ->
  tapping_wf s -> aged (over T now) s ->
  let s' := action_tapping_process (event_record (MAKE_TICK_EVENT now)) s in
  tapping_wf s' /\ aged (over T now) s' /\ (weight s' <= weight s - 1)%nat.
Proof.
  intros HT Hs Hl. unfold action_tapping_process. set (tick := event_record (MAKE_TICK_EVENT now)).
  pose proof (process_tapping_ledger tick s (wf_ring s Hs) ltac:(done)) as Hled.
  pose proof (process_tapping_moves tick s) as Hmove.
  pose proof (aged_moves _ tick s _ Hl (or_intror (eq_refl : IS_NOEVENT (rec_event tick) = true)) Hmove) as Hl'.
  assert (Hlate : IS_NOEVENT (rec_event (tapping_key s)) = true
                  \/ WITHIN_TAPPING_TERM (MAKE_TICK_EVENT now) s = false).
  { destruct Hl as [[|Hl] _]; [by left|right]. apply Z.ltb_ge. cbn. specialize (HT (world s).1 (tapping_keycode s)).
    unfold over in Hl. lia. }
  pose proof (late_tick now s Hlate) as Ht. fold tick in Ht. cbv zeta in Ht.
  destruct (process_tapping tick s) as [[ok tick'] s1]. cbn [snd] in Hl', Ht. destruct Ht as [Ho Hsame].
  destruct Hled as (_ & _ & _ & _ & Hr & Hk). destruct (same_queue s s1 Hr Hs) as [Hq1 Hs1].
  assert (Eq1 : (if ok then s1 else
      let '(queued, s) := waiting_buffer_enq tick' s1 in
      if queued : bool then s
      else set_tapping_key zero_record (waiting_buffer_clear (set_world (fw_clear_keyboard (world s)) s))) = s1).
  { destruct ok; [done|]. destruct (Hk eq_refl) as [Hk1 _]. unfold waiting_buffer_enq. by rewrite Hk1. }
  rewrite Eq1. assert (Hl1 : aged (over T now) s1) by (split; [exact Hl'|rewrite Hq1; apply Hl]).
  destruct (process_waiting_drains _ (Z.to_nat WAITING_BUFFER_SIZE) s1 Hs1 Hl1) as (L1 & L2 & L3).
  split_and!; [by apply process_waiting_accounted|exact L1|].
  assert (Hlen : length (queue s1) = length (queue s)) by (by rewrite <- !(length_map rec_event), Hq1).
  assert (Hw1 : (weight s1 <= weight s)%nat) by (unfold weight; rewrite Ho; lia).
  destruct (decide (queue s1 = [])) as [Hnil|Hnil].
  - assert (weight s1 = 0%nat) by (unfold weight; by rewrite Ho, Hnil). lia.
  - specialize (L3 Ho Hnil ltac:(unfold WAITING_BUFFER_SIZE; lia)). lia.
Qed.

(** Every event that is held has been given. *)
Lemma step_aged (P : Z -> Prop) record s : tapping_wf s -> fresh record -> aged P s ->
  P (ev_time (rec_event record)) \/ IS_NOEVENT (rec_event record) = true ->
  aged P (action_tapping_process record s).
Proof.
  intros Hs Hf Hl Hrec. unfold action_tapping_process. pose proof (wf_ring s Hs) as Hw.
  pose proof (process_tapping_ledger record s Hw Hf) as Hled.
  pose proof (aged_moves P record s _ Hl Hrec (process_tapping_moves record s)) as Hl'.
  destruct (process_tapping record s) as [[ok record'] s1]. cbn [snd] in Hl'.
  destruct Hled as (_ & _ & _ & _ & Hr & Hk). destruct (same_queue s s1 Hr Hs) as [Hq1 Hs1].
  assert (Hl1 : aged P s1) by (split; [exact Hl'|rewrite Hq1; apply Hl]).
  destruct ok; [by apply process_waiting_drains|].
  destruct (Hk eq_refl) as [Hk1 Hk2]. unfold waiting_buffer_enq. rewrite Hk1.
  destruct (IS_NOEVENT (rec_event record)) eqn:En; [by apply process_waiting_drains|].
  destruct Hrec as [Hrec|]; [|congruence]. case_if.
  - apply process_waiting_drains; [|split; [by left|constructor]].
    split; [split; [apply Hs1|done|done]|constructor..].
  - destruct (queue_enq s1 record' (wf_ring s1 Hs1) E0) as [Hw2 Hq2].
    cbn [set_buffer_at waiting_buffer_head waiting_buffer_tail]. apply process_waiting_drains.
    + by apply enq_wf; [| |rewrite Hk1|apply Hk2].
    + split; [exact Hl'|]. rewrite Hq2, map_app. apply Forall_app. split; [apply Hl1|]. repeat constructor. by rewrite Hk1.
Qed.

Lemma run_aged (P : Z -> Prop) evs s : tapping_wf s -> aged P s ->
  Forall (fun e => IS_NOEVENT e = false -> P (ev_time e)) evs ->
  tapping_wf (tapping_run evs s) /\ aged P (tapping_run evs s).
Proof.
  intros Hs Ha Hevs. revert s Hs Ha. induction Hevs as [|e evs He _ IH]; intros s Hs Ha; [done|].
  cbn [tapping_run foldl]. apply IH; [by apply step_accounted|].
  apply step_aged; [done|done|done|]. cbn [event_record rec_event].
  destruct (IS_NOEVENT e); [by right|left; by apply He].
Qed.

Lemma ticks_drain T now n s : (forall (w : W) k, get_tapping_term (fw_vial w) k <= T) ->
  tapping_wf s -> aged (over T now) s ->
  let s' := Nat.iter n (action_tapping_process (event_record (MAKE_TICK_EVENT now))) s in
  tapping_wf s' /\ aged (over T now) s' /\ (weight s' <= weight s - n)%nat.
Proof.
  intros HT Hs Ha. induction n as [|n IH]; [split_and!; [done|done|cbn; lia]|].
  set (f := action_tapping_process _) in *. destruct IH as (I1 & I2 & I3). destruct (late_tick_drains T now _ HT I1 I2) as (J1 & J2 & J3).
  change (Nat.iter (S n) f s) with (f (Nat.iter n f s)). split_and!; [done|done|].
  revert I3 J3. generalize (weight s), (weight (Nat.iter n f s)). fold f.
  generalize (weight (f (Nat.iter n f s))). lia.
Qed.

Lemma weight_pending s : weight s = 0%nat -> pending s = [].
Proof.
  unfold weight, pending. intros H. rewrite (nil_length_inv (queue s)) by lia.
  assert (Ho : open (tapping_key s) = 0%nat) by lia. unfold open in Ho. unfold held_back, undecided, real.
  rewrite app_nil_r. destruct (IS_NOEVENT _); [by case_if|]. destruct (ev_pressed _); [|done].
  destruct (tap_count _ =? 0); done.
Qed.
End ledger.
