(* ===== verification/TappingTheorems.v ===== *)
(** What the tapping code promises for the events of a keyboard: each is
    processed once, in the end all are, and what decides between tap and
    hold. *)

From S2P Require Import Prelude.
From S2P Require Import Eeprom.
From S2P Require Import DynamicKeymap.
From S2P Require Import KeymapBuffer.
From S2P Require Import QmkSettings.
From S2P Require Import Vial.
From S2P Require Import ViaReset.
From S2P Require Import KeycodeConfig.
From S2P Require Import KeymapCommon.
From S2P Require Import ActionLayer.
From S2P Require Import Keyboard.
From S2P Require Import ActionTapping.
From S2P Require Import TappingProofs.

(** The records of the calls of [process_record]. *)
Definition processed (calls : list tap_call) : list keyrecord_t :=
  flat_map (fun c => match c with Processed record => [record] | Cleared => [] end) calls.

Lemma processed_map l : processed (map Processed l) = l.
Proof. induction l as [|r l IH]; [done|]. cbn. f_equal. exact IH. Qed.

Lemma foldl_replicate {A B : Type} (f : A -> B -> A) x n a :
  foldl f a (replicate n x) = Nat.iter n (fun a => f a x) a.
Proof.
  revert a. induction n as [|n IH]; intros a; [done|]. cbn [replicate foldl]. by rewrite IH, Nat.iter_succ_r.
Qed.

Section executions.
Context {W E : Type} {fw : Firmware W E} {eeprom : Eeprom E} {cfg : KeymapConfig}
        {qcfg : QmkSettingsConfig}.
Implicit Types (s : tapping (W * list tap_call)) (record keyp : keyrecord_t).

(** ** Running the machine on queues *)

Lemma queue_nil_inv s : tapping_wf s -> queue s = [] -> waiting_buffer_tail s = waiting_buffer_head s.
Proof.
  intros Hs Hq. destruct (decide (waiting_buffer_tail s = waiting_buffer_head s)) as [|Hne]; [done|].
  destruct (take_oldest s zero_record Hs Hne) as (_ & H & _). by rewrite Hq in H.
Qed.

Lemma waiting_nil n s : tapping_wf s -> queue s = [] -> process_waiting n s = s.
Proof.
  intros Hs Hq. destruct n; [done|]. cbn [process_waiting].
  by rewrite (proj2 (Z.eqb_eq _ _) (queue_nil_inv s Hs Hq)).
Qed.

(** The state holds the key [tk], the queue [q] and the world [w]. *)
Definition holds (tk : keyrecord_t) (q : list keyrecord_t) (w : W * list tap_call) s : Prop :=
  tapping_wf s /\ tapping_key s = tk /\ queue s = q /\ world s = w.

Lemma holds_set tk q w s tk' w' : holds tk q w s -> holds tk' q w' (set_tapping_key tk' (set_world w' s)).
Proof. intros ([[H1 H2 H3] ? ?] & <- & <- & <-). split_and!; [split; [split|..]; done|done..]. Qed.

Lemma set_buffer_twice s i record : set_buffer_at i record (set_buffer_at i record s) = set_buffer_at i record s.
Proof. unfold set_buffer_at. cbn. by rewrite list_insert_insert_eq. Qed.

Lemma ring_full t h : ring_index t -> ring_index h -> (h + 1) mod WAITING_BUFFER_SIZE = t ->
  length (ring t h) = 7%nat.
Proof.
  revert t h. apply (ring_cases (fun t h => (h + 1) mod WAITING_BUFFER_SIZE = t -> length (ring t h) = 7%nat)).
  vm_compute. reflexivity.
Qed.

(** One turn of the loop, which left the tapping key [tk'] and the world [w']. *)
Lemma waiting_turn n s tk r q w (ok : bool) r' tk' w' : holds tk (r :: q) w s ->
  process_tapping r s = (ok, r', set_tapping_key tk' (set_world w' s)) ->
  rec_event r' = rec_event r -> fresh r' ->
  exists s', holds tk' (if ok then q else r' :: q) w' s'
    /\ process_waiting (S n) s = if ok then process_waiting n s' else s'.
Proof.
  intros Hh Hp He Hf. pose proof (holds_set _ _ _ _ tk' w' Hh) as Hh'.
  destruct Hh as (Hs & Htk & Hq & Hw). set (s1 := set_tapping_key tk' (set_world w' s)) in *.
  assert (Hne : waiting_buffer_tail s <> waiting_buffer_head s).
  { intros Heq. pose proof (queue_empty s Heq) as Hn. rewrite Hq in Hn. done. }
  destruct (take_oldest s1 r' (proj1 Hh') Hne) as (Hs2 & Hq2 & _).
  destruct Hh' as (Hs1 & _ & Hq1 & _). rewrite Hq1 in Hq2. injection Hq2 as Hb Hq2.
  assert (Hb2 : buffer_at s (waiting_buffer_tail s) = r) by (rewrite Hb; done). clear Hb; rename Hb2 into Hb.
  cbn [process_waiting]. rewrite (proj2 (Z.eqb_neq _ _) Hne), Hb, Hp. destruct ok.
  - eexists. split; [|reflexivity]. split_and!; [exact Hs2|done|by rewrite Hq2|done].
  - exists (set_buffer_at (waiting_buffer_tail s) r' s1). split; [|done].
    assert (Hr : same_ring s1 (set_buffer_at (waiting_buffer_tail s) r' s1)).
    { apply same_ring_store; [apply Hs1|apply Hs| |done]. rewrite He, <- Hb. done. }
    destruct (same_queue _ _ Hr Hs1) as [_ Hs3]. split_and!; [exact Hs3|done| |done].
    destruct (take_oldest _ r' Hs3 Hne) as (_ & -> & _).
    cbn [waiting_buffer_tail waiting_buffer_head set_buffer_at].
    change (waiting_buffer_tail s1) with (waiting_buffer_tail s) in *.
    rewrite buffer_at_set, Z.eqb_refl by apply Hs1 || apply Hs. f_equal.
    by rewrite set_buffer_twice, Hq2.
Qed.

(** Putting a record into the queue, and the loop after it. *)
Lemma step_enq s tk q w record record' tk' w' : holds tk q w s -> (length q < 7)%nat ->
  IS_NOEVENT (rec_event record) = false -> rec_event record' = rec_event record -> fresh record' ->
  process_tapping record s = (false, record', set_tapping_key tk' (set_world w' s)) ->
  exists s', holds tk' (q ++ [record']) w' s'
    /\ action_tapping_process record s = process_waiting 8 s'.
Proof.
  intros Hh Hlen Hn He Hf Hp. pose proof (holds_set _ _ _ _ tk' w' Hh) as Hh'.
  destruct Hh as (Hs & _ & Hq & _). destruct Hh' as (Hs1 & _ & Hq1 & _).
  set (s1 := set_tapping_key tk' (set_world w' s)) in *. pose proof (wf_ring _ Hs1) as Hw1.
  assert (Hne : (waiting_buffer_head s1 + 1) mod WAITING_BUFFER_SIZE <> waiting_buffer_tail s1).
  { intros Hfull. apply (ring_full _ _ (wf_tail _ Hw1) (wf_head _ Hw1)) in Hfull.
    rewrite <- waiting_ring in Hfull. rewrite <- Hq1 in Hlen. unfold queue in Hlen.
    rewrite length_map in Hlen. lia. }
  unfold action_tapping_process. rewrite Hp. unfold waiting_buffer_enq. rewrite He, Hn.
  rewrite (proj2 (Z.eqb_neq _ _) Hne). cbn [set_buffer_at waiting_buffer_head waiting_buffer_tail].
  eexists. split; [|reflexivity]. destruct (queue_enq s1 record' Hw1 Hne) as [_ Hq2].
  split_and!; [by apply enq_wf; [..|rewrite He|]|done|by rewrite Hq2, Hq1|done].
Qed.

(** A record that is consumed, with an empty queue. *)
Lemma step_consumed s tk w record record' tk' w' : holds tk [] w s ->
  process_tapping record s = (true, record', set_tapping_key tk' (set_world w' s)) ->
  holds tk' [] w' (action_tapping_process record s).
Proof.
  intros Hh Hp. pose proof (holds_set _ _ _ _ tk' w' Hh) as Hh'.
  unfold action_tapping_process. rewrite Hp. rewrite waiting_nil by apply Hh'. exact Hh'.
Qed.

Lemma typed_queue event s : waiting_buffer_typed event s
  = existsb (fun r => KEYEQ (ev_key event) (ev_key (rec_event r))
                      && negb (eqb (ev_pressed event) (ev_pressed (rec_event r)))) (queue s).
Proof.
  unfold waiting_buffer_typed, queue. generalize (waiting s) as l.
  induction l as [|i l IH]; [done|]. cbn [existsb map]. by rewrite IH.
Qed.

(** ** The parts of the machine, on known states *)

Lemma set_same s : set_tapping_key (tapping_key s) (set_world (world s) s) = s.
Proof. by destruct s. Qed.

Lemma process_log record s : exists kept w, process record s
  = (if kept : bool then record else set_pressed false record, set_world (w, log s ++ [Processed record]) s)
  /\ kept = (process_record record (world s).1).1.
Proof. unfold process. cbn. destruct (process_record record (world s).1) as [kept w]. by exists kept, w. Qed.

(** A record that is not the press of a tap key goes straight through. *)
Lemma idle_step s tk w record : holds tk [] w s -> IS_NOEVENT (rec_event tk) = true ->
  IS_NOEVENT (rec_event record) = false -> ev_pressed (rec_event record) && is_tap_record record (world s) = false ->
  exists w', holds tk [] (w', log s ++ [Processed record]) (action_tapping_process record s).
Proof.
  intros Hh Hn He Hp. destruct (process_spec record s) as (kept & w' & Hpr). exists w'.
  apply (step_consumed s tk w record (if kept then record else set_pressed false record)); [done|].
  unfold process_tapping. destruct Hh as (_ & Htk & _ & _). rewrite Htk, Hn. unfold tapping_reset, IS_EVENT.
  change (bool_decide (ev_type (rec_event record) = TICK_EVENT)) with (IS_NOEVENT (rec_event record)).
  rewrite He. cbn [negb]. rewrite Hp, Hpr. rewrite <- Htk. by destruct s.
Qed.

Section one_key.
Context (s : tapping (W * list tap_call)) (key : keypos_t) (t0 : Z).

Definition down (key : keypos_t) (t : Z) : keyevent_t := mk_event key t KEY_EVENT true.
Definition up (key : keypos_t) (t : Z) : keyevent_t := mk_event key t KEY_EVENT false.
Definition press : keyrecord_t := event_record (down key t0).

(** The tapping term of the key, and the times within it. *)
Definition term : Z :=
  get_tapping_term (fw_vial (world s)) (get_record_keycode press false (world s)).1.
Definition within (t : Z) : Prop := TIMER_DIFF_16 t t0 < term.

Context (Hs : tapping_wf s) (Hq : queue s = []) (Hn : IS_NOEVENT (rec_event (tapping_key s)) = true)
        (Htap : is_tap_record press (world s) = true).

Lemma start_holds : holds (tapping_key s) [] (world s) s.
Proof using Hs Hq. done. Qed.

Lemma press_step : holds press [] (world s) (action_tapping_process press s).
Proof using Hs Hq Hn Htap.
  apply (step_consumed s (tapping_key s) (world s) press press); [exact start_holds|].
  unfold process_tapping. rewrite Hn. unfold tapping_reset. change (IS_EVENT (rec_event press)) with true.
  cbn [negb]. change (ev_pressed (rec_event press)) with true. rewrite Htap. cbn [andb].
  unfold waiting_buffer_scan_tap. cbn [set_tapping_key tapping_key rec_tap press event_record no_tap tap_count
    rec_event down ev_pressed negb Z.ltb Z.compare orb].
  assert (Hwait : waiting (set_tapping_key press s) = []) by (apply (map_eq_nil (buffer_at s)); exact Hq).
  rewrite Hwait. cbn [find]. by destruct s.
Qed.

(** While the key waits, a term is a term of [s]. *)
Lemma within_holds q s' tk event : holds tk q (world s) s' -> rec_event tk = down key t0 -> rec_keycode tk = 0 ->
  WITHIN_TAPPING_TERM event s' = (TIMER_DIFF_16 (ev_time event) t0 <? term).
Proof using.
  intros (_ & <- & _ & Hw) He Hk. unfold WITHIN_TAPPING_TERM, tapping_keycode, get_record_keycode.
  rewrite Hw, He, Hk. done.
Qed.

Lemma undecided_holds q s' tk record : holds tk q (world s) s' -> rec_event tk = down key t0 ->
  rec_keycode tk = 0 -> tap_count (rec_tap tk) = 0 -> within (ev_time (rec_event record)) ->
  IS_NOEVENT (rec_event record) = false ->
  process_tapping record s' = tapping_undecided record s'.
Proof using.
  intros Hh He Hk Hc Hw Hr. unfold process_tapping. rewrite (within_holds q s' tk) by done.
  rewrite (proj2 (Z.ltb_lt _ _) Hw). destruct Hh as (_ & -> & _). rewrite He, Hc, Hr. done.
Qed.

Lemma ticks_step ticks s' : Forall within ticks -> holds press [] (world s) s' ->
  holds press [] (world s) (tapping_run (map MAKE_TICK_EVENT ticks) s').
Proof using.
  intros Ht. revert s'. induction Ht as [|t ticks Hw _ IH]; intros s' Hh; [done|].
  cbn [map tapping_run foldl]. apply IH.
  apply (step_consumed s' press (world s) _ (event_record (MAKE_TICK_EVENT t)) press); [done|].
  unfold process_tapping. rewrite (within_holds [] s' press) by done.
  cbn [event_record rec_event MAKE_TICK_EVENT ev_time]. rewrite (proj2 (Z.ltb_lt _ _) Hw). destruct Hh as (_ & Htk & _ & Hwd). rewrite <- Hwd, <- Htk, set_same.
  rewrite Htk. done.
Qed.

Lemma KEYEQ_refl k : KEYEQ k k = true.
Proof. unfold KEYEQ. by rewrite !Z.eqb_refl. Qed.

(** A release of the tapped key is processed with the count of the press,
    whether or not the term is over. *)
Lemma tapped_release s' tk q t tap : holds tk q (world s') s' -> rec_event tk = down key t0 ->
  rec_keycode tk = 0 -> tap_count (rec_tap tk) <> 0 ->
  exists r tk' w', process_tapping (set_tap tap (event_record (up key t))) s'
      = (true, r, set_tapping_key tk' (set_world w' s'))
    /\ rec_event r = up key t
    /\ w'.2 = log s' ++ [Processed (set_tap (rec_tap tk) (event_record (up key t)))].
Proof using.
  intros (_ & Htk & _ & _) He Hk Hc. unfold process_tapping. rewrite Htk, He. cbn [rec_event down IS_NOEVENT].
  change (IS_NOEVENT (down key t0)) with false. change (ev_pressed (down key t0)) with true. cbv iota.
  assert (Hrec : IS_TAPPING_RECORD (set_tap tap (event_record (up key t))) s' = true).
  { unfold IS_TAPPING_RECORD. rewrite Htk, He, Hk. cbn. by rewrite KEYEQ_refl. }
  assert (Hset : set_tap (rec_tap tk) (set_tap tap (event_record (up key t)))
                 = set_tap (rec_tap tk) (event_record (up key t))) by done.
  destruct (process_spec (set_tap (rec_tap tk) (event_record (up key t))) s') as (kept & w & Hp).
  case_if.
  - change (IS_NOEVENT (rec_event (set_tap tap (event_record (up key t))))) with false. cbv iota.
    rewrite (proj2 (Z.eqb_neq _ _) Hc). unfold tapping_tapped. rewrite Hrec, Htk, Hset, Hp.
    eexists _, _, _. split_and!; [reflexivity|by destruct kept|done].
  - unfold tapping_timeout. rewrite Hrec, Htk, Hset, Hp, (proj2 (Z.eqb_neq _ _) Hc).
    eexists _, _, _. split_and!; [reflexivity|by destruct kept|done].
Qed.

Lemma tap_step s' t1 : holds press [] (world s) s' -> within t1 ->
  (process_record (set_count 1 press) (world s).1).1 = true ->
  log (action_tapping_process (event_record (up key t1)) s')
  = log s ++ [Processed (set_count 1 press); Processed (set_count 1 (event_record (up key t1)))].
Proof using.
  intros Hh Hw Hkept. pose proof Hh as (_ & Htk & _ & Hwd).
  destruct (process_log (set_count 1 press) (set_tapping_key (set_count 1 press) s')) as (kept & w & Hp & Hk).
  change (world (set_tapping_key (set_count 1 press) s')) with (world s') in Hk. rewrite Hwd, Hkept in Hk. subst kept.
  destruct (step_enq s' press [] (world s) (event_record (up key t1)) (set_count 1 (event_record (up key t1)))
              (set_count 1 press) (w, log s' ++ [Processed (set_count 1 press)]) Hh) as (s2 & H2 & E2);
    [cbn; lia|done|done|done| |].
  { rewrite (undecided_holds [] s' press) by done. unfold tapping_undecided, IS_TAPPING_RECORD.
    rewrite Htk. cbn [event_record rec_event press down up ev_key rec_keycode Z.eqb andb negb ev_pressed].
    rewrite KEYEQ_refl. cbn [andb]. unfold process_tapping_key.
    cbn [set_tapping_key tapping_key] in Hp |- *. rewrite Hp. done. }
  pose proof H2 as (_ & _ & _ & Hw2).
  assert (H2' : holds (set_count 1 press) [set_count 1 (event_record (up key t1))] (world s2) s2)
    by (rewrite Hw2; exact H2).
  destruct (tapped_release s2 _ _ t1 (mk_tap false 1) H2' eq_refl eq_refl ltac:(done)) as (r & tk' & w' & Hp2 & He & Hl).
  destruct (waiting_turn 7 s2 _ _ [] _ true r tk' w' H2' Hp2) as (s3 & H3 & E3); [done|by intros Hpr; rewrite He in Hpr|].
  rewrite E2, E3, waiting_nil by apply H3. destruct H3 as (_ & _ & _ & Hw3).
  unfold log in *. rewrite Hw3, Hl, Hw2, Hwd. cbn [snd]. by rewrite <- app_assoc.
Qed.

Lemma hold_holds s' t1 : holds press [] (world s) s' -> ~ within t1 ->
  exists w, holds zero_record [] (w, log s ++ [Processed press])
              (action_tapping_process (event_record (MAKE_TICK_EVENT t1)) s').
Proof using.
  intros Hh Hw. pose proof Hh as (Hs' & Htk & Hq' & Hwd). unfold action_tapping_process, process_tapping.
  rewrite (within_holds [] s' press) by done. unfold within in Hw.
  cbn [event_record rec_event MAKE_TICK_EVENT ev_time]. rewrite (proj2 (Z.ltb_ge _ _)) by lia.
  rewrite Htk. change (IS_NOEVENT (rec_event press)) with false. change (ev_pressed (rec_event press)) with true.
  cbv iota. unfold tapping_timeout. rewrite Htk. change (tap_count (rec_tap press) =? 0) with true. cbv iota.
  unfold process_tapping_key. rewrite Htk. destruct (process_spec press s') as (kept & w & ->).
  unfold waiting_buffer_enq. change (IS_NOEVENT _) with true. cbv iota.
  set (s2 := set_tapping_key _ _). exists w.
  assert (H2 : holds zero_record [] (w, log s' ++ [Processed press]) s2).
  { exact (holds_set press [] (world s) s' zero_record _ Hh). }
  rewrite waiting_nil by apply H2. unfold log in *. rewrite Hwd in H2. exact H2.
Qed.

Lemma hold_step s' t1 : holds press [] (world s) s' -> ~ within t1 ->
  log (action_tapping_process (event_record (MAKE_TICK_EVENT t1)) s') = log s ++ [Processed press].
Proof using. intros Hh Hw. destruct (hold_holds s' t1 Hh Hw) as (w & _ & _ & _ & Hl). unfold log. by rewrite Hl. Qed.

(** With no tapping key the oldest record, if it is no tap key's press, is
    processed. *)
Lemma plain_turn n s' r q w : holds zero_record (r :: q) w s' -> IS_NOEVENT (rec_event r) = false ->
  ev_pressed (rec_event r) && is_tap_record r w = false ->
  exists s2 w', holds zero_record q (w', w.2 ++ [Processed r]) s2
    /\ process_waiting (S n) s' = process_waiting n s2.
Proof using.
  intros Hh He Hp. pose proof Hh as (_ & Htk & _ & Hwd).
  assert (Hpt : exists k w', process_tapping r s'
      = (true, if k : bool then r else set_pressed false r,
         set_tapping_key zero_record (set_world (w', w.2 ++ [Processed r]) s'))).
  { unfold process_tapping. rewrite Htk. change (IS_NOEVENT (rec_event zero_record)) with true. cbv iota.
    unfold tapping_reset. change (IS_EVENT (rec_event r)) with (negb (IS_NOEVENT (rec_event r))).
    rewrite He, Hwd, Hp. cbn [negb]. destruct (process_spec r s') as (k & w' & ->).
    exists k, w'. unfold log. rewrite Hwd, <- Htk. by destruct s'. }
  destruct Hpt as (k & w' & Hpt).
  set (r' := if k then r else set_pressed false r).
  (* the record is taken out, whatever it is *)
  pose proof (holds_set _ _ _ _ zero_record (w', w.2 ++ [Processed r]) Hh) as Hh'.
  set (s1 := set_tapping_key zero_record (set_world (w', w.2 ++ [Processed r]) s')) in *.
  destruct Hh as (Hs' & _ & Hq' & _).
  assert (Hne : waiting_buffer_tail s' <> waiting_buffer_head s').
  { intros Heq. pose proof (queue_empty s' Heq) as Hnil. by rewrite Hq' in Hnil. }
  destruct (take_oldest s1 r' (proj1 Hh') Hne) as (Hs2 & Hq2 & _).
  destruct (take_oldest s' r' Hs' Hne) as (_ & Hq3 & _). rewrite Hq' in Hq3. injection Hq3 as Hb _.
  destruct Hh' as (_ & _ & Hq1 & _). rewrite Hq1 in Hq2. injection Hq2 as _ Hq2.
  eexists _, w'. split; [|].
  2: { cbn [process_waiting]. rewrite (proj2 (Z.eqb_neq _ _) Hne), <- Hb, Hpt. reflexivity. }
  split_and!; [exact Hs2|done|by rewrite Hq2|done].
Qed.

Lemma interrupted_hold_step s' b t1 : holds press [] (world s) s' -> within t1 ->
  (forall w : W, is_tap_record (event_record (down b t1)) w = false) ->
  get_hold_on_other_key_press (settings (fw_vial (world s))) = true ->
  log (action_tapping_process (event_record (down b t1)) s')
  = log s ++ [Processed (set_interrupted true press); Processed (event_record (down b t1))].
Proof using.
  intros Hh Hw Hb Hho. pose proof Hh as (_ & Htk & _ & Hwd).
  destruct (process_spec (set_interrupted true press) (set_tapping_key (set_interrupted true press) s')) as (k & w & Hp).
  destruct (step_enq s' press [] (world s) (event_record (down b t1)) (event_record (down b t1)) zero_record
              (w, log s' ++ [Processed (set_interrupted true press)]) Hh) as (s2 & H2 & E2);
    [cbn; lia|done|done|done| |].
  { rewrite (undecided_holds [] s' press) by done. unfold tapping_undecided.
    change (ev_pressed (rec_event (event_record (down b t1)))) with true. cbn [negb andb].
    rewrite andb_false_r. unfold TAP_GET_HOLD_ON_OTHER_KEY_PRESS. rewrite Hwd, Hho, Htk.
    unfold process_tapping_key. cbn [set_tapping_key tapping_key] in Hp |- *. by rewrite Hp. }
  destruct (plain_turn 7 s2 _ [] _ H2) as (s3 & w3 & H3 & E3); [done|exact (Hb _)|].
  rewrite E2, E3, waiting_nil by apply H3. destruct H3 as (_ & _ & _ & Hw3). unfold log in *.
  rewrite Hw3, Hwd. cbn [snd]. by rewrite <- app_assoc.
Qed.

(** Another key is pressed and the tap key still waits. *)
Lemma interrupted_wait s' b t1 : holds press [] (world s) s' -> within t1 ->
  get_hold_on_other_key_press (settings (fw_vial (world s))) = false ->
  holds (set_interrupted true press) [event_record (down b t1)] (world s)
    (action_tapping_process (event_record (down b t1)) s').
Proof using.
  intros Hh Hw Hho. pose proof Hh as (_ & Htk & _ & Hwd).
  assert (Hstep : forall q s2 tk, holds tk q (world s) s2 -> rec_event tk = down key t0 -> rec_keycode tk = 0 ->
    tap_count (rec_tap tk) = 0 -> set_interrupted true tk = set_interrupted true press ->
    process_tapping (event_record (down b t1)) s2
    = (false, event_record (down b t1), set_tapping_key (set_interrupted true press) (set_world (world s) s2))).
  { intros q s2 tk H2 He Hk Hc Hi. rewrite (undecided_holds q s2 tk) by done. destruct H2 as (_ & Htk2 & _ & Hwd2).
    unfold tapping_undecided. change (ev_pressed (rec_event (event_record (down b t1)))) with true.
    cbn [negb andb]. rewrite andb_false_r. unfold TAP_GET_HOLD_ON_OTHER_KEY_PRESS.
    rewrite Hwd2, Hho, Htk2, Hi, <- Hwd2. by destruct s2. }
  destruct (step_enq s' press [] (world s) (event_record (down b t1)) (event_record (down b t1))
              (set_interrupted true press) (world s) Hh) as (s2 & H2 & E2);
    [cbn; lia|done|done|done|by apply (Hstep [] s' press)|].
  destruct (waiting_turn 7 s2 _ _ [] _ false (event_record (down b t1)) (set_interrupted true press) (world s) H2
              (Hstep _ s2 _ H2 eq_refl eq_refl eq_refl eq_refl) eq_refl) as (s3 & H3 & E3); [done|].
  rewrite E2, E3. exact H3.
Qed.

Lemma nested_hold_step s' b t1 t2 : KEYEQ key b = false ->
  holds (set_interrupted true press) [event_record (down b t1)] (world s) s' -> within t2 ->
  (forall w : W, is_tap_record (event_record (down b t1)) w = false) ->
  get_permissive_hold (settings (fw_vial (world s))) = true ->
  log (action_tapping_process (event_record (up b t2)) s')
  = log s ++ [Processed (set_interrupted true press); Processed (event_record (down b t1));
              Processed (event_record (up b t2))].
Proof using.
  intros Hkb Hh Hw Hb Hph. pose proof Hh as (_ & Htk & Hq' & Hwd).
  destruct (process_spec (set_interrupted true press) s') as (k & w & Hp).
  destruct (step_enq s' _ _ (world s) (event_record (up b t2)) (event_record (up b t2)) zero_record
              (w, log s' ++ [Processed (set_interrupted true press)]) Hh) as (s2 & H2 & E2);
    [cbn; lia|done|done|done| |].
  { rewrite (undecided_holds _ s' (set_interrupted true press)) by done. unfold tapping_undecided.
    assert (Hrec : IS_TAPPING_RECORD (event_record (up b t2)) s' = false).
    { unfold IS_TAPPING_RECORD. rewrite Htk. cbn. by rewrite Hkb. }
    rewrite Hrec, typed_queue, Hq'. change (ev_pressed (rec_event (event_record (up b t2)))) with false.
    cbn [event_record rec_event up down ev_key ev_pressed existsb negb eqb andb orb].
    rewrite KEYEQ_refl. unfold TAP_GET_PERMISSIVE_HOLD. rewrite Hwd, Hph. cbn [andb orb].
    unfold process_tapping_key. rewrite Htk, Hp. done. }
  destruct (plain_turn 7 s2 _ _ _ H2) as (s3 & w3 & H3 & E3); [done|exact (Hb _)|].
  destruct (plain_turn 6 s3 _ [] _ H3) as (s4 & w4 & H4 & E4); [done|done|].
  rewrite E2, E3, E4, waiting_nil by apply H4. destruct H4 as (_ & _ & _ & Hw4). unfold log in *.
  rewrite Hw4, Hwd. cbn [snd]. by rewrite <- !app_assoc.
Qed.
End one_key.

(** ** Properties *)

Lemma filter_accounted (l k cut : list keyevent_t) : Forall (fun e => ev_pressed e = false) cut ->
  l ≡ₚ k ++ cut ->
  filter (fun e => ev_pressed e = true) l ≡ₚ filter (fun e => ev_pressed e = true) k.
Proof.
  intros Hc ->. rewrite list.filter_app.
  replace (filter _ cut) with (@nil keyevent_t); [by rewrite app_nil_r|].
  induction Hc as [|e cut He _ IH]; [done|]. rewrite filter_cons_False by congruence. done.
Qed.


(** The events [given] are those of the records [done] and those [held], each
    once; the other records are releases of taps that were cut short by the press
    of another tap key. A tap that is cut short has been tapped at least twice and
    was processed itself; no tap is cut short twice, and no press cuts two. *)
Definition each_once (done : list keyrecord_t) (held given : list keyevent_t) : Prop :=
  exists own cut, done ≡ₚ own ++ map cut_release cut
    /\ map rec_event own ++ held ≡ₚ given
    /\ map fst cut ⊆+ repeats own
    /\ map snd cut ⊆+ presses given.

Lemma run_accounted w evs : Cleared ∉ log (tapping_run evs (tapping_start w)) ->
  let s := tapping_run evs (tapping_start w) in
  each_once (processed (log s)) (pending s) (key_events evs).
Proof.
  intros Hc s. destruct (tapping_run_accounted evs _ (tapping_start_wf w))
    as [_ [(new & cut & Hl & own & Hn & Hp & Ht & He)|(l & Hl & Hin)]].
  - exists own, cut. unfold s. rewrite Hl. cbn [tapping_start log world snd app]. rewrite processed_map.
    split_and!; [exact Hn|exact Hp| |].
    + etransitivity; [apply submseteq_inserts_r; reflexivity|exact Ht].
    + etransitivity; [apply submseteq_inserts_r; reflexivity|exact He].
  - rewrite Hl in Hc. exfalso. apply Hc. by apply elem_of_app; right.
Qed.

(** C12: no event is lost and none is processed twice. Whatever the rest of the
    firmware does, let the machine start at rest and be given any sequence of
    key events and ticks in which the ring never overflows (the overflow clears
    the keyboard). Then the records processed so far and the events held back (the
    undecided press and the ring) are the events given, each exactly once, and
    besides only releases made up for taps that another tap key cut short. Each of
    these has the key, the tap count and the keycode of a press that was processed
    with a count of two or more, and the time of a press given; no press has two,
    and none is made up twice by one press. In particular every press given is
    processed once or still held, and never more than eight are held. *)
Theorem tapping_conserves_events w evs :
  let s := tapping_run evs (tapping_start w) in
  Cleared ∉ log s ->
  each_once (processed (log s)) (pending s) (key_events evs)
  /\ presses (map rec_event (processed (log s)) ++ pending s) ≡ₚ presses (key_events evs)
  /\ (length (pending s) <= 8)%nat.
Proof.
  intros s Hc. pose proof (run_accounted w evs Hc) as Ha. split_and!; [exact Ha| |].
  - destruct Ha as (own & cut & Hn & Hp & _). apply (filter_accounted _ _ (map rec_event (map cut_release cut))).
    + by apply Forall_map, Forall_map, Forall_true.
    + fold s in Hn, Hp. rewrite Hn, map_app, <- Hp. solve_Permutation.
  - destruct (tapping_run_accounted evs _ (tapping_start_wf w)) as [Hs _]. unfold pending.
    rewrite length_app, length_map. pose proof (queue_short _ (wf_ring _ Hs)) as Hlen. fold s in Hlen.
    unfold held_back, real. repeat case_if; cbn; lia.
Qed.

(** C13: nothing waits for ever. When no tapping term is longer than [T] and
    every event given is at least [T] old, fifteen ticks are enough: the ring is
    empty, no press is undecided, and if the keyboard was not cleared every
    event given has been processed, each once, besides the releases of taps that
    another tap key cut short. *)
Theorem tapping_drains (T now : Z) w evs :
  (forall (w : W) k, get_tapping_term (fw_vial w) k <= T) ->
  Forall (fun e => IS_NOEVENT e = false -> T <= TIMER_DIFF_16 now (ev_time e)) evs ->
  let s := tapping_run (evs ++ replicate 15 (MAKE_TICK_EVENT now)) (tapping_start w) in
  pending s = [] /\ open (tapping_key s) = 0%nat
  /\ (Cleared ∉ log s -> each_once (processed (log s)) [] (key_events evs)).
Proof.
  intros HT Hevs s.
  assert (Hrun : s = Nat.iter 15 (action_tapping_process (event_record (MAKE_TICK_EVENT now)))
                       (tapping_run evs (tapping_start w))).
  { unfold s, tapping_run. rewrite foldl_app, foldl_replicate. reflexivity. }
  assert (Ha : tapping_wf (tapping_run evs (tapping_start w))
               /\ aged (over T now) (tapping_run evs (tapping_start w))).
  { apply run_aged; [apply tapping_start_wf|split; [by left|constructor]|exact Hevs]. }
  destruct Ha as [Hs Ha]. destruct (ticks_drain T now 15 _ HT Hs Ha) as (Hs' & _ & Hw).
  rewrite <- Hrun in Hs', Hw.
  assert (Hz : weight s = 0%nat).
  { pose proof (queue_short _ (wf_ring _ Hs)) as Hlen.
    pose proof (open_le (tapping_key (tapping_run evs (tapping_start w)))).
    unfold weight in Hw |- *. lia. }
  assert (Hp : pending s = []) by (apply weight_pending; done).
  split_and!; [done|unfold weight in Hz; lia|].
  intros Hc. pose proof (run_accounted w _ Hc) as Hrun'. cbv zeta in Hrun'. fold s in Hrun'. rewrite Hp in Hrun'.
  unfold key_events in *. rewrite map_app, concat_app in Hrun'. by rewrite app_nil_r in Hrun'.
Qed.
(** C14: what decides between tap and hold. A tap key is pressed while the
    machine is at rest, and only ticks within its tapping term follow: nothing is
    processed yet. Then its release within the term gives a tap (press and
    release with count 1, in this order); a tick past the term gives a hold
    (the press with count 0). When a plain key is pressed within the term, with
    hold-on-other-key-press the hold is processed first and then the plain key;
    without it both still wait, and with permissive hold the release of the plain
    key within the term gives the hold, the plain press and its release, in this
    order. *)
Theorem tap_or_hold s key t0 ticks :
  tapping_wf s -> queue s = [] -> IS_NOEVENT (rec_event (tapping_key s)) = true ->
  is_tap_record (press key t0) (world s) = true -> Forall (within s key t0) ticks ->
  let s' := tapping_run (down key t0 :: map MAKE_TICK_EVENT ticks) s in
  let after evs := log (tapping_run evs s') in
  after [] = log s
  /\ (forall t, within s key t0 t -> (process_record (set_count 1 (press key t0)) (world s).1).1 = true ->
      after [up key t]
      = log s ++ [Processed (set_count 1 (press key t0)); Processed (set_count 1 (event_record (up key t)))])
  /\ (forall t, ~ within s key t0 t -> after [MAKE_TICK_EVENT t] = log s ++ [Processed (press key t0)])
  /\ (forall b t, KEYEQ key b = false -> within s key t0 t ->
      (forall w : W, is_tap_record (event_record (down b t)) w = false) ->
      let hold := Processed (set_interrupted true (press key t0)) in
      let plain := Processed (event_record (down b t)) in
      if get_hold_on_other_key_press (settings (fw_vial (world s)))
      then after [down b t] = log s ++ [hold; plain]
      else after [down b t] = log s
           /\ (forall t2, within s key t0 t2 -> get_permissive_hold (settings (fw_vial (world s))) = true ->
               after [down b t; up b t2] = log s ++ [hold; plain; Processed (event_record (up b t2))])).
Proof.
  intros Hs Hq Hn Htap Hticks s' after.
  assert (Hh : holds (press key t0) [] (world s) s')
    by (apply (ticks_step s key t0); [done|by apply press_step]).
  split_and!.
  - unfold after, log. cbn [tapping_run foldl]. by destruct Hh as (_ & _ & _ & ->).
  - intros t Hw Hk. exact (tap_step s key t0 s' t Hh Hw Hk).
  - intros t Hw. exact (hold_step s key t0 s' t Hh Hw).
  - intros b t Hkb Hw Hb hold plain. destruct (get_hold_on_other_key_press _) eqn:Hho.
    + exact (interrupted_hold_step s key t0 s' b t Hh Hw Hb Hho).
    + pose proof (interrupted_wait s key t0 s' b t Hh Hw Hho) as Hh2. split.
      * unfold after, log. cbn [tapping_run foldl]. by destruct Hh2 as (_ & _ & _ & ->).
      * intros t2 Hw2 Hph. exact (nested_hold_step s key t0 _ b t t2 Hkb Hh2 Hw2 Hb Hph).
Qed.
End executions.

(** ** The promises hold of a concrete keyboard

    Key (0, 0) of layer 0 is [LT(1, KC_A)], the tapping term is 200 ms, the rest
    of the firmware keeps no state of its own. *)
Module TappingExample.
Definition keymap : KeymapExample.store :=
  @dynamic_keymap_set_keycode _ KeymapExample.driver KeymapExample.config 0 0 0 0x4104 KeymapExample.blank.

(** Permissive hold is on, hold on other key press is off. *)
Definition options : list Z := <[29%nat := 3]> (<[24%nat := 200]> (memset 0 36)).
Definition vial : vial_state KeymapExample.store :=
  mk_vial (mk_qs keymap options 0 175 (mk_mousekey 0 0 0 0 0 0 0 0) 0) 0 0 0 0 [] [] [] [].

#[global] Instance firmware : Firmware unit KeymapExample.store := {|
  fw_state := {|
    fw_vial := fun _ => vial;
    fw_layers := fun _ => layers_start;
    fw_magic_keycode_override := fun _ => 0;
    fw_disable_action_cache := fun _ => false;
  |};
  process_record := fun _ w => (true, w);
  fw_clear_keyboard := fun w => w;
|}.

Definition tap_key : keypos_t := mk_key 0 0.
Definition plain_key : keypos_t := mk_key 1 0.

(** A tap nested around another key, and a hold. *)
Definition session : list keyevent_t :=
  [down tap_key 1000; MAKE_TICK_EVENT 1050; down plain_key 1100; up plain_key 1150; up tap_key 1180;
   down tap_key 1300; MAKE_TICK_EVENT 1400].
End TappingExample.

Section witnesses.
#[local] Existing Instance KeymapExample.config.
#[local] Existing Instance KeymapExample.config_ok.
#[local] Existing Instance KeymapExample.laws.
#[local] Existing Instance ViaExample.qcfg.
Import TappingExample.

Lemma tapping_conserves_events_witness :
  let s := tapping_run session (tapping_start tt) in
  each_once (processed (log s)) [down tap_key 1300] (key_events session).
Proof.
  refine (proj1 (tapping_conserves_events tt session _)).
  vm_compute. intros H. repeat (apply elem_of_cons in H as [H|H]; [discriminate|]). by apply elem_of_nil in H.
Defined.

Lemma term_200 w k : get_tapping_term (fw_vial w) k <= 200.
Proof.
  assert (Hq : qs_get_tapping_term (settings vial) = 200) by (vm_compute; reflexivity).
  unfold get_tapping_term. change (fw_vial w) with vial. rewrite Hq.
  case_if; [|done]. unfold dynamic_keymap_get_tap_dance.
  change VIAL_TAP_DANCE_ENTRIES with 1. destruct (1 <=? u8 (k .& 255)) eqn:Hi; [done|].
  assert (Hk : u8 (k .& 255) = 0) by (pose proof (u8_range (k .& 255)) as Hr; lia).
  rewrite Hk. vm_compute. discriminate.
Qed.

Lemma tapping_drains_witness :
  pending (tapping_run (session ++ replicate 15 (MAKE_TICK_EVENT 2000)) (tapping_start tt)) = [].
Proof.
  refine (proj1 (tapping_drains 200 2000 tt session term_200 _)).
  repeat constructor; vm_compute; discriminate.
Defined.

Lemma tap_or_hold_witness :
  log (tapping_run [up tap_key 1100] (tapping_run [down tap_key 1000; MAKE_TICK_EVENT 1050] (tapping_start tt)))
  = [Processed (set_count 1 (press tap_key 1000)); Processed (set_count 1 (event_record (up tap_key 1100)))].
Proof.
  refine (proj1 (proj2 (tap_or_hold (tapping_start tt) tap_key 1000 [1050] (tapping_start_wf tt) eq_refl eq_refl
            _ _)) 1100 _ eq_refl); [vm_compute; reflexivity|constructor; [vm_compute; reflexivity|constructor]
            |vm_compute; reflexivity].
Defined.
End witnesses.
