(* ===== verification/TappingReplay.v ===== *)
(** The world after the tapping code is its log replayed: what the machine did
    to the rest of the firmware is exactly the calls in the log of
    [TappingProofs], in that order, and keeping the log changes nothing. *)

From S2P Require Import Prelude.
From S2P Require Import Eeprom.
From S2P Require Import DynamicKeymap.
From S2P Require Import QmkSettings.
From S2P Require Import Vial.
From S2P Require Import KeycodeConfig.
From S2P Require Import KeymapCommon.
From S2P Require Import Keyboard.
From S2P Require Import ActionTapping.
From S2P Require Import TappingProofs.
From S2P Require Import TappingTheorems.

Section replay.
Context {W E : Type} {fw : Firmware W E} {eeprom : Eeprom E} {cfg : KeymapConfig}
        {qcfg : QmkSettingsConfig}.
Implicit Types (s : tapping (W * list tap_call)) (record keyp : keyrecord_t) (w : W).

(** The state without the log. *)
Definition unlogged s : tapping W :=
  mk_tapping (tapping_key s) (waiting_buffer s) (waiting_buffer_head s) (waiting_buffer_tail s) (world s).1.

Definition do_call w (c : tap_call) : W :=
  match c with
  | Processed record => (process_record record w).2
  | Cleared => fw_clear_keyboard w
  end.
Definition replay (calls : list tap_call) w : W := foldl do_call w calls.

(** [t] is [s] without its log, which leads from [w0] to its world. *)
Definition follows w0 s (t : tapping W) : Prop := t = unlogged s /\ world t = replay (log s) w0.
Definition result_follows w0 (res : bool * keyrecord_t * tapping (W * list tap_call))
    (plain : bool * keyrecord_t * tapping W) : Prop :=
  plain.1 = res.1 /\ follows w0 res.2 plain.2.

Lemma process_follows w0 record s t : follows w0 s t ->
  (process record t).1 = (process record s).1 /\ follows w0 (process record s).2 (process record t).2.
Proof.
  intros [-> Hw]. unfold process, unlogged in *. cbn in *.
  destruct (process_record record (world s).1) as [kept w'] eqn:Ep. cbn. split; [done|]. split; [done|].
  cbn. unfold log, replay. cbn. rewrite foldl_app. cbn. unfold log, replay in Hw. rewrite <- Hw, Ep. done.
Qed.

Lemma tapping_key_follows w0 s t : follows w0 s t -> tapping_key t = tapping_key s.
Proof. by intros [-> _]. Qed.

Lemma set_key_follows w0 record s t : follows w0 s t ->
  follows w0 (set_tapping_key record s) (set_tapping_key record t).
Proof. intros [-> H]. split; [done|exact H]. Qed.
Lemma set_ring_follows w0 h tl s t : follows w0 s t -> follows w0 (set_ring h tl s) (set_ring h tl t).
Proof. intros [-> H]. split; [done|exact H]. Qed.
Lemma set_buffer_follows w0 i record s t : follows w0 s t ->
  follows w0 (set_buffer_at i record s) (set_buffer_at i record t).
Proof. intros [-> H]. split; [done|exact H]. Qed.

Lemma process_key_follows w0 s t : follows w0 s t -> follows w0 (process_tapping_key s) (process_tapping_key t).
Proof.
  intros H. unfold process_tapping_key. rewrite (tapping_key_follows w0 s t H).
  destruct (process_follows w0 (tapping_key s) s t H) as [H1 H2].
  destruct (process (tapping_key s) s), (process (tapping_key s) t). cbn in *. subst. by apply set_key_follows.
Qed.

Lemma scan_follows w0 s t : follows w0 s t -> follows w0 (waiting_buffer_scan_tap s) (waiting_buffer_scan_tap t).
Proof.
  intros H. pose proof H as [Ht _]. unfold waiting_buffer_scan_tap.
  assert (Hf : find (scan_candidate t) (waiting t) = find (scan_candidate s) (waiting s)) by (by subst t).
  rewrite Hf, (tapping_key_follows w0 s t H). clear Hf. case_if; [exact H|]. destruct (find _ _) as [i|]; [|exact H].
  apply process_key_follows. assert (Hb : forall r, buffer_at (set_tapping_key r t) i = buffer_at (set_tapping_key r s) i)
    by (by subst t). rewrite Hb. by apply set_buffer_follows, set_key_follows.
Qed.

Lemma start_follows w0 keyp s t : follows w0 s t -> follows w0 (start_while_tapped keyp s) (start_while_tapped keyp t).
Proof.
  intros H. pose proof H as [Ht _]. unfold start_while_tapped. rewrite (tapping_key_follows w0 s t H).
  assert (Hr : tap_release (rec_event keyp) t = tap_release (rec_event keyp) s) by (by subst t). rewrite Hr.
  apply scan_follows, set_key_follows. case_if; [apply process_follows|]; exact H.
Qed.

(** A record processed on both sides, and what the state machine makes of it. *)
Lemma process_result w0 (ok : bool) keyp s t (f : keyrecord_t -> keyrecord_t -> keyrecord_t) : follows w0 s t ->
  result_follows w0
    (let '(keyp, s) := process keyp s in (ok, keyp, set_tapping_key (f keyp (tapping_key s)) s))
    (let '(keyp, s) := process keyp t in (ok, keyp, set_tapping_key (f keyp (tapping_key s)) s)).
Proof.
  intros H. destruct (process_follows w0 keyp s t H) as [H1 H2].
  destruct (process keyp s) as [r1 s1], (process keyp t) as [r2 s2]. cbn in H1, H2. subst r2.
  split; [done|]. cbn [snd]. rewrite (tapping_key_follows _ _ _ H2). by apply set_key_follows.
Qed.

Lemma set_key_same {V} (u : tapping V) : set_tapping_key (tapping_key u) u = u.
Proof. by destruct u. Qed.

Lemma process_result_same w0 keyp s t : follows w0 s t ->
  result_follows w0 (let '(keyp, s) := process keyp s in (true, keyp, s))
    (let '(keyp, s) := process keyp t in (true, keyp, s)).
Proof.
  intros H. pose proof (process_result w0 true keyp s t (fun _ r => r) H) as Hr. revert Hr.
  destruct (process keyp s), (process keyp t). by rewrite !set_key_same.
Qed.

Create HintDb follows.
#[local] Hint Resolve process_key_follows scan_follows start_follows set_key_follows set_ring_follows
  set_buffer_follows process_result_same : follows.

Lemma process_tapping_follows w0 keyp s t : follows w0 s t ->
  result_follows w0 (process_tapping keyp s) (process_tapping keyp t).
Proof.
  intros H. pose proof H as [-> _].
  unfold process_tapping, tapping_reset, tapping_undecided, tapping_tapped, tapping_timeout, tapping_released.
  change (is_tap_record keyp (world (unlogged s))) with (is_tap_record keyp (world s)).
  change (WITHIN_TAPPING_TERM (rec_event keyp) (unlogged s)) with (WITHIN_TAPPING_TERM (rec_event keyp) s).
  change (WITHIN_QUICK_TAP_TERM (rec_event keyp) (unlogged s)) with (WITHIN_QUICK_TAP_TERM (rec_event keyp) s).
  change (IS_TAPPING_RECORD keyp (unlogged s)) with (IS_TAPPING_RECORD keyp s).
  change (waiting_buffer_typed (rec_event keyp) (unlogged s)) with (waiting_buffer_typed (rec_event keyp) s).
  change (retained_release keyp (unlogged s)) with (retained_release keyp s).
  change (TAP_GET_PERMISSIVE_HOLD (unlogged s)) with (TAP_GET_PERMISSIVE_HOLD s).
  change (TAP_GET_HOLD_ON_OTHER_KEY_PRESS (unlogged s)) with (TAP_GET_HOLD_ON_OTHER_KEY_PRESS s).
  change (tapping_key (unlogged s)) with (tapping_key s).
  repeat case_if;
    first [ solve [eauto with follows]
          | solve [exact (process_result w0 true _ s _ (fun r _ => r) H)]
          | solve [exact (process_result w0 true _ s _ (fun _ _ => zero_record) H)]
          | split; cbn [fst snd];
            [f_equal; f_equal; try (symmetry; erewrite <- tapping_key_follows); eauto with follows|eauto with follows]].
Qed.

Lemma process_waiting_follows w0 n s t : follows w0 s t -> follows w0 (process_waiting n s) (process_waiting n t).
Proof.
  revert s t. induction n as [|n IH]; intros s t H; [done|]. cbn [process_waiting]. pose proof H as [Ht _].
  assert (E1 : waiting_buffer_tail t = waiting_buffer_tail s) by (by subst t).
  assert (E2 : waiting_buffer_head t = waiting_buffer_head s) by (by subst t).
  assert (E3 : forall i, buffer_at t i = buffer_at s i) by (by subst t).
  rewrite E1, E2, E3. case_if; [exact H|]. set (r := buffer_at s _).
  destruct (process_tapping_follows w0 r s t H) as [H1 H2].
  destruct (process_tapping r s) as [[ok r1] s1], (process_tapping r t) as [[ok' r2] t1]. cbn in H1, H2.
  injection H1 as -> ->. pose proof H2 as [Ht1 _]. destruct ok.
  - assert (E4 : waiting_buffer_head (set_buffer_at (waiting_buffer_tail s) r1 t1)
                 = waiting_buffer_head (set_buffer_at (waiting_buffer_tail s) r1 s1)) by (by subst t1).
    assert (E5 : waiting_buffer_tail (set_buffer_at (waiting_buffer_tail s) r1 t1)
                 = waiting_buffer_tail (set_buffer_at (waiting_buffer_tail s) r1 s1)) by (by subst t1).
    rewrite E4, E5. apply IH. auto with follows.
  - auto with follows.
Qed.

Lemma action_tapping_follows w0 record s t : follows w0 s t ->
  follows w0 (action_tapping_process record s) (action_tapping_process record t).
Proof.
  intros H. unfold action_tapping_process.
  destruct (process_tapping_follows w0 record s t H) as [H1 H2].
  destruct (process_tapping record s) as [[ok r1] s1], (process_tapping record t) as [[ok' r2] t1]. cbn in H1, H2.
  injection H1 as -> ->. apply process_waiting_follows. destruct ok; [exact H2|]. pose proof H2 as [-> Hw]. unfold waiting_buffer_enq.
  cbn [unlogged waiting_buffer_head waiting_buffer_tail]. case_if; [exact H2|]. case_if.
  - split; [done|]. cbn. unfold log, replay in *. cbn in *. by rewrite foldl_app, <- Hw.
  - split; [done|]. exact Hw.
Qed.

(** A state of the plain machine with an empty log. *)
Definition with_log (t : tapping W) : tapping (W * list tap_call) :=
  mk_tapping (tapping_key t) (waiting_buffer t) (waiting_buffer_head t) (waiting_buffer_tail t) (world t, []).

Lemma with_log_follows t : follows (world t) (with_log t) t.
Proof. by destruct t. Qed.

(** The machine holds [tk] and nothing waits. *)
Definition resting (tk : keyrecord_t) (t : tapping W) : Prop := holds tk [] (world t, []) (with_log t).

Lemma holds_world tk q (w w' : W * list tap_call) s s' : holds tk q w s ->
  tapping_key s' = tapping_key s -> waiting_buffer s' = waiting_buffer s ->
  waiting_buffer_head s' = waiting_buffer_head s -> waiting_buffer_tail s' = waiting_buffer_tail s ->
  world s' = w' -> holds tk q w' s'.
Proof.
  intros (Hs & Htk & Hq & _) E1 E2 E3 E4 E5.
  assert (Hr : queue s' = queue s) by (unfold queue, waiting, buffer_at; by rewrite E2, E3, E4).
  destruct Hs as [[H1 H2 H3] H4 H5]. split_and!; [|by rewrite E1|by rewrite Hr|done].
  split; [split; by rewrite ?E2, ?E3, ?E4|by rewrite Hr|by rewrite Hr].
Qed.

Lemma resting_world tk t w : resting tk t -> resting tk (set_world w t).
Proof. intros H. by apply (holds_world _ _ _ _ _ _ H). Qed.

(** One call, by its log and by what it leaves. *)
Lemma tapping_world record t calls :
  log (action_tapping_process record (with_log t)) = calls ->
  world (action_tapping_process record t) = replay calls (world t).
Proof. intros <-. apply (action_tapping_follows _ record _ _ (with_log_follows t)). Qed.

Lemma tapping_rests record t tk w calls :
  holds tk [] (w, calls) (action_tapping_process record (with_log t)) ->
  resting tk (action_tapping_process record t)
  /\ world (action_tapping_process record t) = replay calls (world t).
Proof.
  intros Hh. split; [|apply tapping_world; unfold log; by destruct Hh as (_ & _ & _ & ->)].
  destruct (action_tapping_follows _ record _ _ (with_log_follows t)) as [-> _].
  by apply (holds_world _ _ _ _ _ _ Hh).
Qed.
End replay.
