(* ===== verification/MouseKey.v ===== *)
(** Mouse keys: [quantum/mousekey.c], in its default mode (constant or
    accelerated speed; not the three-speed, kinetic, combined or inertia modes).
    The speed parameters are those of the QMK settings. Arithmetic on [int] is
    that of a 32-bit target. *)

From S2P Require Import Prelude.
From S2P Require Import Eeprom.
From S2P Require Import DynamicKeymap.
From S2P Require Import QmkSettings.
From S2P Require Import Report.
From S2P Require Import KeymapBuffer.
From S2P Require Import ViaReset.

Definition QK_MOUSE_CURSOR_UP : Z := 0xCD.
Definition QK_MOUSE_CURSOR_DOWN : Z := 0xCE.
Definition QK_MOUSE_CURSOR_LEFT : Z := 0xCF.
Definition QK_MOUSE_CURSOR_RIGHT : Z := 0xD0.
Definition QK_MOUSE_BUTTON_1 : Z := 0xD1.
Definition QK_MOUSE_BUTTON_8 : Z := 0xD8.
Definition QK_MOUSE_WHEEL_UP : Z := 0xD9.
Definition QK_MOUSE_WHEEL_DOWN : Z := 0xDA.
Definition QK_MOUSE_WHEEL_LEFT : Z := 0xDB.
Definition QK_MOUSE_WHEEL_RIGHT : Z := 0xDC.
Definition QK_MOUSE_ACCELERATION_0 : Z := 0xDD.
Definition QK_MOUSE_ACCELERATION_1 : Z := 0xDE.
Definition QK_MOUSE_ACCELERATION_2 : Z := 0xDF.

Definition IS_MOUSEKEY_BUTTON (code : Z) : bool := (QK_MOUSE_BUTTON_1 <=? code) && (code <=? QK_MOUSE_BUTTON_8).

(** The limits of the report and the wheel step, options of the keyboard. *)
Class MouseKeyConfig := {
  MOUSEKEY_MOVE_MAX : Z;
  MOUSEKEY_WHEEL_MAX : Z;
  MOUSEKEY_WHEEL_DELTA : Z;
}.

(** The preprocessor refuses a limit over 127. *)
Class MouseKeyConfigOk {mcfg : MouseKeyConfig} : Prop := {
  move_max_ok : 1 <= MOUSEKEY_MOVE_MAX <= 127;
  wheel_max_ok : 1 <= MOUSEKEY_WHEEL_MAX <= 127;
  wheel_delta_ok : 0 <= MOUSEKEY_WHEEL_DELTA < 256;
}.

(** Conversions to [int8_t] and [int16_t]. *)
Definition i8 (z : Z) : Z := (z + 128) mod 256 - 128.
Definition i16 (z : Z) : Z := (z + 32768) mod 65536 - 32768.

Definition times_inv_sqrt2 (x : Z) : Z :=
  let n := i16 (x * 181) in
  let d := 256 in
  i8 (if n <? 0 then Z.quot (n - d / 2) d else Z.quot (n + d / 2) d).

(** The statics of the file, and the reports sent to the host, the latest
    first. *)
Record mouse_st := mk_mouse_st {
  mouse_report : Report.mouse_report;
  mousekey_accel : Z;
  mousekey_repeat : Z;
  mousekey_wheel_repeat : Z;
  last_timer_c : Z;
  last_timer_w : Z;
  mouse_sent : list Report.mouse_report;
}.

Definition no_motion : Report.mouse_report := mk_mouse 0 0 0 0 0.
Definition set_x (x : Z) (r : Report.mouse_report) : Report.mouse_report :=
  mk_mouse (buttons r) x (mouse_y r) (mouse_v r) (mouse_h r).
Definition set_y (y : Z) (r : Report.mouse_report) : Report.mouse_report :=
  mk_mouse (buttons r) (mouse_x r) y (mouse_v r) (mouse_h r).
Definition set_v (v : Z) (r : Report.mouse_report) : Report.mouse_report :=
  mk_mouse (buttons r) (mouse_x r) (mouse_y r) v (mouse_h r).
Definition set_h (h : Z) (r : Report.mouse_report) : Report.mouse_report :=
  mk_mouse (buttons r) (mouse_x r) (mouse_y r) (mouse_v r) h.
Definition set_buttons (b : Z) (r : Report.mouse_report) : Report.mouse_report :=
  mk_mouse b (mouse_x r) (mouse_y r) (mouse_v r) (mouse_h r).

Definition set_report (r : Report.mouse_report) (s : mouse_st) : mouse_st :=
  mk_mouse_st r (mousekey_accel s) (mousekey_repeat s) (mousekey_wheel_repeat s) (last_timer_c s)
    (last_timer_w s) (mouse_sent s).
Definition set_accel (a : Z) (s : mouse_st) : mouse_st :=
  mk_mouse_st (mouse_report s) a (mousekey_repeat s) (mousekey_wheel_repeat s) (last_timer_c s)
    (last_timer_w s) (mouse_sent s).
Definition set_repeat (n : Z) (s : mouse_st) : mouse_st :=
  mk_mouse_st (mouse_report s) (mousekey_accel s) n (mousekey_wheel_repeat s) (last_timer_c s)
    (last_timer_w s) (mouse_sent s).
Definition set_wheel_repeat (n : Z) (s : mouse_st) : mouse_st :=
  mk_mouse_st (mouse_report s) (mousekey_accel s) (mousekey_repeat s) n (last_timer_c s)
    (last_timer_w s) (mouse_sent s).

Definition mouse_start : mouse_st := mk_mouse_st no_motion 0 0 0 0 0 [].

Section mousekey.
Context {E : Type} {mcfg : MouseKeyConfig}.
Implicit Types (q : qs_state E) (s : mouse_st).

(** [#define QS_mousekey_move_delta (QS.mousekey_move_delta)]. *)
Definition QS_move_delta q : Z := QS16 q QS_mousekey_move_delta.

Definition clamp_unit (unit max : Z) : Z := if max <? unit then max else if unit =? 0 then 1 else unit.

Definition move_unit q s : Z :=
  let max_speed := mk_max_speed (mousekey q) in
  let time_to_max := mk_time_to_max (mousekey q) in
  let unit :=
    u16 (if truthy (mousekey_accel s .& (1 << 0)) then QS_move_delta q * max_speed / 4
         else if truthy (mousekey_accel s .& (1 << 1)) then QS_move_delta q * max_speed / 2
         else if truthy (mousekey_accel s .& (1 << 2)) then QS_move_delta q * max_speed
         else if mousekey_repeat s =? 0 then QS_move_delta q
         else if time_to_max <=? mousekey_repeat s then QS_move_delta q * max_speed
         else QS_move_delta q * max_speed * mousekey_repeat s / time_to_max) in
  clamp_unit unit MOUSEKEY_MOVE_MAX.

Definition wheel_unit q s : Z :=
  let max_speed := mk_wheel_max_speed (mousekey q) in
  let time_to_max := mk_wheel_time_to_max (mousekey q) in
  let unit :=
    u16 (if truthy (mousekey_accel s .& (1 << 0)) then MOUSEKEY_WHEEL_DELTA * max_speed / 4
         else if truthy (mousekey_accel s .& (1 << 1)) then MOUSEKEY_WHEEL_DELTA * max_speed / 2
         else if truthy (mousekey_accel s .& (1 << 2)) then MOUSEKEY_WHEEL_DELTA * max_speed
         else if mousekey_wheel_repeat s =? 0 then MOUSEKEY_WHEEL_DELTA
         else if time_to_max <=? mousekey_wheel_repeat s then MOUSEKEY_WHEEL_DELTA * max_speed
         else MOUSEKEY_WHEEL_DELTA * max_speed * mousekey_wheel_repeat s / time_to_max) in
  clamp_unit unit MOUSEKEY_WHEEL_MAX.

(** [now] is [timer_read()]. *)
Definition mousekey_send (now : Z) s : mouse_st :=
  let r := mouse_report s in
  mk_mouse_st r (mousekey_accel s) (mousekey_repeat s) (mousekey_wheel_repeat s)
    (if truthy (mouse_x r) || truthy (mouse_y r) then now else last_timer_c s)
    (if truthy (mouse_v r) || truthy (mouse_h r) then now else last_timer_w s)
    (r :: mouse_sent s).

Definition should_mousekey_report_send (r : Report.mouse_report) : bool :=
  truthy (mouse_x r) || truthy (mouse_y r) || truthy (mouse_v r) || truthy (mouse_h r).

Definition signum (z : Z) : Z := if 0 <? z then 1 else -1.
(** [x = times_inv_sqrt2(x); if (x == 0) x = 1;] *)
Definition diagonal (x : Z) : Z := let x := times_inv_sqrt2 x in if x =? 0 then 1 else x.

(** The two [if] blocks of [mousekey_task]; [tmpmr] is the report before. *)
Definition task_move q (tmpmr : Report.mouse_report) (now : Z) s : mouse_st :=
  if (truthy (mouse_x tmpmr) || truthy (mouse_y tmpmr))
     && ((if truthy (mousekey_repeat s) then mk_interval (mousekey q) else mk_delay (mousekey q) * 10)
         <? TIMER_DIFF_16 now (last_timer_c s))
  then
    let s := if negb (mousekey_repeat s =? 255) then set_repeat (mousekey_repeat s + 1) s else s in
    let r := mouse_report s in
    let r := if negb (mouse_x tmpmr =? 0) then set_x (move_unit q s * signum (mouse_x tmpmr)) r else r in
    let r := if negb (mouse_y tmpmr =? 0) then set_y (move_unit q s * signum (mouse_y tmpmr)) r else r in
    let r := if truthy (mouse_x r) && truthy (mouse_y r)
             then set_y (diagonal (mouse_y r)) (set_x (diagonal (mouse_x r)) r) else r in
    set_report r s
  else s.

Definition task_wheel q (tmpmr : Report.mouse_report) (now : Z) s : mouse_st :=
  if (truthy (mouse_v tmpmr) || truthy (mouse_h tmpmr))
     && ((if truthy (mousekey_wheel_repeat s) then mk_wheel_interval (mousekey q)
          else mk_wheel_delay (mousekey q) * 10)
         <? TIMER_DIFF_16 now (last_timer_w s))
  then
    let s := if negb (mousekey_wheel_repeat s =? 255) then set_wheel_repeat (mousekey_wheel_repeat s + 1) s else s in
    let r := mouse_report s in
    let r := if negb (mouse_v tmpmr =? 0) then set_v (wheel_unit q s * signum (mouse_v tmpmr)) r else r in
    let r := if negb (mouse_h tmpmr =? 0) then set_h (wheel_unit q s * signum (mouse_h tmpmr)) r else r in
    let r := if truthy (mouse_v r) && truthy (mouse_h r)
             then set_h (diagonal (mouse_h r)) (set_v (diagonal (mouse_v r)) r) else r in
    set_report r s
  else s.

Definition mousekey_task q (now : Z) s : mouse_st :=
  let tmpmr := mouse_report s in
  let s := set_report (mk_mouse (buttons tmpmr) 0 0 0 0) s in
  let s := task_wheel q tmpmr now (task_move q tmpmr now s) in
  let s :=
    if has_mouse_report_changed (mouse_report s) tmpmr || should_mousekey_report_send (mouse_report s)
    then mousekey_send now s else s in
  set_report tmpmr s.

Definition mousekey_on q (code : Z) s : mouse_st :=
  let r := mouse_report s in
  if code =? QK_MOUSE_CURSOR_UP then set_report (set_y (move_unit q s * -1) r) s
  else if code =? QK_MOUSE_CURSOR_DOWN then set_report (set_y (move_unit q s) r) s
  else if code =? QK_MOUSE_CURSOR_LEFT then set_report (set_x (move_unit q s * -1) r) s
  else if code =? QK_MOUSE_CURSOR_RIGHT then set_report (set_x (move_unit q s) r) s
  else if code =? QK_MOUSE_WHEEL_UP then set_report (set_v (wheel_unit q s) r) s
  else if code =? QK_MOUSE_WHEEL_DOWN then set_report (set_v (wheel_unit q s * -1) r) s
  else if code =? QK_MOUSE_WHEEL_LEFT then set_report (set_h (wheel_unit q s * -1) r) s
  else if code =? QK_MOUSE_WHEEL_RIGHT then set_report (set_h (wheel_unit q s) r) s
  else if IS_MOUSEKEY_BUTTON code then
    set_report (set_buttons (u8 (buttons r .| (1 << (code - QK_MOUSE_BUTTON_1)))) r) s
  else if code =? QK_MOUSE_ACCELERATION_0 then set_accel (u8 (mousekey_accel s .| (1 << 0))) s
  else if code =? QK_MOUSE_ACCELERATION_1 then set_accel (u8 (mousekey_accel s .| (1 << 1))) s
  else if code =? QK_MOUSE_ACCELERATION_2 then set_accel (u8 (mousekey_accel s .| (1 << 2))) s
  else s.

Definition mousekey_off (code : Z) s : mouse_st :=
  let r := mouse_report s in
  let s :=
    if (code =? QK_MOUSE_CURSOR_UP) && (mouse_y r <? 0) then set_report (set_y 0 r) s
    else if (code =? QK_MOUSE_CURSOR_DOWN) && (0 <? mouse_y r) then set_report (set_y 0 r) s
    else if (code =? QK_MOUSE_CURSOR_LEFT) && (mouse_x r <? 0) then set_report (set_x 0 r) s
    else if (code =? QK_MOUSE_CURSOR_RIGHT) && (0 <? mouse_x r) then set_report (set_x 0 r) s
    else if (code =? QK_MOUSE_WHEEL_UP) && (0 <? mouse_v r) then set_report (set_v 0 r) s
    else if (code =? QK_MOUSE_WHEEL_DOWN) && (mouse_v r <? 0) then set_report (set_v 0 r) s
    else if (code =? QK_MOUSE_WHEEL_LEFT) && (mouse_h r <? 0) then set_report (set_h 0 r) s
    else if (code =? QK_MOUSE_WHEEL_RIGHT) && (0 <? mouse_h r) then set_report (set_h 0 r) s
    else if IS_MOUSEKEY_BUTTON code then
      set_report (set_buttons (u8 (buttons r .& Z.lnot (1 << (code - QK_MOUSE_BUTTON_1)))) r) s
    else if code =? QK_MOUSE_ACCELERATION_0 then set_accel (u8 (mousekey_accel s .& Z.lnot (1 << 0))) s
    else if code =? QK_MOUSE_ACCELERATION_1 then set_accel (u8 (mousekey_accel s .& Z.lnot (1 << 1))) s
    else if code =? QK_MOUSE_ACCELERATION_2 then set_accel (u8 (mousekey_accel s .& Z.lnot (1 << 2))) s
    else s in
  let s := if (mouse_x (mouse_report s) =? 0) && (mouse_y (mouse_report s) =? 0) then set_repeat 0 s else s in
  if (mouse_v (mouse_report s) =? 0) && (mouse_h (mouse_report s) =? 0) then set_wheel_repeat 0 s else s.

Definition mousekey_clear s : mouse_st :=
  mk_mouse_st no_motion 0 0 0 (last_timer_c s) (last_timer_w s) (mouse_sent s).

(** [register_mouse] of [quantum/action.c], without a pointing device. *)
Definition register_mouse q (code : Z) (pressed : bool) (now : Z) s : mouse_st :=
  mousekey_send now (if pressed then mousekey_on q code s else mousekey_off code s).
End mousekey.

(** ** Speeds *)

Section speeds.
Context {E : Type} {mcfg : MouseKeyConfig} {mok : MouseKeyConfigOk}.
Implicit Types (q : qs_state E) (s : mouse_st).

Lemma clamp_range unit max : 0 <= unit -> 1 <= max -> 1 <= clamp_unit unit max <= max.
Proof. intros. unfold clamp_unit. repeat case_if; b2p; lia. Qed.

Lemma move_unit_range q s : 1 <= move_unit q s <= MOUSEKEY_MOVE_MAX.
Proof. pose proof move_max_ok. apply clamp_range; [apply u16_range|lia]. Qed.
Lemma wheel_unit_range q s : 1 <= wheel_unit q s <= MOUSEKEY_WHEEL_MAX.
Proof. pose proof wheel_max_ok. apply clamp_range; [apply u16_range|lia]. Qed.

(** A diagonal step is no longer than a straight one, and not in another
    direction. *)
Definition shrinks (x : Z) : bool :=
  (x =? 0) || (if 0 <? x then (1 <=? diagonal x) && (diagonal x <=? x) else (x <=? diagonal x) && (diagonal x <=? -1)).

Lemma diagonal_shrinks x : -127 <= x <= 127 -> shrinks x = true.
Proof.
  intros Hx. assert (H : forallb (fun n => shrinks (Z.of_nat n - 127)) (seq 0 255) = true) by (vm_compute; reflexivity).
  rewrite forallb_forall in H. specialize (H (Z.to_nat (x + 127))).
  replace (Z.of_nat (Z.to_nat (x + 127)) - 127) with x in H by lia. apply H. apply in_seq. lia.
Qed.

Lemma diagonal_sign x m : 1 <= m <= 127 -> - m <= x <= m ->
  - m <= diagonal x <= m /\ (0 < x -> 0 < diagonal x) /\ (x < 0 -> diagonal x < 0).
Proof.
  intros Hm Hx. pose proof (diagonal_shrinks x ltac:(lia)) as H. unfold shrinks in H.
  destruct (x =? 0) eqn:E0; b2p; [subst x; change (diagonal 0) with 1; lia|]. cbn [orb] in H.
  destruct (0 <? x) eqn:E1; b2p; split_and?; b2p; lia.
Qed.

(** Faster with every repetition, up to the full speed. *)
Lemma move_unit_mono q s s' :
  mousekey_accel s = 0 -> mousekey_accel s' = 0 -> 0 < mousekey_repeat s <= mousekey_repeat s' ->
  0 <= QS_move_delta q -> 0 <= mk_max_speed (mousekey q) ->
  QS_move_delta q * mk_max_speed (mousekey q) < 65536 ->
  move_unit q s <= move_unit q s'
  /\ (mk_time_to_max (mousekey q) <= mousekey_repeat s' ->
      move_unit q s' = clamp_unit (QS_move_delta q * mk_max_speed (mousekey q)) MOUSEKEY_MOVE_MAX).
Proof.
  intros Ha Ha' Hr Hd Hm Hp. unfold move_unit. rewrite Ha, Ha'. cbn [Z.land truthy Z.eqb negb].
  set (full := QS_move_delta q * mk_max_speed (mousekey q)) in *. set (ttm := mk_time_to_max _).
  assert (Hf : 0 <= full) by (unfold full; nia). pose proof move_max_ok.
  rewrite !(proj2 (Z.eqb_neq (mousekey_repeat _) 0)) by lia.
  assert (Hpart : forall r, 0 < r < ttm -> 0 <= full * r / ttm <= full).
  { intros r Hr'. split; [apply Z.div_pos; nia|]. apply Z.div_le_upper_bound; nia. }
  assert (Hu : forall z, 0 <= z <= full -> u16 z = z) by (intros z Hz; apply Z.mod_small; lia).
  assert (Hc : forall a b, 0 <= a <= b -> clamp_unit a MOUSEKEY_MOVE_MAX <= clamp_unit b MOUSEKEY_MOVE_MAX)
    by (intros a b Hab; unfold clamp_unit; repeat case_if; b2p; lia).
  split.
  - repeat case_if; b2p; rewrite ?Hu by (try apply Hpart; lia); try lia; apply Hc.
    + split; [apply Hpart; lia|]. apply Hpart; lia.
    + split; [apply Hpart; lia|]. apply Z.div_le_mono; [lia|]. apply Z.mul_le_mono_nonneg_l; lia.
  - intros Ht. repeat case_if; try done; b2p; try lia. by rewrite Hu by lia.
Qed.
End speeds.

(** ** Histories

    The settings may be others at each event. *)

Inductive mouse_event :=
| MouseKey (code : Z) (pressed : bool) (now : Z)
| MouseTask (now : Z)
| MouseClear.

(** The keys that are down after an event. *)
Definition held_step (held : Z -> bool) (ev : mouse_event) : Z -> bool :=
  match ev with
  | MouseKey code pressed _ => fun k => if k =? code then pressed else held k
  | MouseTask _ => held
  | MouseClear => fun _ => false
  end.

(** The report moves only as the keys say that are down. *)
Definition follows (held : Z -> bool) (r : Report.mouse_report) : Prop :=
  (0 < mouse_x r -> held QK_MOUSE_CURSOR_RIGHT = true) /\ (mouse_x r < 0 -> held QK_MOUSE_CURSOR_LEFT = true)
  /\ (0 < mouse_y r -> held QK_MOUSE_CURSOR_DOWN = true) /\ (mouse_y r < 0 -> held QK_MOUSE_CURSOR_UP = true)
  /\ (0 < mouse_v r -> held QK_MOUSE_WHEEL_UP = true) /\ (mouse_v r < 0 -> held QK_MOUSE_WHEEL_DOWN = true)
  /\ (0 < mouse_h r -> held QK_MOUSE_WHEEL_RIGHT = true) /\ (mouse_h r < 0 -> held QK_MOUSE_WHEEL_LEFT = true).

Section histories.
Context {E : Type} {mcfg : MouseKeyConfig} {mok : MouseKeyConfigOk}.
Implicit Types (q : qs_state E) (s : mouse_st) (r : Report.mouse_report) (held : Z -> bool).

Definition mouse_step q (ev : mouse_event) s : mouse_st :=
  match ev with
  | MouseKey code pressed now => register_mouse q code pressed now s
  | MouseTask now => mousekey_task q now s
  | MouseClear => mousekey_clear s
  end.
Definition mouse_run (evs : list (qs_state E * mouse_event)) s : mouse_st :=
  foldl (fun s '(q, ev) => mouse_step q ev s) s evs.
Definition held_run (evs : list (qs_state E * mouse_event)) : Z -> bool :=
  foldl (fun held '(_, ev) => held_step held ev) (fun _ => false) evs.

(** Within the range of the report descriptor, with the buttons in a byte. *)
Definition in_bounds r : Prop :=
  - MOUSEKEY_MOVE_MAX <= mouse_x r <= MOUSEKEY_MOVE_MAX /\ - MOUSEKEY_MOVE_MAX <= mouse_y r <= MOUSEKEY_MOVE_MAX
  /\ - MOUSEKEY_WHEEL_MAX <= mouse_v r <= MOUSEKEY_WHEEL_MAX
  /\ - MOUSEKEY_WHEEL_MAX <= mouse_h r <= MOUSEKEY_WHEEL_MAX /\ byte_range (buttons r).

Definition good held r : Prop := in_bounds r /\ follows held r.

(** One axis of a pair: zero, or in the direction of the axis before. *)
Definition along (max a b : Z) : Prop := - max <= b <= max /\ (0 < b -> 0 < a) /\ (b < 0 -> a < 0).

Lemma along_unit max a u : 1 <= u <= max -> a <> 0 -> along max a (u * signum a).
Proof. intros. unfold along, signum. case_if; b2p; split_and!; lia. Qed.
Lemma along_zero max a : 1 <= max -> along max a 0.
Proof. intros. split_and!; lia. Qed.

(** The two motions of a report, straight or diagonal. *)
Definition motion (u a b : Z) : Z * Z :=
  let x := if negb (a =? 0) then u * signum a else 0 in
  let y := if negb (b =? 0) then u * signum b else 0 in
  if truthy x && truthy y then (diagonal x, diagonal y) else (x, y).

Lemma motion_along max u a b : 1 <= max <= 127 -> 1 <= u <= max ->
  along max a (motion u a b).1 /\ along max b (motion u a b).2.
Proof.
  intros Hm Hu.
  assert (H : forall c, along max c (if negb (c =? 0) then u * signum c else 0)).
  { intros c. destruct (c =? 0) eqn:E0; b2p; cbn [negb]; [apply along_zero; lia|by apply along_unit]. }
  assert (Hd : forall c x, x <> 0 -> along max c x -> along max c (diagonal x)).
  { intros c x Hx (H1 & H2 & H3). destruct (diagonal_sign x max Hm H1) as (D1 & D2 & D3).
    destruct (Z.lt_trichotomy x 0) as [Hlt|[He|Hgt]]; [|done|]; split_and!; lia. }
  unfold motion. destruct (truthy _ && truthy _) eqn:E0; [|split; apply H].
  apply andb_true_iff in E0 as [E1%negb_true_iff%Z.eqb_neq E2%negb_true_iff%Z.eqb_neq].
  split; apply Hd; done || apply H.
Qed.

(** What a task that moves or turns the wheel sends. *)
Lemma task_report q now s : exists u w m n, 1 <= u <= MOUSEKEY_MOVE_MAX /\ 1 <= w <= MOUSEKEY_WHEEL_MAX
  /\ mouse_report (task_wheel q (mouse_report s) now (task_move q (mouse_report s) now
        (set_report (mk_mouse (buttons (mouse_report s)) 0 0 0 0) s)))
     = mk_mouse (buttons (mouse_report s)) m.1 m.2 n.1 n.2
  /\ (m = (0, 0) \/ m = motion u (mouse_x (mouse_report s)) (mouse_y (mouse_report s)))
  /\ (n = (0, 0) \/ n = motion w (mouse_v (mouse_report s)) (mouse_h (mouse_report s))).
Proof.
  set (s0 := set_report _ s). set (tmp := mouse_report s).
  assert (Hm : exists u m, 1 <= u <= MOUSEKEY_MOVE_MAX
    /\ mouse_report (task_move q tmp now s0) = mk_mouse (buttons tmp) m.1 m.2 0 0
    /\ (m = (0, 0) \/ m = motion u (mouse_x tmp) (mouse_y tmp))).
  { unfold task_move. destruct (_ && _).
    - set (s1 := if negb _ then _ else s0). pose proof (move_unit_range q s1) as Hu. revert Hu.
      assert (Hr : mouse_report s1 = mk_mouse (buttons tmp) 0 0 0 0) by (unfold s1; by case_if).
      rewrite Hr. generalize (move_unit q s1) as u. intros u Hu. exists u, (motion u (mouse_x tmp) (mouse_y tmp)).
      split_and!; [lia|lia| |by right]. unfold motion.
      destruct (mouse_x tmp =? 0), (mouse_y tmp =? 0); cbn [negb]; cbn; by repeat case_if.
    - exists 1, (0, 0). pose proof move_max_ok. split_and!; [lia|lia|done|by left]. }
  destruct Hm as (u & m & Hu & Hm & Hmot). revert Hm. generalize (task_move q tmp now s0) as s1. intros s1 Hm.
  unfold task_wheel. destruct (_ && _).
  - set (s2 := if negb _ then _ else s1). pose proof (wheel_unit_range q s2) as Hw. revert Hw.
    assert (Hr : mouse_report s2 = mk_mouse (buttons tmp) m.1 m.2 0 0) by (unfold s2; by case_if).
    rewrite Hr. generalize (wheel_unit q s2) as w. intros w Hw. exists u, w, m, (motion w (mouse_v tmp) (mouse_h tmp)).
    split_and!; [lia|lia|lia|lia| |done|by right]. unfold motion.
    destruct (mouse_v tmp =? 0), (mouse_h tmp =? 0); cbn [negb]; cbn; by repeat case_if.
  - exists u, 1, m, (0, 0). pose proof wheel_max_ok. split_and!; [lia|lia|lia|lia|done|done|by left].
Qed.

Lemma good_along held r m n : good held r ->
  along MOUSEKEY_MOVE_MAX (mouse_x r) m.1 -> along MOUSEKEY_MOVE_MAX (mouse_y r) m.2 ->
  along MOUSEKEY_WHEEL_MAX (mouse_v r) n.1 -> along MOUSEKEY_WHEEL_MAX (mouse_h r) n.2 ->
  good held (mk_mouse (buttons r) m.1 m.2 n.1 n.2).
Proof.
  intros [Hb Hf] (X1 & X2 & X3) (Y1 & Y2 & Y3) (V1 & V2 & V3) (H1 & H2 & H3).
  unfold good, in_bounds, follows in *. cbn [mouse_x mouse_y mouse_v mouse_h buttons]. intuition.
Qed.

Lemma on_good q code held s : good held (mouse_report s) ->
  good (fun k => if k =? code then true else held k) (mouse_report (mousekey_on q code s)).
Proof.
  intros [Hb Hf]. pose proof (move_unit_range q s) as Hu. pose proof (wheel_unit_range q s) as Hw.
  assert (Hf' : follows (fun k => if k =? code then true else held k) (mouse_report s)).
  { unfold follows in *. destruct Hf as (F1 & F2 & F3 & F4 & F5 & F6 & F7 & F8). split_and!; intros Hs; case_if; auto. }
  unfold mousekey_on. revert Hu Hw. generalize (move_unit q s) as u, (wheel_unit q s) as w. intros u w Hu Hw.
  unfold good, in_bounds, follows in *.
  repeat (match goal with |- context [if code =? ?k then _ else _] => destruct (Z.eqb_spec code k) as [->|_] end;
    [cbn [mouse_report set_report set_x set_y set_v set_h set_accel mouse_x mouse_y mouse_v mouse_h buttons] in *;
     intuition (lia || done)|]).
  case_if; cbn [mouse_report set_report set_buttons mouse_x mouse_y mouse_v mouse_h buttons];
    intuition; apply u8_range.
Qed.

(** A release stops its direction, when that is the one the report has. *)
Lemma off_report code s : let r := mouse_report s in exists b, mouse_report (mousekey_off code s) =
  mk_mouse b
    (if (code =? QK_MOUSE_CURSOR_LEFT) && (mouse_x r <? 0) || (code =? QK_MOUSE_CURSOR_RIGHT) && (0 <? mouse_x r)
     then 0 else mouse_x r)
    (if (code =? QK_MOUSE_CURSOR_UP) && (mouse_y r <? 0) || (code =? QK_MOUSE_CURSOR_DOWN) && (0 <? mouse_y r)
     then 0 else mouse_y r)
    (if (code =? QK_MOUSE_WHEEL_DOWN) && (mouse_v r <? 0) || (code =? QK_MOUSE_WHEEL_UP) && (0 <? mouse_v r)
     then 0 else mouse_v r)
    (if (code =? QK_MOUSE_WHEEL_LEFT) && (mouse_h r <? 0) || (code =? QK_MOUSE_WHEEL_RIGHT) && (0 <? mouse_h r)
     then 0 else mouse_h r)
  /\ (b = buttons r \/ byte_range b).
Proof.
  intros r. unfold r. clear r.
  assert (Hend : forall s1, mouse_report (let s1 := if (mouse_x (mouse_report s1) =? 0) && (mouse_y (mouse_report s1) =? 0)
      then set_repeat 0 s1 else s1 in
    if (mouse_v (mouse_report s1) =? 0) && (mouse_h (mouse_report s1) =? 0) then set_wheel_repeat 0 s1 else s1)
    = mouse_report s1) by (intros s1; cbv zeta; by repeat case_if).
  unfold mousekey_off. rewrite Hend. clear Hend.
  destruct s as [[b x y v h] a n wn tc tw l].
  cbn [mouse_report buttons mouse_x mouse_y mouse_v mouse_h set_report set_x set_y set_v set_h set_accel set_buttons].
  repeat (match goal with |- context [code =? ?k] => destruct (Z.eqb_spec code k) as [->|_] end;
    [vm_compute Z.eqb; cbn [andb orb]|]); cbn [andb orb]; rewrite ?orb_false_r;
    repeat match goal with |- context [if ?c then _ else _] => destruct c eqn:?E end;
    cbn [mouse_report set_report set_x set_y set_v set_h set_accel set_buttons buttons mouse_x mouse_y mouse_v mouse_h];
    eexists; (split; [reflexivity|]); first [by left|right; apply u8_range].
Qed.

Lemma off_good code held s : good held (mouse_report s) ->
  good (fun k => if k =? code then false else held k) (mouse_report (mousekey_off code s)).
Proof.
  intros [Hb Hf]. destruct (off_report code s) as (b & Hr & Hbr). rewrite Hr. clear Hr.
  unfold good, in_bounds, follows in *. destruct (mouse_report s) as [b0 x y v h].
  cbn [buttons mouse_x mouse_y mouse_v mouse_h] in *.
  destruct Hb as (B1 & B2 & B3 & B4 & B5), Hf as (F1 & F2 & F3 & F4 & F5 & F6 & F7 & F8).
  pose proof move_max_ok. pose proof wheel_max_ok.
  split; [split_and!; try (match goal with |- context [if ?c then _ else _] => destruct c end; lia); lia|].
  split_and!; intros Hs;
    (match goal with |- context [?k =? code] => destruct (Z.eqb_spec k code) as [<-|_] end;
    [exfalso; revert Hs; vm_compute Z.eqb; cbn [andb orb]; rewrite ?orb_false_r;
     match goal with |- context [if ?c then _ else _] => destruct c eqn:Ec end; b2p; lia
    |match type of Hs with context [if ?c then _ else _] => destruct c end; first [lia | auto]]).
Qed.

Lemma on_sent q code s : mouse_sent (mousekey_on q code s) = mouse_sent s.
Proof. unfold mousekey_on. by repeat case_if. Qed.
Lemma off_sent code s : mouse_sent (mousekey_off code s) = mouse_sent s.
Proof.
  unfold mousekey_off. set (s1 := if (code =? QK_MOUSE_CURSOR_UP) && _ then _ else _).
  assert (H : mouse_sent s1 = mouse_sent s) by (unfold s1; repeat (match goal with |- context [if ?c then _ else _] => destruct c end; try done)).
  by repeat case_if.
Qed.

Lemma step_good q ev held s : good held (mouse_report s) ->
  good (held_step held ev) (mouse_report (mouse_step q ev s))
  /\ exists l, mouse_sent (mouse_step q ev s) = l ++ mouse_sent s /\ Forall (good (held_step held ev)) l.
Proof.
  intros Hg. destruct ev as [code pressed now|now|]; cbn [mouse_step held_step].
  - unfold register_mouse. set (s1 := if pressed then _ else _).
    assert (Hs1 : good (fun k => if k =? code then pressed else held k) (mouse_report s1)
                  /\ mouse_sent s1 = mouse_sent s).
    { unfold s1. destruct pressed; [split; [by apply on_good|apply on_sent]|split; [by apply off_good|apply off_sent]]. }
    destruct Hs1 as [Hg1 Hs1]. split; [exact Hg1|]. exists [mouse_report s1]. cbn [mousekey_send mouse_sent app].
    rewrite Hs1. split; [done|]. constructor; [exact Hg1|constructor].
  - split; [exact Hg|]. unfold mousekey_task. set (s0 := set_report (mk_mouse _ 0 0 0 0) s).
    destruct (task_report q now s) as (u & w & m & n & Hu & Hw & Hr & Hm & Hn). fold s0 in Hr.
    set (s1 := task_wheel q _ now _) in *.
    assert (Hs1 : mouse_sent s1 = mouse_sent s).
    { unfold s1, task_wheel, task_move. repeat (match goal with |- context [if ?c then _ else _] => destruct c end; try done). }
    destruct (_ || _); cbn [set_report mouse_sent mousekey_send]; [|by exists []].
    exists [mouse_report s1]. rewrite Hs1. split; [done|]. constructor; [|constructor]. rewrite Hr.
    pose proof move_max_ok. pose proof wheel_max_ok.
    assert (Hz : forall max a, 1 <= max -> along max a 0) by (intros; by apply along_zero).
    assert (Hma : along MOUSEKEY_MOVE_MAX (mouse_x (mouse_report s)) m.1
                  /\ along MOUSEKEY_MOVE_MAX (mouse_y (mouse_report s)) m.2)
      by (destruct Hm as [->| ->]; [split; apply Hz; lia|apply motion_along; lia]).
    assert (Hna : along MOUSEKEY_WHEEL_MAX (mouse_v (mouse_report s)) n.1
                  /\ along MOUSEKEY_WHEEL_MAX (mouse_h (mouse_report s)) n.2)
      by (destruct Hn as [->| ->]; [split; apply Hz; lia|apply motion_along; lia]).
    destruct Hma, Hna. exact (good_along held _ m n Hg ltac:(done) ltac:(done) ltac:(done) ltac:(done)).
  - split; [|by exists []]. pose proof move_max_ok. pose proof wheel_max_ok.
    split; [split_and!; cbn; lia|unfold follows; split_and!; cbn; lia].
Qed.

Lemma run_good evs : good (held_run evs) (mouse_report (mouse_run evs mouse_start)).
Proof.
  induction evs as [|[q ev] evs IH] using rev_ind.
  - pose proof move_max_ok. pose proof wheel_max_ok.
    split; [split_and!; cbn; lia|unfold follows; split_and!; cbn; lia].
  - unfold mouse_run, held_run in *. rewrite !foldl_app. cbn [foldl]. by apply step_good.
Qed.

(** C22: mouse keys stay in bounds and never drift. Over any history of mouse
    keys, timer tasks and clears, with settings that may change at any time,
    every report sent fits the limits of the report descriptor, and it moves the
    pointer or turns a wheel in a direction only while the key of that direction
    is down; so with no mouse key down nothing moves. With the settings such that
    the full speed fits sixteen bits, a repeated motion never gets slower, and
    from the set repetition on it has the full speed (or the limit). *)
Theorem mouse_keys_in_bounds evs :
  let s := mouse_run evs mouse_start in
  (forall q ev, exists l, mouse_sent (mouse_step q ev s) = l ++ mouse_sent s
     /\ Forall (fun r => in_bounds r /\ follows (held_run (evs ++ [(q, ev)])) r) l)
  /\ ((forall k, held_run evs k = false) ->
      mouse_x (mouse_report s) = 0 /\ mouse_y (mouse_report s) = 0
      /\ mouse_v (mouse_report s) = 0 /\ mouse_h (mouse_report s) = 0)
  /\ (forall q s1 s2, mousekey_accel s1 = 0 -> mousekey_accel s2 = 0 ->
      0 < mousekey_repeat s1 <= mousekey_repeat s2 ->
      0 <= QS_move_delta q -> 0 <= mk_max_speed (mousekey q) ->
      QS_move_delta q * mk_max_speed (mousekey q) < 65536 ->
      move_unit q s1 <= move_unit q s2
      /\ (mk_time_to_max (mousekey q) <= mousekey_repeat s2 ->
          move_unit q s2 = clamp_unit (QS_move_delta q * mk_max_speed (mousekey q)) MOUSEKEY_MOVE_MAX)).
Proof.
  intros s. pose proof (run_good evs) as Hg. split_and!.
  - intros q ev. destruct (step_good q ev _ _ Hg) as (_ & l & Hl & Hf). exists l. split; [done|].
    unfold held_run in *. rewrite foldl_app. exact Hf.
  - intros Hk. destruct Hg as [_ (F1 & F2 & F3 & F4 & F5 & F6 & F7 & F8)]. rewrite !Hk in *. fold s in F1, F2, F3, F4, F5, F6, F7, F8.
    split_and!; match goal with |- ?a = 0 => destruct (Z.lt_trichotomy a 0) as [?|[?|?]] end; try done;
      exfalso; naive_solver.
  - intros q s1 s2. apply move_unit_mono.
Qed.
End histories.

Section witnesses.
#[local] Instance mcfg : MouseKeyConfig := {| MOUSEKEY_MOVE_MAX := 127; MOUSEKEY_WHEEL_MAX := 127; MOUSEKEY_WHEEL_DELTA := 1 |}.
#[local] Instance mok : MouseKeyConfigOk.
Proof. split; cbn; lia. Qed.

(** The defaults: step 8, full speed 10 after 30 repetitions. *)
Definition defaults : qs_state unit :=
  mk_qs tt (<[8%nat := 8]> (memset 0 36)) 0 0 (mk_mousekey 1 20 10 30 1 80 8 40) 0.

Definition pointer_right : list (qs_state unit * mouse_event) :=
  [(defaults, MouseKey QK_MOUSE_CURSOR_RIGHT true 100); (defaults, MouseTask 150);
   (defaults, MouseKey QK_MOUSE_CURSOR_RIGHT false 160)].

Example pointer_right_sent : map mouse_x (mouse_sent (mouse_run pointer_right mouse_start)) = [0; 2; 8].
Proof. vm_compute. reflexivity. Qed.

Lemma mouse_keys_in_bounds_witness :
  mouse_x (mouse_report (mouse_run pointer_right mouse_start)) = 0.
Proof.
  refine (proj1 (proj1 (proj2 (mouse_keys_in_bounds pointer_right)) _)).
  intros k. cbn [held_run pointer_right foldl held_step]. by destruct (k =? QK_MOUSE_CURSOR_RIGHT).
Defined.
End witnesses.
