(* ===== verification/ActionUtil.v ===== *)
(** Modifiers, one-shot modifiers and layers, and the reports sent to the host:
    [quantum/action_util.c], the key registration of [quantum/action.c]
    ([register_code] to [clear_keyboard]) and the 16-bit codes of
    [quantum/quantum.c]. The build has the extra keys and mouse keys, no swap
    hands, no locking-key support, no commands and no programmable buttons. *)

From S2P Require Import Prelude.
From S2P Require Import Bitwise.
From S2P Require Import Eeprom.
From S2P Require Import DynamicKeymap.
From S2P Require Import KeymapBuffer.
From S2P Require Import Eeconfig.
From S2P Require Import QmkSettings.
From S2P Require Import Vial.
From S2P Require Import ViaReset.
From S2P Require Import KeycodeConfig.
From S2P Require Import KeymapCommon.
From S2P Require Import ActionLayer.
From S2P Require Import Report.
From S2P Require Import MouseKey.
From S2P Require Import Keyboard.
From S2P Require Import VialDance.

Definition ONESHOT_PRESSED : Z := 1.
Definition ONESHOT_OTHER_KEY_PRESSED : Z := 2.
Definition ONESHOT_START : Z := 3.
Definition ONESHOT_TOGGLED : Z := 4.
Definition KC_EXSEL : Z := 0xA4.
Definition KC_SYSTEM_POWER : Z := 0xA5.
Definition KC_SYSTEM_WAKE : Z := 0xA7.
Definition KC_AUDIO_MUTE : Z := 0xA8.
Definition KC_LAUNCHPAD : Z := 0xC2.
Definition QK_MODS : Z := 0x0100.
Definition QK_LCTL : Z := 0x0100.
Definition QK_LSFT : Z := 0x0200.
Definition QK_LALT : Z := 0x0400.
Definition QK_LGUI : Z := 0x0800.
Definition QK_RMODS_MIN : Z := 0x1000.

Definition IS_BASIC_KEYCODE (code : Z) : bool := in_range KC_A KC_EXSEL code.
Definition IS_SYSTEM_KEYCODE (code : Z) : bool := in_range KC_SYSTEM_POWER KC_SYSTEM_WAKE code.
Definition IS_CONSUMER_KEYCODE (code : Z) : bool := in_range KC_AUDIO_MUTE KC_LAUNCHPAD code.
Definition IS_MOUSE_KEYCODE (code : Z) : bool := in_range QK_MOUSE_CURSOR_UP QK_MOUSE_ACCELERATION_2 code.
Definition MOD_BIT (code : Z) : Z := 1 << (code .& 7).

(** A report as it goes to the host: the modifiers, and the keys or the bits. *)
Record host_report := mk_host_report { report_nkro : bool; report_mods : Z; report_data : list Z }.
#[export] Instance host_report_eq_dec : EqDecision host_report.
Proof. solve_decision. Defined.

(** What the host is sent, apart from mouse reports. *)
Inductive host_call :=
| HostKeyboard (r : host_report)
| HostSystem (usage : Z)
| HostConsumer (usage : Z).

Record mods_st := mk_mods {
  real_mods : Z;
  weak_mods : Z;
  weak_override_mods : Z;
  suppressed_mods : Z;
  oneshot_mods : Z;
  oneshot_locked_mods : Z;
  oneshot_time : Z;
}.
Record oneshot_layer_st := mk_osl { oneshot_layer_data : Z; oneshot_layer_time : Z }.

(** The reports in the making, the last reports sent (statics of the two send
    functions) and everything sent, the latest first. *)
Record host_st := mk_host {
  reports_of : reports;
  last_report : host_report;
  last_nkro_report : host_report;
  sent : list host_call;
}.

(** The firmware around them: [now] is [timer_read()]. *)
Record kb (E : Type) := mk_kb {
  kb_vial : vial_state E;
  kb_layers : layer_st;
  kb_mods : mods_st;
  kb_osl : oneshot_layer_st;
  kb_host : host_st;
  kb_mouse : mouse_st;
  now : Z;
}.
Arguments mk_kb {E} _ _ _ _ _ _ _.
Arguments kb_vial {E} _.
Arguments kb_layers {E} _.
Arguments kb_mods {E} _.
Arguments kb_osl {E} _.
Arguments kb_host {E} _.
Arguments kb_mouse {E} _.
Arguments now {E} _.

Section modifiers.
Implicit Types (m : mods_st).

Definition set_real (v : Z) m : mods_st :=
  mk_mods v (weak_mods m) (weak_override_mods m) (suppressed_mods m) (oneshot_mods m) (oneshot_locked_mods m) (oneshot_time m).
Definition set_weak (v : Z) m : mods_st :=
  mk_mods (real_mods m) v (weak_override_mods m) (suppressed_mods m) (oneshot_mods m) (oneshot_locked_mods m) (oneshot_time m).
Definition set_override (weak suppressed : Z) m : mods_st :=
  mk_mods (real_mods m) (weak_mods m) weak suppressed (oneshot_mods m) (oneshot_locked_mods m) (oneshot_time m).
Definition set_oneshot (v t : Z) m : mods_st :=
  mk_mods (real_mods m) (weak_mods m) (weak_override_mods m) (suppressed_mods m) v (oneshot_locked_mods m) t.
Definition set_locked (v : Z) m : mods_st :=
  mk_mods (real_mods m) (weak_mods m) (weak_override_mods m) (suppressed_mods m) (oneshot_mods m) v (oneshot_time m).

Definition add_mods (mods : Z) m : mods_st := set_real (real_mods m .| mods) m.
Definition del_mods (mods : Z) m : mods_st := set_real (u8 (real_mods m .& Z.lnot mods)) m.
Definition set_mods (mods : Z) m : mods_st := set_real mods m.
Definition clear_mods m : mods_st := set_real 0 m.
Definition add_weak_mods (mods : Z) m : mods_st := set_weak (weak_mods m .| mods) m.
Definition del_weak_mods (mods : Z) m : mods_st := set_weak (u8 (weak_mods m .& Z.lnot mods)) m.
Definition set_weak_mods (mods : Z) m : mods_st := set_weak mods m.
Definition clear_weak_mods m : mods_st := set_weak 0 m.
Definition set_weak_override_mods (mods : Z) m : mods_st := set_override mods (suppressed_mods m) m.
Definition clear_weak_override_mods m : mods_st := set_override 0 (suppressed_mods m) m.
Definition set_suppressed_override_mods (mods : Z) m : mods_st := set_override (weak_override_mods m) mods m.
Definition clear_suppressed_override_mods m : mods_st := set_override (weak_override_mods m) 0 m.

(** The one-shot modifiers are stamped with the time. *)
Definition add_oneshot_mods (mods now : Z) m : mods_st :=
  if negb (oneshot_mods m .& mods =? mods) then set_oneshot (oneshot_mods m .| mods) now m else m.
Definition del_oneshot_mods (mods now : Z) m : mods_st :=
  if truthy (oneshot_mods m .& mods) then
    let left := u8 (oneshot_mods m .& Z.lnot mods) in
    set_oneshot left (if truthy left then now else 0) m
  else m.
Definition clear_oneshot_mods m : mods_st := if truthy (oneshot_mods m) then set_oneshot 0 0 m else m.

Definition add_oneshot_locked_mods (mods : Z) m : mods_st :=
  if negb (oneshot_locked_mods m .& mods =? mods) then set_locked (oneshot_locked_mods m .| mods) m else m.
Definition set_oneshot_locked_mods (mods : Z) m : mods_st :=
  if negb (mods =? oneshot_locked_mods m) then set_locked mods m else m.
Definition clear_oneshot_locked_mods m : mods_st :=
  if truthy (oneshot_locked_mods m) then set_locked 0 m else m.
Definition del_oneshot_locked_mods (mods : Z) m : mods_st :=
  if truthy (oneshot_locked_mods m .& mods) then set_locked (u8 (oneshot_locked_mods m .& Z.lnot mods)) m else m.

Definition has_anymod m : option Z := bitpop (real_mods m).
End modifiers.

Section util.
Context {E : Type} {eeprom : Eeprom E} {cfg : KeymapConfig} {mcfg : MouseKeyConfig}.
Implicit Types (s : kb E).

Definition set_vial v s : kb E := mk_kb v (kb_layers s) (kb_mods s) (kb_osl s) (kb_host s) (kb_mouse s) (now s).
Definition set_layers l s : kb E := mk_kb (kb_vial s) l (kb_mods s) (kb_osl s) (kb_host s) (kb_mouse s) (now s).
Definition with_mods (f : mods_st -> mods_st) s : kb E :=
  mk_kb (kb_vial s) (kb_layers s) (f (kb_mods s)) (kb_osl s) (kb_host s) (kb_mouse s) (now s).
Definition set_osl o s : kb E := mk_kb (kb_vial s) (kb_layers s) (kb_mods s) o (kb_host s) (kb_mouse s) (now s).
Definition set_host h s : kb E := mk_kb (kb_vial s) (kb_layers s) (kb_mods s) (kb_osl s) h (kb_mouse s) (now s).
Definition with_mouse (f : mouse_st -> mouse_st) s : kb E :=
  mk_kb (kb_vial s) (kb_layers s) (kb_mods s) (kb_osl s) (kb_host s) (f (kb_mouse s)) (now s).
Definition with_reports (f : reports -> reports) s : kb E :=
  let h := kb_host s in
  set_host (mk_host (f (reports_of h)) (last_report h) (last_nkro_report h) (sent h)) s.
Definition host_send (c : host_call) s : kb E :=
  let h := kb_host s in
  set_host (mk_host (reports_of h) (last_report h) (last_nkro_report h) (c :: sent h)) s.
(** The clock runs on while the code waits. *)
Definition wait_ms (ms : Z) s : kb E :=
  mk_kb (kb_vial s) (kb_layers s) (kb_mods s) (kb_osl s) (kb_host s) (kb_mouse s) (u16 (now s + ms)).

Definition keymap_word s : Z := QmkSettings.keymap_config (settings (kb_vial s)).
Definition QS_oneshot_timeout s : Z := QS16 (settings (kb_vial s)) QS_osk_timeout.

(** ** One-shot modifiers and layers *)

Definition has_oneshot_mods_timed_out s : bool :=
  (0 <? QS_oneshot_timeout s)
  && (QS_oneshot_timeout s <=? TIMER_DIFF_16 (now s) (oneshot_time (kb_mods s))).

Definition set_oneshot_mods (mods : Z) s : kb E :=
  if oneshot_enable (keymap_word s) then
    with_mods (fun m => if negb (oneshot_mods m =? mods) then set_oneshot mods (now s) m else m) s
  else s.

Definition get_oneshot_layer s : Z := oneshot_layer_data (kb_osl s) >> 3.
Definition get_oneshot_layer_state s : Z := oneshot_layer_data (kb_osl s) .& 7.

Definition has_oneshot_layer_timed_out s : bool :=
  (QS_oneshot_timeout s <=? TIMER_DIFF_16 (now s) (oneshot_layer_time (kb_osl s)))
  && negb (truthy (get_oneshot_layer_state s .& ONESHOT_TOGGLED)).

Definition set_oneshot_layer (layer state : Z) s : kb E :=
  if oneshot_enable (keymap_word s) then
    set_osl (mk_osl (u8 ((layer << 3) .| state)) (now s)) (set_layers (layer_on layer (kb_layers s)) s)
  else set_layers (layer_on layer (kb_layers s)) s.

Definition reset_oneshot_layer s : kb E := set_osl (mk_osl 0 0) s.

Definition clear_oneshot_layer_state (state : Z) s : kb E :=
  let start_state := oneshot_layer_data (kb_osl s) in
  let s := set_osl (mk_osl (u8 (start_state .& Z.lnot state)) (oneshot_layer_time (kb_osl s))) s in
  if (negb (truthy (get_oneshot_layer_state s)) && negb (start_state =? oneshot_layer_data (kb_osl s)))
     && oneshot_enable (keymap_word s)
  then reset_oneshot_layer (set_layers (layer_off (get_oneshot_layer s) (kb_layers s)) s)
  else s.

Definition is_oneshot_layer_active s : bool := truthy (get_oneshot_layer_state s).

Definition oneshot_set (active : bool) s : kb E :=
  if negb (eqb (oneshot_enable (keymap_word s)) active) then
    let raw := if active then Z.setbit (keymap_word s) 10 else Z.clearbit (keymap_word s) 10 in
    let v := kb_vial s in
    let q := QmkSettings.set_keymap_config raw (settings v) in
    let q := set_qs_eeprom (eeconfig_update_keymap raw (qs_eeprom q)) q in
    clear_oneshot_layer_state ONESHOT_OTHER_KEY_PRESSED (set_vial (Vial.set_settings q v) s)
  else s.
Definition oneshot_toggle s : kb E := oneshot_set (negb (oneshot_enable (keymap_word s))) s.
Definition is_oneshot_enabled s : bool := oneshot_enable (keymap_word s).

(** ** Reports *)

Definition get_mods_for_report s : Z * kb E :=
  let mods := real_mods (kb_mods s) .| weak_mods (kb_mods s) in
  let '(mods, s) :=
    if truthy (oneshot_mods (kb_mods s)) then
      let s :=
        if (0 <? QS_oneshot_timeout s) && has_oneshot_mods_timed_out s
        then with_mods clear_oneshot_mods s else s in
      let mods := mods .| oneshot_mods (kb_mods s) in
      (mods, if truthy (has_anykey (reports_of (kb_host s))) then with_mods clear_oneshot_mods s else s)
    else (mods, s) in
  let mods := u8 (mods .& Z.lnot (suppressed_mods (kb_mods s))) in
  (mods .| weak_override_mods (kb_mods s), s).

Definition send_6kro_report s : kb E :=
  let '(mods, s) := get_mods_for_report s in
  let h := kb_host s in
  let report := mk_host_report false mods (keys (reports_of h)) in
  if bool_decide (report = last_report h) then s
  else set_host (mk_host (reports_of h) report (last_nkro_report h) (HostKeyboard report :: sent h)) s.

Definition send_nkro_report s : kb E :=
  let '(mods, s) := get_mods_for_report s in
  let h := kb_host s in
  let report := mk_host_report true mods (bits (reports_of h)) in
  if bool_decide (report = last_nkro_report h) then s
  else set_host (mk_host (reports_of h) (last_report h) report (HostKeyboard report :: sent h)) s.

Definition send_keyboard_report s : kb E :=
  if nkro_active (reports_of (kb_host s)) then send_nkro_report s else send_6kro_report s.

(** ** Registering keys *)

Definition add_key (key : Z) s : kb E := with_reports (add_key_to_report key) s.
Definition del_key (key : Z) s : kb E := with_reports (del_key_from_report key) s.
Definition clear_keys s : kb E := with_reports clear_keys_from_report s.

Definition kb_register_mouse (code : Z) (pressed : bool) s : kb E :=
  with_mouse (register_mouse (settings (kb_vial s)) code pressed (now s)) s.

Definition register_code (code : Z) s : kb E :=
  if code =? KC_NO then s
  else if IS_BASIC_KEYCODE code then
    let s := if is_key_pressed (reports_of (kb_host s)) code
             then send_keyboard_report (del_key code s) else s in
    send_keyboard_report (add_key code s)
  else if IS_MODIFIER_KEYCODE code then send_keyboard_report (with_mods (add_mods (MOD_BIT code)) s)
  else if IS_SYSTEM_KEYCODE code then host_send (HostSystem (KEYCODE2SYSTEM code)) s
  else if IS_CONSUMER_KEYCODE code then host_send (HostConsumer (KEYCODE2CONSUMER code)) s
  else if IS_MOUSE_KEYCODE code then kb_register_mouse code true s
  else s.

Definition unregister_code (code : Z) s : kb E :=
  if code =? KC_NO then s
  else if IS_BASIC_KEYCODE code then send_keyboard_report (del_key code s)
  else if IS_MODIFIER_KEYCODE code then send_keyboard_report (with_mods (del_mods (MOD_BIT code)) s)
  else if IS_SYSTEM_KEYCODE code then host_send (HostSystem 0) s
  else if IS_CONSUMER_KEYCODE code then host_send (HostConsumer 0) s
  else if IS_MOUSE_KEYCODE code then kb_register_mouse code false s
  else s.

Definition tap_code_delay (code delay : Z) s : kb E :=
  unregister_code code (wait_ms delay (register_code code s)).
Definition tap_delay (code : Z) s : Z :=
  QS16 (settings (kb_vial s)) (if code =? KC_CAPS_LOCK then QS_tap_hold_caps_delay else QS_tap_code_delay).
Definition tap_code (code : Z) s : kb E := tap_code_delay code (tap_delay code s) s.

Definition register_mods (mods : Z) s : kb E :=
  if truthy mods then send_keyboard_report (with_mods (add_mods mods) s) else s.
Definition unregister_mods (mods : Z) s : kb E :=
  if truthy mods then send_keyboard_report (with_mods (del_mods mods) s) else s.
Definition register_weak_mods (mods : Z) s : kb E :=
  if truthy mods then send_keyboard_report (with_mods (add_weak_mods mods) s) else s.
Definition unregister_weak_mods (mods : Z) s : kb E :=
  if truthy mods then send_keyboard_report (with_mods (del_weak_mods mods) s) else s.

Definition clear_keyboard_but_mods_and_keys s : kb E :=
  let s := host_send (HostConsumer 0) (host_send (HostSystem 0) s) in
  let s := send_keyboard_report (with_mods clear_weak_mods s) in
  with_mouse (fun m => mousekey_send (now s) (mousekey_clear m)) s.
Definition clear_keyboard_but_mods s : kb E := clear_keyboard_but_mods_and_keys (clear_keys s).
Definition clear_keyboard s : kb E := clear_keyboard_but_mods (with_mods clear_mods s).

(** ** Codes with modifiers *)

Definition extract_mod_bits (code : Z) : Z :=
  if negb (in_range QK_MODS QK_MODS_MAX code) then 0
  else
    let right := truthy (code .& QK_RMODS_MIN) in
    (if truthy (code .& QK_LCTL) then MOD_BIT (if right then KC_RIGHT_CTRL else KC_LEFT_CTRL) else 0)
    .| (if truthy (code .& QK_LSFT) then MOD_BIT (if right then KC_RIGHT_SHIFT else KC_LEFT_SHIFT) else 0)
    .| (if truthy (code .& QK_LALT) then MOD_BIT (if right then KC_RIGHT_ALT else KC_LEFT_ALT) else 0)
    .| (if truthy (code .& QK_LGUI) then MOD_BIT (if right then KC_RIGHT_GUI else KC_LEFT_GUI) else 0).

Definition do_code16 (code : Z) (f : Z -> kb E -> kb E) s : kb E := f (extract_mod_bits code) s.

Definition register_code16 (code : Z) s : kb E :=
  let s := if IS_MODIFIER_KEYCODE code || (code =? KC_NO)
           then do_code16 code register_mods s else do_code16 code register_weak_mods s in
  register_code (u8 code) s.
Definition unregister_code16 (code : Z) s : kb E :=
  let s := unregister_code (u8 code) s in
  if IS_MODIFIER_KEYCODE code || (code =? KC_NO)
  then do_code16 code unregister_mods s else do_code16 code unregister_weak_mods s.

(** The loop waits [delay] times for a millisecond. *)
Definition tap_code16_delay (code delay : Z) s : kb E :=
  unregister_code16 code (wait_ms delay (register_code16 code s)).
Definition tap_code16 (code : Z) s : kb E := tap_code16_delay code (tap_delay code s) s.
End util.
