(* ===== verification/HostReports.v ===== *)
(** What the host sees of the keys and modifiers of [ActionUtil]: after every
    operation the last report it has is the report of the firmware, and a
    one-shot modifier acts on one key press. *)

From S2P Require Import Prelude.
From S2P Require Import Eeprom.
From S2P Require Import DynamicKeymap.
From S2P Require Import KeymapBuffer.
From S2P Require Import QmkSettings.
From S2P Require Import Vial.
From S2P Require Import ViaReset.
From S2P Require Import KeycodeConfig.
From S2P Require Import KeymapCommon.
From S2P Require Import ActionLayer.
From S2P Require Import Report.
From S2P Require Import MouseKey.
From S2P Require Import Keyboard.
From S2P Require Import ActionUtil.

(** ** The host *)

(** The keyboard reports among the calls. *)
Definition keyboards (l : list host_call) : list host_report :=
  omap (fun c => match c with HostKeyboard r => Some r | _ => None end) l.

(** The report of a keyboard with nothing pressed; hosts start with it. *)
Definition blank_report (nkro : bool) : host_report :=
  mk_host_report nkro 0 (memset 0 (if nkro then NKRO_REPORT_BITS else KEYBOARD_REPORT_KEYS)).

Definition active_data (r : reports) : list Z := if nkro_active r then bits r else keys r.

(** The keys that a report shows as pressed. *)
Definition report_pressed (h : host_report) (key : Z) : bool :=
  is_key_pressed (mk_reports (report_nkro h) (report_data h) (report_data h)) key.

(** No report equals the one before it. *)
Fixpoint no_repeats (l : list host_report) : Prop :=
  match l with
  | a :: (b :: _) as l' => a <> b /\ no_repeats l'
  | _ => True
  end.

Section host.
Context {E : Type} {eeprom : Eeprom E} {cfg : KeymapConfig} {mcfg : MouseKeyConfig}.
Implicit Types (s : kb E).

Definition nkro_of s : bool := nkro_active (reports_of (kb_host s)).
Definition history s : list host_report := keyboards (sent (kb_host s)) ++ [blank_report (nkro_of s)].
(** The report the host has. *)
Definition shown s : host_report := hd (blank_report (nkro_of s)) (history s).
Definition kept s : host_report :=
  if nkro_of s then last_nkro_report (kb_host s) else last_report (kb_host s).

(** The statics agree with the host, and no report was sent twice. *)
Record log_ok s : Prop := {
  log_kept : kept s = shown s;
  log_kind : report_nkro (shown s) = nkro_of s;
  log_fresh : no_repeats (history s);
  log_wf : reports_wf (reports_of (kb_host s));
}.

(** The host has the keys of the report. *)
Definition synced s : Prop :=
  log_ok s /\ report_data (shown s) = active_data (reports_of (kb_host s)).

Lemma synced_pressed s key : synced s ->
  report_pressed (shown s) key = is_key_pressed (reports_of (kb_host s)) key.
Proof.
  intros [[_ Hk _ _] Hd]. unfold report_pressed, is_key_pressed, active_data, nkro_of in *.
  rewrite Hk, Hd. cbn [nkro_active bits keys]. by destruct (nkro_active _).
Qed.

(** Only the reports and the log matter. *)
Lemma log_same s s' : kb_host s' = kb_host s -> log_ok s -> log_ok s'.
Proof.
  intros Hh [H1 H2 H3 H4]. split; unfold kept, shown, history, nkro_of in *; by rewrite Hh.
Qed.
Lemma synced_same s s' : kb_host s' = kb_host s -> synced s -> synced s'.
Proof.
  intros Hh [H1 H2]. split; [by eapply log_same|]. unfold shown, history, nkro_of in *. by rewrite Hh.
Qed.

(** ** Sending *)

Lemma mods_host s : kb_host (get_mods_for_report s).2 = kb_host s.
Proof. unfold get_mods_for_report. by repeat case_if. Qed.

(** The report the next send would give. *)
Definition next_report s : host_report :=
  mk_host_report (nkro_of s) (get_mods_for_report s).1 (active_data (reports_of (kb_host s))).

Lemma history_cons s : history s = shown s :: tl (history s).
Proof. unfold shown. assert (H : history s <> []) by (unfold history; by destruct (keyboards _)). by destruct (history s). Qed.

(** Sending is comparing the next report with the last one. *)
Lemma send_eq s :
  let s1 := (get_mods_for_report s).2 in let h := kb_host s in let r := next_report s in
  send_keyboard_report s
  = if bool_decide (r = kept s) then s1
    else set_host (if nkro_of s then mk_host (reports_of h) (last_report h) r (HostKeyboard r :: sent h)
                   else mk_host (reports_of h) r (last_nkro_report h) (HostKeyboard r :: sent h)) s1.
Proof.
  cbv zeta. unfold send_keyboard_report, send_6kro_report, send_nkro_report, next_report, kept, active_data, nkro_of.
  pose proof (mods_host s) as Hh. destruct (get_mods_for_report s) as [mods s1]. cbn [fst snd] in *. rewrite Hh.
  destruct (nkro_active _); reflexivity.
Qed.

Lemma send_spec s : log_ok s ->
  let s' := send_keyboard_report s in
  synced s' /\ shown s' = next_report s /\ reports_of (kb_host s') = reports_of (kb_host s)
  /\ kb_mods s' = kb_mods (get_mods_for_report s).2 /\ kb_vial s' = kb_vial s /\ now s' = now s.
Proof.
  intros Hs s'. unfold s'. rewrite send_eq. pose proof Hs as [H1 H2 H3 H4].
  assert (Hv : kb_vial (get_mods_for_report s).2 = kb_vial s /\ now (get_mods_for_report s).2 = now s)
    by (unfold get_mods_for_report; by repeat case_if).
  pose proof (mods_host s) as Hh. destruct Hv as [Hv Hn].
  destruct (bool_decide _) eqn:Eb; [apply bool_decide_eq_true in Eb|apply bool_decide_eq_false in Eb].
  - assert (Hsh : shown (get_mods_for_report s).2 = shown s) by (unfold shown, history, nkro_of; by rewrite Hh).
    split_and!; [split; [by apply (log_same s)|]|congruence|by rewrite Hh|done|done|done].
    rewrite Hsh, <- H1, <- Eb, Hh. done.
  - set (s1 := set_host _ _).
    assert (Hr : reports_of (kb_host s1) = reports_of (kb_host s)) by (unfold s1; by destruct (nkro_of s)).
    assert (Hk : nkro_of s1 = nkro_of s) by (unfold nkro_of; by rewrite Hr).
    assert (Hhist : history s1 = next_report s :: history s).
    { unfold history. rewrite Hk. unfold s1. by destruct (nkro_of s). }
    assert (Hsh : shown s1 = next_report s) by (unfold shown; by rewrite Hhist).
    split; [split; [split|]|split_and!; [exact Hsh|exact Hr|reflexivity|exact Hv|exact Hn]].
    + rewrite Hsh. unfold kept. rewrite Hk. unfold s1. by destruct (nkro_of s).
    + by rewrite Hsh, Hk.
    + rewrite Hhist. rewrite history_cons in H3 |- *. split; [congruence|exact H3].
    + by rewrite Hr.
    + by rewrite Hsh, Hr.
Qed.

(** A change of the keys that keeps the report well formed, and a send. *)
Lemma change_spec (f : reports -> reports) s : log_ok s ->
  nkro_active (f (reports_of (kb_host s))) = nkro_of s -> reports_wf (f (reports_of (kb_host s))) ->
  log_ok (with_reports f s).
Proof.
  intros [H1 H2 H3 H4] Hn Hw.
  assert (Hk : nkro_of (with_reports f s) = nkro_of s) by exact Hn.
  assert (Hh : history (with_reports f s) = history s) by (unfold history; by rewrite Hk).
  split; unfold shown, kept in *; rewrite ?Hh, ?Hk; done.
Qed.

Lemma basic_range code : IS_BASIC_KEYCODE code = true -> byte_range code /\ code <> 0.
Proof. unfold IS_BASIC_KEYCODE, in_range, KC_A, KC_EXSEL. intros. b2p. lia. Qed.

Lemma nkro_add code r : nkro_active (add_key_to_report code r) = nkro_active r.
Proof. unfold add_key_to_report. by case_if. Qed.
Lemma nkro_del code r : nkro_active (del_key_from_report code r) = nkro_active r.
Proof. unfold del_key_from_report. by case_if. Qed.
Lemma nkro_clear r : nkro_active (clear_keys_from_report r) = nkro_active r.
Proof. unfold clear_keys_from_report. by case_if. Qed.

Lemma add_ok code s : IS_BASIC_KEYCODE code = true -> log_ok s -> log_ok (add_key code s).
Proof.
  intros [Hr H0]%basic_range Hs. apply change_spec; [done|apply nkro_add|].
  by apply (report_ops _ code 0 (log_wf s Hs)).
Qed.
Lemma del_ok code s : IS_BASIC_KEYCODE code = true -> log_ok s -> log_ok (del_key code s).
Proof.
  intros [Hr H0]%basic_range Hs. apply change_spec; [done|apply nkro_del|].
  by apply (report_ops _ code 0 (log_wf s Hs)).
Qed.
Lemma clear_ok s : log_ok s -> log_ok (clear_keys s).
Proof.
  intros Hs. apply change_spec; [done|apply nkro_clear|]. by apply (report_ops _ 4 0 (log_wf s Hs)).
Qed.

Lemma send_synced s : log_ok s -> synced (send_keyboard_report s).
Proof. intros Hs. by apply send_spec. Qed.

Lemma mods_log (f : mods_st -> mods_st) s : log_ok s -> log_ok (with_mods f s).
Proof. by apply log_same. Qed.

Lemma calls_log c s : match c with HostKeyboard _ => False | _ => True end -> log_ok s -> log_ok (host_send c s).
Proof.
  intros Hc Hs. assert (Hh : history (host_send c s) = history s) by (unfold history; by destruct c).
  destruct Hs as [H1 H2 H3 H4]. split; unfold kept, shown in *; rewrite ?Hh; done.
Qed.
Lemma calls_synced c s : match c with HostKeyboard _ => False | _ => True end -> synced s -> synced (host_send c s).
Proof.
  intros Hc [Hs Hd]. split; [by apply calls_log|].
  assert (Hh : history (host_send c s) = history s) by (unfold history; by destruct c).
  unfold shown in *. by rewrite Hh.
Qed.

Create HintDb host.
#[local] Hint Resolve add_ok del_ok clear_ok send_synced mods_log calls_log calls_synced : host.
Lemma synced_log s : synced s -> log_ok s.
Proof. by intros []. Qed.
#[local] Hint Resolve synced_log : host.

(** ** Registering a key *)

(** A deleted key leaves its place. *)
Lemma room_after_del r code : code <> 0 -> is_key_pressed r code = true ->
  has_room (del_key_from_report code r) code = true.
Proof.
  intros H0. unfold is_key_pressed, has_room, del_key_from_report. rewrite (proj2 (Z.eqb_neq code 0)) by done.
  destruct r as [[] ks bs]; cbn [set_bits set_keys nkro_active keys bits].
  - by destruct (code >> 3 <? NKRO_REPORT_BITS).
  - intros H. unfold del_key_byte. rewrite existsb_exists in H |- *. destruct H as (k & Hin & Hk). b2p. subst k.
    exists 0. split; [|done]. apply in_map_iff. exists code. by rewrite Z.eqb_refl.
Qed.

(** What pressing and releasing a basic key does to every key of the report. *)
Lemma register_basic code s : IS_BASIC_KEYCODE code = true -> synced s ->
  let r := reports_of (kb_host s) in let s' := register_code code s in
  synced s' /\ forall key, byte_range key ->
    is_key_pressed (reports_of (kb_host s')) key
    = (key =? code) && (has_room r code || is_key_pressed r code) || is_key_pressed r key.
Proof.
  intros Hb Hs r s'. pose proof (basic_range code Hb) as [Hr H0].
  pose proof (log_wf s (synced_log s Hs)) as Hw. fold r in Hw.
  unfold s', register_code. rewrite (proj2 (Z.eqb_neq code KC_NO)) by done. rewrite Hb. fold r.
  destruct (is_key_pressed r code) eqn:Hp.
  - destruct (send_spec _ (del_ok code s Hb (synced_log s Hs))) as (S1 & _ & R1 & _).
    destruct (send_spec _ (add_ok code _ Hb (synced_log _ S1))) as (S2 & _ & R2 & _).
    split; [exact S2|]. intros key Hk. rewrite R2. cbn [add_key with_reports set_host kb_host reports_of].
    rewrite R1. cbn [del_key with_reports set_host kb_host reports_of]. fold r.
    destruct (report_ops r code key Hw Hr H0 Hk) as (_ & Hd & _ & _ & Hwd & _).
    destruct (report_ops _ code key Hwd Hr H0 Hk) as (-> & _). rewrite Hd, room_after_del by done.
    rewrite orb_true_r, andb_true_r. destruct (Z.eqb_spec key code) as [->|]; [done|]. done.
  - destruct (send_spec _ (add_ok code s Hb (synced_log s Hs))) as (S1 & _ & R1 & _).
    split; [exact S1|]. intros key Hk. rewrite R1. cbn [add_key with_reports set_host kb_host reports_of]. fold r.
    destruct (report_ops r code key Hw Hr H0 Hk) as (-> & _). by rewrite orb_false_r.
Qed.

Lemma unregister_basic code s : IS_BASIC_KEYCODE code = true -> synced s ->
  let s' := unregister_code code s in
  synced s' /\ forall key, byte_range key ->
    is_key_pressed (reports_of (kb_host s')) key
    = negb (key =? code) && is_key_pressed (reports_of (kb_host s)) key.
Proof.
  intros Hb Hs s'. pose proof (basic_range code Hb) as [Hr H0].
  pose proof (log_wf s (synced_log s Hs)) as Hw.
  unfold s', unregister_code. rewrite (proj2 (Z.eqb_neq code KC_NO)) by done. rewrite Hb.
  destruct (send_spec _ (del_ok code s Hb (synced_log s Hs))) as (S1 & _ & R1 & _).
  split; [exact S1|]. intros key Hk. rewrite R1. cbn [del_key with_reports set_host kb_host reports_of].
  by destruct (report_ops _ code key Hw Hr H0 Hk) as (_ & -> & _).
Qed.

(** ** All operations *)

Inductive key_op :=
| RegisterCode (code : Z) | UnregisterCode (code : Z) | TapCode (code : Z)
| RegisterMods (mods : Z) | UnregisterMods (mods : Z)
| RegisterWeakMods (mods : Z) | UnregisterWeakMods (mods : Z)
| Register16 (code : Z) | Unregister16 (code : Z) | Tap16 (code : Z)
| OneshotMods (mods : Z) | Send | Wait (ms : Z) | ClearKeyboard.

Definition run_op (op : key_op) s : kb E :=
  match op with
  | RegisterCode code => register_code code s
  | UnregisterCode code => unregister_code code s
  | TapCode code => tap_code code s
  | RegisterMods mods => register_mods mods s
  | UnregisterMods mods => unregister_mods mods s
  | RegisterWeakMods mods => register_weak_mods mods s
  | UnregisterWeakMods mods => unregister_weak_mods mods s
  | Register16 code => register_code16 code s
  | Unregister16 code => unregister_code16 code s
  | Tap16 code => tap_code16 code s
  | OneshotMods mods => set_oneshot_mods mods s
  | Send => send_keyboard_report s
  | Wait ms => wait_ms ms s
  | ClearKeyboard => clear_keyboard s
  end.

(** The modifiers without one-shot modifiers. *)
Definition plain_mods (m : mods_st) : Z :=
  u8 ((real_mods m .| weak_mods m) .& Z.lnot (suppressed_mods m)) .| weak_override_mods m.

(** [calm]: no one-shot modifiers are used. Before a send the state is ready,
    after it the host's report is level with the firmware's. *)
Definition ready (calm : bool) s : Prop := log_ok s /\ (calm = true -> oneshot_mods (kb_mods s) = 0).
Definition level (calm : bool) s : Prop :=
  synced s /\ (calm = true -> oneshot_mods (kb_mods s) = 0 /\ report_mods (shown s) = plain_mods (kb_mods s)).

Lemma level_ready calm s : level calm s -> ready calm s.
Proof. intros [[H1 _] H2]. split; [done|]. intros Hc. by apply H2. Qed.

Lemma ready_send calm s : ready calm s -> level calm (send_keyboard_report s).
Proof.
  intros [Hs Hc]. destruct (send_spec s Hs) as (H1 & H2 & _ & H4 & _). split; [done|].
  intros Hcalm. rewrite H2, H4. specialize (Hc Hcalm). unfold next_report, get_mods_for_report. cbn [report_mods].
  rewrite Hc. change (truthy 0) with false. cbn [fst snd]. done.
Qed.

Lemma ready_add calm code s : IS_BASIC_KEYCODE code = true -> ready calm s -> ready calm (add_key code s).
Proof. intros Hb [H1 H2]. split; [by apply add_ok|exact H2]. Qed.
Lemma ready_del calm code s : IS_BASIC_KEYCODE code = true -> ready calm s -> ready calm (del_key code s).
Proof. intros Hb [H1 H2]. split; [by apply del_ok|exact H2]. Qed.
Lemma ready_clear calm s : ready calm s -> ready calm (clear_keys s).
Proof. intros [H1 H2]. split; [by apply clear_ok|exact H2]. Qed.
Lemma ready_mods calm f s : (forall m, oneshot_mods (f m) = oneshot_mods m) -> ready calm s -> ready calm (with_mods f s).
Proof. intros Hf [H1 H2]. split; [by apply mods_log|]. intros Hc. cbn. rewrite Hf. by apply H2. Qed.
Lemma ready_call calm c s : match c with HostKeyboard _ => False | _ => True end -> ready calm s -> ready calm (host_send c s).
Proof. intros Hc [H1 H2]. split; [by apply calls_log|exact H2]. Qed.
Lemma level_call calm c s : match c with HostKeyboard _ => False | _ => True end -> level calm s -> level calm (host_send c s).
Proof.
  intros Hc [H1 H2]. split; [by apply calls_synced|].
  assert (Hh : history (host_send c s) = history s) by (unfold history; by destruct c).
  unfold shown in *. rewrite Hh. exact H2.
Qed.
Lemma level_same calm s s' : kb_host s' = kb_host s -> kb_mods s' = kb_mods s -> level calm s -> level calm s'.
Proof.
  intros Hh Hm [H1 H2]. split; [by eapply synced_same|]. unfold shown, history, nkro_of in *. by rewrite Hh, Hm.
Qed.
#[local] Hint Resolve level_ready ready_send ready_add ready_del ready_clear ready_mods ready_call level_call : host.

Lemma register_level calm code s : level calm s -> level calm (register_code code s).
Proof. intros Hs. unfold register_code. repeat case_if; auto 10 with host. by apply (level_same _ s). Qed.
Lemma unregister_level calm code s : level calm s -> level calm (unregister_code code s).
Proof. intros Hs. unfold unregister_code. repeat case_if; auto 10 with host. by apply (level_same _ s). Qed.
Lemma wait_level calm ms s : level calm s -> level calm (wait_ms ms s).
Proof. by apply level_same. Qed.
#[local] Hint Resolve register_level unregister_level wait_level : host.

Lemma mods_level calm s : level calm s ->
  (forall mods, level calm (register_mods mods s)) /\ (forall mods, level calm (unregister_mods mods s))
  /\ (forall mods, level calm (register_weak_mods mods s)) /\ (forall mods, level calm (unregister_weak_mods mods s)).
Proof.
  intros Hs. unfold register_mods, unregister_mods, register_weak_mods, unregister_weak_mods.
  split_and!; intros mods; case_if; auto with host.
Qed.

Lemma register16_level calm code s : level calm s -> level calm (register_code16 code s).
Proof.
  intros Hs. destruct (mods_level calm s Hs) as (H1 & H2 & H3 & H4). unfold register_code16, do_code16.
  case_if; auto with host.
Qed.
Lemma unregister16_level calm code s : level calm s -> level calm (unregister_code16 code s).
Proof.
  intros Hs. destruct (mods_level calm _ (unregister_level calm (u8 code) s Hs)) as (H1 & H2 & H3 & H4).
  unfold unregister_code16, do_code16. case_if; auto with host.
Qed.
#[local] Hint Resolve register16_level unregister16_level : host.

Lemma op_level calm op s : match op with OneshotMods _ => calm = false | _ => True end ->
  level calm s -> level calm (run_op op s).
Proof.
  intros Hop Hs. destruct (mods_level calm s Hs) as (H1 & H2 & H3 & H4).
  destruct op; cbn [run_op]; unfold tap_code, tap_code_delay, tap_code16, tap_code16_delay; auto with host.
  - subst calm. unfold set_oneshot_mods. case_if; [|done]. split; [|done]. apply (synced_same s); [done|apply Hs].
  - unfold clear_keyboard, clear_keyboard_but_mods, clear_keyboard_but_mods_and_keys.
    apply (level_same _ (send_keyboard_report (with_mods clear_weak_mods
      (host_send (HostConsumer 0) (host_send (HostSystem 0) (clear_keys (with_mods clear_mods s))))))); [done|done|].
    auto 10 with host.
Qed.

Lemma ops_level calm ops s : (calm = true -> Forall (fun op => match op with OneshotMods _ => False | _ => True end) ops) ->
  level calm s -> level calm (foldl (fun s op => run_op op s) s ops).
Proof.
  revert s. induction ops as [|op ops IH]; intros s Hc Hs; [done|]. cbn [foldl]. apply IH.
  - intros Hcalm. specialize (Hc Hcalm). by apply List.Forall_inv_tail in Hc.
  - apply op_level; [|done]. destruct op; try done. destruct calm; [|done].
    specialize (Hc eq_refl). by apply List.Forall_inv in Hc.
Qed.

(** Nothing is pressed and nothing was sent. *)
Definition at_rest s : Prop :=
  reports_of (kb_host s) = mk_reports (nkro_of s) (memset 0 KEYBOARD_REPORT_KEYS) (memset 0 NKRO_REPORT_BITS)
  /\ sent (kb_host s) = [] /\ kept s = blank_report (nkro_of s) /\ kb_mods s = mk_mods 0 0 0 0 0 0 0.

Lemma rest_level s : at_rest s -> level true s.
Proof.
  intros (Hr & Hs & Hk & Hm). assert (Hsh : shown s = blank_report (nkro_of s)) by (unfold shown, history; by rewrite Hs).
  split; [split; [split|]|intros _; rewrite Hsh, Hm; by destruct (nkro_of s)].
  - by rewrite Hk, Hsh.
  - by rewrite Hsh.
  - unfold history. by rewrite Hs.
  - rewrite Hr. split_and!; cbn; (reflexivity || by apply bytes_memset).
  - rewrite Hsh, Hr. unfold active_data. cbn. by destruct (nkro_of s).
Qed.

(** C20: the host sees the keyboard. After any sequence of key and modifier
    operations from rest, in either protocol: the host's last report has exactly
    the keys of the firmware's report; no report was sent that equals the one
    before it; and, when no one-shot modifier was used, it has exactly the
    modifiers of the firmware. Registering a basic key presses it on the host
    when the report has room for it (or had it), unregistering releases it, and
    no other key changes. *)
Theorem host_sees_keyboard s ops :
  at_rest s ->
  let s' := foldl (fun s op => run_op op s) s ops in
  (forall key, report_pressed (shown s') key = is_key_pressed (reports_of (kb_host s')) key)
  /\ no_repeats (history s')
  /\ (Forall (fun op => match op with OneshotMods _ => False | _ => True end) ops ->
      report_mods (shown s') = plain_mods (kb_mods s'))
  /\ (forall code key, IS_BASIC_KEYCODE code = true -> byte_range key ->
      report_pressed (shown (register_code code s')) key
        = (key =? code) && (has_room (reports_of (kb_host s')) code || report_pressed (shown s') code)
          || report_pressed (shown s') key
      /\ report_pressed (shown (unregister_code code s')) key
        = negb (key =? code) && report_pressed (shown s') key).
Proof.
  intros Hrest s'. pose proof (rest_level s Hrest) as Hl.
  assert (Hs' : level false s') by (apply ops_level; [done|split; [apply Hl|done]]).
  destruct Hs' as [Hs' _]. split_and!.
  - intros key. by apply synced_pressed.
  - apply Hs'.
  - intros Hops. destruct (ops_level true ops s (fun _ => Hops) Hl) as [_ H]. by apply H.
  - intros code key Hb Hk. destruct (register_basic code s' Hb Hs') as [R1 R2].
    destruct (unregister_basic code s' Hb Hs') as [U1 U2]. rewrite !synced_pressed by done.
    split; [by apply R2|by apply U2].
Qed.

(** ** One-shot modifiers *)

Lemma forall_zero_nth l i : Forall (fun p => p = 0) l -> nthZ l i = 0.
Proof.
  intros H. destruct (decide (0 <= i < lenZ l)) as [Hi|Hi]; [|by rewrite nthZ_out by lia].
  rewrite nthZ_lookup by lia. destruct (l !! Z.to_nat i) as [x|] eqn:Ex; [|done].
  rewrite Forall_lookup in H. exact (H _ _ Ex).
Qed.

Lemma any_pressed r key : reports_wf r -> is_key_pressed r key = true -> has_anykey r <> 0.
Proof.
  intros (Hk1 & _ & Hb1 & _) Hp Hany. revert Hp. apply not_true_iff_false. unfold is_key_pressed.
  assert (Hz : Forall (fun p => p = 0) (if nkro_active r then bits r else keys r)).
  { apply (has_anykey_count _ 0); [done|destruct (nkro_active r); rewrite ?Hk1, ?Hb1; done|exact Hany]. }
  destruct (Z.eqb_spec key 0) as [->|Hne]; [done|]. destruct (nkro_active r).
  - case_if; [|done]. by rewrite forall_zero_nth.
  - apply existsb_false. intros i Hi. rewrite forall_zero_nth by done. congruence.
Qed.

(** The modifiers of a report with these one-shot modifiers. *)
Definition with_oneshot (o : Z) (m : mods_st) : Z :=
  u8 (((real_mods m .| weak_mods m) .| o) .& Z.lnot (suppressed_mods m)) .| weak_override_mods m.

(** The one-shot modifiers that still count. *)
Definition live_oneshot s : Z := if has_oneshot_mods_timed_out s then 0 else oneshot_mods (kb_mods s).

Lemma mods_for_report s :
  let o := live_oneshot s in let '(mods, s1) := get_mods_for_report s in
  mods = with_oneshot o (kb_mods s)
  /\ oneshot_mods (kb_mods s1) = (if truthy (has_anykey (reports_of (kb_host s))) then 0 else o)
  /\ plain_mods (kb_mods s1) = plain_mods (kb_mods s).
Proof.
  unfold get_mods_for_report, live_oneshot, with_oneshot, has_oneshot_mods_timed_out.
  destruct (truthy (oneshot_mods (kb_mods s))) eqn:Ho; unfold truthy in Ho; b2p.
  - destruct (0 <? QS_oneshot_timeout s) eqn:Et; cbn [andb]; [destruct (QS_oneshot_timeout s <=? _) eqn:El|];
      repeat (cbn [with_mods kb_mods kb_host clear_oneshot_mods oneshot_mods set_oneshot truthy Z.eqb negb]; case_if);
      unfold clear_oneshot_mods, truthy in *; cbn [kb_mods with_mods set_oneshot oneshot_mods] in *;
      rewrite ?(proj2 (Z.eqb_neq _ _) Ho) in *; cbn; rewrite ?Z.lor_0_r; try done; split_and!; try done; by repeat case_if.
  - rewrite Ho. assert (Hz : forall b : bool, (if b then 0 else 0) = 0) by (by intros []).
    rewrite !Hz, Z.lor_0_r. by split_and!.
Qed.

Lemma send_mods s : log_ok s ->
  report_mods (shown (send_keyboard_report s)) = with_oneshot (live_oneshot s) (kb_mods s)
  /\ oneshot_mods (kb_mods (send_keyboard_report s))
     = (if truthy (has_anykey (reports_of (kb_host s))) then 0 else live_oneshot s).
Proof.
  intros Hs. destruct (send_spec s Hs) as (_ & H2 & _ & H4 & _). rewrite H2, H4.
  pose proof (mods_for_report s) as H. unfold next_report. cbn [report_mods].
  destruct (get_mods_for_report s) as [mods s1]. cbn [fst snd]. by destruct H as (-> & -> & _).
Qed.

Lemma room_when_empty r code : reports_wf r -> has_anykey r = 0 -> IS_BASIC_KEYCODE code = true ->
  has_room r code = true.
Proof.
  intros (Hk1 & _ & Hb1 & _) Hany Hb. unfold has_room. destruct (nkro_active r) eqn:En.
  - unfold IS_BASIC_KEYCODE, in_range, KC_A, KC_EXSEL, NKRO_REPORT_BITS in *. b2p. apply Z.ltb_lt.
    rewrite Z.shiftr_div_pow2 by done. apply Z.div_lt_upper_bound; lia.
  - assert (Hz : Forall (fun p => p = 0) (keys r)).
    { apply (has_anykey_count _ 0); [done|by rewrite Hk1|]. unfold has_anykey in Hany. by rewrite En in Hany. }
    apply existsb_eq. exists 0. split; [rewrite Hk1; unfold KEYBOARD_REPORT_KEYS; lia|by apply forall_zero_nth].
Qed.

(** C21: a one-shot modifier acts on exactly one key. Let the report have no key
    and any one-shot modifiers be set. A send without a key shows those that have
    not timed out and keeps them. The press of a basic key is reported together
    with them and uses them up; after its release, whatever follows that sets no
    new one-shot modifier, the host never sees them again. *)
Theorem oneshot_mods_once s code ops :
  synced s -> has_anykey (reports_of (kb_host s)) = 0 -> IS_BASIC_KEYCODE code = true ->
  Forall (fun op => match op with OneshotMods _ => False | _ => True end) ops ->
  let o := live_oneshot s in let idle := send_keyboard_report s in
  let pressed := register_code code s in
  let later := foldl (fun s op => run_op op s) (unregister_code code pressed) ops in
  (report_mods (shown idle) = with_oneshot o (kb_mods s) /\ oneshot_mods (kb_mods idle) = o)
  /\ (report_mods (shown pressed) = with_oneshot o (kb_mods s) /\ report_pressed (shown pressed) code = true
      /\ oneshot_mods (kb_mods pressed) = 0)
  /\ report_mods (shown later) = plain_mods (kb_mods later).
Proof.
  intros Hs Hany Hb Hops o idle pressed later. pose proof (basic_range code Hb) as [Hr H0].
  pose proof (synced_log s Hs) as Hlog. pose proof (log_wf s Hlog) as Hw.
  assert (Hp : is_key_pressed (reports_of (kb_host s)) code = false).
  { apply not_true_iff_false. intros Hp. by apply (any_pressed _ code Hw). }
  destruct (register_basic code s Hb Hs) as [R1 R2].
  assert (Hpc : is_key_pressed (reports_of (kb_host pressed)) code = true)
    by (unfold pressed; rewrite R2, Z.eqb_refl, room_when_empty by done; done).
  assert (Hreg : pressed = send_keyboard_report (add_key code s)).
  { unfold pressed, register_code. rewrite (proj2 (Z.eqb_neq code KC_NO)) by done. by rewrite Hb, Hp. }
  destruct (send_mods (add_key code s) (add_ok code s Hb Hlog)) as [P1 P2].
  destruct (send_spec (add_key code s) (add_ok code s Hb Hlog)) as (_ & _ & P3 & _). rewrite <- Hreg in P1, P2, P3.
  assert (Hused : oneshot_mods (kb_mods pressed) = 0).
  { rewrite P2. rewrite <- P3. pose proof (any_pressed _ code (log_wf _ (synced_log _ R1)) Hpc) as Ha.
    fold pressed in Ha. unfold truthy. by rewrite (proj2 (Z.eqb_neq _ _) Ha). }
  destruct (send_mods s Hlog) as [I1 I2]. rewrite Hany in I2. split_and!; try done.
  - by rewrite synced_pressed.
  - assert (Hrel : level true (unregister_code code pressed)).
    { unfold unregister_code. rewrite (proj2 (Z.eqb_neq code KC_NO)) by done. rewrite Hb.
      apply ready_send, ready_del; [done|]. split; [by apply synced_log|done]. }
    destruct (ops_level true ops _ (fun _ => Hops) Hrel) as [_ H]. by apply H.
Qed.
(** ** Single effects *)

Implicit Types (k : kb E).

(** Without one-shot modifiers a send changes what the host has and nothing
    else. *)
Lemma send_calm k : oneshot_mods (kb_mods k) = 0 -> exists h, send_keyboard_report k = set_host h k.
Proof.
  intros Ho. rewrite send_eq. cbv zeta.
  assert (Hm : (get_mods_for_report k).2 = k) by (unfold get_mods_for_report; by rewrite Ho). rewrite Hm.
  case_if; [exists (kb_host k); by destruct k|eexists; reflexivity].
Qed.

Lemma register_calm code k : IS_BASIC_KEYCODE code = true -> oneshot_mods (kb_mods k) = 0 ->
  exists h, register_code code k = set_host h k.
Proof.
  intros Hb Ho. unfold register_code. rewrite Hb. case_if; [exists (kb_host k); by destruct k|]. case_if.
  - destruct (send_calm (del_key code k) Ho) as [h1 ->].
    destruct (send_calm (add_key code (set_host h1 (del_key code k))) Ho) as [h2 ->]. by exists h2.
  - destruct (send_calm (add_key code k) Ho) as [h ->]. by exists h.
Qed.

Lemma mods_calm mods k : oneshot_mods (kb_mods k) = 0 ->
  exists h, register_mods mods k = set_host h (with_mods (fun m => if truthy mods then add_mods mods m else m) k).
Proof.
  intros Ho. unfold register_mods. case_if.
  - destruct (send_calm (with_mods (add_mods mods) k) Ho) as [h ->]. by exists h.
  - exists (kb_host k). by destruct k.
Qed.

Lemma send_history k : log_ok k ->
  history (send_keyboard_report k)
  = if bool_decide (next_report k = shown k) then history k else next_report k :: history k.
Proof.
  intros Hk. rewrite send_eq. cbv zeta. rewrite (log_kept k Hk). pose proof (mods_host k) as Hh. case_bool_decide.
  - unfold history, nkro_of. by rewrite Hh.
  - set (k1 := set_host _ _).
    assert (Hr : reports_of (kb_host k1) = reports_of (kb_host k)) by (unfold k1; by destruct (nkro_of k)).
    assert (Hn : nkro_of k1 = nkro_of k) by (unfold nkro_of; by rewrite Hr).
    unfold history. rewrite Hn. unfold k1. by destruct (nkro_of k).
Qed.

(** A change of the keys is sent as a new report when the host can see it. *)
Lemma send_change (f : reports -> reports) k code : log_ok k ->
  nkro_active (f (reports_of (kb_host k))) = nkro_of k -> reports_wf (f (reports_of (kb_host k))) ->
  let k' := send_keyboard_report (with_reports f k) in
  report_pressed (shown k') code <> report_pressed (shown k) code ->
  history k' = shown k' :: history k.
Proof.
  intros Hk Hn Hw k' Hne. pose proof (change_spec f k Hk Hn Hw) as Hk1.
  assert (Hn' : nkro_of (with_reports f k) = nkro_of k) by exact Hn.
  assert (Hh : history (with_reports f k) = history k) by (unfold history; by rewrite Hn').
  destruct (send_spec _ Hk1) as (_ & Hs & _). unfold k' in *. rewrite send_history, Hs, Hh in * by done.
  assert (Hsh : shown (with_reports f k) = shown k) by (unfold shown; by rewrite Hh, Hn'). rewrite Hsh.
  case_bool_decide as He; [by rewrite He in Hne|done].
Qed.

Lemma calm_mods k : oneshot_mods (kb_mods k) = 0 -> log_ok k ->
  report_mods (shown (send_keyboard_report k)) = plain_mods (kb_mods k).
Proof.
  intros Ho Hk. destruct (ready_send true k (conj Hk (fun _ => Ho))) as [_ Hm]. destruct (Hm eq_refl) as [_ ->].
  by destruct (send_calm k Ho) as [h ->].
Qed.

(** ** A keyboard by what the host has of it *)

(** The settings, the modifiers, the keys and the reports sent. *)
Record kbd (v : vial_state E) (m : mods_st) (r : reports) (out : list host_report) k : Prop := {
  kbd_vial : kb_vial k = v;
  kbd_mods : kb_mods k = m;
  kbd_reports : reports_of (kb_host k) = r;
  kbd_log : log_ok k;
  kbd_history : history k = out;
}.

(** A report is sent unless it is the one the host has. *)
Definition push (h : host_report) (out : list host_report) : list host_report :=
  if bool_decide (Some h = head out) then out else h :: out.
Definition report_of (m : mods_st) (r : reports) : host_report :=
  mk_host_report (nkro_active r) (plain_mods m) (active_data r).

Lemma kbd_send v m r out k : oneshot_mods m = 0 -> kbd v m r out k ->
  kbd v m r (push (report_of m r) out) (send_keyboard_report k).
Proof.
  intros Ho [H1 H2 H3 H4 H5]. destruct (send_spec k H4) as (S1 & _ & S3 & S4 & S5 & _).
  assert (Ho' : oneshot_mods (kb_mods k) = 0) by (by rewrite H2). destruct (send_calm k Ho') as [h Eh].
  constructor; [by rewrite S5|by rewrite Eh|by rewrite S3|apply S1|].
  rewrite send_history by done. rewrite H5.
  assert (Hn : next_report k = report_of m r).
  { unfold next_report, report_of, nkro_of, get_mods_for_report. rewrite Ho', H3. change (truthy 0) with false. cbv iota beta. cbn [fst]. by rewrite H2. }
  rewrite Hn. unfold push. rewrite history_cons in H5. subst out. cbn [head].
  case_bool_decide as Hd1; case_bool_decide as Hd2; congruence.
Qed.

Lemma kbd_with_mods f v m r out k : kbd v m r out k -> kbd v (f m) r out (with_mods f k).
Proof. intros [H1 H2 H3 H4 H5]. constructor; try done; [cbn; by rewrite H2|by apply mods_log]. Qed.

Lemma kbd_same v m r out k k' : kb_vial k' = kb_vial k -> kb_mods k' = kb_mods k -> kb_host k' = kb_host k ->
  kbd v m r out k -> kbd v m r out k'.
Proof.
  intros E1 E2 E3 [H1 H2 H3 H4 H5]. constructor; [by rewrite E1|by rewrite E2|by rewrite E3|by apply (log_same k)|].
  unfold history, nkro_of. by rewrite E3.
Qed.

Lemma kbd_with_reports f v m r out k : nkro_active (f r) = nkro_active r -> reports_wf (f r) ->
  kbd v m r out k -> kbd v m (f r) out (with_reports f k).
Proof.
  intros Hn Hw [H1 H2 H3 H4 H5]. subst r. constructor; try done; [by apply change_spec|].
  rewrite <- H5. unfold history, nkro_of. cbn. by rewrite Hn.
Qed.
Lemma kbd_add code v m r out k : IS_BASIC_KEYCODE code = true -> kbd v m r out k ->
  kbd v m (add_key_to_report code r) out (add_key code k).
Proof.
  intros [Hr H0]%basic_range Hk. apply kbd_with_reports; [apply nkro_add| |done].
  destruct Hk as [_ _ <- H4 _]. by apply (report_ops _ code 0 (log_wf k H4)).
Qed.
Lemma kbd_del code v m r out k : IS_BASIC_KEYCODE code = true -> kbd v m r out k ->
  kbd v m (del_key_from_report code r) out (del_key code k).
Proof.
  intros [Hr H0]%basic_range Hk. apply kbd_with_reports; [apply nkro_del| |done].
  destruct Hk as [_ _ <- H4 _]. by apply (report_ops _ code 0 (log_wf k H4)).
Qed.

Lemma kbd_register code v m r out k : IS_BASIC_KEYCODE code = true -> oneshot_mods m = 0 -> is_key_pressed r code = false ->
  kbd v m r out k ->
  kbd v m (add_key_to_report code r) (push (report_of m (add_key_to_report code r)) out) (register_code code k).
Proof.
  intros Hb Ho Hp Hk. destruct (basic_range code Hb) as [_ H0]. unfold register_code.
  rewrite (proj2 (Z.eqb_neq code KC_NO)), Hb, (kbd_reports _ _ _ _ _ Hk), Hp by done. by apply kbd_send, kbd_add.
Qed.
Lemma kbd_unregister code v m r out k : IS_BASIC_KEYCODE code = true -> oneshot_mods m = 0 -> kbd v m r out k ->
  kbd v m (del_key_from_report code r) (push (report_of m (del_key_from_report code r)) out) (unregister_code code k).
Proof.
  intros Hb Ho Hk. destruct (basic_range code Hb) as [_ H0]. unfold unregister_code.
  rewrite (proj2 (Z.eqb_neq code KC_NO)), Hb by done. by apply kbd_send, kbd_del.
Qed.
Lemma kbd_register_mod code v m r out k : IS_MODIFIER_KEYCODE code = true -> oneshot_mods m = 0 -> kbd v m r out k ->
  kbd v (add_mods (MOD_BIT code) m) r (push (report_of (add_mods (MOD_BIT code) m) r) out) (register_code code k)
  /\ kbd v (del_mods (MOD_BIT code) m) r (push (report_of (del_mods (MOD_BIT code) m) r) out) (unregister_code code k).
Proof.
  intros Hb Ho Hk. unfold register_code, unregister_code.
  assert (Hc : (code =? KC_NO) = false /\ IS_BASIC_KEYCODE code = false).
  { revert Hb. unfold IS_MODIFIER_KEYCODE, IS_BASIC_KEYCODE, in_range, KC_NO, KC_A, KC_EXSEL, KC_LEFT_CTRL, KC_RIGHT_GUI.
    intros. b2p. split; b2p; lia. }
  destruct Hc as [-> ->]. rewrite Hb. split; apply kbd_send, kbd_with_mods; done.
Qed.

(** A basic keycode as a 16-bit one. *)
Lemma basic_code16 code k : IS_BASIC_KEYCODE code = true ->
  register_code16 code k = register_code code k /\ unregister_code16 code k = unregister_code code k.
Proof.
  intros Hb. destruct (basic_range code Hb) as [Hr H0]. unfold register_code16, unregister_code16, do_code16.
  assert (Hc : IS_MODIFIER_KEYCODE code = false /\ extract_mod_bits code = 0).
  { unfold IS_BASIC_KEYCODE, IS_MODIFIER_KEYCODE, extract_mod_bits, in_range, KC_A, KC_EXSEL, KC_LEFT_CTRL, KC_RIGHT_GUI, QK_MODS in *.
    b2p. split; [b2p; lia|]. rewrite (proj2 (Z.leb_gt _ code)) by lia. done. }
  destruct Hc as [-> ->]. rewrite (proj2 (Z.eqb_neq code KC_NO)) by done. cbn [orb]. unfold register_weak_mods, unregister_weak_mods.
  change (truthy 0) with false. cbv iota. by rewrite u8_id.
Qed.
End host.

(** ** A concrete keyboard *)

Section witnesses.
#[local] Existing Instance KeymapExample.config.
#[local] Existing Instance KeymapExample.config_ok.
#[local] Existing Instance KeymapExample.laws.
#[local] Existing Instance MouseKey.mcfg.

(** One-shot keys time out after five seconds and are on. *)
Definition example_vial : vial_state KeymapExample.store :=
  mk_vial (mk_qs KeymapExample.blank (<[3%nat := 0x13]> (<[2%nat := 0x88]> (memset 0 36))) 0x0400 175
    (mk_mousekey 0 0 0 0 0 0 0 0) 0) 0 0 0 0 [] [] [] [].
Definition example_kb : kb KeymapExample.store :=
  mk_kb example_vial layers_start (mk_mods 0 0 0 0 0 0 0) (mk_osl 0 0)
    (mk_host (mk_reports false (memset 0 6) (memset 0 30)) (blank_report false) (blank_report true) []) mouse_start 1000.

Lemma host_sees_keyboard_witness :
  report_mods (shown (foldl (fun s op => run_op op s) example_kb [Register16 0x0204; RegisterCode 0xE0])) = 3.
Proof.
  refine (proj1 (proj2 (proj2 (host_sees_keyboard example_kb [Register16 0x0204; RegisterCode 0xE0] _))) _).
  - split_and!; reflexivity.
  - repeat constructor.
Defined.

Lemma oneshot_mods_once_witness :
  let s := set_oneshot_mods 2 example_kb in
  report_mods (shown (register_code 4 s)) = 2 /\ report_pressed (shown (register_code 4 s)) 4 = true
  /\ oneshot_mods (kb_mods (register_code 4 s)) = 0.
Proof.
  refine (proj1 (proj2 (oneshot_mods_once (set_oneshot_mods 2 example_kb) 4 [] _ eq_refl eq_refl _))).
  - apply (op_level false (OneshotMods 2)); [done|]. split; [|done]. apply rest_level. split_and!; reflexivity.
  - constructor.
Defined.
End witnesses.
