(* ===== verification/Strokes.v ===== *)
(** * What a host reads

    The reports of a keyboard as a host with a text field sees them: each key that
    a report shows and the one before did not is a stroke, with the modifiers of
    the report. *)

From S2P Require Import Prelude.
From S2P Require Import Eeprom.
From S2P Require Import DynamicKeymap.
From S2P Require Import QmkSettings.
From S2P Require Import Vial.
From S2P Require Import KeycodeConfig.
From S2P Require Import KeymapCommon.
From S2P Require Import Report.
From S2P Require Import MouseKey.
From S2P Require Import Keyboard.
From S2P Require Import VialDance.
From S2P Require Import ActionUtil.
From S2P Require Import HostReports.

(** ** Reports of one key *)

Definition blank (nkro : bool) : reports :=
  mk_reports nkro (memset 0 KEYBOARD_REPORT_KEYS) (memset 0 NKRO_REPORT_BITS).
(** The report with one key and one with none. *)
Definition one_key (nkro : bool) (mods key : Z) : host_report :=
  mk_host_report nkro mods (active_data (add_key_to_report key (blank nkro))).
Definition no_key (nkro : bool) (mods : Z) : host_report := mk_host_report nkro mods (active_data (blank nkro)).

Lemma basic_all (f : Z -> bool) : forallb f (seqZ KC_A (KC_EXSEL - KC_A + 1)) = true ->
  forall key, IS_BASIC_KEYCODE key = true -> f key = true.
Proof.
  intros H key Hk. rewrite forallb_forall in H. apply H, list_elem_of_In, elem_of_seqZ.
  unfold IS_BASIC_KEYCODE, in_range in Hk. b2p. lia.
Qed.

Lemma blank_key n key : IS_BASIC_KEYCODE key = true ->
  del_key_from_report key (add_key_to_report key (blank n)) = blank n
  /\ active_data (add_key_to_report key (blank n)) <> active_data (blank n)
  /\ del_key_from_report key (blank n) = blank n /\ is_key_pressed (blank n) key = false.
Proof.
  intros Hb. pose (f n key := bool_decide (bits (del_key_from_report key (add_key_to_report key (blank n))) = bits (blank n))
    && bool_decide (keys (del_key_from_report key (add_key_to_report key (blank n))) = keys (blank n))
    && negb (bool_decide (active_data (add_key_to_report key (blank n)) = active_data (blank n)))
    && bool_decide (bits (del_key_from_report key (blank n)) = bits (blank n))
    && bool_decide (keys (del_key_from_report key (blank n)) = keys (blank n))
    && negb (is_key_pressed (blank n) key)).
  assert (Hf : f n key = true) by (apply basic_all; [destruct n; vm_compute; reflexivity|done]).
  unfold f in Hf. b2p. repeat match goal with H : bool_decide _ = true |- _ => apply bool_decide_eq_true in H end.
  repeat match goal with H : bool_decide _ = false |- _ => apply bool_decide_eq_false in H end.
  assert (Hn : nkro_active (del_key_from_report key (add_key_to_report key (blank n))) = n
               /\ nkro_active (del_key_from_report key (blank n)) = n) by (rewrite !nkro_del, nkro_add; done).
  destruct Hn as [N1 N2]. set (r1 := del_key_from_report key (add_key_to_report key (blank n))) in *.
  set (r2 := del_key_from_report key (blank n)) in *. destruct r1, r2. cbn in *. by subst.
Qed.

Lemma push_new h out : head out <> Some h -> push h out = h :: out.
Proof. intros H. unfold push. rewrite bool_decide_eq_false_2 by congruence. done. Qed.
Lemma push_same h out : head out = Some h -> push h out = out.
Proof. intros H. unfold push. by rewrite bool_decide_eq_true_2 by congruence. Qed.

Lemma no_key_pressed n mods key : byte_range key -> report_pressed (no_key n mods) key = false.
Proof.
  intros Hk. pose (f key := negb (report_pressed (no_key n mods) key)).
  assert (H : forallb f (seqZ 0 256) = true) by (destruct n; vm_compute; reflexivity).
  rewrite forallb_forall in H. apply negb_true_iff, (H key), list_elem_of_In, elem_of_seqZ. lia.
Qed.

(** ** Strokes *)

Definition shows (prev : option host_report) (key : Z) : bool :=
  match prev with Some h => report_pressed h key | None => false end.

(** The keys that went down, in the order of their numbers. *)
Definition new_keys (prev : option host_report) (h : host_report) : list Z :=
  List.filter (fun key => report_pressed h key && negb (shows prev key)) (seqZ 1 255).
Definition new_strokes (prev : option host_report) (h : host_report) : list (Z * Z) :=
  map (pair (report_mods h)) (new_keys prev h).

(** All strokes of a history, which has the latest report first. *)
Fixpoint strokes (out : list host_report) : list (Z * Z) :=
  match out with
  | [] => []
  | h :: out => strokes out ++ new_strokes (head out) h
  end.

Lemma new_keys_none prev h : (forall key, byte_range key -> report_pressed h key = true -> shows prev key = true) ->
  new_keys prev h = [].
Proof.
  intros H. unfold new_keys. assert (Hf : Forall (fun key => byte_range key) (seqZ 1 255)).
  { apply list.Forall_forall. intros key Hk%elem_of_seqZ. lia. }
  induction Hf as [|key l Hk _ IH]; [done|]. cbn [List.filter].
  destruct (report_pressed h key) eqn:Ep; [rewrite (H key Hk Ep)|]; cbn [negb andb]; exact IH.
Qed.

(** Also a report that is not sent because it repeats the last one. *)
Lemma strokes_push h out : strokes (push h out) = strokes out ++ new_strokes (head out) h.
Proof.
  unfold push. case_bool_decide as He; [|done]. unfold new_strokes. rewrite new_keys_none; [by rewrite app_nil_r|].
  intros key _ Hp. by rewrite <- He.
Qed.
Lemma head_push h out : head (push h out) = Some h.
Proof. unfold push. by case_bool_decide. Qed.

Lemma one_key_pressed n mods key code : IS_BASIC_KEYCODE key = true -> byte_range code ->
  report_pressed (one_key n mods key) code = (code =? key).
Proof.
  intros Hb Hc.
  pose (f key := forallb (fun code => eqb (report_pressed (one_key n mods key) code) (code =? key)) (seqZ 0 256)).
  assert (Hf : f key = true) by (apply basic_all; [destruct n; vm_compute; reflexivity|done]).
  unfold f in Hf. rewrite forallb_forall in Hf. apply eqb_prop, Hf, list_elem_of_In, elem_of_seqZ. lia.
Qed.

(** The host shows no key. *)
Definition quiet (out : list host_report) : Prop := forall key, byte_range key -> shows (head out) key = false.

Lemma filter_ext_in {A} (f g : A -> bool) l : (forall a, In a l -> f a = g a) -> List.filter f l = List.filter g l.
Proof.
  induction l as [|a l IH]; intros H; [done|]. cbn. rewrite (H a) by (by left). rewrite IH; [done|]. intros b Hb. apply H. by right.
Qed.

Lemma quiet_one_key n mods key out : IS_BASIC_KEYCODE key = true -> quiet out ->
  new_strokes (head out) (one_key n mods key) = [(mods, key)].
Proof.
  intros Hb Hq. unfold new_strokes, new_keys.
  rewrite (filter_ext_in _ (fun code => code =? key)).
  - pose (f key := bool_decide (List.filter (fun code => code =? key) (seqZ 1 255) = [key])).
    assert (Hf : f key = true) by (apply basic_all; [vm_compute; reflexivity|done]).
    apply bool_decide_eq_true in Hf. by rewrite Hf.
  - intros code Hc%list_elem_of_In%elem_of_seqZ. assert (byte_range code) by lia.
    by rewrite one_key_pressed, Hq, andb_true_r by done.
Qed.

Lemma no_key_strokes n mods prev : new_strokes prev (no_key n mods) = [].
Proof. unfold new_strokes. rewrite new_keys_none; [done|]. intros key Hk Hp. by rewrite no_key_pressed in Hp. Qed.

(** ** A keyboard on which no key is down *)

Section idle.
Context {E : Type} {eeprom : Eeprom E} {cfg : KeymapConfig} {mcfg : MouseKeyConfig}.
Context (v : vial_state E) (n : bool).
Implicit Types (k : kb E) (m : mods_st).

(** The strokes of a keyboard with modifiers [m]; the last report shows no key,
    but may have other modifiers. *)
Inductive idle m (l : list (Z * Z)) k : Prop :=
| mk_idle out : kbd v m (blank n) out k -> oneshot_mods m = 0 -> quiet out -> strokes out = l -> idle m l k.

Lemma report_blank m : report_of m (blank n) = no_key n (plain_mods m).
Proof. done. Qed.
Lemma quiet_no_key mods out : quiet (push (no_key n mods) out).
Proof. intros key Hk. rewrite head_push. by apply no_key_pressed. Qed.

Lemma idle_send f m l k : oneshot_mods (f m) = 0 -> idle m l k -> idle (f m) l (send_keyboard_report (with_mods f k)).
Proof.
  intros Ho [out Hk _ Hq <-]. eapply mk_idle; [apply kbd_send; [done|]; by apply kbd_with_mods|done| |].
  - apply quiet_no_key.
  - by rewrite strokes_push, report_blank, no_key_strokes, app_nil_r.
Qed.
Lemma idle_mods f m l k : oneshot_mods (f m) = 0 -> idle m l k -> idle (f m) l (with_mods f k).
Proof. intros Ho [out Hk _ Hq Hs]. exists out; try done. by apply kbd_with_mods. Qed.
Lemma idle_wait ms m l k : idle m l k -> idle m l (wait_ms ms k).
Proof. intros [out Hk Ho Hq Hs]. exists out; try done. by apply (kbd_same _ _ _ _ k). Qed.

(** The same with the key [code] down. *)
Inductive pressing code m (l : list (Z * Z)) k : Prop :=
| mk_pressing out : kbd v m (add_key_to_report code (blank n)) out k -> oneshot_mods m = 0 ->
    (forall key, byte_range key -> shows (head out) key = (key =? code)) -> strokes out = l -> pressing code m l k.

Lemma report_one_key m code : report_of m (add_key_to_report code (blank n)) = one_key n (plain_mods m) code.
Proof. unfold report_of, one_key. by rewrite nkro_add. Qed.

(** A key goes down: one stroke. *)
Lemma idle_register code m l k : IS_BASIC_KEYCODE code = true -> idle m l k ->
  pressing code m (l ++ [(plain_mods m, code)]) (register_code code k).
Proof.
  intros Hb [out Hk Ho Hq <-]. destruct (blank_key n code Hb) as (_ & _ & _ & Hp).
  eapply mk_pressing; [by apply kbd_register|done| |].
  - intros key Hkey. rewrite head_push, report_one_key. by apply one_key_pressed.
  - rewrite strokes_push, report_one_key. f_equal. by apply quiet_one_key.
Qed.
Lemma pressing_wait code ms m l k : pressing code m l k -> pressing code m l (wait_ms ms k).
Proof. intros [out Hk Ho Hq Hs]. exists out; try done. by apply (kbd_same _ _ _ _ k). Qed.
Lemma pressing_send code f m l k : IS_BASIC_KEYCODE code = true -> oneshot_mods (f m) = 0 -> pressing code m l k ->
  pressing code (f m) l (send_keyboard_report (with_mods f k)).
Proof.
  intros Hb Ho [out Hk _ Hq <-]. eapply mk_pressing; [apply kbd_send; [done|]; by apply kbd_with_mods|done| |].
  - intros key Hkey. rewrite head_push, report_one_key. by apply one_key_pressed.
  - rewrite strokes_push, report_one_key. unfold new_strokes. rewrite new_keys_none; [by rewrite app_nil_r|].
    intros key Hkey Hp. rewrite one_key_pressed in Hp by done. by rewrite Hq.
Qed.
Lemma pressing_unregister code m l k : IS_BASIC_KEYCODE code = true -> pressing code m l k ->
  idle m l (unregister_code code k).
Proof.
  intros Hb [out Hk Ho Hq <-]. destruct (blank_key n code Hb) as (Hd & _). eapply mk_idle.
  - rewrite <- Hd. by apply kbd_unregister.
  - done.
  - rewrite Hd, report_blank. apply quiet_no_key.
  - by rewrite Hd, report_blank, strokes_push, no_key_strokes, app_nil_r.
Qed.

(** A key goes down and up. *)
Lemma idle_tap_delay code d m l k : IS_BASIC_KEYCODE code = true -> idle m l k ->
  idle m (l ++ [(plain_mods m, code)]) (tap_code_delay code d k).
Proof.
  intros Hb Hk. unfold tap_code_delay. apply pressing_unregister, pressing_wait; [done|]. by apply idle_register.
Qed.
Lemma idle_tap code m l k : IS_BASIC_KEYCODE code = true -> idle m l k ->
  idle m (l ++ [(plain_mods m, code)]) (tap_code code k).
Proof. apply idle_tap_delay. Qed.

(** A modifier goes down or up. *)
Lemma idle_mod code m l k : IS_MODIFIER_KEYCODE code = true -> idle m l k ->
  idle (add_mods (MOD_BIT code) m) l (register_code code k) /\ idle (del_mods (MOD_BIT code) m) l (unregister_code code k).
Proof.
  intros Hb [out Hk Ho Hq <-]. destruct (kbd_register_mod code v m _ _ k Hb Ho Hk) as [H1 H2].
  split; (eapply mk_idle; [eassumption|done|apply quiet_no_key|by rewrite strokes_push, report_blank, no_key_strokes, app_nil_r]).
Qed.
End idle.

(** ** The keyboard at rest *)

(** Nothing held, whatever is locked. *)
Definition free_mods (locked t : Z) : mods_st := mk_mods 0 0 0 0 0 locked t.

Section rest.
Context {E : Type} {eeprom : Eeprom E} {cfg : KeymapConfig} {mcfg : MouseKeyConfig}.
Implicit Types (k : kb E).

Lemma rest_idle k : at_rest k -> idle (kb_vial k) (nkro_of k) (free_mods 0 0) [] k.
Proof.
  intros Hrest. pose proof (rest_level k Hrest) as [[Hl _] _]. destruct Hrest as (Hr & Hs & Hk & Hm).
  assert (Hh : history k = [blank_report (nkro_of k)]) by (unfold history; by rewrite Hs).
  assert (Hb : blank_report (nkro_of k) = no_key (nkro_of k) 0) by (by destruct (nkro_of k)).
  apply (mk_idle _ _ _ _ _ [blank_report (nkro_of k)]).
  - by constructor.
  - done.
  - rewrite Hb. intros key Hkey. by apply no_key_pressed.
  - rewrite Hb. cbn [strokes]. by rewrite no_key_strokes.
Qed.

(** What the host has of an idle keyboard. *)
Lemma idle_host v n m l k : idle v n m l k ->
  strokes (history k) = l /\ kb_mods k = m /\ kb_vial k = v /\ forall key, byte_range key -> report_pressed (shown k) key = false.
Proof.
  intros [out Hk _ Hq Hs]. rewrite (kbd_history _ _ _ _ _ Hk). split_and!; [done|apply Hk|apply Hk|].
  intros key Hkey. specialize (Hq key Hkey). pose proof (history_cons k) as Hc. rewrite (kbd_history _ _ _ _ _ Hk) in Hc.
  rewrite Hc in Hq. exact Hq.
Qed.
End rest.
