(* ===== verification/TapDance.v ===== *)
(** The tap dance engine: [quantum/process_keycode/process_tap_dance.c], with
    the callbacks of [VialDance] and the modifiers and keys of [ActionUtil]. *)

From S2P Require Import Prelude.
From S2P Require Import Eeprom.
From S2P Require Import DynamicKeymap.
From S2P Require Import KeymapSlots.
From S2P Require Import KeymapBuffer.
From S2P Require Import QmkSettings.
From S2P Require Import Vial.
From S2P Require Import ViaReset.
From S2P Require Import Report.
From S2P Require Import MouseKey.
From S2P Require Import ActionUtil.
From S2P Require Import HostReports.
From S2P Require Import VialDance.

(** [tap_dance_state_t]. *)
Record action_state := mk_action {
  interrupting_keycode : Z;
  count : Z;
  td_weak_mods : Z;
  td_oneshot_mods : Z;
  pressed : bool;
  finished : bool;
  interrupted : bool;
}.
Definition no_action : action_state := mk_action 0 0 0 0 false false false.

(** What the callbacks see of it. *)
Definition td_view (a : action_state) : tap_dance_state := mk_td (count a) (interrupted a) (pressed a).

Definition set_a_count (n : Z) (a : action_state) : action_state :=
  mk_action (interrupting_keycode a) n (td_weak_mods a) (td_oneshot_mods a) (pressed a) (finished a) (interrupted a).
Definition set_a_mods (weak oneshot : Z) (a : action_state) : action_state :=
  mk_action (interrupting_keycode a) (count a) weak oneshot (pressed a) (finished a) (interrupted a).
Definition set_a_pressed (b : bool) (a : action_state) : action_state :=
  mk_action (interrupting_keycode a) (count a) (td_weak_mods a) (td_oneshot_mods a) b (finished a) (interrupted a).
Definition set_a_finished (a : action_state) : action_state :=
  mk_action (interrupting_keycode a) (count a) (td_weak_mods a) (td_oneshot_mods a) (pressed a) true (interrupted a).
Definition set_a_interrupted (keycode : Z) (a : action_state) : action_state :=
  mk_action keycode (count a) (td_weak_mods a) (td_oneshot_mods a) (pressed a) (finished a) true.

(** The statics, [tap_dance_actions] and what they act on. *)
Record tap_dance (E : Type) := mk_tap_dance {
  active_td : Z;
  last_tap_time : Z;
  actions : list action_state;
  td_dance : dance;
  td_kb : kb E;
}.
Arguments mk_tap_dance {E} _ _ _ _ _.
Arguments active_td {E} _.
Arguments last_tap_time {E} _.
Arguments actions {E} _.
Arguments td_dance {E} _.
Arguments td_kb {E} _.

(** The event of a keycode over [QK_MODS_MAX], pressed or released: [action_exec]
    puts it through the whole key processing, which comes back to this engine
    ([preprocess_tap_dance] takes the press for an interrupting key) and to the
    rest of the firmware. So it acts on the state of the engine. *)
Class EventExec (E : Type) := action_exec : Z -> bool -> tap_dance E -> tap_dance E.

Section engine.
Context {E : Type} {eeprom : Eeprom E} {cfg : KeymapConfig} {qcfg : QmkSettingsConfig} {mcfg : MouseKeyConfig}
        {exec : EventExec E}.
Implicit Types (s : tap_dance E) (i keycode : Z).

Definition set_active (td : Z) s : tap_dance E :=
  mk_tap_dance td (last_tap_time s) (actions s) (td_dance s) (td_kb s).
Definition set_last_tap (t : Z) s : tap_dance E :=
  mk_tap_dance (active_td s) t (actions s) (td_dance s) (td_kb s).
Definition set_actions l s : tap_dance E :=
  mk_tap_dance (active_td s) (last_tap_time s) l (td_dance s) (td_kb s).
Definition set_dance d s : tap_dance E :=
  mk_tap_dance (active_td s) (last_tap_time s) (actions s) d (td_kb s).
Definition with_kb (f : kb E -> kb E) s : tap_dance E :=
  mk_tap_dance (active_td s) (last_tap_time s) (actions s) (td_dance s) (f (td_kb s)).

Definition action s i : action_state := nth (Z.to_nat i) (actions s) no_action.
Definition set_action i a s : tap_dance E := set_actions (<[Z.to_nat i := a]> (actions s)) s.

Definition tap_dance_count : Z := VIAL_TAP_DANCE_ENTRIES.
Definition QK_TAP_DANCE_GET_INDEX (keycode : Z) : Z := keycode .& 0xFF.

(** A call of a callback. *)
Definition play (c : dance_call) s : tap_dance E :=
  match c with
  | RegisterCode16 kc => with_kb (register_code16 kc) s
  | UnregisterCode16 kc => with_kb (unregister_code16 kc) s
  | QsWaitMs => with_kb (fun k => wait_ms (QS16 (settings (kb_vial k)) QS_tap_code_delay) k) s
  | ActionExec kc pressed => action_exec kc pressed s
  end.

(** The dance after a callback, and its calls in order. The callbacks write
    [dance_state] before their first call; the keycodes of the later calls are
    those of the entry they loaded, unless an event reloads [td_entry] between
    two calls. *)
Definition run_calls d s : tap_dance E :=
  let new := take (length (calls d) - length (calls (td_dance s))) (calls d) in
  foldr play (set_dance d s) new.

Definition td_ee s : E := ee (kb_vial (td_kb s)).

Definition process_tap_dance_action_on_each_tap i s : tap_dance E :=
  let m := kb_mods (td_kb s) in
  let a := action s i in
  let a := set_a_mods (real_mods m .| weak_mods m) (oneshot_mods m) (set_a_count (u8 (count a + 1)) a) in
  let s := set_action i a s in
  run_calls (on_dance (td_ee s) i (td_view a) (td_dance s)) s.

(** Vial registers no callback for the release of a tap. *)
Definition process_tap_dance_action_on_each_release i s : tap_dance E := s.

Definition process_tap_dance_action_on_reset i s : tap_dance E :=
  let a := action s i in
  let '(_, d) := on_dance_reset (td_ee s) i (td_view a) (td_dance s) in
  let s := run_calls d s in
  let s := with_kb (with_mods (del_weak_mods (td_weak_mods a))) s in
  let s := with_kb (with_mods (del_mods (td_oneshot_mods a))) s in
  let s := with_kb send_keyboard_report s in
  set_action i no_action s.

Definition process_tap_dance_action_on_dance_finished i s : tap_dance E :=
  let s :=
    if negb (finished (action s i)) then
      let a := set_a_finished (action s i) in
      let s := set_action i a s in
      let s := with_kb (with_mods (add_weak_mods (td_weak_mods a))) s in
      let s := with_kb (with_mods (add_mods (td_oneshot_mods a))) s in
      let s := with_kb send_keyboard_report s in
      run_calls (on_dance_finished (td_ee s) i (td_view a) (td_dance s)) s
    else s in
  let s := set_active 0 s in
  if negb (pressed (action s i)) then process_tap_dance_action_on_reset i s else s.

(** True when the keycode has to be looked up again. *)
Definition preprocess_tap_dance keycode (is_pressed : bool) s : bool * tap_dance E :=
  if negb is_pressed then (false, s)
  else if negb (truthy (active_td s)) || (keycode =? active_td s) then (false, s)
  else
    let i := QK_TAP_DANCE_GET_INDEX (active_td s) in
    let s := set_action i (set_a_interrupted keycode (action s i)) s in
    (true, with_kb (with_mods clear_weak_mods) (process_tap_dance_action_on_dance_finished i s)).

Definition process_tap_dance keycode (is_pressed : bool) s : bool * tap_dance E :=
  if negb ((QK_TAP_DANCE <=? keycode) && (keycode <=? QK_TAP_DANCE_MAX)) then (true, s)
  else
    let i := QK_TAP_DANCE_GET_INDEX keycode in
    if tap_dance_count <=? i then (false, s)
    else
      let s := set_action i (set_a_pressed is_pressed (action s i)) s in
      if is_pressed then
        let s := process_tap_dance_action_on_each_tap i (set_last_tap (now (td_kb s)) s) in
        (true, set_active (if finished (action s i) then 0 else keycode) s)
      else
        let s := process_tap_dance_action_on_each_release i s in
        if finished (action s i) then
          let s := process_tap_dance_action_on_reset i s in
          (true, if active_td s =? keycode then set_active 0 s else s)
        else (true, s).

Definition tap_dance_task s : tap_dance E :=
  if negb (truthy (active_td s))
     || (TIMER_DIFF_16 (now (td_kb s)) (last_tap_time s) <=? get_tapping_term (kb_vial (td_kb s)) (active_td s))
  then s
  else
    let i := QK_TAP_DANCE_GET_INDEX (active_td s) in
    if negb (interrupted (action s i)) then process_tap_dance_action_on_dance_finished i s else s.

Definition reset_tap_dance i s : tap_dance E := process_tap_dance_action_on_reset i (set_active 0 s).

(** [process_record_vial], which finishes some dances at the release. *)
Definition vial_release keycode (is_pressed : bool) s : tap_dance E :=
  let i := u16 (keycode - QK_TAP_DANCE) in
  let '(_, d, early) :=
    process_record_vial (td_ee s) keycode is_pressed (td_view (action s i)) (td_dance s) in
  let s := set_dance d s in
  match early with
  | Some t => process_tap_dance_action_on_dance_finished i (set_action i (set_a_pressed (td_pressed t) (action s i)) s)
  | None => s
  end.

(** The way of a key event through the three, in the order of
    [process_record_quantum_helper]; [again] is the keycode of the key when it
    is looked up again. *)
Definition tap_dance_key keycode again (is_pressed : bool) s : tap_dance E :=
  let '(changed, s) := preprocess_tap_dance keycode is_pressed s in
  let keycode := if changed : bool then again else keycode in
  (process_tap_dance keycode is_pressed (vial_release keycode is_pressed s)).2.
End engine.
