(* ===== verification/TapDanceProofs.v ===== *)
(** Tap dances hold nothing for ever: over any history of key events, timer
    tasks and changes of the rest of the firmware, the keycodes held are those of
    the dances that are finished and whose key is still down. *)

From S2P Require Import Prelude.
From S2P Require Import Eeprom.
From S2P Require Import DynamicKeymap.
From S2P Require Import KeymapSlots.
From S2P Require Import KeymapBuffer.
From S2P Require Import QmkSettings.
From S2P Require Import Vial.
From S2P Require Import ViaReset.
From S2P Require Import ActionLayer.
From S2P Require Import Report.
From S2P Require Import MouseKey.
From S2P Require Import ActionUtil.
From S2P Require Import HostReports.
From S2P Require Import VialDance.
From S2P Require Import TapDance.

(** ** Keys do not change the configuration *)

Section vial_kept.
Context {E : Type} {eeprom : Eeprom E} {cfg : KeymapConfig} {mcfg : MouseKeyConfig}.
Implicit Types (s : kb E).

Lemma vial_send s : kb_vial (send_keyboard_report s) = kb_vial s.
Proof.
  rewrite send_eq. assert (H : kb_vial (get_mods_for_report s).2 = kb_vial s)
    by (unfold get_mods_for_report; by repeat case_if). by case_if.
Qed.

Lemma vial_register code s : kb_vial (register_code code s) = kb_vial s.
Proof. unfold register_code. by repeat case_if; rewrite ?vial_send; cbn; rewrite ?vial_send. Qed.
Lemma vial_unregister code s : kb_vial (unregister_code code s) = kb_vial s.
Proof. unfold unregister_code. by repeat case_if; rewrite ?vial_send. Qed.

Lemma vial_register16 code s : kb_vial (register_code16 code s) = kb_vial s.
Proof.
  unfold register_code16, do_code16, register_mods, register_weak_mods. rewrite vial_register.
  by repeat case_if; rewrite ?vial_send.
Qed.
Lemma vial_unregister16 code s : kb_vial (unregister_code16 code s) = kb_vial s.
Proof.
  unfold unregister_code16, do_code16, unregister_mods, unregister_weak_mods.
  by repeat case_if; rewrite ?vial_send; cbn; rewrite ?vial_unregister.
Qed.

(** Direct calls change the keyboard, and not the configuration. *)
Lemma direct_play {exec : EventExec E} cs (d : tap_dance E) : Forall direct cs ->
  exists f, (forall k, kb_vial (f k) = kb_vial k) /\ foldr play d cs = with_kb f d.
Proof.
  induction 1 as [|c cs Hc _ (f & Hf & IH)]; cbn [foldr]; [exists id; split; [done|by destruct d]|].
  rewrite IH. destruct c as [kc|kc|kc p|]; [..|contradiction|].
  - exists (fun k => register_code16 kc (f k)). split; [intros k; by rewrite vial_register16|done].
  - exists (fun k => unregister_code16 kc (f k)). split; [intros k; by rewrite vial_unregister16|done].
  - exists (fun k => wait_ms (QS16 (settings (kb_vial (f k))) QS_tap_code_delay) (f k)). by split.
Qed.
End vial_kept.

Section proofs.
Context {E : Type} {eeprom : Eeprom E} {cfg : KeymapConfig} {qcfg : QmkSettingsConfig} {mcfg : MouseKeyConfig}
        {exec : EventExec E} {laws : EepromLaws E} (e : E).
Context (Hz : DYNAMIC_KEYMAP_EEPROM_MAX_ADDR < ee_size) (Hok : KeymapConfigOk) (Hw : ee_wf e)
        (HN : 0 <= VIAL_TAP_DANCE_ENTRIES <= 256).
Implicit Types (s : tap_dance E) (i : Z) (a : action_state).

Definition index i : Prop := 0 <= i < VIAL_TAP_DANCE_ENTRIES.
Context (Hdirect : forall i, index i -> direct_entry (stored_entry e i)).

(** The keycodes that the dances hold in these states. *)
Definition dance_sum (ds : list Z) : list Z :=
  concat (map (fun i => dance_holds (stored_entry e i) (nthZ ds i)) (seqZ 0 VIAL_TAP_DANCE_ENTRIES)).

Lemma dance_sum_split ds k : index k -> lenZ ds = VIAL_TAP_DANCE_ENTRIES -> exists rest,
  dance_sum ds ≡ₚ dance_holds (stored_entry e k) (nthZ ds k) ++ rest
  /\ forall v, dance_sum (updZ ds k v) ≡ₚ dance_holds (stored_entry e k) v ++ rest.
Proof using.
  intros Hk Hl. unfold index in Hk.
  assert (Hseq : seqZ 0 VIAL_TAP_DANCE_ENTRIES = seqZ 0 k ++ k :: seqZ (k + 1) (VIAL_TAP_DANCE_ENTRIES - k - 1)).
  { replace VIAL_TAP_DANCE_ENTRIES with (k + (VIAL_TAP_DANCE_ENTRIES - k)) at 1 by lia.
    rewrite seqZ_app by lia. f_equal. by rewrite seqZ_cons by lia. }
  set (f ds := fun i => dance_holds (stored_entry e i) (nthZ ds i)).
  exists (concat (map (f ds) (seqZ 0 k)) ++ concat (map (f ds) (seqZ (k + 1) (VIAL_TAP_DANCE_ENTRIES - k - 1)))).
  assert (Hsplit : forall ds', dance_sum ds' ≡ₚ f ds' k ++ concat (map (f ds') (seqZ 0 k))
      ++ concat (map (f ds') (seqZ (k + 1) (VIAL_TAP_DANCE_ENTRIES - k - 1)))).
  { intros ds'. unfold dance_sum. rewrite Hseq, map_app, concat_app. cbn [map concat].
    rewrite !app_assoc. apply Permutation_app_tail, Permutation_app_comm. }
  split; [apply Hsplit|]. intros v. rewrite Hsplit. unfold f at 1. rewrite nthZ_updZ_eq by lia. f_equiv.
  assert (Hsame : forall l, ~ In k l -> map (f (updZ ds k v)) l = map (f ds) l).
  { intros l Hin. apply map_ext_in. intros i Hi. unfold f. rewrite nthZ_updZ_ne; [done|]. intros ->. by apply Hin. }
  rewrite !Hsame by (rewrite <- list_elem_of_In, elem_of_seqZ; lia). done.
Qed.

(** ** The invariant *)

Definition td_index (keycode : Z) : Z := QK_TAP_DANCE_GET_INDEX keycode.

Record td_core s : Prop := {
  core_ee : td_ee s = e;
  core_actions : length (actions s) = Z.to_nat VIAL_TAP_DANCE_ENTRIES;
  core_states : lenZ (dance_state (td_dance s)) = VIAL_TAP_DANCE_ENTRIES;
  core_entry : lenZ (td_entry (td_dance s)) = entry_size;
  core_idle : forall i, index i -> finished (action s i) = false -> nthZ (dance_state (td_dance s)) i = 0;
  core_held : held (calls (td_dance s)) ≡ₚ dance_sum (dance_state (td_dance s));
  core_active : active_td s = 0 \/ index (td_index (active_td s));
}.

Lemma action_set i j a s : index i -> index j -> length (actions s) = Z.to_nat VIAL_TAP_DANCE_ENTRIES ->
  action (set_action i a s) j = if decide (i = j) then a else action s j.
Proof using.
  intros Hi Hj Hl. unfold action, set_action, set_actions, index in *. cbn [actions].
  rewrite !nth_lookup. case_decide as Hd.
  - subst. by rewrite list_lookup_insert_eq by lia.
  - rewrite list_lookup_insert_ne by lia. done.
Qed.

(** A change of one action that is not less finished. *)
Lemma core_set i a s : td_core s -> index i -> (finished a = false -> finished (action s i) = false) ->
  td_core (set_action i a s).
Proof using.
  intros [C1 C2 C3 C4 C5 C6 C7] Hi Ha.
  split; try done.
  - cbn. by rewrite length_insert.
  - intros j Hj. rewrite action_set by done. case_decide as Hd; [subst; intros Hf; apply C5; auto|by apply C5].
Qed.

Lemma core_kb f s : (forall k, kb_vial (f k) = kb_vial k) -> td_core s -> td_core (with_kb f s).
Proof using. intros Hf [C1 C2 C3 C4 C5 C6 C7]. split; try done. unfold td_ee in *. cbn. by rewrite Hf. Qed.

Lemma core_active_set td s : td = 0 \/ index (td_index td) -> td_core s -> td_core (set_active td s).
Proof using. intros Ht [C1 C2 C3 C4 C5 C6 C7]. by split. Qed.

Lemma run_calls_direct d s : directly (td_dance s) d ->
  exists f, (forall k, kb_vial (f k) = kb_vial k) /\ run_calls d s = with_kb f (set_dance d s).
Proof using.
  intros (new & Ec & Hn). unfold run_calls. rewrite Ec, length_app, Nat.add_sub, take_app_length. by apply direct_play.
Qed.
Lemma run_calls_kept d s : directly (td_dance s) d ->
  actions (run_calls d s) = actions s /\ active_td (run_calls d s) = active_td s /\ td_dance (run_calls d s) = d.
Proof using. intros H. by destruct (run_calls_direct d s H) as (f & _ & ->). Qed.

(** A callback that moves dance [i] to the state [v]. *)
Lemma core_run i v d s : td_core s -> index i ->
  directly (td_dance s) d ->
  td_entry d = stored_entry e i -> dance_state d = updZ (dance_state (td_dance s)) i v ->
  (finished (action s i) = false -> v = 0) ->
  (forall rest, held (calls (td_dance s)) ≡ₚ
      dance_holds (stored_entry e i) (nthZ (dance_state (td_dance s)) i) ++ rest ->
    held (calls d) ≡ₚ dance_holds (stored_entry e i) v ++ rest) ->
  td_core (run_calls d s).
Proof using Hz Hok Hw.
  intros [C1 C2 C3 C4 C5 C6 C7] Hi Hd He Hs Hv Hh. destruct (dance_sum_split _ i Hi C3) as (rest & S1 & S2).
  destruct (run_calls_direct d s Hd) as (f & Hkb & ->). split.
  - unfold td_ee in *. cbn. by rewrite Hkb.
  - done.
  - cbn. by rewrite Hs, lenZ_updZ.
  - cbn. rewrite He. by apply stored_entry_length.
  - intros j Hj Hf. cbn. rewrite Hs. destruct (decide (i = j)) as [<-|Hne].
    + unfold index in Hi. rewrite nthZ_updZ_eq by lia. by apply Hv.
    + rewrite nthZ_updZ_ne by done. by apply C5.
  - cbn. rewrite Hs, S2. apply Hh. by rewrite C6.
  - done.
Qed.

Lemma holds_nothing entry : dance_holds entry 0 = [].
Proof using. done. Qed.

Lemma reset_core i s : td_core s -> index i ->
  let s' := process_tap_dance_action_on_reset i s in
  td_core s' /\ active_td s' = active_td s
  /\ forall j, index j -> action s' j = if decide (i = j) then no_action else action s j.
Proof using Hz Hok Hw Hdirect.
  intros Hs Hi. pose proof Hs as [C1 C2 C3 C4 C5 C6 C7]. unfold process_tap_dance_action_on_reset.
  rewrite C1.
  pose proof (fun rest => reset_spec e Hz Hok Hw i (td_dance s) Hi C3 C4 (td_view (action s i)) rest) as Hr.
  destruct (stored_direct e Hz Hok Hw i (td_dance s) Hi C4 (td_view (action s i)) (Hdirect i Hi)) as (_ & _ & Hd).
  destruct (on_dance_reset e i (td_view (action s i)) (td_dance s)) as [t d]. cbn [fst snd] in Hr, Hd.
  destruct (Hr []) as (R1 & R2 & _ & _).
  assert (Hrun : td_core (run_calls d s)).
  { apply (core_run i 0); try done. intros rest Hh. rewrite holds_nothing. by apply Hr. }
  destruct (run_calls_kept d s Hd) as (K1 & K2 & K3).
  set (s1 := with_kb send_keyboard_report _).
  assert (Hs1 : td_core s1) by (unfold s1; do 3 (apply core_kb; [try done; intros; apply vial_send|]); exact Hrun).
  assert (Hz0 : nthZ (dance_state (td_dance s1)) i = 0) by (cbn; rewrite K3, R2; unfold index in Hi; apply nthZ_updZ_eq; lia).
  assert (Ha1 : forall j, action s1 j = action s j) by (intros j; unfold action; cbn; by rewrite K1).
  split_and!; [|done|].
  - destruct Hs1 as [D1 D2 D3 D4 D5 D6 D7]. split; try done; [cbn; by rewrite length_insert|].
    intros j Hj. rewrite action_set by done. case_decide; [by subst|by apply D5].
  - intros j Hj. rewrite action_set by (done || apply Hs1). by rewrite Ha1.
Qed.

Lemma finish_core i s : td_core s -> index i ->
  let s' := process_tap_dance_action_on_dance_finished i s in
  td_core s' /\ active_td s' = 0
  /\ forall j, index j -> action s' j =
      if decide (i = j) then (if pressed (action s i) then set_a_finished (action s i) else no_action) else action s j.
Proof using Hz Hok Hw Hdirect.
  intros Hs Hi. unfold process_tap_dance_action_on_dance_finished.
  set (s1 := if negb (finished (action s i)) then _ else s).
  assert (H1 : td_core s1 /\ forall j, index j -> action s1 j = if decide (i = j) then set_a_finished (action s i) else action s j).
  { unfold s1. destruct (finished (action s i)) eqn:Hf; cbn [negb].
    - split; [done|]. intros j Hj. case_decide; [subst|done]. destruct (action s j); cbn in *. by subst.
    - set (a := set_a_finished (action s i)). set (s2 := with_kb send_keyboard_report _).
      assert (Hs2 : td_core s2).
      { unfold s2. do 3 (apply core_kb; [try done; intros; apply vial_send|]). by apply core_set. }
      pose proof Hs2 as [C1 C2 C3 C4 C5 C6 C7].
      assert (Ha2 : forall j, index j -> action s2 j = if decide (i = j) then a else action s j)
        by (intros j Hj; apply (action_set i j a s Hi Hj), Hs).
      rewrite C1. destruct (finished_spec e Hz Hok Hw i (td_dance s2) Hi C3 C4 (td_view a)) as (F1 & F2 & F3).
      destruct (stored_direct e Hz Hok Hw i (td_dance s2) Hi C4 (td_view a) (Hdirect i Hi)) as (_ & Hd & _).
      split; [|intros j Hj; rewrite <- Ha2 by done; unfold action; by rewrite (proj1 (run_calls_kept _ _ Hd))].
      apply (core_run i (dance_step (td_view a))); try done.
      + rewrite Ha2 by done. by rewrite decide_True.
      + intros rest. change (dance_state (td_dance s2)) with (dance_state (td_dance s)).
        rewrite (core_idle s Hs i Hi Hf), holds_nothing, F3. cbn [app]. by intros ->. }
  destruct H1 as [H1 Ha1].
  assert (Hs1 : td_core (set_active 0 s1)) by (apply core_active_set; [by left|done]).
  assert (Hp : pressed (action (set_active 0 s1) i) = pressed (action s i)).
  { change (action (set_active 0 s1) i) with (action s1 i). rewrite Ha1 by done. by rewrite decide_True. }
  rewrite Hp. destruct (pressed (action s i)) eqn:Hpr; cbn [negb].
  - split_and!; [done|done|]. intros j Hj. rewrite <- Ha1 by done. done.
  - destruct (reset_core i _ Hs1 Hi) as (R1 & R2 & R3). split_and!; [done|by rewrite R2|].
    intros j Hj. rewrite R3 by done. case_decide; [done|].
    change (action (set_active 0 s1) j) with (action s1 j). rewrite Ha1 by done. by rewrite decide_False.
Qed.

(** ** Events *)

(** The actions agree with the keys that are down, and only a dance whose key is
    down is finished. *)
Definition tidy_at (down : Z -> bool) s i : Prop :=
  pressed (action s i) = down i /\ (finished (action s i) = true -> down i = true).
Definition tidy (down : Z -> bool) s : Prop := td_core s /\ forall i, index i -> tidy_at down s i.

Definition press_at (down : Z -> bool) (i : Z) (b : bool) : Z -> bool := fun j => if decide (i = j) then b else down j.

Lemma finish_tidy down i s : index i -> tidy down s -> tidy down (process_tap_dance_action_on_dance_finished i s).
Proof using Hz Hok Hw Hdirect.
  intros Hi [Hs Ht]. destruct (finish_core i s Hs Hi) as (F1 & _ & F3). split; [done|].
  intros j Hj. unfold tidy_at. rewrite F3 by done. case_decide as Hd; [subst j|by apply Ht].
  destruct (Ht i Hi) as [Hp Hf]. destruct (pressed (action s i)) eqn:E1; cbn; rewrite ?E1, <- Hp; done.
Qed.

Lemma preprocess_tidy down keycode p s : tidy down s -> tidy down (preprocess_tap_dance keycode p s).2.
Proof using Hz Hok Hw Hdirect.
  intros Ht. unfold preprocess_tap_dance. destruct p; cbn [negb snd]; [|done].
  destruct (negb (truthy (active_td s)) || (keycode =? active_td s)) eqn:Ea; [done|]. cbn [snd].
  assert (Hi : index (QK_TAP_DANCE_GET_INDEX (active_td s))).
  { destruct Ht as [[_ _ _ _ _ _ [Ha|Ha]] _]; [by rewrite Ha in Ea|exact Ha]. }
  revert Hi. generalize (QK_TAP_DANCE_GET_INDEX (active_td s)) as i. intros i Hi.
  assert (H1 : tidy down (set_action i (set_a_interrupted keycode (action s i)) s)).
  { destruct Ht as [Hs Ht]. split; [by apply core_set|]. intros j Hj. unfold tidy_at.
    rewrite action_set by (done || apply Hs). case_decide; [subst|]; by apply Ht. }
  apply (finish_tidy down i) in H1; [|done]. destruct H1 as [H1 H2]. split; [by apply core_kb|exact H2].
Qed.

(** The keycode of a tap dance. *)
Definition is_dance keycode : bool := (QK_TAP_DANCE <=? keycode) && (keycode <=? QK_TAP_DANCE_MAX).

Lemma dance_code keycode : is_dance keycode = true ->
  0 <= QK_TAP_DANCE_GET_INDEX keycode < 256 /\ u16 (keycode - QK_TAP_DANCE) = QK_TAP_DANCE_GET_INDEX keycode.
Proof using.
  unfold is_dance, QK_TAP_DANCE, QK_TAP_DANCE_MAX, QK_TAP_DANCE_GET_INDEX. intros H. b2p.
  change 255 with (Z.ones 8). rewrite Z.land_ones by done. unfold u16. split; dlia.
Qed.

(** A release of dance [i], early or not, leaves the others alone. *)
Lemma vial_release_tidy down keycode p s : tidy down s ->
  let s' := vial_release keycode p s in
  td_core s' /\ forall j, index j ->
    ~ (is_dance keycode = true /\ p = false /\ j = QK_TAP_DANCE_GET_INDEX keycode) -> tidy_at down s' j.
Proof using Hz Hok Hw HN Hdirect.
  intros [Hs Ht]. pose proof Hs as [C1 C2 C3 C4 C5 C6 C7]. unfold vial_release, process_record_vial. rewrite C1.
  assert (Hsame : td_core (set_dance (td_dance s) s)) by (by split).
  fold (is_dance keycode). destruct p; cbn [negb andb]; [split; [done|intros; by apply Ht]|].
  destruct (is_dance keycode) eqn:Hd; [|split; [done|intros; by apply Ht]].
  destruct (dance_code keycode Hd) as [Hr Hu]. rewrite Hu. rewrite (u8_id (QK_TAP_DANCE_GET_INDEX keycode)) by exact Hr.
  revert Hr. generalize (QK_TAP_DANCE_GET_INDEX keycode) as i. intros i Hr.
  destruct (decide (i < VIAL_TAP_DANCE_ENTRIES)) as [Hlt|Hge].
  - assert (Hi : index i) by (unfold index; lia). rewrite (get_stored_entry e Hz Hok Hw i) by done. cbn [Z.eqb negb].
    set (d := set_td_entry _ _).
    assert (H1 : td_core (set_dance d s)) by (split; try done; by apply stored_entry_length).
    destruct (_ || _).
    + destruct (finish_core i (set_action i (set_a_pressed false (action (set_dance d s) i)) (set_dance d s))) as (F1 & _ & F3).
      * by apply core_set.
      * done.
      * split; [exact F1|]. intros j Hj Hne. unfold tidy_at. cbn [td_pressed]. rewrite F3 by done.
        rewrite decide_False by (intros ->; by apply Hne).
        rewrite action_set by (done || apply C2). rewrite decide_False by (intros ->; by apply Hne). by apply Ht.
    + split; [exact H1|]. intros j Hj _. by apply Ht.
  - unfold dynamic_keymap_get_tap_dance. rewrite (proj2 (Z.leb_le _ _)) by lia. cbn [Z.eqb negb].
    split; [by split|intros; by apply Ht].
Qed.

Lemma updZ_same l i : updZ l i (nthZ l i) = l.
Proof using.
  unfold updZ. destruct (i <? 0) eqn:Ei; [done|]. b2p.
  destruct (decide (i < lenZ l)) as [Hlt|Hge].
  - apply list_insert_id. rewrite nthZ_lookup by lia. unfold lenZ in Hlt.
    destruct (lookup_lt_is_Some_2 l (Z.to_nat i)) as [x ->]; [lia|done].
  - apply list_insert_ge. unfold lenZ in *. lia.
Qed.

Lemma tap_core i s : td_core s -> index i ->
  let s' := process_tap_dance_action_on_each_tap i s in
  td_core s' /\ forall j, index j ->
    pressed (action s' j) = pressed (action s j) /\ finished (action s' j) = finished (action s j).
Proof using Hz Hok Hw Hdirect.
  intros Hs Hi. unfold process_tap_dance_action_on_each_tap. set (a := set_a_mods _ _ _).
  assert (Ha : pressed a = pressed (action s i) /\ finished a = finished (action s i)) by done.
  assert (H1 : td_core (set_action i a s)) by (apply core_set; [done|done|by rewrite (proj2 Ha)]).
  pose proof H1 as [C1 C2 C3 C4 C5 C6 C7]. rewrite C1.
  destruct (tap_spec e Hz Hok Hw i (td_dance (set_action i a s)) Hi C3 C4 (td_view a)) as (T1 & T2 & T3).
  destruct (stored_direct e Hz Hok Hw i (td_dance (set_action i a s)) Hi C4 (td_view a) (Hdirect i Hi)) as (Hd & _).
  split.
  - apply (core_run i (nthZ (dance_state (td_dance s)) i)); try done.
    + by rewrite T2, updZ_same.
    + by apply C5.
    + intros rest. by rewrite T3.
  - intros j Hj. unfold action at 1 3. rewrite (proj1 (run_calls_kept _ _ Hd)). fold (action (set_action i a s) j).
    rewrite action_set by (done || apply Hs). case_decide; [by subst|done].
Qed.

Lemma process_tidy down keycode p s :
  td_core s -> (forall j, index j -> ~ (is_dance keycode = true /\ j = QK_TAP_DANCE_GET_INDEX keycode) -> tidy_at down s j) ->
  (is_dance keycode = true -> p = true -> tidy down s) ->
  tidy (if is_dance keycode then press_at down (QK_TAP_DANCE_GET_INDEX keycode) p else down)
    (process_tap_dance keycode p s).2.
Proof using Hz Hok Hw HN Hdirect.
  intros Hs Hne Hpress. unfold process_tap_dance. fold (is_dance keycode).
  destruct (is_dance keycode) eqn:Hd; cbn [negb]; [|split; [done|intros j Hj; apply Hne; [done|by intros []]]].
  destruct (dance_code keycode Hd) as [Hr _].
  assert (Hact : index (QK_TAP_DANCE_GET_INDEX keycode) -> keycode = 0 \/ index (td_index keycode)) by (by right).
  revert Hr Hne Hact. generalize (QK_TAP_DANCE_GET_INDEX keycode) as i. intros i Hr Hne Hact. unfold tap_dance_count.
  assert (Hoth : forall j, index j -> i <> j -> tidy_at down s j) by (intros j Hj Hij; apply Hne; [done|intros [_ ->]; done]).
  destruct (VIAL_TAP_DANCE_ENTRIES <=? i) eqn:Hle; b2p.
  { split; [done|]. intros j Hj. unfold index in *. unfold tidy_at, press_at. rewrite decide_False by lia. apply Hoth; unfold index; lia. }
  assert (Hi : index i) by (unfold index; lia). specialize (Hact Hi).
  set (s1 := set_action i (set_a_pressed p (action s i)) s).
  assert (H1 : td_core s1) by (by apply core_set).
  assert (Ha1 : forall j, index j -> action s1 j = if decide (i = j) then set_a_pressed p (action s i) else action s j)
    by (intros j Hj; apply action_set; [done|done|apply Hs]).
  destruct p.
  - destruct (tap_core i (set_last_tap (now (td_kb s1)) s1)) as [T1 T2]; [by destruct H1; split|done|].
    set (s2 := process_tap_dance_action_on_each_tap i _) in *. cbn [snd]. split.
    + apply core_active_set; [destruct (finished _); [by left|exact Hact]|done].
    + intros j Hj. unfold tidy_at, press_at. change (action (set_active _ s2) j) with (action s2 j).
      destruct (T2 j Hj) as [-> ->]. change (action (set_last_tap _ s1) j) with (action s1 j).
      rewrite Ha1 by done. case_decide; [done|by apply Hoth].
  - unfold process_tap_dance_action_on_each_release. destruct (finished (action s1 i)) eqn:Hf; cbn [snd].
    + destruct (reset_core i s1 H1 Hi) as (R1 & R2 & R3).
      assert (Hend : tidy (press_at down i false) (process_tap_dance_action_on_reset i s1)).
      { split; [done|]. intros j Hj. unfold tidy_at, press_at. rewrite R3 by done. case_decide; [done|].
        rewrite Ha1 by done. rewrite decide_False by done. by apply Hoth. }
      case_if; [|done]. destruct Hend as [He1 He2]. split; [|exact He2]. apply core_active_set; [by left|done].
    + split; [done|]. intros j Hj. unfold tidy_at, press_at. rewrite Ha1 by done.
      case_decide as Hij; [|by apply Hoth]. subst j. rewrite Ha1, decide_True in Hf by done.
      split; [done|]. by rewrite Hf.
Qed.

(** A key event, a run of the timer task, or a change of the rest of the
    firmware that leaves the stored configuration alone. *)
Inductive td_event :=
| DanceKey (keycode again : Z) (is_pressed : bool)
| DanceTask
| Env (k : kb E).

Definition td_step (ev : td_event) s : tap_dance E :=
  match ev with
  | DanceKey keycode again p => tap_dance_key keycode again p s
  | DanceTask => tap_dance_task s
  | Env k => with_kb (fun _ => k) s
  end.

(** The tap dance keys that are down, by the keycodes the events are processed
    with. *)
Definition down_step (ev : td_event) s (down : Z -> bool) : Z -> bool :=
  match ev with
  | DanceKey keycode again p =>
      let keycode := if (preprocess_tap_dance keycode p s).1 then again else keycode in
      if is_dance keycode then press_at down (QK_TAP_DANCE_GET_INDEX keycode) p else down
  | _ => down
  end.

Definition ev_ok (ev : td_event) : Prop := match ev with Env k => ee (kb_vial k) = e | _ => True end.

Definition td_run (evs : list td_event) (sd : tap_dance E * (Z -> bool)) : tap_dance E * (Z -> bool) :=
  foldl (fun '(s, down) ev => (td_step ev s, down_step ev s down)) sd evs.

Lemma step_tidy ev down s : ev_ok ev -> tidy down s -> tidy (down_step ev s down) (td_step ev s).
Proof using Hz Hok Hw HN Hdirect.
  intros He Ht. destruct ev as [keycode again p| |k]; cbn [td_step down_step].
  - unfold tap_dance_key. pose proof (preprocess_tidy down keycode p s Ht) as H1.
    destruct (preprocess_tap_dance keycode p s) as [changed s1]. cbn [fst snd] in *.
    set (kc := if changed then again else keycode).
    destruct (vial_release_tidy down kc p s1 H1) as [V1 V2].
    apply process_tidy; [done| |].
    + intros j Hj Hne. apply V2; [done|]. intros (Hd & _ & Hje). by apply Hne.
    + intros Hd ->. split; [done|]. intros j Hj. apply V2; [done|]. by intros (_ & Hp & _).
  - unfold tap_dance_task. destruct (negb (truthy (active_td s)) || _) eqn:Ea; [done|].
    assert (Hi : index (QK_TAP_DANCE_GET_INDEX (active_td s))).
    { destruct Ht as [[_ _ _ _ _ _ [Ha|Ha]] _]; [by rewrite Ha in Ea|exact Ha]. }
    case_if; [|done]. by apply finish_tidy.
  - destruct Ht as [[C1 C2 C3 C4 C5 C6 C7] Ht]. by split.
Qed.

Lemma run_tidy evs s down : Forall ev_ok evs -> tidy down s ->
  tidy (td_run evs (s, down)).2 (td_run evs (s, down)).1.
Proof using Hz Hok Hw HN Hdirect.
  intros Hev. revert s down. induction Hev as [|ev evs He _ IH]; intros s down Ht; [done|].
  cbn [td_run foldl]. apply IH. by apply step_tidy.
Qed.

(** No dance is under way. *)
Record td_start s : Prop := {
  start_ee : td_ee s = e;
  start_actions : actions s = replicate (Z.to_nat VIAL_TAP_DANCE_ENTRIES) no_action;
  start_states : dance_state (td_dance s) = memset 0 VIAL_TAP_DANCE_ENTRIES;
  start_entry : lenZ (td_entry (td_dance s)) = entry_size;
  start_calls : calls (td_dance s) = [];
  start_active : active_td s = 0;
}.

Lemma start_tidy s : td_start s -> tidy (fun _ => false) s.
Proof using HN.
  intros [S1 S2 S3 S4 S5 S6].
  assert (Ha : forall i, action s i = no_action).
  { intros i. unfold action. rewrite S2, nth_lookup. destruct (_ !! _) as [a|] eqn:El; [|done].
    by apply lookup_replicate in El as [-> _]. }
  split; [split|].
  - done.
  - by rewrite S2, length_replicate.
  - rewrite S3. apply lenZ_replicate; lia.
  - done.
  - intros i Hi _. rewrite S3. unfold index in Hi. by apply nthZ_memset.
  - rewrite S5, S3. unfold dance_sum.
    replace (concat _) with (@nil Z); [done|]. symmetry. apply concat_nil_Forall, List.Forall_forall.
    intros l Hl. apply in_map_iff in Hl as (i & <- & Hi). apply list_elem_of_In, elem_of_seqZ in Hi.
    by rewrite nthZ_memset by lia.
  - by left.
  - intros i Hi. unfold tidy_at. rewrite Ha. done.
Qed.

(** C19: tap dances hold nothing for ever. Let the stored tap dances be fixed, and
    send keycodes up to [QK_MODS_MAX] only (basic keys with or without modifiers:
    a keycode beyond is sent as a key event that interrupts the dance itself).
    Over any sequence of key events, timer tasks and other work of the firmware,
    the keycodes that dances hold down are, each once, those of the dances that
    are finished; a dance is finished only while its key is down, and a dance that
    is not finished holds nothing. So when no tap dance key is down, no keycode of
    a tap dance is held. *)
Theorem tap_dances_release evs s :
  td_start s -> Forall ev_ok evs ->
  let '(s', down) := td_run evs (s, fun _ => false) in
  held (calls (td_dance s')) ≡ₚ dance_sum (dance_state (td_dance s'))
  /\ (forall i, index i ->
       pressed (action s' i) = down i
       /\ (finished (action s' i) = true -> down i = true)
       /\ (finished (action s' i) = false -> dance_holds (stored_entry e i) (nthZ (dance_state (td_dance s')) i) = []))
  /\ ((forall i, index i -> down i = false) -> held (calls (td_dance s')) = []).
Proof using Hz Hok Hw HN Hdirect.
  intros Hs Hev. pose proof (run_tidy evs s _ Hev (start_tidy s Hs)) as Ht.
  destruct (td_run evs (s, fun _ => false)) as [s' down]. cbn [fst snd] in Ht. destruct Ht as [Hc Ht].
  assert (Hidle : forall i, index i -> finished (action s' i) = false ->
            dance_holds (stored_entry e i) (nthZ (dance_state (td_dance s')) i) = []).
  { intros i Hi Hf. rewrite (core_idle _ Hc i Hi Hf). done. }
  split_and!; [apply Hc| |].
  - intros i Hi. destruct (Ht i Hi) as [Hp Hf]. split_and!; [done|done|by apply Hidle].
  - intros Hup. apply Permutation_nil. symmetry. rewrite (core_held _ Hc). unfold dance_sum.
    replace (concat _) with (@nil Z); [done|]. symmetry. apply concat_nil_Forall, List.Forall_forall.
    intros l Hl. apply in_map_iff in Hl as (i & <- & Hi). apply list_elem_of_In, elem_of_seqZ in Hi.
    apply Hidle; [unfold index; lia|]. destruct (Ht i) as [_ Hf]; [unfold index; lia|].
    destruct (finished _); [|done]. rewrite Hup in Hf by (unfold index; lia). by specialize (Hf eq_refl).
Qed.
End proofs.

(** ** A keyboard with two tap dances

    Dance 0 sends A when tapped and B when held, dance 1 sends C and D. *)
Module TwoDances.
Definition config : KeymapConfig := {|
  EECONFIG_SIZE := 36;
  VIA_EEPROM_LAYOUT_OPTIONS_SIZE := 1;
  VIA_EEPROM_CUSTOM_CONFIG_SIZE := 0;
  DYNAMIC_KEYMAP_LAYER_COUNT := 2;
  MATRIX_ROWS := 2;
  MATRIX_COLS := 3;
  NUM_ENCODERS := 1;
  VIAL_TAP_DANCE_ENTRIES := 2;
  VIAL_COMBO_ENTRIES := 1;
  VIAL_KEY_OVERRIDE_ENTRIES := 1;
  DYNAMIC_KEYMAP_MACRO_COUNT := 4;
  DYNAMIC_KEYMAP_EEPROM_MAX_ADDR := 299;
  TAPPING_TERM := 200;
  keycode_at_keymap_location_raw := fun l r c => 0;
  keycode_at_encodermap_location_raw := fun l i cw => 0;
|}.
Definition config_ok : @KeymapConfigOk config.
Proof. split; unfold config; vm_compute; repeat split; discriminate. Qed.
#[export] Existing Instance config.

Definition entry (tap hold : Z) : list Z := [tap; 0; hold; 0; 0; 0; 0; 0; 200; 0].
Definition stored : KeymapExample.store :=
  (dynamic_keymap_set_tap_dance 1 (entry 6 7)
     (dynamic_keymap_set_tap_dance 0 (entry 4 5) KeymapExample.blank).2).2.
Definition qcfg : QmkSettingsConfig := ViaExample.qcfg.
#[export] Existing Instance qcfg.
#[export] Existing Instance MouseKey.mcfg.

(** The keyboard at a time. *)
Definition keyboard_with (store : KeymapExample.store) (t : Z) : kb KeymapExample.store :=
  mk_kb (mk_vial (mk_qs store (memset 0 36) 0x0400 175 (mk_mousekey 0 0 0 0 0 0 0 0) 0) 0 0 0 0 [] [] [] [])
    (mk_layers 0 1 [] []) (mk_mods 0 0 0 0 0 0 0) (mk_osl 0 0)
    (mk_host (mk_reports false (memset 0 6) (memset 0 30)) (blank_report false) (blank_report true) [])
    mouse_start t.
Definition keyboard_at : Z -> kb KeymapExample.store := keyboard_with stored.
Definition start_with (store : KeymapExample.store) : tap_dance KeymapExample.store :=
  mk_tap_dance 0 0 (replicate 2 no_action) (mk_dance [0; 0] (memset 0 10) 0 []) (keyboard_with store 0).
Definition start : tap_dance KeymapExample.store := start_with stored.

(** What [action_exec] does with the keycode [MO(1)]: the dance code sees it,
    then the layer is switched. *)
Definition momentary : EventExec KeymapExample.store := fun _ pressed s =>
  with_kb (fun k => set_layers ((if pressed then layer_on else layer_off) 1 (kb_layers k)) k) s.
#[export] Instance exec_mo : EventExec KeymapExample.store := fun keycode pressed s =>
  momentary keycode pressed (preprocess_tap_dance (exec := momentary) keycode pressed s).2.

(** Dance 0 is held past its term, then dance 1 is pressed and dance 0 released. *)
Definition overlap : list td_event :=
  [Env (keyboard_at 1000); DanceKey 0x5700 0x5700 true; Env (keyboard_at 1300); DanceTask;
   DanceKey 0x5701 0x5701 true; DanceKey 0x5700 0x5700 false].

(** The early release of [process_record_vial] also makes the engine forget the
    other dance: its key is down and it is not finished, but it is no longer
    active, so however long it is held its hold never comes. *)
Example release_forgets_active_dance :
  let s := (td_run overlap (start, fun _ => false)).1 in
  active_td s = 0 /\ pressed (action s 1) = true /\ finished (action s 1) = false
  /\ held (calls (td_dance s)) = []
  /\ tap_dance_task (with_kb (fun _ => keyboard_at 9000) s) = with_kb (fun _ => keyboard_at 9000) s.
Proof. vm_compute. repeat split. Qed.

(** A dance of [MO(1)], tapped: the press of the keycode resets the dance, which
    sends the release first. The layer stays on. *)
Definition mo_dance : KeymapExample.store :=
  (dynamic_keymap_set_tap_dance 0 ([0x21; 0x52] ++ memset 0 6 ++ [200; 0]) KeymapExample.blank).2.
Example layer_dance_stays_on :
  let s := (td_run [Env (keyboard_with mo_dance 1000); DanceKey 0x5700 0x5700 true; DanceKey 0x5700 0x5700 false;
                    Env (keyboard_with mo_dance 1300); DanceTask] (start_with mo_dance, fun _ => false)).1 in
  calls (td_dance s) = [QsWaitMs; ActionExec 0x5221 false; QsWaitMs; ActionExec 0x5221 true]
  /\ finished (action s 0) = false /\ layer_state_is (kb_layers (td_kb s)) 1 = true.
Proof. vm_compute. repeat split. Qed.
End TwoDances.

Section witnesses.
#[local] Existing Instance KeymapExample.laws.
Import TwoDances.

Lemma stored_wf : ee_wf stored.
Proof.
  assert (Ha : 0 <= VIAL_TAP_DANCE_EEPROM_ADDR <= 280) by (vm_compute; split; discriminate).
  assert (Hset : forall i t h e, 0 <= i < 2 -> byte_range t -> byte_range h -> ee_wf e ->
            ee_wf (dynamic_keymap_set_tap_dance i (entry t h) e).2).
  { intros i t h e Hi Ht Hh He. unfold dynamic_keymap_set_tap_dance. change VIAL_TAP_DANCE_ENTRIES with 2.
    rewrite (proj2 (Z.leb_gt _ _)) by lia. apply ee_write_law; [done|repeat constructor; lia| |].
    - unfold entry_size. lia.
    - change ee_size with 300. change (lenZ (entry t h)) with 10. unfold entry_size. lia. }
  unfold stored. repeat apply Hset; try lia. exact KeymapExample.example_wf.
Qed.

Lemma tap_dances_release_witness :
  held (calls (td_dance (td_run (overlap ++ [DanceKey 0x5701 0x5701 false]) (start, fun _ => false)).1)) = [].
Proof.
  assert (Hs : td_start stored start) by (split; vm_compute; reflexivity).
  unshelve epose proof (tap_dances_release stored _ config_ok _ _
    _ (overlap ++ [DanceKey 0x5701 0x5701 false]) start Hs _) as H.
  { vm_compute. reflexivity. }
  { exact stored_wf. }
  { vm_compute. split; discriminate. }
  { intros i Hi j Hj. unfold index in Hi. change VIAL_TAP_DANCE_ENTRIES with 2 in Hi.
    assert (Hc : (i = 0 \/ i = 1) /\ (j = 0 \/ j = 1 \/ j = 2 \/ j = 3)) by lia.
    destruct Hc as [[->| ->] [->|[->|[->| ->]]]]; vm_compute; discriminate. }
  { repeat constructor. }
  destruct (td_run _ _) as [s' down] eqn:Er. refine (proj2 (proj2 H) _).
  intros i Hi. assert (Hd : down = (td_run (overlap ++ [DanceKey 0x5701 0x5701 false]) (start, fun _ => false)).2)
    by (by rewrite Er).
  rewrite Hd. unfold index in Hi. assert (Hc : i = 0 \/ i = 1) by (change VIAL_TAP_DANCE_ENTRIES with 2 in Hi; lia).
  destruct Hc as [-> | ->]; vm_compute; reflexivity.
Defined.
End witnesses.
