(* ===== verification/KeyOverride.v ===== *)
(** Key overrides: [quantum/process_keycode/process_key_override.c], over the
    keyboard of [ActionUtil] and the overrides Vial keeps. Vial's overrides have
    no custom action, and the build has no dummy keycode for flashing modifiers
    and does not look at the weak modifiers. *)

From S2P Require Import Prelude.
From S2P Require Import Eeprom.
From S2P Require Import DynamicKeymap.
From S2P Require Import QmkSettings.
From S2P Require Import Vial.
From S2P Require Import KeycodeConfig.
From S2P Require Import KeymapCommon.
From S2P Require Import ActionLayer.
From S2P Require Import MouseKey.
From S2P Require Import Keyboard.
From S2P Require Import VialDance.
From S2P Require Import ActionUtil.

Definition KEY_OVERRIDE_REPEAT_DELAY : Z := 500.
Definition QK_USER : Z := 0x7E40.
Definition SAFE_RANGE : Z := QK_USER.
Definition QK_KEY_OVERRIDE_TOGGLE : Z := 0x7C5D.
Definition QK_KEY_OVERRIDE_ON : Z := 0x7C5E.
Definition QK_KEY_OVERRIDE_OFF : Z := 0x7C5F.
Definition ko_option_activation_trigger_down : Z := 1 << 0.
Definition ko_option_activation_required_mod_down : Z := 1 << 1.
Definition ko_option_activation_negative_mod_up : Z := 1 << 2.
Definition ko_options_all_activations : Z :=
  (ko_option_activation_negative_mod_up .| ko_option_activation_required_mod_down) .| ko_option_activation_trigger_down.
Definition ko_option_one_mod : Z := 1 << 3.
Definition ko_option_no_reregister_trigger : Z := 1 << 4.
Definition ko_option_no_unregister_on_other_key_down : Z := 1 << 5.

(** [QK_LCTL | ... | QK_RGUI]. *)
Definition all_mods : Z := 0x1F00.
Definition clear_mods_from (keycode : Z) : Z :=
  if in_range QK_MODS QK_MODS_MAX keycode then u16 (keycode .& Z.lnot all_mods) else keycode.

(** The statics of the file. The active override is a pointer into the table. *)
Record override_vars := mk_vars {
  active_override : option Z;
  active_override_trigger_is_down : bool;
  last_key_down : Z;
  last_key_down_time : Z;
  defer_reference_time : Z;
  defer_delay : Z;
  deferred_register : Z;
  enabled : bool;
}.
Definition vars_start : override_vars := mk_vars None false 0 0 0 0 0 true.

(** The keyboard, the statics and the clock of [timer_read32()]. *)
Record overriding (E : Type) := mk_overriding { board : kb E; vars : override_vars; time32 : Z }.
Arguments mk_overriding {E} _ _ _.
Arguments board {E} _.
Arguments vars {E} _.
Arguments time32 {E} _.

Section override.
Context {E : Type} {eeprom : Eeprom E} {cfg : KeymapConfig} {mcfg : MouseKeyConfig}.
Implicit Types (s : overriding E) (v : override_vars) (o : key_override) (keycode mods : Z).

Definition on_board (f : kb E -> kb E) s : overriding E := mk_overriding (f (board s)) (vars s) (time32 s).
Definition on_vars (f : override_vars -> override_vars) s : overriding E := mk_overriding (board s) (f (vars s)) (time32 s).
(** Both clocks run on. *)
Definition wait_both (ms : Z) s : overriding E := mk_overriding (wait_ms ms (board s)) (vars s) (u32 (time32 s + ms)).

Definition set_active (a : option Z) (trigger_is_down : bool) v : override_vars :=
  mk_vars a trigger_is_down (last_key_down v) (last_key_down_time v) (defer_reference_time v) (defer_delay v)
    (deferred_register v) (enabled v).
Definition set_last (key time : Z) v : override_vars :=
  mk_vars (active_override v) (active_override_trigger_is_down v) key time (defer_reference_time v) (defer_delay v)
    (deferred_register v) (enabled v).
Definition set_deferred (reference delay keycode : Z) v : override_vars :=
  mk_vars (active_override v) (active_override_trigger_is_down v) (last_key_down v) (last_key_down_time v) reference delay
    keycode (enabled v).
Definition cancel_deferred v : override_vars := set_deferred (defer_reference_time v) (defer_delay v) 0 v.
Definition set_enabled (b : bool) v : override_vars :=
  mk_vars (active_override v) (active_override_trigger_is_down v) (last_key_down v) (last_key_down_time v)
    (defer_reference_time v) (defer_delay v) (deferred_register v) b.

Definition override_at s (idx : Z) : key_override := default ko_zero (vial_key_overrides (kb_vial (board s)) !! Z.to_nat idx).

Definition key_override_matches_active_modifiers o mods : bool :=
  if negb (ko_negative_mod_mask o .& mods =? 0) then false
  else if ko_trigger_mods o =? 0 then true
  else if negb (ko_options o .& ko_option_one_mod =? 0) then negb (ko_trigger_mods o .& mods =? 0)
  else
    let one_sided_required_mods := (ko_trigger_mods o .& 0xF) .| (ko_trigger_mods o >> 4) in
    let active_required_mods := ko_trigger_mods o .& mods in
    let one_sided_active_required_mods := (active_required_mods .& 0xF) .| (active_required_mods >> 4) in
    one_sided_active_required_mods =? one_sided_required_mods.

Definition schedule_deferred_register keycode s : overriding E :=
  let v := vars s in
  if TIMER_DIFF_32 (time32 s) (last_key_down_time v) <? KEY_OVERRIDE_REPEAT_DELAY
  then on_vars (set_deferred (last_key_down_time v) KEY_OVERRIDE_REPEAT_DELAY keycode) s
  else on_vars (set_deferred (time32 s) 50 keycode) s.

(** In this function the replacement is an eight-bit variable. *)
Definition unregister_replacement o s : overriding E :=
  let mod_free_replacement := u8 (clear_mods_from (ko_replacement o)) in
  if negb (mod_free_replacement =? KC_NO) && (mod_free_replacement <? SAFE_RANGE) then
    if IS_BASIC_KEYCODE mod_free_replacement then on_board (del_key mod_free_replacement) s
    else on_board (fun k => unregister_code mod_free_replacement (send_keyboard_report k)) s
  else s.

Definition clear_active_override (allow_reregister : bool) s : overriding E :=
  match active_override (vars s) with
  | None => s
  | Some idx =>
      let s := on_vars cancel_deferred s in
      let s := on_board (with_mods clear_suppressed_override_mods) s in
      let s := on_board (with_mods clear_weak_override_mods) s in
      let o := override_at s idx in
      let s := unregister_replacement o s in
      let trigger := ko_trigger o in
      let reregister_trigger :=
        allow_reregister && (ko_options o .& ko_option_no_reregister_trigger =? 0)
        && active_override_trigger_is_down (vars s) && negb (trigger =? KC_NO) && (trigger <? SAFE_RANGE) in
      let s := if reregister_trigger then schedule_deferred_register trigger s else s in
      on_vars (set_active None false) (on_board send_keyboard_report s)
  end.

Definition key_override_on s : overriding E := on_vars (set_enabled true) s.
Definition key_override_off s : overriding E := clear_active_override false (on_vars (set_enabled false) s).
Definition key_override_toggle s : overriding E := if enabled (vars s) then key_override_off s else key_override_on s.

Definition check_activation_event o (key_down is_mod : bool) : bool :=
  let options := if ko_options o .& ko_options_all_activations =? 0 then ko_options_all_activations else ko_options o in
  if is_mod then
    if key_down then truthy (options .& ko_option_activation_required_mod_down)
    else truthy (options .& ko_option_activation_negative_mod_up)
  else if key_down then truthy (options .& ko_option_activation_trigger_down)
  else false.

(** The tests of the loop of [try_activating_override]. *)
Definition should_activate s (idx keycode layer : Z) (key_down is_mod : bool) (active_mods : Z) : bool :=
  let o := override_at s idx in
  let is_trigger := ko_trigger o =? keycode in
  let no_trigger := ko_trigger o =? KC_NO in
  let trigger_down := is_trigger && key_down in
  negb ((active_mods =? 0) && negb (ko_trigger_mods o =? 0))
  && negb (ko_layers o .& (1 << layer) =? 0)
  && check_activation_event o key_down is_mod
  && negb (is_trigger && negb key_down)
  && negb (bool_decide (active_override (vars s) = Some idx))
  && ko_enabled o
  && key_override_matches_active_modifiers o active_mods
  && (no_trigger || trigger_down || (last_key_down (vars s) =? ko_trigger o)).

(** The replacement goes down. *)
Definition register_replacement o (is_mod : bool) s : overriding E :=
  let mod_free_replacement := clear_mods_from (ko_replacement o) in
  if negb (mod_free_replacement =? KC_NO) && (mod_free_replacement <? SAFE_RANGE) then
    let s := on_board (with_mods (set_weak_override_mods (extract_mod_bits (ko_replacement o)))) s in
    if is_mod then on_board send_keyboard_report (schedule_deferred_register mod_free_replacement s)
    else if IS_BASIC_KEYCODE mod_free_replacement then on_board (add_key mod_free_replacement) s
    else on_board (register_code (u8 mod_free_replacement)) (wait_both 10 (on_board send_keyboard_report s))
  else on_board send_keyboard_report s.

(** The body of the loop, for an override that activates. *)
Definition activate_override (idx keycode : Z) (key_down is_mod : bool) s : overriding E :=
  let o := override_at s idx in
  let no_trigger := ko_trigger o =? KC_NO in
  let trigger_down := (ko_trigger o =? keycode) && key_down in
  let s := clear_active_override false s in
  let s := on_vars (set_active (Some idx) true) s in
  let s := on_board (with_mods (set_suppressed_override_mods (ko_suppressed_mods o))) s in
  let s :=
    if negb trigger_down && negb no_trigger then
      if IS_BASIC_KEYCODE (ko_trigger o) then on_board (del_key (ko_trigger o)) s
      else on_board (unregister_code (u8 (ko_trigger o))) s
    else s in
  register_replacement o is_mod s.

(** Whether the key action is sent, whether an override was activated. The loop
    variable has eight bits, like the number of overrides of Vial. *)
Fixpoint try_overrides (idxs : list Z) (keycode layer : Z) (key_down is_mod : bool) (active_mods : Z) s
    : bool * bool * overriding E :=
  match idxs with
  | [] => (true, false, s)
  | idx :: idxs =>
      if should_activate s idx keycode layer key_down is_mod active_mods then
        (negb ((ko_trigger (override_at s idx) =? keycode) && key_down), true, activate_override idx keycode key_down is_mod s)
      else try_overrides idxs keycode layer key_down is_mod active_mods s
  end.
Definition try_activating_override (keycode layer : Z) (key_down is_mod : bool) (active_mods : Z) s
    : bool * bool * overriding E :=
  try_overrides (seqZ 0 key_override_count) keycode layer key_down is_mod active_mods s.

Definition key_override_task s : overriding E :=
  let v := vars s in
  if deferred_register v =? 0 then s
  else if defer_delay v <=? TIMER_DIFF_32 (time32 s) (defer_reference_time v)
  then on_vars (set_deferred 0 0 0) (on_board (register_code16 (deferred_register v)) s)
  else s.

(** The modifiers with those of the event, for a modifier. *)
Definition effective_mods_of (keycode : Z) (key_down : bool) s : Z :=
  let m := kb_mods (board s) in
  let effective := real_mods m .| (oneshot_locked_mods m .| oneshot_mods m) in
  if IS_MODIFIER_KEYCODE keycode then
    if key_down then effective .| MOD_BIT keycode else u8 (effective .& Z.lnot (MOD_BIT keycode))
  else effective.

(** The last key that went down. *)
Definition track_key (keycode : Z) (key_down : bool) s : overriding E :=
  if IS_MODIFIER_KEYCODE keycode then s
  else
    let s := if key_down then on_vars (fun v => cancel_deferred (set_last keycode (time32 s) v)) s else s in
    if negb key_down && (keycode =? last_key_down (vars s)) then on_vars (fun v => cancel_deferred (set_last 0 0 v)) s
    else s.

(** The end of an active override. *)
Definition check_deactivation (keycode effective_mods : Z) (key_down : bool) s : overriding E :=
  match active_override (vars s) with
  | None => s
  | Some idx =>
      let o := override_at s idx in
      if IS_MODIFIER_KEYCODE keycode then
        if negb (key_override_matches_active_modifiers o effective_mods) then clear_active_override true s else s
      else
        let lifted := (keycode =? ko_trigger o) && negb key_down in
        let s := if lifted then on_vars (set_active (Some idx) false) s else s in
        let other := key_down && (ko_options o .& ko_option_no_unregister_on_other_key_down =? 0) in
        if lifted || other then clear_active_override false s else s
  end.

(** False claims the record. *)
Definition process_key_override (keycode : Z) (record : keyrecord_t) s : bool * overriding E :=
  let key_down := ev_pressed (rec_event record) in
  let is_mod := IS_MODIFIER_KEYCODE keycode in
  if key_down && (keycode =? QK_KEY_OVERRIDE_TOGGLE) then (false, key_override_toggle s)
  else if key_down && (keycode =? QK_KEY_OVERRIDE_ON) then (false, key_override_on s)
  else if key_down && (keycode =? QK_KEY_OVERRIDE_OFF) then (false, key_override_off s)
  else if negb (enabled (vars s)) then (true, s)
  else
    let effective_mods := effective_mods_of keycode key_down s in
    let s := track_key keycode key_down s in
    let '(send_key_action, activated, s) :=
      if is_mod || key_down then
        let layer := read_source_layers_cache (ev_key (rec_event record)) (kb_layers (board s)) in
        let '(send_key_action, activated, s) := try_activating_override keycode layer key_down is_mod effective_mods s in
        (send_key_action, activated, if negb send_key_action then on_board send_keyboard_report s else s)
      else (true, false, s) in
    let s := if negb activated then check_deactivation keycode effective_mods key_down s else s in
    (send_key_action, s).
End override.
