(* ===== verification/AutoShift.v ===== *)
(** Auto shift: [quantum/process_keycode/process_auto_shift.c], over the keyboard
    of [ActionUtil]. The build is Vial's: repeating is chosen per key (that is,
    by the settings), there are no setup keycodes, retro shift is off, and so is
    caps word. *)

From S2P Require Import Prelude.
From S2P Require Import Eeprom.
From S2P Require Import DynamicKeymap.
From S2P Require Import QmkSettings.
From S2P Require Import Vial.
From S2P Require Import KeycodeConfig.
From S2P Require Import KeymapCommon.
From S2P Require Import MouseKey.
From S2P Require Import Keyboard.
From S2P Require Import VialDance.
From S2P Require Import ActionUtil.

Definition QK_AUTO_SHIFT_ON : Z := 0x7C13.
Definition QK_AUTO_SHIFT_OFF : Z := 0x7C14.
Definition QK_AUTO_SHIFT_TOGGLE : Z := 0x7C15.
Definition QK_MOD_TAP : Z := 0x2000.
Definition QK_MOD_TAP_MAX : Z := 0x3FFF.
Definition QK_LAYER_TAP : Z := 0x4000.
Definition QK_LAYER_TAP_MAX : Z := 0x4FFF.
Definition IS_QK_MOD_TAP (code : Z) : bool := in_range QK_MOD_TAP QK_MOD_TAP_MAX code.
Definition IS_QK_LAYER_TAP (code : Z) : bool := in_range QK_LAYER_TAP QK_LAYER_TAP_MAX code.
Definition IS_RETRO (code : Z) : bool := IS_QK_MOD_TAP code || IS_QK_LAYER_TAP code.

Record autoshift_flags_t := mk_flags {
  as_enabled : bool;
  lastshifted : bool;
  in_progress : bool;
  holding_shift : bool;
  cancelling_lshift : bool;
  cancelling_rshift : bool;
}.

(** The statics of the file; the timeout is with the settings, which write it. *)
Record autoshift := mk_autoshift {
  autoshift_time : Z;
  autoshift_lastkey : Z;
  autoshift_lastrecord : keyrecord_t;
  autoshift_shift_states : list Z;
  autoshift_flags : autoshift_flags_t;
}.
Definition zero_keyrecord : keyrecord_t := mk_record (mk_event (mk_key 0 0) 0 TICK_EVENT false) no_tap 0.
Definition autoshift_start : autoshift :=
  mk_autoshift 0 KC_NO zero_keyrecord (memset 0 16) (mk_flags true false false false false false).

Record shifting (E : Type) := mk_shifting { as_kb : kb E; as_vars : autoshift }.
Arguments mk_shifting {E} _ _.
Arguments as_kb {E} _.
Arguments as_vars {E} _.

Section autoshift.
Context {E : Type} {eeprom : Eeprom E} {cfg : KeymapConfig} {mcfg : MouseKeyConfig}.
Implicit Types (s : shifting E) (k : kb E) (v : autoshift) (keycode t : Z) (record : keyrecord_t).

Definition on_as_kb (f : kb E -> kb E) s : shifting E := mk_shifting (f (as_kb s)) (as_vars s).
Definition on_as (f : autoshift -> autoshift) s : shifting E := mk_shifting (as_kb s) (f (as_vars s)).
Definition as_settings s : qs_state E := settings (kb_vial (as_kb s)).

Definition set_as_time t v : autoshift :=
  mk_autoshift t (autoshift_lastkey v) (autoshift_lastrecord v) (autoshift_shift_states v) (autoshift_flags v).
Definition set_lastkey keycode v : autoshift :=
  mk_autoshift (autoshift_time v) keycode (autoshift_lastrecord v) (autoshift_shift_states v) (autoshift_flags v).
Definition set_lastrecord record v : autoshift :=
  mk_autoshift (autoshift_time v) (autoshift_lastkey v) record (autoshift_shift_states v) (autoshift_flags v).
Definition set_states (l : list Z) v : autoshift :=
  mk_autoshift (autoshift_time v) (autoshift_lastkey v) (autoshift_lastrecord v) l (autoshift_flags v).
Definition with_flags (f : autoshift_flags_t -> autoshift_flags_t) v : autoshift :=
  mk_autoshift (autoshift_time v) (autoshift_lastkey v) (autoshift_lastrecord v) (autoshift_shift_states v)
    (f (autoshift_flags v)).
Definition set_as_enabled (b : bool) (f : autoshift_flags_t) : autoshift_flags_t :=
  mk_flags b (lastshifted f) (in_progress f) (holding_shift f) (cancelling_lshift f) (cancelling_rshift f).
Definition set_lastshifted (b : bool) (f : autoshift_flags_t) : autoshift_flags_t :=
  mk_flags (as_enabled f) b (in_progress f) (holding_shift f) (cancelling_lshift f) (cancelling_rshift f).
Definition set_in_progress (b : bool) (f : autoshift_flags_t) : autoshift_flags_t :=
  mk_flags (as_enabled f) (lastshifted f) b (holding_shift f) (cancelling_lshift f) (cancelling_rshift f).
Definition set_holding_shift (b : bool) (f : autoshift_flags_t) : autoshift_flags_t :=
  mk_flags (as_enabled f) (lastshifted f) (in_progress f) b (cancelling_lshift f) (cancelling_rshift f).
Definition set_cancelling_l (b : bool) (f : autoshift_flags_t) : autoshift_flags_t :=
  mk_flags (as_enabled f) (lastshifted f) (in_progress f) (holding_shift f) b (cancelling_rshift f).
Definition set_cancelling_r (b : bool) (f : autoshift_flags_t) : autoshift_flags_t :=
  mk_flags (as_enabled f) (lastshifted f) (in_progress f) (holding_shift f) (cancelling_lshift f) b.

Definition QS_auto_shift_enable s : bool := truthy (QS8 (as_settings s) QS_auto_shift .& 1).
Definition QS_auto_shift_modifiers s : bool := truthy (QS8 (as_settings s) QS_auto_shift .& 2).

Definition plain_code keycode : Z := if IS_RETRO keycode then keycode .& 0xFF else keycode.
Definition autoshift_press_user keycode (shifted : bool) s : shifting E :=
  let s := if shifted then on_as_kb (with_mods (add_weak_mods (MOD_BIT KC_LEFT_SHIFT))) s else s in
  on_as_kb (register_code16 (plain_code keycode)) s.
Definition autoshift_release_user keycode s : shifting E := on_as_kb (unregister_code16 (plain_code keycode)) s.

Definition set_autoshift_shift_state keycode (shifted : bool) v : autoshift :=
  let keycode := keycode .& 0xFF in
  let word := nthZ (autoshift_shift_states v) (keycode / 16) in
  let bit := u16 (1 << (keycode mod 16)) in
  set_states (updZ (autoshift_shift_states v) (keycode / 16)
    (if shifted then word .| bit else u16 (word .& Z.lnot bit))) v.
Definition get_autoshift_shift_state keycode v : bool :=
  let keycode := keycode .& 0xFF in
  truthy (nthZ (autoshift_shift_states v) (keycode / 16) .& u16 (1 << (keycode mod 16))).

(** The user's Shift keys give way while a key is typed, and come back. *)
Definition cancel_shifts s : shifting E :=
  let s :=
    if truthy (real_mods (kb_mods (as_kb s)) .& MOD_BIT KC_LEFT_SHIFT)
    then on_as_kb (with_mods (del_mods (MOD_BIT KC_LEFT_SHIFT))) (on_as (with_flags (set_cancelling_l true)) s) else s in
  if truthy (real_mods (kb_mods (as_kb s)) .& MOD_BIT KC_RIGHT_SHIFT)
  then on_as_kb (with_mods (del_mods (MOD_BIT KC_RIGHT_SHIFT))) (on_as (with_flags (set_cancelling_r true)) s) else s.
Definition autoshift_flush_shift s : shifting E :=
  let s := on_as (with_flags (set_holding_shift false)) s in
  let s := on_as_kb (with_mods (del_weak_mods (MOD_BIT KC_LEFT_SHIFT))) s in
  let s :=
    if cancelling_lshift (autoshift_flags (as_vars s))
    then on_as_kb (with_mods (add_mods (MOD_BIT KC_LEFT_SHIFT))) (on_as (with_flags (set_cancelling_l false)) s) else s in
  let s :=
    if cancelling_rshift (autoshift_flags (as_vars s))
    then on_as_kb (with_mods (add_mods (MOD_BIT KC_RIGHT_SHIFT))) (on_as (with_flags (set_cancelling_r false)) s) else s in
  on_as_kb send_keyboard_report s.

(** The one-shot left Shift and the one-shot layer are used up. *)
Definition use_up_oneshots s : shifting E :=
  on_as_kb (fun k => clear_oneshot_layer_state ONESHOT_OTHER_KEY_PRESSED
    (set_oneshot_mods (oneshot_mods (kb_mods k) .& Z.lnot (MOD_BIT KC_LEFT_SHIFT)) k)) s.

(** Tapped, then held: the key repeats. *)
Definition repeats keycode t s : bool :=
  let v := as_vars s in
  (keycode =? autoshift_lastkey v) && get_auto_shift_repeat (as_settings s)
  && (negb (lastshifted (autoshift_flags v)) || get_auto_shift_no_auto_repeat (as_settings s))
  && (TIMER_DIFF_16 t (autoshift_time v) <? get_tapping_term (kb_vial (as_kb s)) (autoshift_lastkey v)).

(** Always false: the record is claimed. *)
Definition autoshift_press keycode t record s : bool * shifting E :=
  let mods := real_mods (kb_mods (as_kb s)) .| oneshot_mods (kb_mods (as_kb s)) in
  let with_modifiers := truthy (mods .& Z.lnot (MOD_BIT KC_LEFT_SHIFT)) in
  let s := if with_modifiers then on_as (set_lastkey KC_NO) s else s in
  if with_modifiers && negb (QS_auto_shift_modifiers s) then
    (false, use_up_oneshots (autoshift_press_user keycode false (on_as (set_autoshift_shift_state keycode false) s)))
  else
    let event := rec_event record in
    let s := on_as (set_lastrecord (mk_record (mk_event (ev_key event) 0 (ev_type event) (ev_pressed event))
      (rec_tap record) (rec_keycode record))) s in
    if repeats keycode t s then
      let s := cancel_shifts s in
      (false, autoshift_press_user (autoshift_lastkey (as_vars s)) (lastshifted (autoshift_flags (as_vars s))) s)
    else
      let k := as_kb s in
      let s := on_as (with_flags (set_lastshifted
        (truthy ((real_mods (kb_mods k) .| oneshot_mods (kb_mods k)) .& MOD_BIT KC_LEFT_SHIFT)))) s in
      let s := on_as (fun v => with_flags (set_in_progress true) (set_as_time t (set_lastkey keycode v))) s in
      (false, use_up_oneshots s).

(** [keycode] is [KC_NO] for the key in progress. *)
Definition autoshift_end keycode t (matrix_trigger : bool) s : shifting E :=
  let v := as_vars s in
  let lastkey := autoshift_lastkey v in
  if in_progress (autoshift_flags v) && ((keycode =? lastkey) || (keycode =? KC_NO)) then
    let shifted := lastshifted (autoshift_flags v)
      || (autoshift_timeout (as_settings s) <=? TIMER_DIFF_16 t (autoshift_time v)) in
    let s := on_as (fun v => set_autoshift_shift_state lastkey shifted
      (with_flags (fun f => set_lastshifted shifted (set_in_progress false f)) v)) s in
    let s := autoshift_press_user lastkey shifted (cancel_shifts s) in
    if matrix_trigger && get_auto_shift_repeat (as_settings s) && negb (get_auto_shift_no_auto_repeat (as_settings s)) then s
    else
      let s := on_as_kb (wait_ms (QS16 (as_settings s) QS_tap_code_delay)) s in
      on_as (set_as_time t) (autoshift_flush_shift (autoshift_release_user lastkey s))
  else
    let s := autoshift_release_user keycode s in
    on_as (set_as_time t) (if keycode =? lastkey then autoshift_flush_shift s else s).

Definition autoshift_matrix_scan s : shifting E :=
  if negb (QS_auto_shift_enable s) then s
  else if in_progress (autoshift_flags (as_vars s)) then
    let t := now (as_kb s) in
    if autoshift_timeout (as_settings s) <=? TIMER_DIFF_16 t (autoshift_time (as_vars s))
    then autoshift_end (autoshift_lastkey (as_vars s)) t true s else s
  else s.

Definition autoshift_toggle s : shifting E :=
  autoshift_flush_shift (on_as (with_flags (fun f => set_as_enabled (negb (as_enabled f)) f)) s).
Definition autoshift_enable s : shifting E := on_as (with_flags (set_as_enabled true)) s.
Definition autoshift_disable s : shifting E := autoshift_flush_shift (on_as (with_flags (set_as_enabled false)) s).

(** The end of [process_auto_shift]. *)
Definition autoshift_key keycode t record s : bool * shifting E :=
  if negb (as_enabled (autoshift_flags (as_vars s))) then (true, s)
  else if get_auto_shifted_key (as_settings s) keycode then
    if ev_pressed (rec_event record) then autoshift_press keycode t record s
    else (false, autoshift_end keycode t false s)
  else (true, if ev_pressed (rec_event record) then on_as (set_lastkey KC_NO) s else s).

(** False claims the record. *)
Definition process_auto_shift keycode record s : bool * shifting E :=
  if negb (QS_auto_shift_enable s) then (true, s)
  else
    let t := now (as_kb s) in
    if ev_pressed (rec_event record) then
      let s := if in_progress (autoshift_flags (as_vars s)) then autoshift_end KC_NO t false s else s in
      let s :=
        if keycode =? QK_AUTO_SHIFT_TOGGLE then autoshift_toggle s
        else if keycode =? QK_AUTO_SHIFT_ON then autoshift_enable s
        else if keycode =? QK_AUTO_SHIFT_OFF then autoshift_disable s
        else s in
      if IS_RETRO keycode then (true, on_as (set_lastkey KC_NO) s) else autoshift_key keycode t record s
    else if keycode =? KC_LEFT_SHIFT then
      autoshift_key keycode t record (on_as (with_flags (set_cancelling_l false)) s)
    else if keycode =? KC_RIGHT_SHIFT then
      autoshift_key keycode t record (on_as (with_flags (set_cancelling_r false)) s)
    else if IS_RETRO keycode then (true, s)
    else autoshift_key keycode t record s.
End autoshift.
