(* ===== verification/KeyProcessors.v ===== *)
(** * Small key processors

    One Module each for the space cadet keys, grave escape, the magic keys, the
    persistent default layer, tri layers and layer lock, of
    [quantum/process_keycode/], over the keyboard of [ActionUtil]. A processor is
    given the keycode and the record and says whether the record goes on. *)

From S2P Require Import Prelude.
From S2P Require Import Bitwise.
From S2P Require Import Eeprom.
From S2P Require Import DynamicKeymap.
From S2P Require Import Eeconfig.
From S2P Require Import QmkSettings.
From S2P Require Import Vial.
From S2P Require Import KeycodeConfig.
From S2P Require Import KeymapCommon.
From S2P Require Import ActionLayer.
From S2P Require Import Report.
From S2P Require Import MouseKey.
From S2P Require Import Keyboard.
From S2P Require Import VialDance.
From S2P Require Import ActionUtil.
#[local] Set Default Proof Using "Type".

Definition KC_9 : Z := 0x26.
Definition KC_0 : Z := 0x27.
Definition KC_ENTER : Z := 0x28.
Definition MOD_MASK_CTRL : Z := 0x11.
Definition MOD_MASK_SHIFT : Z := 0x22.
Definition MOD_MASK_ALT : Z := 0x44.
Definition MOD_MASK_GUI : Z := 0x88.
Definition MOD_MASK_SG : Z := MOD_MASK_SHIFT .| MOD_MASK_GUI.

Definition pressed_of (record : keyrecord_t) : bool := ev_pressed (rec_event record).

(** ** Space cadet: modifiers that type a parenthesis when tapped *)

Module SpaceCadet.
Definition LEFT_CTRL_PARENTHESIS_OPEN : Z := 0x7C18.
Definition RIGHT_CTRL_PARENTHESIS_CLOSE : Z := 0x7C19.
Definition LEFT_SHIFT_PARENTHESIS_OPEN : Z := 0x7C1A.
Definition RIGHT_SHIFT_PARENTHESIS_CLOSE : Z := 0x7C1B.
Definition LEFT_ALT_PARENTHESIS_OPEN : Z := 0x7C1C.
Definition RIGHT_ALT_PARENTHESIS_CLOSE : Z := 0x7C1D.
Definition RIGHT_SHIFT_ENTER : Z := 0x7C1E.

(** The modifier when held, and the modifier and the key when tapped. *)
Definition cadet_keys (keycode : Z) : option (Z * Z * Z) :=
  if keycode =? LEFT_SHIFT_PARENTHESIS_OPEN then Some (KC_LEFT_SHIFT, KC_LEFT_SHIFT, KC_9)
  else if keycode =? RIGHT_SHIFT_PARENTHESIS_CLOSE then Some (KC_RIGHT_SHIFT, KC_RIGHT_SHIFT, KC_0)
  else if keycode =? LEFT_CTRL_PARENTHESIS_OPEN then Some (KC_LEFT_CTRL, KC_LEFT_SHIFT, KC_9)
  else if keycode =? RIGHT_CTRL_PARENTHESIS_CLOSE then Some (KC_RIGHT_CTRL, KC_RIGHT_SHIFT, KC_0)
  else if keycode =? LEFT_ALT_PARENTHESIS_OPEN then Some (KC_LEFT_ALT, KC_LEFT_SHIFT, KC_9)
  else if keycode =? RIGHT_ALT_PARENTHESIS_CLOSE then Some (KC_RIGHT_ALT, KC_RIGHT_SHIFT, KC_0)
  else if keycode =? RIGHT_SHIFT_ENTER then Some (KC_RIGHT_SHIFT, KC_TRANSPARENT, KC_ENTER)
  else None.

Record cadet := mk_cadet { sc_last : Z; sc_timer : Z }.

Section cadet.
Context {E : Type} {eeprom : Eeprom E} {cfg : KeymapConfig} {mcfg : MouseKeyConfig}.
Implicit Types (s : kb E * cadet) (k : kb E).

Definition if_mod (code : Z) (f : Z -> kb E -> kb E) k : kb E :=
  if IS_MODIFIER_KEYCODE code then f (MOD_BIT code) k else k.

Definition perform_space_cadet record (sc_keycode hold_mod tap_mod keycode : Z) s : kb E * cadet :=
  let '(k, c) := s in
  if pressed_of record then (if_mod hold_mod register_mods k, mk_cadet hold_mod (now k))
  else if (sc_last c =? hold_mod) && (TIMER_DIFF_16 (now k) (sc_timer c) <? get_tapping_term (kb_vial k) sc_keycode) then
    let k := if negb (hold_mod =? tap_mod)
             then if_mod tap_mod register_mods (if_mod hold_mod unregister_mods k) else k in
    let k := tap_code keycode k in
    (if_mod tap_mod unregister_mods k, c)
  else (if_mod hold_mod unregister_mods k, c).

Definition reset_space_cadet (c : cadet) : cadet := mk_cadet 0 (sc_timer c).

Definition process_space_cadet (keycode : Z) record s : bool * (kb E * cadet) :=
  match cadet_keys keycode with
  | Some (hold_mod, tap_mod, key) => (false, perform_space_cadet record keycode hold_mod tap_mod key s)
  | None => (true, if pressed_of record then (s.1, reset_space_cadet s.2) else s)
  end.
End cadet.
End SpaceCadet.

(** ** Grave escape *)

Module GraveEsc.
Definition QK_GRAVE_ESCAPE : Z := 0x7C16.

Section grave_esc.
Context {E : Type} {eeprom : Eeprom E} {cfg : KeymapConfig} {mcfg : MouseKeyConfig}.
Implicit Types (k : kb E).

Definition QS_grave_esc_bit (bit : Z) k : bool := truthy (QS8 (settings (kb_vial k)) QS_grave_esc_override .& bit).

(** GUI or shift is held, unless a setting says escape all the same. *)
Definition shifted k : Z :=
  let mods := real_mods (kb_mods k) in
  let over bit mask sh := if QS_grave_esc_bit bit k then if truthy (mods .& mask) then 0 else sh else sh in
  over 8 MOD_MASK_SHIFT (over 4 MOD_MASK_GUI (over 2 MOD_MASK_CTRL (over 1 MOD_MASK_ALT (mods .& MOD_MASK_SG)))).

(** The state is [grave_esc_was_shifted]. *)
Definition process_grave_esc (keycode : Z) record (s : kb E * bool) : bool * (kb E * bool) :=
  let '(k, was_shifted) := s in
  if keycode =? QK_GRAVE_ESCAPE then
    let sh := truthy (shifted k) in
    if pressed_of record
    then (false, (send_keyboard_report (add_key (if sh then KC_GRAVE else KC_ESCAPE) k), sh))
    else (false, (send_keyboard_report (del_key (if was_shifted then KC_GRAVE else KC_ESCAPE) k), was_shifted))
  else (true, s).
End grave_esc.
End GraveEsc.

(** ** The magic keys, which change the keymap options *)

Module Magic.
(** The fields of [keymap_config_t] by their bits. *)
Definition SWAP_CONTROL_CAPSLOCK : Z := 0.
Definition CAPSLOCK_TO_CONTROL : Z := 1.
Definition SWAP_LALT_LGUI : Z := 2.
Definition SWAP_RALT_RGUI : Z := 3.
Definition NO_GUI : Z := 4.
Definition SWAP_GRAVE_ESC : Z := 5.
Definition SWAP_BACKSLASH_BACKSPACE : Z := 6.
Definition NKRO : Z := 7.
Definition SWAP_LCTL_LGUI : Z := 8.
Definition SWAP_RCTL_RGUI : Z := 9.
Definition SWAP_ESCAPE_CAPSLOCK : Z := 11.

Definition IS_MAGIC_KEYCODE (code : Z) : bool := in_range 0x7000 0x7022 code.

Inductive magic :=
| Assign (fields : list Z) (value : bool)
| Toggle (field : Z) (follows : list Z)
| Handedness (is_left : bool).

(** The cases of the [switch]. *)
Definition magic_of (keycode : Z) : option magic :=
  if keycode =? 0x7000 then Some (Assign [SWAP_CONTROL_CAPSLOCK] true)
  else if keycode =? 0x7020 then Some (Assign [SWAP_ESCAPE_CAPSLOCK] true)
  else if keycode =? 0x7004 then Some (Assign [CAPSLOCK_TO_CONTROL] true)
  else if keycode =? 0x7005 then Some (Assign [SWAP_LALT_LGUI] true)
  else if keycode =? 0x7007 then Some (Assign [SWAP_RALT_RGUI] true)
  else if keycode =? 0x7017 then Some (Assign [SWAP_LCTL_LGUI] true)
  else if keycode =? 0x7019 then Some (Assign [SWAP_RCTL_RGUI] true)
  else if keycode =? 0x700A then Some (Assign [NO_GUI] true)
  else if keycode =? 0x700C then Some (Assign [SWAP_GRAVE_ESC] true)
  else if keycode =? 0x700E then Some (Assign [SWAP_BACKSLASH_BACKSPACE] true)
  else if keycode =? 0x7011 then Some (Assign [NKRO] true)
  else if keycode =? 0x7014 then Some (Assign [SWAP_RALT_RGUI; SWAP_LALT_LGUI] true)
  else if keycode =? 0x701B then Some (Assign [SWAP_RCTL_RGUI; SWAP_LCTL_LGUI] true)
  else if keycode =? 0x7001 then Some (Assign [SWAP_CONTROL_CAPSLOCK] false)
  else if keycode =? 0x7021 then Some (Assign [SWAP_ESCAPE_CAPSLOCK] false)
  else if keycode =? 0x7003 then Some (Assign [CAPSLOCK_TO_CONTROL] false)
  else if keycode =? 0x7006 then Some (Assign [SWAP_LALT_LGUI] false)
  else if keycode =? 0x7008 then Some (Assign [SWAP_RALT_RGUI] false)
  else if keycode =? 0x7018 then Some (Assign [SWAP_LCTL_LGUI] false)
  else if keycode =? 0x701A then Some (Assign [SWAP_RCTL_RGUI] false)
  else if keycode =? 0x7009 then Some (Assign [NO_GUI] false)
  else if keycode =? 0x700D then Some (Assign [SWAP_GRAVE_ESC] false)
  else if keycode =? 0x700F then Some (Assign [SWAP_BACKSLASH_BACKSPACE] false)
  else if keycode =? 0x7012 then Some (Assign [NKRO] false)
  else if keycode =? 0x7015 then Some (Assign [SWAP_RALT_RGUI; SWAP_LALT_LGUI] false)
  else if keycode =? 0x701C then Some (Assign [SWAP_RCTL_RGUI; SWAP_LCTL_LGUI] false)
  else if keycode =? 0x7016 then Some (Toggle SWAP_LALT_LGUI [SWAP_RALT_RGUI])
  else if keycode =? 0x701D then Some (Toggle SWAP_LCTL_LGUI [SWAP_RCTL_RGUI])
  else if keycode =? 0x7010 then Some (Toggle SWAP_BACKSLASH_BACKSPACE [])
  else if keycode =? 0x7013 then Some (Toggle NKRO [])
  else if keycode =? 0x701E then Some (Handedness true)
  else if keycode =? 0x701F then Some (Handedness false)
  else if keycode =? 0x700B then Some (Toggle NO_GUI [])
  else if keycode =? 0x7002 then Some (Toggle SWAP_CONTROL_CAPSLOCK [])
  else if keycode =? 0x7022 then Some (Toggle SWAP_ESCAPE_CAPSLOCK [])
  else None.

(** The [NKRO] cases clear the keyboard while the old kind of report is on. *)
Definition changes_nkro (keycode : Z) : bool := (keycode =? 0x7011) || (keycode =? 0x7012) || (keycode =? 0x7013).

Definition put_bit (i : Z) (b : bool) (raw : Z) : Z := if b then Z.setbit raw i else Z.clearbit raw i.

Definition magic_raw (m : magic) (raw : Z) : Z :=
  match m with
  | Assign fields value => foldl (fun raw i => put_bit i value raw) raw fields
  | Toggle field follows =>
      let value := negb (Z.testbit raw field) in
      foldl (fun raw i => put_bit i value raw) (put_bit field value raw) follows
  | Handedness _ => raw
  end.

Section magic.
Context {E : Type} {eeprom : Eeprom E} {cfg : KeymapConfig} {mcfg : MouseKeyConfig}.
(** [usb_device_state_get_protocol() == USB_PROTOCOL_REPORT]. *)
Context (report_protocol : bool).
Implicit Types (k : kb E).

Definition with_vial_settings (f : qs_state E -> qs_state E) k : kb E :=
  set_vial (Vial.set_settings (f (settings (kb_vial k))) (kb_vial k)) k.

(** An assignment to [keymap_config], on which the kind of report depends. *)
Definition set_keymap_config (raw : Z) k : kb E :=
  with_reports (fun r => mk_reports (report_protocol && nkro raw) (keys r) (bits r))
    (with_vial_settings (QmkSettings.set_keymap_config raw) k).
Definition on_eeprom (f : E -> E) k : kb E :=
  with_vial_settings (fun q => set_qs_eeprom (f (qs_eeprom q)) q) k.

Definition process_magic (keycode : Z) record k : bool * kb E :=
  if pressed_of record && IS_MAGIC_KEYCODE keycode then
    let k := set_keymap_config (eeconfig_read_keymap (qs_eeprom (settings (kb_vial k)))) k in
    let k := if changes_nkro keycode then clear_keyboard k else k in
    let k := match magic_of keycode with
             | Some (Handedness is_left) => on_eeprom (eeconfig_update_handedness is_left) k
             | Some m => set_keymap_config (magic_raw m (keymap_word k)) k
             | None => k
             end in
    let k := on_eeprom (eeconfig_update_keymap (keymap_word k)) k in
    (false, clear_keyboard k)
  else (true, k).
End magic.
End Magic.

(** ** The persistent default layer *)

Module DefaultLayer.
Definition IS_QK_PERSISTENT_DEF_LAYER (code : Z) : bool := in_range 0x52E0 0x52FF code.
Definition QK_PERSISTENT_DEF_LAYER_GET_LAYER (code : Z) : Z := code .& 0x1F.

Section default_layer.
Context {E : Type} {eeprom : Eeprom E} {cfg : KeymapConfig}.
Implicit Types (k : kb E).

Definition set_single_default_layer (layer : Z) k : kb E :=
  set_layers (default_layer_set (layer_state_t (1 << layer)) (kb_layers k)) k.
Definition set_single_persistent_default_layer (layer : Z) k : kb E :=
  set_single_default_layer layer
    (Magic.on_eeprom (eeconfig_update_default_layer (layer_state_t (1 << layer))) k).

Definition process_default_layer (keycode : Z) record k : bool * kb E :=
  if IS_QK_PERSISTENT_DEF_LAYER keycode && negb (pressed_of record)
  then (false, set_single_persistent_default_layer (QK_PERSISTENT_DEF_LAYER_GET_LAYER keycode) k)
  else (true, k).
End default_layer.
End DefaultLayer.

(** ** Tri layer *)

Module TriLayer.
Definition QK_TRI_LAYER_LOWER : Z := 0x7C77.
Definition QK_TRI_LAYER_UPPER : Z := 0x7C78.

Record tri := mk_tri { lower_layer : Z; upper_layer : Z; adjust_layer : Z }.
(** [TRI_LAYER_LOWER_LAYER] and so on. *)
Definition tri_start : tri := mk_tri 1 2 3.

Definition set_tri_layer_lower_layer (layer : Z) (t : tri) : tri := mk_tri layer (upper_layer t) (adjust_layer t).
Definition set_tri_layer_upper_layer (layer : Z) (t : tri) : tri := mk_tri (lower_layer t) layer (adjust_layer t).
Definition set_tri_layer_adjust_layer (layer : Z) (t : tri) : tri := mk_tri (lower_layer t) (upper_layer t) layer.
Definition set_tri_layer_layers (lower raise adjust : Z) (t : tri) : tri := mk_tri lower raise adjust.

Section tri_layer.
Context {cfg : KeymapConfig}.

Definition tri_key (t : tri) (layer : Z) (pressed : bool) (s : layer_st) : layer_st :=
  update_tri_layer (lower_layer t) (upper_layer t) (adjust_layer t)
    (if pressed then layer_on layer s else layer_off layer s).

Definition process_tri_layer (t : tri) (keycode : Z) record (s : layer_st) : bool * layer_st :=
  if keycode =? QK_TRI_LAYER_LOWER then (false, tri_key t (lower_layer t) (pressed_of record) s)
  else if keycode =? QK_TRI_LAYER_UPPER then (false, tri_key t (upper_layer t) (pressed_of record) s)
  else (true, s).
End tri_layer.
End TriLayer.

(** ** Layer lock *)

Module LayerLock.
Definition QK_LAYER_LOCK : Z := 0x7C7B.
Definition QK_MOMENTARY_MIN : Z := 0x5220.
Definition QK_MOMENTARY_MAX : Z := 0x523F.
Definition QK_LAYER_TAP_TOGGLE_MIN : Z := 0x52C0.
Definition QK_LAYER_TAP_TOGGLE_MAX : Z := 0x52DF.
Definition QK_LAYER_MOD_MIN : Z := 0x5000.
Definition QK_LAYER_MOD_MAX : Z := 0x51FF.
Definition QK_LAYER_TAP_MIN : Z := 0x4000.
Definition QK_LAYER_TAP_MAX : Z := 0x4FFF.
Definition QK_LAYER_MOD_GET_LAYER (code : Z) : Z := (code >> 5) .& 0xF.
Definition QK_LAYER_TAP_GET_LAYER (code : Z) : Z := (code >> 8) .& 0xF.

(** 0 when the timeout is not defined. *)
Class LayerLockConfig := { LAYER_LOCK_IDLE_TIMEOUT : Z }.

(** The keyboard with [locked_layers], [layer_lock_timer] and [timer_read32()]. *)
Record locks (E : Type) := mk_locks { lk_kb : kb E; locked_layers : Z; layer_lock_timer : Z; time32 : Z }.
Arguments mk_locks {E} _ _ _ _.
Arguments lk_kb {E} _.
Arguments locked_layers {E} _.
Arguments layer_lock_timer {E} _.
Arguments time32 {E} _.

Section layer_lock.
Context {E : Type} {eeprom : Eeprom E} {cfg : KeymapConfig} {mcfg : MouseKeyConfig} {lcfg : LayerLockConfig}.
Implicit Types (s : locks E).

Definition on_lk (f : kb E -> kb E) s : locks E := mk_locks (f (lk_kb s)) (locked_layers s) (layer_lock_timer s) (time32 s).
Definition set_locked_layers (l : Z) s : locks E := mk_locks (lk_kb s) l (layer_lock_timer s) (time32 s).
Definition lk_layers (f : layer_st -> layer_st) s : locks E := on_lk (fun k => set_layers (f (kb_layers k)) k) s.
Definition lk_state s : Z := layer_state (kb_layers (lk_kb s)).

(** [biton], [biton16] or [biton32]: the highest bit, [0] for none. *)
Definition get_highest_layer (state : Z) : Z :=
  if MAX_LAYER_BITS =? 3 then biton state else if MAX_LAYER_BITS =? 4 then biton16 state else biton32 state.

Definition layer_mask (layer : Z) : Z := layer_state_t (1 << layer).
Definition is_layer_locked (layer : Z) s : bool := truthy (locked_layers s .& layer_mask layer).

Definition layer_lock_activity_trigger s : locks E :=
  if 0 <? LAYER_LOCK_IDLE_TIMEOUT then mk_locks (lk_kb s) (locked_layers s) (time32 s) (time32 s) else s.

Definition layer_lock_invert (layer : Z) s : locks E :=
  let mask := layer_mask layer in
  let s :=
    if locked_layers s .& mask =? 0 then
      let s := if layer =? get_oneshot_layer (lk_kb s) then on_lk reset_oneshot_layer s else s in
      layer_lock_activity_trigger (lk_layers (layer_on layer) s)
    else lk_layers (layer_off layer) s in
  set_locked_layers (locked_layers s .^ mask) s.

Definition layer_lock_on (layer : Z) s : locks E := if negb (is_layer_locked layer s) then layer_lock_invert layer s else s.
Definition layer_lock_off (layer : Z) s : locks E := if is_layer_locked layer s then layer_lock_invert layer s else s.
Definition layer_lock_all_off s : locks E :=
  set_locked_layers 0 (lk_layers (layer_and (layer_state_t (Z.lnot (locked_layers s)))) s).

Definition layer_lock_timeout_task s : locks E :=
  if 0 <? LAYER_LOCK_IDLE_TIMEOUT then
    if truthy (locked_layers s) && (LAYER_LOCK_IDLE_TIMEOUT <? TIMER_DIFF_32 (time32 s) (layer_lock_timer s)) then
      let s := layer_lock_all_off s in mk_locks (lk_kb s) (locked_layers s) (time32 s) (time32 s)
    else s
  else s.

Definition handle_mo_or_tt (layer : Z) record s : bool * locks E :=
  if is_layer_locked layer s then (false, if pressed_of record then layer_lock_invert layer s else s)
  else (true, s).

Definition process_layer_lock (keycode : Z) record s : bool * locks E :=
  let s := layer_lock_activity_trigger s in
  let s := if negb (locked_layers s .& Z.lnot (lk_state s) =? 0)
           then set_locked_layers (locked_layers s .& lk_state s) s else s in
  if keycode =? QK_LAYER_LOCK then
    (false, if pressed_of record then layer_lock_invert (get_highest_layer (lk_state s)) s else s)
  else if in_range QK_MOMENTARY_MIN QK_MOMENTARY_MAX keycode then handle_mo_or_tt (keycode .& 0x1F) record s
  else if in_range QK_LAYER_TAP_TOGGLE_MIN QK_LAYER_TAP_TOGGLE_MAX keycode then handle_mo_or_tt (keycode .& 0x1F) record s
  else if in_range QK_LAYER_MOD_MIN QK_LAYER_MOD_MAX keycode then
    let layer := QK_LAYER_MOD_GET_LAYER keycode in
    if is_layer_locked layer s then
      (false, if pressed_of record then layer_lock_invert layer s
              else on_lk (fun k => send_keyboard_report (with_mods clear_mods k)) s)
    else (true, s)
  else if in_range QK_LAYER_TAP_MIN QK_LAYER_TAP_MAX keycode then
    (negb ((tap_count (rec_tap record) =? 0) && negb (pressed_of record)
           && is_layer_locked (QK_LAYER_TAP_GET_LAYER keycode) s), s)
  else (true, s).
End layer_lock.
End LayerLock.
