(* ===== verification/KeyModes.v ===== *)
(** * Modes of the keyboard

    One Module each for the secure mode ([quantum/secure.c]), key lock, caps word
    and the leader key, with their processors in [quantum/process_keycode/], over
    the keyboard of [ActionUtil]. *)

From S2P Require Import Prelude.
From S2P Require Import Eeprom.
From S2P Require Import DynamicKeymap.
From S2P Require Import QmkSettings.
From S2P Require Import Vial.
From S2P Require Import KeycodeConfig.
From S2P Require Import KeymapCommon.
From S2P Require Import ActionLayer.
From S2P Require Import MouseKey.
From S2P Require Import Keyboard.
From S2P Require Import VialDance.
From S2P Require Import ActionUtil.
From S2P Require Import KeyProcessors.
From S2P Require Import AutoShift.
#[local] Set Default Proof Using "Type".

(** ** The secure mode *)

Module Secure.
Definition QK_SECURE_LOCK : Z := 0x7C60.
Definition QK_SECURE_UNLOCK : Z := 0x7C61.
Definition QK_SECURE_TOGGLE : Z := 0x7C62.
Definition QK_SECURE_REQUEST : Z := 0x7C63.

Inductive secure_status_t := SECURE_LOCKED | SECURE_PENDING | SECURE_UNLOCKED.
#[export] Instance secure_status_eq_dec : EqDecision secure_status_t.
Proof. solve_decision. Defined.

(** The sequence gives rows and columns. A timeout of [0] is none. *)
Class SecureConfig := {
  SECURE_UNLOCK_SEQUENCE : list (Z * Z);
  SECURE_UNLOCK_TIMEOUT : Z;
  SECURE_IDLE_TIMEOUT : Z;
}.

(** The statics, the clock of 32 bits, and the keyboard. *)
Record secure (E : Type) := mk_secure {
  secure_status : secure_status_t;
  unlock_time : Z;
  idle_time : Z;
  offset : Z;
  clock : Z;
  board : kb E;
}.
Arguments mk_secure {E} _ _ _ _ _ _.
Arguments secure_status {E} _.
Arguments unlock_time {E} _.
Arguments idle_time {E} _.
Arguments offset {E} _.
Arguments clock {E} _.
Arguments board {E} _.

Section secure.
Context {E : Type} {eeprom : Eeprom E} {cfg : KeymapConfig} {mcfg : MouseKeyConfig} {scfg : SecureConfig}.
Implicit Types (s : secure E) (record : keyrecord_t).

Definition set_status st s : secure E := mk_secure st (unlock_time s) (idle_time s) (offset s) (clock s) (board s).
Definition set_unlock_time t s : secure E := mk_secure (secure_status s) t (idle_time s) (offset s) (clock s) (board s).
Definition set_idle_time t s : secure E := mk_secure (secure_status s) (unlock_time s) t (offset s) (clock s) (board s).
Definition set_offset o s : secure E := mk_secure (secure_status s) (unlock_time s) (idle_time s) o (clock s) (board s).
Definition set_clock t s : secure E := mk_secure (secure_status s) (unlock_time s) (idle_time s) (offset s) t (board s).
Definition on_board (f : kb E -> kb E) s : secure E :=
  mk_secure (secure_status s) (unlock_time s) (idle_time s) (offset s) (clock s) (f (board s)).

(** [secure_hook] and [secure_hook_quantum]. *)
Definition secure_hook s : secure E :=
  if bool_decide (secure_status s = SECURE_PENDING)
  then on_board (fun k => set_layers (layer_clear (kb_layers k)) (clear_keyboard k)) s else s.

Definition secure_lock s : secure E := secure_hook (set_status SECURE_LOCKED s).
Definition secure_unlock s : secure E := secure_hook (set_idle_time (clock s) (set_status SECURE_UNLOCKED s)).
Definition secure_request_unlock s : secure E :=
  secure_hook (if bool_decide (secure_status s = SECURE_LOCKED)
               then set_unlock_time (clock s) (set_status SECURE_PENDING s) else s).
Definition secure_activity_event s : secure E :=
  if bool_decide (secure_status s = SECURE_UNLOCKED) then set_idle_time (clock s) s else s.

Definition step_of (i : Z) : Z * Z := nth (Z.to_nat i) SECURE_UNLOCK_SEQUENCE (0, 0).
Definition secure_keypress_event (row col : Z) s : secure E :=
  if bool_decide (step_of (offset s) = (row, col)) then
    let s := set_offset (u8 (offset s + 1)) s in
    if offset s =? u8 (lenZ SECURE_UNLOCK_SEQUENCE) then secure_unlock (set_offset 0 s) else s
  else secure_lock (set_offset 0 s).

Definition timer_elapsed32 s (last : Z) : Z := u32 (clock s - last).
Definition secure_task s : secure E :=
  let s := if negb (SECURE_UNLOCK_TIMEOUT =? 0) && bool_decide (secure_status s = SECURE_PENDING)
              && (SECURE_UNLOCK_TIMEOUT <=? timer_elapsed32 s (unlock_time s)) then secure_lock s else s in
  if negb (SECURE_IDLE_TIMEOUT =? 0) && bool_decide (secure_status s = SECURE_UNLOCKED)
     && (SECURE_IDLE_TIMEOUT <=? timer_elapsed32 s (idle_time s)) then secure_lock s else s.

Definition preprocess_secure record s : bool * secure E :=
  if bool_decide (secure_status s = SECURE_PENDING) then
    (false, if pressed_of record
            then secure_keypress_event (row (ev_key (rec_event record))) (col (ev_key (rec_event record))) s else s)
  else (true, s).

Definition process_secure (keycode : Z) record s : bool * secure E :=
  if pressed_of record then (true, s)
  else if keycode =? QK_SECURE_LOCK then (false, secure_lock s)
  else if keycode =? QK_SECURE_UNLOCK then (false, secure_unlock s)
  else if keycode =? QK_SECURE_TOGGLE then
    (false, if bool_decide (secure_status s = SECURE_LOCKED) then secure_unlock s else secure_lock s)
  else if keycode =? QK_SECURE_REQUEST then (false, secure_request_unlock s)
  else (true, s).

(** The initial values. *)
Definition secure_start (k : kb E) : secure E := mk_secure SECURE_LOCKED 0 0 0 0 k.
End secure.
End Secure.

(** ** Key lock *)

Module KeyLock.
Definition QK_LOCK : Z := 0x7C59.
Definition QK_ONE_SHOT_MOD : Z := 0x52A0.
Definition QK_ONE_SHOT_MOD_MAX : Z := 0x52BF.

(** Four words of 64 bits, one bit for each standard keycode. *)
Record key_lock := mk_key_lock { key_state : list Z; watching : bool }.
Definition key_lock_start : key_lock := mk_key_lock [0; 0; 0; 0] false.
Implicit Types (l : key_lock).

Definition word_of (code : Z) : Z := if code <? 0x40 then 0 else if code <? 0x80 then 1 else if code <? 0xC0 then 2 else 3.
Definition GET_KEY_ARRAY (code : Z) l : Z := nthZ (key_state l) (word_of code).
Definition GET_CODE_INDEX (code : Z) : Z :=
  if code <? 0x40 then code else if code <? 0x80 then code - 0x40 else if code <? 0xC0 then code - 0x80 else code - 0xC0.
Definition BV_64 (shift : Z) : Z := 1 << shift.
Definition KEY_STATE (code : Z) l : bool := GET_KEY_ARRAY code l .& BV_64 (GET_CODE_INDEX code) =? BV_64 (GET_CODE_INDEX code).
Definition SET_KEY_ARRAY_STATE (code v : Z) l : key_lock :=
  if in_range 0 0xFF code then mk_key_lock (updZ (key_state l) (word_of code) v) (watching l) else l.
Definition SET_KEY_STATE (code : Z) l : key_lock :=
  SET_KEY_ARRAY_STATE code (GET_KEY_ARRAY code l .| BV_64 (GET_CODE_INDEX code)) l.
Definition UNSET_KEY_STATE (code : Z) l : key_lock :=
  SET_KEY_ARRAY_STATE code (u64 (GET_KEY_ARRAY code l .& Z.lnot (BV_64 (GET_CODE_INDEX code)))) l.
Definition IS_STANDARD_KEYCODE (code : Z) : bool := code <=? 0xFF.
Definition set_watching (b : bool) l : key_lock := mk_key_lock (key_state l) b.

Definition translate_keycode (keycode : Z) : Z :=
  if (QK_ONE_SHOT_MOD <? keycode) && (keycode <=? QK_ONE_SHOT_MOD_MAX) then Z.lxor keycode QK_ONE_SHOT_MOD else keycode.

Definition cancel_key_lock l : key_lock := UNSET_KEY_STATE 0 (set_watching false l).

(** Whether the record goes on, and with what keycode. *)
Definition process_key_lock (keycode : Z) (record : keyrecord_t) l : bool * Z * key_lock :=
  let translated := translate_keycode keycode in
  if pressed_of record then
    if negb (IS_STANDARD_KEYCODE translated || (translated =? QK_LOCK)) then (true, keycode, set_watching false l)
    else if translated =? QK_LOCK then (false, keycode, set_watching (negb (watching l)) l)
    else if IS_STANDARD_KEYCODE translated then
      if watching l then (true, translated, SET_KEY_STATE translated (set_watching false l))
      else if KEY_STATE translated l then (false, keycode, UNSET_KEY_STATE translated l)
      else (true, keycode, l)
    else (true, keycode, l)
  else (negb (IS_STANDARD_KEYCODE translated && KEY_STATE translated l), keycode, l).
End KeyLock.

(** ** Caps word *)

Module CapsWord.
Definition QK_CAPS_WORD_TOGGLE : Z := 0x7C73.
Definition KC_MINUS : Z := 0x2D.
Definition KC_DELETE : Z := 0x4C.
Definition KC_UNDERSCORE : Z := QK_LSFT .| KC_MINUS.
Definition OSM_RALT : Z := 0x52B4.
Definition OSM_LSFT : Z := 0x52A2.
Definition RSFT_RALT : Z := 0x12E6.

(** The idle timeout is [0] or from 100 to 30000. *)
Class CapsWordConfig := {
  CAPS_WORD_IDLE_TIMEOUT : Z;
  AUTO_SHIFT_ENABLE : bool;
  BOTH_SHIFTS_TURNS_ON_CAPS_WORD : bool;
  DOUBLE_TAP_SHIFT_TURNS_ON_CAPS_WORD : bool;
}.

(** The last two are the statics of the double tap. *)
Record caps_word (E : Type) := mk_caps { caps_word_active : bool; idle_timer : Z; tapped : bool; tap_timer : Z; caps_kb : kb E }.
Arguments mk_caps {E} _ _ _ _ _.
Arguments caps_word_active {E} _.
Arguments idle_timer {E} _.
Arguments tapped {E} _.
Arguments tap_timer {E} _.
Arguments caps_kb {E} _.

Definition timer_expired (current future : Z) : bool := u16 (current - future) <? 32767.

(** The build has no swap hands and no commands and does not invert the shift. The
    state of auto shift is an argument; the static that [reset_space_cadet] clears
    is not part of this state. *)
Section caps_word.
Context {E : Type} {eeprom : Eeprom E} {cfg : KeymapConfig} {mcfg : MouseKeyConfig} {ccfg : CapsWordConfig}.
Implicit Types (s : caps_word E).

Definition on_caps_kb (f : kb E -> kb E) s : caps_word E :=
  mk_caps (caps_word_active s) (idle_timer s) (tapped s) (tap_timer s) (f (caps_kb s)).
Definition set_active (b : bool) s : caps_word E := mk_caps b (idle_timer s) (tapped s) (tap_timer s) (caps_kb s).

Definition caps_word_reset_idle_timer s : caps_word E :=
  mk_caps (caps_word_active s) (u16 (now (caps_kb s) + CAPS_WORD_IDLE_TIMEOUT)) (tapped s) (tap_timer s) (caps_kb s).
Definition reset_if_timeout s : caps_word E := if 0 <? CAPS_WORD_IDLE_TIMEOUT then caps_word_reset_idle_timer s else s.

Definition caps_word_on s : caps_word E :=
  if caps_word_active s then s
  else set_active true (reset_if_timeout (on_caps_kb (with_mods (fun m => clear_oneshot_mods (clear_mods m))) s)).
Definition caps_word_off s : caps_word E :=
  if caps_word_active s then set_active false (on_caps_kb (unregister_weak_mods MOD_MASK_SHIFT) s) else s.
Definition caps_word_toggle s : caps_word E := if caps_word_active s then caps_word_off s else caps_word_on s.

Definition caps_word_task s : caps_word E :=
  if (0 <? CAPS_WORD_IDLE_TIMEOUT) && caps_word_active s && timer_expired (now (caps_kb s)) (idle_timer s)
  then caps_word_off s else s.

Definition caps_word_press_user (keycode : Z) s : bool * caps_word E :=
  if in_range KC_A 0x1D keycode || (keycode =? KC_MINUS)
  then (true, on_caps_kb (with_mods (add_weak_mods (MOD_BIT KC_LEFT_SHIFT))) s)
  else (in_range 0x1E KC_0 keycode || (keycode =? KC_BACKSPACE) || (keycode =? KC_DELETE) || (keycode =? KC_UNDERSCORE), s).

(** The keycode to go on with, or what to return. *)
Definition caps_keycode (keycode : Z) (record : keyrecord_t) : Z + bool :=
  let held := tap_count (rec_tap record) =? 0 in
  if in_range 0x5220 0x523F keycode || in_range 0x5200 0x521F keycode || in_range 0x5260 0x527F keycode
     || in_range 0x52C0 0x52DF keycode || in_range 0x5280 0x529F keycode
     || in_range TriLayer.QK_TRI_LAYER_LOWER TriLayer.QK_TRI_LAYER_UPPER keycode || (keycode =? KC_RIGHT_ALT) || (keycode =? OSM_RALT)
  then inr true
  else if in_range QK_MOD_TAP QK_MOD_TAP_MAX keycode then
    if held then
      let mods := (keycode >> 8) .& 0x1F in
      if mods =? 0x02 then inl KC_LEFT_SHIFT
      else if mods =? 0x12 then inl KC_RIGHT_SHIFT
      else if mods =? 0x16 then inl RSFT_RALT
      else inr (mods =? 0x14)
    else inl (keycode .& 0xFF)
  else if in_range QK_LAYER_TAP QK_LAYER_TAP_MAX keycode then if held then inr true else inl (keycode .& 0xFF)
  else inl keycode.

(** Turning on by the shift keys. *)
Definition caps_triggers (keycode mods : Z) (record : keyrecord_t) s : caps_word E :=
  let s := if BOTH_SHIFTS_TURNS_ON_CAPS_WORD && (mods =? MOD_MASK_SHIFT) then caps_word_on s else s in
  if DOUBLE_TAP_SHIFT_TURNS_ON_CAPS_WORD && pressed_of record then
    let set_tap b t s := mk_caps (caps_word_active s) (idle_timer s) b t (caps_kb s) in
    if (keycode =? KC_LEFT_SHIFT) || (keycode =? OSM_LSFT) then
      let time := ev_time (rec_event record) in
      let s := if tapped s && negb (timer_expired time (tap_timer s)) then caps_word_on s else s in
      set_tap true (u16 (time + get_tapping_term (kb_vial (caps_kb s)) keycode)) s
    else set_tap false (tap_timer s) s
  else s.

Definition process_caps_word (get_autoshift_state : bool) (keycode : Z) (record : keyrecord_t) s : bool * caps_word E :=
  if keycode =? QK_CAPS_WORD_TOGGLE then (false, if pressed_of record then caps_word_toggle s else s)
  else
    let m := kb_mods (caps_kb s) in
    let mods := real_mods m .| oneshot_mods m in
    if negb (caps_word_active s) then (true, caps_triggers keycode mods record s)
    else
      let s := reset_if_timeout s in
      if negb (pressed_of record) then (true, s)
      else if truthy (mods .& Z.lnot (MOD_MASK_SHIFT .| MOD_BIT KC_RIGHT_ALT)) then (true, caps_word_off s)
      else
        match caps_keycode keycode record with
        | inr true => (true, s)
        | inr false => (true, caps_word_off s)
        | inl keycode =>
            let s := on_caps_kb (with_mods
                       (if AUTO_SHIFT_ENABLE
                        then del_weak_mods (if get_autoshift_state then u8 (Z.lnot (MOD_BIT KC_LEFT_SHIFT)) else 0xFF)
                        else clear_weak_mods)) s in
            let '(go, s) := caps_word_press_user keycode s in
            if go then (true, on_caps_kb send_keyboard_report s) else (true, caps_word_off s)
        end.
End caps_word.
End CapsWord.

(** ** The leader key *)

Module Leader.
Definition QK_LEADER : Z := 0x7C58.

Class LeaderConfig := {
  LEADER_TIMEOUT : Z;
  LEADER_NO_TIMEOUT : bool;
  LEADER_PER_KEY_TIMING : bool;
  LEADER_KEY_STRICT_KEY_PROCESSING : bool;
}.

(** [leader_end_user] is called when a sequence ends: the log has what
    [leader_sequence] held, the latest first. *)
Record leader := mk_leader {
  leading : bool;
  leader_time : Z;
  leader_sequence : list Z;
  leader_sequence_size : Z;
  ended : list (list Z);
}.
Definition leader_init : leader := mk_leader false 0 [0; 0; 0; 0; 0] 0 [].

Section leader.
Context {lcfg : LeaderConfig}.
(** [leader_add_user]: true ends the sequence. [time] is [timer_read()]. *)
Context (leader_add_user : Z -> list Z -> bool).
Implicit Types (s : leader).

Definition leader_start (time : Z) s : leader :=
  if leading s then s else mk_leader true time [0; 0; 0; 0; 0] 0 (ended s).
Definition leader_end s : leader :=
  mk_leader false (leader_time s) (leader_sequence s) (leader_sequence_size s) (leader_sequence s :: ended s).
Definition leader_reset_timer (time : Z) s : leader :=
  mk_leader (leading s) time (leader_sequence s) (leader_sequence_size s) (ended s).
Definition leader_sequence_timed_out (time : Z) s : bool :=
  (if LEADER_NO_TIMEOUT then 0 <? leader_sequence_size s else true) && (LEADER_TIMEOUT <? u16 (time - leader_time s)).
Definition leader_task (time : Z) s : leader :=
  if leading s && leader_sequence_timed_out time s then leader_end s else s.

Definition leader_sequence_add (time keycode : Z) s : bool * leader :=
  if 5 <=? leader_sequence_size s then (false, s)
  else
    let s := if LEADER_NO_TIMEOUT && (leader_sequence_size s =? 0) then leader_reset_timer time s else s in
    let s := mk_leader (leading s) (leader_time s) (updZ (leader_sequence s) (leader_sequence_size s) keycode)
               (leader_sequence_size s + 1) (ended s) in
    (true, if leader_add_user keycode (leader_sequence s) then leader_end s else s).

Definition leader_sequence_is (kc1 kc2 kc3 kc4 kc5 : Z) s : bool :=
  bool_decide (leader_sequence s = [kc1; kc2; kc3; kc4; kc5]).

Definition leader_keycode (keycode : Z) : Z :=
  if LEADER_KEY_STRICT_KEY_PROCESSING then keycode
  else if in_range QK_MOD_TAP QK_MOD_TAP_MAX keycode || in_range QK_LAYER_TAP QK_LAYER_TAP_MAX keycode
  then keycode .& 0xFF else keycode.

Definition process_leader (time keycode : Z) (record : keyrecord_t) s : bool * leader :=
  if pressed_of record then
    if leading s && negb (leader_sequence_timed_out time s) then
      let '(added, s) := leader_sequence_add time (leader_keycode keycode) s in
      if added then (false, if LEADER_PER_KEY_TIMING then leader_reset_timer time s else s)
      else (true, leader_end s)
    else (true, if keycode =? QK_LEADER then leader_start time s else s)
  else (true, s).
End leader.
End Leader.
