(* ===== verification/SendText.v ===== *)
(** * Sending text

    [quantum/send_string/send_string.c], [quantum/unicode/*.c] and the Unicode
    keys of [quantum/process_keycode/], over the keyboard of [ActionUtil]. A C
    string is the memory from its first character on; reading past the memory
    gives [None], and so does a character without a place in the tables. The
    build has no sounds. *)

From S2P Require Import Prelude.
From S2P Require Import Eeprom.
From S2P Require Import DynamicKeymap.
From S2P Require Import Eeconfig.
From S2P Require Import QmkSettings.
From S2P Require Import Vial.
From S2P Require Import KeycodeConfig.
From S2P Require Import KeymapCommon.
From S2P Require Import MouseKey.
From S2P Require Import Keyboard.
From S2P Require Import VialDance.
From S2P Require Import ActionUtil.
From S2P Require Import KeyProcessors.
#[local] Set Default Proof Using "Type".

Definition KC_U : Z := 0x18.
Definition KC_X : Z := 0x1B.
Definition KC_G : Z := 0x0A.
Definition KC_1 : Z := 0x1E.
Definition KC_8 : Z := 0x25.
Definition KC_SPACE : Z := 0x2C.
Definition KC_NUM_LOCK : Z := 0x53.
Definition KC_KP_PLUS : Z := 0x57.
Definition KC_KP_1 : Z := 0x59.

(** ** Strings *)

(** The tables from characters to keys, which a keymap may replace. *)
Class TextLayout := {
  ascii_to_keycode_lut : list Z;
  ascii_to_shift_lut : list Z;
  ascii_to_altgr_lut : list Z;
  ascii_to_dead_lut : list Z;
}.

Definition KCLUT_ENTRY (a b c d e f g h : bool) : Z :=
  Z.b2z a .| (Z.b2z b << 1) .| (Z.b2z c << 2) .| (Z.b2z d << 3)
  .| (Z.b2z e << 4) .| (Z.b2z f << 5) .| (Z.b2z g << 6) .| (Z.b2z h << 7).
Definition PGM_LOADBIT (mem : list Z) (pos : Z) : bool := truthy ((nthZ mem (pos / 8) >> (pos mod 8)) .& 1).

Section us_tables.
Let I := true.
Let o := false.
Definition us_shift_lut : list Z :=
  [KCLUT_ENTRY o o o o o o o o; KCLUT_ENTRY o o o o o o o o;
   KCLUT_ENTRY o o o o o o o o; KCLUT_ENTRY o o o o o o o o;
   KCLUT_ENTRY o I I I I I I o; KCLUT_ENTRY I I I I o o o o;
   KCLUT_ENTRY o o o o o o o o; KCLUT_ENTRY o o I o I o I I;
   KCLUT_ENTRY I I I I I I I I; KCLUT_ENTRY I I I I I I I I;
   KCLUT_ENTRY I I I I I I I I; KCLUT_ENTRY I I I o o o I I;
   KCLUT_ENTRY o o o o o o o o; KCLUT_ENTRY o o o o o o o o;
   KCLUT_ENTRY o o o o o o o o; KCLUT_ENTRY o o o I I I I o].
End us_tables.

(** In the order of the source: 16 control characters twice, then eight
    characters a line. *)
Definition us_keycode_lut : list Z :=
  [0; 0; 0; 0; 0; 0; 0; 0;
   0x2A; 0x2B; 0x28; 0; 0; 0; 0; 0;
   0; 0; 0; 0; 0; 0; 0; 0;
   0; 0; 0; 0x29; 0; 0; 0; 0;
   0x2C; 0x1E; 0x34; 0x20; 0x21; 0x22; 0x24; 0x34;
   0x26; 0x27; 0x25; 0x2E; 0x36; 0x2D; 0x37; 0x38;
   0x27; 0x1E; 0x1F; 0x20; 0x21; 0x22; 0x23; 0x24;
   0x25; 0x26; 0x33; 0x33; 0x36; 0x2E; 0x37; 0x38;
   0x1F; 0x04; 0x05; 0x06; 0x07; 0x08; 0x09; 0x0A;
   0x0B; 0x0C; 0x0D; 0x0E; 0x0F; 0x10; 0x11; 0x12;
   0x13; 0x14; 0x15; 0x16; 0x17; 0x18; 0x19; 0x1A;
   0x1B; 0x1C; 0x1D; 0x2F; 0x31; 0x30; 0x23; 0x2D;
   0x35; 0x04; 0x05; 0x06; 0x07; 0x08; 0x09; 0x0A;
   0x0B; 0x0C; 0x0D; 0x0E; 0x0F; 0x10; 0x11; 0x12;
   0x13; 0x14; 0x15; 0x16; 0x17; 0x18; 0x19; 0x1A;
   0x1B; 0x1C; 0x1D; 0x2F; 0x31; 0x30; 0x35; 0x4C].

Definition us_layout : TextLayout := {|
  ascii_to_keycode_lut := us_keycode_lut;
  ascii_to_shift_lut := us_shift_lut;
  ascii_to_altgr_lut := memset 0 16;
  ascii_to_dead_lut := memset 0 16;
|}.

Section send_string.
Context {E : Type} {eeprom : Eeprom E} {cfg : KeymapConfig} {mcfg : MouseKeyConfig} {qcfg : QmkSettingsConfig}
        {layout : TextLayout}.
Implicit Types (k : kb E) (str : list Z).

Definition when (b : bool) (f : kb E -> kb E) k : kb E := if b then f k else k.

Definition send_char_with_delay (ascii_code interval : Z) k : option (kb E) :=
  if in_range 0 127 ascii_code then
    let keycode := nthZ ascii_to_keycode_lut ascii_code in
    let is_shifted := PGM_LOADBIT ascii_to_shift_lut ascii_code in
    let is_altgred := PGM_LOADBIT ascii_to_altgr_lut ascii_code in
    let is_dead := PGM_LOADBIT ascii_to_dead_lut ascii_code in
    let pause k := wait_ms interval k in
    let k := when is_shifted (fun k => pause (register_code KC_LEFT_SHIFT k)) k in
    let k := when is_altgred (fun k => pause (register_code KC_RIGHT_ALT k)) k in
    let k := pause (tap_code_delay keycode interval k) in
    let k := when is_altgred (fun k => pause (unregister_code KC_RIGHT_ALT k)) k in
    let k := when is_shifted (fun k => pause (unregister_code KC_LEFT_SHIFT k)) k in
    Some (when is_dead (fun k => pause (tap_code KC_SPACE k)) k)
  else None.
Definition send_char (ascii_code : Z) k : option (kb E) := send_char_with_delay ascii_code (u8 TAP_CODE_DELAY) k.

Definition isdigit (c : Z) : bool := in_range 0x30 0x39 c.

(** The digits of a delay: the delay, the character after them, and the rest. *)
Fixpoint read_delay (ms : Z) str : option (Z * Z * list Z) :=
  match str with
  | [] => None
  | c :: str => if isdigit c then read_delay (ms * 10 + (c - 0x30)) str else Some (ms, c, str)
  end.

(** Each round reads a character at least. *)
Fixpoint send_string_loop (fuel : nat) (interval : Z) str k : option (kb E) :=
  match fuel, str with
  | O, _ | _, [] => None
  | S fuel, c :: str =>
      if c =? 0 then Some k
      else if c =? SS_QMK_PREFIX then
        match str with
        | [] => None
        | op :: str =>
            if (op =? SS_TAP_CODE) || (op =? SS_DOWN_CODE) || (op =? SS_UP_CODE) then
              match str with
              | [] => None
              | keycode :: str =>
                  let k := if op =? SS_TAP_CODE then tap_code keycode k
                           else if op =? SS_DOWN_CODE then register_code keycode k
                           else unregister_code keycode k in
                  send_string_loop fuel interval str (wait_ms interval k)
              end
            else if op =? SS_DELAY_CODE then
              match read_delay 0 str with
              | None => None
              | Some (ms, c, str) =>
                  let k := wait_ms interval (wait_ms ms k) in
                  if c =? 0 then Some k else send_string_loop fuel interval str k
              end
            else
              let k := wait_ms interval k in
              if op =? 0 then Some k else send_string_loop fuel interval str k
        end
      else k ← send_char_with_delay c interval k; send_string_loop fuel interval str k
  end.

Definition send_string_with_delay (interval : Z) str k : option (kb E) :=
  send_string_loop (length str) interval str k.
Definition send_string str k : option (kb E) := send_string_with_delay (u8 TAP_CODE_DELAY) str k.

Definition send_nibble (number : Z) k : option (kb E) :=
  let digit := number .& 0xF in
  if digit <=? 9 then send_char (u8 (number + 0x30)) k else send_char (u8 (number - 10 + 0x61)) k.
Definition send_byte (number : Z) k : option (kb E) :=
  k ← send_nibble (number >> 4) k; send_nibble (number .& 0xF) k.
Definition send_word (number : Z) k : option (kb E) :=
  k ← send_byte (number >> 8) k; send_byte (number .& 0xFF) k.
Definition send_dword (number : Z) k : option (kb E) :=
  k ← send_word (number >> 16) k; send_word (number .& 0xFFFF) k.

(** The strings of a dynamic macro. A keycode above [QK_MODS_MAX] goes back
    through [action_exec], which is the parameter. *)
Context (DYNAMIC_KEYMAP_MACRO_DELAY : Z) (exec : Z -> bool -> kb E -> kb E).

Definition keycode_down (kc : Z) k : kb E := if kc <=? QK_MODS_MAX then register_code16 kc k else exec kc true k.
Definition keycode_up (kc : Z) k : kb E := if kc <=? QK_MODS_MAX then unregister_code16 kc k else exec kc false k.
Definition keycode_tap (kc : Z) k : kb E :=
  let k := keycode_down kc k in
  keycode_up kc (wait_ms (QS16 (settings (kb_vial k)) QS_tap_code_delay) k).

(** [data] is an array of four characters that is zero after those given. *)
Definition perform_call (call : macro_call) k : option (kb E) :=
  match call with
  | CallSendString data => send_string (data ++ [0]) k
  | CallSendStringDelay data => send_string_with_delay DYNAMIC_KEYMAP_MACRO_DELAY (data ++ [0; 0; 0]) k
  | CallKeycodeTap kc => Some (keycode_tap kc k)
  | CallKeycodeDown kc => Some (keycode_down kc k)
  | CallKeycodeUp kc => Some (keycode_up kc k)
  | CallWait ms => Some (wait_ms ms k)
  end.
Definition perform_calls (l : list macro_call) k : option (kb E) :=
  foldl (fun sent call => k ← sent; perform_call call k) (Some k) l.
End send_string.

(** ** UTF-8 *)

(** The code point and the rest of the string. *)
Definition decode_utf8 (str : list Z) : option (Z * list Z) :=
  match str with
  | [] => None
  | b0 :: str =>
      let valid c := if in_range 0xD800 0xDFFF c then -1 else c in
      if b0 <? 0x80 then Some (valid b0, str)
      else if b0 .& 0xE0 =? 0xC0 then
        match str with
        | b1 :: str => Some (valid (((b0 .& 0x1F) << 6) .| (b1 .& 0x3F)), str)
        | _ => None
        end
      else if b0 .& 0xF0 =? 0xE0 then
        match str with
        | b1 :: b2 :: str => Some (valid (((b0 .& 0x0F) << 12) .| ((b1 .& 0x3F) << 6) .| (b2 .& 0x3F)), str)
        | _ => None
        end
      else if (b0 .& 0xF8 =? 0xF0) && (b0 <=? 0xF4) then
        match str with
        | b1 :: b2 :: b3 :: str =>
            Some (valid (((b0 .& 0x07) << 18) .| ((b1 .& 0x3F) << 12) .| ((b2 .& 0x3F) << 6) .| (b3 .& 0x3F)), str)
        | _ => None
        end
      else Some (-1, str)
  end.

(** ** Unicode *)

Definition UNICODE_MODE_MACOS : Z := 0.
Definition UNICODE_MODE_LINUX : Z := 1.
Definition UNICODE_MODE_WINDOWS : Z := 2.
Definition UNICODE_MODE_BSD : Z := 3.
Definition UNICODE_MODE_WINCOMPOSE : Z := 4.
Definition UNICODE_MODE_EMACS : Z := 5.
Definition QK_UNICODE_MODE_NEXT : Z := 0x7C30.
Definition QK_UNICODE_MODE_PREVIOUS : Z := 0x7C31.
Definition QK_UNICODE_MODE_MACOS : Z := 0x7C32.
Definition QK_UNICODE_MODE_LINUX : Z := 0x7C33.
Definition QK_UNICODE_MODE_WINDOWS : Z := 0x7C34.
Definition QK_UNICODE_MODE_BSD : Z := 0x7C35.
Definition QK_UNICODE_MODE_WINCOMPOSE : Z := 0x7C36.
Definition QK_UNICODE_MODE_EMACS : Z := 0x7C37.
Definition QK_UNICODE : Z := 0x8000.
Definition QK_UNICODE_MAX : Z := 0xFFFF.
Definition QK_UNICODEMAP : Z := 0x8000.
Definition QK_UNICODEMAP_PAIR : Z := 0xC000.
Definition QK_UNICODEMAP_PAIR_MAX : Z := 0xFFFF.
Definition LCTL (kc : Z) : Z := QK_LCTL .| kc.
Definition LSFT (kc : Z) : Z := QK_LSFT .| kc.

Record led_t := mk_led { num_lock : bool; caps_lock : bool }.

(** The selected modes are empty for [-1]. *)
Class UnicodeConfig := {
  UNICODE_KEY_MAC : Z;
  UNICODE_KEY_LNX : Z;
  UNICODE_KEY_WINC : Z;
  UNICODE_SELECTED_MODES : list Z;
  UNICODE_CYCLE_PERSIST : bool;
  UNICODE_TYPE_DELAY : Z;
}.

Record unicode_st := mk_unicode {
  input_mode : Z;
  unicode_saved_mods : Z;
  unicode_saved_led_state : led_t;
  selected_index : Z;
}.

Section unicode.
Context {E : Type} {eeprom : Eeprom E} {cfg : KeymapConfig} {mcfg : MouseKeyConfig} {qcfg : QmkSettingsConfig}
        {layout : TextLayout} {ucfg : UnicodeConfig}.
(** The LEDs as the host set them last. *)
Context (host_keyboard_led_state : kb E -> led_t).
Implicit Types (k : kb E) (u : unicode_st) (s : unicode_st * kb E).

Definition set_mode (mode : Z) u : unicode_st :=
  mk_unicode mode (unicode_saved_mods u) (unicode_saved_led_state u) (selected_index u).
Definition set_selected (i : Z) u : unicode_st :=
  mk_unicode (input_mode u) (unicode_saved_mods u) (unicode_saved_led_state u) i.

Fixpoint find_mode (mode i : Z) (modes : list Z) : option Z :=
  match modes with
  | [] => None
  | m :: modes => if m =? mode then Some i else find_mode mode (i + 1) modes
  end.

Definition unicode_input_mode_init s : unicode_st * kb E :=
  let '(u, k) := s in
  let u := set_mode (eeprom_read_byte (qs_eeprom (settings (kb_vial k))) EECONFIG_UNICODEMODE) u in
  let first := set_mode (nthZ UNICODE_SELECTED_MODES 0) (set_selected 0 u) in
  (if bool_decide (UNICODE_SELECTED_MODES = []) then u
   else if UNICODE_CYCLE_PERSIST then
     match find_mode (input_mode u) 0 UNICODE_SELECTED_MODES with
     | Some i => set_selected i u
     | None => first
     end
   else first, k).

Definition persist_unicode_input_mode s : unicode_st * kb E :=
  (s.1, Magic.on_eeprom (eeprom_update_byte EECONFIG_UNICODEMODE (input_mode s.1)) s.2).
Definition set_unicode_input_mode (mode : Z) s : unicode_st * kb E :=
  persist_unicode_input_mode (set_mode mode s.1, s.2).

Definition cycle_unicode_input_mode (offset : Z) s : unicode_st * kb E :=
  let count := lenZ UNICODE_SELECTED_MODES in
  if bool_decide (UNICODE_SELECTED_MODES = []) then s
  else
    let i := Z.rem (selected_index s.1 + offset) count in
    let i := if i <? 0 then i + count else i in
    let s := (set_mode (nthZ UNICODE_SELECTED_MODES i) (set_selected i s.1), s.2) in
    if UNICODE_CYCLE_PERSIST then persist_unicode_input_mode s else s.
Definition unicode_input_mode_step s : unicode_st * kb E := cycle_unicode_input_mode 1 s.
Definition unicode_input_mode_step_reverse s : unicode_st * kb E := cycle_unicode_input_mode (-1) s.

Definition unicode_input_start s : unicode_st * kb E :=
  let '(u, k) := s in
  let mode := input_mode u in
  let led := host_keyboard_led_state k in
  let k := when ((mode =? UNICODE_MODE_LINUX) && caps_lock led) (tap_code KC_CAPS_LOCK) k in
  let u := mk_unicode mode (real_mods (kb_mods k)) led (selected_index u) in
  let k := with_mods (fun m => clear_weak_mods (clear_mods m)) k in
  let k :=
    if mode =? UNICODE_MODE_MACOS then register_code UNICODE_KEY_MAC k
    else if mode =? UNICODE_MODE_LINUX then tap_code16 UNICODE_KEY_LNX k
    else if mode =? UNICODE_MODE_WINDOWS then
      let k := when (negb (num_lock led)) (tap_code KC_NUM_LOCK) k in
      tap_code KC_KP_PLUS (wait_ms UNICODE_TYPE_DELAY (register_code KC_LEFT_ALT k))
    else if mode =? UNICODE_MODE_WINCOMPOSE then tap_code KC_U (tap_code UNICODE_KEY_WINC k)
    else if mode =? UNICODE_MODE_EMACS then tap_code16 KC_ENTER (tap_code16 KC_8 (tap_code16 (LCTL KC_X) k))
    else k in
  (u, wait_ms UNICODE_TYPE_DELAY k).

(** [finish] and [cancel] differ in the key that ends the input. *)
Definition unicode_input_end (lnx winc emacs : Z) s : unicode_st * kb E :=
  let '(u, k) := s in
  let mode := input_mode u in
  let led := unicode_saved_led_state u in
  let k :=
    if mode =? UNICODE_MODE_MACOS then unregister_code UNICODE_KEY_MAC k
    else if mode =? UNICODE_MODE_LINUX then when (caps_lock led) (tap_code KC_CAPS_LOCK) (tap_code lnx k)
    else if mode =? UNICODE_MODE_WINDOWS then
      when (negb (num_lock led)) (tap_code KC_NUM_LOCK) (unregister_code KC_LEFT_ALT k)
    else if mode =? UNICODE_MODE_WINCOMPOSE then tap_code winc k
    else if mode =? UNICODE_MODE_EMACS then tap_code16 emacs k
    else k in
  (u, with_mods (set_mods (unicode_saved_mods u)) k).
Definition unicode_input_finish s : unicode_st * kb E := unicode_input_end KC_SPACE KC_ENTER KC_ENTER s.
Definition unicode_input_cancel s : unicode_st * kb E := unicode_input_end KC_ESCAPE KC_ESCAPE (LCTL KC_G) s.

Definition send_nibble_wrapper (mode digit : Z) k : option (kb E) :=
  if mode =? UNICODE_MODE_WINDOWS then
    Some (tap_code (if digit <? 10 then KC_KP_1 + (10 + digit - 1) mod 10 else KC_A + (digit - 10)) k)
  else send_nibble digit k.

Definition nibble (hex i : Z) : Z := (hex >> (i * 4)) .& 0xF.

Definition register_hex (mode hex : Z) k : option (kb E) :=
  foldl (fun sent i => k ← sent; send_nibble_wrapper mode (nibble hex i) k) (Some k) [3; 2; 1; 0].

(** The state of the loop is [first_digit]. *)
Definition hex32_step (mode hex : Z) (s : option (bool * kb E)) (i : Z) : option (bool * kb E) :=
  '(first_digit, k) ← s;
  let digit := nibble hex i in
  k ← (if first_digit && (mode =? UNICODE_MODE_WINCOMPOSE) && (9 <? digit) then send_nibble_wrapper mode 0 k else Some k);
  if negb (digit =? 0) || negb first_digit || (i <? 4) then
    k ← send_nibble_wrapper mode digit k; Some (false, k)
  else Some (first_digit, k).
Definition register_hex32 (mode hex : Z) k : option (kb E) :=
  snd <$> foldl (hex32_step mode hex) (Some (true, k)) [7; 6; 5; 4; 3; 2; 1; 0].

Definition on_snd (f : kb E -> option (kb E)) s : option (unicode_st * kb E) := k ← f s.2; Some (s.1, k).

Definition register_unicode (code_point : Z) s : option (unicode_st * kb E) :=
  let mode := input_mode s.1 in
  if (0x10FFFF <? code_point) || ((0xFFFF <? code_point) && (mode =? UNICODE_MODE_WINDOWS)) then Some s
  else
    let s := unicode_input_start s in
    s ← (if (0xFFFF <? code_point) && (mode =? UNICODE_MODE_MACOS) then
           let c := code_point - 0x10000 in
           let lo := c .& 0x3FF in
           let hi := (c .& 0xFFC00) >> 10 in
           s ← on_snd (register_hex32 mode (hi + 0xD800)) s;
           on_snd (register_hex32 mode (lo + 0xDC00)) s
         else on_snd (register_hex32 mode code_point) s);
    Some (unicode_input_finish s).

(** Each round reads a byte at least. *)
Fixpoint send_unicode_loop (fuel : nat) (str : list Z) s : option (unicode_st * kb E) :=
  match fuel, str with
  | O, _ | _, [] => None
  | S fuel, c :: _ =>
      if c =? 0 then Some s
      else
        '(code_point, str) ← decode_utf8 str;
        s ← (if 0 <=? code_point then register_unicode code_point s else Some s);
        send_unicode_loop fuel str s
  end.
Definition send_unicode_string (str : list Z) s : option (unicode_st * kb E) := send_unicode_loop (length str) str s.

(** ** The Unicode keys *)

Definition process_unicode (keycode : Z) (record : keyrecord_t) s : option (bool * (unicode_st * kb E)) :=
  s ← (if pressed_of record && in_range QK_UNICODE QK_UNICODE_MAX keycode then register_unicode (keycode .& 0x7FFF) s
       else Some s);
  Some (true, s).

(** A [uint8_t]. *)
Definition unicodemap_index (keycode : Z) k : Z :=
  u8 (if QK_UNICODEMAP_PAIR <=? keycode then
        let mods := real_mods (kb_mods k) .| weak_mods (kb_mods k) .| oneshot_mods (kb_mods k) in
        if xorb (truthy (mods .& MOD_MASK_SHIFT)) (caps_lock (host_keyboard_led_state k))
        then (keycode >> 7) .& 0x7F else keycode .& 0x7F
      else keycode .& 0x3FFF).
Definition register_unicodemap (unicode_map : list Z) (index : Z) s : option (unicode_st * kb E) :=
  register_unicode (nthZ unicode_map index) s.
Definition process_unicodemap (unicode_map : list Z) (keycode : Z) (record : keyrecord_t) s
    : option (bool * (unicode_st * kb E)) :=
  s ← (if in_range QK_UNICODEMAP QK_UNICODEMAP_PAIR_MAX keycode && pressed_of record
       then register_unicodemap unicode_map (unicodemap_index keycode s.2) s else Some s);
  Some (true, s).

(** The rest is the method the build has. *)
Definition process_unicode_common {A : Type} (keycode : Z) (record : keyrecord_t)
    (method : unicode_st * kb E -> A) s : A :=
  let shifted := truthy (real_mods (kb_mods s.2) .& MOD_MASK_SHIFT) in
  method
    (if negb (pressed_of record) then s
     else if keycode =? QK_UNICODE_MODE_NEXT then
       if shifted then unicode_input_mode_step_reverse s else unicode_input_mode_step s
     else if keycode =? QK_UNICODE_MODE_PREVIOUS then
       if shifted then unicode_input_mode_step s else unicode_input_mode_step_reverse s
     else if keycode =? QK_UNICODE_MODE_MACOS then set_unicode_input_mode UNICODE_MODE_MACOS s
     else if keycode =? QK_UNICODE_MODE_LINUX then set_unicode_input_mode UNICODE_MODE_LINUX s
     else if keycode =? QK_UNICODE_MODE_WINDOWS then set_unicode_input_mode UNICODE_MODE_WINDOWS s
     else if keycode =? QK_UNICODE_MODE_BSD then set_unicode_input_mode UNICODE_MODE_BSD s
     else if keycode =? QK_UNICODE_MODE_WINCOMPOSE then set_unicode_input_mode UNICODE_MODE_WINCOMPOSE s
     else if keycode =? QK_UNICODE_MODE_EMACS then set_unicode_input_mode UNICODE_MODE_EMACS s
     else s).
End unicode.

(** ** Symbols by their names *)

Module Ucis.
Definition UCIS_MAX_INPUT_LENGTH : Z := 32.
Definition UCIS_MAX_CODE_POINTS : nat := 3.

Record ucis_symbol_t := mk_symbol { mnemonic : list Z; code_points : list Z }.
Record ucis := mk_ucis { count : Z; active : bool; input : list Z }.
Definition ucis_init : ucis := mk_ucis 0 false (memset 0 UCIS_MAX_INPUT_LENGTH).

Definition keycode_to_char (keycode : Z) : Z :=
  if in_range KC_A 0x1D keycode then 0x61 + (keycode - KC_A)
  else if in_range KC_1 KC_9 keycode then 0x31 + (keycode - KC_1)
  else if keycode =? KC_0 then 0x30
  else 0.

Definition ucis_add (keycode : Z) (c : ucis) : bool * ucis :=
  let ch := keycode_to_char keycode in
  if truthy ch then (true, mk_ucis (u8 (count c + 1)) (active c) (updZ (input c) (count c) ch)) else (false, c).
Definition ucis_remove_last (c : ucis) : bool * ucis :=
  if truthy (count c) then (true, mk_ucis (count c - 1) (active c) (input c)) else (false, c).
Definition ucis_cancel (c : ucis) : ucis := mk_ucis 0 false (input c).

(** From the [i]-th character on; [None] when it reads past [input]. *)
Fixpoint match_from (fuel : nat) (i : Z) (name : list Z) (c : ucis) : option bool :=
  match fuel with
  | O => None
  | S fuel =>
      if negb (truthy (nthZ (input c) i)) then Some true
      else if (count c <? i) || negb (nthZ (input c) i =? nthZ name i) then Some false
      else match_from fuel (i + 1) name c
  end.
Definition match_mnemonic (name : list Z) (c : ucis) : option bool :=
  match_from (Z.to_nat UCIS_MAX_INPUT_LENGTH) 0 name c.

Fixpoint find_symbol (table : list ucis_symbol_t) (c : ucis) : option (option ucis_symbol_t) :=
  match table with
  | [] => Some None
  | sym :: table =>
      found ← match_mnemonic (mnemonic sym) c;
      if found : bool then Some (Some sym) else find_symbol table c
  end.

Section ucis.
Context {E : Type} {eeprom : Eeprom E} {cfg : KeymapConfig} {mcfg : MouseKeyConfig} {qcfg : QmkSettingsConfig}
        {layout : TextLayout} {ucfg : UnicodeConfig}.
Context (host_keyboard_led_state : kb E -> led_t) (ucis_symbol_table : list ucis_symbol_t).
Implicit Types (s : ucis * (unicode_st * kb E)).

Definition register_all (cps : list Z) (s : unicode_st * kb E) : option (unicode_st * kb E) :=
  foldl (fun done cp => s ← done; register_unicode host_keyboard_led_state cp s) (Some s) cps.

(** The code points of a symbol end with the first zero. *)
Fixpoint until_zero (n : nat) (cps : list Z) : list Z :=
  match n, cps with
  | S n, cp :: cps => if truthy cp then cp :: until_zero n cps else []
  | _, _ => []
  end.
Definition register_ucis (sym : ucis_symbol_t) (s : unicode_st * kb E) : option (unicode_st * kb E) :=
  register_all (until_zero UCIS_MAX_CODE_POINTS (code_points sym)) s.

Definition ucis_start s : option (ucis * (unicode_st * kb E)) :=
  u ← register_unicode host_keyboard_led_state 0x2328 s.2;
  Some (mk_ucis 0 true (input s.1), u).

Definition ucis_finish s : option (ucis * (unicode_st * kb E)) :=
  let '(c, (u, k)) := s in
  found ← find_symbol ucis_symbol_table c;
  s ← match found with
      | Some sym =>
          register_ucis sym (u, Nat.iter (Z.to_nat (count c + 1)) (tap_code KC_BACKSPACE) k)
      | None => Some (u, k)
      end;
  Some (mk_ucis (count c) false (input c), s).

Definition process_ucis (keycode : Z) (record : keyrecord_t) s : option (bool * (ucis * (unicode_st * kb E))) :=
  let '(c, r) := s in
  if active c && pressed_of record then
    let special := (keycode =? KC_SPACE) || (keycode =? KC_ENTER) || (keycode =? KC_ESCAPE) || (keycode =? KC_BACKSPACE) in
    if (UCIS_MAX_INPUT_LENGTH <=? count c) && negb special then Some (false, s)
    else
      let '(added, c) := ucis_add keycode c in
      if added then Some (true, (c, r))
      else if keycode =? KC_BACKSPACE then let '(go, c) := ucis_remove_last c in Some (go, (c, r))
      else if keycode =? KC_ESCAPE then Some (false, (ucis_cancel c, r))
      else if (keycode =? KC_SPACE) || (keycode =? KC_ENTER) then s ← ucis_finish (c, r); Some (false, s)
      else Some (true, (c, r))
  else Some (true, s).
End ucis.
End Ucis.
