(* ===== verification/Autocorrect.v ===== *)
(** * Autocorrection

    [quantum/process_keycode/process_autocorrect.c]: the last letters typed are
    kept in a buffer and looked up, from the last to the first, in a trie stored
    as bytes. The table is generated, so it is a parameter; the table that comes
    with the source is [default_data]. Reading outside the table gives [None], and
    so does writing outside the arrays [typo] and [correct], which are made for
    the hook [apply_autocorrect]; the hook is the weak one, which says yes. *)

From S2P Require Import Prelude.
From S2P Require Import Eeprom.
From S2P Require Import DynamicKeymap.
From S2P Require Import Eeconfig.
From S2P Require Import QmkSettings.
From S2P Require Import Vial.
From S2P Require Import KeycodeConfig.
From S2P Require Import KeymapCommon.
From S2P Require Import MouseKey.
From S2P Require Import Keyboard.
From S2P Require Import ActionUtil.
From S2P Require Import KeyProcessors.
From S2P Require Import SendText.
#[local] Set Default Proof Using "Type".

Definition QK_AUTOCORRECT_ON : Z := 0x7C74.
Definition QK_AUTOCORRECT_OFF : Z := 0x7C75.
Definition QK_AUTOCORRECT_TOGGLE : Z := 0x7C76.
Definition KC_Z : Z := 0x1D.
Definition KC_TAB : Z := 0x2B.
Definition KC_SEMICOLON : Z := 0x33.
Definition KC_QUOTE : Z := 0x34.
Definition KC_SLASH : Z := 0x38.
Definition QK_RSFT : Z := 0x1200.
Definition AUTOCORRECT_ENABLE : Z := 12.

(** [SEND_STRING_P_DELAY] is the delay of [send_string_P]: [TAP_CODE_DELAY] where
    programs are in memory of their own, [0] elsewhere. *)
Class AutocorrectConfig := {
  autocorrect_data : list Z;
  AUTOCORRECT_MIN_LENGTH : Z;
  AUTOCORRECT_MAX_LENGTH : Z;
  SEND_STRING_P_DELAY : Z;
}.

Record autocorrect_st := mk_ac { typo_buffer : list Z; typo_buffer_size : Z }.

Section search.
Context (data : list Z).
Definition DICTIONARY_SIZE : Z := lenZ data.
Definition pgm_read (state : Z) : option Z := if 0 <=? state then data !! Z.to_nat state else None.

(** The node with several children: the link of the key, if it has one. Each
    round reads a new entry. *)
Fixpoint follow (fuel : nat) (key state code : Z) : option (option Z) :=
  match fuel with
  | O => None
  | S fuel =>
      if code =? key then
        lo ← pgm_read (state + 1); hi ← pgm_read (state + 2); Some (Some (lo .| (hi << 8)))
      else if code =? 0 then Some None
      else code ← pgm_read (u16 (state + 3)); follow fuel key (u16 (state + 3)) code
  end.

(** The state of the typo that ends the buffer, whose keys come from the last. *)
Fixpoint search (keys : list Z) (state code : Z) : option (option Z) :=
  match keys with
  | [] => Some None
  | key :: keys =>
      next ← (if truthy (code .& 64) then follow (length data) key state (code .& 63)
              else if negb (code =? key) then Some None
              else code ← pgm_read (state + 1); Some (Some (u16 (if code =? 0 then state + 2 else state + 1))));
      match next with
      | None => Some None
      | Some state =>
          if DICTIONARY_SIZE <=? state then Some None
          else code ← pgm_read state; if truthy (code .& 128) then Some (Some state) else search keys state code
      end
  end.
End search.

(** ** C strings *)

(** The characters up to the first zero. *)
Fixpoint cstring (l : list Z) : option (list Z) :=
  match l with
  | [] => None
  | c :: l => if c =? 0 then Some [] else cons c <$> cstring l
  end.

(** [strcpy(dst + pos, str)]. *)
Definition strcpy (dst : list Z) (pos : Z) (str : list Z) : option (list Z) :=
  if (0 <=? pos) && (pos + lenZ str <? lenZ dst) then Some (blit dst pos (str ++ [0])) else None.

Section autocorrect.
Context {E : Type} {eeprom : Eeprom E} {cfg : KeymapConfig} {mcfg : MouseKeyConfig} {qcfg : QmkSettingsConfig}
        {layout : TextLayout} {acfg : AutocorrectConfig}.
Implicit Types (s : kb E * autocorrect_st) (k : kb E) (a : autocorrect_st).

Definition set_size (n : Z) a : autocorrect_st := mk_ac (typo_buffer a) n.
Definition autocorrect_is_enabled k : bool := Z.testbit (keymap_word k) AUTOCORRECT_ENABLE.
Definition store_enabled (b : bool) k : kb E :=
  let k := Magic.with_vial_settings (QmkSettings.set_keymap_config (Magic.put_bit AUTOCORRECT_ENABLE b (keymap_word k))) k in
  Magic.on_eeprom (eeconfig_update_keymap (keymap_word k)) k.
Definition autocorrect_enable s : kb E * autocorrect_st := (store_enabled true s.1, s.2).
Definition autocorrect_disable s : kb E * autocorrect_st := (store_enabled false s.1, set_size 0 s.2).
Definition autocorrect_toggle s : kb E * autocorrect_st :=
  (store_enabled (negb (autocorrect_is_enabled s.1)) s.1, set_size 0 s.2).

(** Whether to go on, the keycode, the size of the buffer, and the modifiers. The
    layer keys and one-shot keys are in one range each. *)
Definition process_autocorrect_default_handler (keycode : Z) (record : keyrecord_t) (size mods : Z) : bool * Z * Z * Z :=
  let no_mods keycode :=
    if truthy (mods .& Z.lnot MOD_MASK_SHIFT) then (false, keycode, 0, mods) else (true, keycode, size, mods) in
  if (keycode =? KC_LEFT_SHIFT) || (keycode =? KC_RIGHT_SHIFT) || (keycode =? KC_CAPS_LOCK)
     || in_range 0x5200 0x52FF keycode || in_range 0x5000 0x51FF keycode
  then (false, keycode, size, mods)
  else if in_range QK_LSFT (QK_LSFT + 255) keycode then (true, keycode .& 0xFF, size, mods .| 0x02)
  else if in_range QK_RSFT (QK_RSFT + 255) keycode then (true, keycode .& 0xFF, size, mods .| 0x12)
  else if in_range 0x2000 0x4FFF keycode then
    if tap_count (rec_tap record) =? 0 then (false, keycode, size, mods) else no_mods (keycode .& 0xFF)
  else if in_range 0x5600 0x56FF keycode then (false, keycode, size, mods)
  else no_mods keycode.

(** What goes into the buffer for a keycode, and the size before it; or the size
    when nothing does. *)
Definition letter_of (keycode mods size : Z) : (Z * Z) + Z :=
  if in_range KC_A KC_Z keycode then inl (keycode, size)
  else if in_range KC_1 KC_0 keycode || in_range KC_TAB KC_SEMICOLON keycode || in_range KC_GRAVE KC_SLASH keycode
  then inl (KC_SPACE, size)
  else if keycode =? KC_ENTER then inl (KC_SPACE, 0)
  else if keycode =? KC_BACKSPACE then inr (if 0 <? size then size - 1 else size)
  else if keycode =? KC_QUOTE then inl (if truthy (mods .& MOD_MASK_SHIFT) then KC_SPACE else keycode, size)
  else inr 0.

(** The oldest key makes room. *)
Definition append_key (key : Z) a : autocorrect_st :=
  let a := if AUTOCORRECT_MAX_LENGTH <=? typo_buffer_size a
           then mk_ac (slice (typo_buffer a) 1 (AUTOCORRECT_MAX_LENGTH - 1)
                       ++ slice (typo_buffer a) (AUTOCORRECT_MAX_LENGTH - 1) 1) (AUTOCORRECT_MAX_LENGTH - 1)
           else a in
  mk_ac (updZ (typo_buffer a) (typo_buffer_size a) key) (typo_buffer_size a + 1).

(** The loop that looks for the start of the last word, from [i] down: the start
    and the length. *)
Fixpoint last_word (a : autocorrect_st) (i : nat) (typo_len : Z) : Z * Z :=
  match i with
  | O => (0, typo_len)
  | S n =>
      if (nthZ (typo_buffer a) (Z.of_nat n) =? KC_SPACE) && negb (Z.of_nat i =? typo_buffer_size a)
      then (Z.of_nat i, typo_len)
      else last_word a n (typo_len + 1)
  end.
Definition space_last a : bool := nthZ (typo_buffer a) (typo_buffer_size a - 1) =? KC_SPACE.
Definition typo_word a : Z * Z :=
  let '(typo_start, typo_len) := last_word a (Z.to_nat (typo_buffer_size a)) 0 in
  (typo_start, if space_last a then typo_len - 1 else typo_len).

(** The arrays [typo] and [correct]. *)
Definition typo_chars a : list Z :=
  let '(typo_start, typo_len) := typo_word a in
  blit (memset 0 (AUTOCORRECT_MAX_LENGTH + 1)) 0
    (map (fun key => u8 (key - KC_A + 0x61)) (slice (typo_buffer a) typo_start typo_len)).
Definition correct_chars (backspaces : Z) (changes : list Z) a : option (list Z) :=
  let offset := if space_last a then backspaces else backspaces + 1 in
  word ← cstring (typo_chars a);
  correct ← strcpy (memset 0 (AUTOCORRECT_MAX_LENGTH + 10)) 0 word;
  strcpy correct ((typo_word a).2 - offset) changes.

(** The weak definition. *)
Definition apply_autocorrect (backspaces : Z) (str typo correct : list Z) : bool := true.

Definition correct_typo (key state : Z) s : option (bool * (kb E * autocorrect_st)) :=
  let '(k, a) := s in
  code ← pgm_read autocorrect_data state;
  let backspaces := code .& 63 in
  let changes := drop (Z.to_nat (state + 1)) autocorrect_data in
  str ← cstring changes;
  correct ← correct_chars backspaces str a;
  k ← (if apply_autocorrect backspaces str (typo_chars a) correct
       then send_string_with_delay SEND_STRING_P_DELAY changes (Nat.iter (Z.to_nat backspaces) (tap_code KC_BACKSPACE) k)
       else Some k);
  if key =? KC_SPACE
  then Some (true, (k, mk_ac (updZ (typo_buffer a) 0 KC_SPACE) 1))
  else Some (false, (k, set_size 0 a)).

Definition process_autocorrect (keycode : Z) (record : keyrecord_t) s : option (bool * (kb E * autocorrect_st)) :=
  let '(k, a) := s in
  let mods := real_mods (kb_mods k) .| oneshot_mods (kb_mods k) in
  if in_range QK_AUTOCORRECT_ON QK_AUTOCORRECT_TOGGLE keycode && pressed_of record then
    Some (false, if keycode =? QK_AUTOCORRECT_ON then autocorrect_enable s
                 else if keycode =? QK_AUTOCORRECT_OFF then autocorrect_disable s else autocorrect_toggle s)
  else if negb (autocorrect_is_enabled k) then Some (true, (k, set_size 0 a))
  else if negb (pressed_of record) then Some (true, s)
  else
    let '(go, keycode, size, mods) := process_autocorrect_default_handler keycode record (typo_buffer_size a) mods in
    if negb go then Some (true, (k, set_size size a))
    else
      match letter_of keycode mods size with
      | inr size => Some (true, (k, set_size size a))
      | inl (key, size) =>
          let a := append_key key (set_size size a) in
          if typo_buffer_size a <? AUTOCORRECT_MIN_LENGTH then Some (true, (k, a))
          else
            code ← pgm_read autocorrect_data 0;
            found ← search autocorrect_data (rev (slice (typo_buffer a) 0 (typo_buffer_size a))) 0 code;
            match found with
            | None => Some (true, (k, a))
            | Some state => correct_typo key state (k, a)
            end
      end.

Definition autocorrect_start : autocorrect_st :=
  mk_ac (updZ (memset 0 AUTOCORRECT_MAX_LENGTH) 0 KC_SPACE) 1.
End autocorrect.

(** ** The table of the source *)

Definition default_data : list Z :=
  [108; 43; 0; 6; 71; 0; 7; 81; 0; 8; 199; 0; 9; 240; 1; 10; 250; 1; 11; 26; 2; 17; 53; 2; 18; 190; 2; 19;
   202; 2; 21; 212; 2; 22; 20; 3; 23; 67; 3; 28; 16; 4; 0; 72; 50; 0; 22; 60; 0; 0; 11; 23; 44; 8; 11; 23; 44;
   0; 132; 0; 8; 22; 18; 18; 15; 0; 132; 115; 101; 115; 0; 11; 23; 12; 26; 22; 0; 129; 99; 104; 0; 68; 94; 0;
   8; 106; 0; 15; 174; 0; 21; 187; 0; 0; 12; 15; 25; 17; 12; 0; 131; 97; 108; 105; 100; 0; 74; 119; 0; 12;
   129; 0; 21; 140; 0; 24; 165; 0; 0; 17; 12; 22; 0; 131; 103; 110; 101; 100; 0; 25; 21; 8; 7; 0; 131; 105;
   118; 101; 100; 0; 72; 147; 0; 24; 156; 0; 0; 9; 8; 21; 0; 129; 114; 101; 100; 0; 6; 6; 18; 0; 129; 114;
   101; 100; 0; 15; 6; 17; 12; 0; 129; 100; 101; 0; 18; 22; 8; 21; 11; 23; 0; 130; 104; 111; 108; 100; 0; 4;
   26; 18; 9; 0; 131; 114; 119; 97; 114; 100; 0; 68; 233; 0; 6; 246; 0; 7; 4; 1; 8; 16; 1; 10; 52; 1; 15; 81;
   1; 21; 90; 1; 22; 117; 1; 23; 144; 1; 24; 215; 1; 25; 228; 1; 0; 6; 19; 22; 8; 16; 4; 17; 0; 130; 97; 99;
   101; 0; 19; 4; 22; 8; 16; 4; 17; 0; 131; 112; 97; 99; 101; 0; 12; 21; 8; 25; 18; 0; 130; 114; 105; 100;
   101; 0; 23; 0; 68; 25; 1; 17; 36; 1; 0; 21; 4; 24; 10; 0; 130; 110; 116; 101; 101; 0; 4; 21; 24; 4; 10; 0;
   135; 117; 97; 114; 97; 110; 116; 101; 101; 0; 68; 59; 1; 7; 69; 1; 0; 24; 10; 44; 0; 131; 97; 117; 103;
   101; 0; 8; 15; 12; 25; 12; 21; 19; 0; 130; 103; 101; 0; 22; 4; 9; 0; 130; 108; 115; 101; 0; 76; 97; 1; 24;
   109; 1; 0; 24; 20; 4; 0; 132; 99; 113; 117; 105; 114; 101; 0; 23; 44; 0; 130; 114; 117; 101; 0; 4; 0; 79;
   126; 1; 24; 134; 1; 0; 9; 0; 131; 97; 108; 115; 101; 0; 6; 8; 5; 0; 131; 97; 117; 115; 101; 0; 4; 0; 71;
   156; 1; 19; 193; 1; 21; 203; 1; 0; 18; 16; 0; 80; 166; 1; 18; 181; 1; 0; 18; 6; 4; 0; 135; 99; 111; 109;
   109; 111; 100; 97; 116; 101; 0; 6; 6; 4; 0; 132; 109; 111; 100; 97; 116; 101; 0; 7; 24; 0; 132; 112; 100;
   97; 116; 101; 0; 8; 19; 8; 22; 0; 132; 97; 114; 97; 116; 101; 0; 10; 8; 15; 15; 18; 6; 0; 130; 97; 103;
   117; 101; 0; 8; 12; 6; 8; 21; 0; 131; 101; 105; 118; 101; 0; 12; 8; 11; 6; 0; 130; 105; 101; 102; 0; 17; 0;
   76; 3; 2; 21; 16; 2; 0; 15; 8; 12; 6; 0; 133; 101; 105; 108; 105; 110; 103; 0; 12; 23; 22; 0; 131; 114;
   105; 110; 103; 0; 70; 33; 2; 23; 44; 2; 0; 12; 23; 26; 22; 0; 131; 105; 116; 99; 104; 0; 10; 12; 8; 11; 0;
   129; 104; 116; 0; 72; 69; 2; 10; 80; 2; 18; 89; 2; 21; 156; 2; 24; 167; 2; 0; 22; 18; 18; 11; 6; 0; 131;
   115; 101; 110; 0; 12; 21; 23; 22; 0; 129; 110; 103; 0; 12; 0; 86; 98; 2; 23; 124; 2; 0; 68; 105; 2; 22;
   114; 2; 0; 12; 15; 0; 131; 105; 115; 111; 110; 0; 4; 6; 6; 18; 0; 131; 105; 111; 110; 0; 76; 131; 2; 22;
   146; 2; 0; 23; 12; 19; 8; 21; 0; 134; 101; 116; 105; 116; 105; 111; 110; 0; 18; 19; 0; 131; 105; 116; 105;
   111; 110; 0; 23; 24; 8; 21; 0; 131; 116; 117; 114; 110; 0; 85; 174; 2; 23; 183; 2; 0; 23; 8; 21; 0; 130;
   117; 114; 110; 0; 8; 21; 0; 128; 114; 110; 0; 7; 8; 24; 22; 19; 0; 131; 101; 117; 100; 111; 0; 24; 18; 18;
   15; 0; 129; 107; 117; 112; 0; 72; 219; 2; 18; 3; 3; 0; 76; 229; 2; 15; 238; 2; 17; 248; 2; 0; 11; 23; 44;
   0; 130; 101; 105; 114; 0; 23; 12; 9; 0; 131; 108; 116; 101; 114; 0; 23; 22; 12; 15; 0; 130; 101; 110; 101;
   114; 0; 23; 4; 21; 8; 23; 17; 12; 0; 135; 116; 101; 114; 97; 116; 111; 114; 0; 72; 30; 3; 17; 38; 3; 24;
   51; 3; 0; 15; 4; 9; 0; 129; 115; 101; 0; 4; 12; 23; 17; 18; 6; 0; 131; 97; 105; 110; 115; 0; 22; 17; 8; 6;
   17; 18; 6; 0; 133; 115; 101; 110; 115; 117; 115; 0; 74; 86; 3; 11; 96; 3; 15; 118; 3; 17; 129; 3; 22; 218;
   3; 24; 232; 3; 0; 11; 24; 4; 6; 0; 130; 103; 104; 116; 0; 71; 103; 3; 10; 110; 3; 0; 12; 26; 0; 129; 116;
   104; 0; 17; 8; 15; 0; 129; 116; 104; 0; 22; 24; 8; 21; 0; 131; 115; 117; 108; 116; 0; 68; 139; 3; 8; 150;
   3; 22; 210; 3; 0; 21; 4; 19; 19; 4; 0; 130; 101; 110; 116; 0; 85; 157; 3; 25; 200; 3; 0; 68; 164; 3; 21;
   175; 3; 0; 19; 4; 0; 132; 112; 97; 114; 101; 110; 116; 0; 4; 19; 0; 68; 185; 3; 19; 193; 3; 0; 133; 112;
   97; 114; 101; 110; 116; 0; 4; 0; 131; 101; 110; 116; 0; 8; 15; 8; 21; 0; 130; 97; 110; 116; 0; 18; 6; 0;
   130; 110; 115; 116; 0; 12; 9; 8; 17; 4; 16; 0; 132; 105; 102; 101; 115; 116; 0; 83; 239; 3; 23; 6; 4; 0;
   87; 246; 3; 24; 254; 3; 0; 17; 12; 0; 131; 112; 117; 116; 0; 18; 0; 130; 116; 112; 117; 116; 0; 19; 24; 18;
   0; 131; 116; 112; 117; 116; 0; 70; 29; 4; 8; 41; 4; 11; 51; 4; 21; 69; 4; 0; 8; 24; 20; 8; 21; 9; 0; 129;
   110; 99; 121; 0; 23; 9; 4; 22; 0; 130; 101; 116; 121; 0; 6; 21; 4; 21; 12; 8; 11; 0; 135; 105; 101; 114;
   97; 114; 99; 104; 121; 0; 4; 5; 12; 15; 0; 130; 114; 97; 114; 121; 0].
Definition default_autocorrect : AutocorrectConfig := {|
  autocorrect_data := default_data;
  AUTOCORRECT_MIN_LENGTH := 5;
  AUTOCORRECT_MAX_LENGTH := 10;
  SEND_STRING_P_DELAY := 0;
|}.
