(* ===== verification/Action.v ===== *)
(** From a key record to its effect: [quantum/action.c]. The tapping code
    ([ActionTapping]) gives its records to [process_record]; the key processors
    of [process_record_quantum] are an interface. The build is that of
    [ActionUtil], with one-shot keys, layers, tapping and retro tapping per key.
    Setting the lock LEDs after a layer change is left out. *)

From S2P Require Import Prelude.
From S2P Require Import Eeprom.
From S2P Require Import DynamicKeymap.
From S2P Require Import QmkSettings.
From S2P Require Import Vial.
From S2P Require Import KeycodeConfig.
From S2P Require Import KeymapCommon.
From S2P Require Import ActionLayer.
From S2P Require Import Report.
From S2P Require Import MouseKey.
From S2P Require Import Keyboard.
From S2P Require Import ActionTapping.
From S2P Require Import ActionUtil.

Definition MODS_TAP_TOGGLE : Z := 1.

(** More bit-fields of [action_t]. *)
Definition usage_page (code : Z) : Z := (code >> 10) .& 0x3.
Definition usage_code (code : Z) : Z := code .& 0x3FF.
Definition bitop_xbit (code : Z) : Z := (code >> 4) .& 1.
Definition layer_mods_mods (code : Z) : Z := code .& 0xFF.

Inductive reset_kind := ToBootloader | Reboot.
#[export] Instance reset_kind_eq_dec : EqDecision reset_kind.
Proof. solve_decision. Defined.

(** The statics of the file and [g_vial_magic_keycode_override], with the rest
    of the firmware: [feature_state] is the state of the key processors,
    [resets] the calls of [bootloader_jump] and [mcu_reset], which do not
    return, the latest first. *)
Record act (E F : Type) := mk_act {
  a_kb : kb E;
  disable_action_cache : bool;
  magic_override : Z;
  retro_tap_primed : bool;
  retro_tap_curr_key : Z;
  retro_tap_curr_mods : Z;
  retro_tap_next_mods : Z;
  feature_state : F;
  resets : list reset_kind;
}.
Arguments mk_act {E F} _ _ _ _ _ _ _ _ _.
Arguments a_kb {E F} _.
Arguments disable_action_cache {E F} _.
Arguments magic_override {E F} _.
Arguments retro_tap_primed {E F} _.
Arguments retro_tap_curr_key {E F} _.
Arguments retro_tap_curr_mods {E F} _.
Arguments retro_tap_next_mods {E F} _.
Arguments feature_state {E F} _.
Arguments resets {E F} _.

(** The features that look at a record before the tapping code (false when they
    claim it), before its action is performed, and after. *)
Class KeyProcessors (W : Type) := {
  pre_process_record_quantum : keyrecord_t -> W -> bool * W;
  process_record_quantum : keyrecord_t -> W -> bool * W;
  post_process_record_quantum : keyrecord_t -> W -> W;
}.

#[export] Instance act_state {E F : Type} : FirmwareState (act E F) E := {
  fw_vial s := kb_vial (a_kb s);
  fw_layers s := kb_layers (a_kb s);
  fw_magic_keycode_override s := magic_override s;
  fw_disable_action_cache s := disable_action_cache s;
}.

(** ** Actions on the keyboard *)

Section actions.
Context {E : Type} {eeprom : Eeprom E} {cfg : KeymapConfig} {qcfg : QmkSettingsConfig} {mcfg : MouseKeyConfig}.
Implicit Types (k : kb E) (action : Z) (pressed : bool).

Definition QS_oneshot_tap_toggle k : Z := QS8 (settings (kb_vial k)) QS_osk_tap_toggle.
Definition QS_tapping_toggle_of k : Z := QS8 (settings (kb_vial k)) QS_tapping_toggle.
Definition with_layers (f : layer_st -> layer_st) k : kb E := set_layers (f (kb_layers k)) k.

(** The modifiers of an action, on the side its kind says. *)
Definition action_mods (left_kind action : Z) : Z :=
  if action_kind action =? left_kind then action_key_mods action else u8 (action_key_mods action << 4).

(** [ACT_LMODS] and [ACT_RMODS]. *)
Definition mods_key (mods code : Z) pressed k : kb E :=
  let plain := IS_MODIFIER_KEYCODE code || (code =? KC_NO) in
  if pressed then
    let k := if truthy mods
             then send_keyboard_report (with_mods (if plain then add_mods mods else add_weak_mods mods) k) else k in
    register_code code k
  else
    let k := unregister_code code k in
    if truthy mods
    then send_keyboard_report (with_mods (if plain then del_mods mods else del_weak_mods mods) k) else k.

(** One-shot modifiers, when they are enabled. *)
Definition oneshot_mods_key (mods tap_count : Z) pressed k : kb E :=
  let toggle := QS_oneshot_tap_toggle k in
  let lift k := with_mods (del_oneshot_locked_mods mods) (with_mods (del_oneshot_mods mods (now k)) (unregister_mods mods k)) in
  if pressed then
    if tap_count =? 0 then register_mods mods k
    else if tap_count =? 1 then with_mods (add_oneshot_mods mods (now k)) k
    else if (1 <? toggle) && (tap_count =? toggle) then
      let k := register_mods mods k in
      with_mods (add_oneshot_locked_mods mods) (with_mods (del_oneshot_mods mods (now k)) k)
    else k
  else if tap_count =? 0 then lift k
  else if (1 <? toggle) && (tap_count =? 1) && truthy (mods .& real_mods (kb_mods k)) then lift k
  else k.

(** The wait between a tap and its release. *)
Definition tap_wait (code : Z) k : kb E :=
  wait_ms (QS16 (settings (kb_vial k)) (if code =? KC_CAPS_LOCK then QS_tap_hold_caps_delay else QS_tap_code_delay)) k.

(** [ACT_LMODS_TAP] and [ACT_RMODS_TAP]. *)
Definition mods_tap_key (mods code tap_count : Z) pressed k : kb E :=
  if code =? MODS_ONESHOT then
    if negb (oneshot_enable (keymap_word k)) then mods_key mods code pressed k
    else oneshot_mods_key mods tap_count pressed k
  else if code =? MODS_TAP_TOGGLE then
    if pressed then if tap_count <=? QS_tapping_toggle_of k then register_mods mods k else k
    else if tap_count <? QS_tapping_toggle_of k then unregister_mods mods k else k
  else if pressed then
    if 0 <? tap_count then register_code code k else register_mods mods k
  else if 0 <? tap_count then unregister_code code (tap_wait code k) else unregister_mods mods k.

(** [ACT_USAGE]. *)
Definition usage_key action pressed k : kb E :=
  let code := if pressed then usage_code action else 0 in
  if usage_page action =? PAGE_SYSTEM then host_send (HostSystem code) k
  else if usage_page action =? PAGE_CONSUMER then host_send (HostConsumer code) k
  else k.

(** [ACT_LAYER]. *)
Definition bitop_key action pressed k : kb E :=
  let shift := bitop_part action * 4 in
  let bits := layer_state_t (bitop_bits action << shift) in
  let mask := if truthy (bitop_xbit action) then layer_state_t (Z.lnot (0xF << shift)) else 0 in
  let op := bitop_op action in
  if bitop_on action =? 0 then
    if negb pressed then
      with_layers (if op =? OP_BIT_AND then default_layer_and (bits .| mask)
                   else if op =? OP_BIT_OR then default_layer_or (bits .| mask)
                   else if op =? OP_BIT_XOR then default_layer_xor (bits .| mask)
                   else default_layer_set (bits .| mask)) k
    else k
  else if truthy (bitop_on action .& (if pressed then ON_PRESS else ON_RELEASE)) then
    with_layers (if op =? OP_BIT_AND then layer_and (bits .| mask)
                 else if op =? OP_BIT_OR then layer_or (bits .| mask)
                 else if op =? OP_BIT_XOR then layer_xor (bits .| mask)
                 else layer_state_set (bits .| mask)) k
  else k.

(** [ACT_LAYER_MODS]. *)
Definition layer_mods_key action pressed k : kb E :=
  let layer := layer_mods_layer action in
  if pressed then register_mods (layer_mods_mods action) (with_layers (layer_on layer) k)
  else with_layers (layer_off layer) (unregister_mods (layer_mods_mods action) k).

(** A one-shot layer key. *)
Definition oneshot_layer_key (layer tap_count : Z) pressed k : kb E :=
  let toggle := QS_oneshot_tap_toggle k in
  if negb (oneshot_enable (keymap_word k)) then with_layers (if pressed then layer_on layer else layer_off layer) k
  else if 1 <? toggle then
    if pressed then
      if get_oneshot_layer_state k =? ONESHOT_TOGGLED then with_layers (layer_off layer) (reset_oneshot_layer k)
      else if tap_count <? toggle then set_oneshot_layer layer ONESHOT_START k
      else k
    else if toggle <=? tap_count then set_oneshot_layer layer ONESHOT_TOGGLED (reset_oneshot_layer k)
    else clear_oneshot_layer_state ONESHOT_PRESSED k
  else if pressed then set_oneshot_layer layer ONESHOT_START k
  else
    let k := clear_oneshot_layer_state ONESHOT_PRESSED k in
    if 1 <? tap_count then clear_oneshot_layer_state ONESHOT_OTHER_KEY_PRESSED k else k.

(** [ACT_LAYER_TAP] and [ACT_LAYER_TAP_EXT]. *)
Definition layer_tap_key (layer code tap_count : Z) pressed k : kb E :=
  if code =? OP_TAP_TOGGLE then
    if pressed then if tap_count <? QS_tapping_toggle_of k then with_layers (layer_invert layer) k else k
    else if tap_count <=? QS_tapping_toggle_of k then with_layers (layer_invert layer) k else k
  else if code =? OP_ON_OFF then with_layers (if pressed then layer_on layer else layer_off layer) k
  else if code =? OP_OFF_ON then with_layers (if pressed then layer_off layer else layer_on layer) k
  else if code =? OP_SET_CLEAR then with_layers (if pressed then layer_move layer else layer_clear) k
  else if code =? OP_ONESHOT then oneshot_layer_key layer tap_count pressed k
  else if pressed then
    if 0 <? tap_count then register_code code k else with_layers (layer_on layer) k
  else if 0 <? tap_count then unregister_code code (tap_wait code k) else with_layers (layer_off layer) k.

(** The [switch] of [process_action]. *)
Definition perform action (tap_count : Z) pressed k : kb E :=
  let kind := action_kind action in
  if (kind =? ACT_LMODS) || (kind =? ACT_RMODS) then
    mods_key (action_mods ACT_LMODS action) (key_code action) pressed k
  else if (kind =? ACT_LMODS_TAP) || (kind =? ACT_RMODS_TAP) then
    mods_tap_key (action_mods ACT_LMODS_TAP action) (key_code action) tap_count pressed k
  else if kind =? ACT_USAGE then usage_key action pressed k
  else if kind =? ACT_MOUSEKEY then kb_register_mouse (key_code action) pressed k
  else if kind =? ACT_LAYER then bitop_key action pressed k
  else if kind =? ACT_LAYER_MODS then layer_mods_key action pressed k
  else if (kind =? ACT_LAYER_TAP) || (kind =? ACT_LAYER_TAP_EXT) then
    layer_tap_key (layer_tap_val action) (key_code action) tap_count pressed k
  else k.

(** The press of a key that is not a modifier ends a one-shot layer. *)
Definition ends_oneshot_layer action (tap_count : Z) pressed k : bool :=
  let kind := action_kind action in
  (is_oneshot_layer_active k && pressed)
  && ((kind =? ACT_USAGE)
      || negb (IS_MODIFIER_KEYCODE (key_code action)
               || (((kind =? ACT_LMODS_TAP) || (kind =? ACT_RMODS_TAP))
                   && ((key_code action <=? MODS_TAP_TOGGLE) || (tap_count =? 0)))))
  && oneshot_enable (keymap_word k).

Definition is_layer_action action : bool :=
  let kind := action_kind action in
  (kind =? ACT_LAYER) || (kind =? ACT_LAYER_MODS) || (kind =? ACT_LAYER_TAP) || (kind =? ACT_LAYER_TAP_EXT).
End actions.

(** ** Records *)

Section records.
Context {E F : Type} {eeprom : Eeprom E} {cfg : KeymapConfig} {qcfg : QmkSettingsConfig} {mcfg : MouseKeyConfig}
        {processors : KeyProcessors (act E F)}.
Implicit Types (s : act E F) (record : keyrecord_t) (action : Z).

Definition on_kb (f : kb E -> kb E) s : act E F :=
  mk_act (f (a_kb s)) (disable_action_cache s) (magic_override s) (retro_tap_primed s) (retro_tap_curr_key s)
    (retro_tap_curr_mods s) (retro_tap_next_mods s) (feature_state s) (resets s).
Definition set_retro (primed : bool) (key curr next : Z) s : act E F :=
  mk_act (a_kb s) (disable_action_cache s) (magic_override s) primed key curr next (feature_state s) (resets s).
Definition set_primed (b : bool) s : act E F :=
  set_retro b (retro_tap_curr_key s) (retro_tap_curr_mods s) (retro_tap_next_mods s) s.
Definition set_curr_key (keycode : Z) s : act E F :=
  set_retro (retro_tap_primed s) keycode (retro_tap_curr_mods s) (retro_tap_next_mods s) s.
Definition set_retro_mods (curr next : Z) s : act E F :=
  set_retro (retro_tap_primed s) (retro_tap_curr_key s) curr next s.
Definition set_cache (b : bool) s : act E F :=
  mk_act (a_kb s) b (magic_override s) (retro_tap_primed s) (retro_tap_curr_key s)
    (retro_tap_curr_mods s) (retro_tap_next_mods s) (feature_state s) (resets s).

(** Retro tapping: a tap key held alone and released taps after all. *)
Definition retro_tap record action s : act E F :=
  if is_tap_action action then
    let event := rec_event record in
    let count := tap_count (rec_tap record) in
    let mods := real_mods (kb_mods (a_kb s)) in
    if ev_pressed event then
      if 0 <? count then set_primed false s else set_retro_mods (retro_tap_next_mods s) mods s
    else
      let event_keycode := (get_event_keycode event false s).1 in
      let s :=
        if 0 <? count then set_primed false s
        else if retro_tap_curr_key s =? event_keycode then
          let s :=
            if get_retro_tapping (settings (kb_vial (a_kb s))) && retro_tap_primed s then
              on_kb (fun k =>
                let k := wait_ms TAP_CODE_DELAY (register_mods (retro_tap_curr_mods s) k) in
                unregister_mods (retro_tap_curr_mods s) (wait_ms TAP_CODE_DELAY (tap_code (key_code action) k))) s
            else s in
          set_primed false s
        else s in
      set_retro_mods (retro_tap_curr_mods s) mods s
  else s.

(** [recurse] is [process_record]. The boolean is whether [record->event.pressed]
    is left alone. *)
Definition process_action (recurse : keyrecord_t -> act E F -> bool * act E F) record action s : bool * act E F :=
  let event := rec_event record in
  let count := tap_count (rec_tap record) in
  let ends := ends_oneshot_layer action count (ev_pressed event) (a_kb s) in
  let s := if ends then on_kb (clear_oneshot_layer_state ONESHOT_OTHER_KEY_PRESSED) s else s in
  let do_release_oneshot := ends && negb (is_oneshot_layer_active (a_kb s)) && negb (is_layer_action action) in
  let s := on_kb (perform action count (ev_pressed event)) s in
  let s := retro_tap record action s in
  if do_release_oneshot && negb (truthy (get_oneshot_layer_state (a_kb s) .& ONESHOT_PRESSED)) then
    let s := on_kb (fun k => with_layers (layer_on (get_oneshot_layer k)) k) s in
    let s := (recurse (set_pressed false record) s).2 in
    (false, on_kb (fun k => with_layers (layer_off (get_oneshot_layer k)) k) s)
  else (true, s).

Definition record_action record s : Z * act E F :=
  let env := fw_keymap_env s in
  if truthy (rec_keycode record)
  then (action_for_keycode (KeymapCommon.keymap_config env) (rec_keycode record), s)
  else
    let '(action, layers) := store_or_get_action (fw_action_for_key s) (disable_action_cache s)
      (ev_pressed (rec_event record)) (ev_key (rec_event record)) (kb_layers (a_kb s)) in
    (action, on_kb (set_layers layers) s).

Definition process_record_handler (recurse : keyrecord_t -> act E F -> bool * act E F) record s : bool * act E F :=
  let '(action, s) := record_action record s in process_action recurse record action s.

(** [recurse] is the call of [process_record] inside it. *)
Definition process_record_body (recurse : keyrecord_t -> act E F -> bool * act E F) record s : bool * act E F :=
  if IS_NOEVENT (rec_event record) then (true, s)
  else
    let '(go, s) := process_record_quantum record s in
    if negb go then
      let k := a_kb s in
      (true, if is_oneshot_layer_active k && ev_pressed (rec_event record) && oneshot_enable (keymap_word k)
             then on_kb (clear_oneshot_layer_state ONESHOT_OTHER_KEY_PRESSED) s else s)
    else
      let '(kept, s) := process_record_handler recurse record s in
      (kept, post_process_record_quantum (if kept : bool then record else set_pressed false record) s).

(** [process_record], [fuel] deep: releasing a one-shot layer processes the
    record once more, as a release, which does not do so again. *)
Fixpoint process_record_n (fuel : nat) record s : bool * act E F :=
  match fuel with
  | O => (true, s)
  | S fuel => process_record_body (process_record_n fuel) record s
  end.
Definition act_process_record record s : bool * act E F := process_record_n 2 record s.

Definition process_record_nocache record s : bool * act E F :=
  let '(kept, s) := act_process_record record (set_cache true s) in (kept, set_cache false s).

(** What the tapping code needs of the rest. *)
#[export] Instance act_firmware : Firmware (act E F) E := {
  fw_state := act_state;
  process_record := act_process_record;
  fw_clear_keyboard := on_kb clear_keyboard;
}.

(** ** Events *)

Definition with_world (f : act E F -> act E F) (s : tapping (act E F)) : tapping (act E F) := set_world (f (world s)) s.

(** The events of retro tapping. *)
Definition retro_event event s : act E F :=
  if IS_EVENT event then
    let event_keycode := (get_event_keycode event false s).1 in
    if ev_pressed event then set_curr_key event_keycode (set_primed false s)
    else if retro_tap_curr_key s =? event_keycode then set_primed true s else s
  else s.

Definition oneshot_timeouts (k : kb E) : kb E :=
  if oneshot_enable (keymap_word k) && (0 <? QS_oneshot_timeout k) then
    let k := if has_oneshot_layer_timed_out k then clear_oneshot_layer_state ONESHOT_OTHER_KEY_PRESSED k else k in
    if has_oneshot_mods_timed_out k then with_mods clear_oneshot_mods k else k
  else k.

Definition action_exec (event : keyevent_t) (s : tapping (act E F)) : tapping (act E F) :=
  let s := with_world (retro_event event) s in
  let s := if ev_pressed event then with_world (on_kb (with_mods clear_weak_mods)) s else s in
  let record := event_record event in
  let s := with_world (on_kb oneshot_timeouts) s in
  if IS_NOEVENT event then action_tapping_process record s
  else
    let '(go, w) := pre_process_record_quantum record (world s) in
    let s := set_world w s in
    if go : bool then action_tapping_process record s else s.
End records.
