(* ===== verification/Quantum.v ===== *)
(** The dispatch of a key record to the features of the firmware:
    [pre_process_record_quantum], [process_record_quantum] and
    [post_process_record_quantum] of [quantum/quantum.c]. Which features there
    are is a class, in the order in which the build lists them. The build has
    no debug output, no secure mode and no lighting, and does not count words
    per minute. *)

From S2P Require Import Prelude.
From S2P Require Import Eeprom.
From S2P Require Import DynamicKeymap.
From S2P Require Import Eeconfig.
From S2P Require Import QmkSettings.
From S2P Require Import Vial.
From S2P Require Import KeycodeConfig.
From S2P Require Import KeymapCommon.
From S2P Require Import ActionLayer.
From S2P Require Import MouseKey.
From S2P Require Import Keyboard.
From S2P Require Import ActionUtil.
From S2P Require Import Action.

Definition QK_BOOTLOADER : Z := 0x7C00.
Definition QK_REBOOT : Z := 0x7C01.
Definition QK_CLEAR_EEPROM : Z := 0x7C03.
Definition QK_ONE_SHOT_ON : Z := 0x7C5A.
Definition QK_ONE_SHOT_OFF : Z := 0x7C5B.
Definition QK_ONE_SHOT_TOGGLE : Z := 0x7C5C.

(** A feature is given the keycode of the record; false claims the record. *)
Definition feature (W : Type) : Type := Z -> keyrecord_t -> W -> bool * W.

Class Features (W : Type) := {
  (** [pre_process_record_modules], [pre_process_record_kb]; combos are in [ComboExec]. *)
  pre_features : list (feature W);
  (** True when the keycode has to be looked up again. *)
  preprocess_tap_dance : feature W;
  (** May change the keycode for the features after it. *)
  process_key_lock : Z -> keyrecord_t -> W -> bool * Z * W;
  features : list (feature W);
  process_action_kb : keyrecord_t -> W -> bool * W;
  post_features : list (Z -> keyrecord_t -> W -> W);
}.

Section quantum.
Context {E F : Type} {eeprom : Eeprom E} {cfg : KeymapConfig} {qcfg : QmkSettingsConfig} {mcfg : MouseKeyConfig}
        {all : Features (act E F)}.
Implicit Types (s : act E F) (record : keyrecord_t) (keycode : Z).

(** [get_record_keycode], with the cache it updates. *)
Definition record_keycode record (update_layer_cache : bool) s : Z * act E F :=
  let '(keycode, layers) := get_record_keycode record update_layer_cache s in
  (keycode, on_kb (set_layers layers) s).

(** [f1 && f2 && ...], each looking the keycode up. *)
Fixpoint pre_process (fs : list (feature (act E F))) record s : bool * act E F :=
  match fs with
  | [] => (true, s)
  | f :: fs =>
      let '(keycode, s) := record_keycode record true s in
      let '(go, s) := f keycode record s in
      if go : bool then pre_process fs record s else (false, s)
  end.
Definition quantum_pre_process record s : bool * act E F := pre_process pre_features record s.

Fixpoint process_features (fs : list (feature (act E F))) keycode record s : bool * act E F :=
  match fs with
  | [] => (true, s)
  | f :: fs =>
      let '(go, s) := f keycode record s in
      if go : bool then process_features fs keycode record s else (false, s)
  end.

(** [shutdown_quantum] and the jump. *)
Definition reset (kind : reset_kind) s : act E F :=
  let s := on_kb (fun k => wait_ms 250 (clear_keyboard k)) s in
  mk_act (a_kb s) (disable_action_cache s) (magic_override s) (retro_tap_primed s) (retro_tap_curr_key s)
    (retro_tap_curr_mods s) (retro_tap_next_mods s) (feature_state s) (kind :: resets s).
Definition reset_keyboard s : act E F := reset ToBootloader s.
Definition soft_reset_keyboard s : act E F := reset Reboot s.

Definition with_store (f : E -> E) s : act E F :=
  on_kb (fun k => let v := kb_vial k in
    set_vial (Vial.set_settings (set_qs_eeprom (f (qs_eeprom (settings v))) (settings v)) v) k) s.

(** The keycodes of the firmware itself. *)
Definition quantum_keycode keycode s : bool * act E F :=
  if keycode =? QK_BOOTLOADER then (false, reset_keyboard s)
  else if keycode =? QK_REBOOT then (false, soft_reset_keyboard s)
  else if keycode =? QK_CLEAR_EEPROM then (false, soft_reset_keyboard (with_store eeconfig_disable s))
  else if keycode =? QK_ONE_SHOT_TOGGLE then (true, on_kb oneshot_toggle s)
  else if keycode =? QK_ONE_SHOT_ON then (true, on_kb (oneshot_set true) s)
  else if keycode =? QK_ONE_SHOT_OFF then (true, on_kb (oneshot_set false) s)
  else (true, s).

Definition process_record_quantum_helper keycode record s : bool * act E F :=
  let '(again, s) := preprocess_tap_dance keycode record s in
  let '(keycode, s) := if again : bool then record_keycode record true s else (keycode, s) in
  let '(go, keycode, s) := process_key_lock keycode record s in
  if negb go then (false, s)
  else
    let '(go, s) := process_features features keycode record s in
    if negb go then (false, s)
    else
      let '(go, s) := if ev_pressed (rec_event record) then quantum_keycode keycode s else (true, s) in
      if negb go then (false, s) else process_action_kb record s.

Definition quantum_process record s : bool * act E F :=
  let '(keycode, s) := record_keycode record true s in process_record_quantum_helper keycode record s.

Definition quantum_post_process record s : act E F :=
  let '(keycode, s) := record_keycode record false s in
  foldl (fun s f => f keycode record s) s post_features.

#[export] Instance quantum_processors : KeyProcessors (act E F) := {
  pre_process_record_quantum := quantum_pre_process;
  process_record_quantum := quantum_process;
  post_process_record_quantum := quantum_post_process;
}.
End quantum.
