(* ===== verification/ActionProofs.v ===== *)
(** How a record reaches its action: the press of a key finds the action of its
    layer and stores the layer, and its release finds the same action, while the
    features of the build look at both and leave them alone. *)

From S2P Require Import Prelude.
From S2P Require Import Eeprom.
From S2P Require Import DynamicKeymap.
From S2P Require Import KeymapBuffer.
From S2P Require Import QmkSettings.
From S2P Require Import Vial.
From S2P Require Import ViaReset.
From S2P Require Import KeycodeConfig.
From S2P Require Import KeymapCommon.
From S2P Require Import ActionLayer.
From S2P Require Import Report.
From S2P Require Import MouseKey.
From S2P Require Import Keyboard.
From S2P Require Import ActionTapping.
From S2P Require Import TappingProofs.
From S2P Require Import TappingTheorems.
From S2P Require Import ActionUtil.
From S2P Require Import HostReports.
From S2P Require Import VialDance.
From S2P Require Import Via.
From S2P Require Import TapDance.
From S2P Require Import KeyProcessors.
From S2P Require Import SendText.
From S2P Require Import Action.
From S2P Require Import Quantum.

(** ** The recursion *)

Section recursion.
Context {E F : Type} {eeprom : Eeprom E} {cfg : KeymapConfig} {qcfg : QmkSettingsConfig} {mcfg : MouseKeyConfig}
        {processors : KeyProcessors (act E F)}.
Implicit Types (s : act E F) (record : keyrecord_t) (action : Z).

(** A body that calls the same function calls the same body; a release calls
    none. *)
Lemma body_recursion f g record s :
  (ev_pressed (rec_event record) = true -> forall s, f (set_pressed false record) s = g (set_pressed false record) s) ->
  process_record_body f record s = process_record_body g record s.
Proof.
  intros H. unfold process_record_body. case_if; [done|].
  destruct (process_record_quantum record s) as [[] s1]; [|done]. cbn [negb]. unfold process_record_handler.
  destruct (record_action record s1) as [action s2].
  replace (process_action f record action s2) with (process_action g record action s2); [done|].
  unfold process_action, ends_oneshot_layer. destruct (ev_pressed (rec_event record)); [by setoid_rewrite H|].
  by rewrite andb_false_r.
Qed.

(** The fuel of [act_process_record] is enough for the call of [process_record]
    in its own body, which is for a release and does not call again. Features
    that process further records are not counted: they are functions here. *)
Lemma two_deep n record s : process_record_n (2 + n) record s = act_process_record record s.
Proof. apply body_recursion. intros _ s'. by apply body_recursion. Qed.
End recursion.

(** ** A key finds its action *)

(** The states of the features in which none of them is at work. *)
Class Idle (F : Type) := idle : F -> Prop.

(** The statics of the features have changed. *)
Definition with_features {E F : Type} (x : F) (s : act E F) : act E F :=
  mk_act (a_kb s) (disable_action_cache s) (magic_override s) (retro_tap_primed s) (retro_tap_curr_key s)
    (retro_tap_curr_mods s) (retro_tap_next_mods s) x (resets s).

Section lookup.
Context {E F : Type} {eeprom : Eeprom E} {cfg : KeymapConfig} {cfg_ok : KeymapConfigOk}
        {qcfg : QmkSettingsConfig} {mcfg : MouseKeyConfig} {all : Features (act E F)} {calm : Idle F}.
Implicit Types (s : act E F) (record : keyrecord_t) (key : keypos_t) (x : F).

Definition layers_of s : layer_st := kb_layers (a_kb s).

(** [s'] is [s] but for the statics of the features, which are idle, and the
    cache, where [key] has [layer]. *)
Definition recached key (layer : Z) s s' : Prop :=
  exists l x, s' = with_features x (on_kb (set_layers l) s) /\ idle x
    /\ layer_state l = layer_state (layers_of s) /\ default_layer_state l = default_layer_state (layers_of s)
    /\ layers_wf l /\ read_source_layers_cache key l = layer.

Lemma on_kb_same s : on_kb (set_layers (layers_of s)) s = s.
Proof using. unfold layers_of. by destruct s as [[]]. Qed.

Lemma recached_features key layer x s : idle x -> layers_wf (layers_of s) ->
  read_source_layers_cache key (layers_of s) = layer -> recached key layer s (with_features x s).
Proof using. intros Hx H1 H2. exists (layers_of s), x. by rewrite on_kb_same. Qed.

Lemma recached_trans key layer s1 s2 s3 : recached key layer s1 s2 -> recached key layer s2 s3 ->
  recached key layer s1 s3.
Proof using.
  intros (l & x & -> & _ & H1 & H2 & _) (l' & x' & -> & Hx & H3 & H4 & H5). exists l', x'.
  split_and!; [done|exact Hx| | |apply H5..].
  - by rewrite H3, <- H1.
  - by rewrite H4, <- H2.
Qed.

(** The layer of a key is not stored in the cache. *)
Lemma recached_layer key layer key' s s' : recached key layer s s' -> fw_get_layer key' s' = fw_get_layer key' s.
Proof using.
  intros (l & x & -> & _ & H1 & H2 & _). unfold fw_get_layer, layer_switch_get_layer, layers_of in *.
  cbn [act_state fw_layers a_kb on_kb kb_layers set_layers with_features]. by rewrite H1, H2.
Qed.
Lemma recached_keycode key layer l' key' s s' : recached key layer s s' -> fw_keycode s' l' key' = fw_keycode s l' key'.
Proof using. by intros (l & x & -> & _). Qed.
Lemma recached_action key layer l' key' s s' : recached key layer s s' ->
  fw_action_for_key s' l' key' = fw_action_for_key s l' key'.
Proof using. by intros (l & x & -> & _). Qed.
Lemma recached_wf key layer s s' : recached key layer s s' ->
  layers_wf (layers_of s') /\ read_source_layers_cache key (layers_of s') = layer
  /\ disable_action_cache s' = disable_action_cache s /\ idle (feature_state s').
Proof using. by intros (l & x & -> & Hx & _ & _ & H1 & H2). Qed.

Lemma update_cached key s : layers_wf (layers_of s) -> key_ok key ->
  let l := update_source_layers_cache key (fw_get_layer key s) (layers_of s) in
  layer_state l = layer_state (layers_of s) /\ default_layer_state l = default_layer_state (layers_of s)
  /\ layers_wf l /\ read_source_layers_cache key l = fw_get_layer key s.
Proof using cfg_ok.
  intros Hw Hk l. destruct (key_entry key Hk) as (en & Hen & Hok).
  destruct (store_stored key (fw_get_layer key s) (layers_of s) en en Hw Hk Hen
              (layer_fits _ _ key) Hok Hok) as [H1 H2]. rewrite decide_True in H2 by done.
  split_and!; [| |exact H1|by rewrite (read_stored key l en Hk Hen)];
    unfold l, update_source_layers_cache; by repeat case_if.
Qed.

Lemma recached_update key s : layers_wf (layers_of s) -> key_ok key -> idle (feature_state s) ->
  recached key (fw_get_layer key s) s
    (on_kb (set_layers (update_source_layers_cache key (fw_get_layer key s) (layers_of s))) s).
Proof using cfg_ok.
  intros Hw Hk Hi. eexists _, (feature_state s). split; [|split; [exact Hi|by apply update_cached]]. by destruct s.
Qed.

(** A record of a key of the matrix, as the tapping code makes them. *)
Definition key_record key (pressed : bool) record : Prop :=
  ev_key (rec_event record) = key /\ ev_type (rec_event record) = KEY_EVENT
  /\ ev_pressed (rec_event record) = pressed /\ rec_keycode record = 0.

Lemma press_keycode key record s : key_ok key -> layers_wf (layers_of s) -> disable_action_cache s = false ->
  idle (feature_state s) -> key_record key true record ->
  exists s', record_keycode record true s = (fw_keycode s (fw_get_layer key s) key, s')
    /\ recached key (fw_get_layer key s) s s'.
Proof using cfg_ok.
  intros Hk Hw Hd Hi (Hkey & _ & Hp & Hc). unfold record_keycode, get_record_keycode, get_event_keycode.
  rewrite Hc, Hp, Hkey. cbn [truthy Z.eqb negb act_state fw_disable_action_cache]. rewrite Hd. cbn [negb andb].
  eexists. split; [reflexivity|]. by apply recached_update.
Qed.

(** What is read without a press. *)
Lemma cached_keycode key record pressed update layer s : key_record key pressed record ->
  pressed && update = false -> disable_action_cache s = false ->
  read_source_layers_cache key (layers_of s) = layer ->
  record_keycode record update s = (fw_keycode s layer key, s).
Proof using.
  intros (Hkey & _ & Hp & Hc) Hu Hd Hr. unfold record_keycode, get_record_keycode, get_event_keycode.
  rewrite Hc, Hp, Hkey. cbn [truthy Z.eqb negb act_state fw_disable_action_cache]. rewrite Hd, Hu. cbn [negb].
  change (fw_layers s) with (layers_of s). by rewrite Hr, on_kb_same.
Qed.

(** An idle feature passes the record on for that keycode. Of what there is it
    may change its own statics, and is idle after it. *)
Definition passes (keycode : Z) record (f : feature (act E F)) : Prop :=
  forall s, idle (feature_state s) -> exists x, f keycode record s = (true, with_features x s) /\ idle x.

(** No feature has a use for the keycode. *)
Record unclaimed (keycode : Z) record : Prop := {
  unclaimed_pre : Forall (passes keycode record) pre_features;
  unclaimed_dance s : idle (feature_state s) ->
    exists x, preprocess_tap_dance keycode record s = (false, with_features x s) /\ idle x;
  unclaimed_lock s : idle (feature_state s) ->
    exists x, process_key_lock keycode record s = (true, keycode, with_features x s) /\ idle x;
  unclaimed_features : Forall (passes keycode record) features;
  unclaimed_action s : idle (feature_state s) ->
    exists x, process_action_kb record s = (true, with_features x s) /\ idle x;
  unclaimed_post : Forall (fun f => forall s, idle (feature_state s) ->
    exists x, f keycode record s = with_features x s /\ idle x) post_features;
}.

Lemma features_same s : with_features (feature_state s) s = s.
Proof using. by destruct s. Qed.

Lemma pass_features fs keycode record s : Forall (passes keycode record) fs -> idle (feature_state s) ->
  exists x, process_features fs keycode record s = (true, with_features x s) /\ idle x.
Proof using.
  intros Hfs. revert s. induction Hfs as [|f fs Hf _ IH]; intros s Hi.
  - exists (feature_state s). by rewrite features_same.
  - cbn [process_features]. destruct (Hf s Hi) as (x & -> & Hx).
    destruct (IH (with_features x s) Hx) as (y & -> & Hy). by exists y.
Qed.

(** The first feature looks the keycode up and so fills the cache. *)
Lemma pre_press fs key record s : Forall (passes (fw_keycode s (fw_get_layer key s) key) record) fs ->
  key_ok key -> layers_wf (layers_of s) -> disable_action_cache s = false -> idle (feature_state s) ->
  key_record key true record ->
  fs <> [] -> exists s', pre_process fs record s = (true, s') /\ recached key (fw_get_layer key s) s s'.
Proof using cfg_ok.
  intros Hfs Hk Hw Hd Hi Hr. remember (fw_get_layer key s) as layer eqn:El.
  remember (fw_keycode s layer key) as keycode eqn:Ec. revert s Hw Hd Hi El Ec.
  induction Hfs as [|f fs Hf _ IH]; intros s Hw Hd Hi El Ec Hne; [done|].
  cbn [pre_process]. destruct (press_keycode key record s Hk Hw Hd Hi Hr) as (s1 & -> & H1).
  rewrite <- El in H1 |- *. rewrite <- Ec.
  destruct (recached_wf _ _ _ _ H1) as (W1 & C1 & D1 & I1). destruct (Hf s1 I1) as (x & -> & Hx).
  pose proof (recached_trans _ _ _ _ _ H1 (recached_features _ _ x _ Hx W1 C1)) as H2.
  destruct fs as [|g fs]; [by eexists|].
  destruct (IH (with_features x s1)) as (s2 & -> & H3);
    [exact W1|cbn; by rewrite D1|exact Hx|by rewrite (recached_layer _ _ _ _ _ H2)
    |by rewrite (recached_keycode _ _ _ _ _ _ H2)|done|].
  exists s2. split; [done|]. by apply (recached_trans _ _ _ _ _ H2).
Qed.

Lemma pre_release fs key record s :
  Forall (passes (fw_keycode s (read_source_layers_cache key (layers_of s)) key) record) fs ->
  disable_action_cache s = false -> idle (feature_state s) -> key_record key false record ->
  exists x, pre_process fs record s = (true, with_features x s) /\ idle x.
Proof using.
  intros Hfs Hd Hi Hr. remember (fw_keycode s (read_source_layers_cache key (layers_of s)) key) as keycode eqn:Ec.
  revert s Hd Hi Ec. induction Hfs as [|f fs Hf _ IH]; intros s Hd Hi Ec.
  - exists (feature_state s). by rewrite features_same.
  - cbn [pre_process]. rewrite (cached_keycode key record false true _ s Hr eq_refl Hd eq_refl), <- Ec.
    destruct (Hf s Hi) as (x & -> & Hx). destruct (IH (with_features x s) Hd Hx Ec) as (y & -> & Hy). by exists y.
Qed.

Lemma post_same key pressed record s :
  unclaimed (fw_keycode s (read_source_layers_cache key (layers_of s)) key) record -> key_record key pressed record ->
  disable_action_cache s = false -> idle (feature_state s) ->
  exists x, quantum_post_process record s = with_features x s /\ idle x.
Proof using.
  intros Hu Hr Hd Hi. unfold quantum_post_process.
  rewrite (cached_keycode key record pressed false _ s Hr (andb_false_r _) Hd eq_refl).
  pose proof (unclaimed_post _ _ Hu) as Hp.
  set (keycode := fw_keycode s (read_source_layers_cache key (layers_of s)) key) in *. clearbody keycode.
  revert s Hd Hi Hu. induction Hp as [|f fs Hf _ IH]; intros s Hd Hi Hu.
  - exists (feature_state s). by rewrite features_same.
  - cbn [foldl]. destruct (Hf s Hi) as (x & -> & Hx). destruct (IH (with_features x s) Hd Hx Hu) as (y & -> & Hy).
    by exists y.
Qed.

(** The keycode is none of the firmware's own. *)
Definition plain_keycode (keycode : Z) : Prop := keycode < QK_BOOTLOADER.

Lemma plain_quantum keycode s : plain_keycode keycode -> quantum_keycode keycode s = (true, s).
Proof using.
  unfold plain_keycode, quantum_keycode, QK_BOOTLOADER, QK_REBOOT, QK_CLEAR_EEPROM, QK_ONE_SHOT_TOGGLE, QK_ONE_SHOT_ON,
    QK_ONE_SHOT_OFF. intros H. repeat (rewrite (proj2 (Z.eqb_neq _ _)) by lia). done.
Qed.

Lemma unclaimed_helper keycode record s : unclaimed keycode record -> plain_keycode keycode -> idle (feature_state s) ->
  exists x, process_record_quantum_helper keycode record s = (true, with_features x s) /\ idle x.
Proof using.
  intros Hu Hk Hi. unfold process_record_quantum_helper.
  destruct (unclaimed_dance _ _ Hu s Hi) as (x1 & -> & H1).
  destruct (unclaimed_lock _ _ Hu (with_features x1 s) H1) as (x2 & -> & H2). cbn [negb].
  destruct (pass_features _ _ _ (with_features x2 s) (unclaimed_features _ _ Hu) H2) as (x3 & E3 & H3).
  change (with_features x2 (with_features x1 s)) with (with_features x2 s). rewrite E3. cbn [negb].
  change (with_features x3 (with_features x2 s)) with (with_features x3 s).
  destruct (unclaimed_action _ _ Hu (with_features x3 s) H3) as (x4 & E4 & H4). exists x4. split; [|done].
  case_if; [rewrite plain_quantum by done|]; cbn [negb]; by rewrite E4.
Qed.

(** ** The record of a key that no feature claims *)

Lemma press_action key record s : key_ok key -> layers_wf (layers_of s) -> disable_action_cache s = false ->
  idle (feature_state s) -> key_record key true record ->
  exists s', record_action record s = (fw_action_for_key s (fw_get_layer key s) key, s')
    /\ recached key (fw_get_layer key s) s s'.
Proof using cfg_ok.
  intros Hk Hw Hd Hi (Hkey & _ & Hp & Hc). unfold record_action. rewrite Hc, Hp, Hkey, Hd. cbn [truthy Z.eqb negb].
  eexists. split; [reflexivity|]. by apply recached_update.
Qed.

Lemma release_action key record layer s : disable_action_cache s = false -> key_record key false record ->
  read_source_layers_cache key (layers_of s) = layer ->
  record_action record s = (fw_action_for_key s layer key, s).
Proof using.
  intros Hd (Hkey & _ & Hp & Hc) Hr. unfold record_action. rewrite Hc, Hp, Hkey, Hd. cbn [truthy Z.eqb negb].
  unfold store_or_get_action. fold (layers_of s). by rewrite Hr, on_kb_same.
Qed.

(** ** What an action leaves alone *)

(** What a key is looked up by: the stored configuration and the cache. *)
Definition lookup_of (k : kb E) : vial_state E * list (list Z) * list (list Z) :=
  (kb_vial k, source_layers_cache (kb_layers k), encoder_source_layers_cache (kb_layers k)).

Lemma send_lookup (k : kb E) : lookup_of (send_keyboard_report k) = lookup_of k.
Proof using.
  rewrite send_eq. cbv zeta. assert (Hv : lookup_of (get_mods_for_report k).2 = lookup_of k)
    by (unfold get_mods_for_report; by repeat case_if).
  by case_if.
Qed.
Lemma reports_lookup f (k : kb E) : lookup_of (with_reports f k) = lookup_of k.
Proof using. done. Qed.
Lemma register_lookup code (k : kb E) : lookup_of (register_code code k) = lookup_of k.
Proof using.
  unfold register_code, add_key. repeat case_if; rewrite ?send_lookup, ?reports_lookup, ?send_lookup; done.
Qed.
Lemma unregister_lookup code (k : kb E) : lookup_of (unregister_code code k) = lookup_of k.
Proof using. unfold unregister_code. repeat case_if; by rewrite ?send_lookup. Qed.
Lemma mods_lookup mods (k : kb E) :
  lookup_of (register_mods mods k) = lookup_of k /\ lookup_of (unregister_mods mods k) = lookup_of k.
Proof using. unfold register_mods, unregister_mods. repeat case_if; by rewrite ?send_lookup. Qed.
Lemma oneshot_lookup (k : kb E) : (forall state, lookup_of (clear_oneshot_layer_state state k) = lookup_of k)
  /\ (forall layer state, lookup_of (set_oneshot_layer layer state k) = lookup_of k).
Proof using. unfold clear_oneshot_layer_state, set_oneshot_layer. split; intros; by repeat case_if. Qed.
Lemma with_mods_lookup f (k : kb E) : lookup_of (with_mods f k) = lookup_of k.
Proof using. done. Qed.
Lemma wait_lookup ms (k : kb E) : lookup_of (wait_ms ms k) = lookup_of k.
Proof using. done. Qed.

Lemma layers_lookup layer (k : kb E) : lookup_of (with_layers (layer_on layer) k) = lookup_of k
  /\ lookup_of (with_layers (layer_off layer) k) = lookup_of k.
Proof using. done. Qed.

Ltac lookup := repeat first [ reflexivity | rewrite send_lookup | rewrite register_lookup | rewrite unregister_lookup
  | rewrite (proj1 (mods_lookup _ _)) | rewrite (proj2 (mods_lookup _ _)) | rewrite (proj1 (oneshot_lookup _))
  | rewrite (proj2 (oneshot_lookup _)) | rewrite with_mods_lookup
  | rewrite (proj1 (layers_lookup _ _)) | rewrite (proj2 (layers_lookup _ _)) | rewrite wait_lookup | case_if ].

Lemma perform_lookup action count pressed (k : kb E) : lookup_of (perform action count pressed k) = lookup_of k.
Proof using.
  unfold perform, mods_key, mods_tap_key, oneshot_mods_key, mods_key, usage_key, bitop_key, layer_mods_key, layer_tap_key,
    oneshot_layer_key, tap_wait.
  destruct pressed; lookup.
Qed.

Lemma perform_vial action count pressed (k : kb E) : kb_vial (perform action count pressed k) = kb_vial k.
Proof using. pose proof (perform_lookup action count pressed k) as H. by injection H. Qed.

Lemma retro_cache record action s : disable_action_cache (retro_tap record action s) = disable_action_cache s.
Proof using. unfold retro_tap. by repeat case_if. Qed.

Lemma retro_idle record action s : feature_state (retro_tap record action s) = feature_state s.
Proof using. unfold retro_tap. by repeat case_if. Qed.
Lemma retro_lookup record action s : lookup_of (a_kb (retro_tap record action s)) = lookup_of (a_kb s)
  /\ magic_override (retro_tap record action s) = magic_override s.
Proof using.
  unfold retro_tap. repeat case_if; try done. split; [|done]. cbn [set_retro_mods set_retro set_primed on_kb a_kb].
  unfold tap_code, tap_code_delay. lookup.
Qed.

(** The keycode of a key, as its release finds it. *)
Definition cached_code key s : Z := fw_keycode s (read_source_layers_cache key (layers_of s)) key.

Lemma same_cached_code key s s' : lookup_of (a_kb s') = lookup_of (a_kb s) -> magic_override s' = magic_override s ->
  cached_code key s' = cached_code key s.
Proof using.
  intros H Hm. injection H as Hv H1 H2.
  assert (Hr : read_source_layers_cache key (layers_of s') = read_source_layers_cache key (layers_of s))
    by (unfold layers_of, read_source_layers_cache; by rewrite H1, H2).
  unfold cached_code, fw_keycode, fw_keymap_env, fw_vial, fw_magic_keycode_override, act_state.
  by rewrite Hv, Hm, Hr.
Qed.

(** The action is performed and nothing else, when no one-shot layer is on. *)
Lemma quiet_action f record action s : is_oneshot_layer_active (a_kb s) = false ->
  process_action f record action s
  = (true, retro_tap record action (on_kb (perform action (tap_count (rec_tap record)) (ev_pressed (rec_event record))) s)).
Proof using. intros H. unfold process_action, ends_oneshot_layer. by rewrite H. Qed.

(** The action of a key, its keycode that of the cache: what is left to do
    after the features. *)
Lemma perform_record f key pressed record action s : key_record key pressed record ->
  unclaimed (cached_code key s) record -> disable_action_cache s = false -> idle (feature_state s) ->
  is_oneshot_layer_active (a_kb s) = false ->
  exists x, idle x
    /\ (let '(kept, s) := process_action f record action s in
        (kept, post_process_record_quantum (if kept : bool then record else set_pressed false record) s))
       = (true, with_features x (retro_tap record action (on_kb (perform action (tap_count (rec_tap record)) pressed) s))).
Proof using.
  intros Hr Hu Hd Hi Ho. rewrite quiet_action by done. rewrite (proj1 (proj2 (proj2 Hr))).
  set (s1 := retro_tap _ _ _). destruct (retro_lookup record action (on_kb (perform action (tap_count (rec_tap record)) pressed) s)) as [L M].
  fold s1 in L, M. cbn [on_kb a_kb magic_override] in L, M. rewrite perform_lookup in L.
  destruct (post_same key pressed record s1) as (x & Ex & Hx).
  - change (unclaimed (cached_code key s1) record). by rewrite (same_cached_code key s).
  - done.
  - unfold s1. by rewrite retro_cache.
  - unfold s1. by rewrite retro_idle.
  - exists x. split; [done|]. change (post_process_record_quantum record s1) with (quantum_post_process record s1). by rewrite Ex.
Qed.

Lemma press_record key record s : key_ok key -> layers_wf (layers_of s) -> disable_action_cache s = false ->
  idle (feature_state s) -> key_record key true record -> is_oneshot_layer_active (a_kb s) = false ->
  let layer := fw_get_layer key s in let action := fw_action_for_key s layer key in
  unclaimed (fw_keycode s layer key) record -> plain_keycode (fw_keycode s layer key) ->
  exists s' x, recached key layer s s' /\ idle x
    /\ act_process_record record s
       = (true, with_features x (retro_tap record action (on_kb (perform action (tap_count (rec_tap record)) true) s'))).
Proof using cfg_ok.
  intros Hk Hw Hd Hi Hr Ho layer action Hu Hplain. unfold act_process_record. cbn [process_record_n].
  unfold process_record_body at 1. pose proof Hr as (_ & Ht & _). unfold IS_NOEVENT. rewrite Ht. cbn [bool_decide decide_rel].
  change (process_record_quantum record s) with (quantum_process record s). unfold quantum_process.
  destruct (press_keycode key record s Hk Hw Hd Hi Hr) as (s1 & -> & H1). fold layer in H1 |- *.
  destruct (recached_wf _ _ _ _ H1) as (W1 & C1 & D1 & I1).
  destruct (unclaimed_helper _ record s1 Hu Hplain I1) as (y & -> & Hy). cbn [negb].
  pose proof (recached_trans _ _ _ _ _ H1 (recached_features _ _ y _ Hy W1 C1)) as H2. clear H1 W1 C1 D1 I1.
  set (s2 := with_features y s1) in *. destruct (recached_wf _ _ _ _ H2) as (W2 & _ & D2 & I2).
  unfold process_record_handler.
  destruct (press_action key record s2 Hk W2 ltac:(by rewrite D2) I2 Hr) as (s3 & E3 & H3).
  rewrite (recached_layer _ _ _ _ _ H2), (recached_action _ _ _ _ _ _ H2) in E3. fold layer in E3.
  rewrite (recached_layer _ _ _ _ _ H2) in H3. fold layer in H3.
  pose proof (recached_trans _ _ _ _ _ H2 H3) as H. destruct (recached_wf _ _ _ _ H) as (_ & C & D & I).
  rewrite E3. destruct (perform_record (process_record_n 1) key true record action s3 Hr) as (x & Hx & Ex).
  - unfold cached_code. by rewrite C, (recached_keycode _ _ _ _ _ _ H).
  - by rewrite D.
  - exact I.
  - destruct H as (l & z & -> & _). exact Ho.
  - exists s3, x. split_and!; [exact H|exact Hx|exact Ex].
Qed.

Lemma release_record key record s : disable_action_cache s = false -> idle (feature_state s) ->
  key_record key false record -> is_oneshot_layer_active (a_kb s) = false ->
  unclaimed (cached_code key s) record -> plain_keycode (cached_code key s) ->
  let action := fw_action_for_key s (read_source_layers_cache key (layers_of s)) key in
  exists y x, idle x /\ act_process_record record s
    = (true, with_features x (retro_tap record action
               (on_kb (perform action (tap_count (rec_tap record)) false) (with_features y s)))).
Proof using.
  intros Hd Hi Hr Ho Hu Hplain action. unfold act_process_record. cbn [process_record_n].
  unfold process_record_body at 1. pose proof Hr as (_ & Ht & _). unfold IS_NOEVENT. rewrite Ht. cbn [bool_decide decide_rel].
  change (process_record_quantum record s) with (quantum_process record s). unfold quantum_process.
  rewrite (cached_keycode key record false true _ s Hr eq_refl Hd eq_refl).
  destruct (unclaimed_helper _ record s Hu Hplain Hi) as (y & Ey & Hy). unfold cached_code in Ey. rewrite Ey. cbn [negb].
  unfold process_record_handler. set (s1 := with_features y s).
  rewrite (release_action key record _ s1 Hd Hr eq_refl).
  change (fw_action_for_key s1 (read_source_layers_cache key (layers_of s1)) key) with action.
  destruct (perform_record (process_record_n 1) key false record action s1 Hr Hu Hd Hy Ho) as (x & Hx & Ex).
  by exists y, x.
Qed.

End lookup.

(** ** A concrete keyboard

    Key (0, 0) holds [MT(MOD_LSFT, KC_A)], key (1, 0) [LT(1, KC_B)]; the tapping
    term is 200 ms. Its features are those that every Vial build has: macros of
    VIA, tap dances, the space cadet keys, the magic keys, grave escape, tri
    layers and the persistent default layer, in the order of
    [process_record_quantum_helper]. *)
Module ActionExample.
#[local] Existing Instance KeymapExample.config.
#[local] Existing Instance KeymapExample.driver.
#[local] Existing Instance ViaExample.qcfg.
#[local] Existing Instance MouseKey.mcfg.
#[local] Existing Instance us_layout.

(** The statics of the features. *)
Record statics := mk_statics {
  cadet_of : SpaceCadet.cadet;
  grave_esc_was_shifted : bool;
  dance_active : Z;
  dance_last_tap : Z;
  dance_actions : list action_state;
  dance_of : dance;
}.
#[local] Abbreviation W := (act KeymapExample.store statics).
#[local] Abbreviation K := (kb KeymapExample.store).
Implicit Types (s : W) (record : keyrecord_t).

Definition on_keyboard (f : Z -> keyrecord_t -> K -> bool * K) : feature W := fun keycode record s =>
  let '(go, k) := f keycode record (a_kb s) in (go, on_kb (fun _ => k) s).

(** A macro that runs off the memory is not played, and the events of the keycodes
    in it that are none of the report are not followed. *)
Definition via : feature W := on_keyboard (fun keycode record k =>
  let '(go, calls) := process_record_via (ee (kb_vial k)) keycode (pressed_of record) in
  (go, default k (calls ≫= fun calls => perform_calls 0 (fun _ _ k => k) calls k))).

(** The stored dances of this keyboard are direct: they feed no event back. *)
#[export] Instance direct_dances : EventExec KeymapExample.store := fun _ _ d => d.
Definition get_dance s : tap_dance KeymapExample.store :=
  let x := feature_state s in mk_tap_dance (dance_active x) (dance_last_tap x) (dance_actions x) (dance_of x) (a_kb s).
Definition put_dance (d : tap_dance KeymapExample.store) s : W :=
  let x := feature_state s in
  with_features (mk_statics (cadet_of x) (grave_esc_was_shifted x) (active_td d) (last_tap_time d) (actions d) (td_dance d))
    (on_kb (fun _ => td_kb d) s).
Definition before_dance : feature W := fun keycode record s =>
  let '(again, d) := TapDance.preprocess_tap_dance keycode (pressed_of record) (get_dance s) in (again, put_dance d s).
Definition vial : feature W := fun keycode record s =>
  (true, put_dance (vial_release keycode (pressed_of record) (get_dance s)) s).
Definition dances : feature W := fun keycode record s =>
  let '(go, d) := process_tap_dance keycode (pressed_of record) (get_dance s) in (go, put_dance d s).

Definition space_cadet : feature W := fun keycode record s =>
  let x := feature_state s in
  let '(go, (k, c)) := SpaceCadet.process_space_cadet keycode record (a_kb s, cadet_of x) in
  (go, with_features (mk_statics c (grave_esc_was_shifted x) (dance_active x) (dance_last_tap x) (dance_actions x) (dance_of x))
         (on_kb (fun _ => k) s)).
Definition grave_esc : feature W := fun keycode record s =>
  let x := feature_state s in
  let '(go, (k, b)) := GraveEsc.process_grave_esc keycode record (a_kb s, grave_esc_was_shifted x) in
  (go, with_features (mk_statics (cadet_of x) b (dance_active x) (dance_last_tap x) (dance_actions x) (dance_of x))
         (on_kb (fun _ => k) s)).

Definition magic : feature W := on_keyboard (fun keycode record => Magic.process_magic true keycode record).
Definition tri_layer : feature W := on_keyboard (fun keycode record k =>
  let '(go, l) := TriLayer.process_tri_layer TriLayer.tri_start keycode record (kb_layers k) in (go, set_layers l k)).
Definition default_layer : feature W := on_keyboard (fun keycode record => DefaultLayer.process_default_layer keycode record).

#[export] Instance example_features : Features W := {
  pre_features := [fun _ _ s => (true, s)];
  preprocess_tap_dance := before_dance;
  process_key_lock := fun keycode _ s => (true, keycode, s);
  features := [via; vial; dances; space_cadet; magic; grave_esc; tri_layer; default_layer];
  process_action_kb := fun _ s => (true, s);
  post_features := [];
}.

(** No tap dance is under way. *)
#[export] Instance example_idle : Idle statics := fun x => dance_active x = 0.

Definition statics_start : statics :=
  mk_statics (SpaceCadet.mk_cadet 0 0) false 0 0 (replicate 4 no_action) (mk_dance [0] (replicate 10 0) 0 []).

Lemma keyboard_same s : on_kb (fun _ => a_kb s) s = s.
Proof. by destruct s. Qed.
Lemma dance_same s : put_dance (get_dance s) s = s.
Proof. by destruct s as [? ? ? ? ? ? ? []]. Qed.

(** The keycodes of basic, modified, mod-tap and layer-tap keys. *)
Lemma example_unclaimed keycode record : keycode < 0x5000 -> unclaimed keycode record.
Proof.
  intros Hk.
  assert (Hne : forall code, 0x5000 <= code -> (keycode =? code) = false) by (intros; lia).
  assert (Hle : forall code, 0x5000 <= code -> (code <=? keycode) = false) by (intros; lia).
  assert (Hsame : forall s (f : bool * W), idle (feature_state s) -> f = (true, s) ->
    exists x, f = (true, with_features x s) /\ idle x)
    by (intros s f Hi ->; exists (feature_state s); by rewrite features_same).
  assert (Hrange : forall lo hi, 0x5000 <= lo -> in_range lo hi keycode = false)
    by (intros; unfold in_range; rewrite Hle; done).
  split.
  - constructor; [|constructor]. intros s Hi. by apply Hsame.
  - intros s Hi. exists (feature_state s). rewrite features_same. split; [|done]. change (before_dance keycode record s = (false, s)).
    unfold before_dance, TapDance.preprocess_tap_dance.
    change (active_td (get_dance s)) with (dance_active (feature_state s)). rewrite (Hi : dance_active (feature_state s) = 0).
    destruct (pressed_of record); cbn [negb truthy Z.eqb orb]; by rewrite dance_same.
  - intros s Hi. exists (feature_state s). by rewrite features_same.
  - cbn [features]. repeat (constructor; [intros s Hi|]); [..|constructor].
    + apply Hsame; [done|]. unfold via, on_keyboard, process_record_via. unfold QK_MACRO.
      rewrite Hle by lia. rewrite andb_false_r. cbn. by rewrite keyboard_same.
    + apply Hsame; [done|]. unfold vial, vial_release, process_record_vial, QK_TAP_DANCE.
      rewrite Hle by lia. rewrite andb_false_r. f_equal. exact (dance_same s).
    + apply Hsame; [done|]. unfold dances, process_tap_dance, QK_TAP_DANCE.
      rewrite Hle by lia. cbn [andb negb]. by rewrite dance_same.
    + unfold space_cadet, SpaceCadet.process_space_cadet.
      assert (Hc : SpaceCadet.cadet_keys keycode = None)
        by (unfold SpaceCadet.cadet_keys; by repeat rewrite Hne by (vm_compute; discriminate)).
      rewrite Hc. destruct (pressed_of record); cbn [fst snd]; rewrite keyboard_same; by eexists.
    + apply Hsame; [done|]. unfold magic, on_keyboard, Magic.process_magic, Magic.IS_MAGIC_KEYCODE.
      rewrite Hrange by lia. rewrite andb_false_r. by rewrite keyboard_same.
    + apply Hsame; [done|]. unfold grave_esc, GraveEsc.process_grave_esc. rewrite Hne by (vm_compute; discriminate).
      by destruct s as [? ? ? ? ? ? ? []].
    + apply Hsame; [done|]. unfold tri_layer, on_keyboard, TriLayer.process_tri_layer.
      rewrite !Hne by (vm_compute; discriminate). by destruct s as [[]].
    + apply Hsame; [done|]. unfold default_layer, on_keyboard, DefaultLayer.process_default_layer, DefaultLayer.IS_QK_PERSISTENT_DEF_LAYER.
      rewrite Hrange by lia. cbn [andb]. by rewrite keyboard_same.
  - intros s Hi. by apply Hsame.
  - constructor.
Qed.

Definition keymap : KeymapExample.store :=
  @dynamic_keymap_set_keycode _ KeymapExample.driver KeymapExample.config 0 1 0 0x4105
    (@dynamic_keymap_set_keycode _ KeymapExample.driver KeymapExample.config 0 0 0 0x2204 KeymapExample.blank).

Definition keyboard : kb KeymapExample.store :=
  mk_kb (mk_vial (mk_qs keymap TappingExample.options 0 175 (mk_mousekey 0 0 0 0 0 0 0 0) 0) 0 0 0 0 [] [] [] [])
    layers_start (mk_mods 0 0 0 0 0 0 0) (mk_osl 0 0)
    (mk_host (mk_reports false (memset 0 6) (memset 0 30)) (blank_report false) (blank_report true) []) mouse_start 1000.

Definition shift_key : keypos_t := mk_key 0 0.
Definition layer_key : keypos_t := mk_key 0 1.
End ActionExample.

Section witnesses.
#[local] Existing Instance KeymapExample.config.
#[local] Existing Instance KeymapExample.config_ok.
#[local] Existing Instance KeymapExample.laws.
#[local] Existing Instance ViaExample.qcfg.
#[local] Existing Instance MouseKey.mcfg.
Import ActionExample.

(** The shift key during an unlock. *)
Definition unlocking : act KeymapExample.store statics :=
  mk_act (set_vial (mk_vial (settings (kb_vial keyboard)) 0 1 0 0 [] [] [] []) keyboard) false 0 false 0 0 0 statics_start [].

Lemma example_key : key_ok shift_key.
Proof. split; [done|]. split; [done|]. left. vm_compute. repeat split; (reflexivity || discriminate). Qed.

End witnesses.
