(* ===== verification/DualRole.v ===== *)
(** Keys with two roles from the switch to the host: the events of a mod-tap or
    layer-tap key go through [action_exec], the tapping code, the features and
    [process_action] to the reports. *)

From S2P Require Import Prelude.
From S2P Require Import Eeprom.
From S2P Require Import DynamicKeymap.
From S2P Require Import KeymapBuffer.
From S2P Require Import QmkSettings.
From S2P Require Import Vial.
From S2P Require Import KeycodeConfig.
From S2P Require Import KeymapCommon.
From S2P Require Import ActionLayer.
From S2P Require Import Report.
From S2P Require Import MouseKey.
From S2P Require Import Keyboard.
From S2P Require Import ActionTapping.
From S2P Require Import TappingProofs.
From S2P Require Import TappingTheorems.
From S2P Require Import TappingReplay.
From S2P Require Import ActionUtil.
From S2P Require Import HostReports.
From S2P Require Import Action.
From S2P Require Import Quantum.
From S2P Require Import ActionProofs.

Section exec.
Context {E F : Type} {eeprom : Eeprom E} {cfg : KeymapConfig} {cfg_ok : KeymapConfigOk}
        {qcfg : QmkSettingsConfig} {mcfg : MouseKeyConfig} {all : Features (act E F)} {calm : Idle F}.
Implicit Types (s : act E F) (t : tapping (act E F)) (k : kb E) (key : keypos_t).

Definition kb_of t : kb E := a_kb (world t).

(** No one-shot key is pending. *)
Definition quiet k : Prop := oneshot_mods (kb_mods k) = 0 /\ oneshot_layer_data (kb_osl k) = 0.

Lemma quiet_timeouts k : quiet k -> oneshot_timeouts k = k.
Proof using.
  intros [H1 H2]. unfold oneshot_timeouts. case_if; [|done].
  assert (Hl : clear_oneshot_layer_state ONESHOT_OTHER_KEY_PRESSED k = k).
  { unfold clear_oneshot_layer_state, get_oneshot_layer_state. rewrite H2. cbn.
    destruct k as [? ? ? [d ?] ? ? ?]. cbn in *. by subst. }
  rewrite Hl. assert (Hk : (if has_oneshot_layer_timed_out k then k else k) = k) by (by case_if). rewrite Hk.
  case_if; [|done]. unfold clear_oneshot_mods, with_mods. rewrite H1. by destruct k.
Qed.

Lemma quiet_inactive k : quiet k -> is_oneshot_layer_active k = false.
Proof using. intros [_ H]. unfold is_oneshot_layer_active, get_oneshot_layer_state. by rewrite H. Qed.

(** ** The parts of [action_exec] before the tapping code *)

Lemma set_world_same t : set_world (world t) t = t.
Proof using. by destruct t. Qed.
Lemma on_kb_id (f : kb E -> kb E) s : f (a_kb s) = a_kb s -> on_kb f s = s.
Proof using. unfold on_kb. intros ->. by destruct s. Qed.

(** Only statics of retro tapping and of the features change. *)
Definition same_but_retro s s' : Prop :=
  exists (primed : bool) (code curr next : Z) (x : F), s' = with_features x (set_retro primed code curr next s).

Lemma retro_refl s : same_but_retro s s.
Proof using.
  exists (retro_tap_primed s), (retro_tap_curr_key s), (retro_tap_curr_mods s), (retro_tap_next_mods s), (feature_state s).
  by destruct s.
Qed.
Lemma retro_features s s' x : same_but_retro s s' -> same_but_retro s (with_features x s').
Proof using. intros (a & b & c & d & y & ->). by exists a, b, c, d, x. Qed.

Lemma retro_same primed code curr next s : same_but_retro s (set_retro primed code curr next s).
Proof using. by exists primed, code, curr, next, (feature_state s). Qed.

Lemma retro_twice primed code curr next primed' code' curr' next' s :
  same_but_retro s (set_retro primed code curr next (set_retro primed' code' curr' next' s)).
Proof using. by exists primed, code, curr, next, (feature_state s). Qed.
Ltac retro := unfold set_primed, set_curr_key, set_retro_mods;
  first [apply retro_refl|apply retro_twice|apply retro_same].

Lemma retro_event_same event s : same_but_retro s (retro_event event s)
  /\ feature_state (retro_event event s) = feature_state s.
Proof using.
  unfold retro_event. repeat case_if; (split; [|done]); retro.
Qed.

Lemma exec_tick time t : quiet (kb_of t) ->
  action_exec (MAKE_TICK_EVENT time) t = action_tapping_process (event_record (MAKE_TICK_EVENT time)) t.
Proof using.
  intros Hq. unfold action_exec, with_world. cbn [retro_event IS_EVENT MAKE_TICK_EVENT ev_pressed].
  change (IS_EVENT (MAKE_TICK_EVENT time)) with false. change (IS_NOEVENT (MAKE_TICK_EVENT time)) with true. cbv iota.
  unfold retro_event. change (IS_EVENT _) with false. cbv iota.
  rewrite !set_world_same. rewrite on_kb_id by (by apply quiet_timeouts). by rewrite set_world_same.
Qed.

Lemma exec_up key time t : quiet (kb_of t) -> disable_action_cache (world t) = false ->
  idle (feature_state (world t)) -> unclaimed (cached_code key (world t)) (event_record (up key time)) ->
  exists s', same_but_retro (world t) s' /\ idle (feature_state s')
    /\ action_exec (up key time) t = action_tapping_process (event_record (up key time)) (set_world s' t).
Proof using.
  intros Hq Hd Hi Hu. destruct (retro_event_same (up key time) (world t)) as [Hr Hf].
  unfold action_exec, with_world. cbn [up ev_pressed]. fold (up key time). cbn [set_world world].
  set (s1 := retro_event (up key time) (world t)) in *.
  assert (Hc : cached_code key s1 = cached_code key (world t) /\ a_kb s1 = a_kb (world t) /\ disable_action_cache s1 = false)
    by (by destruct Hr as (a & b & c & d & x & ->)).
  destruct Hc as (Hc & Hk & Hd1). clearbody s1.
  rewrite on_kb_id; [|rewrite Hk; by apply quiet_timeouts]. change (IS_NOEVENT (up key time)) with false. cbv iota.
  change pre_process_record_quantum with (quantum_pre_process (all := all)). unfold quantum_pre_process.
  destruct (pre_release pre_features key (event_record (up key time)) s1) as (x & -> & Hx);
    [rewrite <- Hc in Hu; apply Hu|done|by rewrite Hf|done|].
  exists (with_features x s1). split; [by apply retro_features|]. split; [exact Hx|done].
Qed.

(** What the press of a key has done to the world before its action: the weak
    modifiers are cleared and the cache may have changed. *)
Definition prepared s s' : Prop :=
  disable_action_cache s' = disable_action_cache s /\ magic_override s' = magic_override s
  /\ exists l, a_kb s' = set_layers l (with_mods clear_weak_mods (a_kb s))
     /\ layer_state l = layer_state (layers_of s) /\ default_layer_state l = default_layer_state (layers_of s)
     /\ layers_wf l /\ idle (feature_state s').

Lemma prepared_quiet s s' : prepared s s' -> quiet (a_kb s) -> quiet (a_kb s').
Proof using. intros (_ & _ & l & -> & _) [H1 H2]. done. Qed.

Lemma prepared_wf s s' : prepared s s' -> layers_wf (layers_of s').
Proof using. intros (_ & _ & l & Hl & _ & _ & Hw & _). unfold layers_of. by rewrite Hl. Qed.

Lemma prepared_idle s s' : prepared s s' -> idle (feature_state s').
Proof using. by intros (_ & _ & l & _ & _ & _ & _ & Hi). Qed.

(** The key is looked up as before. *)
Lemma prepared_lookup key s s' : prepared s s' ->
  fw_vial s' = fw_vial s /\ fw_get_layer key s' = fw_get_layer key s
  /\ (forall layer, fw_keycode s' layer key = fw_keycode s layer key)
  /\ (forall layer, fw_action_for_key s' layer key = fw_action_for_key s layer key).
Proof using.
  intros (_ & Hm & l & Hl & H1 & H2 & _).
  assert (Hv : fw_vial s' = fw_vial s) by (cbn; by rewrite Hl).
  assert (He : fw_keymap_env s' = fw_keymap_env s) by (unfold fw_keymap_env; rewrite Hv; cbn; by rewrite Hm).
  assert (Ha : forall layer key, fw_action_for_key s' layer key = fw_action_for_key s layer key)
    by (intros; unfold fw_action_for_key; by rewrite He, Hv).
  split_and!; [done| |intros; unfold fw_keycode; by rewrite He, Hv|done].
  unfold fw_get_layer, layer_switch_get_layer.
  assert (Hs : layer_state (fw_layers s') = layer_state (fw_layers s) /\ default_layer_state (fw_layers s') = default_layer_state (fw_layers s)).
  { cbn. rewrite Hl. by split. }
  destruct Hs as [-> ->].
  generalize (layer_state (fw_layers s) .| default_layer_state (fw_layers s)) as layers. intros layers.
  induction (Z.to_nat MAX_LAYER) as [|n IH]; [done|]. cbn [top_layer]. by rewrite Ha, IH.
Qed.

Lemma prepared_recached key layer s s1 s2 : prepared s s1 -> recached key layer s1 s2 -> prepared s s2.
Proof using.
  intros (Hd & Hm & l & Hl & H1 & H2 & _) (l' & x & -> & Hx & H3 & H4 & H5 & _). split_and!; [done|done|]. exists l'.
  unfold layers_of in *. rewrite Hl in H3, H4. split_and!; [by cbn; rewrite Hl|by rewrite H3|by rewrite H4|done|exact Hx].
Qed.

Lemma prepared_retro s s1 s2 : prepared s s1 -> same_but_retro s1 s2 -> idle (feature_state s2) -> prepared s s2.
Proof using.
  intros (Hd & Hm & l & Hl & H1 & H2 & Hw & _) (? & ? & ? & ? & x & ->) Hx. split_and!; [done|done|]. by exists l.
Qed.

Lemma exec_down key time t : quiet (kb_of t) -> layers_wf (layers_of (world t)) ->
  disable_action_cache (world t) = false -> idle (feature_state (world t)) -> key_ok key ->
  unclaimed (fw_keycode (world t) (fw_get_layer key (world t)) key) (event_record (down key time)) ->
  pre_features (W := act E F) <> [] ->
  exists s', prepared (world t) s' /\ read_source_layers_cache key (layers_of s') = fw_get_layer key (world t)
    /\ action_exec (down key time) t = action_tapping_process (event_record (down key time)) (set_world s' t).
Proof using cfg_ok.
  intros Hq Hw Hd Hi Hk Hu Hne.
  set (s1 := on_kb (with_mods clear_weak_mods) (retro_event (down key time) (world t))).
  assert (H1 : prepared (world t) s1).
  { unfold s1. destruct (retro_event_same (down key time) (world t)) as [(a & b & c & d & x & Hr) Hf]. rewrite Hr in Hf |- *.
    split_and!; [done|done|]. exists (layers_of (world t)). split_and!; [|done..|by cbn in Hf |- *; rewrite Hf].
    by destruct (world t) as [[]]. }
  assert (Ht : on_kb oneshot_timeouts s1 = s1).
  { apply on_kb_id, quiet_timeouts. by apply (prepared_quiet (world t)). }
  destruct (prepared_lookup key _ _ H1) as (_ & Hl & Hc & _).
  destruct (pre_press pre_features key (event_record (down key time)) s1) as (s2 & Hp & H2);
    [rewrite Hl, Hc; apply Hu|done|by apply (prepared_wf (world t))|by rewrite (proj1 H1)
    |by apply (prepared_idle (world t))|done|done|].
  exists s2. split; [by apply (prepared_recached key (fw_get_layer key s1) _ s1)|].
  split; [rewrite <- Hl; by apply (recached_wf _ _ _ _ H2)|].
  unfold action_exec, with_world. cbn [down ev_pressed]. fold (down key time). cbn [set_world world].
  fold s1. rewrite Ht. change (IS_NOEVENT (down key time)) with false. cbv iota.
  change pre_process_record_quantum with (quantum_pre_process (all := all)). unfold quantum_pre_process.
  by rewrite Hp.
Qed.

(** ** The action *)

Lemma retro_press record action s : ev_pressed (rec_event record) = true ->
  same_but_retro s (retro_tap record action s).
Proof using.
  intros Hp. unfold retro_tap. rewrite Hp. repeat case_if; retro.
Qed.

Lemma retro_release record action s : ev_pressed (rec_event record) = false ->
  0 < tap_count (rec_tap record) \/ get_retro_tapping (settings (kb_vial (a_kb s))) = false ->
  same_but_retro s (retro_tap record action s).
Proof using.
  intros Hp Hr. unfold retro_tap. rewrite Hp. case_if; [|apply retro_refl]. case_if; [retro|].
  destruct Hr as [Hr|Hr]; [lia|]. rewrite Hr. cbn [andb]. case_if; retro.
Qed.

(** Some state has the layer of [key] in its cache, as [s] knows it. *)
Section key.
Context (s : act E F) (key : keypos_t).
Definition the_layer : Z := fw_get_layer key s.
Definition the_keycode : Z := fw_keycode s the_layer key.
Definition the_action : Z := fw_action_for_key s the_layer key.

Context (Hkey : key_ok key) (Hdis : disable_action_cache s = false) (Hplain : plain_keycode the_keycode)
        (Hun : forall record, ev_key (rec_event record) = key -> unclaimed the_keycode record).

Lemma press_world record s1 : prepared s s1 -> quiet (a_kb s1) -> key_record key true record ->
  exists s2 s', prepared s s2 /\ read_source_layers_cache key (layers_of s2) = the_layer
    /\ process_record record s1 = (true, s') /\ disable_action_cache s' = false /\ magic_override s' = magic_override s
    /\ idle (feature_state s') /\ a_kb s' = perform the_action (tap_count (rec_tap record)) true (a_kb s2).
Proof using All.
  intros Hp Hq Hr. destruct (prepared_lookup key s s1 Hp) as (Hv & Hl & Hk & Ha).
  assert (Hd1 : disable_action_cache s1 = false) by (by rewrite (proj1 Hp)).
  destruct (press_record key record s1 Hkey (prepared_wf s s1 Hp) Hd1 (prepared_idle s s1 Hp) Hr) as (s2 & x & H2 & Hx & E2).
  { by apply quiet_inactive. } { rewrite Hl, Hk. apply Hun, Hr. } { by rewrite Hl, Hk. }
  rewrite Hl, Ha in E2. fold the_layer in E2. fold the_action in E2. rewrite Hl in H2. fold the_layer in H2.
  pose proof (prepared_recached _ _ _ _ _ Hp H2) as Hp2. destruct (recached_wf _ _ _ _ H2) as (_ & Hc & Hd2 & _).
  set (s3 := on_kb _ s2) in E2.
  destruct (retro_press record the_action s3 (proj1 (proj2 (proj2 Hr)))) as (a & b & c & d & y & Hs).
  eexists s2, _. split_and!; [done|done|exact E2|rewrite Hs..|exact Hx|by rewrite Hs].
  - change (disable_action_cache s2 = false). by rewrite Hd2.
  - apply Hp2.
Qed.

(** The same key at its release: the cache has its layer and the keymap is the
    same. *)
Definition awaiting s1 : Prop :=
  fw_vial s1 = fw_vial s /\ magic_override s1 = magic_override s /\ disable_action_cache s1 = false
  /\ idle (feature_state s1) /\ read_source_layers_cache key (layers_of s1) = the_layer /\ quiet (a_kb s1).

Lemma awaiting_code s1 : awaiting s1 -> cached_code key s1 = the_keycode
  /\ fw_action_for_key s1 the_layer key = the_action.
Proof using.
  intros (Hv & Hm & _ & _ & Hc & _).
  assert (He : fw_keymap_env s1 = fw_keymap_env s) by (unfold fw_keymap_env; rewrite Hv; cbn; by rewrite Hm).
  unfold cached_code. rewrite Hc. unfold fw_keycode, fw_action_for_key. by rewrite He, Hv.
Qed.

Lemma awaiting_retro s1 s2 : awaiting s1 -> same_but_retro s1 s2 -> idle (feature_state s2) -> awaiting s2.
Proof using. intros (H1 & H2 & H3 & _ & H4 & H5) (? & ? & ? & ? & x & ->) Hx. unfold awaiting. by split_and!. Qed.

Lemma release_world record s1 : awaiting s1 -> key_record key false record ->
  0 < tap_count (rec_tap record) \/ get_retro_tapping (settings (fw_vial s)) = false ->
  exists s', process_record record s1 = (true, s')
    /\ a_kb s' = perform the_action (tap_count (rec_tap record)) false (a_kb s1).
Proof using All.
  intros Haw Hr Hret. destruct (awaiting_code s1 Haw) as [Hk Ha].
  pose proof Haw as (Hv & _ & Hd & Hi & Hc & Hq).
  destruct (release_record key record s1 Hd Hi Hr (quiet_inactive _ Hq)) as (y & x & _ & E1);
    [rewrite Hk; apply Hun, Hr|by rewrite Hk|].
  rewrite Hc, Ha in E1. set (s3 := on_kb _ _) in E1.
  destruct (retro_release record the_action s3 (proj1 (proj2 (proj2 Hr)))) as (a & b & c & d & z & Hs).
  { destruct Hret as [|Hret]; [by left|right]. unfold s3. cbn [on_kb with_features a_kb]. rewrite perform_vial.
    change (kb_vial (a_kb s1)) with (fw_vial s1). by rewrite Hv. }
  eexists. split; [exact E1|]. by rewrite Hs.
Qed.
End key.

(** ** A tap key on its own *)

(** [f] leaves no one-shot key pending and does not touch the cache. *)
Definition keeps (f : kb E -> kb E) : Prop :=
  forall k, quiet k -> quiet (f k) /\ forall key, read_source_layers_cache key (kb_layers (f k))
                                        = read_source_layers_cache key (kb_layers k).

Section dual.
Context (t : tapping (act E F)) (tk : keyrecord_t) (key : keypos_t) (t0 : Z).
#[local] Abbreviation s := (world t).
#[local] Abbreviation A := (the_action (world t) key).

Context (Hrest : resting tk t) (Htk : IS_NOEVENT (rec_event tk) = true)
        (Hquiet : quiet (kb_of t)) (Hwf : layers_wf (layers_of s))
        (Hkey : key_ok key) (Hdis : disable_action_cache s = false) (Hplain : plain_keycode (the_keycode s key))
        (Hun : forall record, ev_key (rec_event record) = key -> unclaimed (the_keycode s key) record)
        (Hidle : idle (feature_state s))
        (Hne : pre_features (W := act E F) <> []) (Htap : is_tap_action A = true)
        (Hkeep : forall count, keeps (perform A count true)).

(** The tapping term of the key. *)
Definition dual_term : Z := get_tapping_term (fw_vial s) (the_keycode s key).

(** The key is down and undecided. *)
Definition waits (t1 : tapping (act E F)) : Prop :=
  resting (press key t0) t1 /\ prepared s (world t1)
  /\ read_source_layers_cache key (layers_of (world t1)) = the_layer s key.

Definition execs (evs : list keyevent_t) (t1 : tapping (act E F)) : tapping (act E F) :=
  foldl (fun t e => action_exec e t) t1 evs.

Lemma press_waits : waits (action_exec (down key t0) t).
Proof using All.
  destruct (exec_down key t0 t Hquiet Hwf Hdis Hidle Hkey (Hun (event_record (down key t0)) eq_refl) Hne) as (s1 & H1 & Hc & ->).
  pose proof (resting_world _ _ s1 Hrest) as Hr1. set (t1 := set_world s1 t) in *.
  assert (Ht : is_tap_record (press key t0) (world (with_log t1)) = true).
  { change (is_tap_action (fw_action_for_key s1 (fw_get_layer key s1) key) = true).
    destruct (prepared_lookup key _ _ H1) as (_ & -> & _ & ->). exact Htap. }
  destruct Hr1 as (Hs1 & Hk1 & Hq1 & Hw1).
  destruct (tapping_rests (press key t0) t1 (press key t0) s1 []) as [H2 H3].
  { exact (press_step (with_log t1) key t0 Hs1 Hq1 ltac:(by rewrite Hk1) Ht). }
  change (waits (action_tapping_process (press key t0) t1)). unfold waits. rewrite H3.
  split; [exact H2|]. split; [exact H1|exact Hc].
Qed.

Lemma waits_term t1 time : waits t1 -> within (with_log t1) key t0 time <-> TIMER_DIFF_16 time t0 < dual_term.
Proof using Hdis.
  intros (_ & Hp & Hc). unfold within, term, dual_term.
  change (get_record_keycode (press key t0) false (world (with_log t1))).1
    with (get_record_keycode (press key t0) false (world t1)).1.
  assert (Hk : (get_record_keycode (press key t0) false (world t1)).1 = (record_keycode (press key t0) false (world t1)).1)
    by (unfold record_keycode; by destruct (get_record_keycode _ _ _)).
  rewrite Hk. clear Hk.
  rewrite (cached_keycode key (press key t0) true false _ (world t1) ltac:(done) eq_refl ltac:(by rewrite (proj1 Hp)) Hc).
  change (fw_vial (world (with_log t1))) with (fw_vial (world t1)).
  destruct (prepared_lookup key _ _ Hp) as (-> & _ & Hk & _). cbn [fst]. by rewrite Hk.
Qed.

Lemma tick_waits t1 time : waits t1 -> TIMER_DIFF_16 time t0 < dual_term ->
  waits (action_exec (MAKE_TICK_EVENT time) t1).
Proof using Hdis Hquiet.
  intros Hw Ht. pose proof Hw as (Hr & Hp & Hc). rewrite exec_tick by (by apply (prepared_quiet s)).
  destruct (tapping_rests (event_record (MAKE_TICK_EVENT time)) t1 (press key t0) (world t1) []) as [H2 H3].
  { apply (ticks_step (with_log t1) key t0 [time] (with_log t1)); [|exact Hr]. constructor; [|constructor].
    by apply waits_term. }
  unfold waits. rewrite H3. by split_and!.
Qed.

Lemma ticks_wait ticks : Forall (fun time => TIMER_DIFF_16 time t0 < dual_term) ticks ->
  waits (execs (down key t0 :: map MAKE_TICK_EVENT ticks) t).
Proof using All.
  intros Ht. unfold execs. cbn [foldl]. pose proof press_waits as Hw. revert Hw.
  generalize (action_exec (down key t0) t) as t1. induction Ht as [|time ticks H _ IH]; intros t1 Hw; [done|].
  cbn [map foldl]. by apply IH, tick_waits.
Qed.

Lemma waits_awaiting s2 s3 count : prepared s s2 -> read_source_layers_cache key (layers_of s2) = the_layer s key ->
  disable_action_cache s3 = false -> magic_override s3 = magic_override s -> idle (feature_state s3) ->
  a_kb s3 = perform A count true (a_kb s2) -> awaiting s key s3.
Proof using All.
  intros Hp Hc Hd Hm Hi Ha. destruct (Hkeep count (a_kb s2)) as [Hk1 Hk2]; [by apply (prepared_quiet s)|].
  split_and!; [|done|done|done| |by rewrite Ha..].
  - cbn. rewrite Ha, perform_vial. apply (prepared_lookup key _ _ Hp).
  - unfold layers_of in *. by rewrite Ha, Hk2.
Qed.

(** What its release finds while it is undecided. *)
Lemma waits_code t1 : waits t1 -> cached_code key (world t1) = the_keycode s key.
Proof using.
  intros (_ & Hp & Hc). unfold cached_code. rewrite Hc. by destruct (prepared_lookup key _ _ Hp) as (_ & _ & -> & _).
Qed.

(** Released within its term the key is a tap. *)
Lemma dual_tap t1 time : waits t1 -> TIMER_DIFF_16 time t0 < dual_term ->
  exists s2, prepared s s2
    /\ kb_of (action_exec (up key time) t1) = perform A 1 false (perform A 1 true (a_kb s2)).
Proof using All.
  intros Hw Ht. pose proof Hw as (Hr & Hp & Hc).
  destruct (exec_up key time t1) as (s1 & H1 & I1 & ->);
    [by apply (prepared_quiet s)|by rewrite (proj1 Hp)|by apply (prepared_idle s)|rewrite waits_code by done; by apply Hun|].
  pose proof (prepared_retro _ _ _ Hp H1 I1) as Hp1. pose proof (resting_world _ _ s1 Hr) as Hr1.
  assert (Hw1 : waits (set_world s1 t1)).
  { split_and!; [done|done|]. destruct H1 as (? & ? & ? & ? & ? & ->). exact Hc. }
  set (t2 := set_world s1 t1) in *.
  destruct (press_world s key Hkey Hdis Hplain Hun (set_count 1 (press key t0)) s1 Hp1
              (prepared_quiet _ _ Hp1 Hquiet) ltac:(done)) as (s2 & s3 & H2 & C2 & E3 & D3 & M3 & I3 & A3).
  destruct (release_world s key Hkey Hdis Hplain Hun (set_count 1 (event_record (up key time))) s3
              (waits_awaiting s2 s3 1 H2 C2 D3 M3 I3 A3) ltac:(done) ltac:(by left)) as (s4 & E4 & A4).
  exists s2. split; [done|]. unfold kb_of.
  rewrite (tapping_world _ t2 [Processed (set_count 1 (press key t0)); Processed (set_count 1 (event_record (up key time)))]).
  - cbn [replay foldl do_call]. change (world t2) with s1. rewrite E3. cbn [snd]. rewrite E4. cbn [snd].
    by rewrite A4, A3.
  - apply (tap_step (with_log t2) key t0 (with_log t2) time); [exact Hr1|by apply waits_term|].
    change (world (with_log t2)).1 with s1. by rewrite E3.
Qed.

(** Past its term it is a hold, until it is released. *)
Lemma dual_hold t1 time : waits t1 -> ~ TIMER_DIFF_16 time t0 < dual_term ->
  exists s2, prepared s s2 /\ kb_of (action_exec (MAKE_TICK_EVENT time) t1) = perform A 0 true (a_kb s2)
    /\ (get_retro_tapping (settings (fw_vial s)) = false -> forall time2,
         kb_of (action_exec (up key time2) (action_exec (MAKE_TICK_EVENT time) t1))
         = perform A 0 false (perform A 0 true (a_kb s2))).
Proof using All.
  intros Hw Ht. pose proof Hw as (Hr & Hp & Hc). rewrite exec_tick by (by apply (prepared_quiet s)).
  destruct (hold_holds (with_log t1) key t0 (with_log t1) time Hr ltac:(by rewrite waits_term)) as (w & Hh).
  destruct (tapping_rests _ t1 _ _ _ Hh) as [Hr2 Hw2]. cbn [log with_log world snd app] in Hw2.
  destruct (press_world s key Hkey Hdis Hplain Hun (press key t0) (world t1) Hp
              (prepared_quiet _ _ Hp Hquiet) ltac:(done)) as (s2 & s3 & H2 & C2 & E3 & D3 & M3 & I3 & A3).
  assert (Hw3 : world (action_tapping_process (event_record (MAKE_TICK_EVENT time)) t1) = s3).
  { rewrite Hw2. cbn [replay foldl do_call]. by rewrite E3. }
  exists s2. split; [done|]. split; [unfold kb_of; by rewrite Hw3, A3|].
  intros Hret time2. set (t2 := action_tapping_process _ t1) in *.
  pose proof (waits_awaiting s2 s3 0 H2 C2 D3 M3 I3 A3) as Haw.
  destruct (exec_up key time2 t2) as (s4 & H4 & I4 & ->); unfold kb_of; rewrite ?Hw3;
    [apply Haw|done|done|rewrite (proj1 (awaiting_code _ _ _ Haw)); by apply Hun|].
  rewrite Hw3 in H4. pose proof (awaiting_retro _ _ _ _ Haw H4 I4) as Haw4.
  destruct (release_world s key Hkey Hdis Hplain Hun (event_record (up key time2)) s4 Haw4 ltac:(done)
              ltac:(by right)) as (s5 & E5 & A5).
  pose proof (resting_world _ _ s4 Hr2) as Hr4.
  destruct (idle_step (with_log (set_world s4 t2)) zero_record _ (event_record (up key time2)) Hr4) as (w' & Hh');
    [done|done|done|].
  destruct (tapping_rests _ (set_world s4 t2) _ _ _ Hh') as [_ Hw5]. unfold kb_of. rewrite Hw5.
  cbn [log with_log world snd app replay foldl do_call set_world]. rewrite E5. cbn [snd]. rewrite A5.
  destruct H4 as (? & ? & ? & ? & ? & ->). cbn [with_features set_retro a_kb]. by rewrite A3.
Qed.
End dual.
End exec.
