(* ===== verification/DualRoleTheorems.v ===== *)
(** What the host sees of a mod-tap and of a layer-tap key pressed on its own:
    a tap within the tapping term, a hold after it. *)

From S2P Require Import Prelude.
From S2P Require Import Eeprom.
From S2P Require Import DynamicKeymap.
From S2P Require Import KeymapBuffer.
From S2P Require Import QmkSettings.
From S2P Require Import Vial.
From S2P Require Import ViaReset.
From S2P Require Import KeycodeConfig.
From S2P Require Import KeymapCommon.
From S2P Require Import ActionLayer.
From S2P Require Import Report.
From S2P Require Import MouseKey.
From S2P Require Import Keyboard.
From S2P Require Import ActionTapping.
From S2P Require Import TappingProofs.
From S2P Require Import TappingTheorems.
From S2P Require Import TappingReplay.
From S2P Require Import ActionUtil.
From S2P Require Import HostReports.
From S2P Require Import Action.
From S2P Require Import Quantum.
From S2P Require Import ActionProofs.
From S2P Require Import DualRole.

(** The modifier bits of a five-bit modifier code: the upper half for the right
    side. *)
Definition side_mods (mods : Z) : Z := if mods <? 16 then mods else (mods - 16) * 16.

(** The actions of the two keys, taken apart. *)
Lemma tap_action_fields kind h code : kind = ACT_MODS_TAP \/ kind = ACT_LAYER_TAP -> 0 <= h < 32 -> byte_range code ->
  let action := ACTION kind ((h << 8) .| code) in
  action_kind action = kind + h / 16 /\ layer_tap_val action = h /\ key_code action = code
  /\ action_key_mods action = h mod 16.
Proof.
  intros Hkind Hh Hc action. destruct (action_fields kind h code ltac:(tauto) Hh Hc) as (E & _ & H2 & H3).
  split_and!; [|exact H2|exact H3|]; unfold action_kind, action_key_mods; fold action in E; rewrite E;
    change 0xF with (2 ^ 4 - 1); rewrite land_ones_mod, Z.shiftr_div_pow2 by done; pow_consts;
    destruct Hkind as [-> | ->]; unfold ACT_MODS_TAP, ACT_LAYER_TAP; dlia.
Qed.

Lemma basic_code code : IS_BASIC_KEYCODE code = true -> 4 <= code <= 0xA4.
Proof. unfold IS_BASIC_KEYCODE, in_range, KC_A, KC_EXSEL. intros. b2p. lia. Qed.

Lemma basic_tap_action action : IS_BASIC_KEYCODE (key_code action) = true ->
  (action_kind action = ACT_LMODS_TAP \/ action_kind action = ACT_RMODS_TAP \/ action_kind action = ACT_LAYER_TAP
   \/ action_kind action = ACT_LAYER_TAP_EXT) ->
  is_tap_action action = true.
Proof.
  intros Hc%basic_code Hk. unfold is_tap_action.
  assert (Hr : in_range KC_NO KC_RIGHT_GUI (key_code action) = true).
  { unfold in_range, KC_NO, KC_RIGHT_GUI. apply andb_true_iff. split; apply Z.leb_le; lia. }
  rewrite Hr. destruct Hk as [->|[->|[->| ->]]]; reflexivity.
Qed.

Section theorems.
Context {E F : Type} {eeprom : Eeprom E} {cfg : KeymapConfig} {cfg_ok : KeymapConfigOk}
        {qcfg : QmkSettingsConfig} {mcfg : MouseKeyConfig} {all : Features (act E F)} {calm : Idle F}.
Implicit Types (s : act E F) (t : tapping (act E F)) (k : kb E) (key : keypos_t).

Lemma perform_mod_tap h code count pressed k : 0 <= h < 32 -> IS_BASIC_KEYCODE code = true ->
  perform (ACTION ACT_MODS_TAP ((h << 8) .| code)) count pressed k
  = if pressed then if 0 <? count then register_code code k else register_mods (side_mods h) k
    else if 0 <? count then unregister_code code (tap_wait code k) else unregister_mods (side_mods h) k.
Proof using.
  intros Hh Hb. pose proof (basic_code code Hb) as Hc.
  destruct (tap_action_fields ACT_MODS_TAP h code (or_introl eq_refl) Hh ltac:(lia)) as (E1 & _ & E3 & E4).
  unfold perform, action_mods. rewrite E1, E3, E4. unfold side_mods.
  assert (Hd : h / 16 = if h <? 16 then 0 else 1) by (case_if; dlia). rewrite Hd.
  assert (Hs : (if h <? 16 then h else (h - 16) * 16)
               = if ACT_MODS_TAP + (if h <? 16 then 0 else 1) =? ACT_LMODS_TAP then h mod 16 else u8 ((h mod 16) << 4)).
  { rewrite Z.shiftl_mul_pow2 by done. pow_consts. 
    destruct (Z.ltb_spec h 16).
    - change (_ =? _) with true. cbv iota. symmetry. apply Z.mod_small. lia.
    - change (_ =? _) with false. cbv iota. rewrite u8_id; dlia. }
  rewrite Hs. unfold mods_tap_key. rewrite (proj2 (Z.eqb_neq code MODS_ONESHOT)), (proj2 (Z.eqb_neq code MODS_TAP_TOGGLE))
    by (unfold MODS_ONESHOT, MODS_TAP_TOGGLE; lia).
  destruct (h <? 16); reflexivity.
Qed.

Lemma perform_layer_tap layer code count pressed k : 0 <= layer < 16 -> IS_BASIC_KEYCODE code = true ->
  perform (ACTION ACT_LAYER_TAP ((layer << 8) .| code)) count pressed k
  = if pressed then if 0 <? count then register_code code k else with_layers (layer_on layer) k
    else if 0 <? count then unregister_code code (tap_wait code k) else with_layers (layer_off layer) k.
Proof using.
  intros Hh Hb. pose proof (basic_code code Hb) as Hc.
  destruct (tap_action_fields ACT_LAYER_TAP layer code (or_intror eq_refl) ltac:(lia) ltac:(lia)) as (E1 & E2 & E3 & _).
  unfold perform. rewrite E1, E2, E3. rewrite Z.div_small by lia. cbn -[layer_tap_key]. unfold layer_tap_key.
  repeat (rewrite (proj2 (Z.eqb_neq code _)) by (unfold OP_TAP_TOGGLE, OP_ON_OFF, OP_OFF_ON, OP_SET_CLEAR, OP_ONESHOT; lia)).
  done.
Qed.

(** ** The effects *)

Lemma keeps_register code : IS_BASIC_KEYCODE code = true -> keeps (register_code (E := E) code).
Proof using. intros Hb k [H1 H2]. by destruct (register_calm code k Hb H1) as [h ->]. Qed.
Lemma keeps_mods mods : keeps (register_mods (E := E) mods).
Proof using.
  intros k [H1 H2]. destruct (mods_calm mods k H1) as [h ->]. split; [split; [cbn; by case_if|done]|done].
Qed.
Lemma keeps_layer layer : keeps (with_layers (E := E) (layer_on layer)).
Proof using. by intros k [H1 H2]. Qed.

(** ** What the host sees of a tap *)

(** The press and the release of a key that was up, as two reports. *)
Lemma tap_history code k : IS_BASIC_KEYCODE code = true -> synced k -> oneshot_mods (kb_mods k) = 0 ->
  report_pressed (shown k) code = false -> has_room (reports_of (kb_host k)) code = true ->
  let k1 := register_code code k in let k2 := unregister_code code (tap_wait code k1) in
  history k2 = shown k2 :: shown k1 :: history k
  /\ (forall b, byte_range b -> report_pressed (shown k1) b = (b =? code) || report_pressed (shown k) b)
  /\ (forall b, byte_range b -> report_pressed (shown k2) b = report_pressed (shown k) b)
  /\ report_mods (shown k1) = plain_mods (kb_mods k) /\ report_mods (shown k2) = plain_mods (kb_mods k).
Proof using.
  intros Hb Hs Ho Hup Hroom k1 k2. pose proof (basic_range code Hb) as [Hr H0]. pose proof (synced_log _ Hs) as Hl.
  destruct (register_basic code k Hb Hs) as [S1 R1]. fold k1 in S1, R1.
  assert (E1 : k1 = send_keyboard_report (add_key code k)).
  { unfold k1, register_code. rewrite (proj2 (Z.eqb_neq code KC_NO)) by done. rewrite synced_pressed in Hup by done. by rewrite Hb, Hup. }
  assert (P1 : forall b, byte_range b -> report_pressed (shown k1) b = (b =? code) || report_pressed (shown k) b).
  { intros b Hbr. rewrite !synced_pressed by done. rewrite R1, Hroom by done. cbn [orb]. by rewrite andb_true_r. }
  assert (M1 : kb_mods k1 = kb_mods k) by (destruct (register_calm code k Hb Ho) as [h Eh]; unfold k1; by rewrite Eh).
  set (kw := tap_wait code k1) in *.
  assert (Sw : synced kw) by (by apply (synced_same k1)).
  destruct (unregister_basic code kw Hb Sw) as [S2 R2]. fold k2 in S2, R2.
  assert (E2 : k2 = send_keyboard_report (del_key code kw)).
  { unfold k2, unregister_code. rewrite (proj2 (Z.eqb_neq code KC_NO)) by done. by rewrite Hb. }
  assert (P2 : forall b, byte_range b -> report_pressed (shown k2) b = report_pressed (shown k) b).
  { intros b Hbr. rewrite (synced_pressed k2), R2 by done. change (reports_of (kb_host kw)) with (reports_of (kb_host k1)).
    rewrite <- (synced_pressed k1), P1 by done. destruct (Z.eqb_spec b code) as [->|]; [by rewrite Hup|done]. }
  assert (H1 : history k1 = shown k1 :: history k).
  { rewrite E1. apply (send_change (add_key_to_report code) k code); [done|apply nkro_add|by apply (report_ops _ code 0 (log_wf k Hl))|].
    change (with_reports (add_key_to_report code) k) with (add_key code k). rewrite <- E1, P1, Hup, Z.eqb_refl by done. done. }
  assert (H2 : history k2 = shown k2 :: history kw).
  { rewrite E2. apply (send_change (del_key_from_report code) kw code); [by apply synced_log|apply nkro_del|
      by apply (report_ops _ code 0 (log_wf kw (synced_log _ Sw)))|].
    change (with_reports (del_key_from_report code) kw) with (del_key code kw). rewrite <- E2, P2, Hup by done.
    change (shown kw) with (shown k1). by rewrite P1, Z.eqb_refl. }
  split_and!; [by rewrite H2, <- H1|exact P1|exact P2|..].
  - rewrite E1. change (kb_mods k) with (kb_mods (add_key code k)). apply calm_mods; [done|by apply add_ok].
  - rewrite E2, <- M1. change (kb_mods k1) with (kb_mods (del_key code kw)).
    apply calm_mods; [|by apply del_ok, synced_log]. change (kb_mods (del_key code kw)) with (kb_mods k1). by rewrite M1.
Qed.

(** Holding and letting go of modifiers. *)
Lemma hold_mods mods k : mods <> 0 -> synced k -> oneshot_mods (kb_mods k) = 0 ->
  let k1 := register_mods mods k in let k2 := unregister_mods mods k1 in
  (kb_mods k1 = add_mods mods (kb_mods k) /\ report_mods (shown k1) = plain_mods (kb_mods k1)
   /\ forall b, report_pressed (shown k1) b = report_pressed (shown k) b)
  /\ (kb_mods k2 = del_mods mods (kb_mods k1) /\ report_mods (shown k2) = plain_mods (kb_mods k2)
      /\ forall b, report_pressed (shown k2) b = report_pressed (shown k) b).
Proof using.
  intros Hm Hs Ho.
  assert (Hsend : forall f k, synced k -> oneshot_mods (kb_mods k) = 0 -> (forall m, oneshot_mods (f m) = oneshot_mods m) ->
    let k1 := send_keyboard_report (with_mods f k) in
    synced k1 /\ kb_mods k1 = f (kb_mods k) /\ report_mods (shown k1) = plain_mods (kb_mods k1)
    /\ forall b, report_pressed (shown k1) b = report_pressed (shown k) b).
  { clear. intros f k Hs Ho Hf k1. pose proof (mods_log f k (synced_log _ Hs)) as Hl.
    assert (Ho' : oneshot_mods (kb_mods (with_mods f k)) = 0) by (cbn; by rewrite Hf).
    assert (Hk : kb_mods k1 = f (kb_mods k)) by (unfold k1; by destruct (send_calm _ Ho') as [h ->]).
    destruct (send_spec _ Hl) as (Hs1 & _ & Hr & _). split_and!; [exact Hs1|exact Hk| |].
    - rewrite Hk. unfold k1. by rewrite calm_mods.
    - intros b. rewrite !synced_pressed by done. unfold k1. by rewrite Hr. }
  intros k1 k2. unfold k2, k1, register_mods, unregister_mods, truthy. rewrite (proj2 (Z.eqb_neq mods 0)) by done. cbn [negb].
  destruct (Hsend (add_mods mods) k Hs Ho ltac:(done)) as (S1 & M1 & R1 & P1). split; [done|].
  destruct (Hsend (del_mods mods) _ S1 ltac:(by rewrite M1) ltac:(done)) as (S2 & M2 & R2 & P2).
  split_and!; [done|done|]. intros b. by rewrite P2, P1.
Qed.

(** ** The two keys *)

(** The keyboard is at rest but for keys held: no tap key is undecided, no
    one-shot key is pending, the host is up to date; the features are idle, and
    none of them has a use for the keycode of [key]. *)
Record tap_ready t (tk : keyrecord_t) key : Prop := {
  ready_rest : resting tk t;
  ready_none : IS_NOEVENT (rec_event tk) = true;
  ready_quiet : quiet (kb_of t);
  ready_synced : synced (kb_of t);
  ready_layers : layers_wf (layers_of (world t));
  ready_cached : disable_action_cache (world t) = false;
  ready_key : key_ok key;
  ready_idle : idle (feature_state (world t));
  ready_unclaimed record : ev_key (rec_event record) = key -> unclaimed (the_keycode (world t) key) record;
  ready_pre : pre_features (W := act E F) <> [];
}.

Definition keymap_options t : Z := QmkSettings.keymap_config (settings (kb_vial (kb_of t))).

Lemma the_action_keycode t key : the_action (world t) key = action_for_keycode (keymap_options t) (the_keycode (world t) key).
Proof using. done. Qed.

(** The keyboard as the action finds it. *)
Lemma prepared_kb t s2 : prepared (world t) s2 -> quiet (kb_of t) -> synced (kb_of t) ->
  synced (a_kb s2) /\ oneshot_mods (kb_mods (a_kb s2)) = 0 /\ history (a_kb s2) = history (kb_of t)
  /\ shown (a_kb s2) = shown (kb_of t) /\ kb_mods (a_kb s2) = clear_weak_mods (kb_mods (kb_of t))
  /\ reports_of (kb_host (a_kb s2)) = reports_of (kb_host (kb_of t))
  /\ layer_state (kb_layers (a_kb s2)) = layer_state (kb_layers (kb_of t)).
Proof using.
  intros (_ & _ & l & Hl & H1 & _) [Ho _] Hs.
  assert (Hh : kb_host (a_kb s2) = kb_host (kb_of t)) by (by rewrite Hl).
  assert (Hhist : history (a_kb s2) = history (kb_of t)) by (unfold history, nkro_of; by rewrite Hh).
  split_and!; [by apply (synced_same (kb_of t))|by rewrite Hl|exact Hhist| |by rewrite Hl|by rewrite Hh|].
  - unfold shown, nkro_of. by rewrite Hhist, Hh.
  - by rewrite Hl.
Qed.

(** What a tap of the basic key [code] shows to the host that had [k]: two
    reports. *)
Definition tapped code k k' : Prop :=
  exists pressed, history k' = shown k' :: pressed :: history k
    /\ (forall b, byte_range b -> report_pressed pressed b = (b =? code) || report_pressed (shown k) b)
    /\ (forall b, byte_range b -> report_pressed (shown k') b = report_pressed (shown k) b)
    /\ report_mods pressed = plain_mods (clear_weak_mods (kb_mods k))
    /\ report_mods (shown k') = plain_mods (clear_weak_mods (kb_mods k)).

Lemma prepared_tapped t s2 code : prepared (world t) s2 -> quiet (kb_of t) -> synced (kb_of t) ->
  IS_BASIC_KEYCODE code = true -> report_pressed (shown (kb_of t)) code = false ->
  has_room (reports_of (kb_host (kb_of t))) code = true ->
  tapped code (kb_of t) (unregister_code code (tap_wait code (register_code code (a_kb s2)))).
Proof using.
  intros Hp Hq Hs Hb Hup Hroom. destruct (prepared_kb t s2 Hp Hq Hs) as (Hs2 & Ho2 & Hh & Hsh & Hm & Hr & _).
  destruct (tap_history code (a_kb s2) Hb Hs2 Ho2 ltac:(by rewrite Hsh) ltac:(by rewrite Hr))
    as (H1 & H2 & H3 & H4 & H5).
  exists (shown (register_code code (a_kb s2))). rewrite <- Hsh, <- Hh, <- Hm. by split_and!.
Qed.

(** Both keys: [code] tapped, [on] and [off] held. *)
Lemma dual_reaches_host t tk key (t0 : Z) ticks code (on off : kb E -> kb E) :
  tap_ready t tk key -> plain_keycode (the_keycode (world t) key) -> is_tap_action (the_action (world t) key) = true ->
  IS_BASIC_KEYCODE code = true -> keeps (E := E) on ->
  (forall count pressed k, perform (the_action (world t) key) count pressed k
    = if pressed then if 0 <? count then register_code code k else on k
      else if 0 <? count then unregister_code code (tap_wait code k) else off k) ->
  report_pressed (shown (kb_of t)) code = false -> has_room (reports_of (kb_host (kb_of t))) code = true ->
  Forall (fun time => TIMER_DIFF_16 time t0 < dual_term t key) ticks ->
  let t1 := execs (down key t0 :: map MAKE_TICK_EVENT ticks) t in
  history (kb_of t1) = history (kb_of t)
  /\ (forall time, TIMER_DIFF_16 time t0 < dual_term t key ->
      tapped code (kb_of t) (kb_of (action_exec (up key time) t1)))
  /\ (forall time, ~ TIMER_DIFF_16 time t0 < dual_term t key ->
      let t2 := action_exec (MAKE_TICK_EVENT time) t1 in
      exists s2, prepared (world t) s2 /\ kb_of t2 = on (a_kb s2)
        /\ (get_retro_tapping (settings (fw_vial (world t))) = false -> forall time2,
             kb_of (action_exec (up key time2) t2) = off (on (a_kb s2)))).
Proof using cfg_ok.
  intros [R1 R2 R3 R4 R5 R6 R7 RI R8 R9] Hplain Htap Hb Hon Hperf Hup Hroom Hticks t1.
  assert (Hkeep : forall count, keeps (E := E) (perform (the_action (world t) key) count true)).
  { intros count k Hq. rewrite Hperf. destruct (0 <? count); [exact (keeps_register code Hb k Hq)|exact (Hon k Hq)]. }
  pose proof (ticks_wait t tk key t0 R1 R2 R3 R5 R7 R6 Hplain R8 RI R9 Htap Hkeep ticks Hticks) as Hw. fold t1 in Hw.
  split_and!.
  - pose proof Hw as (_ & Hp & _). by destruct (prepared_kb t (world t1) Hp R3 R4) as (_ & _ & Hh & _).
  - intros time Ht. destruct (dual_tap t tk key t0 R1 R2 R3 R5 R7 R6 Hplain R8 RI R9 Htap Hkeep t1 time Hw Ht) as (s2 & Hp & ->).
    rewrite !Hperf. by apply prepared_tapped.
  - intros time Ht t2. destruct (dual_hold t tk key t0 R1 R2 R3 R5 R7 R6 Hplain R8 RI R9 Htap Hkeep t1 time Hw Ht) as (s2 & Hp & Hk & Hk3).
    exists s2. rewrite Hperf in Hk. split; [exact Hp|]. split; [exact Hk|].
    intros Hret time2. unfold t2. by rewrite (Hk3 Hret time2), !Hperf.
Qed.


End theorems.

(** ** Witnesses *)

Definition start : tapping (act KeymapExample.store ActionExample.statics) :=
  mk_tapping zero_record (replicate 8 zero_record) 0 0
    (mk_act ActionExample.keyboard false 0 false 0 0 0 ActionExample.statics_start []).

Section witnesses.
#[local] Existing Instance KeymapExample.config.
#[local] Existing Instance KeymapExample.config_ok.
#[local] Existing Instance KeymapExample.laws.
#[local] Existing Instance ViaExample.qcfg.
#[local] Existing Instance MouseKey.mcfg.
Import ActionExample.

Lemma example_ready key : key_ok key -> the_keycode (world start) key < 0x5000 -> tap_ready start zero_record key.
Proof.
  intros Hk Hcode. split.
  - split; [exact (tapping_start_wf (world start))|done].
  - done.
  - done.
  - refine (proj1 (rest_level (kb_of start) _)). split_and!; reflexivity.
  - apply layers_start_wf.
  - done.
  - exact Hk.
  - done.
  - intros record _. by apply example_unclaimed.
  - done.
Qed.


End witnesses.
