(* ===== verification/ComboExec.v ===== *)
(** Combos between the key events and the tapping code: [action_exec] of
    [quantum/action.c] and [pre_process_record_quantum] of [quantum/quantum.c] in
    a build with combos. The combo code runs last of the code that looks at a
    record first, and feeds the tapping code itself. *)

From S2P Require Import Prelude.
From S2P Require Import Eeprom.
From S2P Require Import DynamicKeymap.
From S2P Require Import QmkSettings.
From S2P Require Import Vial.
From S2P Require Import KeymapCommon.
From S2P Require Import ActionLayer.
From S2P Require Import MouseKey.
From S2P Require Import Keyboard.
From S2P Require Import Combo.
From S2P Require Import ComboProofs.
From S2P Require Import ComboTheorems.
From S2P Require Import ComboChord.
From S2P Require Import ActionTapping.
From S2P Require Import ActionUtil.
From S2P Require Import Action.
From S2P Require Import Quantum.
From S2P Require Import KeymapBuffer.
From S2P Require Import ViaReset.
From S2P Require Import ActionProofs.
From S2P Require Import TappingTheorems.
From S2P Require Import DualRole.
From S2P Require Import DualRoleTheorems.

(** The table of the combo code is the one Vial keeps. *)
Definition reloaded_combos {E} (v : vial_state E) (c : combo_st) : combo_st :=
  set_key_combos (zip_with (fun ks output => mk_combo ks output false false 0)
                    (Vial.key_combos_keys v) (Vial.key_combos v)) c.

(** A feature that lets every record pass. *)
Definition pass {W : Type} : feature W := fun _ _ s => (true, s).

Section exec.
Context {E F : Type} {eeprom : Eeprom E} {cfg : KeymapConfig} {qcfg : QmkSettingsConfig} {mcfg : MouseKeyConfig}
        (all : Features (act E F)).
Implicit Types (event : keyevent_t) (record : keyrecord_t).

#[local] Existing Instance all.

#[export] Instance combo_host : ComboHost (tapping (act E F)) := {
  tapping_process := action_tapping_process;
  clear_weak := with_world (on_kb (with_mods clear_weak_mods));
  tap_record record t := is_tap_record record (world t);
  host_wait ms := with_world (on_kb (wait_ms ms));
  host_time t := now (a_kb (world t));
  get_combo_term t := QmkSettings.get_combo_term (settings (kb_vial (a_kb (world t))));
}.
Implicit Types (s : combined (tapping (act E F))).

(** [pre_process_record_quantum]. *)
Definition pre_process_with_combos record s : bool * combined (tapping (act E F)) :=
  let '(go, w) := quantum_pre_process record (world (below s)) in
  let s := on_below (set_world w) s in
  if negb go then (false, s)
  else
    let '(keycode, w) := record_keycode record true (world (below s)) in
    process_combo keycode record (on_below (set_world w) s).

Definition exec_with_combos event s : combined (tapping (act E F)) :=
  let s := on_below (with_world (retro_event event)) s in
  let s := if ev_pressed event then on_below (with_world (on_kb (with_mods clear_weak_mods))) s else s in
  let record := event_record event in
  let s := on_below (with_world (on_kb oneshot_timeouts)) s in
  if IS_NOEVENT event then on_below (action_tapping_process record) s
  else
    let '(go, s) := pre_process_with_combos record s in
    if go : bool then on_below (action_tapping_process record) s else s.

(** The features with one more that lets every record pass. *)
Definition with_pass : Features (act E F) := {|
  pre_features := pre_features ++ [pass];
  preprocess_tap_dance := preprocess_tap_dance;
  process_key_lock := process_key_lock;
  features := features;
  process_action_kb := process_action_kb;
  post_features := post_features;
|}.

Lemma pre_process_pass fs record (w : act E F) :
  pre_process (fs ++ [pass]) record w =
    let '(go, w) := pre_process fs record w in
    if go : bool then (true, (record_keycode record true w).2) else (false, w).
Proof using.
  revert w. induction fs as [|f fs IH]; intros w; cbn [app pre_process].
  - by destruct (record_keycode record true w).
  - destruct (record_keycode record true w) as [keycode w1]. destruct (f keycode record w1) as [[] w2]; [apply IH|done].
Qed.
End exec.

(** A keycode of no combo. *)
Definition free (c : combo_st) (kc : Z) : Prop :=
  is_control kc = false /\ forall j, 0 <= j < combo_count c -> ~ In kc (the_keys (combo_get c j)).

(** At rest such a key passes and changes nothing. *)
Lemma free_key_passes {W} {host : ComboHost W} {qcfg : QmkSettingsConfig} c (w : W) kc record :
  combos_rest c -> free c kc -> process_combo kc record (mk_combined c w) = (true, mk_combined c w).
Proof.
  intros Hrest [Hc Hfree]. unfold is_control in Hc.
  apply orb_false_iff in Hc as [[Hon Hoff]%orb_false_iff Htog]. unfold process_combo. rewrite Hon, Hoff, Htog. cbn [andb].
  assert (process_combo_table kc record (mk_combined c w) = (false, mk_combined c w)) as ->.
  { unfold process_combo_table. cbn [combos].
    assert (Hl : Forall (fun j => 0 <= j < combo_count c) (seqZ 0 (combo_count c))) by (apply Forall_seqZ; intros; lia).
    induction Hl as [|j l Hj _ IH]; [done|]. cbn [foldl]. unfold process_single_combo at 2. cbn [combos].
    destruct (find_key (combo_get c j) kc) as [i n] eqn:Ef. destruct (Z.eqb_spec i NONE16) as [|Hne]; [exact IH|].
    exfalso. apply (Hfree j Hj). apply (find_key_in _ _ NONE16 0). unfold find_key in Ef. by rewrite Ef. }
  rewrite andb_false_r. cbn [combos]. unfold combo_prepared. rewrite (rest_ring _ Hrest), Z.eqb_refl. cbn [negb].
  unfold dump_key_buffer. cbn [combos]. rewrite (rest_size _ Hrest), Z.eqb_refl. unfold on_combos. cbn [combos below]. do 2 f_equal.
  assert (Hmap : map (fun combo => if active combo then combo else RESET_COMBO_STATE combo) (key_combos c) = key_combos c).
  { apply list_eq. intros j. change (map ?f (key_combos c)) with (f <$> key_combos c). rewrite list_lookup_fmap.
    destruct (key_combos c !! j) as [combo|] eqn:Ej; [|done]. cbn. f_equal.
    destruct (rest_flags _ Hrest (Z.of_nat j)) as (Hd & Ha & Hs).
    { apply lookup_lt_Some in Ej. unfold combo_count, lenZ. lia. }
    unfold combo_get in *. rewrite Nat2Z.id, nth_lookup, Ej in *. cbn in *. destruct combo. cbn in *. by subst. }
  unfold clear_combos. cbn [set_timer key_combos]. rewrite Hmap. destruct Hrest, c. cbn in *. by subst.
Qed.

(** What [action_exec] does to the world before a record is looked at. *)
Definition exec_world {E F} {eeprom : Eeprom E} {cfg : KeymapConfig} {qcfg : QmkSettingsConfig} {mcfg : MouseKeyConfig}
    (event : keyevent_t) (w : act E F) : act E F :=
  let w := retro_event event w in
  on_kb oneshot_timeouts (if ev_pressed event then on_kb (with_mods clear_weak_mods) w else w).

(** C27: combos at rest are transparent: an event whose key, as it is looked up
    at that point, is in no combo is handled as in a build without combos, whose
    features have one more that lets every record pass; the combo code keeps its
    state. *)
Theorem idle_combos_transparent {E F : Type} {eeprom : Eeprom E} {cfg : KeymapConfig} {qcfg : QmkSettingsConfig}
    {mcfg : MouseKeyConfig} (all : Features (act E F)) c t event :
  combos_rest c ->
  (IS_EVENT event = true -> forall w, quantum_pre_process (event_record event) (exec_world event (world t)) = (true, w) ->
   free c (record_keycode (event_record event) true w).1) ->
  exec_with_combos all event (mk_combined c t) = mk_combined c (action_exec (processors := quantum_processors (all := with_pass all)) event t).
Proof.
  intros Hrest Hfree. unfold exec_with_combos, action_exec.
  assert (Hw : forall t1, t1 = set_world (exec_world event (world t)) t ->
    on_below (with_world (on_kb oneshot_timeouts))
      (if ev_pressed event then on_below (with_world (on_kb (with_mods clear_weak_mods)))
                                 (on_below (with_world (retro_event event)) (mk_combined c t))
       else on_below (with_world (retro_event event)) (mk_combined c t)) = mk_combined c t1
    /\ with_world (on_kb oneshot_timeouts)
      (if ev_pressed event then with_world (on_kb (with_mods clear_weak_mods)) (with_world (retro_event event) t)
       else with_world (retro_event event) t) = t1).
  { intros t1 ->. unfold exec_world. by destruct (ev_pressed event). }
  destruct (Hw _ eq_refl) as [-> Ht]. cbv zeta. rewrite Ht. clear Hw Ht. set (w1 := exec_world event (world t)) in *.
  destruct (IS_NOEVENT event) eqn:En; [done|].
  assert (He : IS_EVENT event = true) by (unfold IS_EVENT; unfold IS_NOEVENT in En; by rewrite En). specialize (Hfree He).
  unfold pre_process_with_combos. cbn [below on_below world set_world combos].
  change (pre_process_record_quantum (KeyProcessors := quantum_processors (all := with_pass all)) (event_record event) w1)
    with (pre_process (pre_features (Features := all) ++ [pass]) (event_record event) w1).
  rewrite pre_process_pass. fold (quantum_pre_process (all := all) (event_record event) w1).
  destruct (quantum_pre_process (event_record event) w1) as [[] w2] eqn:Ep; [|done]. cbn [negb].
  specialize (Hfree w2 eq_refl). destruct (record_keycode (event_record event) true w2) as [keycode w3].
  unfold on_below. cbn [below combos set_world world]. by rewrite free_key_passes.
Qed.

Section witness.
#[local] Existing Instance KeymapExample.config.
#[local] Existing Instance ViaExample.qcfg.
#[local] Existing Instance MouseKey.mcfg.

(** The shift key of the example keyboard is in none of the combos. *)
Lemma idle_combos_transparent_witness :
  exec_with_combos ActionExample.example_features (down ActionExample.shift_key 1000)
    (mk_combined (combos_start ComboExample.two_combos) start)
  = mk_combined (combos_start ComboExample.two_combos)
      (action_exec (processors := quantum_processors (all := with_pass ActionExample.example_features)) (down ActionExample.shift_key 1000) start).
Proof.
  apply (idle_combos_transparent ActionExample.example_features).
  - apply combo_start_rest. done.
  - intros _ w Hw.
    assert (w = (quantum_pre_process (all := ActionExample.example_features) (event_record (down ActionExample.shift_key 1000))
                   (exec_world (down ActionExample.shift_key 1000) (world start))).2) as -> by (by rewrite Hw).
    assert ((record_keycode (event_record (down ActionExample.shift_key 1000)) true
              (quantum_pre_process (all := ActionExample.example_features) (event_record (down ActionExample.shift_key 1000))
                 (exec_world (down ActionExample.shift_key 1000) (world start))).2).1 = 0x2204) as ->
      by (vm_compute; reflexivity).
    split; [done|]. intros j Hj. change (combo_count _) with 2 in Hj.
    assert (j = 0 \/ j = 1) as [-> | ->] by lia;
      [change (~ In 0x2204 [4; 5])|change (~ In 0x2204 [6; 7; 8])]; cbn; lia.
Defined.
End witness.
