(* ===== verification/KeyProcessorsProofs.v ===== *)
(** * What the small key processors do

    The reports the space cadet keys send, the key grave escape releases, the
    persistence of the magic keys, and the layers that tri layer and layer lock
    keep on. *)

From S2P Require Import Prelude.
From S2P Require Import Bitwise.
From S2P Require Import Eeprom.
From S2P Require Import DynamicKeymap.
From S2P Require Import KeymapBuffer.
From S2P Require Import Eeconfig.
From S2P Require Import QmkSettings.
From S2P Require Import Vial.
From S2P Require Import KeycodeConfig.
From S2P Require Import KeymapCommon.
From S2P Require Import ActionLayer.
From S2P Require Import Report.
From S2P Require Import MouseKey.
From S2P Require Import Keyboard.
From S2P Require Import VialDance.
From S2P Require Import ActionUtil.
From S2P Require Import HostReports.
From S2P Require Import ActionProofs.
From S2P Require Import KeyProcessors.
#[local] Set Default Proof Using "Type".

(** ** Modifiers *)

(** The modifier bits of [b] are free in [m]. *)
Definition mods_free (b : Z) (m : mods_st) : Prop := byte_range (real_mods m) /\ byte_range b /\ real_mods m .& b = 0.

Lemma add_del_mods b m : mods_free b m -> del_mods b (add_mods b m) = m.
Proof.
  intros (Hm & Hb & H0). unfold del_mods, add_mods, set_real. destruct m as [r]; simpl in *. f_equal.
  assert (Hr : (r .| b) .& Z.lnot b = r).
  { apply Z.bits_inj'. intros i Hi. apply (f_equal (fun z => Z.testbit z i)) in H0.
    rewrite Z.land_spec, Z.lor_spec, Z.lnot_spec by done. rewrite Z.land_spec, Z.bits_0 in H0.
    destruct (Z.testbit r i), (Z.testbit b i); done. }
  rewrite Hr. by apply u8_id.
Qed.

Lemma mod_bit_range code : byte_range (MOD_BIT code) /\ truthy (MOD_BIT code) = true.
Proof.
  unfold MOD_BIT. rewrite Z.shiftl_1_l.
  assert (H : 0 <= code .& 7 < 8) by (change 7 with (Z.ones 3); rewrite Z.land_ones by lia; apply Z.mod_pos_bound; lia).
  assert (Hp : 0 < 2 ^ (code .& 7) < 256).
  { split; [apply Z.pow_pos_nonneg; lia|]. change 256 with (2 ^ 8). apply Z.pow_lt_mono_r; lia. }
  split; [lia|]. unfold truthy. apply negb_true_iff, Z.eqb_neq. lia.
Qed.

Section host.
Context {E : Type} {eeprom : Eeprom E} {cfg : KeymapConfig} {mcfg : MouseKeyConfig}.
Implicit Types (k : kb E) (m : mods_st) (r : reports).

Lemma kbd_register_mods mods v m r out k : truthy mods = true -> oneshot_mods m = 0 -> kbd v m r out k ->
  kbd v (add_mods mods m) r (push (report_of (add_mods mods m) r) out) (register_mods mods k)
  /\ kbd v (del_mods mods m) r (push (report_of (del_mods mods m) r) out) (unregister_mods mods k).
Proof.
  intros Ht Ho Hk. unfold register_mods, unregister_mods. rewrite Ht. split; apply kbd_send, kbd_with_mods; done.
Qed.

Lemma kbd_wait ms v m r out k : kbd v m r out k -> kbd v m r out (wait_ms ms k).
Proof. by apply kbd_same. Qed.

Lemma kbd_tap code v m r out k : IS_BASIC_KEYCODE code = true -> oneshot_mods m = 0 -> is_key_pressed r code = false ->
  kbd v m r out k ->
  let r1 := add_key_to_report code r in let r2 := del_key_from_report code r1 in
  kbd v m r2 (push (report_of m r2) (push (report_of m r1) out)) (tap_code code k).
Proof.
  intros Hb Ho Hp Hk r1 r2. unfold tap_code, tap_code_delay. apply kbd_unregister; [done..|].
  apply kbd_wait. by apply kbd_register.
Qed.
End host.

(** ** Space cadet *)

Section cadet.
Import SpaceCadet.
Context {E : Type} {eeprom : Eeprom E} {cfg : KeymapConfig} {mcfg : MouseKeyConfig}.
Implicit Types (k : kb E) (m : mods_st) (r : reports).

Definition sends (hs : list host_report) (out : list host_report) : list host_report :=
  foldl (fun out h => push h out) out hs.

(** What a tap sends when the modifier is already down: the modifier changes to
    the one of the tap, the key goes down and up, the modifier goes up. *)
Definition tap_reports (hold tap key : Z) m r : list host_report :=
  let mt := if IS_MODIFIER_KEYCODE tap then add_mods (MOD_BIT tap) m else m in
  let r1 := add_key_to_report key r in let r2 := del_key_from_report key r1 in
  (if hold =? tap then [] else report_of m r :: if IS_MODIFIER_KEYCODE tap then [report_of mt r] else [])
  ++ [report_of mt r1; report_of mt r2]
  ++ (if IS_MODIFIER_KEYCODE tap then [report_of m r2] else []).

Lemma cadet_keys_ok keycode hold tap key : cadet_keys keycode = Some (hold, tap, key) ->
  IS_MODIFIER_KEYCODE hold = true /\ IS_BASIC_KEYCODE key = true /\ hold <> 0 /\
  (IS_MODIFIER_KEYCODE tap = false -> hold <> tap).
Proof.
  unfold cadet_keys. repeat (case_if; [intros [= <- <- <-]; by split_and!|]). done.
Qed.

Lemma perform_tap keycode hold tap key record v m r out k c :
  IS_MODIFIER_KEYCODE hold = true -> IS_BASIC_KEYCODE key = true -> (IS_MODIFIER_KEYCODE tap = false -> hold <> tap) ->
  oneshot_mods m = 0 -> mods_free (MOD_BIT hold) m -> mods_free (MOD_BIT tap) m -> is_key_pressed r key = false ->
  pressed_of record = false -> sc_last c = hold -> TIMER_DIFF_16 (now k) (sc_timer c) < get_tapping_term v keycode ->
  kbd v (add_mods (MOD_BIT hold) m) r out k ->
  let s' := perform_space_cadet record keycode hold tap key (k, c) in
  s'.2 = c /\
  kbd v m (del_key_from_report key (add_key_to_report key r)) (sends (tap_reports hold tap key m r) out) s'.1.
Proof.
  intros Hh Hkey Hne Ho Hf1 Hf2 Hp Hr Hc Ht Hk. unfold perform_space_cadet. rewrite Hr, (kbd_vial _ _ _ _ _ Hk).
  rewrite (proj2 (Z.eqb_eq _ _) Hc), (proj2 (Z.ltb_lt _ _) Ht). cbn [andb negb]. split; [done|]. cbn [fst].
  unfold tap_reports, sends, if_mod. rewrite Hh. destruct (mod_bit_range hold) as [_ Th]. destruct (mod_bit_range tap) as [_ Tt].
  assert (Hoh : forall b, oneshot_mods (add_mods b m) = 0) by done.
  destruct (Z.eqb_spec hold tap) as [->|Hd]; cbn [negb].
  - rewrite Hh. cbn [app foldl]. pose proof (kbd_tap key v _ r out k Hkey (Hoh _) Hp Hk) as K1.
    destruct (kbd_register_mods (MOD_BIT tap) v _ _ _ _ Tt (Hoh _) K1) as [_ K2]. by rewrite (add_del_mods _ _ Hf1) in K2.
  - destruct (kbd_register_mods (MOD_BIT hold) v _ r out k Th (Hoh _) Hk) as [_ K1]. rewrite (add_del_mods _ _ Hf1) in K1.
    destruct (IS_MODIFIER_KEYCODE tap); cbn [app foldl].
    + destruct (kbd_register_mods (MOD_BIT tap) v m r _ _ Tt Ho K1) as [K2 _].
      pose proof (kbd_tap key v _ r _ _ Hkey (Hoh _) Hp K2) as K3.
      destruct (kbd_register_mods (MOD_BIT tap) v _ _ _ _ Tt (Hoh _) K3) as [_ K4]. by rewrite (add_del_mods _ _ Hf2) in K4.
    + by apply kbd_tap.
Qed.

(** A space cadet key is a modifier that types when tapped. Its press puts its
    modifier down. Released within the tapping term with nothing pressed since,
    it changes to the modifier of the tap, types its key and lifts the modifier;
    released later, or after another press, it lifts its modifier and types
    nothing, whatever was typed meanwhile. The record is claimed, and no modifier
    stays down. *)
Theorem space_cadet_taps keycode hold tap key press release v m r out k c :
  cadet_keys keycode = Some (hold, tap, key) -> pressed_of press = true -> pressed_of release = false ->
  oneshot_mods m = 0 -> mods_free (MOD_BIT hold) m -> mods_free (MOD_BIT tap) m -> is_key_pressed r key = false ->
  kbd v m r out k ->
  let m1 := add_mods (MOD_BIT hold) m in let out1 := push (report_of m1 r) out in
  let '(go, (k1, c1)) := process_space_cadet keycode press (k, c) in
  go = false /\ kbd v m1 r out1 k1 /\
  (forall k2, kbd v m1 r out1 k2 -> TIMER_DIFF_16 (now k2) (now k1) < get_tapping_term v keycode ->
    exists k3, process_space_cadet keycode release (k2, c1) = (false, (k3, c1)) /\
      kbd v m (del_key_from_report key (add_key_to_report key r)) (sends (tap_reports hold tap key m r) out1) k3) /\
  (forall r2 out2 k2 c2, kbd v m1 r2 out2 k2 ->
    (c2 = c1 /\ get_tapping_term v keycode <= TIMER_DIFF_16 (now k2) (now k1)
     \/ exists other s, cadet_keys other = None /\ c2 = (process_space_cadet other press s).2.2) ->
    exists k3, process_space_cadet keycode release (k2, c2) = (false, (k3, c2)) /\
      kbd v m r2 (push (report_of m r2) out2) k3).
Proof.
  intros Hkeys Hpress Hrel Ho Hf1 Hf2 Hp Hk m1 out1. destruct (cadet_keys_ok _ _ _ _ Hkeys) as (Hh & Hb & Hh0 & Hne).
  destruct (mod_bit_range hold) as [_ Th].
  assert (Hn : forall mods, now (register_mods mods k) = now k).
  { intros mods. unfold register_mods. destruct (truthy mods); [|done].
    destruct (send_calm (with_mods (add_mods mods) k)) as [h ->]; [|done]. simpl. by rewrite (kbd_mods _ _ _ _ _ Hk). }
  unfold process_space_cadet at 1. rewrite Hkeys. unfold perform_space_cadet, if_mod. rewrite Hpress, Hh.
  split; [done|]. split; [by apply kbd_register_mods|]. split.
  - intros k2 Hk2 Ht. rewrite Hn in Ht. unfold process_space_cadet. rewrite Hkeys.
    destruct (perform_tap keycode hold tap key release v m r out1 k2 (mk_cadet hold (now k)) Hh Hb Hne Ho Hf1 Hf2 Hp Hrel eq_refl Ht Hk2) as [E1 E2].
    destruct (perform_space_cadet release keycode hold tap key (k2, mk_cadet hold (now k))) as [k3 c3].
    exists k3. simpl in E1. by subst c3.
  - intros r2 out2 k2 c2 Hk2 Hc. unfold process_space_cadet. rewrite Hkeys. unfold perform_space_cadet, if_mod. rewrite Hrel, Hh.
    assert (Hno : (sc_last c2 =? hold) && (TIMER_DIFF_16 (now k2) (sc_timer c2) <? get_tapping_term (kb_vial k2) keycode) = false).
    { rewrite (kbd_vial _ _ _ _ _ Hk2). destruct Hc as [[-> Ht]|(other & s & Hother & ->)].
      - rewrite Hn in Ht. simpl. rewrite (proj2 (Z.ltb_ge _ _)), andb_false_r by done. done.
      - unfold process_space_cadet. rewrite Hother, Hpress. cbn [snd]. unfold reset_space_cadet. cbn [sc_last]. by rewrite (proj2 (Z.eqb_neq 0 hold)). }
    rewrite Hno. eexists. split; [reflexivity|].
    destruct (kbd_register_mods (MOD_BIT hold) v m1 r2 out2 k2 Th Ho Hk2) as [_ K]. unfold m1 in K. by rewrite (add_del_mods _ _ Hf1) in K.
Qed.
End cadet.

(** ** Grave escape *)

Section grave.
Import GraveEsc.
Context {E : Type} {eeprom : Eeprom E} {cfg : KeymapConfig} {mcfg : MouseKeyConfig}.
Implicit Types (k : kb E) (m : mods_st) (r : reports).

(** The modifiers and the setting that make escape of it all the same. *)
Definition escapes (mods : Z) k : bool :=
  (QS_grave_esc_bit 1 k && truthy (mods .& MOD_MASK_ALT)) || (QS_grave_esc_bit 2 k && truthy (mods .& MOD_MASK_CTRL))
  || (QS_grave_esc_bit 4 k && truthy (mods .& MOD_MASK_GUI)) || (QS_grave_esc_bit 8 k && truthy (mods .& MOD_MASK_SHIFT)).

Lemma shifted_spec k :
  let mods := real_mods (kb_mods k) in
  truthy (shifted k) = truthy (mods .& MOD_MASK_SG) && negb (escapes mods k).
Proof.
  cbv zeta. unfold shifted, escapes. set (mods := real_mods (kb_mods k)).
  destruct (QS_grave_esc_bit 1 k), (QS_grave_esc_bit 2 k), (QS_grave_esc_bit 4 k), (QS_grave_esc_bit 8 k); cbn [andb orb negb];
    destruct (truthy (mods .& MOD_MASK_ALT)), (truthy (mods .& MOD_MASK_CTRL)), (truthy (mods .& MOD_MASK_GUI)),
      (truthy (mods .& MOD_MASK_SHIFT)); cbn [andb orb negb]; rewrite ?andb_false_r, ?andb_true_r; done.
Qed.

(** Grave escape types a grave accent when shift or GUI is held and no setting
    overrides it, escape otherwise; and its release releases the key its press
    pressed, whatever modifiers and settings there are by then. *)
Lemma grave_esc_releases press release v m r out k was :
  oneshot_mods m = 0 -> pressed_of press = true -> pressed_of release = false -> kbd v m r out k ->
  let key := if truthy (real_mods m .& MOD_MASK_SG) && negb (escapes (real_mods m) k) then KC_GRAVE else KC_ESCAPE in
  exists k1 was1, process_grave_esc QK_GRAVE_ESCAPE press (k, was) = (false, (k1, was1)) /\
    kbd v m (add_key_to_report key r) (push (report_of m (add_key_to_report key r)) out) k1 /\
    forall v2 m2 r2 out2 k2, oneshot_mods m2 = 0 -> kbd v2 m2 r2 out2 k2 ->
      exists k3, process_grave_esc QK_GRAVE_ESCAPE release (k2, was1) = (false, (k3, was1)) /\
        kbd v2 m2 (del_key_from_report key r2) (push (report_of m2 (del_key_from_report key r2)) out2) k3.
Proof.
  intros Ho Hp Hr Hk key. unfold process_grave_esc. rewrite Z.eqb_refl, Hp, Hr.
  assert (Hs : truthy (shifted k) = truthy (real_mods m .& MOD_MASK_SG) && negb (escapes (real_mods m) k)).
  { rewrite shifted_spec. by rewrite (kbd_mods _ _ _ _ _ Hk). }
  rewrite Hs. fold key. do 2 eexists. split; [reflexivity|].
  assert (Hb : IS_BASIC_KEYCODE key = true) by (unfold key; by destruct (_ && _)).
  split; [by apply kbd_send, kbd_add|]. intros v2 m2 r2 out2 k2 Ho2 Hk2. fold key. eexists. split; [reflexivity|].
  by apply kbd_send, kbd_del.
Qed.
End grave.

(** ** The magic keys *)

Section magic.
Import Magic.

Lemma put_bit_spec i b raw j : 0 <= i -> Z.testbit (put_bit i b raw) j = if j =? i then b else Z.testbit raw j.
Proof.
  intros Hi. unfold put_bit. rewrite (Z.eqb_sym j i). destruct b.
  - rewrite Z.setbit_eqb by done. by destruct (i =? j).
  - rewrite Z.clearbit_eqb by done. destruct (i =? j); [by rewrite andb_false_r|by rewrite andb_true_r].
Qed.

Lemma put_bit_range i b raw : 0 <= i < 16 -> 0 <= raw < 2 ^ 16 -> 0 <= put_bit i b raw < 2 ^ 16.
Proof.
  intros Hi Hr. assert (H0 : 0 <= put_bit i b raw).
  { unfold put_bit. destruct b; [apply Z.lor_nonneg; split; [lia|]; apply Z.shiftl_nonneg; lia|].
    apply Z.ldiff_nonneg. lia. }
  split; [done|]. apply bounded_of_bits; [lia|done|]. intros j Hj. rewrite put_bit_spec by lia.
  rewrite (proj2 (Z.eqb_neq j i)) by lia. by apply (testbit_small raw 16).
Qed.

Lemma put_bits_spec fields b raw j : Forall (fun i => 0 <= i < 16) fields -> 0 <= raw < 2 ^ 16 ->
  0 <= foldl (fun raw i => put_bit i b raw) raw fields < 2 ^ 16 /\
  Z.testbit (foldl (fun raw i => put_bit i b raw) raw fields) j = if existsb (Z.eqb j) fields then b else Z.testbit raw j.
Proof.
  intros Hf. revert raw. induction Hf as [|i fields Hi _ IH]; intros raw Hr; [done|]. cbn [foldl existsb].
  destruct (IH _ (put_bit_range i b raw Hi Hr)) as [H1 H2]. split; [done|]. rewrite H2, put_bit_spec by lia.
  by destruct (existsb (Z.eqb j) fields), (j =? i).
Qed.

(** The options a magic key changes, and to what. *)
Definition magic_bits (mg : magic) (raw : Z) : list Z * bool :=
  match mg with
  | Assign fields value => (fields, value)
  | Toggle field follows => (field :: follows, negb (Z.testbit raw field))
  | Handedness _ => ([], false)
  end.

Lemma magic_of_fields keycode mg raw : magic_of keycode = Some mg -> Forall (fun i => 0 <= i < 16) (magic_bits mg raw).1.
Proof. unfold magic_of. repeat (case_if; [intros [= <-]; repeat constructor; done|]). done. Qed.

Lemma magic_raw_spec keycode mg raw : magic_of keycode = Some mg -> 0 <= raw < 2 ^ 16 ->
  0 <= magic_raw mg raw < 2 ^ 16 /\
  forall j, Z.testbit (magic_raw mg raw) j
    = if existsb (Z.eqb j) (magic_bits mg raw).1 then (magic_bits mg raw).2 else Z.testbit raw j.
Proof.
  intros Hm Hr. pose proof (magic_of_fields keycode mg raw Hm) as Hf. destruct mg as [fields b|f fs|h]; simpl in *; [| |done].
  - split; [by apply (put_bits_spec fields b raw 0)|intros j; by apply put_bits_spec].
  - change (foldl _ (put_bit f _ raw) fs) with (foldl (fun w i => put_bit i (negb (Z.testbit raw f)) w) raw (f :: fs)).
    split; [by apply (put_bits_spec (f :: fs) _ raw 0)|intros j; by apply (put_bits_spec (f :: fs))].
Qed.

Context {E : Type} {eeprom : Eeprom E} {laws : EepromLaws E} {cfg : KeymapConfig} {mcfg : MouseKeyConfig}.
Context (report_protocol : bool).
Implicit Types (k : kb E).

(** Sending a report and clearing the keyboard leave the settings alone. *)
Lemma send_keeps k : kb_vial (send_keyboard_report k) = kb_vial k /\
  reports_of (kb_host (send_keyboard_report k)) = reports_of (kb_host k) /\
  real_mods (kb_mods (send_keyboard_report k)) = real_mods (kb_mods k).
Proof.
  rewrite send_eq. cbv zeta.
  assert (H : kb_vial (get_mods_for_report k).2 = kb_vial k /\ kb_host (get_mods_for_report k).2 = kb_host k
              /\ real_mods (kb_mods (get_mods_for_report k).2) = real_mods (kb_mods k)).
  { unfold get_mods_for_report, clear_oneshot_mods. repeat case_if; split_and!; try done; cbn; by repeat case_if. }
  destruct H as (H1 & H2 & H3). case_if; [by rewrite H2|]. case_if; by cbn.
Qed.

Lemma clear_keyboard_keeps k :
  let k' := ActionUtil.clear_keyboard k in
  kb_vial k' = kb_vial k /\ reports_of (kb_host k') = clear_keys_from_report (reports_of (kb_host k)) /\
  real_mods (kb_mods k') = 0.
Proof.
  cbv zeta. unfold ActionUtil.clear_keyboard, clear_keyboard_but_mods, clear_keyboard_but_mods_and_keys.
  match goal with |- context [send_keyboard_report ?x] => destruct (send_keeps x) as (H1 & H2 & H3) end.
  cbn [with_mouse kb_vial kb_host kb_mods]. rewrite H1, H2, H3. by split_and!.
Qed.

Lemma stored_word (e : E) w : ee_wf e -> 6 <= ee_size -> 0 <= w < 2 ^ 16 ->
  eeconfig_read_keymap (eeconfig_update_keymap w e) = w.
Proof.
  intros Hw Hs Hr. unfold eeconfig_read_keymap, eeconfig_update_keymap, EECONFIG_KEYMAP.
  destruct (eeprom_update_word_spec e 4 w Hw ltac:(lia) ltac:(lia)) as [Hw' Hm].
  rewrite eeprom_read_word_spec by (done || lia). rewrite Hm.
  change 2 with (lenZ (le_bytes 2 w)). rewrite slice_blit; [|lia|rewrite (ee_len e Hw); change (lenZ (le_bytes 2 w)) with 2; lia].
  by apply le_val_bytes.
Qed.

Lemma stored_word_range (e : E) : ee_wf e -> 6 <= ee_size -> 0 <= eeconfig_read_keymap e < 2 ^ 16.
Proof.
  intros Hw Hs. unfold eeconfig_read_keymap, EECONFIG_KEYMAP. rewrite eeprom_read_word_spec by (done || lia).
  pose proof (le_val_range (slice (ee_mem e) 4 2) (bytes_slice _ _ _ (ee_bytes e Hw))) as H.
  rewrite lenZ_slice in H by lia. exact H.
Qed.

(** The key in two steps: the stored options are loaded, then changed. *)
Definition magic_loaded keycode k : kb E :=
  let k1 := set_keymap_config report_protocol (eeconfig_read_keymap (qs_eeprom (settings (kb_vial k)))) k in
  if changes_nkro keycode then ActionUtil.clear_keyboard k1 else k1.
Definition magic_changed mg k : kb E :=
  match mg with
  | Handedness is_left => on_eeprom (eeconfig_update_handedness is_left) k
  | _ => set_keymap_config report_protocol (magic_raw mg (keymap_word k)) k
  end.

Lemma process_magic_eq keycode mg record k :
  IS_MAGIC_KEYCODE keycode = true -> magic_of keycode = Some mg -> pressed_of record = true ->
  let k3 := magic_changed mg (magic_loaded keycode k) in
  process_magic report_protocol keycode record k
    = (false, ActionUtil.clear_keyboard (on_eeprom (eeconfig_update_keymap (keymap_word k3)) k3)).
Proof. intros Hmk Hmg Hp. unfold process_magic. rewrite Hp, Hmk, Hmg. by destruct mg. Qed.

(** A magic key changes the options it names and no other, for good. Pressed
    on a keyboard with any stored options, it leaves the options of the firmware
    equal to the stored ones, in which exactly its options have their new value
    ([Assign] a given one, [Toggle] the opposite of its first option) and all
    others are what was stored before, also where the firmware's copy had
    drifted from the store; the kind of report follows the NKRO option; and no
    key and no modifier is left pressed. *)
Theorem magic_keys_persist keycode mg record k :
  IS_MAGIC_KEYCODE keycode = true -> magic_of keycode = Some mg -> pressed_of record = true ->
  let e := qs_eeprom (settings (kb_vial k)) in
  ee_wf e -> 15 <= ee_size ->
  let '(go, k') := process_magic report_protocol keycode record k in
  let e' := qs_eeprom (settings (kb_vial k')) in
  go = false /\ eeconfig_read_keymap e' = keymap_word k' /\
  (forall j, Z.testbit (keymap_word k') j
     = if existsb (Z.eqb j) (magic_bits mg (eeconfig_read_keymap e)).1
       then (magic_bits mg (eeconfig_read_keymap e)).2 else Z.testbit (eeconfig_read_keymap e) j) /\
  nkro_active (reports_of (kb_host k')) = report_protocol && nkro (keymap_word k') /\
  has_anykey (reports_of (kb_host k')) = 0 /\ real_mods (kb_mods k') = 0.
Proof.
  intros Hmk Hmg Hp e Hw Hs. rewrite (process_magic_eq keycode mg) by done.
  pose proof (stored_word_range e Hw ltac:(lia)) as Hr. set (w := eeconfig_read_keymap e) in *.
  set (k2 := magic_loaded keycode k).
  assert (H2 : kb_vial k2 = kb_vial (set_keymap_config report_protocol w k) /\
               nkro_active (reports_of (kb_host k2)) = report_protocol && nkro w).
  { unfold k2, magic_loaded. fold e. fold w. destruct (changes_nkro keycode); [|done].
    destruct (clear_keyboard_keeps (set_keymap_config report_protocol w k)) as (-> & -> & _).
    split; [done|]. by rewrite nkro_clear. }
  destruct H2 as [Hv2 Hn2]. assert (Hw2 : keymap_word k2 = w) by (unfold keymap_word; by rewrite Hv2).
  assert (He2 : qs_eeprom (settings (kb_vial k2)) = e) by (by rewrite Hv2).
  destruct (magic_raw_spec keycode mg w Hmg Hr) as [Hraw Hbits].
  set (k3 := magic_changed mg k2). clearbody k2.
  assert (H3 : keymap_word k3 = magic_raw mg w /\ nkro_active (reports_of (kb_host k3)) = report_protocol && nkro (keymap_word k3)
               /\ ee_wf (qs_eeprom (settings (kb_vial k3)))).
  { unfold k3, magic_changed. destruct mg as [fields b|f fs|h]; rewrite ?Hw2.
    - split_and!; [done|done|]. simpl. by rewrite He2.
    - split_and!; [done|done|]. simpl. by rewrite He2.
    - split_and!; [exact Hw2|rewrite <- Hw2 in Hn2; exact Hn2|]. simpl. rewrite He2.
      unfold eeconfig_update_handedness, EECONFIG_HANDEDNESS.
      by destruct (eeprom_update_byte_spec e 14 (b2z h) Hw ltac:(lia) ltac:(lia)). }
  destruct H3 as (Hw3 & Hn3 & He3).
  set (k4 := on_eeprom (eeconfig_update_keymap (keymap_word k3)) k3).
  destruct (clear_keyboard_keeps k4) as (Hv5 & Hr5 & Hm5). set (k5 := ActionUtil.clear_keyboard k4) in *.
  assert (Hw5 : keymap_word k5 = magic_raw mg w) by (unfold keymap_word; rewrite Hv5; exact Hw3).
  split_and!; [done| | | | |done].
  - rewrite Hv5. simpl. rewrite Hw5, Hw3. apply stored_word; [done|lia|done].
  - intros j. rewrite Hw5. apply Hbits.
  - rewrite Hr5, nkro_clear, Hw5, <- Hw3. exact Hn3.
  - rewrite Hr5. set (r := reports_of (kb_host k4)). destruct r as [b ks bs].
    destruct b; vm_compute; reflexivity.
Qed.
End magic.

(** ** Tri layer *)

Section tri_layer.
Import TriLayer.
Context {cfg : KeymapConfig}.

(** The keys of the feature, by the layer they switch. *)
Definition tri_keys (t : tri) (evs : list (bool * keyrecord_t)) (s : layer_st) : layer_st :=
  foldl (fun s '(lower, record) =>
    (process_tri_layer t (if lower : bool then QK_TRI_LAYER_LOWER else QK_TRI_LAYER_UPPER) record s).2) s evs.

(** After any sequence of presses and releases of the two keys the third layer is
    on exactly when both others are. *)
Lemma tri_layer_adjusts t evs s :
  0 <= lower_layer t < LAYER_STATE_BITS -> 0 <= upper_layer t < LAYER_STATE_BITS ->
  0 <= adjust_layer t < LAYER_STATE_BITS -> adjust_layer t <> lower_layer t -> adjust_layer t <> upper_layer t ->
  evs <> [] ->
  let on i := Z.testbit (layer_state (tri_keys t evs s)) i in
  on (adjust_layer t) = on (lower_layer t) && on (upper_layer t).
Proof.
  intros Hl Hu Ha Hal Hau Hne. destruct evs as [|ev evs _] using rev_ind; [done|]. unfold tri_keys. rewrite foldl_app. cbn [foldl].
  set (s1 := foldl _ s evs). destruct ev as [lower record].
  assert (exists s2, (process_tri_layer t (if lower : bool then QK_TRI_LAYER_LOWER else QK_TRI_LAYER_UPPER) record s1).2
          = update_tri_layer (lower_layer t) (upper_layer t) (adjust_layer t) s2) as [s2 ->]
    by (destruct lower; eexists; reflexivity).
  pose proof (fun i Hi => proj1 (proj2 (proj2 (proj2 (proj2 (proj2 (proj2 (proj2 (proj2
    (layer_operations_pointwise s2 (lower_layer t) (upper_layer t) (adjust_layer t) 0 i Hl Hu Ha Hal Hau Hi)))))))))) as Hx.
  cbv beta in Hx. rewrite !Hx by done. rewrite Z.eqb_refl. by rewrite !(proj2 (Z.eqb_neq _ (adjust_layer t))) by done.
Qed.
End tri_layer.

(** ** Layer lock *)

Section layer_lock.
Import LayerLock.
Context {E : Type} {eeprom : Eeprom E} {cfg : KeymapConfig} {cfg_ok : KeymapConfigOk} {mcfg : MouseKeyConfig}
        {lcfg : LayerLockConfig}.
Implicit Types (s : locks E).

Definition masks_wf s : Prop :=
  0 <= locked_layers s < 2 ^ LAYER_STATE_BITS /\ 0 <= lk_state s < 2 ^ LAYER_STATE_BITS.
Definition locked s (j : Z) : bool := Z.testbit (locked_layers s) j.
Definition on s (j : Z) : bool := Z.testbit (lk_state s) j.
(** Locked and still on: another key may have switched the layer off. *)
Definition held s (j : Z) : bool := locked s j && on s j.

Lemma is_layer_locked_spec layer s : masks_wf s -> 0 <= layer -> is_layer_locked layer s = locked s layer.
Proof.
  intros [Hl _] H0. unfold is_layer_locked, layer_mask, locked. pose proof (LAYER_STATE_BITS_nonneg).
  destruct (Z.lt_ge_cases layer LAYER_STATE_BITS) as [Hlt|Hge]; [by apply truthy_mask|].
  rewrite (testbit_small _ LAYER_STATE_BITS) by done.
  assert (layer_state_t (1 << layer) = 0) as ->; [|by rewrite Z.land_0_r].
  unfold layer_state_t. fold LAYER_STATE_BITS. rewrite Z.shiftl_1_l.
  replace layer with (LAYER_STATE_BITS + (layer - LAYER_STATE_BITS)) by lia. rewrite Z.pow_add_r by lia.
  rewrite Z.mul_comm. apply Z.mod_mul. apply Z.pow_nonzero; lia.
Qed.

Lemma highest_layer_range s : masks_wf s -> 0 <= get_highest_layer (lk_state s) < LAYER_STATE_BITS.
Proof using cfg_ok.
  intros [_ Hs]. unfold get_highest_layer.
  assert (Hlog : 0 <= Z.log2 (lk_state s) < LAYER_STATE_BITS).
  { split; [apply Z.log2_nonneg|].
    pose proof max_layer_fits. fold LAYER_STATE_BITS in *.
    destruct (Z.eq_dec (lk_state s) 0) as [H0|]; [rewrite H0; change (Z.log2 0) with 0; lia|].
    apply (proj1 (Z.log2_lt_pow2 (lk_state s) LAYER_STATE_BITS ltac:(lia))); lia. }
  destruct layer_bits_cases as [H|[H|H]]; unfold LAYER_STATE_BITS in *; rewrite H in *; cbn [Z.eqb Pos.eqb].
  - by rewrite (proj1 (proj1 (proj2 (bit_functions (lk_state s) 0 0 0 Hs ltac:(lia) ltac:(lia) ltac:(lia))))).
  - by rewrite (proj1 (proj2 (proj1 (proj2 (bit_functions 0 (lk_state s) 0 0 ltac:(lia) Hs ltac:(lia) ltac:(lia)))))).
  - by rewrite (proj2 (proj2 (proj1 (proj2 (bit_functions 0 0 (lk_state s) 0 ltac:(lia) ltac:(lia) Hs ltac:(lia)))))).
Qed.

(** The layer state and the locks are all that matter. *)
Lemma trigger_masks s : locked_layers (layer_lock_activity_trigger s) = locked_layers s /\
  lk_kb (layer_lock_activity_trigger s) = lk_kb s.
Proof. unfold layer_lock_activity_trigger. by case_if. Qed.

(** Inverting the lock of a layer locks it and switches it on, or unlocks it and
    switches it off; the other layers stay as they are. *)
Lemma invert_spec layer s j : masks_wf s -> 0 <= layer < LAYER_STATE_BITS -> 0 <= j < LAYER_STATE_BITS ->
  locked (layer_lock_invert layer s) j = xorb (j =? layer) (locked s j) /\
  on (layer_lock_invert layer s) j = (if j =? layer then negb (locked s layer) else on s j).
Proof.
  intros Hw Hl Hj. unfold layer_lock_invert. set (mask := layer_mask layer).
  assert (Hm : (locked_layers s .& mask =? 0) = negb (locked s layer)).
  { pose proof (is_layer_locked_spec layer s Hw ltac:(lia)) as H. unfold is_layer_locked, truthy in H.
    fold mask in H. rewrite <- H. by rewrite negb_involutive. }
  assert (Hx : forall s1, locked_layers s1 = locked_layers s ->
            locked (set_locked_layers (locked_layers s1 .^ mask) s1) j = xorb (j =? layer) (locked s j)).
  { intros s1 E1. unfold locked, set_locked_layers. cbn [locked_layers]. rewrite E1, Z.lxor_spec.
    unfold mask, layer_mask. rewrite testbit_mask by done. apply xorb_comm. }
  rewrite Hm. destruct (locked s layer) eqn:El; cbn [negb].
  - split; [by apply Hx|]. unfold on, lk_state, lk_layers, on_lk, set_locked_layers. cbn.
    unfold layer_off, layer_state_set, layer_state_set_kb, layer_state_set_user. cbn [layer_state].
    rewrite ?testbit_layer_state_t, ?Z.land_spec, ?Z.lnot_spec, testbit_mask by (done || lia).
    destruct (j =? layer); [by rewrite andb_false_r|by rewrite andb_true_r].
  - set (s1 := if layer =? get_oneshot_layer (lk_kb s) then on_lk reset_oneshot_layer s else s).
    assert (H1 : locked_layers s1 = locked_layers s /\ kb_layers (lk_kb s1) = kb_layers (lk_kb s))
      by (unfold s1; by case_if).
    destruct (trigger_masks (lk_layers (layer_on layer) s1)) as [T1 T2]. split; [apply Hx; rewrite T1; apply H1|].
    unfold on, lk_state, set_locked_layers. cbn [lk_kb]. rewrite T2. unfold lk_layers, on_lk. cbn. rewrite (proj2 H1).
    unfold layer_on, layer_state_set, layer_state_set_kb, layer_state_set_user. cbn [layer_state].
    rewrite ?testbit_layer_state_t, ?Z.lor_spec, testbit_mask by (done || lia).
    destruct (j =? layer); [by rewrite orb_true_r|by rewrite orb_false_r].
Qed.

(** The layer whose key this is: [MO], [TT] or [LM]. *)
Definition layer_of_key (keycode : Z) : option Z :=
  if in_range QK_MOMENTARY_MIN QK_MOMENTARY_MAX keycode || in_range QK_LAYER_TAP_TOGGLE_MIN QK_LAYER_TAP_TOGGLE_MAX keycode
  then Some (keycode .& 0x1F)
  else if in_range QK_LAYER_MOD_MIN QK_LAYER_MOD_MAX keycode then Some (QK_LAYER_MOD_GET_LAYER keycode) else None.

(** The layer whose lock the event inverts. *)
Definition inverted keycode record s : option Z :=
  if pressed_of record then
    if keycode =? QK_LAYER_LOCK then Some (get_highest_layer (lk_state s))
    else match layer_of_key keycode with Some l => if held s l then Some l else None | None => None end
  else None.

(** The events that go no further: the lock key, the keys of a locked layer, and
    the release of a layer-tap key held for one. *)
Definition claimed keycode record s : bool :=
  (keycode =? QK_LAYER_LOCK)
  || match layer_of_key keycode with
     | Some l => held s l
     | None => in_range QK_LAYER_TAP_MIN QK_LAYER_TAP_MAX keycode && (tap_count (rec_tap record) =? 0)
               && negb (pressed_of record) && held s (QK_LAYER_TAP_GET_LAYER keycode)
     end.

Lemma held_in_range s l : masks_wf s -> 0 <= l -> held s l = true -> 0 <= l < LAYER_STATE_BITS.
Proof.
  intros [_ Hs] H0 Hh. split; [done|]. apply andb_true_iff in Hh as [_ Hon].
  destruct (Z.lt_ge_cases l LAYER_STATE_BITS); [done|]. unfold on in Hon. by rewrite (testbit_small _ LAYER_STATE_BITS) in Hon.
Qed.

(** The first lines of the processor: layers that were switched off are not locked. *)
Definition refreshed s : locks E :=
  let s := layer_lock_activity_trigger s in
  if negb (locked_layers s .& Z.lnot (lk_state s) =? 0)
  then set_locked_layers (locked_layers s .& lk_state s) s else s.

Lemma refreshed_spec s : masks_wf s ->
  masks_wf (refreshed s) /\ lk_kb (refreshed s) = lk_kb s /\ forall j, 0 <= j -> locked (refreshed s) j = held s j.
Proof.
  intros [Hl Hs]. destruct (trigger_masks s) as [T1 T2]. unfold refreshed, held, locked, on.
  assert (Hst : lk_state (layer_lock_activity_trigger s) = lk_state s) by (unfold lk_state; by rewrite T2).
  rewrite T1, Hst. case_if; unfold set_locked_layers; cbn [lk_kb locked_layers].
  - split; [|split; [done|intros; apply Z.land_spec]]. split; cbn; [|unfold lk_state; cbn; rewrite T2; exact Hs].
    apply land_range_l; [apply LAYER_STATE_BITS_nonneg|done].
  - split; [split; [by rewrite T1|by rewrite Hst]|]. split; [done|]. intros j Hj. rewrite T1.
    apply (f_equal (fun z => Z.testbit z j)) in E0. rewrite Z.land_spec, Z.lnot_spec, Z.bits_0 in E0 by done.
    destruct (Z.testbit (locked_layers s) j), (Z.testbit (lk_state s) j); done.
Qed.

Lemma process_layer_lock_eq keycode record s : masks_wf s ->
  let s1 := refreshed s in
  process_layer_lock keycode record s =
    (negb (claimed keycode record s),
     match inverted keycode record s with
     | Some l => layer_lock_invert l s1
     | None =>
         if in_range QK_LAYER_MOD_MIN QK_LAYER_MOD_MAX keycode && held s (QK_LAYER_MOD_GET_LAYER keycode)
            && negb (pressed_of record)
         then on_lk (fun k => send_keyboard_report (with_mods clear_mods k)) s1 else s1
     end).
Proof.
  intros Hw s1. destruct (refreshed_spec s Hw) as (Hw1 & Hkb & Hl). fold s1 in Hw1, Hkb, Hl.
  assert (Hlock : forall l, 0 <= l -> is_layer_locked l s1 = held s l).
  { intros l H0. by rewrite is_layer_locked_spec, Hl. }
  assert (Hst : lk_state s1 = lk_state s) by (unfold lk_state; by rewrite Hkb).
  unfold process_layer_lock. fold (refreshed s). fold s1. unfold claimed, inverted, layer_of_key, handle_mo_or_tt.
  assert (N1 : 0 <= keycode .& 0x1F) by (apply Z.land_nonneg; lia).
  assert (N2 : 0 <= QK_LAYER_MOD_GET_LAYER keycode) by (apply Z.land_nonneg; lia).
  assert (N3 : 0 <= QK_LAYER_TAP_GET_LAYER keycode) by (apply Z.land_nonneg; lia).
  rewrite !Hlock by done. rewrite Hst.
  assert (Hmod : forall a b, in_range QK_MOMENTARY_MIN QK_MOMENTARY_MAX keycode = a ->
                 in_range QK_LAYER_TAP_TOGGLE_MIN QK_LAYER_TAP_TOGGLE_MAX keycode = b ->
                 (keycode =? QK_LAYER_LOCK) || a || b = true -> in_range QK_LAYER_MOD_MIN QK_LAYER_MOD_MAX keycode = false).
  { intros a b <- <-. unfold in_range, QK_MOMENTARY_MIN, QK_MOMENTARY_MAX, QK_LAYER_TAP_TOGGLE_MIN, QK_LAYER_TAP_TOGGLE_MAX,
      QK_LAYER_MOD_MIN, QK_LAYER_MOD_MAX, QK_LAYER_LOCK. intros H. apply andb_false_iff.
    rewrite !orb_true_iff, !andb_true_iff, !Z.leb_le, Z.eqb_eq in H. rewrite !Z.leb_gt. lia. }
  destruct (keycode =? QK_LAYER_LOCK); cbn [orb negb].
  { rewrite (Hmod _ _ eq_refl eq_refl eq_refl). by destruct (pressed_of record). }
  destruct (in_range QK_MOMENTARY_MIN QK_MOMENTARY_MAX keycode); cbn [orb].
  { rewrite (Hmod _ _ eq_refl eq_refl eq_refl). by destruct (pressed_of record), (held s (keycode .& 0x1F)). }
  destruct (in_range QK_LAYER_TAP_TOGGLE_MIN QK_LAYER_TAP_TOGGLE_MAX keycode).
  { rewrite (Hmod _ _ eq_refl eq_refl eq_refl). by destruct (pressed_of record), (held s (keycode .& 0x1F)). }
  destruct (in_range QK_LAYER_MOD_MIN QK_LAYER_MOD_MAX keycode).
  { by destruct (pressed_of record), (held s (QK_LAYER_MOD_GET_LAYER keycode)). }
  destruct (in_range QK_LAYER_TAP_MIN QK_LAYER_TAP_MAX keycode); destruct (pressed_of record); reflexivity.
Qed.

Lemma send_state (k : kb E) : kb_layers (send_keyboard_report k) = kb_layers k.
Proof.
  rewrite send_eq. cbv zeta. assert (H : kb_layers (get_mods_for_report k).2 = kb_layers k)
    by (unfold get_mods_for_report; by repeat case_if).
  by case_if.
Qed.

(** A locked layer stays on until it is unlocked. An event inverts the lock of
    at most one layer: the press of the lock key that of the highest layer that
    is on, the press of an [MO], [TT] or [LM] key that of its layer if it is
    locked. Locking switches the layer on and unlocking switches it off; every
    other layer keeps its lock, unless it was switched off by other means, and
    stays on or off as it was. So after every event the locked layers are on; and
    the events that would switch a locked layer off, such as the release of its
    momentary key, go no further. *)
Theorem layer_lock_holds keycode record s :
  masks_wf s ->
  let '(go, s') := process_layer_lock keycode record s in
  go = negb (claimed keycode record s) /\
  forall j, 0 <= j < LAYER_STATE_BITS ->
    let inverts := bool_decide (inverted keycode record s = Some j) in
    locked s' j = xorb inverts (held s j) /\ on s' j = (if inverts then negb (held s j) else on s j) /\
    (locked s' j = true -> on s' j = true).
Proof using cfg_ok.
  intros Hw. rewrite process_layer_lock_eq by done. destruct (refreshed_spec s Hw) as (Hw1 & Hkb & Hl). split; [done|].
  intros j Hj. set (s1 := refreshed s) in *. pose proof (Hl j ltac:(lia)) as Hlj.
  assert (Hon : on s1 j = on s j) by (unfold on, lk_state; by rewrite Hkb).
  destruct (inverted keycode record s) as [l|] eqn:Ei; cbv zeta.
  - assert (Hr : 0 <= l < LAYER_STATE_BITS).
    { unfold inverted in Ei. destruct (pressed_of record); [|done]. destruct (keycode =? QK_LAYER_LOCK).
      - injection Ei as <-. by apply highest_layer_range.
      - destruct (layer_of_key keycode) as [l'|] eqn:Ek; [|done]. destruct (held s l') eqn:Eh; [|done]. injection Ei as <-.
        apply (held_in_range s); [done| |done]. unfold layer_of_key in Ek.
        destruct (_ || _); [injection Ek as <-|destruct (in_range _ _ _); [injection Ek as <-|done]]; apply Z.land_nonneg; lia. }
    destruct (invert_spec l s1 j Hw1 Hr Hj) as [-> ->]. rewrite Hlj, Hon. rewrite (bool_decide_ext _ (j = l)) by (split; congruence).
    destruct (Z.eqb_spec j l) as [->|Hn].
    + rewrite bool_decide_true by done. rewrite Hlj. by destruct (held s l).
    + rewrite bool_decide_false by done. rewrite xorb_false_l. split_and!; [done..|]. unfold held. intros H. by apply andb_true_iff in H as [_ ?].
  - rewrite bool_decide_false by done. rewrite xorb_false_l.
    match goal with |- locked ?x _ = _ /\ _ => assert (Hx : locked x j = held s j /\ on x j = on s j) end.
    { case_if; [|by rewrite <- Hlj, <- Hon]. split; [exact Hlj|]. rewrite <- Hon. unfold on, lk_state, on_lk. cbn [lk_kb].
      by rewrite send_state. }
    destruct Hx as [-> ->]. split_and!; [done..|]. unfold held. intros H. by apply andb_true_iff in H as [_ ?].
Qed.
End layer_lock.

(** ** Examples

    The keyboard of [ActionProofs], whose tapping term is 200 ms. *)

Module ProcessorExample.
Definition event (pressed : bool) : keyrecord_t := event_record (MAKE_KEYEVENT 0 0 pressed 1000).
#[export] Instance lock_config : LayerLock.LayerLockConfig := { LayerLock.LAYER_LOCK_IDLE_TIMEOUT := 60000 }.
(** Layer 1 is held with a momentary key. *)
Definition held_layer : LayerLock.locks KeymapExample.store :=
  LayerLock.mk_locks (set_layers (mk_layers 2 0 [] []) example_kb) 0 0 5.
End ProcessorExample.

Section witnesses.
#[local] Existing Instance KeymapExample.config.
#[local] Existing Instance KeymapExample.config_ok.
#[local] Existing Instance KeymapExample.laws.
#[local] Existing Instance MouseKey.mcfg.
Import ProcessorExample.

Definition cadet_board : kb KeymapExample.store := ActionExample.keyboard.

Lemma cadet_board_kbd :
  kbd (kb_vial cadet_board) (mk_mods 0 0 0 0 0 0 0) (mk_reports false (memset 0 6) (memset 0 30)) [blank_report false] cadet_board.
Proof.
  destruct (rest_level cadet_board) as [[Hl _] _]; [by split_and!|]. by constructor.
Qed.

(** The left control key, tapped for 100 ms, types a left parenthesis. *)
Lemma space_cadet_taps_witness :
  exists k3, SpaceCadet.process_space_cadet SpaceCadet.LEFT_CTRL_PARENTHESIS_OPEN (event false)
      (let '(k1, c1) := (SpaceCadet.process_space_cadet SpaceCadet.LEFT_CTRL_PARENTHESIS_OPEN (event true)
                           (cadet_board, SpaceCadet.mk_cadet 0 0)).2 in (wait_ms 100 k1, c1))
    = (false, (k3, SpaceCadet.mk_cadet KC_LEFT_CTRL 1000)) /\
  map (fun h => (report_mods h, nthZ (report_data h) 0)) (history k3)
    = [(0, 0); (2, 0); (2, KC_9); (2, 0); (0, 0); (1, 0); (0, 0)].
Proof.
  pose proof (space_cadet_taps SpaceCadet.LEFT_CTRL_PARENTHESIS_OPEN KC_LEFT_CTRL KC_LEFT_SHIFT KC_9 (event true) (event false)
    (kb_vial cadet_board) (mk_mods 0 0 0 0 0 0 0) (mk_reports false (memset 0 6) (memset 0 30)) [blank_report false]
    cadet_board (SpaceCadet.mk_cadet 0 0) eq_refl eq_refl eq_refl eq_refl ltac:(by split_and!) ltac:(by split_and!)
    eq_refl cadet_board_kbd) as H.
  change (SpaceCadet.process_space_cadet SpaceCadet.LEFT_CTRL_PARENTHESIS_OPEN (event true) (cadet_board, SpaceCadet.mk_cadet 0 0))
    with (false, (register_mods 1 cadet_board, SpaceCadet.mk_cadet KC_LEFT_CTRL 1000)) in *.
  cbn [snd]. destruct H as (_ & Hk1 & Htap & _).
  destruct (Htap (wait_ms 100 (register_mods 1 cadet_board)) (kbd_wait 100 _ _ _ _ _ Hk1)) as (k3 & E & K3).
  - vm_compute. reflexivity.
  - exists k3. split; [exact E|]. rewrite (kbd_history _ _ _ _ _ K3). vm_compute. reflexivity.
Defined.

(** Caps lock becomes control, in the store too. *)
Lemma magic_keys_persist_witness :
  let k' := (Magic.process_magic true 0x7004 (event true) example_kb).2 in
  eeconfig_read_keymap (qs_eeprom (settings (kb_vial k'))) = keymap_word k' /\
  capslock_to_control (keymap_word k') = true /\ swap_lalt_lgui (keymap_word k') = false.
Proof.
  pose proof (magic_keys_persist true 0x7004 (Magic.Assign [Magic.CAPSLOCK_TO_CONTROL] true) (event true) example_kb eq_refl eq_refl eq_refl) as H.
  destruct (Magic.process_magic true 0x7004 (event true) example_kb) as [go k'] eqn:E0.
  destruct H as (_ & H1 & H2 & _).
  - apply KeymapExample.example_wf.
  - vm_compute. discriminate.
  - cbn [snd]. split; [exact H1|]. unfold capslock_to_control, swap_lalt_lgui. rewrite !H2. vm_compute. split; reflexivity.
Defined.

(** The layer of a momentary key is locked; its release goes no further. *)
Lemma layer_lock_holds_witness :
  let s1 := (LayerLock.process_layer_lock LayerLock.QK_LAYER_LOCK (event true) held_layer).2 in
  locked s1 1 = true /\
  (let '(go, s2) := LayerLock.process_layer_lock 0x5221 (event false) s1 in go = false /\ on s2 1 = true).
Proof.
  assert (Hw : masks_wf held_layer) by (split; split; vm_compute; congruence).
  pose proof (layer_lock_holds LayerLock.QK_LAYER_LOCK (event true) held_layer Hw) as H.
  destruct (LayerLock.process_layer_lock LayerLock.QK_LAYER_LOCK (event true) held_layer) as [go s1] eqn:E0.
  destruct H as [_ H]. specialize (H 1 ltac:(vm_compute; split; congruence)). cbn [snd]. cbv zeta in *. destruct H as (H & _ & _).
  split; [rewrite H; vm_compute; reflexivity|]. vm_compute in E0. injection E0 as _ <-. vm_compute. split; reflexivity.
Defined.
End witnesses.
