(* ===== verification/DynamicMacro.v ===== *)
(** * Dynamic macros

    [quantum/process_keycode/process_dynamic_macro.c]: two macros of key records
    that the user records and replays, in one array: the first from its
    beginning, the second from its end. A pointer into [macro_buffer] is its
    index, the directions are [1] and [-1]. The statics are the state of a
    feature of [Quantum]; replaying calls [process_record], which is a parameter
    here and is tied to the pipeline below. It is called with a pointer into the
    array, through which it may turn the press of the record into a release: it
    is given the record and that write. The build has no backlight, so the
    hooks do nothing, and neither [DYNAMIC_MACRO_NO_NESTING] nor a delay. *)

From S2P Require Import Prelude.
From S2P Require Import Eeprom.
From S2P Require Import DynamicKeymap.
From S2P Require Import QmkSettings.
From S2P Require Import KeycodeConfig.
From S2P Require Import KeymapCommon.
From S2P Require Import ActionLayer.
From S2P Require Import MouseKey.
From S2P Require Import Keyboard.
From S2P Require Import ActionUtil.
From S2P Require Import Action.
From S2P Require Import Quantum.
#[local] Set Default Proof Using "Type".

Class MacroConfig := { DYNAMIC_MACRO_SIZE : Z }.

Definition QK_DYNAMIC_MACRO_RECORD_START_1 : Z := 0x7C53.
Definition QK_DYNAMIC_MACRO_RECORD_START_2 : Z := 0x7C54.
Definition QK_DYNAMIC_MACRO_RECORD_STOP : Z := 0x7C55.
Definition QK_DYNAMIC_MACRO_PLAY_1 : Z := 0x7C56.
Definition QK_DYNAMIC_MACRO_PLAY_2 : Z := 0x7C57.

Record macros := mk_macros {
  macro_buffer : list keyrecord_t;
  macro_end : Z;
  r_macro_end : Z;
  macro_pointer : Z;
  macro_id : Z;
}.

(** The element a pointer points to. *)
Definition cell (buffer : list keyrecord_t) (p : Z) : keyrecord_t := default zero_record (buffer !! Z.to_nat p).

Section statics.
Context {mac : MacroConfig}.
Implicit Types (m : macros) (record : keyrecord_t).

Definition r_macro_buffer : Z := DYNAMIC_MACRO_SIZE - 1.

(** The initial values. *)
Definition macros_start : macros :=
  mk_macros (replicate (Z.to_nat DYNAMIC_MACRO_SIZE) zero_record) 0 r_macro_buffer 0 0.

Definition set_pointer (p : Z) m : macros := mk_macros (macro_buffer m) (macro_end m) (r_macro_end m) p (macro_id m).
Definition set_macro_id (i : Z) m : macros :=
  mk_macros (macro_buffer m) (macro_end m) (r_macro_end m) (macro_pointer m) i.
Definition set_macro_end (p : Z) m : macros :=
  mk_macros (macro_buffer m) p (r_macro_end m) (macro_pointer m) (macro_id m).
Definition set_r_macro_end (p : Z) m : macros :=
  mk_macros (macro_buffer m) (macro_end m) p (macro_pointer m) (macro_id m).
Definition store_record record m : macros :=
  mk_macros (<[Z.to_nat (macro_pointer m) := record]> (macro_buffer m)) (macro_end m) (r_macro_end m)
    (macro_pointer m) (macro_id m).

(** [event.pressed = false] through a pointer into the array. *)
Definition release_cell (p : Z) m : macros :=
  mk_macros (<[Z.to_nat p := set_pressed false (cell (macro_buffer m) p)]> (macro_buffer m)) (macro_end m)
    (r_macro_end m) (macro_pointer m) (macro_id m).

Definition dynamic_macro_record_key (buffer macro2_end direction : Z) record m : macros :=
  if negb (ev_pressed (rec_event record)) && (macro_pointer m =? buffer) then m
  else if negb (macro_pointer m - direction =? macro2_end) then
    let m := store_record record m in
    set_pointer (macro_pointer m + direction) m
  else m.

(** The loop that trims the keys held at the end; it goes over the macro once. *)
Fixpoint trim_loop (fuel : nat) (buffer : list keyrecord_t) (start p direction : Z) : Z :=
  match fuel with
  | O => p
  | S n =>
      if negb (p =? start) && ev_pressed (rec_event (cell buffer (p - direction)))
      then trim_loop n buffer start (p - direction) direction
      else p
  end.
Definition trim_fuel m : nat := S (length (macro_buffer m)).

Definition dynamic_macro_record_end (start p direction : Z) m : Z :=
  trim_loop (trim_fuel m) (macro_buffer m) start p direction.

Definition dynamic_macro_stop_recording m : macros :=
  let m :=
    if macro_id m =? 1 then set_macro_end (dynamic_macro_record_end 0 (macro_pointer m) 1 m) m
    else if macro_id m =? 2 then
      set_r_macro_end (dynamic_macro_record_end r_macro_buffer (macro_pointer m) (-1) m) m
    else m in
  set_macro_id 0 m.
End statics.

Section macros.
Context {E : Type} {eeprom : Eeprom E} {cfg : KeymapConfig} {qcfg : QmkSettingsConfig} {mcfg : MouseKeyConfig}
        {mac : MacroConfig}.
Implicit Types (s : act E macros) (record : keyrecord_t).

Definition on_macros (f : macros -> macros) s : act E macros :=
  mk_act (a_kb s) (disable_action_cache s) (magic_override s) (retro_tap_primed s) (retro_tap_curr_key s)
    (retro_tap_curr_mods s) (retro_tap_next_mods s) (f (feature_state s)) (resets s).

Definition clear_all s : act E macros := on_kb (fun k => with_layers layer_clear (clear_keyboard k)) s.

Definition dynamic_macro_record_start (buffer : Z) s : act E macros :=
  on_macros (set_pointer buffer) (clear_all s).

Section process.
Context (process_record : keyrecord_t -> (act E macros -> act E macros) -> act E macros -> act E macros).

(** The loop of [dynamic_macro_play], which reads the array as it is then and
    hands out a pointer into it. *)
Fixpoint play_loop (fuel : nat) (p last direction : Z) s : act E macros :=
  if p =? last then s
  else match fuel with
       | O => s
       | S n =>
           let s := process_record (cell (macro_buffer (feature_state s)) p) (on_macros (release_cell p)) s in
           play_loop n (p + direction) last direction s
       end.

(** A macro is no longer than the array. *)
Definition play_fuel : nat := Z.to_nat DYNAMIC_MACRO_SIZE.

Definition dynamic_macro_play (buffer last direction : Z) s : act E macros :=
  let saved_layer_state := layer_state (kb_layers (a_kb s)) in
  let s := clear_all s in
  let s := play_loop play_fuel buffer last direction s in
  on_kb (fun k => with_layers (layer_state_set saved_layer_state) (clear_keyboard k)) s.

Definition process_dynamic_macro (keycode : Z) record s : bool * act E macros :=
  let m := feature_state s in
  let pressed := ev_pressed (rec_event record) in
  if macro_id m =? 0 then
    if negb pressed then
      if keycode =? QK_DYNAMIC_MACRO_RECORD_START_1 then
        (false, on_macros (set_macro_id 1) (dynamic_macro_record_start 0 s))
      else if keycode =? QK_DYNAMIC_MACRO_RECORD_START_2 then
        (false, on_macros (set_macro_id 2) (dynamic_macro_record_start r_macro_buffer s))
      else if keycode =? QK_DYNAMIC_MACRO_PLAY_1 then (false, dynamic_macro_play 0 (macro_end m) 1 s)
      else if keycode =? QK_DYNAMIC_MACRO_PLAY_2 then
        (false, dynamic_macro_play r_macro_buffer (r_macro_end m) (-1) s)
      else (true, s)
    else (true, s)
  else if (keycode =? QK_DYNAMIC_MACRO_RECORD_START_1) || (keycode =? QK_DYNAMIC_MACRO_RECORD_START_2)
          || (keycode =? QK_DYNAMIC_MACRO_RECORD_STOP) then
    (false, if xorb pressed (negb (keycode =? QK_DYNAMIC_MACRO_RECORD_STOP))
            then on_macros dynamic_macro_stop_recording s else s)
  else
    (true,
     on_macros (fun m =>
       if macro_id m =? 1 then dynamic_macro_record_key 0 (r_macro_end m) 1 record m
       else if macro_id m =? 2 then dynamic_macro_record_key r_macro_buffer (macro_end m) (-1) record m
       else m) s).
End process.

(** ** In the pipeline

    [process_record] of a record that lies in memory: [release] is the write of
    [process_action] to it, just before the record is processed once more. *)
Definition process_record_at {processors : KeyProcessors (act E macros)} record (release : act E macros -> act E macros) s :
    act E macros :=
  (process_record_body (fun record s => process_record_n 1 record (release s)) record s).2.

(** The features of the firmware with dynamic macros before the others. A macro
    that replays the other one processes records inside the processing of a
    record, [depth] bounds how deep. *)
Fixpoint macro_features (rest : Features (act E macros)) (depth : nat) : Features (act E macros) :=
  {| pre_features := @pre_features _ rest;
     preprocess_tap_dance := @preprocess_tap_dance _ rest;
     process_key_lock := @process_key_lock _ rest;
     features :=
       process_dynamic_macro
         (fun record release s =>
            match depth with
            | O => s
            | S n => process_record_at (processors := quantum_processors (all := macro_features rest n)) record release s
            end)
       :: @features _ rest;
     process_action_kb := @process_action_kb _ rest;
     post_features := @post_features _ rest |}.
End macros.
