(* ===== verification/DynamicMacroProofs.v ===== *)
(** * What dynamic macros record and replay

    The array holds two lists of records; a recording replaces one of them by
    what was typed, as far as there is room, and leaves the other alone;
    replaying a macro processes its records in the order in which they were
    recorded, and turns those presses into releases that ended a one-shot layer. *)

From S2P Require Import Prelude.
From S2P Require Import Eeprom.
From S2P Require Import DynamicKeymap.
From S2P Require Import KeymapBuffer.
From S2P Require Import QmkSettings.
From S2P Require Import ViaReset.
From S2P Require Import Vial.
From S2P Require Import KeycodeConfig.
From S2P Require Import KeymapCommon.
From S2P Require Import ActionLayer.
From S2P Require Import Report.
From S2P Require Import MouseKey.
From S2P Require Import Keyboard.
From S2P Require Import ActionUtil.
From S2P Require Import HostReports.
From S2P Require Import Action.
From S2P Require Import Quantum.
From S2P Require Import ActionProofs.
From S2P Require Import DynamicMacro.
#[local] Set Default Proof Using "Type".

(** ** The two lists

    Slot [true] is the first macro, slot [false] the second, which is written
    backwards: the array is seen from the end of the slot. *)

Section slots.
Context {mac : MacroConfig}.
Implicit Types (m : macros) (record : keyrecord_t) (b : bool).

Abbreviation size := DYNAMIC_MACRO_SIZE.

Definition start_of b : Z := if b then 0 else r_macro_buffer.
Definition direction_of b : Z := if b then 1 else -1.
Definition end_of b m : Z := if b then macro_end m else r_macro_end m.
Definition id_of b : Z := if b then 1 else 2.
Definition at_offset b (i : Z) : Z := start_of b + direction_of b * i.

(** The first [n] elements of a slot. *)
Definition content b (n : nat) (buffer : list keyrecord_t) : list keyrecord_t :=
  map (fun i => cell buffer (at_offset b (Z.of_nat i))) (seq 0 n).

(** Slot [b] holds [l]. *)
Definition holds b (l : list keyrecord_t) m : Prop :=
  end_of b m = at_offset b (lenZ l) /\ content b (length l) (macro_buffer m) = l.

Definition sized m : Prop := lenZ (macro_buffer m) = size.

Lemma length_content b n buffer : length (content b n buffer) = n.
Proof. unfold content. by rewrite length_map, length_seq. Qed.

Lemma content_S b n buffer : content b (S n) buffer = content b n buffer ++ [cell buffer (at_offset b (Z.of_nat n))].
Proof. unfold content. by rewrite seq_S, map_app. Qed.

Lemma content_prefix b l1 l2 buffer : content b (length (l1 ++ l2)) buffer = l1 ++ l2 -> content b (length l1) buffer = l1.
Proof.
  unfold content. rewrite length_app, seq_app, map_app. intros H. apply app_inj_1 in H as [H _]; [done|].
  by rewrite length_map, length_seq.
Qed.

Lemma cell_insert buffer p q record : 0 <= p < lenZ buffer -> 0 <= q ->
  cell (<[Z.to_nat p := record]> buffer) q = if q =? p then record else cell buffer q.
Proof.
  intros Hp Hq. unfold cell, lenZ in *. destruct (Z.eqb_spec q p) as [->|].
  - by rewrite list_lookup_insert_eq by lia.
  - by rewrite list_lookup_insert_ne by lia.
Qed.

Lemma at_offset_range b i : 0 <= i < size -> 0 <= at_offset b i < size.
Proof. unfold at_offset, start_of, direction_of, r_macro_buffer. destruct b; lia. Qed.

Lemma at_offset_inj b i j : at_offset b i = at_offset b j -> i = j.
Proof. unfold at_offset, start_of, direction_of. destruct b; lia. Qed.

(** The slots meet when their lengths add up to the size of the array. *)
Lemma at_offset_opposite b i j : at_offset b i = at_offset (negb b) j <-> i + j = size - 1.
Proof. unfold at_offset, start_of, direction_of, r_macro_buffer. destruct b; simpl; lia. Qed.

Lemma content_write b n o record buffer : lenZ buffer = size -> Z.of_nat n <= o < size ->
  content b n (<[Z.to_nat (at_offset b o) := record]> buffer) = content b n buffer.
Proof.
  intros Hb Ho. apply map_ext_in. intros i Hi. apply in_seq in Hi.
  pose proof (at_offset_range b o ltac:(lia)). pose proof (at_offset_range b (Z.of_nat i) ltac:(lia)).
  rewrite cell_insert by lia. case_if; [|done]. apply at_offset_inj in E. lia.
Qed.

Lemma content_write_other b n o record buffer : lenZ buffer = size -> 0 <= o -> o + Z.of_nat n < size ->
  content (negb b) n (<[Z.to_nat (at_offset b o) := record]> buffer) = content (negb b) n buffer.
Proof.
  intros Hb Ho Hn. apply map_ext_in. intros i Hi. apply in_seq in Hi.
  pose proof (at_offset_range b o ltac:(lia)). pose proof (at_offset_range (negb b) (Z.of_nat i) ltac:(lia)).
  rewrite cell_insert by lia. case_if; [|done]. symmetry in E. apply at_offset_opposite in E. lia.
Qed.

(** A write into a slot. *)
Lemma content_update b n o record buffer : lenZ buffer = size -> (o < n)%nat -> Z.of_nat n <= size ->
  content b n (<[Z.to_nat (at_offset b (Z.of_nat o)) := record]> buffer) = <[o := record]> (content b n buffer).
Proof.
  intros Hb Ho Hn. apply list_eq. intros i. destruct (decide (i < n)%nat) as [Hi|Hi].
  - pose proof (at_offset_range b (Z.of_nat o) ltac:(lia)). pose proof (at_offset_range b (Z.of_nat i) ltac:(lia)).
    assert (Hc : forall l, content b n l !! i = Some (cell l (at_offset b (Z.of_nat i)))).
    { intros l. unfold content. rewrite list_lookup_fmap, lookup_seq_lt by lia. done. }
    rewrite Hc, cell_insert by lia. destruct (Nat.eq_dec i o) as [->|Hne].
    + by rewrite Z.eqb_refl, list_lookup_insert_eq by (by rewrite length_content).
    + rewrite list_lookup_insert_ne, Hc by done. case_if; [|done]. apply at_offset_inj in E. lia.
  - rewrite !lookup_ge_None_2; [done|..]; rewrite ?length_insert, length_content; lia.
Qed.

(** ** Recording

    [c] is what has been recorded so far. *)

Record recording b (other c : list keyrecord_t) m : Prop := mk_recording {
  rec_sized : sized m;
  rec_id : macro_id m = id_of b;
  rec_pointer : macro_pointer m = at_offset b (lenZ c);
  rec_content : content b (length c) (macro_buffer m) = c;
  rec_other : holds (negb b) other m;
  rec_room : lenZ c + lenZ other <= size;
}.

Definition is_press record : bool := ev_pressed (rec_event record).

(** The next record of a recording with room for [cap] records. *)
Definition record_next (cap : Z) (c : list keyrecord_t) record : list keyrecord_t :=
  if negb (is_press record) && (lenZ c =? 0) then c
  else if lenZ c <? cap then c ++ [record] else c.

Lemma record_key_step b other c record m :
  recording b other c m ->
  recording b other (record_next (size - lenZ other) c record)
    (dynamic_macro_record_key (start_of b) (end_of (negb b) m) (direction_of b) record m).
Proof.
  intros [Hs Hi Hp Hc [He Ho] Hr]. unfold dynamic_macro_record_key, record_next, is_press. rewrite Hp, He.
  assert (Hstart : (at_offset b (lenZ c) =? start_of b) = (lenZ c =? 0)).
  { unfold at_offset, direction_of. destruct (Z.eqb_spec (lenZ c) 0), b; b2p; try apply Z.eqb_eq; try apply Z.eqb_neq; lia. }
  rewrite Hstart. destruct (negb _ && _); [by split|].
  assert (Hfull : (at_offset b (lenZ c) - direction_of b =? at_offset (negb b) (lenZ other)) = negb (lenZ c <? size - lenZ other)).
  { unfold at_offset, start_of, direction_of, r_macro_buffer. destruct (Z.ltb_spec (lenZ c) (size - lenZ other)), b; simpl;
      try apply Z.eqb_eq; try apply Z.eqb_neq; lia. }
  rewrite Hfull, negb_involutive. case_if; [|by split].
  pose proof (lenZ_nonneg c). pose proof (lenZ_nonneg other). unfold sized in Hs.
  split; unfold sized, store_record; simpl; rewrite ?Hp.
  - unfold lenZ in *. by rewrite length_insert.
  - done.
  - rewrite lenZ_app. unfold lenZ at 3. simpl. unfold at_offset, direction_of. destruct b; lia.
  - rewrite length_app, Nat.add_1_r, content_S, content_write by (unfold lenZ in *; lia).
    f_equal; [done|]. f_equal. change (Z.of_nat (length c)) with (lenZ c).
    rewrite cell_insert by (rewrite ?Hs; apply at_offset_range; lia). by rewrite Z.eqb_refl.
  - split; [done|]. simpl. rewrite content_write_other; [done|done|done|unfold lenZ in *; lia].
  - rewrite lenZ_app. unfold lenZ at 2. simpl. lia.
Qed.

(** The records a macro keeps of what was typed. *)
Definition recorded (cap : Z) (typed : list keyrecord_t) : list keyrecord_t := foldl (record_next cap) [] typed.

(** Without the presses at its end. *)
Fixpoint drop_presses (l : list keyrecord_t) : list keyrecord_t :=
  match l with
  | r :: l' => if is_press r then drop_presses l' else l
  | [] => []
  end.
Definition trimmed (l : list keyrecord_t) : list keyrecord_t := rev (drop_presses (rev l)).

Lemma trimmed_snoc l record : trimmed (l ++ [record]) = if is_press record then trimmed l else l ++ [record].
Proof. unfold trimmed. rewrite rev_app_distr. simpl. case_if; [done|]. by rewrite <- (rev_involutive (l ++ _)), rev_app_distr. Qed.

Lemma trimmed_length l : (length (trimmed l) <= length l)%nat.
Proof.
  induction l as [|r l IH] using rev_ind; [done|]. rewrite trimmed_snoc, length_app. case_if; simpl; [|rewrite length_app; simpl]; lia.
Qed.

Lemma trimmed_prefix l : exists t, l = trimmed l ++ t.
Proof.
  induction l as [|r l [t IH]] using rev_ind; [by exists []|]. rewrite trimmed_snoc. case_if; [|by exists []; rewrite app_nil_r].
  exists (t ++ [r]). by rewrite app_assoc, <- IH.
Qed.

Lemma trim_loop_spec b buffer fuel c :
  content b (length c) buffer = c -> (length c < fuel)%nat ->
  trim_loop fuel buffer (start_of b) (at_offset b (lenZ c)) (direction_of b) = at_offset b (lenZ (trimmed c)).
Proof.
  revert fuel. induction c as [|r c IH] using rev_ind; intros fuel Hc Hf.
  - destruct fuel; simpl in *; [lia|]. unfold at_offset at 1. unfold lenZ at 1. simpl.
    by rewrite Z.mul_0_r, Z.add_0_r, Z.eqb_refl.
  - destruct fuel as [|fuel]; [lia|]. simpl. rewrite length_app in Hc, Hf. simpl in Hc, Hf.
    rewrite Nat.add_1_r, content_S in Hc. apply app_inj_tail in Hc as [Hc Hr].
    assert (Hl : lenZ (c ++ [r]) = lenZ c + 1) by (rewrite lenZ_app; done). rewrite Hl.
    replace (at_offset b (lenZ c + 1) - direction_of b) with (at_offset b (lenZ c))
      by (unfold at_offset, direction_of; destruct b; lia).
    pose proof (lenZ_nonneg c). destruct (Z.eqb_spec (at_offset b (lenZ c + 1)) (start_of b)) as [Hx|_].
    { unfold at_offset, direction_of in Hx. destruct b; lia. }
    cbn [negb andb]. change (Z.of_nat (length c)) with (lenZ c) in Hr. rewrite Hr. change (ev_pressed (rec_event r)) with (is_press r).
    rewrite trimmed_snoc. case_if; [|by rewrite Hl]. apply IH; [done|lia].
Qed.

(** The end of a recording. *)
Lemma stop_recording b other c m :
  recording b other c m ->
  let m' := dynamic_macro_stop_recording m in
  sized m' /\ macro_id m' = 0 /\ holds b (trimmed c) m' /\ holds (negb b) other m' /\
  lenZ (trimmed c) + lenZ other <= size.
Proof.
  intros [Hs Hi Hp Hc [He Ho] Hr] m'.
  assert (Hm : m' = set_macro_id 0 (if b then set_macro_end (at_offset b (lenZ (trimmed c))) m
                                    else set_r_macro_end (at_offset b (lenZ (trimmed c))) m)).
  { assert (Ht : trim_loop (trim_fuel m) (macro_buffer m) (start_of b) (macro_pointer m) (direction_of b) = at_offset b (lenZ (trimmed c))).
    { rewrite Hp. apply trim_loop_spec; [done|]. unfold trim_fuel, sized, lenZ in *. lia. }
    unfold m', dynamic_macro_stop_recording, dynamic_macro_record_end. rewrite Hi. unfold id_of.
    destruct b; simpl in *; by rewrite Ht. }
  clearbody m'. subst m'. destruct (trimmed_prefix c) as [t Ht]. pose proof (trimmed_length c).
  assert (Hct : content b (length (trimmed c)) (macro_buffer m) = trimmed c).
  { rewrite Ht in Hc. by apply content_prefix in Hc. }
  destruct b; split_and!; simpl; try done; unfold lenZ in *; lia.
Qed.
End slots.

(** ** Recording and replaying *)

Section sessions.
Context {E : Type} {eeprom : Eeprom E} {cfg : KeymapConfig} {qcfg : QmkSettingsConfig} {mcfg : MouseKeyConfig}
        {mac : MacroConfig} (process_record : keyrecord_t -> (act E macros -> act E macros) -> act E macros -> act E macros).
Implicit Types (s : act E macros) (m : macros) (record : keyrecord_t) (b : bool).

(** The array between two recordings. *)
Definition macros_hold (first second : list keyrecord_t) m : Prop :=
  sized m /\ macro_id m = 0 /\ holds true first m /\ holds false second m /\
  lenZ first + lenZ second <= DYNAMIC_MACRO_SIZE.

Definition record_key b : Z := if b then QK_DYNAMIC_MACRO_RECORD_START_1 else QK_DYNAMIC_MACRO_RECORD_START_2.
Definition play_key b : Z := if b then QK_DYNAMIC_MACRO_PLAY_1 else QK_DYNAMIC_MACRO_PLAY_2.

Definition ends_recording (keycode : Z) : bool :=
  (keycode =? QK_DYNAMIC_MACRO_RECORD_START_1) || (keycode =? QK_DYNAMIC_MACRO_RECORD_START_2)
  || (keycode =? QK_DYNAMIC_MACRO_RECORD_STOP).

(** What is typed: the keycode of each record, the record, and what the rest of
    the firmware does between it and the next. *)
Definition typed (evs : list (Z * keyrecord_t * (act E macros -> act E macros))) s : act E macros :=
  foldl (fun s '(keycode, record, rest) => rest (process_dynamic_macro process_record keycode record s).2) s evs.
Definition typing (ev : Z * keyrecord_t * (act E macros -> act E macros)) : Prop :=
  ends_recording ev.1.1 = false /\ forall s, feature_state (ev.2 s) = feature_state s.

Lemma recording_start b first second s record :
  macros_hold first second (feature_state s) -> is_press record = false ->
  let '(go, s1) := process_dynamic_macro process_record (record_key b) record s in
  go = false /\ recording b (if b then second else first) [] (feature_state s1).
Proof.
  intros (Hs & Hi & [Hf1 Hf2] & [Hg1 Hg2] & Hr) Hp. unfold process_dynamic_macro. rewrite Hi. unfold is_press in Hp. rewrite Hp.
  pose proof (lenZ_nonneg first). pose proof (lenZ_nonneg second).
  destruct b; simpl; (split; [done|]); split; simpl; try done; unfold lenZ at 1; simpl;
    try (unfold at_offset, direction_of; simpl; lia).
Qed.

Lemma recording_step b other c s ev :
  recording b other c (feature_state s) -> typing ev ->
  recording b other (record_next (DYNAMIC_MACRO_SIZE - lenZ other) c ev.1.2) (feature_state (typed [ev] s)).
Proof.
  intros Hr [He Hf]. destruct ev as [[keycode record] rest]. simpl in *. rewrite Hf. unfold process_dynamic_macro.
  unfold ends_recording in He. rewrite He, (rec_id _ _ _ _ Hr).
  pose proof (record_key_step b other c record _ Hr) as Hn. destruct b; simpl; by rewrite (rec_id _ _ _ _ Hr).
Qed.

Lemma recording_all b other evs : Forall typing evs -> forall c s, recording b other c (feature_state s) ->
  recording b other (foldl (record_next (DYNAMIC_MACRO_SIZE - lenZ other)) c (map (fun ev => ev.1.2) evs))
    (feature_state (typed evs s)).
Proof.
  induction 1 as [|ev evs Hev _ IH]; intros c s Hr; [done|].
  change (typed (ev :: evs) s) with (typed evs (typed [ev] s)). apply IH. by apply recording_step.
Qed.

(** The write through the pointer to the [i]th record of a slot. *)
Definition release_at b (i : Z) : act E macros -> act E macros := on_macros (release_cell (at_offset b i)).

(** The records from the [i]th on, processed one after the other. *)
Fixpoint replay b (i : Z) (l : list keyrecord_t) s : act E macros :=
  match l with
  | [] => s
  | record :: l => replay b (i + 1) l (process_record record (release_at b i) s)
  end.

(** None of them is a key of this feature, or if so it does nothing to the
    macros but the write through its own pointer: [l'] is what the records are
    after it. *)
Fixpoint leaves b (i : Z) (l l' : list keyrecord_t) s : Prop :=
  match l, l' with
  | [], [] => True
  | record :: l, record' :: l' =>
      let s' := process_record record (release_at b i) s in
      (record' = record /\ feature_state s' = feature_state s
       \/ record' = set_pressed false record /\ feature_state s' = release_cell (at_offset b i) (feature_state s))
      /\ leaves b (i + 1) l l' s'
  | _, _ => False
  end.

(** The array while slot [b], which held [done ++ l], is replayed from [l] on. *)
Definition replaying b (all other : list keyrecord_t) m : Prop :=
  sized m /\ macro_id m = 0 /\ holds b all m /\ holds (negb b) other m /\ lenZ all + lenZ other <= DYNAMIC_MACRO_SIZE.

Lemma replaying_release b d r l other m : replaying b (d ++ r :: l) other m ->
  replaying b (d ++ set_pressed false r :: l) other (release_cell (at_offset b (lenZ d)) m).
Proof.
  intros (Hs & Hi & [He Hc] & [He' Hc'] & Hr).
  assert (Hlen : lenZ (d ++ set_pressed false r :: l) = lenZ (d ++ r :: l)) by (by rewrite !lenZ_app, !lenZ_cons).
  assert (Hcell : cell (macro_buffer m) (at_offset b (lenZ d)) = r).
  { change (d ++ r :: l) with (d ++ [r] ++ l) in Hc. rewrite app_assoc in Hc. apply content_prefix in Hc.
    rewrite length_app, Nat.add_1_r, content_S in Hc. by apply app_inj_tail in Hc as [_ ?]. }
  assert (Hd : lenZ d < lenZ (d ++ r :: l)) by (rewrite lenZ_app, lenZ_cons; pose proof (lenZ_nonneg l); lia).
  pose proof (lenZ_nonneg other). pose proof (lenZ_nonneg d).
  split_and!; [unfold sized, release_cell; cbn; unfold lenZ; by rewrite length_insert|done| | |by rewrite Hlen].
  - split; [rewrite Hlen; by destruct b|].
    replace (length (d ++ set_pressed false r :: l)) with (length (d ++ r :: l)) by (by rewrite !length_app).
    cbn [release_cell macro_buffer]. rewrite Hcell. unfold lenZ in Hd |- *. rewrite content_update, Hc.
    + by rewrite insert_app_r_alt, Nat.sub_diag by lia.
    + done.
    + lia.
    + unfold lenZ in *. lia.
  - split; [by destruct b|]. cbn [release_cell macro_buffer].
    rewrite content_write_other; [done|done|lia|]. unfold lenZ in *. lia.
Qed.

Lemma play_loop_replays b other : forall l l' fuel d s, (length l <= fuel)%nat -> leaves b (lenZ d) l l' s ->
  replaying b (d ++ l) other (feature_state s) ->
  play_loop process_record fuel (at_offset b (lenZ d)) (at_offset b (lenZ (d ++ l))) (direction_of b) s
    = replay b (lenZ d) l s
  /\ replaying b (d ++ l') other (feature_state (replay b (lenZ d) l s)).
Proof.
  induction l as [|r l IH]; intros l' fuel d s Hf Hl Hm.
  - destruct l'; [|done]. rewrite app_nil_r in *. destruct fuel; simpl; by rewrite Z.eqb_refl.
  - destruct l' as [|r' l']; [done|]. destruct fuel as [|fuel]; simpl in Hf; [lia|]. simpl.
    destruct (Z.eqb_spec (at_offset b (lenZ d)) (at_offset b (lenZ (d ++ r :: l)))) as [Hx|_].
    { apply at_offset_inj in Hx. rewrite lenZ_app, lenZ_cons in Hx. pose proof (lenZ_nonneg l). lia. }
    pose proof Hm as (_ & _ & [_ Hc] & _).
    assert (Hr : cell (macro_buffer (feature_state s)) (at_offset b (lenZ d)) = r).
    { change (d ++ r :: l) with (d ++ [r] ++ l) in Hc. rewrite app_assoc in Hc. apply content_prefix in Hc.
      rewrite length_app, Nat.add_1_r, content_S in Hc. by apply app_inj_tail in Hc as [_ ?]. }
    rewrite Hr. destruct Hl as [H1 H2]. fold (release_at b (lenZ d)). set (s' := process_record r (release_at b (lenZ d)) s) in *.
    assert (Hlen : lenZ (d ++ [r']) = lenZ d + 1) by (by rewrite lenZ_app).
    assert (Hm' : replaying b ((d ++ [r']) ++ l) other (feature_state s')).
    { rewrite <- app_assoc. destruct H1 as [[-> ->]|[-> ->]]; [done|by apply replaying_release]. }
    rewrite <- Hlen in H2. specialize (IH l' fuel (d ++ [r']) s' ltac:(lia) H2 Hm').
    rewrite <- !app_assoc, Hlen in IH. simpl in IH. destruct IH as [IH1 IH2]. split; [|done]. rewrite <- IH1. f_equal.
    + unfold at_offset, direction_of. destruct b; lia.
    + by rewrite !lenZ_app, !lenZ_cons.
Qed.

Definition restored s0 s : act E macros :=
  on_kb (fun k => with_layers (layer_state_set (layer_state (kb_layers (a_kb s0)))) (clear_keyboard k)) s.

Lemma play_replays b first second s record l' :
  macros_hold first second (feature_state s) -> is_press record = false ->
  let l := if b then first else second in
  leaves b 0 l l' (clear_all s) ->
  let s' := restored s (replay b 0 l (clear_all s)) in
  process_dynamic_macro process_record (play_key b) record s = (false, s')
  /\ macros_hold (if b then l' else first) (if b then second else l') (feature_state s').
Proof.
  intros (Hs & Hi & Hf & Hg & Hr) Hp l Hk s'. unfold process_dynamic_macro. rewrite Hi. unfold is_press in Hp. rewrite Hp.
  assert (Hl : (length l <= play_fuel)%nat).
  { unfold play_fuel. pose proof (lenZ_nonneg first). pose proof (lenZ_nonneg second). unfold l. destruct b; unfold lenZ in *; lia. }
  destruct (play_loop_replays b (if b then second else first) l l' play_fuel [] (clear_all s) Hl Hk) as [H1 H2].
  { unfold l, replaying. split; [exact Hs|]. split; [exact Hi|]. destruct b; (split; [done|]; split; [done|]); cbn; lia. }
  change (lenZ []) with 0 in H1, H2. cbn [app] in H1, H2.
  replace (at_offset b 0) with (start_of b) in H1 by (unfold at_offset; lia).
  unfold l in *. destruct b; cbn in *; unfold dynamic_macro_play, s', restored.
  - rewrite (proj1 Hf : macro_end (feature_state s) = _), H1. split; [done|]. destruct H2 as (? & ? & ? & ? & ?). by repeat (split; [done|]).
  - rewrite (proj1 Hg : r_macro_end (feature_state s) = _). rewrite H1. split; [done|].
    destruct H2 as (? & ? & ? & ? & ?). repeat (split; [done|]). cbn in *. lia.
Qed.
End sessions.

(** C34: dynamic macros replay what was typed. With the macros [first] and [second]
    in the array, the release of a record key starts a recording; then anything
    is typed, with any processing of it in between; and a stop key ends it. The
    recorded macro is the list of the typed records, without releases at the
    start, cut at the room the other macro leaves, and without presses at the
    end; the other macro is what it was. Whenever the array holds two macros, the
    release of a play key clears the keyboard and the layers, processes exactly
    the records of its macro in their order, whichever end of the array they lie
    at, clears the keyboard again and restores the layers. Processing a record
    may write to it: the press of a key that ends a one-shot layer is a release
    from then on. The replayed macro differs from what it was in just those
    records, and the other macro does not change, as long as no record is a key
    of this feature. *)
Theorem dynamic_macros_replay {E : Type} {eeprom : Eeprom E} {cfg : KeymapConfig} {qcfg : QmkSettingsConfig}
    {mcfg : MouseKeyConfig} {mac : MacroConfig}
    (process_record : keyrecord_t -> (act E macros -> act E macros) -> act E macros -> act E macros)
    (b : bool) first second start evs stop_key stop (s : act E macros) :
  macros_hold first second (feature_state s) -> is_press start = false -> Forall typing evs ->
  ends_recording stop_key = true -> is_press stop = (stop_key =? QK_DYNAMIC_MACRO_RECORD_STOP) ->
  let '(claimed1, s1) := process_dynamic_macro process_record (record_key b) start s in
  let '(claimed2, s2) := process_dynamic_macro process_record stop_key stop (typed process_record evs s1) in
  let other := if b then second else first in
  let macro := trimmed (recorded (DYNAMIC_MACRO_SIZE - lenZ other) (map (fun ev => ev.1.2) evs)) in
  claimed1 = false /\ claimed2 = false /\
  macros_hold (if b then macro else first) (if b then second else macro) (feature_state s2) /\
  forall (b : bool) first second record s3 macro', macros_hold first second (feature_state s3) -> is_press record = false ->
    let macro := if b then first else second in
    leaves process_record b 0 macro macro' (clear_all s3) ->
    let s4 := restored s3 (replay process_record b 0 macro (clear_all s3)) in
    process_dynamic_macro process_record (play_key b) record s3 = (false, s4) /\
    macros_hold (if b then macro' else first) (if b then second else macro') (feature_state s4).
Proof.
  intros Hm Hstart Hevs Hk Hstop. pose proof (recording_start process_record b first second s start Hm Hstart) as H1.
  destruct (process_dynamic_macro _ (record_key b) start s) as [go1 s1]. destruct H1 as [-> Hr].
  apply (recording_all process_record b _ evs Hevs) in Hr. fold (recorded (DYNAMIC_MACRO_SIZE - lenZ (if b then second else first)) (map (fun ev => ev.1.2) evs)) in Hr.
  unfold process_dynamic_macro at 1. rewrite (rec_id _ _ _ _ Hr).
  unfold ends_recording in Hk. rewrite Hk. unfold is_press in Hstop. rewrite Hstop.
  assert (xorb (stop_key =? QK_DYNAMIC_MACRO_RECORD_STOP) (negb (stop_key =? QK_DYNAMIC_MACRO_RECORD_STOP)) = true)
    as -> by (by destruct (stop_key =? QK_DYNAMIC_MACRO_RECORD_STOP)).
  assert ((id_of b =? 0) = false) as -> by (by destruct b). cbv iota zeta.
  pose proof (stop_recording _ _ _ _ Hr) as (Hs & Hi & Hb & Ho & Hroom). cbv zeta in *.
  set (macro := trimmed _) in *. set (s2 := on_macros _ _).
  assert (Hm2 : macros_hold (if b then macro else first) (if b then second else macro) (feature_state s2)).
  { destruct b; simpl in *; split_and!; try done; lia. }
  split_and!; try done. intros b0 f0 g0 r0 s3 l0 H1 H2. cbv zeta. intros H3. by apply play_replays.
Qed.

(** ** An example

    The tables of [HostReports] with four records of room. *)

Module MacroExample.
#[export] Instance config : MacroConfig := { DYNAMIC_MACRO_SIZE := 4 }.

#[export] Instance rest : Features (act KeymapExample.store macros) := {
  pre_features := [];
  preprocess_tap_dance := fun _ _ s => (false, s);
  process_key_lock := fun keycode _ s => (true, keycode, s);
  features := [];
  process_action_kb := fun _ s => (true, s);
  post_features := [];
}.

Definition keyboard : act KeymapExample.store macros :=
  mk_act example_kb false 0 false 0 0 0 macros_start [].

(** An event with its keycode, as a combo makes it. *)
Definition key (pressed : bool) (keycode : Z) : keyrecord_t :=
  mk_record (mk_event (mk_key 255 255) 1 COMBO_EVENT pressed) no_tap keycode.
End MacroExample.

Section witnesses.
#[local] Existing Instance KeymapExample.config.
#[local] Existing Instance KeymapExample.config_ok.
#[local] Existing Instance KeymapExample.laws.
#[local] Existing Instance ViaExample.qcfg.
#[local] Existing Instance MouseKey.mcfg.
Import MacroExample.

(** The pipeline, in which a macro may replay the other one. *)
Definition pipeline (record : keyrecord_t) (release : act KeymapExample.store macros -> act KeymapExample.store macros)
    (s : act KeymapExample.store macros) : act KeymapExample.store macros :=
  process_record_at (processors := quantum_processors (all := macro_features rest 1)) record release s.

(** The key 4 is typed while the second macro is recorded, then the key 5 is held
    when the recording stops. *)
Definition session : list (Z * keyrecord_t * (act KeymapExample.store macros -> act KeymapExample.store macros)) :=
  [(QK_DYNAMIC_MACRO_RECORD_STOP + 1, key false 9, id); (4, key true 4, id); (4, key false 4, id); (5, key true 5, id)].

Lemma dynamic_macros_replay_witness :
  let s1 := (process_dynamic_macro pipeline QK_DYNAMIC_MACRO_RECORD_START_2 (key false 0x7C54) keyboard).2 in
  let s2 := (process_dynamic_macro pipeline QK_DYNAMIC_MACRO_RECORD_STOP (key true 0x7C55) (typed pipeline session s1)).2 in
  map (fun h => nthZ (report_data h) 0)
    (keyboards (sent (kb_host (a_kb (process_dynamic_macro pipeline QK_DYNAMIC_MACRO_PLAY_2 (key false 0x7C57) s2).2)))) = [0; 4].
Proof.
  assert (Hm : macros_hold [] [] (feature_state keyboard)) by (unfold macros_hold, holds; split_and!; reflexivity || (vm_compute; discriminate)).
  assert (He : Forall typing session) by (by repeat constructor).
  pose proof (dynamic_macros_replay pipeline false [] [] (key false 0x7C54) session QK_DYNAMIC_MACRO_RECORD_STOP (key true 0x7C55)
                keyboard Hm eq_refl He eq_refl eq_refl) as H.
  change (record_key false) with QK_DYNAMIC_MACRO_RECORD_START_2 in H.
  destruct (process_dynamic_macro pipeline QK_DYNAMIC_MACRO_RECORD_START_2 (key false 0x7C54) keyboard) as [c1 s1] eqn:E1.
  cbv zeta. cbn [snd].
  destruct (process_dynamic_macro pipeline QK_DYNAMIC_MACRO_RECORD_STOP (key true 0x7C55) (typed pipeline session s1)) as [c2 s2] eqn:E2.
  cbn [snd]. destruct H as (_ & _ & Hs2 & H). pose proof E1 as E1'. pose proof E2 as E2'.
  vm_compute in E1'. injection E1' as <- <-. vm_compute in E2'. injection E2' as <- <-.
  specialize (H false [] [key true 4; key false 4] (key false 0x7C57) _ [key true 4; key false 4] Hs2 eq_refl).
  change (play_key false) with QK_DYNAMIC_MACRO_PLAY_2 in H.
  rewrite (proj1 (H ltac:(vm_compute; repeat split; left; repeat split))). vm_compute. reflexivity.
Defined.

(** A macro of a one-shot layer and a key: tap [OSL(1)], tap the key 4. *)
Definition layer_macro : list keyrecord_t :=
  [mk_record (mk_event (mk_key 255 255) 1 COMBO_EVENT true) no_tap 0x5281;
   mk_record (mk_event (mk_key 255 255) 1 COMBO_EVENT false) no_tap 0x5281; key true 4; key false 4].
Definition layer_keyboard : act KeymapExample.store macros :=
  mk_act example_kb false 0 false 0 0 0 (mk_macros layer_macro 4 3 0 0) [].
Definition play_1 (s : act KeymapExample.store macros) : act KeymapExample.store macros :=
  (process_dynamic_macro pipeline QK_DYNAMIC_MACRO_PLAY_1 (key false 0x7C56) s).2.

(** The first replay types the key and stores its press as a release; the
    second one types nothing. *)
Lemma oneshot_macro_plays_once :
  let codes s := map (fun h => nthZ (report_data h) 0) (keyboards (sent (kb_host (a_kb s)))) in
  codes (play_1 layer_keyboard) = [0; 4] /\ codes (play_1 (play_1 layer_keyboard)) = [0; 4]
  /\ map is_press (macro_buffer (feature_state (play_1 layer_keyboard))) = [true; false; false; false].
Proof. vm_compute. by split_and!. Qed.
End witnesses.
