(* ===== verification/KeyOverrideProofs.v ===== *)
(** What key overrides do: when they match, what the host sees of a replaced
    key, and that nothing of an override stays behind. *)

From S2P Require Import Prelude.
From S2P Require Import Eeprom.
From S2P Require Import DynamicKeymap.
From S2P Require Import KeymapBuffer.
From S2P Require Import QmkSettings.
From S2P Require Import Vial.
From S2P Require Import ViaReset.
From S2P Require Import KeycodeConfig.
From S2P Require Import KeymapCommon.
From S2P Require Import ActionLayer.
From S2P Require Import Report.
From S2P Require Import MouseKey.
From S2P Require Import Keyboard.
From S2P Require Import VialDance.
From S2P Require Import ActionUtil.
From S2P Require Import HostReports.
From S2P Require Import KeyOverride.
From S2P Require Import ActionProofs.

(** ** Matching modifiers *)

(** Modifier [i] of four is required, and met, on a side that is asked for. *)
Definition required (o : key_override) (i : Z) : bool :=
  Z.testbit (ko_trigger_mods o) i || Z.testbit (ko_trigger_mods o) (i + 4).
Definition met (o : key_override) (mods i : Z) : bool :=
  Z.testbit (ko_trigger_mods o) i && Z.testbit mods i
  || Z.testbit (ko_trigger_mods o) (i + 4) && Z.testbit mods (i + 4).

Lemma one_sided z i : byte_range z -> 0 <= i ->
  Z.testbit ((z .& 0xF) .| (z >> 4)) i = (i <? 4) && (Z.testbit z i || Z.testbit z (i + 4)).
Proof.
  intros Hz Hi. rewrite Z.lor_spec, Z.land_spec, Z.shiftr_spec by done.
  change 0xF with (Z.ones 4). rewrite Z.testbit_ones_nonneg by lia.
  destruct (Z.ltb_spec i 4); [by rewrite andb_true_r|].
  rewrite andb_false_r, (testbit_byte z (i + 4)) by lia. done.
Qed.

Lemma nonzero_bit z : byte_range z -> (z =? 0) = false <-> exists i, 0 <= i < 8 /\ Z.testbit z i = true.
Proof.
  intros Hz. rewrite Z.eqb_neq. split.
  - intros Hne. exists (Z.log2 z). assert (Z.log2 z < 8) by (apply Z.log2_lt_pow2; [lia|exact (proj2 Hz)]).
    pose proof (Z.log2_nonneg z). split; [lia|]. apply Z.bit_log2. lia.
  - intros (i & Hi & Hb) ->. by rewrite Z.bits_0 in Hb.
Qed.

(** When an override's modifiers match. No modifier of its negative mask may
    be active, on the side it names. Then, if it asks for none, that is all; with
    the option for one modifier, one of those it asks for must be active; else,
    of Control, Shift, Alt and GUI, each one it asks for must be active on a side
    it asks for. *)
Theorem override_modifiers o mods :
  byte_range (ko_trigger_mods o) -> byte_range (ko_negative_mod_mask o) -> byte_range mods ->
  key_override_matches_active_modifiers o mods = true <->
  (forall i, 0 <= i < 8 -> Z.testbit (ko_negative_mod_mask o) i && Z.testbit mods i = false)
  /\ (ko_trigger_mods o = 0
      \/ if Z.testbit (ko_options o) 3
         then exists i, 0 <= i < 8 /\ Z.testbit (ko_trigger_mods o) i = true /\ Z.testbit mods i = true
         else forall i, 0 <= i < 4 -> required o i = true -> met o mods i = true).
Proof.
  intros Ht Hn Hm. unfold key_override_matches_active_modifiers.
  assert (Hneg : byte_range (ko_negative_mod_mask o .& mods)) by (apply (land_range_l 8); [done|exact Hn]).
  assert (Hact : byte_range (ko_trigger_mods o .& mods)) by (apply (land_range_l 8); [done|exact Ht]).
  destruct (ko_negative_mod_mask o .& mods =? 0) eqn:En; cbn [negb].
  2:{ split; [done|]. intros [H _]. apply nonzero_bit in En as (i & Hi & Hb); [|done].
      rewrite Z.land_spec, (H i Hi) in Hb. done. }
  assert (Hno : forall i, 0 <= i < 8 -> Z.testbit (ko_negative_mod_mask o) i && Z.testbit mods i = false).
  { intros i Hi. apply Z.eqb_eq in En. by rewrite <- Z.land_spec, En, Z.bits_0. }
  destruct (Z.eqb_spec (ko_trigger_mods o) 0) as [E0|E0]; [split; [intros _; split; [done|by left]|done]|].
  assert (Hopt : negb (ko_options o .& ko_option_one_mod =? 0) = Z.testbit (ko_options o) 3).
  { change ko_option_one_mod with (1 << 3). rewrite <- truthy_bit by lia. done. }
  rewrite Hopt. destruct (Z.testbit (ko_options o) 3).
  - split.
    + intros H%negb_true_iff. split; [done|]. right. apply nonzero_bit in H as (i & Hi & Hb); [|done].
      rewrite Z.land_spec in Hb. apply andb_true_iff in Hb. eauto.
    + intros [_ [H|(i & Hi & H1 & H2)]]; [done|]. apply negb_true_iff, nonzero_bit; [done|]. exists i. split; [done|].
      by rewrite Z.land_spec, H1, H2.
  - rewrite Z.eqb_eq. split.
    + intros H. split; [done|]. right. intros i Hi Hr. assert (Hb := f_equal (fun z => Z.testbit z i) H). cbn beta in Hb.
      rewrite !one_sided in Hb by (done || lia). rewrite (proj2 (Z.ltb_lt i 4)) in Hb by lia. cbn [andb] in Hb.
      unfold required in Hr. rewrite Hr, !Z.land_spec in Hb. exact Hb.
    + intros [_ [H|H]]; [done|]. apply Z.bits_inj'. intros i Hi. rewrite !one_sided by done.
      destruct (Z.ltb_spec i 4) as [Hlt|]; [|done]. cbn [andb]. rewrite !Z.land_spec.
      specialize (H i ltac:(lia)). unfold required, met in H.
      destruct (Z.testbit (ko_trigger_mods o) i), (Z.testbit (ko_trigger_mods o) (i + 4)); cbn in *; try done; by apply H.
Qed.

Section proofs.
Context {E : Type} {eeprom : Eeprom E} {cfg : KeymapConfig} {mcfg : MouseKeyConfig}.
Implicit Types (s : overriding E) (k : kb E) (o : key_override) (keycode : Z).

(** ** Nothing stays behind *)

(** What overrides put on the keyboard, and their table. *)
Definition marks k : Z * Z * list key_override :=
  (suppressed_mods (kb_mods k), weak_override_mods (kb_mods k), vial_key_overrides (kb_vial k)).
(** [f] leaves them alone. *)
Definition unmarking (f : kb E -> kb E) : Prop := forall k, marks (f k) = marks k.

Lemma send_marks : unmarking send_keyboard_report.
Proof.
  intros k. rewrite send_eq. cbv zeta. assert (Hm : marks (get_mods_for_report k).2 = marks k).
  { unfold get_mods_for_report, marks, clear_oneshot_mods. repeat case_if; cbn; by repeat case_if. }
  case_if; [done|]. destruct (nkro_of k); exact Hm.
Qed.
Lemma with_mods_marks f : (forall m, suppressed_mods (f m) = suppressed_mods m /\ weak_override_mods (f m) = weak_override_mods m) ->
  unmarking (with_mods f).
Proof. intros Hf k. unfold marks. cbn. by destruct (Hf (kb_mods k)) as [-> ->]. Qed.

Lemma register_marks code : unmarking (register_code code).
Proof.
  intros k. unfold register_code. repeat case_if; rewrite ?send_marks; try done.
  change (marks (add_key code (send_keyboard_report (del_key code k)))) with (marks (send_keyboard_report (del_key code k))).
  by rewrite send_marks.
Qed.
Lemma unregister_marks code : unmarking (unregister_code code).
Proof. intros k. unfold unregister_code. repeat case_if; by rewrite ?send_marks. Qed.
Lemma register16_marks code : unmarking (register_code16 code).
Proof.
  intros k. unfold register_code16, do_code16. rewrite register_marks. unfold register_mods, register_weak_mods.
  repeat case_if; by rewrite ?send_marks.
Qed.

(** The state of the marks: none without an active override, those of the active
    one with it. *)
Definition marked s : Prop :=
  match active_override (vars s) with
  | None => suppressed_mods (kb_mods (board s)) = 0 /\ weak_override_mods (kb_mods (board s)) = 0
  | Some idx =>
      let o := override_at s idx in
      suppressed_mods (kb_mods (board s)) = ko_suppressed_mods o
      /\ (weak_override_mods (kb_mods (board s)) = extract_mod_bits (ko_replacement o)
          \/ weak_override_mods (kb_mods (board s)) = 0)
  end.

Lemma marks_marked s s' : marks (board s') = marks (board s) -> active_override (vars s') = active_override (vars s) ->
  marked s -> marked s'.
Proof.
  unfold marks, marked, override_at. intros Hm ->. injection Hm as H1 H2 H3. by rewrite H1, H2, H3.
Qed.

Lemma on_board_marked f s : unmarking f -> marked s -> marked (on_board f s).
Proof. intros Hf. apply marks_marked; [apply Hf|done]. Qed.
Lemma on_vars_marked f s : active_override (f (vars s)) = active_override (vars s) -> marked s -> marked (on_vars f s).
Proof. intros Hf. by apply marks_marked. Qed.

(** The table of a state. *)
Definition table_of s : list key_override := vial_key_overrides (kb_vial (board s)).

(** After [clear_active_override] no override is active. *)
Lemma clear_marks allow s : marked s ->
  marked (clear_active_override allow s) /\ active_override (vars (clear_active_override allow s)) = None
  /\ table_of (clear_active_override allow s) = table_of s /\ enabled (vars (clear_active_override allow s)) = enabled (vars s).
Proof.
  intros H. unfold clear_active_override. destruct (active_override (vars s)) as [idx|] eqn:Ea; [|done].
  set (s1 := on_board (with_mods clear_weak_override_mods) _).
  set (s2 := unregister_replacement _ s1).
  assert (H2 : marks (board s2) = marks (board s1) /\ enabled (vars s2) = enabled (vars s)).
  { unfold s2, unregister_replacement. cbv zeta. repeat case_if; try done. cbn [on_board board vars]. by rewrite unregister_marks, send_marks. }
  cbv zeta. set (s3 := if _ : bool then _ else _).
  assert (H3 : marks (board s3) = marks (board s1) /\ enabled (vars s3) = enabled (vars s)).
  { unfold s3, schedule_deferred_register. by repeat case_if. }
  destruct H3 as [H3 H4]. assert (Hm : marks (send_keyboard_report (board s3)) = marks (board s1)) by (by rewrite send_marks).
  unfold marks in Hm. injection Hm as E1 E2 E3. split_and!; [|done| |done].
  - split; cbn [on_vars on_board board]; [by rewrite E1|by rewrite E2].
  - unfold table_of. cbn [on_vars on_board board]. by rewrite E3.
Qed.

Lemma override_at_table s s' idx : table_of s' = table_of s -> override_at s' idx = override_at s idx.
Proof. unfold override_at, table_of. by intros ->. Qed.

(** What [register_replacement] adds. *)
Lemma register_marks_spec o is_mod s :
  let s' := register_replacement o is_mod s in
  table_of s' = table_of s /\ active_override (vars s') = active_override (vars s) /\ enabled (vars s') = enabled (vars s)
  /\ suppressed_mods (kb_mods (board s')) = suppressed_mods (kb_mods (board s))
  /\ (weak_override_mods (kb_mods (board s')) = extract_mod_bits (ko_replacement o)
      \/ weak_override_mods (kb_mods (board s')) = weak_override_mods (kb_mods (board s))).
Proof.
  cbv zeta. unfold register_replacement. cbv zeta.
  assert (Hf : forall f t, unmarking f ->
    table_of (on_board f t) = table_of t /\ suppressed_mods (kb_mods (board (on_board f t))) = suppressed_mods (kb_mods (board t))
    /\ weak_override_mods (kb_mods (board (on_board f t))) = weak_override_mods (kb_mods (board t))).
  { intros f t Hf. specialize (Hf (board t)). unfold marks in Hf. injection Hf as E1 E2 E3. by split_and!. }
  case_if.
  2:{ destruct (Hf _ s send_marks) as (-> & -> & ->). split_and!; try done. by right. }
  set (s1 := on_board (with_mods (set_weak_override_mods _)) s).
  case_if.
  - destruct (Hf _ (schedule_deferred_register (clear_mods_from (ko_replacement o)) s1) send_marks) as (-> & -> & ->).
    unfold schedule_deferred_register. case_if; split_and!; try done; by left.
  - case_if; [split_and!; try done; by left|].
    destruct (Hf _ (wait_both 10 (on_board send_keyboard_report s1)) (register_marks (u8 (clear_mods_from (ko_replacement o)))))
      as (-> & -> & ->).
    destruct (Hf _ s1 send_marks) as (H1 & H2 & H3). split_and!; [exact H1|done|done|exact H2|left; exact H3].
Qed.

Lemma activate_marks idx keycode down is_mod s : marked s ->
  let s' := activate_override idx keycode down is_mod s in
  marked s' /\ active_override (vars s') = Some idx /\ table_of s' = table_of s /\ enabled (vars s') = enabled (vars s).
Proof.
  intros H. cbv zeta. unfold activate_override. cbv zeta. set (o := override_at s idx).
  destruct (clear_marks false s H) as (Hc & Ha & Ht & He). set (s1 := clear_active_override false s) in *.
  unfold marked in Hc. rewrite Ha in Hc. destruct Hc as [Hs Hw].
  set (s3 := on_board (with_mods (set_suppressed_override_mods _)) _).
  set (s4 := if negb _ && negb _ then _ else s3).
  assert (H4 : marks (board s4) = marks (board s3) /\ vars s4 = vars s3).
  { unfold s4. repeat case_if; try done. cbn [on_board board vars]. by rewrite unregister_marks. }
  destruct H4 as [H4 V4]. unfold marks in H4. injection H4 as E1 E2 E3.
  destruct (register_marks_spec o is_mod s4) as (Ht5 & Ha5 & He5 & Hs5 & Hw5). cbv zeta in *.
  set (s5 := register_replacement o is_mod s4) in *.
  assert (Htab : table_of s5 = table_of s) by (rewrite Ht5; unfold table_of; rewrite E3; exact Ht).
  assert (Hact : active_override (vars s5) = Some idx) by (by rewrite Ha5, V4).
  split_and!; [|done|done|by rewrite He5, V4]. unfold marked. rewrite Hact. cbv zeta. rewrite (override_at_table s s5) by done. fold o.
  split; [by rewrite Hs5, E1|]. destruct Hw5 as [->| ->]; [by left|right]. rewrite E2. exact Hw.
Qed.

(** The invariant: the marks, and no override while they are off. *)
Definition sound s : Prop := marked s /\ (enabled (vars s) = false -> active_override (vars s) = None).

Lemma try_sound idxs keycode layer down is_mod mods s : marked s -> enabled (vars s) = true ->
  let s' := (try_overrides idxs keycode layer down is_mod mods s).2 in marked s' /\ enabled (vars s') = true.
Proof.
  intros H He. induction idxs as [|idx idxs IH]; [done|]. cbn [try_overrides]. case_if; [|exact IH].
  destruct (activate_marks idx keycode down is_mod s H) as (H1 & _ & _ & H2). split; [exact H1|]. cbn [snd]. by rewrite H2.
Qed.

Lemma off_sound s : marked s -> sound (key_override_off s).
Proof.
  intros H. unfold key_override_off. destruct (clear_marks false (on_vars (set_enabled false) s)) as (H1 & H2 & _);
    [by apply on_vars_marked|]. by split.
Qed.
Lemma on_sound s : marked s -> sound (key_override_on s).
Proof. intros H. split; [by apply on_vars_marked|done]. Qed.
Lemma toggle_sound s : marked s -> sound (key_override_toggle s).
Proof. intros H. unfold key_override_toggle. case_if; [by apply off_sound|by apply on_sound]. Qed.

Lemma process_sound keycode record s : sound s -> sound (process_key_override keycode record s).2.
Proof.
  intros [H Hen]. unfold process_key_override. cbv zeta.
  case_if; [by apply toggle_sound|]. case_if; [by apply on_sound|]. case_if; [by apply off_sound|].
  destruct (enabled (vars s)) eqn:Een; cbn [negb]; [|split; [done|intros _; by apply Hen]].
  set (down := ev_pressed (rec_event record)). set (mods := effective_mods_of keycode down s).
  assert (Ht : marked (track_key keycode down s) /\ enabled (vars (track_key keycode down s)) = true).
  { unfold track_key. repeat case_if; split; try done; by repeat apply on_vars_marked. }
  destruct Ht as [Ht Het]. set (s1 := track_key keycode down s) in *.
  match goal with |- sound (match ?b with pair _ _ => _ end).2 => set (r := b) end.
  assert (Hr : marked r.2 /\ enabled (vars r.2) = true).
  { unfold r. case_if; [|done]. unfold try_activating_override.
    destruct (try_sound (seqZ 0 key_override_count) keycode (read_source_layers_cache (ev_key (rec_event record)) (kb_layers (board s1)))
      down (IS_MODIFIER_KEYCODE keycode) mods s1 Ht Het) as [H1 H2].
    destruct (try_overrides _ _ _ _ _ _ s1) as [[go act] s2]. cbn [snd] in *. case_if; [|done].
    split; [|done]. apply on_board_marked; [apply send_marks|done]. }
  destruct r as [[go act] s2]. cbn [snd] in *. destruct Hr as [Hm2 He2]. case_if; [|split; [done|congruence]].
  unfold check_deactivation. destruct (active_override (vars s2)) as [idx|] eqn:Ea; [|split; [done|congruence]].
  assert (Hlift : forall b : bool, marked (if b then on_vars (set_active (Some idx) false) s2 else s2)
    /\ enabled (vars (if b then on_vars (set_active (Some idx) false) s2 else s2)) = true).
  { intros []; [|done]. split; [|done]. apply on_vars_marked; [by rewrite Ea|done]. }
  cbv zeta. case_if.
  - case_if; [|split; [done|congruence]]. destruct (clear_marks true s2 Hm2) as (H1 & _ & _ & H2). split; [done|congruence].
  - match goal with |- context [if ?b then on_vars _ s2 else s2] => destruct (Hlift b) as [H1 H2] end.
    case_if; [|split; [done|congruence]]. destruct (clear_marks false _ H1) as (H3 & _ & _ & H4). split; [done|congruence].
Qed.

(** What happens to a keyboard with overrides: key records with the keycode the
    feature is given, the task of the main loop, the public functions, and the
    rest of the firmware, which leaves the marks alone. *)
Inductive override_step :=
| OverrideKey (keycode : Z) (record : keyrecord_t)
| OverrideTask
| OverrideOn
| OverrideOff
| OverrideToggle
| OverrideElse (f : kb E -> kb E) (time : Z).

Definition run_override_step s (step : override_step) : overriding E :=
  match step with
  | OverrideKey keycode record => (process_key_override keycode record s).2
  | OverrideTask => key_override_task s
  | OverrideOn => key_override_on s
  | OverrideOff => key_override_off s
  | OverrideToggle => key_override_toggle s
  | OverrideElse f time => mk_overriding (f (board s)) (vars s) time
  end.

(** C31: nothing of an override stays behind. However keys, the task, the switches
    and the rest of the firmware follow each other, where the rest leaves the
    suppressed and added modifiers and the table of overrides alone: while no override is active,
    no modifier is suppressed and none is added; while one is, exactly its own
    are suppressed, and those of its replacement, or none, are added; and none
    is active while overrides are off. *)
Theorem overrides_leave_nothing steps k time :
  suppressed_mods (kb_mods k) = 0 -> weak_override_mods (kb_mods k) = 0 ->
  Forall (fun step => match step with OverrideElse f _ => unmarking f | _ => True end) steps ->
  let s := foldl run_override_step (mk_overriding k vars_start time) steps in
  match active_override (vars s) with
  | None => suppressed_mods (kb_mods (board s)) = 0 /\ weak_override_mods (kb_mods (board s)) = 0
  | Some idx =>
      suppressed_mods (kb_mods (board s)) = ko_suppressed_mods (override_at s idx)
      /\ (weak_override_mods (kb_mods (board s)) = extract_mod_bits (ko_replacement (override_at s idx))
          \/ weak_override_mods (kb_mods (board s)) = 0)
  end
  /\ (enabled (vars s) = false -> active_override (vars s) = None).
Proof.
  intros Hs Hw Hsteps. cbv zeta. assert (H0 : sound (mk_overriding k vars_start time)) by done.
  generalize dependent (mk_overriding k vars_start time). intros s0 H0. revert s0 H0.
  induction Hsteps as [|step steps Hf _ IH]; intros s H0; [exact H0|]. cbn [foldl]. apply IH. destruct H0 as [H He].
  destruct step; cbn [run_override_step].
  - by apply process_sound.
  - unfold key_override_task. repeat case_if; try done. split; [|done].
    apply on_vars_marked; [done|]. apply on_board_marked; [apply register16_marks|done].
  - by apply on_sound.
  - by apply off_sound.
  - by apply toggle_sound.
  - split; [|done]. by apply (marks_marked s); [apply Hf|..].
Qed.

(** ** The replaced key *)

(** What an override asks for when its trigger goes down. *)
Definition applies o (keycode layer mods : Z) : bool :=
  ko_enabled o && ((ko_trigger o =? keycode) || (ko_trigger o =? KC_NO))
  && negb (ko_layers o .& (1 << layer) =? 0)
  && ((ko_options o .& ko_options_all_activations =? 0) || truthy (ko_options o .& ko_option_activation_trigger_down))
  && key_override_matches_active_modifiers o mods
  && negb ((mods =? 0) && negb (ko_trigger_mods o =? 0)).

Lemma should_activate_press s idx keycode layer mods :
  active_override (vars s) = None -> last_key_down (vars s) = keycode ->
  should_activate s idx keycode layer true false mods = applies (override_at s idx) keycode layer mods.
Proof.
  intros Ha Hl. unfold should_activate, applies, check_activation_event. cbv zeta. rewrite Ha, Hl, bool_decide_eq_false_2 by done.
  set (o := override_at s idx). cbn [negb]. rewrite !andb_true_r, andb_false_r, (Z.eqb_sym keycode). cbn [negb].
  rewrite !andb_true_r.
  assert (Ho : truthy ((if ko_options o .& ko_options_all_activations =? 0 then ko_options_all_activations else ko_options o)
      .& ko_option_activation_trigger_down)
    = (ko_options o .& ko_options_all_activations =? 0) || truthy (ko_options o .& ko_option_activation_trigger_down))
    by (by case_if).
  rewrite Ho. clear Ho.
  generalize (truthy (ko_options o .& ko_option_activation_trigger_down)) (ko_options o .& ko_options_all_activations =? 0)
    (ko_layers o .& (1 << layer) =? 0) (key_override_matches_active_modifiers o mods) (ko_trigger o =? keycode)
    (ko_trigger o =? KC_NO) (ko_enabled o) (negb ((mods =? 0) && negb (ko_trigger_mods o =? 0))).
  by intros [] [] [] [] [] [] [] [].
Qed.

(** The first override that activates is taken. *)
Lemma try_first idxs1 idx idxs2 keycode layer down is_mod mods s :
  Forall (fun j => should_activate s j keycode layer down is_mod mods = false) idxs1 ->
  should_activate s idx keycode layer down is_mod mods = true ->
  try_overrides (idxs1 ++ idx :: idxs2) keycode layer down is_mod mods s
  = (negb ((ko_trigger (override_at s idx) =? keycode) && down), true, activate_override idx keycode down is_mod s).
Proof. intros H1 H2. induction H1 as [|j l Hj _ IH]; cbn [app try_overrides]; [by rewrite H2|by rewrite Hj]. Qed.
Lemma try_index idx keycode layer down is_mod mods s :
  0 <= idx < key_override_count ->
  (forall j, 0 <= j < idx -> should_activate s j keycode layer down is_mod mods = false) ->
  should_activate s idx keycode layer down is_mod mods = true ->
  try_activating_override keycode layer down is_mod mods s
  = (negb ((ko_trigger (override_at s idx) =? keycode) && down), true, activate_override idx keycode down is_mod s).
Proof.
  intros Hi Hj H. unfold try_activating_override.
  replace key_override_count with (idx + Z.succ (key_override_count - idx - 1)) by lia.
  rewrite seqZ_app, (seqZ_cons (0 + idx)) by lia. rewrite Z.add_0_l. apply try_first; [|done].
  apply list.Forall_forall. intros j Hin%elem_of_seqZ. apply Hj. lia.
Qed.

(** The keyboard with an override's marks and its replacement pressed. *)
Definition replaced o k : kb E :=
  send_keyboard_report (add_key (clear_mods_from (ko_replacement o))
    (with_mods (set_weak_override_mods (extract_mod_bits (ko_replacement o)))
       (with_mods (set_suppressed_override_mods (ko_suppressed_mods o)) k))).

Lemma basic_plain keycode : IS_BASIC_KEYCODE keycode = true ->
  IS_MODIFIER_KEYCODE keycode = false /\ 0 < keycode < 256 /\ (keycode <? SAFE_RANGE) = true
  /\ (keycode =? QK_KEY_OVERRIDE_TOGGLE) = false /\ (keycode =? QK_KEY_OVERRIDE_ON) = false
  /\ (keycode =? QK_KEY_OVERRIDE_OFF) = false.
Proof.
  unfold IS_BASIC_KEYCODE, IS_MODIFIER_KEYCODE, in_range, KC_A, KC_EXSEL, KC_LEFT_CTRL, KC_RIGHT_GUI, SAFE_RANGE, QK_USER,
    QK_KEY_OVERRIDE_TOGGLE, QK_KEY_OVERRIDE_ON, QK_KEY_OVERRIDE_OFF. intros. b2p. split_and!; b2p; lia.
Qed.

Lemma press_activates s idx record keycode :
  let o := override_at s idx in let k := board s in
  let mods := real_mods (kb_mods k) .| (oneshot_locked_mods (kb_mods k) .| oneshot_mods (kb_mods k)) in
  let layer := read_source_layers_cache (ev_key (rec_event record)) (kb_layers k) in
  enabled (vars s) = true -> active_override (vars s) = None -> ev_pressed (rec_event record) = true ->
  IS_BASIC_KEYCODE keycode = true -> IS_BASIC_KEYCODE (clear_mods_from (ko_replacement o)) = true ->
  ko_trigger o = keycode -> 0 <= idx < key_override_count ->
  applies o keycode layer mods = true ->
  (forall j, 0 <= j < idx -> applies (override_at s j) keycode layer mods = false) ->
  exists v, process_key_override keycode record s = (false, mk_overriding (replaced o k) v (time32 s))
    /\ active_override v = Some idx /\ active_override_trigger_is_down v = true /\ enabled v = true.
Proof.
  cbv zeta. intros Hen Ha Hp Hb Hr Ht Hi Happ Hfirst. destruct (basic_plain _ Hb) as (Hm & Hk & _ & Q1 & Q2 & Q3).
  destruct (basic_plain _ Hr) as (_ & Hr0 & Hrs & _).
  unfold process_key_override. rewrite Hp, Q1, Q2, Q3, Hen, Hm.
  cbn [andb negb orb]. unfold effective_mods_of. rewrite Hm.
  set (s1 := track_key keycode true s).
  assert (Hs1 : s1 = on_vars (fun v => cancel_deferred (set_last keycode (time32 s) v)) s)
    by (unfold s1, track_key; rewrite Hm; done).
  assert (Ha1 : active_override (vars s1) = None) by (by rewrite Hs1).
  assert (Hl1 : last_key_down (vars s1) = keycode) by (by rewrite Hs1).
  assert (Hb1 : board s1 = board s) by (by rewrite Hs1). rewrite Hb1.
  rewrite (try_index idx).
  2:{ done. }
  2:{ intros j Hj. rewrite should_activate_press by done. rewrite (override_at_table s s1) by (unfold table_of; by rewrite Hb1).
      by apply Hfirst. }
  2:{ rewrite should_activate_press by done. by rewrite (override_at_table s s1) by (unfold table_of; by rewrite Hb1). }
  rewrite (override_at_table s s1) by (unfold table_of; by rewrite Hb1).
  rewrite Ht, Z.eqb_refl. cbn [andb negb].
  unfold activate_override. rewrite (override_at_table s s1) by (unfold table_of; by rewrite Hb1).
  cbv zeta. rewrite Ht, Z.eqb_refl. cbn [andb negb]. unfold clear_active_override. rewrite Ha1.
  unfold register_replacement. cbv zeta. rewrite Hrs, (proj2 (Z.eqb_neq _ KC_NO)) by (unfold KC_NO; lia). cbn [andb negb]. rewrite Hr.
  eexists. split; [rewrite Hs1; reflexivity|]. done.
Qed.

Lemma release_deactivates s idx record keycode :
  let o := override_at s idx in let r := clear_mods_from (ko_replacement o) in
  enabled (vars s) = true -> active_override (vars s) = Some idx -> ev_pressed (rec_event record) = false ->
  IS_BASIC_KEYCODE keycode = true -> IS_BASIC_KEYCODE r = true -> ko_trigger o = keycode ->
  exists v, process_key_override keycode record s
    = (true, mk_overriding (send_keyboard_report (del_key r
         (with_mods clear_weak_override_mods (with_mods clear_suppressed_override_mods (board s))))) v (time32 s))
    /\ active_override v = None /\ enabled v = true.
Proof.
  cbv zeta. intros Hen Ha Hp Hb Hr Ht. destruct (basic_plain _ Hb) as (Hm & Hk & _ & Q1 & Q2 & Q3).
  destruct (basic_plain _ Hr) as (_ & Hr0 & Hrs & _).
  unfold process_key_override. rewrite Hp, Hen, Hm. cbn [andb negb orb].
  set (s1 := track_key keycode false s).
  assert (Hs1 : board s1 = board s /\ time32 s1 = time32 s /\ active_override (vars s1) = Some idx /\ enabled (vars s1) = true).
  { unfold s1, track_key. rewrite Hm. cbn [negb andb]. by case_if. }
  destruct Hs1 as (Hb1 & Ht1 & Ha1 & He1). unfold check_deactivation. rewrite Ha1, Hm.
  rewrite (override_at_table s s1) by (unfold table_of; by rewrite Hb1). cbv zeta. rewrite Ht, Z.eqb_refl. cbn [andb orb negb].
  unfold clear_active_override. cbn [on_vars set_active vars active_override board].
  unfold unregister_replacement, override_at. cbn [on_vars on_board board vars set_active cancel_deferred with_mods kb_vial set_mods].
  rewrite Hb1. fold (override_at s idx). rewrite (u8_id (clear_mods_from (ko_replacement (override_at s idx)))) by lia.
  rewrite (proj2 (Z.eqb_neq (clear_mods_from (ko_replacement (override_at s idx))) KC_NO)) by (unfold KC_NO; lia). rewrite Hrs. cbn [andb negb]. rewrite Hr.
  eexists. split; [by rewrite <- Ht1, <- Hb1|]. done.
Qed.

(** What the host has of a keyboard that sent its report. *)
Lemma sent_report (f : reports -> reports) (g : mods_st -> mods_st) k :
  (forall m, oneshot_mods (g m) = oneshot_mods m) -> level true k -> log_ok (with_reports f (with_mods g k)) ->
  let k' := send_keyboard_report (with_reports f (with_mods g k)) in
  level true k' /\ report_mods (shown k') = plain_mods (g (kb_mods k))
  /\ reports_of (kb_host k') = f (reports_of (kb_host k))
  /\ forall key, report_pressed (shown k') key = is_key_pressed (f (reports_of (kb_host k))) key.
Proof.
  intros Hg [_ Hl] Hok k'. destruct (send_spec _ Hok) as (H1 & _ & H3 & H4 & _). fold k' in H1, H3, H4.
  assert (Hr : ready true (with_reports f (with_mods g k))).
  { split; [done|]. intros _. cbn. rewrite Hg. by apply Hl. }
  destruct (ready_send _ _ Hr) as [Hs Hp]. fold k' in Hs, Hp. destruct (Hp eq_refl) as [_ Hp2].
  split_and!; [by split|..].
  - rewrite Hp2, H4. unfold get_mods_for_report. cbn [with_reports with_mods set_host set_mods kb_mods].
    rewrite Hg, (proj1 (Hl eq_refl)). done.
  - by rewrite H3.
  - intros key. by rewrite synced_pressed, H3.
Qed.

(** C30: an override of a basic key by a basic key, with or without modifiers,
    replaces it on the host (a replacement beyond, such as a layer key, is not
    meant here). The report of the host is current, no one-shot modifier is
    pending and no override modifier is set. The trigger goes down while overrides
    are on, none is active, and it is the first one that asks for no more than the
    keys, layer and modifiers there are: the key is claimed, and the host has the
    keys it had and the replacement's (when its report has room), with the
    modifiers less the suppressed ones, plus the replacement's. Then only time
    passes, any time, and the trigger goes up: the host has the modifiers it had
    before, and the keys it had, less the replacement's; the record goes on to the
    rest of the firmware. *)
Theorem override_replaces_key s idx keycode press release ms :
  let o := override_at s idx in let k := board s in let r := clear_mods_from (ko_replacement o) in
  let mods := real_mods (kb_mods k) .| (oneshot_locked_mods (kb_mods k) .| oneshot_mods (kb_mods k)) in
  let layer := read_source_layers_cache (ev_key (rec_event press)) (kb_layers k) in
  level true k -> suppressed_mods (kb_mods k) = 0 -> weak_override_mods (kb_mods k) = 0 ->
  enabled (vars s) = true -> active_override (vars s) = None ->
  ev_pressed (rec_event press) = true -> ev_pressed (rec_event release) = false ->
  IS_BASIC_KEYCODE keycode = true -> IS_BASIC_KEYCODE r = true -> ko_trigger o = keycode ->
  0 <= idx < key_override_count -> applies o keycode layer mods = true ->
  (forall j, 0 <= j < idx -> applies (override_at s j) keycode layer mods = false) ->
  let down := process_key_override keycode press s in
  let up := process_key_override keycode release (wait_both ms down.2) in
  (down.1 = false
   /\ report_mods (shown (board down.2))
      = u8 ((real_mods (kb_mods k) .| weak_mods (kb_mods k)) .& Z.lnot (ko_suppressed_mods o)) .| extract_mod_bits (ko_replacement o)
   /\ forall key, byte_range key -> report_pressed (shown (board down.2)) key
        = (key =? r) && has_room (reports_of (kb_host k)) r || report_pressed (shown k) key)
  /\ (up.1 = true
      /\ report_mods (shown (board up.2)) = report_mods (shown k)
      /\ forall key, byte_range key ->
           report_pressed (shown (board up.2)) key = negb (key =? r) && report_pressed (shown k) key).
Proof.
  cbv zeta. intros Hl Hs0 Hw0 Hen Ha Hp1 Hp2 Hb Hr Ht Hi Happ Hfirst.
  destruct (press_activates s idx press keycode Hen Ha Hp1 Hb Hr Ht Hi Happ Hfirst) as (v & -> & Hv1 & _ & Hv3).
  cbn [fst snd]. set (o := override_at s idx) in *. set (k := board s) in *. set (r := clear_mods_from (ko_replacement o)) in *.
  destruct (basic_range r Hr) as [Hrr Hr0]. pose proof (log_wf k (proj1 (proj1 Hl))) as Hwf.
  set (g := fun m => set_weak_override_mods (extract_mod_bits (ko_replacement o)) (set_suppressed_override_mods (ko_suppressed_mods o) m)).
  destruct (sent_report (add_key_to_report r) g k) as (L1 & M1 & R1 & K1);
    [done|done|apply add_ok; [done|]; apply mods_log, Hl|].
  change (send_keyboard_report (with_reports (add_key_to_report r) (with_mods g k))) with (replaced o k) in *.
  set (k1 := replaced o k) in *. set (s1 := wait_both ms _).
  assert (Ho1 : override_at s1 idx = o).
  { apply override_at_table. unfold table_of. cbn [s1 wait_both board wait_ms kb_vial].
    pose proof (send_marks (with_reports (add_key_to_report r) (with_mods g k))) as Hm. unfold marks in Hm. injection Hm as _ _ Hm. exact Hm. }
  destruct (release_deactivates s1 idx release keycode) as (v' & -> & _); [done|done|done|done|by rewrite Ho1|by rewrite Ho1|].
  rewrite Ho1. cbn [fst snd board]. fold r.
  assert (L2 : level true (wait_ms ms k1)) by (by apply wait_level).
  destruct (sent_report (del_key_from_report r) (fun m => clear_weak_override_mods (clear_suppressed_override_mods m)) (wait_ms ms k1))
    as (_ & M2 & _ & K2); [done|done|apply del_ok; [done|]; apply mods_log, L2|].
  destruct Hl as [Hsync Hl]. destruct (Hl eq_refl) as [Hone Hrep].
  assert (Hm1 : kb_mods k1 = g (kb_mods k)).
  { unfold k1, replaced.
    destruct (send_spec (with_reports (add_key_to_report r) (with_mods g k)) ltac:(apply add_ok; [done|]; apply mods_log, Hsync))
      as (_ & _ & _ & E4 & _). refine (eq_trans E4 _). unfold get_mods_for_report. cbn [with_reports with_mods set_host set_mods kb_mods g].
    cbn. by rewrite Hone. }
  split; split_and!; [done|exact M1| |done| |].
  - intros key Hkey. rewrite K1, (synced_pressed k) by done. by destruct (report_ops _ r key Hwf Hrr Hr0 Hkey) as (-> & _).
  - refine (eq_trans M2 _). rewrite Hrep. cbn [wait_ms kb_mods]. rewrite Hm1. unfold plain_mods. cbn. by rewrite Hs0, Hw0.
  - intros key Hkey. refine (eq_trans (K2 key) _). cbn [wait_ms kb_host]. rewrite R1, (synced_pressed k) by done.
    destruct (report_ops _ r key Hwf Hrr Hr0 Hkey) as (Hadd & _ & _ & Hwf' & _).
    destruct (report_ops _ r key Hwf' Hrr Hr0 Hkey) as (_ & -> & _). rewrite Hadd. by destruct (key =? r).
Qed.
End proofs.

(** ** Examples *)

Module OverrideExample.
(** Shift and Backspace is Delete; Shift and A is a layer key; Control and B is C. *)
Definition shift_backspace : key_override := mk_ko 0x2A 0x22 0xFFFF 0 0x22 0x4C 7 true.
Definition shift_a : key_override := mk_ko 0x04 0x22 0xFFFF 0 0x22 0x5221 7 true.

Definition table (o : key_override) (v : vial_state KeymapExample.store) : vial_state KeymapExample.store :=
  mk_vial (settings v) (vial_unlocked v) (Vial.vial_unlock_in_progress v) (vial_unlock_counter v) (vial_unlock_timer v)
    (key_combos v) (key_combos_keys v) [o] (tap_dance_user_data v).
(** A keyboard with one override and the left Shift down. *)
Definition with_table (o : key_override) : kb KeymapExample.store := set_vial (table o example_vial) example_kb.

#[local] Existing Instance KeymapExample.config.
#[local] Existing Instance MouseKey.mcfg.
Definition shifted (o : key_override) : overriding KeymapExample.store :=
  mk_overriding (register_code 0xE1 (with_table o)) vars_start 1000.
Definition press_of (pressed : bool) : keyrecord_t := event_record (MAKE_KEYEVENT 0 0 pressed 1000).
Definition key_at (keycode : Z) (pressed : bool) (s : overriding KeymapExample.store) : overriding KeymapExample.store :=
  (process_key_override keycode (press_of pressed) s).2.
End OverrideExample.

Section witnesses.
Import OverrideExample.
#[local] Existing Instance KeymapExample.config.
#[local] Existing Instance KeymapExample.config_ok.
#[local] Existing Instance MouseKey.mcfg.

Lemma override_modifiers_witness :
  key_override_matches_active_modifiers shift_backspace 2 = true.
Proof.
  apply (override_modifiers shift_backspace 2); [done|done|done|]. split.
  { intros i _. cbn [shift_backspace ko_negative_mod_mask]. by rewrite Z.bits_0. }
  right. cbn [shift_backspace ko_options].
  intros i Hi Hr. assert (Hc : i = 0 \/ i = 1 \/ i = 2 \/ i = 3) by lia.
  destruct Hc as [Hc|[Hc|[Hc|Hc]]]; subst i; vm_compute in Hr |- *; (reflexivity || discriminate).
Defined.

Lemma overrides_leave_nothing_witness :
  let steps := [OverrideElse (register_code 0xE1) 1000; OverrideKey 0x2A (press_of true); OverrideTask;
                OverrideKey 0xE1 (press_of false); OverrideElse (unregister_code 0xE1) 1100] in
  let s := foldl run_override_step (mk_overriding (with_table shift_backspace) vars_start 900) steps in
  active_override (vars s) = None /\ suppressed_mods (kb_mods (board s)) = 0.
Proof.
  cbv zeta. assert (Ha : forall s', s' = foldl run_override_step (mk_overriding (with_table shift_backspace) vars_start 900)
    [OverrideElse (register_code 0xE1) 1000; OverrideKey 0x2A (press_of true); OverrideTask;
     OverrideKey 0xE1 (press_of false); OverrideElse (unregister_code 0xE1) 1100] -> active_override (vars s') = None)
    by (intros s' ->; vm_compute; reflexivity).
  specialize (Ha _ eq_refl). split; [exact Ha|].
  pose proof (overrides_leave_nothing
    [OverrideElse (register_code 0xE1) 1000; OverrideKey 0x2A (press_of true); OverrideTask;
     OverrideKey 0xE1 (press_of false); OverrideElse (unregister_code 0xE1) 1100]
    (with_table shift_backspace) 900 eq_refl eq_refl) as H. cbv zeta in H. rewrite Ha in H. apply H.
  constructor; [apply register_marks|]. do 3 (constructor; [done|]). constructor; [apply unregister_marks|constructor].
Defined.

Lemma shifted_level o : level true (board (shifted o)).
Proof. apply (register_level true). apply rest_level. by split_and!. Qed.

Lemma override_replaces_key_witness :
  let down := process_key_override 0x2A (press_of true) (shifted shift_backspace) in
  down.1 = false /\ report_mods (shown (board down.2)) = 0 /\ report_pressed (shown (board down.2)) 0x4C = true.
Proof.
  destruct (override_replaces_key (shifted shift_backspace) 0 0x2A (press_of true) (press_of false) 30) as [(H1 & H2 & H3) _];
    [apply shifted_level|reflexivity|reflexivity|reflexivity|reflexivity|reflexivity|reflexivity|reflexivity|reflexivity
    |reflexivity|by vm_compute|reflexivity|by intros j [? ?]; lia|].
  cbv zeta. split_and!; [exact H1|rewrite H2; reflexivity|rewrite H3 by done; reflexivity].
Defined.

(** A layer key as the replacement presses the key that is its low byte. *)
Lemma layer_replacement_types : report_pressed (shown (board (key_at 0x04 true (shifted shift_a)))) 0x21 = true.
Proof. vm_compute. reflexivity. Qed.

(** When the host writes the table while an override is active, the key it
    pressed stays pressed. *)
Lemma reload_keeps_replacement :
  let s := key_at 0x2A true (shifted shift_backspace) in
  let reloaded := mk_overriding (set_vial (table shift_a (kb_vial (board s))) (board s)) (vars s) (time32 s) in
  report_pressed (shown (board (key_at 0x2A false (key_at 0xE1 false reloaded)))) 0x4C = true.
Proof. vm_compute. reflexivity. Qed.
End witnesses.
