(* ===== verification/AutoShiftProofs.v ===== *)
(** What auto shift types: the reports of the host, against a model that knows
    the key that waits and whether Shift is held. *)

From S2P Require Import Prelude.
From S2P Require Import Eeprom.
From S2P Require Import DynamicKeymap.
From S2P Require Import KeymapBuffer.
From S2P Require Import QmkSettings.
From S2P Require Import Vial.
From S2P Require Import KeycodeConfig.
From S2P Require Import KeymapCommon.
From S2P Require Import ActionLayer.
From S2P Require Import Report.
From S2P Require Import MouseKey.
From S2P Require Import Keyboard.
From S2P Require Import VialDance.
From S2P Require Import ActionUtil.
From S2P Require Import HostReports.
From S2P Require Import Strokes.
From S2P Require Import AutoShift.

(** ** The model *)

(** The key that waits, since when, and whether Shift was held when it went down;
    whether Shift is held. *)
Record typist := mk_typist { waiting : option (Z * Z * bool); shift_held : bool }.

(** What happens, with the time: the key of a keycode, and the scan of the matrix. *)
Inductive shift_event :=
| Key (pos : keypos_t) (keycode : Z) (pressed : bool) (t : Z)
| Scan (t : Z).

(** [restarts]: does the release of another key restart the time of the key that
    waits? The documentation counts from the press; the code restarts it. *)
Section model.
Context (nkro : bool) (timeout : Z) (restarts : bool).

Definition shift_bits (b : bool) : Z := if b then 2 else 0.
(** The reports of a typed key, the latest first. *)
Definition typed (key : Z) (shifted held : bool) : list host_report :=
  (if eqb shifted held then [] else [no_key nkro (shift_bits held)])
  ++ [no_key nkro (shift_bits shifted); one_key nkro (shift_bits shifted) key].

(** The waiting key is typed, shifted when Shift was held or the time is up. *)
Definition type_waiting (t : Z) (p : typist) : typist * list host_report :=
  match waiting p with
  | Some (key, t0, b) =>
      (mk_typist None (shift_held p), typed key (b || (timeout <=? TIMER_DIFF_16 t t0)) (shift_held p))
  | None => (p, [])
  end.

Definition type_event (ev : shift_event) (p : typist) : typist * list host_report :=
  match ev with
  | Key _ keycode true t =>
      let '(p, out) := type_waiting t p in
      if keycode =? KC_LEFT_SHIFT then
        (mk_typist (waiting p) true, (if shift_held p then [] else [no_key nkro 2]) ++ out)
      else (mk_typist (Some (keycode, t, shift_held p)) (shift_held p), out)
  | Key _ keycode false t =>
      if keycode =? KC_LEFT_SHIFT then
        (mk_typist (waiting p) false, if shift_held p then [no_key nkro 0] else [])
      else
        match waiting p with
        | Some (key, t0, b) =>
            if keycode =? key then type_waiting t p else (mk_typist (Some (key, if restarts then t else t0, b)) (shift_held p), [])
        | None => (p, [])
        end
  | Scan t =>
      match waiting p with
      | Some (_, t0, _) => if timeout <=? TIMER_DIFF_16 t t0 then type_waiting t p else (p, [])
      | None => (p, [])
      end
  end.

(** All reports, the latest first. *)
Fixpoint type_all (evs : list shift_event) (p : typist) : list host_report :=
  match evs with
  | [] => []
  | ev :: evs => let '(p, out) := type_event ev p in type_all evs p ++ out
  end.

(** No other key is released while a key waits: nobody rolls from key to key. *)
Definition rolls (ev : shift_event) (p : typist) : bool :=
  match ev, waiting p with
  | Key _ keycode false _, Some (key, _, _) => negb (keycode =? KC_LEFT_SHIFT) && negb (keycode =? key)
  | _, _ => false
  end.
Fixpoint unrolled (evs : list shift_event) (p : typist) : bool :=
  match evs with
  | [] => true
  | ev :: evs => negb (rolls ev p) && unrolled evs (type_event ev p).1
  end.
End model.

(** Without rolls the code's time is the documented one. *)
Lemma unrolled_event nkro timeout ev p : rolls ev p = false ->
  type_event nkro timeout true ev p = type_event nkro timeout false ev p.
Proof.
  destruct ev as [pos keycode [] t|t]; [done| |done]. unfold rolls. cbn [type_event]. destruct (keycode =? KC_LEFT_SHIFT); [done|].
  destruct (waiting p) as [[[key t0] b]|]; [|done]. by destruct (keycode =? key).
Qed.
Lemma unrolled_all nkro timeout evs : forall p, unrolled nkro timeout false evs p = true ->
  type_all nkro timeout true evs p = type_all nkro timeout false evs p.
Proof.
  induction evs as [|ev evs IH]; intros p H; [done|]. cbn [unrolled type_all] in *. apply andb_true_iff in H as [Hr H].
  apply negb_true_iff in Hr. rewrite (unrolled_event _ _ _ _ Hr). destruct (type_event _ _ _ ev p) as [p' out]. by rewrite IH.
Qed.

(** ** The firmware *)

Section proofs.
Context {E : Type} {eeprom : Eeprom E} {cfg : KeymapConfig} {mcfg : MouseKeyConfig}.
Implicit Types (s : shifting E) (k : kb E) (p : typist) (out : list host_report).

Definition clock (t : Z) k : kb E := mk_kb (kb_vial k) (kb_layers k) (kb_mods k) (kb_osl k) (kb_host k) (kb_mouse k) t.
Definition key_record (pos : keypos_t) (pressed : bool) (t : Z) : keyrecord_t :=
  event_record (mk_event pos t KEY_EVENT pressed).

(** A key goes to auto shift, and when it is not claimed is registered. *)
Definition run_shift_event s (ev : shift_event) : shifting E :=
  match ev with
  | Key pos keycode pressed t =>
      let '(go, s) := process_auto_shift keycode (key_record pos pressed t) (on_as_kb (clock t) s) in
      if go then on_as_kb (if pressed then register_code keycode else unregister_code keycode) s else s
  | Scan t => autoshift_matrix_scan (on_as_kb (clock t) s)
  end.

(** ** Keys that auto shift takes *)

Lemma auto_shifted_basic (q : qs_state E) key : get_auto_shifted_key q key = true ->
  IS_BASIC_KEYCODE key = true /\ IS_RETRO key = false /\ (key =? KC_LEFT_SHIFT) = false /\ (key =? KC_RIGHT_SHIFT) = false
  /\ (key =? KC_NO) = false /\ (key =? QK_AUTO_SHIFT_TOGGLE) = false /\ (key =? QK_AUTO_SHIFT_ON) = false
  /\ (key =? QK_AUTO_SHIFT_OFF) = false.
Proof.
  intros H. assert (Hr : 4 <= key <= 0x64).
  { unfold get_auto_shifted_key, auto_shift_alpha, auto_shift_numeric, auto_shift_special in H. unfold orb, andb in H.
    repeat match type of H with context [if ?b then _ else _] => lazymatch b with context [if _ then _ else _] => fail | _ => destruct b eqn:? end end;
      b2p; (done || lia). }
  clear H. unfold IS_BASIC_KEYCODE, IS_RETRO, IS_QK_MOD_TAP, IS_QK_LAYER_TAP, in_range, KC_A, KC_EXSEL, QK_MOD_TAP, QK_MOD_TAP_MAX,
    QK_LAYER_TAP, QK_LAYER_TAP_MAX, KC_LEFT_SHIFT, KC_RIGHT_SHIFT, KC_NO, QK_AUTO_SHIFT_TOGGLE, QK_AUTO_SHIFT_ON, QK_AUTO_SHIFT_OFF.
  split_and!; b2p; lia.
Qed.

(** ** Typing a key *)

Section typing.
Context (v : vial_state E) (n : bool).
Context (Hon : truthy (QS8 (settings v) QS_auto_shift .& 1) = true) (Hrep : get_auto_shift_repeat (settings v) = false).
#[local] Abbreviation T := (autoshift_timeout (settings v)).

Definition mods_of (held : bool) (l ot : Z) : mods_st := mk_mods (shift_bits held) 0 0 0 0 l ot.

(** What [autoshift_end] does to the keyboard. *)
Definition type_kb (key : Z) (shifted held : bool) (d : Z) k : kb E :=
  let k := if held then with_mods (del_mods 2) k else k in
  let k := if shifted then with_mods (add_weak_mods 2) k else k in
  let k := unregister_code key (wait_ms d (register_code key k)) in
  let k := with_mods (del_weak_mods 2) k in
  send_keyboard_report (if held then with_mods (add_mods 2) k else k).

Lemma type_kb_spec key shifted held d l ot out k : IS_BASIC_KEYCODE key = true ->
  kbd v (mods_of held l ot) (blank n) out k -> head out = Some (no_key n (shift_bits held)) ->
  kbd v (mods_of held l ot) (blank n) (typed n key shifted held ++ out) (type_kb key shifted held d k).
Proof using.
  intros Hb Hk Hh. destruct (blank_key n key Hb) as (Hd & Hne & _ & Hp). unfold type_kb.
  set (m1 := mk_mods 0 (shift_bits shifted) 0 0 0 l ot).
  assert (K1 : kbd v m1 (blank n) out
    (let k := if held then with_mods (del_mods 2) k else k in if shifted then with_mods (add_weak_mods 2) k else k)).
  { destruct held, shifted; cbv zeta; try (apply (kbd_with_mods (add_weak_mods 2) _ (mods_of false l ot)));
      try apply (kbd_with_mods (del_mods 2) _ _ _ _ _ Hk); exact Hk. }
  cbv zeta in *. set (k1 := if shifted then _ else _) in *.
  pose proof (kbd_register key v m1 (blank n) out k1 Hb eq_refl Hp K1) as K2.
  assert (K3 : kbd v m1 (blank n) (push (report_of m1 (blank n)) (push (report_of m1 (add_key_to_report key (blank n))) out))
    (unregister_code key (wait_ms d (register_code key k1)))).
  { rewrite <- Hd at 1 2. apply kbd_unregister; [done|done|]. by apply (kbd_same _ _ _ _ (register_code key k1)). }
  assert (K4 : kbd v (mods_of held l ot) (blank n)
     (push (report_of m1 (blank n)) (push (report_of m1 (add_key_to_report key (blank n))) out))
     (let k := with_mods (del_weak_mods 2) (unregister_code key (wait_ms d (register_code key k1))) in
      if held then with_mods (add_mods 2) k else k)).
  { pose proof (kbd_with_mods (del_weak_mods 2) _ _ _ _ _ K3) as K4.
    assert (Hm : del_weak_mods 2 m1 = mods_of false l ot) by (by destruct shifted). rewrite Hm in K4.
    cbv zeta. destruct held; [apply (kbd_with_mods (add_mods 2) _ _ _ _ _ K4)|exact K4]. }
  cbv zeta in K4. apply kbd_send in K4; [|done].
  assert (E1 : report_of m1 (add_key_to_report key (blank n)) = one_key n (shift_bits shifted) key).
  { unfold report_of, one_key. rewrite nkro_add. by destruct shifted. }
  assert (E2 : report_of m1 (blank n) = no_key n (shift_bits shifted)) by (by destruct shifted).
  assert (E3 : report_of (mods_of held l ot) (blank n) = no_key n (shift_bits held)) by (by destruct held).
  rewrite E1, E2, E3 in K4. unfold typed.
  rewrite (push_new (one_key n _ key) out) in K4 by (rewrite Hh; unfold one_key, no_key; congruence).
  rewrite (push_new (no_key n (shift_bits shifted))) in K4 by (cbn; unfold one_key, no_key; congruence).
  destruct shifted, held; cbn [eqb app shift_bits] in *;
    first [rewrite push_same in K4 by done|rewrite push_new in K4 by (cbn; unfold no_key; congruence)]; exact K4.
Qed.

(** ** The states *)

Record typing p out s : Prop := {
  ty_kb : exists l ot, kbd v (mods_of (shift_held p) l ot) (blank n) out (as_kb s);
  ty_head : head out = Some (no_key n (shift_bits (shift_held p)));
  ty_flags : as_enabled (autoshift_flags (as_vars s)) = true /\ cancelling_lshift (autoshift_flags (as_vars s)) = false
    /\ cancelling_rshift (autoshift_flags (as_vars s)) = false;
  ty_waiting :
    match waiting p with
    | Some (key, t0, b) =>
        in_progress (autoshift_flags (as_vars s)) = true /\ autoshift_lastkey (as_vars s) = key
        /\ autoshift_time (as_vars s) = t0 /\ lastshifted (autoshift_flags (as_vars s)) = b
        /\ get_auto_shifted_key (settings v) key = true
    | None => in_progress (autoshift_flags (as_vars s)) = false
    end;
}.

Lemma plain_basic key : get_auto_shifted_key (settings v) key = true ->
  plain_code key = key /\ forall k, register_code16 key k = register_code key k /\ unregister_code16 key k = unregister_code key k.
Proof using.
  intros Hg. destruct (auto_shifted_basic _ _ Hg) as (Hb & Hr & _). unfold plain_code. rewrite Hr.
  split; [done|]. intros k. by apply basic_code16.
Qed.

Lemma cancel_eq tm lk lr st e ls ip hs held l ot k : kb_mods k = mods_of held l ot ->
  cancel_shifts (mk_shifting k (mk_autoshift tm lk lr st (mk_flags e ls ip hs false false)))
  = mk_shifting (if held then with_mods (del_mods 2) k else k) (mk_autoshift tm lk lr st (mk_flags e ls ip hs held false)).
Proof using.
  intros Hm. unfold cancel_shifts. cbn [as_kb]. rewrite Hm. destruct held.
  - change (truthy (real_mods (mods_of true l ot) .& MOD_BIT KC_LEFT_SHIFT)) with true. cbv iota.
    cbn [on_as_kb on_as as_kb as_vars with_mods kb_mods]. by rewrite Hm.
  - change (truthy (real_mods (mods_of false l ot) .& MOD_BIT KC_LEFT_SHIFT)) with false. cbv iota. cbn [as_kb]. by rewrite Hm.
Qed.
Lemma press_eq key shifted k w : get_auto_shifted_key (settings v) key = true ->
  autoshift_press_user key shifted (mk_shifting k w)
  = mk_shifting (register_code key (if shifted then with_mods (add_weak_mods 2) k else k)) w.
Proof using.
  intros Hg. destruct (plain_basic key Hg) as [Hpl Hcode]. unfold autoshift_press_user. rewrite Hpl.
  destruct shifted; unfold on_as_kb; cbn [as_kb as_vars]; by rewrite (proj1 (Hcode _)).
Qed.
Lemma release_eq key k w : get_auto_shifted_key (settings v) key = true ->
  autoshift_release_user key (mk_shifting k w) = mk_shifting (unregister_code key k) w.
Proof using.
  intros Hg. destruct (plain_basic key Hg) as [Hpl Hcode]. unfold autoshift_release_user. rewrite Hpl.
  unfold on_as_kb; cbn [as_kb as_vars]; by rewrite (proj2 (Hcode _)).
Qed.
Lemma flush_eq tm lk lr st e ls ip hs held k :
  autoshift_flush_shift (mk_shifting k (mk_autoshift tm lk lr st (mk_flags e ls ip hs held false)))
  = mk_shifting (send_keyboard_report (let k := with_mods (del_weak_mods 2) k in if held then with_mods (add_mods 2) k else k))
      (mk_autoshift tm lk lr st (mk_flags e ls ip false false false)).
Proof using. by destruct held. Qed.

Lemma end_eq keycode t trigger key t0 lr st b hs held l ot k :
  kb_vial k = v -> kb_mods k = mods_of held l ot -> get_auto_shifted_key (settings v) key = true ->
  keycode = key \/ keycode = KC_NO ->
  let shifted := b || (T <=? TIMER_DIFF_16 t t0) in
  exists st', autoshift_end keycode t trigger (mk_shifting k (mk_autoshift t0 key lr st (mk_flags true b true hs false false)))
    = mk_shifting (type_kb key shifted held (QS16 (settings v) QS_tap_code_delay) k)
        (mk_autoshift t key lr st' (mk_flags true shifted false false false false)).
Proof using Hrep.
  intros Hv Hm Hg Hc shifted. destruct (auto_shifted_basic _ _ Hg) as (Hb & _).
  assert (Hkey : (keycode =? key) || (keycode =? KC_NO) = true) by (destruct Hc as [->| ->]; by rewrite Z.eqb_refl, ?orb_true_r).
  unfold autoshift_end. cbn [as_vars autoshift_flags in_progress autoshift_lastkey]. rewrite Hkey. cbn [andb lastshifted autoshift_time].
  change (as_settings (mk_shifting k _)) with (settings (kb_vial k)). rewrite Hv. fold shifted.
  set (k1 := if shifted then with_mods (add_weak_mods 2) (if held then with_mods (del_mods 2) k else k)
             else if held then with_mods (del_mods 2) k else k).
  set (s1 := autoshift_press_user key shifted _).
  assert (H1 : exists st', s1 = mk_shifting (register_code key k1) (mk_autoshift t0 key lr st' (mk_flags true shifted false hs held false))).
  { unfold s1, on_as. cbn [as_kb as_vars]. set (w := set_autoshift_shift_state _ _ _).
    assert (Hw : w = mk_autoshift t0 key lr (autoshift_shift_states w) (mk_flags true shifted false hs false false)) by done.
    exists (autoshift_shift_states w). rewrite Hw. cbn [autoshift_shift_states].
    by rewrite (cancel_eq _ _ _ _ _ _ _ _ held l ot k Hm), (press_eq key). }
  destruct H1 as [st' ->].
  assert (Hr : kb_vial (register_code key k1) = v).
  { destruct (register_calm key k1 Hb) as [h ->]; [by unfold k1; destruct shifted, held; cbn; rewrite Hm|].
    by unfold k1; destruct shifted, held. }
  unfold as_settings. cbn [as_kb]. rewrite Hr, Hrep, andb_false_r. cbn [andb]. unfold on_as_kb. cbn [as_kb as_vars].
  rewrite (release_eq key), flush_eq by done. exists st'. reflexivity.
Qed.

(** The end of the waiting key types it. *)
Lemma end_types keycode t trigger p out s key t0 b : typing p out s -> waiting p = Some (key, t0, b) ->
  keycode = key \/ keycode = KC_NO ->
  let '(p', new) := type_waiting n T t p in typing p' (new ++ out) (autoshift_end keycode t trigger s).
Proof using Hrep.
  intros [(l & ot & Hk) Hh (Hf1 & Hf2 & Hf3) Hw] Ew Hc. unfold type_waiting. rewrite Ew in Hw |- *.
  destruct Hw as (Hip & Hlk & Ht & Hls & Hg). destruct (auto_shifted_basic _ _ Hg) as (Hb & _).
  destruct s as [k [tm lk lr st [en ls ip hs cl cr]]]. cbn [as_kb as_vars autoshift_flags as_enabled cancelling_lshift
    cancelling_rshift in_progress autoshift_lastkey autoshift_time lastshifted] in *. subst en cl cr ip lk tm ls.
  destruct (end_eq keycode t trigger key t0 lr st b hs (shift_held p) l ot k) as [st' ->];
    [apply Hk|apply Hk|done|done|].
  pose proof (type_kb_spec key (b || (T <=? TIMER_DIFF_16 t t0)) (shift_held p) (QS16 (settings v) QS_tap_code_delay) l ot out k Hb Hk Hh) as K.
  constructor; [by exists l, ot| |done|done]. unfold typed. cbn [shift_held]. destruct (eqb _ _) eqn:Ee; [|done].
  apply eqb_prop in Ee. by rewrite Ee.
Qed.

(** ** The events *)

Lemma send_idle held l ot out k : kbd v (mods_of held l ot) (blank n) out k -> head out = Some (no_key n (shift_bits held)) ->
  kbd v (mods_of held l ot) (blank n) out (send_keyboard_report k).
Proof using.
  intros Hk Hh. apply kbd_send in Hk; [|done]. rewrite push_same in Hk; [done|]. rewrite Hh. by destruct held.
Qed.
Lemma release_idle key held l ot out k : IS_BASIC_KEYCODE key = true ->
  kbd v (mods_of held l ot) (blank n) out k -> head out = Some (no_key n (shift_bits held)) ->
  kbd v (mods_of held l ot) (blank n) out (unregister_code key k).
Proof using.
  intros Hb Hk Hh. apply (kbd_unregister key) in Hk; [|done|done].
  destruct (blank_key n key Hb) as (_ & _ & Hd & _). rewrite Hd in Hk. rewrite push_same in Hk; [done|]. rewrite Hh. by destruct held.
Qed.
Lemma oneshots_idle held l ot out k : kbd v (mods_of held l ot) (blank n) out k ->
  kbd v (mods_of held l ot) (blank n) out (clear_oneshot_layer_state ONESHOT_OTHER_KEY_PRESSED
    (set_oneshot_mods (oneshot_mods (kb_mods k) .& Z.lnot (MOD_BIT KC_LEFT_SHIFT)) k)).
Proof using.
  intros Hk. set (k1 := set_oneshot_mods _ k).
  assert (E1 : k1 = k).
  { unfold k1, set_oneshot_mods. rewrite (kbd_mods _ _ _ _ _ Hk). case_if; [|done].
    pose proof (kbd_mods _ _ _ _ _ Hk) as Hm. destruct k. cbn in *. by rewrite Hm. }
  rewrite E1. apply (kbd_same _ _ _ _ k); [..|done]; unfold clear_oneshot_layer_state; by case_if.
Qed.

(** A key press first types the key that waits. *)
Lemma press_ends t p out s : typing p out s ->
  let '(p', new) := type_waiting n T t p in
  typing p' (new ++ out) (if in_progress (autoshift_flags (as_vars s)) then autoshift_end KC_NO t false s else s)
  /\ waiting p' = None /\ shift_held p' = shift_held p.
Proof using Hrep.
  intros Hs. destruct (waiting p) as [[[key t0] b]|] eqn:Ew.
  - pose proof (end_types KC_NO t false p out s key t0 b Hs Ew (or_intror eq_refl)) as H.
    pose proof (ty_waiting _ _ _ Hs) as Hw. rewrite Ew in Hw. destruct Hw as (-> & _).
    unfold type_waiting in *. rewrite Ew in *. done.
  - pose proof (ty_waiting _ _ _ Hs) as Hw. rewrite Ew in Hw. rewrite Hw. unfold type_waiting. by rewrite Ew.
Qed.

(** The key is the one that waits. *)
Lemma queued_press_waits key t record p out s : typing p out s -> waiting p = None ->
  get_auto_shifted_key (settings v) key = true ->
  let r := autoshift_press key t record s in
  r.1 = false /\ typing (mk_typist (Some (key, t, shift_held p)) (shift_held p)) out r.2.
Proof using Hrep.
  intros [(l & ot & Hk) Hh (Hf1 & Hf2 & Hf3) _] _ Hg.
  destruct s as [k [tm lk lr st [en ls ip hs cl cr]]]. cbn [as_kb as_vars autoshift_flags as_enabled cancelling_lshift
    cancelling_rshift] in *. subst en cl cr.
  pose proof (kbd_mods _ _ _ _ _ Hk) as Hm. pose proof (kbd_vial _ _ _ _ _ Hk) as Hv.
  unfold autoshift_press. cbn [as_kb]. rewrite Hm. cbn [mods_of real_mods oneshot_mods].
  assert (Hno : truthy ((shift_bits (shift_held p) .| 0) .& Z.lnot (MOD_BIT KC_LEFT_SHIFT)) = false) by (by destruct (shift_held p)).
  rewrite Hno. cbn [andb]. unfold repeats, as_settings. cbn [on_as as_kb as_vars].
  rewrite Hv, Hrep, andb_false_r. cbn [andb]. rewrite Hm. cbn [mods_of real_mods oneshot_mods].
  assert (Hls : truthy ((shift_bits (shift_held p) .| 0) .& MOD_BIT KC_LEFT_SHIFT) = shift_held p) by (by destruct (shift_held p)).
  rewrite Hls. split; [done|]. constructor; [|exact Hh|done|done].
  exists l, ot. exact (oneshots_idle _ _ _ _ _ Hk).
Qed.

(** The release of a key that no longer waits. *)
Lemma release_types key t p out s : typing p out s -> get_auto_shifted_key (settings v) key = true ->
  (forall t0 b, waiting p <> Some (key, t0, b)) ->
  typing (match waiting p with Some (k0, t0, b) => mk_typist (Some (k0, t, b)) (shift_held p) | None => p end) out
    (autoshift_end key t false s).
Proof using.
  intros [(l & ot & Hk) Hh (Hf1 & Hf2 & Hf3) Hw] Hg Hne. destruct (auto_shifted_basic _ _ Hg) as (Hb & _ & _ & _ & Hno & _).
  destruct s as [k [tm lk lr st [en ls ip hs cl cr]]]. cbn [as_kb as_vars autoshift_flags as_enabled cancelling_lshift
    cancelling_rshift in_progress autoshift_lastkey autoshift_time lastshifted] in *. subst en cl cr.
  pose proof (release_idle key _ _ _ _ _ Hb Hk Hh) as Hk'.
  unfold autoshift_end. cbn [as_vars autoshift_flags in_progress autoshift_lastkey].
  destruct (waiting p) as [[[k0 t0] b]|] eqn:Ew.
  - destruct Hw as (-> & -> & -> & -> & Hg0). assert (Hn : (key =? k0) = false) by (apply Z.eqb_neq; intros ->; by eapply Hne).
    rewrite Hn, Hno. cbn [andb orb]. rewrite (release_eq key) by done. constructor; [by exists l, ot|done|done|done].
  - rewrite Hw. cbn [andb]. rewrite (release_eq key) by done. case_if.
    + rewrite flush_eq. constructor; [|done|done|cbn; by rewrite Ew]. exists l, ot. cbv zeta iota. cbn [on_as as_kb].
      apply send_idle; [|done]. assert (Hd : mods_of (shift_held p) l ot = del_weak_mods 2 (mods_of (shift_held p) l ot)) by done.
      rewrite Hd. by apply kbd_with_mods.
    + constructor; [by exists l, ot|done|done|cbn; by rewrite Ew].
Qed.

(** An auto-shifted key, or left Shift. *)
Definition typable (ev : shift_event) : Prop :=
  match ev with
  | Key _ keycode _ _ => keycode = KC_LEFT_SHIFT \/ get_auto_shifted_key (settings v) keycode = true
  | Scan _ => True
  end.

Lemma clock_typing t p out s : typing p out s -> typing p out (on_as_kb (clock t) s).
Proof using.
  intros [(l & ot & Hk) Hh Hf Hw]. constructor; try done. exists l, ot. by apply (kbd_same _ _ _ _ (as_kb s)).
Qed.

(** Left Shift changes the modifiers and nothing else. *)
Lemma shift_types (down : bool) p out s : typing p out s ->
  typing (mk_typist (waiting p) down) ((if eqb down (shift_held p) then [] else [no_key n (shift_bits down)]) ++ out)
    (on_as_kb (if down then register_code KC_LEFT_SHIFT else unregister_code KC_LEFT_SHIFT) s).
Proof using.
  intros [(l & ot & Hk) Hh Hf Hw].
  destruct (kbd_register_mod KC_LEFT_SHIFT v (mods_of (shift_held p) l ot) (blank n) out (as_kb s) eq_refl eq_refl Hk) as [K1 K2].
  assert (H : kbd v (mods_of down l ot) (blank n)
    (push (no_key n (shift_bits down)) out) (as_kb (on_as_kb (if down then register_code KC_LEFT_SHIFT else unregister_code KC_LEFT_SHIFT) s))).
  { destruct down, (shift_held p); [exact K1|exact K1|exact K2|exact K2]. }
  assert (Hp : push (no_key n (shift_bits down)) out = (if eqb down (shift_held p) then [] else [no_key n (shift_bits down)]) ++ out).
  { destruct down, (shift_held p); cbn [eqb app];
      first [by apply push_same|apply push_new; rewrite Hh; unfold no_key; cbn; congruence]. }
  rewrite Hp in H. constructor; [by exists l, ot| |done|done].
  cbn [shift_held]. destruct (eqb down (shift_held p)) eqn:Ee; [|done]. apply eqb_prop in Ee. by rewrite Ee.
Qed.

Lemma lastkey_typing key p out s : waiting p = None -> typing p out s -> typing p out (on_as (set_lastkey key) s).
Proof using. intros Hw [A B C D]. constructor; try done. by rewrite Hw in *. Qed.
Lemma cancel_typing p out s : typing p out s -> typing p out (on_as (with_flags (set_cancelling_l false)) s).
Proof using. intros [A B (C1 & C2 & C3) D]. constructor; done. Qed.

Lemma typing_settings p out s : typing p out s -> as_settings s = settings v.
Proof using. intros [(l & ot & Hk) _ _ _]. unfold as_settings. by rewrite (kbd_vial _ _ _ _ _ Hk). Qed.
Lemma typing_on p out s : typing p out s -> QS_auto_shift_enable s = true.
Proof using Hon. intros Hs. unfold QS_auto_shift_enable. by rewrite (typing_settings _ _ _ Hs). Qed.

(** A press, whatever waits. *)
Lemma press_types pos keycode t p out s : typing p out s -> now (as_kb s) = t ->
  keycode = KC_LEFT_SHIFT \/ get_auto_shifted_key (settings v) keycode = true ->
  let '(p', new) := type_event n T true (Key pos keycode true t) p in
  let '(go, s') := process_auto_shift keycode (key_record pos true t) s in
  typing p' (new ++ out) (if go : bool then on_as_kb (register_code keycode) s' else s').
Proof using Hon Hrep.
  intros Hs Ht Hev. cbn [type_event]. unfold process_auto_shift. rewrite (typing_on _ _ _ Hs), Ht.
  cbn [negb key_record event_record rec_event ev_pressed].
  pose proof (press_ends t p out s Hs) as Hend. destruct (type_waiting n T t p) as [p1 new].
  destruct Hend as (H1 & W1 & E1). set (s1 := if in_progress _ then _ else _) in *.
  destruct (ty_flags _ _ _ H1) as (F1 & F2 & F3). destruct Hev as [->|Hg].
  - change (IS_RETRO KC_LEFT_SHIFT) with false. change (KC_LEFT_SHIFT =? QK_AUTO_SHIFT_TOGGLE) with false.
    change (KC_LEFT_SHIFT =? QK_AUTO_SHIFT_ON) with false. change (KC_LEFT_SHIFT =? QK_AUTO_SHIFT_OFF) with false.
    change (KC_LEFT_SHIFT =? KC_LEFT_SHIFT) with true. cbv iota. unfold autoshift_key. rewrite F1.
    change (get_auto_shifted_key _ KC_LEFT_SHIFT) with false. cbn [negb ev_pressed rec_event key_record event_record].
    pose proof (shift_types true p1 (new ++ out) _ (lastkey_typing KC_NO _ _ _ W1 H1)) as H2.
    rewrite <- app_assoc. rewrite E1 in *. by destruct (shift_held p).
  - destruct (auto_shifted_basic _ _ Hg) as (_ & R1 & R2 & R3 & R4 & R5 & R6 & R7). rewrite R1, R2, R5, R6, R7.
    unfold autoshift_key. rewrite F1, (typing_settings _ _ _ H1), Hg. cbn [negb ev_pressed rec_event key_record event_record].
    destruct (queued_press_waits keycode t (event_record (mk_event pos t KEY_EVENT true)) p1 (new ++ out) s1 H1 W1 Hg) as [Hf Hp].
    destruct (autoshift_press _ _ _ _) as [go s2]. cbn [fst snd] in *. subst go. exact Hp.
Qed.

Lemma lift_types pos keycode t p out s : typing p out s -> now (as_kb s) = t ->
  keycode = KC_LEFT_SHIFT \/ get_auto_shifted_key (settings v) keycode = true ->
  let '(p', new) := type_event n T true (Key pos keycode false t) p in
  let '(go, s') := process_auto_shift keycode (key_record pos false t) s in
  typing p' (new ++ out) (if go : bool then on_as_kb (unregister_code keycode) s' else s').
Proof using Hon Hrep.
  intros Hs Ht Hev. cbn [type_event]. unfold process_auto_shift. rewrite (typing_on _ _ _ Hs), Ht.
  cbn [negb key_record event_record rec_event ev_pressed]. destruct Hev as [->|Hg].
  - change (KC_LEFT_SHIFT =? KC_LEFT_SHIFT) with true. cbv iota. apply cancel_typing in Hs.
    destruct (ty_flags _ _ _ Hs) as (F1 & _). unfold autoshift_key. rewrite F1.
    change (get_auto_shifted_key _ KC_LEFT_SHIFT) with false. cbn [negb ev_pressed rec_event key_record event_record].
    pose proof (shift_types false p out _ Hs) as H2. by destruct (shift_held p).
  - destruct (auto_shifted_basic _ _ Hg) as (_ & R1 & R2 & R3 & R4 & _). rewrite R1, R2, R3. unfold autoshift_key.
    destruct (ty_flags _ _ _ Hs) as (F1 & _). rewrite F1, (typing_settings _ _ _ Hs), Hg.
    cbn [negb ev_pressed rec_event key_record event_record].
    destruct (waiting p) as [[[k0 t0] b]|] eqn:Ew; [destruct (Z.eqb_spec keycode k0) as [->|Hne]|].
    + by apply (end_types k0 t false p out s k0 t0 b Hs Ew (or_introl eq_refl)).
    + pose proof (release_types keycode t p out s Hs Hg) as H. rewrite Ew in H. apply H. congruence.
    + pose proof (release_types keycode t p out s Hs Hg) as H. rewrite Ew in H. by apply H.
Qed.

Lemma scan_types t p out s : typing p out s -> now (as_kb s) = t ->
  let '(p', new) := type_event n T true (Scan t) p in typing p' (new ++ out) (autoshift_matrix_scan s).
Proof using Hon Hrep.
  intros Hs Ht. cbn [type_event]. unfold autoshift_matrix_scan. rewrite (typing_on _ _ _ Hs), Ht, (typing_settings _ _ _ Hs).
  cbn [negb]. pose proof (ty_waiting _ _ _ Hs) as Hw. destruct (waiting p) as [[[k0 t0] b]|] eqn:Ew; [|by rewrite Hw].
  destruct Hw as (-> & Hk & -> & _). case_if; [|done]. rewrite Hk.
  by apply (end_types k0 t true p out s k0 t0 b Hs Ew (or_introl eq_refl)).
Qed.

Lemma run_types ev p out s : typable ev -> typing p out s ->
  let '(p', new) := type_event n T true ev p in typing p' (new ++ out) (run_shift_event s ev).
Proof using Hon Hrep.
  intros Hev Hs. destruct ev as [pos keycode pressed t|t]; cbn [run_shift_event typable] in *; apply (clock_typing t) in Hs.
  - destruct pressed; [pose proof (press_types pos keycode t p out _ Hs eq_refl Hev) as H
                      |pose proof (lift_types pos keycode t p out _ Hs eq_refl Hev) as H];
      destruct (type_event _ _ _ _) as [p' new]; by destruct (process_auto_shift _ _ _).
  - by apply scan_types.
Qed.

Lemma all_types evs : forall p out s, Forall typable evs -> typing p out s ->
  history (as_kb (foldl run_shift_event s evs)) = type_all n T true evs p ++ out
  /\ exists p', typing p' (type_all n T true evs p ++ out) (foldl run_shift_event s evs).
Proof using Hon Hrep.
  induction evs as [|ev evs IH]; intros p out s Hev Hs; cbn [foldl type_all app].
  - split; [|by exists p]. destruct (ty_kb _ _ _ Hs) as (l & ot & Hk). apply Hk.
  - inversion Hev as [|? ? He Hevs]; subst. pose proof (run_types ev p out s He Hs) as H.
    destruct (type_event n T true ev p) as [p' new]. rewrite <- app_assoc. by apply IH.
Qed.
End typing.

(** C32: What auto shift types. From a keyboard at rest, with auto shift on and
    repeating off, let auto-shifted keys and left Shift go down and up and the
    matrix be scanned, at any times. A key waits from its press until its release,
    the next press, or the first scan after the timeout; then it is typed, once
    and before any later key, pressed and released, with Shift when Shift was held
    at its press or its time had reached the timeout; Shift held by the user is
    given back. The reports sent are exactly these. When no other auto-shifted
    key is released while a key waits, its time counts from its press, as the
    documentation says. In a roll the code restarts the time at the release of the
    other key, against the documentation, and the reports are those of that
    timing. At the end no key is left in the report. *)
Theorem auto_shift_types k evs :
  at_rest k -> truthy (QS8 (settings (kb_vial k)) QS_auto_shift .& 1) = true ->
  get_auto_shift_repeat (settings (kb_vial k)) = false ->
  Forall (fun ev => match ev with
                    | Key _ keycode _ _ => keycode = KC_LEFT_SHIFT \/ get_auto_shifted_key (settings (kb_vial k)) keycode = true
                    | Scan _ => True
                    end) evs ->
  let s := foldl run_shift_event (mk_shifting k autoshift_start) evs in
  let timeout := autoshift_timeout (settings (kb_vial k)) in
  let idle := mk_typist None false in
  (unrolled (nkro_of k) timeout false evs idle = true ->
   history (as_kb s) = type_all (nkro_of k) timeout false evs idle ++ [blank_report (nkro_of k)])
  /\ history (as_kb s) = type_all (nkro_of k) timeout true evs idle ++ [blank_report (nkro_of k)]
  /\ (forall key, byte_range key -> report_pressed (shown (as_kb s)) key = false).
Proof.
  intros Hrest Hon Hrep Hevs s timeout idle. pose proof (rest_level k Hrest) as [[Hl _] _]. destruct Hrest as (Hr & Hs & Hk & Hm).
  assert (H0 : typing (kb_vial k) (nkro_of k) (mk_typist None false) [blank_report (nkro_of k)] (mk_shifting k autoshift_start)).
  { constructor; [|by destruct (nkro_of k)|done|done]. exists 0, 0. constructor; [done|exact Hm|exact Hr|exact Hl|].
    unfold history. cbn [as_kb]. by rewrite Hs. }
  destruct (all_types (kb_vial k) (nkro_of k) Hon Hrep evs _ _ _ Hevs H0) as [H [p' Hp]].
  split; [intros Hu; rewrite <- (unrolled_all _ _ _ _ Hu); exact H|split; [exact H|]].
  intros key Hkey. destruct (ty_kb _ _ _ _ _ Hp) as (l & ot & Hkb). fold s in Hkb. 
  assert (Hsh : shown (as_kb s) = no_key (nkro_of k) (shift_bits (shift_held p'))).
  { pose proof (ty_head _ _ _ _ _ Hp) as Hh. pose proof (kbd_history _ _ _ _ _ Hkb) as Hhist.
    rewrite history_cons in Hhist. rewrite <- Hhist in Hh. cbn in Hh. congruence. }
  rewrite Hsh. by apply no_key_pressed.
Qed.
End proofs.

(** ** Examples *)

Section witnesses.
#[local] Existing Instance KeymapExample.config.
#[local] Existing Instance MouseKey.mcfg.

(** Auto shift is on, with the standard timeout of 175. *)
Definition shift_vial : vial_state KeymapExample.store :=
  mk_vial (mk_qs KeymapExample.blank (<[27%nat := 1]> (memset 0 36)) 0 175 (mk_mousekey 0 0 0 0 0 0 0 0) 0) 0 0 0 0 [] [] [] [].
Definition shift_kb : kb KeymapExample.store := set_vial shift_vial example_kb.
Definition a_key : keypos_t := mk_key 0 0.
Definition b_key : keypos_t := mk_key 1 0.

(** A is held over the timeout, B is tapped. *)
Lemma auto_shift_types_witness :
  history (as_kb (foldl run_shift_event (mk_shifting shift_kb autoshift_start)
    [Key a_key 4 true 1000; Scan 1180; Key a_key 4 false 1300; Key b_key 5 true 2000; Key b_key 5 false 2080]))
  = typed false 5 false false ++ typed false 4 true false ++ [blank_report false].
Proof.
  refine (eq_trans (proj1 (auto_shift_types shift_kb
    [Key a_key 4 true 1000; Scan 1180; Key a_key 4 false 1300; Key b_key 5 true 2000; Key b_key 5 false 2080] _ eq_refl eq_refl _) eq_refl) _).
  - by split_and!.
  - repeat constructor; by right.
  - vm_compute. reflexivity.
Defined.

(** B goes down while A is held, A is released: B has to be held for the timeout
    from there. It was down for 190. *)
Lemma release_restarts_timer :
  history (as_kb (foldl run_shift_event (mk_shifting shift_kb autoshift_start)
    [Key a_key 4 true 1000; Key b_key 5 true 1050; Key a_key 4 false 1100; Scan 1230; Key b_key 5 false 1240]))
  = typed false 5 false false ++ typed false 4 false false ++ [blank_report false].
Proof. vm_compute. reflexivity. Qed.
End witnesses.
