(* ===== verification/KeyboardTaskProofs.v ===== *)
(** From the matrix to the key events: what the main loop makes of the keys, and
    of keys that bounce. *)

From S2P Require Import Prelude.
From S2P Require Import Debounce.
From S2P Require Import DebounceCells.
From S2P Require Import DebounceAutomata.
From S2P Require Import DebounceProofs.
From S2P Require Import DebounceTheorems.
From S2P Require Import KeymapCommon.
From S2P Require Import Keyboard.
From S2P Require Import Encoder.
From S2P Require Import EncoderProofs.
From S2P Require Import KeyboardTask.

(** The presses and releases of a key among the events, the latest of which is first. *)
Definition is_key (r c : Z) (e : keyevent_t) : bool :=
  bool_decide (ev_type e = KEY_EVENT) && (row (ev_key e) =? r) && (col (ev_key e) =? c).
Definition key_presses (r c : Z) (log : list keyevent_t) : list bool :=
  rev (map ev_pressed (List.filter (is_key r c) log)).

(** Every event turns the key over; [b] is how the key was before. *)
Fixpoint toggles (b : bool) (l : list bool) : Prop :=
  match l with
  | [] => True
  | x :: l => x = negb b /\ toggles x l
  end.
Lemma toggles_app b l x : toggles b l -> x = negb (List.last l b) -> toggles b (l ++ [x]).
Proof.
  revert b. induction l as [|y l IH]; intros b Hl Hx; cbn [app toggles]; [done|].
  destruct Hl as [Hy Hl]. rewrite last_cons in Hx. split; [done|]. by apply IH.
Qed.

Lemma toggles_snoc b l x : toggles b (l ++ [x]) -> x = negb (List.last l b).
Proof.
  revert b. induction l as [|y l IH]; intros b Hl; cbn [app toggles] in *; [apply Hl|].
  destruct Hl as [Hy Hl]. rewrite last_cons. by apply IH.
Qed.

Lemma key_presses_cons r c e log :
  key_presses r c (e :: log) = key_presses r c log ++ (if is_key r c e then [ev_pressed e] else []).
Proof. unfold key_presses. cbn [List.filter]. case_if; cbn; [done|by rewrite app_nil_r]. Qed.

Section proofs.
Context {W M : Type} {base : KeyboardHost W} {dcfg : DebounceConfig} {dok : DebounceConfigOk dcfg} {ecfg : EncoderConfig}.
Context (rows_of : M -> list Z) (scan : list Z -> Z -> M -> M).
Implicit Types (s : keyboard (W * list keyevent_t) M) (r c : Z).

Definition log_of s : list keyevent_t := (rest_of s).2.
Definition presses r c s : list bool := key_presses r c (log_of s).
Definition previous_bit r c s : bool := Z.testbit (nthZ (matrix_previous s) r) c.

(** The events of a key turn it over, and the last one is how the loop has it. *)
Record followed r c s : Prop := {
  fo_toggles : toggles false (presses r c s);
  fo_last : List.last (presses r c s) false = previous_bit r c s;
}.

(** ** One row *)

Definition same_matrix s s' : Prop := the_matrix s' = the_matrix s /\ matrix_previous s' = matrix_previous s.

Lemma col_bit z c : 0 <= c -> truthy (z .& (1 << c)) = Z.testbit z c.
Proof using. intros. rewrite <- truthy_bit by done. done. Qed.

Lemma process_cols r row cur prev s c : 0 <= c < num_cols ->
  let s' := for_Z 0 num_cols (process_col true row cur (Z.lxor cur prev)) s in
  same_matrix s s'
  /\ presses r c s' = presses r c s ++ (if (row =? r) && negb (eqb (Z.testbit cur c) (Z.testbit prev c)) then [Z.testbit cur c] else []).
Proof using.
  intros Hc s'.
  set (P n t := same_matrix s t /\ presses r c t = presses r c s
       ++ (if (c <? n) && ((row =? r) && negb (eqb (Z.testbit cur c) (Z.testbit prev c))) then [Z.testbit cur c] else [])).
  assert (HP : P num_cols s').
  { unfold s'. apply (for_Z_inv _ P); [lia| |].
    - split; [done|]. rewrite (proj2 (Z.ltb_ge c 0)) by lia. by rewrite app_nil_r.
    - intros n t Hn [Hm Ht]. unfold process_col. rewrite !col_bit, Z.lxor_spec by lia.
      destruct (xorb (Z.testbit cur n) (Z.testbit prev n)) eqn:Ex.
      + split; [done|]. unfold presses, log_of. cbn [on_rest rest_of exec event_host logging_host logging snd].
        rewrite key_presses_cons. fold (log_of t). fold (presses r c t). rewrite Ht, <- app_assoc. f_equal.
        unfold is_key. cbn [MAKE_KEYEVENT ev_type ev_key ev_pressed KeymapCommon.row KeymapCommon.col].
        rewrite bool_decide_eq_true_2 by done. cbn [andb].
        destruct (Z.eqb_spec row r) as [->|]; cbn [andb]; [|by rewrite !andb_false_r].
        destruct (Z.eq_dec n c) as [->|Hne].
        * rewrite Z.ltb_irrefl, Z.eqb_refl, (proj2 (Z.ltb_lt c (c + 1))) by lia. cbn [andb app].
          by destruct (Z.testbit cur c), (Z.testbit prev c).
        * rewrite (proj2 (Z.eqb_neq n c)) by done. rewrite app_nil_r.
          assert (E : (c <? n + 1) = (c <? n)) by (destruct (Z.ltb_spec c n), (Z.ltb_spec c (n + 1)); lia || done). by rewrite E.
      + split; [done|]. rewrite Ht. f_equal. destruct (Z.eq_dec n c) as [->|Hne].
        * rewrite Z.ltb_irrefl. cbn [andb]. destruct (Z.testbit cur c), (Z.testbit prev c); try done; cbn; by rewrite !andb_false_r.
        * assert (E : (c <? n + 1) = (c <? n)) by (destruct (Z.ltb_spec c n), (Z.ltb_spec c (n + 1)); lia || done). by rewrite E. }
  destruct HP as [H1 H2]. split; [done|]. by rewrite (proj2 (Z.ltb_lt c num_cols)) in H2 by lia.
Qed.

(** The state between the rows of a scan. *)
Record between r c s : Prop := {
  be_followed : followed r c s;
  be_size : lenZ (matrix_previous s) = num_rows;
}.

Lemma process_row_between r c row s : 0 <= c < num_cols -> 0 <= row < num_rows -> between r c s ->
  between r c (process_row rows_of true row s) /\ the_matrix (process_row rows_of true row s) = the_matrix s.
Proof using dok.
  intros Hc Hrow [[Ht Hl] Hz]. unfold process_row. cbv zeta. case_if; [by split|].
  set (cur := matrix_get_row rows_of s row). set (prev := nthZ (matrix_previous s) row).
  destruct (process_cols r row cur prev s c Hc) as [[Hm Hp] Hpr]. set (s1 := for_Z _ _ _ s) in *.
  split; [|exact Hm]. split; [|cbn; by rewrite lenZ_updZ, Hp]. cbn.
  assert (Hpb : previous_bit r c (mk_keyboard (rest_of s1) (the_matrix s1) (updZ (matrix_previous s1) row cur) (last_tick s1)
      (the_encoders s1) (input_activity s1)) = if row =? r then Z.testbit cur c else previous_bit r c s).
  { unfold previous_bit. cbn [matrix_previous]. rewrite Hp. destruct (Z.eqb_spec row r) as [->|Hne].
    - by rewrite nthZ_updZ_eq by lia.
    - by rewrite nthZ_updZ_ne. }
  assert (Hprev : row = r -> Z.testbit prev c = List.last (presses r c s) false) by (intros ->; by rewrite Hl).
  assert (Hpr' : presses r c (mk_keyboard (rest_of s1) (the_matrix s1) (updZ (matrix_previous s1) row cur) (last_tick s1)
      (the_encoders s1) (input_activity s1)) = presses r c s1) by done.
  constructor; rewrite Hpr', Hpr.
  - case_if; [|by rewrite app_nil_r]. apply toggles_app; [done|]. b2p. rewrite <- Hprev by done.
    by destruct (Z.testbit cur c), (Z.testbit prev c).
  - rewrite Hpb. destruct (Z.eqb_spec row r) as [E|]; cbn [andb]; [|by rewrite app_nil_r]. specialize (Hprev E).
    destruct (Z.testbit cur c) eqn:Eb, (Z.testbit prev c) eqn:Ep; cbn [eqb negb]; rewrite ?app_nil_r, ?last_last; done.
Qed.

Lemma rows_between r c s : 0 <= c < num_cols -> between r c s ->
  let s' := for_Z 0 num_rows (process_row rows_of true) s in between r c s' /\ the_matrix s' = the_matrix s.
Proof using dok.
  intros Hc Hs s'. pose proof rows_nonneg. unfold s'.
  apply (for_Z_inv _ (fun _ t => between r c t /\ the_matrix t = the_matrix s)); [lia|done|].
  intros i t Hi [Hb Hm]. destruct (process_row_between r c i t Hc ltac:(lia) Hb) as [H1 H2]. split; [done|by rewrite H2].
Qed.

Lemma tick_between r c s : between r c s -> between r c (generate_tick_event s) /\ the_matrix (generate_tick_event s) = the_matrix s.
Proof using.
  intros [[H1 H2] H3]. unfold generate_tick_event. case_if; [|by split].
  assert (Et : presses r c (mk_keyboard (exec (MAKE_TICK_EVENT (read_time (rest_of s))) (rest_of s)) (the_matrix s) (matrix_previous s)
     (read_time (rest_of s)) (the_encoders s) (input_activity s)) = presses r c s).
  { unfold presses, log_of. cbn [rest_of exec event_host logging_host logging snd]. rewrite key_presses_cons.
    unfold is_key. cbn. by rewrite app_nil_r. }
  split; [|done]. constructor; [|done]. constructor; by rewrite Et.
Qed.

Lemma matrix_task_between r c pins s : 0 <= c < num_cols -> between r c s ->
  should_process_keypress (rest_of s) = true -> matrix_can_read (rest_of s) = true ->
  let s' := (matrix_task rows_of scan pins s).2 in
  between r c s' /\ the_matrix s' = scan pins (read_time_fast (rest_of s)) (the_matrix s).
Proof using dok.
  intros Hc Hs Hp Hr s'. unfold s', matrix_task. rewrite Hr. cbn [negb]. set (s1 := mk_keyboard _ _ _ _ _ _).
  assert (H1 : between r c s1) by (destruct Hs as [[A B] C]; by repeat constructor).
  case_if; cbn [snd]; [by apply tick_between|]. change (rest_of s1) with (rest_of s). rewrite Hp. by apply rows_between.
Qed.

(** A row makes at most one event of a key, and none of a key of another row. *)
Lemma row_presses r c row s : 0 <= c < num_cols ->
  exists out, presses r c (process_row rows_of true row s) = presses r c s ++ out /\ (length out <= 1)%nat /\ (row <> r -> out = []).
Proof using.
  intros Hc. unfold process_row. cbv zeta. destruct (negb _ || _); [exists []; split; [by rewrite app_nil_r|by split; [cbn; lia|]]|].
  destruct (process_cols r row (matrix_get_row rows_of s row) (nthZ (matrix_previous s) row) s c Hc) as [_ Hpr].
  eexists. split; [exact Hpr|]. split; [case_if; cbn; lia|]. intros Hne. by rewrite (proj2 (Z.eqb_neq row r)).
Qed.

(** A scan makes at most one event of a key. *)
Lemma matrix_task_grows r c pins s : 0 <= c < num_cols -> lenZ (matrix_previous s) = num_rows ->
  should_process_keypress (rest_of s) = true -> matrix_can_read (rest_of s) = true ->
  let s' := (matrix_task rows_of scan pins s).2 in
  presses r c s' = presses r c s \/ exists v, presses r c s' = presses r c s ++ [v].
Proof using dok.
  intros Hc Hz Hp Hr s'. unfold s', matrix_task. rewrite Hr. cbn [negb]. set (s1 := mk_keyboard _ _ _ _ _ _).
  destruct (negb (existsb _ _)); cbn [snd].
  - left. unfold generate_tick_event. destruct (negb _); [|done].
    unfold presses, log_of. cbn [rest_of exec event_host logging_host logging snd]. rewrite key_presses_cons.
    unfold is_key. cbn. by rewrite app_nil_r.
  - change (rest_of s1) with (rest_of s). rewrite Hp. change (presses r c s) with (presses r c s1).
    pose proof rows_nonneg.
    assert (HP : (num_rows <= r -> presses r c (for_Z 0 num_rows (process_row rows_of true) s1) = presses r c s1)
      /\ (presses r c (for_Z 0 num_rows (process_row rows_of true) s1) = presses r c s1
          \/ exists v, presses r c (for_Z 0 num_rows (process_row rows_of true) s1) = presses r c s1 ++ [v])); [|apply HP].
    apply (for_Z_inv _ (fun n t => (n <= r -> presses r c t = presses r c s1)
      /\ (presses r c t = presses r c s1 \/ exists v, presses r c t = presses r c s1 ++ [v]))); [done|split; [done|by left]|].
    intros n t Hn [H1 H2]. destruct (row_presses r c n t Hc) as [out [Ho [Hr1 Hne]]]. rewrite Ho.
    destruct (Z.eq_dec n r) as [->|Hd].
    + split; [lia|]. rewrite (H1 ltac:(lia)). destruct out as [|v [|]]; [left; by rewrite app_nil_r|right; by exists v|cbn in Hr1; lia].
    + rewrite (Hne Hd), app_nil_r. split; [|done]. intros. apply H1. lia.
Qed.

(** ** One turn of the loop *)

Lemma taps_presses r c l (w : W * list keyevent_t) :
  key_presses r c (taps l w).2 = key_presses r c w.2.
Proof using.
  revert w. induction l as [|[i b] l IH]; intros w; cbn [taps foldl]; [done|]. unfold taps in IH. rewrite IH.
  unfold encoder_tap. cbn [delay exec event_host logging_host logging snd]. rewrite !key_presses_cons.
  unfold is_key, MAKE_ENCODER_EVENT. by destruct b; cbn; rewrite !app_nil_r.
Qed.

(** The encoders give no events of keys, whatever they do. *)
Lemma encoder_presses r c fuel changed (w : W * list keyevent_t) e :
  key_presses r c (handle_queue fuel changed w e).1.2.2 = key_presses r c w.2.
Proof using.
  revert changed w e. induction fuel as [|fuel IH]; intros changed w e; [done|]. cbn [handle_queue].
  destruct (encoder_dequeue_event e) as [[[i b]|] e']; [|done]. rewrite IH.
  exact (taps_presses r c [(i, b)] w).
Qed.

Lemma tasks_presses (fs : list (W -> W)) (w : W * list keyevent_t) :
  (foldl (fun w f => f w) w (map (fun f (w : W * list keyevent_t) => (f w.1, w.2)) fs)).2 = w.2.
Proof using. revert w. induction fs as [|f fs IH]; intros w; [done|]. cbn. by rewrite IH. Qed.

Lemma between_same r c s s' : presses r c s' = presses r c s -> matrix_previous s' = matrix_previous s ->
  between r c s -> between r c s'.
Proof using. intros E1 E2 [[A B] C]. constructor; [constructor|]; unfold previous_bit in *; by rewrite ?E1, ?E2. Qed.

Lemma keyboard_task_between r c pins pads s : 0 <= c < num_cols -> between r c s ->
  should_process_keypress (rest_of s) = true -> matrix_can_read (rest_of s) = true ->
  let s' := keyboard_task rows_of scan pins pads s in
  between r c s' /\ the_matrix s' = scan pins (read_time_fast (rest_of s)) (the_matrix s)
  /\ presses r c s' = presses r c (matrix_task rows_of scan pins s).2
  /\ matrix_previous s' = matrix_previous (matrix_task rows_of scan pins s).2.
Proof using dok.
  intros Hc Hs Hp Hr s'. unfold s', keyboard_task.
  destruct (matrix_task_between r c pins s Hc Hs Hp Hr) as [H1 H2].
  destruct (matrix_task rows_of scan pins s) as [changed s1]. cbn [snd] in *.
  set (s2 := if changed then set_activity last_matrix_activity_trigger s1 else s1).
  assert (E2 : rest_of s2 = rest_of s1 /\ the_matrix s2 = the_matrix s1 /\ matrix_previous s2 = matrix_previous s1
               /\ the_encoders s2 = the_encoders s1) by (unfold s2; by destruct changed).
  destruct E2 as (R2 & M2 & P2 & N2).
  destruct (encoder_task _ pads (rest_of (quantum_task s2)) (the_encoders (quantum_task s2))) as [[turned w] e] eqn:Ee.
  set (s3 := mk_keyboard w (the_matrix (quantum_task s2)) (matrix_previous (quantum_task s2)) (last_tick (quantum_task s2)) e
               (input_activity (quantum_task s2))).
  set (s4 := if turned then set_activity last_encoder_activity_trigger s3 else s3).
  assert (E4 : rest_of s4 = w /\ the_matrix s4 = the_matrix s1 /\ matrix_previous s4 = matrix_previous s1).
  { unfold s4, s3. destruct turned; cbn; by rewrite M2, P2. }
  destruct E4 as (R4 & M4 & P4).
  assert (Hlog : key_presses r c w.2 = key_presses r c (rest_of s1).2).
  { rewrite <- R2. transitivity (key_presses r c (rest_of (quantum_task s2)).2).
    - unfold encoder_task in Ee. case_match; [|by injection Ee as _ <- _].
      pose proof (encoder_presses r c queue_fuel false (rest_of (quantum_task s2))
        (encoder_driver_task pads (if signal_queue_drain (the_encoders (quantum_task s2))
           then encoder_queue_drain (mk_encoders (encoder_events (the_encoders (quantum_task s2))) false
             (encoder_state (the_encoders (quantum_task s2))) (encoder_pulses (the_encoders (quantum_task s2))))
           else the_encoders (quantum_task s2)))) as Henc. unfold encoder_handle_queue in Ee. rewrite Ee in Henc. exact Henc.
    - f_equal. apply tasks_presses. }
  assert (Hpr : presses r c (on_rest (fun w => foldl (fun w f => f w) w late_tasks) s4) = presses r c s1).
  { unfold presses, log_of. cbn [on_rest rest_of]. rewrite R4, <- Hlog. f_equal. apply tasks_presses. }
  split_and!; [by eapply between_same; [exact Hpr|exact P4|]|cbn; by rewrite M4|exact Hpr|exact P4].
Qed.

Lemma keyboard_task_grows r c pins pads s : 0 <= c < num_cols -> between r c s ->
  should_process_keypress (rest_of s) = true -> matrix_can_read (rest_of s) = true ->
  presses r c (keyboard_task rows_of scan pins pads s) = presses r c s
  \/ exists v, presses r c (keyboard_task rows_of scan pins pads s) = presses r c s ++ [v].
Proof using dok.
  intros Hc Hs Hp Hr. destruct (keyboard_task_between r c pins pads s Hc Hs Hp Hr) as (_ & _ & -> & _).
  apply matrix_task_grows; [done|by destruct Hs|done|done].
Qed.

(** ** Without ghosts *)

(** The loop has every key as the scan left it. *)
Definition up_to_date n s : Prop :=
  forall r c, 0 <= r < n -> 0 <= c -> previous_bit r c s = Z.testbit (nthZ (rows_of (the_matrix s)) r) c.

Lemma process_row_current row s : MATRIX_HAS_GHOST = false -> 0 <= row < num_rows -> lenZ (matrix_previous s) = num_rows ->
  let s' := process_row rows_of true row s in
  nthZ (matrix_previous s') row = nthZ (rows_of (the_matrix s)) row
  /\ (forall r, r <> row -> nthZ (matrix_previous s') r = nthZ (matrix_previous s) r)
  /\ the_matrix s' = the_matrix s /\ lenZ (matrix_previous s') = num_rows.
Proof using dok.
  intros Hg Hrow Hz s'. unfold s', process_row, has_ghost_in_row. cbv zeta.
  change (@MATRIX_HAS_GHOST _ (logging_host base)) with (@MATRIX_HAS_GHOST _ base). rewrite Hg. cbn [negb]. rewrite orb_false_r.
  destruct (truthy _) eqn:Et; cbn [negb].
  - set (s1 := for_Z 0 num_cols _ s). assert (Hs1 : the_matrix s1 = the_matrix s /\ matrix_previous s1 = matrix_previous s).
    { unfold s1. apply (for_Z_inv _ (fun _ t => the_matrix t = the_matrix s /\ matrix_previous t = matrix_previous s));
        [apply cols_nonneg|done|intros i t _ [<- <-]; unfold process_col; by repeat case_if]. }
    destruct Hs1 as [M1 P1]. cbn [the_matrix matrix_previous]. rewrite P1. split_and!.
    + by apply nthZ_updZ_eq; lia.
    + intros r Hr. by rewrite nthZ_updZ_ne.
    + done.
    + by rewrite lenZ_updZ.
  - split_and!; [|done|done|done]. unfold truthy in Et. b2p. unfold matrix_get_row in Et. apply Z.lxor_eq in Et. done.
Qed.

Lemma matrix_task_current pins s : MATRIX_HAS_GHOST = false -> lenZ (matrix_previous s) = num_rows ->
  should_process_keypress (rest_of s) = true -> matrix_can_read (rest_of s) = true ->
  up_to_date num_rows (matrix_task rows_of scan pins s).2.
Proof using dok.
  intros Hg Hz Hp Hr. unfold matrix_task. rewrite Hr. cbn [negb]. set (s1 := mk_keyboard _ _ _ _ _ _).
  assert (Hz1 : lenZ (matrix_previous s1) = num_rows) by done. pose proof rows_nonneg.
  destruct (negb (existsb _ _)) eqn:Ech; cbn [snd].
  - assert (H0 : up_to_date num_rows s1).
    { intros r c Hrow Hc. apply negb_true_iff in Ech. assert (Hx : truthy (Z.lxor (nthZ (matrix_previous s1) r) (matrix_get_row rows_of s1 r)) = false).
      { destruct (truthy _) eqn:Et; [|done]. rewrite <- Ech. symmetry. apply existsb_exists. exists r. split; [|done].
        apply list_elem_of_In, elem_of_seqZ. lia. }
      unfold truthy in Hx. b2p. apply Z.lxor_eq in Hx. unfold previous_bit. by rewrite Hx. }
    unfold generate_tick_event. case_if; exact H0.
  - change (rest_of s1) with (rest_of s). rewrite Hp.
    assert (HP : lenZ (matrix_previous (for_Z 0 num_rows (process_row rows_of true) s1)) = num_rows
                 /\ up_to_date num_rows (for_Z 0 num_rows (process_row rows_of true) s1)); [|apply HP].
    apply (for_Z_inv _ (fun n t => lenZ (matrix_previous t) = num_rows /\ up_to_date n t)); [done|split; [done|intros r c ?; lia]|].
    intros n t Hn [Hzt Hu]. destruct (process_row_current n t Hg Hn Hzt) as (C1 & C2 & C3 & C4). split; [done|].
    intros r c Hrow Hc. unfold previous_bit. rewrite C3. destruct (Z.eq_dec r n) as [->|Hne]; [by rewrite C1|].
    rewrite C2 by done. apply Hu; lia.
Qed.
End proofs.

(** ** Debounced keys *)

Section pipeline.
Context {W : Type} {base : KeyboardHost W} {dcfg : DebounceConfig} {dok : DebounceConfigOk dcfg} {ecfg : EncoderConfig}.
(** The clock runs between two turns of the loop. *)
Context (at_time : Z -> W -> W).
Context (at_time_ok : forall t w, read_time_fast (at_time t w) = timer_read_fast t).
Context (keypresses : forall w : W, should_process_keypress w = true) (readable : forall w : W, matrix_can_read w = true).

(** The matrix of a keyboard with [sym_defer_pk]. *)
Definition cooked_rows (m : list Z * statics Z) : list Z := cooked m.2.
Definition scan_pk (pins : list Z) (now : Z) (m : list Z * statics Z) : list Z * statics Z :=
  (matrix_scan SymDeferPk.debounce pins now m).2.

(** A turn of the loop: the time, what the pins read and what the encoders read. *)
Definition turn_of_loop (s : keyboard (W * list keyevent_t) (list Z * statics Z)) (p : Z * list Z * (Z -> Z * Z)) :
    keyboard (W * list keyevent_t) (list Z * statics Z) :=
  keyboard_task cooked_rows scan_pk p.1.2 p.2 (on_rest (fun w => (at_time p.1.1 w.1, w.2)) s).
Definition key_session (w : W) (e : encoder_st) (a : activity) (turns : list (Z * list Z * (Z -> Z * Z))) :
    keyboard (W * list keyevent_t) (list Z * statics Z) :=
  foldl turn_of_loop (mk_keyboard (w, []) (all_up, SymDeferPk.debounce_init) (memset 0 num_rows) 0 e a) turns.

Lemma key_session_state w e a turns r c : MATRIX_HAS_GHOST = false -> 0 <= r < num_rows -> 0 <= c < num_cols ->
  let s := key_session w e a turns in
  between r c s /\ the_matrix s = defer_pk_session (map fst turns)
  /\ previous_bit r c s = seen (defer_pk_session (map fst turns)) r c.
Proof using dok at_time_ok keypresses readable.
  intros Hg Hr Hc s. unfold s, key_session. induction turns as [|p turns IH] using rev_ind.
  - cbn. assert (Hz : previous_bit r c (mk_keyboard (w, [] : list keyevent_t) (all_up, SymDeferPk.debounce_init) (memset 0 num_rows) 0 e a) = false)
      by (unfold previous_bit; cbn; by rewrite nthZ_memset, Z.bits_0).
    split_and!; [|done|].
    + constructor; [|by apply lenZ_replicate, rows_nonneg]. by constructor.
    + rewrite Hz. unfold seen, defer_pk_session, session. cbn. by rewrite nthZ_memset, Z.bits_0.
  - rewrite foldl_app, map_app. cbn [foldl map]. destruct IH as (B & M & P). set (s0 := foldl _ _ turns) in *.
    unfold turn_of_loop. set (s1 := on_rest _ s0).
    assert (B1 : between r c s1) by (by apply (between_same r c s0)).
    destruct (keyboard_task_between cooked_rows scan_pk r c p.1.2 p.2 s1 Hc B1 (keypresses _) (readable _)) as (B2 & M2 & _ & P2).
    assert (Hm : the_matrix (keyboard_task cooked_rows scan_pk p.1.2 p.2 s1) = defer_pk_session (map fst turns ++ [p.1])).
    { rewrite M2. unfold s1. cbn [on_rest rest_of the_matrix read_time_fast logging_host fst]. rewrite at_time_ok, M.
      unfold defer_pk_session, session. by rewrite foldl_app. }
    split_and!; [done|done|]. unfold previous_bit. rewrite P2. fold (previous_bit r c (matrix_task cooked_rows scan_pk p.1.2 s1).2).
    rewrite (matrix_task_current cooked_rows scan_pk p.1.2 s1 Hg (be_size _ _ _ B1) (keypresses _) (readable _)) by lia.
    destruct (matrix_task_between cooked_rows scan_pk r c p.1.2 s1 Hc B1 (keypresses _) (readable _)) as [_ Hm2].
    rewrite Hm2, <- M2, Hm. done.
Qed.

(** C28: from bouncing contacts to key events. The main loop turns any number of
    times, less than a timer period apart, with whatever the pins and the encoders
    read; the matrix is debounced by [sym_defer_pk] and has no ghosts. Then the
    events of every key, all that [action_exec] got, turn it over one by one,
    beginning with a press; the last turn makes an event of the key only when all
    scans of the last [DEBOUNCE] milliseconds or more agree on what it says; and
    a key whose contact has been steady for [DEBOUNCE] milliseconds has had the
    event that says so. *)
Theorem debounced_key_events w e a t0 turns p r c :
  MATRIX_HAS_GHOST = false -> timely period t0 (map fst (turns ++ [p])) ->
  0 <= r < num_rows -> 0 <= c < num_cols ->
  let before := presses r c (key_session w e a turns) in
  let after := presses r c (key_session w e a (turns ++ [p])) in
  let h := history key_raw (r, c) (map fst (turns ++ [p])) in
  toggles false after
  /\ (after = before \/ exists v, after = before ++ [v] /\ held_for v DEBOUNCE t0 h)
  /\ (forall v, held_for v DEBOUNCE t0 h -> List.last after false = v).
Proof using dok at_time_ok keypresses readable.
  intros Hg Ht Hr Hc before after h.
  destruct (key_session_state w e a turns r c Hg Hr Hc) as (B1 & M1 & P1).
  destruct (key_session_state w e a (turns ++ [p]) r c Hg Hr Hc) as (B2 & M2 & P2).
  assert (Hl1 : List.last before false = seen (defer_pk_session (map fst turns)) r c) by (rewrite <- P1; apply B1).
  assert (Hl2 : List.last after false = seen (defer_pk_session (map fst (turns ++ [p]))) r c) by (rewrite <- P2; apply B2).
  destruct p as [[t pins] pads].
  assert (Em : map fst (turns ++ [(t, pins, pads)]) = map fst turns ++ [(t, pins)]) by (by rewrite map_app).
  unfold h. clear h. rewrite Em in *. destruct (defer_pk_filters t0 (map fst turns) t pins r c Ht Hr Hc) as [F1 F2].
  split; [apply B2|]. split; [|intros v Hv; rewrite Hl2; by apply F2].
  assert (Hgrow : after = before \/ exists v, after = before ++ [v]).
  { unfold after, before, key_session. rewrite foldl_app. cbn [foldl]. set (s0 := foldl _ _ turns). unfold turn_of_loop.
    set (s1 := on_rest _ s0). change (presses r c s0) with (presses r c s1).
    apply (keyboard_task_grows cooked_rows scan_pk); [done|by apply (between_same r c s0)|by apply keypresses|by apply readable]. }
  destruct Hgrow as [|[v Hv]]; [by left|right]. exists v. split; [done|].
  assert (Hlast : List.last after false = v) by (by rewrite Hv, last_last).
  rewrite <- Hlast, Hl2. apply F1. rewrite <- Hl2, <- Hl1, Hlast.
  destruct B2 as [[T2 _] _]. change (toggles false after) in T2. rewrite Hv in T2. apply toggles_snoc in T2.
  intros E. rewrite T2 in E. by destruct (List.last before false).
Qed.
End pipeline.

(** ** Examples *)

Module LoopExample.
(** Two rows of two keys, debounced for five milliseconds; the rest of the
    firmware is a clock. *)
#[export] Instance small_matrix : DebounceConfig :=
  {| DEBOUNCE_MS := 5; num_rows := 2; num_cols := 2; FAST_TIMER_T_SIZE := 16 |}.
#[export] Instance small_matrix_ok : DebounceConfigOk small_matrix.
Proof. split; cbn; lia. Qed.
Definition clock_loop (ghosts : bool) : KeyboardHost Z := {|
  event_host := {| exec _ w := w; read_time w := u16 w; delay ms w := w + ms |};
  read_time_fast w := timer_read_fast w;
  read_time32 w := u32 w;
  base_keycode w r c := 4;
  matrix_can_read w := true;
  should_process_keypress w := true;
  should_process_encoder w := true;
  MATRIX_HAS_GHOST := ghosts;
  quantum_tasks := [];
  late_tasks := [];
|}.
Definition no_pads : Z -> Z * Z := fun _ => (0, 0).
Definition quiet_activity : activity := mk_activity 0 0 0 0.
(** At time [t] the rows read [a] and [b]. *)
Definition turn_at (t a b : Z) : Z * list Z * (Z -> Z * Z) := (t, [a; b], no_pads).

(** A loop without debouncing, for ghosts. *)
Definition ghost_loop (s : keyboard (Z * list keyevent_t) (list Z)) (p : Z * list Z * (Z -> Z * Z)) :
    keyboard (Z * list keyevent_t) (list Z) :=
  keyboard_task (host := logging_host (clock_loop true)) (ecfg := EncoderExample.pair_config) (fun m => m) (fun pins _ _ => pins)
    p.1.2 p.2 (on_rest (fun w => (p.1.1, w.2)) s).
Definition ghost_start : keyboard (Z * list keyevent_t) (list Z) :=
  mk_keyboard (0, []) [0; 0] [0; 0] 0 (encoder_init (cfg := EncoderExample.pair_config) no_pads) quiet_activity.
Definition ticks (log : list keyevent_t) : list Z := map ev_time (List.filter IS_NOEVENT log).
End LoopExample.

Section witnesses.
Import LoopExample.
#[local] Existing Instance EncoderExample.pair_config.

Lemma debounced_key_events_witness :
  let turns := [turn_at 10 0 1; turn_at 12 0 0; turn_at 14 0 1; turn_at 20 0 1] in
  let s := key_session (base := clock_loop false) (fun t _ => t) 0 (encoder_init no_pads) quiet_activity turns in
  toggles false (presses 1 0 s) /\ List.last (presses 1 0 s) false = true.
Proof.
  cbv zeta. assert (Ht : timely period 9 (map fst ([turn_at 10 0 1; turn_at 12 0 0; turn_at 14 0 1] ++ [turn_at 20 0 1])))
    by (cbn; unfold period; cbn; lia).
  destruct (debounced_key_events (base := clock_loop false) (fun t _ => t) (fun t w => eq_refl) (fun w => eq_refl) (fun w => eq_refl)
    0 (encoder_init no_pads) quiet_activity 9 [turn_at 10 0 1; turn_at 12 0 0; turn_at 14 0 1] (turn_at 20 0 1) 1 0
    eq_refl Ht ltac:(cbn; lia) ltac:(cbn; lia)) as (H1 & _ & H3).
  split; [exact H1|]. apply H3.
  exists [(10, true); (12, false)], 14, true, [(20, true)]. split; [reflexivity|]. split; [by repeat constructor|].
  unfold DEBOUNCE, last_scan. cbn. lia.
Defined.

(** Three keys of a rectangle are down and the fourth reads as down: its row is
    ignored, the matrix counts as changed in every scan, and there are no tick
    events until the row reads otherwise. *)
Lemma ghosts_stop_ticks :
  ticks (rest_of (foldl ghost_loop ghost_start
    [turn_at 10 3 1; turn_at 20 3 1; turn_at 30 3 3; turn_at 130 3 3; turn_at 230 3 3; turn_at 330 3 3; turn_at 430 3 1; turn_at 440 3 1])).2
  = [440; 430; 20].
Proof. vm_compute. reflexivity. Qed.
End witnesses.
