(* ===== verification/KeyModesProofs.v ===== *)
(** * What the modes of the keyboard guarantee

    Unlocking takes the whole sequence, a locked key stays down, a caps word is
    typed in capitals, and a leader sequence is what was pressed. *)

From stdpp Require Import gmap.
From S2P Require Import Prelude.
From S2P Require Import Eeprom.
From S2P Require Import DynamicKeymap.
From S2P Require Import KeymapBuffer.
From S2P Require Import QmkSettings.
From S2P Require Import Vial.
From S2P Require Import KeycodeConfig.
From S2P Require Import KeymapCommon.
From S2P Require Import ActionLayer.
From S2P Require Import Report.
From S2P Require Import MouseKey.
From S2P Require Import Keyboard.
From S2P Require Import VialDance.
From S2P Require Import ActionUtil.
From S2P Require Import HostReports.
From S2P Require Import Strokes.
From S2P Require Import KeyProcessors.
From S2P Require Import AutoShift.
From S2P Require Import KeyModes.
#[local] Set Default Proof Using "Type".

(** ** The secure mode *)

Section secure.
Import Secure.
Context {E : Type} {eeprom : Eeprom E} {cfg : KeymapConfig} {mcfg : MouseKeyConfig} {scfg : SecureConfig}.
Implicit Types (s : secure E).

(** What happens: a key record, the task, a sign of activity, time that passes,
    and whatever else works on the keyboard. *)
Inductive secure_event :=
| KeyRecord (keycode : Z) (record : keyrecord_t)
| Task
| Activity
| Pass (ms : Z)
| Other (f : kb E -> kb E).

Definition run_secure s (ev : secure_event) : secure E :=
  match ev with
  | KeyRecord keycode record =>
      let '(go, s) := preprocess_secure record s in if go : bool then (process_secure keycode record s).2 else s
  | Task => secure_task s
  | Activity => secure_activity_event s
  | Pass ms => set_clock (u32 (clock s + ms)) s
  | Other f => on_board f s
  end.

Definition place (record : keyrecord_t) : Z * Z := (row (ev_key (rec_event record)), col (ev_key (rec_event record))).

(** The keys pressed while an unlock is pending. *)
Definition tries s (ev : secure_event) : list (Z * Z) :=
  match ev with
  | KeyRecord _ record =>
      if bool_decide (secure_status s = SECURE_PENDING) && pressed_of record then [place record] else []
  | _ => []
  end.
Fixpoint all_tries s (evs : list secure_event) : list (Z * Z) :=
  match evs with
  | [] => []
  | ev :: evs => tries s ev ++ all_tries (run_secure s ev) evs
  end.

Lemma all_tries_app s evs evs' : all_tries s (evs ++ evs') = all_tries s evs ++ all_tries (foldl run_secure s evs) evs'.
Proof.
  revert s. induction evs as [|ev evs IH]; intros s; [done|]. cbn [app all_tries foldl]. by rewrite IH, <- app_assoc.
Qed.

#[local] Abbreviation sequence := SECURE_UNLOCK_SEQUENCE.
Context (Hlen : 1 <= lenZ SECURE_UNLOCK_SEQUENCE < 256).

(** The keys that count so far are the beginning of the sequence. *)
Definition counted s (tried : list (Z * Z)) : Prop :=
  0 <= offset s < lenZ sequence /\ take (Z.to_nat (offset s)) sequence `suffix_of` tried.

Lemma hook_fields s : let s' := secure_hook s in
  offset s' = offset s /\ secure_status s' = secure_status s /\ idle_time s' = idle_time s /\ clock s' = clock s.
Proof. unfold secure_hook. by case_bool_decide. Qed.

Lemma counted_zero s tried : offset s = 0 -> counted s tried.
Proof using Hlen. intros H. split; [lia|]. rewrite H. exists tried. by rewrite app_nil_r. Qed.
Lemma counted_keep s s' tried : offset s' = offset s -> counted s tried -> counted s' tried.
Proof. intros H [H1 H2]. by split; rewrite H. Qed.

Lemma keypress_counted r c s tried : counted s tried ->
  let s' := secure_keypress_event r c s in
  counted s' (tried ++ [(r, c)])
  /\ (secure_status s <> SECURE_UNLOCKED -> secure_status s' = SECURE_UNLOCKED -> sequence `suffix_of` tried ++ [(r, c)]).
Proof using Hlen.
  intros [Ho [pre Hs]] s'. unfold s', secure_keypress_event. case_bool_decide as Hm.
  - assert (Hu : u8 (offset s + 1) = offset s + 1) by (apply u8_id; lia).
    assert (Hn : u8 (lenZ sequence) = lenZ sequence) by (apply u8_id; lia).
    assert (Htake : take (Z.to_nat (offset s + 1)) sequence `suffix_of` tried ++ [(r, c)]).
    { exists pre. rewrite Hs, <- app_assoc. f_equal. replace (Z.to_nat (offset s + 1)) with (S (Z.to_nat (offset s))) by lia.
      symmetry. apply take_S_r. rewrite <- Hm. unfold step_of. rewrite nth_lookup.
      destruct (lookup_lt_is_Some_2 sequence (Z.to_nat (offset s))) as [p Hp]; [unfold lenZ in Ho; lia|]. by rewrite Hp. }
    cbv zeta. cbn [offset set_offset]. rewrite Hu, Hn. destruct (Z.eqb_spec (offset s + 1) (lenZ sequence)) as [Heq|Hne].
    + assert (Hall : take (Z.to_nat (offset s + 1)) sequence = sequence) by (apply take_ge; unfold lenZ in *; lia).
      rewrite Hall in Htake. split; [|done]. apply counted_zero. unfold secure_unlock. by rewrite (proj1 (hook_fields _)).
    + split; [|intros H1 H2; cbn in H2; done]. split; [cbn [offset set_offset]; lia|exact Htake].
  - unfold secure_lock. split; [apply counted_zero; by rewrite (proj1 (hook_fields _))|].
    rewrite (proj1 (proj2 (hook_fields _))). done.
Qed.

Lemma task_fields s : offset (secure_task s) = offset s
  /\ (secure_status (secure_task s) = secure_status s \/ secure_status (secure_task s) = SECURE_LOCKED).
Proof.
  assert (Hif : forall (b : bool) (x : secure E), offset x = offset s -> (secure_status x = secure_status s \/ secure_status x = SECURE_LOCKED) ->
    let y := if b then secure_lock x else x in
    offset y = offset s /\ (secure_status y = secure_status s \/ secure_status y = SECURE_LOCKED)).
  { intros [|] x H1 H2; [|done]. unfold secure_lock. destruct (hook_fields (set_status SECURE_LOCKED x)) as [H3 [H4 _]].
    cbv zeta. rewrite H3, H4. split; [exact H1|by right]. }
  unfold secure_task. cbv zeta. apply Hif; apply Hif; auto.
Qed.

Lemma lock_offset s : offset (secure_lock s) = offset s.
Proof. exact (proj1 (hook_fields (set_status SECURE_LOCKED s))). Qed.
Lemma lock_status s : secure_status (secure_lock s) = SECURE_LOCKED.
Proof. exact (proj1 (proj2 (hook_fields (set_status SECURE_LOCKED s)))). Qed.
Lemma unlock_status s : secure_status (secure_unlock s) = SECURE_UNLOCKED.
Proof. exact (proj1 (proj2 (hook_fields (set_idle_time (clock s) (set_status SECURE_UNLOCKED s))))). Qed.
Lemma unlock_offset s : offset (secure_unlock s) = offset s.
Proof. exact (proj1 (hook_fields (set_idle_time (clock s) (set_status SECURE_UNLOCKED s)))). Qed.
Lemma request_fields s : offset (secure_request_unlock s) = offset s
  /\ (secure_status (secure_request_unlock s) = SECURE_UNLOCKED -> secure_status s = SECURE_UNLOCKED).
Proof.
  unfold secure_request_unlock. case_bool_decide as Hb.
  - destruct (hook_fields (set_unlock_time (clock s) (set_status SECURE_PENDING s))) as [H1 [H2 _]]. by rewrite H1, H2.
  - destruct (hook_fields s) as [H1 [H2 _]]. by rewrite H1, H2.
Qed.

(** The keycodes that unlock at once. *)
Definition unlocks (ev : secure_event) : Prop :=
  match ev with
  | KeyRecord keycode record => pressed_of record = false /\ (keycode = QK_SECURE_UNLOCK \/ keycode = QK_SECURE_TOGGLE)
  | _ => False
  end.

Lemma process_secure_fields keycode record s : let s' := (process_secure keycode record s).2 in
  offset s' = offset s
  /\ (secure_status s <> SECURE_UNLOCKED -> secure_status s' = SECURE_UNLOCKED -> unlocks (KeyRecord keycode record)).
Proof.
  unfold process_secure. destruct (pressed_of record) eqn:Ep; [done|].
  destruct (keycode =? QK_SECURE_LOCK); [split; [apply lock_offset|intros _; cbn; by rewrite lock_status]|].
  destruct (keycode =? QK_SECURE_UNLOCK) eqn:E2;
    [split; [apply unlock_offset|intros _ _; split; [exact Ep|left; lia]]|].
  destruct (keycode =? QK_SECURE_TOGGLE) eqn:E3.
  { split; [|intros _ _; split; [exact Ep|right; lia]]. case_bool_decide; [apply unlock_offset|apply lock_offset]. }
  destruct (keycode =? QK_SECURE_REQUEST); [|done]. destruct (request_fields s) as [H1 H2]. split; [exact H1|].
  intros H3 H4. by destruct (H3 (H2 H4)).
Qed.

(** Opening by the keys. *)
Definition key_press (ev : secure_event) : Prop :=
  match ev with KeyRecord _ record => pressed_of record = true | _ => False end.

Lemma run_counted s ev tried : counted s tried ->
  counted (run_secure s ev) (tried ++ tries s ev)
  /\ (secure_status s <> SECURE_UNLOCKED -> secure_status (run_secure s ev) = SECURE_UNLOCKED ->
      unlocks ev /\ secure_status s = SECURE_LOCKED
      \/ secure_status s = SECURE_PENDING /\ key_press ev /\ sequence `suffix_of` tried ++ tries s ev).
Proof using Hlen.
  intros Hc. destruct ev as [keycode record| | |ms|f]; cbn [run_secure tries key_press]; rewrite ?app_nil_r.
  - unfold preprocess_secure. case_bool_decide as Hp; cbn [andb].
    + destruct (pressed_of record); [|rewrite app_nil_r; split; [exact Hc|intros H1 H2; by destruct (H1 H2)]].
      destruct (keypress_counted (row (ev_key (rec_event record))) (col (ev_key (rec_event record))) s tried Hc) as [H1 H2].
      split; [exact H1|]. intros H3 H4. right. split; [exact Hp|]. split; [done|]. by apply H2.
    + rewrite app_nil_r. destruct (process_secure_fields keycode record s) as [H1 H2].
      split; [by eapply counted_keep|]. intros H3 H4. left. split; [by apply H2|]. by destruct (secure_status s).
  - destruct (task_fields s) as [H1 H2]. split; [by eapply counted_keep|].
    intros H3 H4. rewrite H4 in H2. destruct H2 as [H2|H2]; [by destruct H3|done].
  - unfold secure_activity_event. case_bool_decide; (split; [by eapply counted_keep|]); intros H1 H2; by destruct H1.
  - split; [by eapply counted_keep|]. intros H1 H2. by destruct H1.
  - split; [by eapply counted_keep|]. intros H1 H2. by destruct H1.
Qed.

Lemma runs_counted evs : forall s tried, counted s tried -> counted (foldl run_secure s evs) (tried ++ all_tries s evs).
Proof using Hlen.
  induction evs as [|ev evs IH]; intros s tried Hc; cbn [foldl all_tries]; [by rewrite app_nil_r|].
  rewrite app_assoc. apply IH. by apply run_counted.
Qed.

(** The presses of keys at these places. *)
Definition presses (keys : list (Z * Z)) (keycodes : list Z) (time : Z) : list secure_event :=
  zip_with (fun p keycode => KeyRecord keycode (event_record (MAKE_KEYEVENT p.1 p.2 true time)))
    keys keycodes.

Lemma presses_open time keys : forall keycodes s, length keys = length keycodes -> keys <> [] ->
  secure_status s = SECURE_PENDING -> 0 <= offset s -> drop (Z.to_nat (offset s)) sequence = keys ->
  secure_status (foldl run_secure s (presses keys keycodes time)) = SECURE_UNLOCKED.
Proof using Hlen.
  induction keys as [|p keys IH]; intros [|keycode keycodes] s Hk Hne Hs Ho Hd; try done.
  assert (Hlt : (Z.to_nat (offset s) < length sequence)%nat).
  { apply Nat.nle_gt. intros Hge. by rewrite (drop_ge _ _ Hge) in Hd. }
  assert (Hstep : step_of (offset s) = p).
  { unfold step_of. rewrite nth_lookup, <- (Nat.add_0_r (Z.to_nat (offset s))), <- lookup_drop, Hd. done. }
  assert (Hrest : drop (Z.to_nat (offset s + 1)) sequence = keys).
  { replace (Z.to_nat (offset s + 1)) with (1 + Z.to_nat (offset s))%nat by lia.
    by rewrite Nat.add_comm, <- drop_drop, Hd. }
  assert (Hu : u8 (offset s + 1) = offset s + 1) by (apply u8_id; unfold lenZ in Hlen; lia).
  assert (Hn : u8 (lenZ sequence) = lenZ sequence) by (apply u8_id; lia).
  cbn [presses zip_with foldl run_secure]. unfold preprocess_secure. rewrite bool_decide_true by done.
  cbn [pressed_of rec_event event_record MAKE_KEYEVENT ev_pressed ev_key row col].
  unfold secure_keypress_event. rewrite bool_decide_true by (by rewrite Hstep; destruct p).
  cbv zeta. cbn [offset set_offset]. rewrite Hu, Hn. destruct (Z.eqb_spec (offset s + 1) (lenZ sequence)) as [Heq|Hn1].
  - rewrite drop_ge in Hrest by (unfold lenZ in Heq; lia). subst keys. apply unlock_status.
  - apply IH; [by injection Hk| |done|cbn; lia|done]. intros ->. apply (f_equal length) in Hrest.
    rewrite length_drop in Hrest. unfold lenZ in *. cbn in Hrest. lia.
Qed.

(** C38: the secure mode opens for the sequence, and only for it. Start the
    keyboard and let anything happen to it, in any order: keys with any keycodes,
    the task, signs of activity, time that passes, and other code that works on
    the keyboard. If the next thing opens the secure mode, it is either the
    release of the unlock or toggle keycode in the locked mode, or a key press
    while an unlock was pending, and then the keys pressed while one was pending,
    this one included, end with the whole sequence. While an unlock is pending no
    key goes on. And when no key of the sequence counts yet, pressing the keys at
    its places, whatever their keycodes, opens it. *)
Theorem secure_needs_sequence (k : kb E) (evs : list secure_event) (ev : secure_event) (keycodes : list Z) (time : Z) :
  let s := foldl run_secure (secure_start k) evs in
  (secure_status s <> SECURE_UNLOCKED -> secure_status (run_secure s ev) = SECURE_UNLOCKED ->
   unlocks ev /\ secure_status s = SECURE_LOCKED
   \/ secure_status s = SECURE_PENDING /\ key_press ev
      /\ sequence `suffix_of` all_tries (secure_start k) (evs ++ [ev]))
  /\ (secure_status s = SECURE_PENDING ->
      (forall record, (preprocess_secure record s).1 = false)
      /\ (length keycodes = length sequence -> offset s = 0 ->
          secure_status (foldl run_secure s (presses sequence keycodes time)) = SECURE_UNLOCKED)).
Proof using Hlen.
  intros s. split.
  - intros H1 H2. assert (Hc : counted s (all_tries (secure_start k) evs)).
    { apply (runs_counted evs (secure_start k) []). by apply counted_zero. }
    destruct (run_counted s ev _ Hc) as [_ H3]. rewrite all_tries_app. cbn [all_tries]. rewrite app_nil_r. by apply H3.
  - intros Hp. split; [intros record; unfold preprocess_secure; by rewrite bool_decide_true|].
    intros Hk Ho. apply presses_open; [done| |done|lia|by rewrite Ho].
    intros Hnil. unfold lenZ in Hlen. rewrite Hnil in Hlen. cbn in Hlen. lia.
Qed.
End secure.

(** ** Key lock *)

Section key_lock.
Import KeyLock.
Implicit Types (l : key_lock).

Lemma test_bit w i : 0 <= i -> (w .& (1 << i) =? (1 << i)) = Z.testbit w i.
Proof.
  intros H. rewrite Z.shiftl_1_l. destruct (Z.testbit w i) eqn:E.
  - apply Z.eqb_eq, Z.bits_inj'. intros j Hj. rewrite Z.land_spec, Z.pow2_bits_eqb by done.
    destruct (Z.eqb_spec i j) as [->|]; [by rewrite E|by rewrite andb_false_r].
  - apply Z.eqb_neq. intros H0. apply (f_equal (fun z => Z.testbit z i)) in H0.
    by rewrite Z.land_spec, Z.pow2_bits_true, E in H0.
Qed.

Ltac split_code := unfold word_of, GET_CODE_INDEX; repeat case_if; b2p; try lia.
Lemma code_index_range code : 0 <= code <= 0xFF -> 0 <= word_of code < 4 /\ 0 <= GET_CODE_INDEX code < 64.
Proof. intros H. split_code. Qed.
Lemma index_inj c c' : word_of c = word_of c' -> GET_CODE_INDEX c = GET_CODE_INDEX c' -> c = c'.
Proof. split_code. Qed.

Definition words_ok l : Prop := lenZ (key_state l) = 4.
Lemma key_state_bit code l : 0 <= code <= 0xFF ->
  KEY_STATE code l = Z.testbit (nthZ (key_state l) (word_of code)) (GET_CODE_INDEX code).
Proof. intros H. unfold KEY_STATE, BV_64, GET_KEY_ARRAY. rewrite test_bit; [done|]. by apply code_index_range. Qed.

(** A word of which only the bit of [code] is [b]. *)
Lemma key_state_put code v b c l : words_ok l -> 0 <= code <= 0xFF -> 0 <= c <= 0xFF ->
  (forall i, 0 <= i < 64 -> Z.testbit v i = if i =? GET_CODE_INDEX code then b else Z.testbit (GET_KEY_ARRAY code l) i) ->
  KEY_STATE c (SET_KEY_ARRAY_STATE code v l) = if c =? code then b else KEY_STATE c l.
Proof.
  intros Hl Hcode Hc Hv. rewrite !key_state_bit by done. unfold SET_KEY_ARRAY_STATE, in_range.
  rewrite (proj2 (Z.leb_le 0 code)), (proj2 (Z.leb_le code 0xFF)) by lia. cbn [andb key_state].
  destruct (code_index_range code Hcode) as [Hw Hi], (code_index_range c Hc) as [Hw' Hi'].
  destruct (Z.eq_dec (word_of code) (word_of c)) as [Heq|Hne].
  - rewrite <- Heq, nthZ_updZ_eq by (rewrite Hl; lia). rewrite Hv by lia. unfold GET_KEY_ARRAY. rewrite Heq.
    destruct (Z.eqb_spec (GET_CODE_INDEX c) (GET_CODE_INDEX code)) as [Hi2|Hi2].
    + rewrite (index_inj c code) by done. by rewrite Z.eqb_refl.
    + rewrite (proj2 (Z.eqb_neq c code)); [done|]. by intros ->.
  - rewrite nthZ_updZ_ne by done. rewrite (proj2 (Z.eqb_neq c code)); [done|]. by intros ->.
Qed.

Lemma key_state_set code c l : words_ok l -> 0 <= code <= 0xFF -> 0 <= c <= 0xFF ->
  KEY_STATE c (SET_KEY_STATE code l) = if c =? code then true else KEY_STATE c l.
Proof.
  intros Hl Hcode Hc. apply key_state_put; [done..|]. intros i Hi. unfold BV_64.
  destruct (code_index_range code Hcode) as [_ Hx]. rewrite Z.shiftl_1_l, Z.lor_spec, Z.pow2_bits_eqb, Z.eqb_sym by lia.
  destruct (i =? _); [apply orb_true_r|apply orb_false_r].
Qed.
Lemma key_state_unset code c l : words_ok l -> 0 <= code <= 0xFF -> 0 <= c <= 0xFF ->
  KEY_STATE c (UNSET_KEY_STATE code l) = if c =? code then false else KEY_STATE c l.
Proof.
  intros Hl Hcode Hc. apply key_state_put; [done..|]. intros i Hi. unfold BV_64, u64.
  change 18446744073709551616 with (2 ^ 64). rewrite Z.mod_pow2_bits_low by lia.
  destruct (code_index_range code Hcode) as [_ Hx].
  rewrite Z.land_spec, Z.lnot_spec, Z.shiftl_1_l, Z.pow2_bits_eqb, Z.eqb_sym by lia.
  destruct (i =? _); [apply andb_false_r|apply andb_true_r].
Qed.
Lemma set_words_ok code v l : words_ok l -> words_ok (SET_KEY_ARRAY_STATE code v l).
Proof. unfold SET_KEY_ARRAY_STATE, words_ok. case_if; [cbn; by rewrite lenZ_updZ|done]. Qed.

(** The keys that are locked, and whether the next one will be, by the events so
    far: what [QK_LOCK] promises. *)
Definition spec_step (st : gset Z * bool) (keycode : Z) (press : bool) : gset Z * bool :=
  let '(held, next) := st in
  if negb press then st
  else if keycode =? QK_LOCK then (held, negb next)
  else if 0xFF <? keycode then (held, false)
  else if next then ({[keycode]} ∪ held, false)
  else (held ∖ {[keycode]}, false).

(** The keys of one-shot modifiers, which are not held as promised. *)
Definition one_shot_mod (keycode : Z) : Prop := QK_ONE_SHOT_MOD < keycode <= QK_ONE_SHOT_MOD_MAX.

(** The events, and those that go on. *)
Definition lock_run (evs : list (Z * keyrecord_t)) : key_lock * (gset Z * bool) * list (Z * bool) :=
  foldl (fun '(l, st, out) '(keycode, record) =>
           let '(go, keycode', l') := process_key_lock keycode record l in
           (l', spec_step st keycode (pressed_of record),
            if go : bool then out ++ [(keycode', pressed_of record)] else out))
    (key_lock_start, (∅, false), []) evs.

(** Whether the last event of the code is a press. *)
Definition down (code : Z) (evs : list (Z * bool)) : bool :=
  foldl (fun d '(c, press) => if c =? code then press else d) false evs.
Definition codes_of (evs : list (Z * keyrecord_t)) : list (Z * bool) :=
  map (fun '(keycode, record) => (keycode, pressed_of record)) evs.
Lemma down_snoc code evs e : down code (evs ++ [e]) = if e.1 =? code then e.2 else down code evs.
Proof. unfold down. rewrite foldl_app. by destruct e. Qed.

Lemma lock_run_snoc evs keycode record :
  lock_run (evs ++ [(keycode, record)])
  = let '(l, st, out) := lock_run evs in
    let '(go, keycode', l') := process_key_lock keycode record l in
    (l', spec_step st keycode (pressed_of record), if go : bool then out ++ [(keycode', pressed_of record)] else out).
Proof. unfold lock_run. rewrite foldl_app. cbn [foldl]. by destruct (foldl _ _ evs) as [[l st] out]. Qed.

Lemma translate_plain keycode : ~ one_shot_mod keycode -> translate_keycode keycode = keycode.
Proof.
  unfold one_shot_mod, translate_keycode. destruct (Z.ltb_spec QK_ONE_SHOT_MOD keycode), (Z.leb_spec keycode QK_ONE_SHOT_MOD_MAX);
    cbn [andb]; [lia|done..].
Qed.

(** The state agrees with the sets, and the host with both. *)
Definition lock_agrees l (held : gset Z) (out codes : list (Z * bool)) : Prop :=
  words_ok l /\
  (forall code, 0 <= code <= 0xFF ->
     KEY_STATE code l = bool_decide (code ∈ held) /\
     down code out = down code codes || bool_decide (code ∈ held)) /\
  filter (fun e => 0xFF < e.1) out = filter (fun e => 0xFF < e.1 /\ e <> (QK_LOCK, true)) codes.

Lemma held_add (held : gset Z) code c : c ∈ {[code]} ∪ held <-> c = code \/ c ∈ held.
Proof. by rewrite elem_of_union, elem_of_singleton. Qed.
Lemma held_del (held : gset Z) code c : c ∈ held ∖ {[code]} <-> c <> code /\ c ∈ held.
Proof. rewrite elem_of_difference, elem_of_singleton. tauto. Qed.
Lemma held_same (held : gset Z) code : code ∉ held -> held ∖ {[code]} = held.
Proof. intros H. apply set_eq. intros c. rewrite held_del. split; [tauto|]. intros Hc. split; [by intros ->|done]. Qed.

Lemma agrees_snoc l' (held held' : gset Z) l out codes code press (b : bool) :
  lock_agrees l held out codes -> 0 <= code -> words_ok l' ->
  (forall c, 0 <= c <= 0xFF -> KEY_STATE c l' = bool_decide (c ∈ held')) ->
  (forall c, c <> code -> c ∈ held' <-> c ∈ held) ->
  (code <= 0xFF -> (if b then press else down code out) = press || bool_decide (code ∈ held')) ->
  (0xFF < code -> b = bool_decide ((code, press) <> (QK_LOCK, true))) ->
  lock_agrees l' held' (if b then out ++ [(code, press)] else out) (codes ++ [(code, press)]).
Proof.
  intros (Hl & Hc & Hf) Hk Hl' Hs Hh Hd Hb. split; [done|]. split.
  - intros c Hcr. split; [by apply Hs|]. rewrite down_snoc. cbn [fst snd].
    destruct (Z.eqb_spec code c) as [<-|Hne].
    + rewrite <- Hd by lia. destruct b; [|done]. by rewrite down_snoc; cbn [fst snd]; rewrite Z.eqb_refl.
    + rewrite (bool_decide_ext _ _ (Hh c (not_eq_sym Hne))). destruct (Hc c Hcr) as [_ <-].
      destruct b; [|done]. rewrite down_snoc; cbn [fst snd]. by rewrite (proj2 (Z.eqb_neq code c)).
  - rewrite list.filter_app, <- Hf. cbn [filter list_filter]. destruct (Z.lt_ge_cases 0xFF code) as [Hlt|Hge].
    + rewrite (Hb Hlt). destruct (bool_decide_reflect ((code, press) <> (QK_LOCK, true))) as [Hne|He].
      * rewrite list.filter_app. cbn [filter list_filter]. rewrite !decide_True by done. done.
      * rewrite decide_False by (by intros [_ ?]). by rewrite app_nil_r.
    + rewrite (decide_False (P := 0xFF < _ /\ _)) by (cbn; intros [? _]; lia). rewrite app_nil_r.
      destruct b; [|done]. rewrite list.filter_app. cbn [filter list_filter]. rewrite decide_False by (cbn; lia). by rewrite app_nil_r.
Qed.

Lemma lock_step l held next out codes code record : 0 <= code -> ~ one_shot_mod code -> watching l = next ->
  lock_agrees l held out codes ->
  let '(go, code', l') := process_key_lock code record l in
  let '(held', next') := spec_step (held, next) code (pressed_of record) in
  watching l' = next' /\
  lock_agrees l' held' (if go : bool then out ++ [(code', pressed_of record)] else out)
    (codes ++ [(code, pressed_of record)]).
Proof.
  intros Hk0 Hone Hn Ha. pose proof Ha as (Hl & Hc & Hf).
  assert (Hs : forall c, 0 <= c <= 0xFF -> KEY_STATE c l = bool_decide (c ∈ held)) by (intros c Hr; by apply Hc).
  unfold process_key_lock, spec_step, IS_STANDARD_KEYCODE. rewrite translate_plain by done.
  destruct (pressed_of record) eqn:Ep; cbn [negb].
  - destruct (Z.eqb_spec code QK_LOCK) as [Hq|Hq].
    { rewrite orb_true_r. cbn [negb]. split; [cbn; by rewrite Hn|].
      apply (agrees_snoc _ held held l _ _ code true false); try done; [by rewrite Hq|].
      intros _. rewrite Hq. by vm_compute. }
    rewrite orb_false_r. destruct (Z.leb_spec code 0xFF) as [Hle|Hgt]; cbn [negb].
    2: { rewrite (proj2 (Z.ltb_lt _ _)) by lia. split; [done|].
         apply (agrees_snoc _ held held l _ _ code true true); try done.
         intros _. symmetry. apply bool_decide_eq_true_2. by intros [= ->]. }
    rewrite (proj2 (Z.ltb_ge _ _)) by lia. rewrite Hn. destruct next.
    + split; [unfold SET_KEY_STATE, SET_KEY_ARRAY_STATE; by case_if|].
      apply (agrees_snoc _ held _ l _ _ code true true); try done.
      * by apply set_words_ok.
      * intros c Hr. rewrite key_state_set by (done || lia). change (KEY_STATE c (set_watching false l)) with (KEY_STATE c l).
           rewrite Hs by done. destruct (Z.eqb_spec c code); symmetry;
             [apply bool_decide_eq_true_2|apply bool_decide_ext]; rewrite held_add; tauto.
      * intros c Hne. rewrite held_add. tauto.
      * lia.
    + rewrite Hs by lia. destruct (bool_decide_reflect (code ∈ held)) as [Hin|Hout].
      * split; [unfold UNSET_KEY_STATE, SET_KEY_ARRAY_STATE; by case_if|].
        apply (agrees_snoc _ held _ l _ _ code true false); try done; [by apply set_words_ok| |intros c Hne; rewrite held_del; tauto| |lia].
        -- intros c Hr. rewrite key_state_unset by (done || lia).
           rewrite Hs by done. destruct (Z.eqb_spec c code); symmetry;
             [apply bool_decide_eq_false_2|apply bool_decide_ext]; rewrite held_del; tauto.
        -- intros _. destruct (Hc code) as [_ Hd]; [lia|]. rewrite Hd, bool_decide_true by done. by rewrite orb_true_r.
      * rewrite held_same by done. split; [done|].
        apply (agrees_snoc _ held held l _ _ code true true); try done. lia.
  - destruct (Z.leb_spec code 0xFF) as [Hle|Hgt]; cbn [andb negb].
    + rewrite Hs by lia. destruct (bool_decide_reflect (code ∈ held)) as [Hin|Hout]; cbn [negb]; (split; [done|]).
      * apply (agrees_snoc _ held held l _ _ code false false); try done; [|lia].
        intros _. destruct (Hc code) as [_ Hd]; [lia|]. rewrite Hd, bool_decide_true by done. by rewrite orb_true_r.
      * apply (agrees_snoc _ held held l _ _ code false true); try done; [|lia]. intros _. by rewrite bool_decide_false.
    + split; [done|]. apply (agrees_snoc _ held held l _ _ code false true); try done; [lia|].
      intros _. symmetry. by apply bool_decide_eq_true_2.
Qed.

(** C39: key lock holds the keys it is asked to hold, and no other. After any
    presses and releases, none of them of a one-shot modifier, the key of a
    standard code is locked in the 256 bits of the state exactly when the events
    so far ask for it: it was pressed after the lock key, and not pressed again
    since without it. A key that goes past the lock is down for the rest of the
    firmware exactly when it is down, or locked: the lock drops the releases of a
    locked key and the press that unlocks it, and no event of any other key but
    the lock key. The keys of one-shot modifiers are left out because the code
    takes them for other keys. *)
Theorem key_lock_holds (evs : list (Z * keyrecord_t)) :
  (forall e, e ∈ evs -> 0 <= e.1 /\ ~ one_shot_mod e.1) ->
  let '(l, (held, next), out) := lock_run evs in
  watching l = next /\
  (forall code, 0 <= code <= 0xFF ->
     KEY_STATE code l = bool_decide (code ∈ held) /\
     down code out = down code (codes_of evs) || bool_decide (code ∈ held)) /\
  filter (fun e => 0xFF < e.1) out = filter (fun e => 0xFF < e.1 /\ e <> (QK_LOCK, true)) (codes_of evs).
Proof.
  intros Hnn. enough (let '(l, (held, next), out) := lock_run evs in
    watching l = next /\ lock_agrees l held out (codes_of evs)) as H.
  { destruct (lock_run evs) as [[l [held next]] out]. destruct H as (H1 & _ & H2 & H3).
    split; [exact H1|]. split; [exact H2|exact H3]. }
  induction evs as [|[keycode record] evs IH] using rev_ind.
  { split; [done|]. split; [done|]. split; [|done]. intros code Hcode. cbn [lock_run foldl].
    rewrite bool_decide_false by apply not_elem_of_empty. split; [|done].
    rewrite key_state_bit by done. replace (nthZ _ _) with 0; [apply Z.bits_0|]. unfold word_of. by repeat case_if. }
  rewrite lock_run_snoc. unfold codes_of. rewrite map_app. cbn [map].
  specialize (IH (fun e He => Hnn e (proj2 (elem_of_app _ _ _) (or_introl He)))). fold (codes_of evs).
  destruct (lock_run evs) as [[l [held next]] out]. destruct IH as [H1 H2].
  destruct (Hnn (keycode, record) (proj2 (elem_of_app _ _ _) (or_intror (list_elem_of_here _ _)))) as [Hk Hone].
  pose proof (lock_step l held next out (codes_of evs) keycode record Hk Hone H1 H2) as H.
  cbv zeta in H. destruct (process_key_lock keycode record l) as [[go keycode'] l']. destruct (spec_step _ _ _). exact H.
Qed.
End key_lock.

(** ** Caps word *)

Section caps_word.
Import CapsWord.
Context {E : Type} {eeprom : Eeprom E} {cfg : KeymapConfig} {mcfg : MouseKeyConfig} {ccfg : CapsWordConfig}.
Context (v : vial_state E) (n autoshift : bool) (record : bool -> keyrecord_t).
#[local] Abbreviation process_caps_word := (process_caps_word autoshift).
Hypothesis Hrecord : forall press, pressed_of (record press) = press.
Hypothesis Htimeout : 0 <= CAPS_WORD_IDLE_TIMEOUT <= 30000.
#[local] Abbreviation T := CAPS_WORD_IDLE_TIMEOUT.
Implicit Types (s : caps_word E) (m : mods_st).

(** The keyboard passes the time in runs of its loop, each with the task at its
    end; a key is held for some of them, or there is a pause. *)
Inductive caps_event := Tap (code : Z) (hold : list Z) | Pause (ms : Z).
Definition short (ms : Z) : Prop := 0 <= ms < 32767.
Definition caps_ok (ev : caps_event) : Prop :=
  match ev with Tap code hold => IS_BASIC_KEYCODE code = true /\ Forall short hold | Pause ms => short ms end.

Definition caps_loop s (ms : Z) : caps_word E := caps_word_task (on_caps_kb (wait_ms ms) s).

(** [action_exec] clears the weak modifiers before it processes a press. *)
Definition run_caps s (ev : caps_event) : caps_word E :=
  match ev with
  | Tap code hold =>
      let s := on_caps_kb (with_mods clear_weak_mods) s in
      let s := on_caps_kb (register_code code) (process_caps_word code (record true) s).2 in
      let s := foldl caps_loop s hold in
      on_caps_kb (unregister_code code) (process_caps_word code (record false) s).2
  | Pause ms => caps_loop s ms
  end.

(** What a user expects: letters and the minus are shifted, digits and the
    deleting keys are not, other keys and [T] ms without an event of a key end
    the word. *)
Definition shifted (code : Z) : bool := in_range KC_A 0x1D code || (code =? KC_MINUS).
Definition continues (code : Z) : bool :=
  shifted code || in_range 0x1E KC_0 code || (code =? KC_BACKSPACE) || (code =? KC_DELETE).
Definition in_time (ms : Z) : bool := (T =? 0) || (ms <? T).
Definition held_for (hold : list Z) : Z := foldr Z.add 0 hold.
Fixpoint caps_text (active : bool) (since : Z) (evs : list caps_event) : bool * list (Z * Z) :=
  match evs with
  | [] => (active, [])
  | Tap code hold :: evs =>
      let '(active', text) := caps_text (active && continues code && in_time (held_for hold)) 0 evs in
      (active', (if active && shifted code then MOD_BIT KC_LEFT_SHIFT else 0, code) :: text)
  | Pause ms :: evs => caps_text (active && in_time (since + ms)) (since + ms) evs
  end.

Lemma now_unregister code (k : kb E) : IS_BASIC_KEYCODE code = true -> oneshot_mods (kb_mods k) = 0 ->
  now (unregister_code code k) = now k.
Proof.
  intros Hb Ho. unfold unregister_code. destruct (code =? KC_NO); [done|]. rewrite Hb.
  by destruct (send_calm (del_key code k) Ho) as [h ->].
Qed.
Lemma expired a since ms t : 0 <= since < t -> t <= 30000 -> 0 <= ms < 32767 ->
  timer_expired (u16 (a + ms)) (u16 (a - since + t)) = negb (since + ms <? t).
Proof.
  intros Hs Ht Hms. unfold timer_expired, u16. rewrite <- Zminus_mod. replace (a + ms - (a - since + t)) with (since + ms - t) by lia.
  destruct (Z.ltb_spec (since + ms) t); cbn [negb].
  - rewrite <- (Z_mod_plus_full _ 1), Z.mod_small by lia. apply Z.ltb_ge. lia.
  - rewrite Z.mod_small by lia. apply Z.ltb_lt. lia.
Qed.

(** The timer of a word that goes on is [since] old. *)
Definition timed (active : bool) (since : Z) s : Prop :=
  caps_word_active s = active
  /\ (active = true -> T <> 0 -> 0 <= since < T /\ idle_timer s = u16 (now (caps_kb s) - since + T)).

(** The weak modifiers are those of caps word. *)
Definition caps_weak (weak : Z) : Prop := weak = 0 \/ weak = MOD_BIT KC_LEFT_SHIFT.
Record typing_caps m (active : bool) (since : Z) (text : list (Z * Z)) s : Prop := {
  cw_timed : timed active since s;
  cw_idle : exists weak, caps_weak weak /\ idle v n (set_weak weak m) text (caps_kb s);
}.

Lemma basic_keycode code rec : IS_BASIC_KEYCODE code = true -> caps_keycode code rec = inl code /\ code <> QK_CAPS_WORD_TOGGLE.
Proof.
  unfold IS_BASIC_KEYCODE. intros Hr. unfold in_range, KC_A, KC_EXSEL in Hr. b2p. unfold caps_keycode, in_range, QK_CAPS_WORD_TOGGLE, TriLayer.QK_TRI_LAYER_LOWER,
    TriLayer.QK_TRI_LAYER_UPPER, KC_RIGHT_ALT, OSM_RALT, QK_MOD_TAP, QK_MOD_TAP_MAX, QK_LAYER_TAP, QK_LAYER_TAP_MAX.
  repeat match goal with
  | |- context [?x <=? code] => rewrite (proj2 (Z.leb_gt x code)) by lia
  | |- context [code =? ?x] => rewrite (proj2 (Z.eqb_neq code x)) by lia
  end.
  split; [done|lia].
Qed.
Lemma continues_spec code s : IS_BASIC_KEYCODE code = true ->
  caps_word_press_user code s
  = (continues code, if shifted code then on_caps_kb (with_mods (add_weak_mods (MOD_BIT KC_LEFT_SHIFT))) s else s).
Proof.
  unfold IS_BASIC_KEYCODE. intros Hr. unfold in_range, KC_A, KC_EXSEL in Hr. b2p.
  unfold caps_word_press_user, continues. fold (shifted code). destruct (shifted code); [done|].
  rewrite (proj2 (Z.eqb_neq code KC_UNDERSCORE)) by (change KC_UNDERSCORE with 0x22D; lia). by rewrite orb_false_r.
Qed.
Lemma reset_kb s : caps_kb (reset_if_timeout s) = caps_kb s /\ caps_word_active (reset_if_timeout s) = caps_word_active s
  /\ (T <> 0 -> idle_timer (reset_if_timeout s) = u16 (now (caps_kb s) + T)).
Proof using Htimeout.
  unfold reset_if_timeout. destruct (Z.ltb_spec 0 T); [done|]. split; [done|]. split; [done|]. intros H0. lia.
Qed.

(** The modifiers under those of caps word. *)
Context (m : mods_st).
Hypothesis Hreal : real_mods m = 0.
Hypothesis Hover : weak_override_mods m = 0 /\ suppressed_mods m = 0.
Hypothesis Hshot : oneshot_mods m = 0.

Lemma plain_caps weak : caps_weak weak -> plain_mods (set_weak weak m) = weak.
Proof using Hreal Hover. destruct Hover as [H1 H2]. unfold plain_mods. cbn. rewrite Hreal, H1, H2. by intros [-> | ->]. Qed.

Lemma idle_kb_mods m' l (k : kb E) : idle v n m' l k -> kb_mods k = m'.
Proof. intros [out Hk _ _ _]. by destruct Hk. Qed.
Lemma pressing_kb_mods code m' l (k : kb E) : pressing v n code m' l k -> kb_mods k = m'.
Proof. intros [out Hk _ _ _]. by destruct Hk. Qed.
Lemma now_send (k : kb E) : oneshot_mods (kb_mods k) = 0 -> now (send_keyboard_report k) = now k.
Proof. intros Ho. by destruct (send_calm k Ho) as [h ->]. Qed.
Lemma now_register code (k : kb E) : IS_BASIC_KEYCODE code = true -> oneshot_mods (kb_mods k) = 0 ->
  now (register_code code k) = now k.
Proof. intros Hb Ho. by destruct (register_calm code k Hb Ho) as [h ->]. Qed.

(** The modifiers that a press keeps of none. *)
Lemma no_weak : (if AUTO_SHIFT_ENABLE
                 then del_weak_mods (if autoshift then u8 (Z.lnot (MOD_BIT KC_LEFT_SHIFT)) else 0xFF)
                 else clear_weak_mods) (set_weak 0 m) = set_weak 0 m.
Proof. by repeat case_if. Qed.

(** The processor on a press: the modifiers and whether the word goes on. *)
Lemma caps_press active since text code s0 : IS_BASIC_KEYCODE code = true -> typing_caps m active since text s0 ->
  let s := on_caps_kb (with_mods clear_weak_mods) s0 in
  let s1 := (process_caps_word code (record true) s).2 in
  timed (active && continues code) 0 s1 /\
  idle v n (set_weak (if active && shifted code then MOD_BIT KC_LEFT_SHIFT else 0) m) text (caps_kb s1).
Proof using Hreal Hover Hshot Hrecord Htimeout.
  intros Hb [[Ha _] (weak & _ & Hi0)] s. destruct (basic_keycode code (record true) Hb) as [Hkc Hne].
  assert (Hi : idle v n (set_weak 0 m) text (caps_kb s)) by (by apply (idle_mods v n clear_weak_mods (set_weak weak m))).
  change (caps_word_active s = active) in Ha. clearbody s.
  unfold KeyModes.CapsWord.process_caps_word. rewrite (proj2 (Z.eqb_neq _ _) Hne). rewrite (idle_kb_mods _ _ _ Hi).
  cbn [set_weak real_mods oneshot_mods]. rewrite Hreal, Hshot, Ha. destruct active; cbn [negb andb].
  - destruct (reset_kb s) as (H1 & H2 & H3). rewrite Hrecord. cbn [negb].
    change (truthy ((0 .| 0) .& _)) with false. cbn iota. rewrite Hkc. cbv zeta.
    rewrite continues_spec by done. set (f := if AUTO_SHIFT_ENABLE then _ else _).
    assert (Hf : f (set_weak 0 m) = set_weak 0 m) by apply no_weak.
    assert (Hc : idle v n (set_weak 0 m) text (with_mods f (caps_kb s)))
      by (rewrite <- Hf at 1; apply idle_mods; [by rewrite Hf|done]).
    assert (Hn : forall f' : mods_st -> mods_st, oneshot_mods (f' (set_weak 0 m)) = 0 ->
      now (send_keyboard_report (with_mods f' (with_mods f (caps_kb s)))) = now (caps_kb s))
      by (intros f' Hf'; rewrite now_send; [done|cbn; by rewrite (idle_kb_mods _ _ _ Hi), Hf]).
    destruct (shifted code) eqn:Es.
    { assert (continues code = true) as -> by (unfold continues; by rewrite Es).
      cbn [fst snd caps_kb on_caps_kb caps_word_active idle_timer]. rewrite H1. split.
      - split; [exact (eq_trans H2 Ha)|]. intros _ H0. split; [lia|]. cbn [idle_timer on_caps_kb caps_kb].
        rewrite H1, (H3 H0), Hn by done. f_equal. lia.
      - by apply (idle_send v n (add_weak_mods (MOD_BIT KC_LEFT_SHIFT)) (set_weak 0 m)). }
    destruct (continues code); cbn [snd].
    + split.
      * split; [exact (eq_trans H2 Ha)|]. intros _ H0. split; [lia|]. cbn [idle_timer on_caps_kb caps_kb].
        rewrite H1, (H3 H0). pose proof (Hn id ltac:(done)) as Hn'. cbn in Hn'. rewrite now_send; [f_equal; cbn; lia|].
        cbn. by rewrite (idle_kb_mods _ _ _ Hi), Hf.
      * cbn [caps_kb on_caps_kb]. rewrite H1. rewrite <- Hf at 1.
        apply (idle_send v n f (set_weak 0 m)); [by rewrite Hf|exact Hi].
    + unfold caps_word_off. cbn [caps_word_active on_caps_kb]. rewrite H2, Ha. split; [by split|].
      cbn [caps_kb on_caps_kb set_active]. rewrite H1.
      by apply (idle_send v n (del_weak_mods MOD_MASK_SHIFT) (set_weak 0 m)).
  - cbn [snd]. unfold caps_triggers.
    change (0 .| 0 =? MOD_MASK_SHIFT) with false. rewrite andb_false_r. destruct (_ && _); [|by split; [split|]]. cbv zeta.
    assert ((code =? KC_LEFT_SHIFT) || (code =? OSM_LSFT) = false) as ->.
    { unfold IS_BASIC_KEYCODE, in_range, KC_A, KC_EXSEL, KC_LEFT_SHIFT, OSM_LSFT in *. b2p.
      rewrite !(proj2 (Z.eqb_neq code _)) by lia. done. }
    by split; [split|].
Qed.

(** The processor on a release. *)
Lemma caps_release active s code : IS_BASIC_KEYCODE code = true -> caps_word_active s = active ->
  real_mods (kb_mods (caps_kb s)) = 0 -> oneshot_mods (kb_mods (caps_kb s)) = 0 ->
  let s1 := (process_caps_word code (record false) s).2 in
  caps_kb s1 = caps_kb s /\ timed active 0 s1.
Proof using Hrecord Htimeout.
  intros Hb Ha Hr Ho. destruct (basic_keycode code (record false) Hb) as [_ Hne].
  unfold KeyModes.CapsWord.process_caps_word. rewrite (proj2 (Z.eqb_neq _ _) Hne). rewrite Hr, Ho, Ha.
  destruct active; cbn [negb]; rewrite ?Hrecord; cbn [negb snd].
  - destruct (reset_kb s) as (H1 & H2 & H3). split; [exact H1|]. split; [by rewrite H2|]. intros _ H0. split; [lia|].
    rewrite H1, (H3 H0). f_equal. lia.
  - unfold caps_triggers. change (0 .| 0 =? MOD_MASK_SHIFT) with false. rewrite Hrecord, !andb_false_r. by split; [|split].
Qed.

(** A run of the loop: the task ends the word when its time is over. *)
Lemma caps_loop_step active since s ms : short ms -> 0 <= since -> timed active since s ->
  let s' := caps_loop s ms in
  timed (active && in_time (since + ms)) (since + ms) s' /\
  (caps_kb s' = wait_ms ms (caps_kb s)
   \/ caps_kb s' = unregister_weak_mods MOD_MASK_SHIFT (wait_ms ms (caps_kb s))).
Proof using Htimeout.
  clear Hreal Hover Hshot. intros Hms Hs [Ha Ht]. unfold caps_loop, caps_word_task, in_time. unfold short in Hms.
  cbn [caps_word_active on_caps_kb idle_timer caps_kb]. rewrite Ha. cbn [now wait_ms].
  destruct active; rewrite ?andb_false_r; cbn [andb]; [|by split; [split|left]].
  rewrite andb_true_r. destruct (Z.eqb_spec T 0) as [H0|H0]; cbn [orb].
  { rewrite H0. cbn [Z.ltb Z.compare andb]. split; [|by left]. split; [done|]. intros _ H. by rewrite H0 in H. }
  destruct (Ht eq_refl H0) as [H1 H2]. rewrite H2, (proj2 (Z.ltb_lt 0 T)), expired by lia. cbn [andb].
  destruct (Z.ltb_spec (since + ms) T) as [Hlt|Hge]; cbn [negb].
  - split; [|by left]. split; [done|]. intros _ _. split; [lia|]. cbn. rewrite H2.
    unfold u16. set (a := now (caps_kb s)). replace ((a + ms) mod 65536 - (since + ms) + T) with ((a + ms) mod 65536 + (T - (since + ms))) by lia.
    rewrite Zplus_mod_idemp_l. f_equal. lia.
  - unfold caps_word_off. cbn [caps_word_active on_caps_kb]. rewrite Ha. by split; [split|right].
Qed.
Lemma weak_off weak : caps_weak weak -> del_weak_mods MOD_MASK_SHIFT (set_weak weak m) = set_weak 0 m.
Proof. by intros [-> | ->]. Qed.

Lemma pause_step active since text s ms : short ms -> 0 <= since -> typing_caps m active since text s ->
  typing_caps m (active && in_time (since + ms)) (since + ms) text (caps_loop s ms).
Proof using Htimeout Hshot.
  intros Hms Hs [Ht (weak & Hw & Hi)]. destruct (caps_loop_step active since s ms Hms Hs Ht) as [H1 H2]. cbv zeta in *.
  apply (idle_wait v n ms) in Hi. split; [exact H1|]. destruct H2 as [-> | ->].
  - by exists weak.
  - exists 0. split; [by left|]. rewrite <- (weak_off weak Hw). by apply (idle_send v n (del_weak_mods MOD_MASK_SHIFT)).
Qed.

(** The loop while a key is down. *)
Lemma hold_steps code text hold : IS_BASIC_KEYCODE code = true -> Forall short hold -> forall active since s,
  0 <= since -> timed active since s ->
  (exists weak, caps_weak weak /\ pressing v n code (set_weak weak m) text (caps_kb s)) ->
  let s' := foldl caps_loop s hold in
  timed (active && in_time (since + held_for hold)) (since + held_for hold) s' /\
  exists weak, caps_weak weak /\ pressing v n code (set_weak weak m) text (caps_kb s').
Proof using Htimeout Hshot.
  intros Hb. induction 1 as [|ms hold Hms Hhold IH]; intros active since s Hs Ht Hp.
  - cbn [foldl held_for foldr]. rewrite Z.add_0_r. split; [|done]. destruct Ht as [Ha Ht]. split.
    + rewrite Ha. unfold in_time. destruct active; [|done]. destruct (Z.eqb_spec T 0) as [|H0]; [done|].
      destruct (Ht eq_refl H0) as [Hr _]. cbn. symmetry. apply Z.ltb_lt. lia.
    + intros [-> _]%andb_true_iff. by apply Ht.
  - cbn [foldl]. destruct (caps_loop_step active since s ms Hms Hs Ht) as [H1 H2]. cbv zeta in *.
    assert (Hp' : exists weak, caps_weak weak /\ pressing v n code (set_weak weak m) text (caps_kb (caps_loop s ms))).
    { destruct Hp as (weak & Hw & Hp). apply (pressing_wait v n code ms) in Hp. destruct H2 as [-> | ->]; [by exists weak|].
      exists 0. split; [by left|]. rewrite <- (weak_off weak Hw). by apply (pressing_send v n code (del_weak_mods MOD_MASK_SHIFT)). }
    assert (Hnn : 0 <= held_for hold).
    { clear -Hhold. induction Hhold as [|x l Hx _ IH]; cbn; [lia|]. unfold short in Hx. unfold held_for in IH. lia. }
    unfold short in Hms. destruct (IH _ (since + ms) _ ltac:(lia) H1 Hp') as [H3 H4]. split; [|exact H4].
    change (held_for (ms :: hold)) with (ms + held_for hold). rewrite Z.add_assoc.
    replace (active && in_time (since + ms + held_for hold))
      with (active && in_time (since + ms) && in_time (since + ms + held_for hold)); [exact H3|].
    rewrite <- andb_assoc. f_equal. unfold in_time. destruct (T =? 0); [done|]. cbn [orb].
    destruct (Z.ltb_spec (since + ms + held_for hold) T), (Z.ltb_spec (since + ms) T); lia || done.
Qed.

Lemma caps_tap_step active since text code hold s : IS_BASIC_KEYCODE code = true -> Forall short hold ->
  typing_caps m active since text s ->
  typing_caps m (active && continues code && in_time (held_for hold)) 0
    (text ++ [(if active && shifted code then MOD_BIT KC_LEFT_SHIFT else 0, code)]) (run_caps s (Tap code hold)).
Proof using Hreal Hover Hshot Hrecord Htimeout.
  intros Hb Hhold Ht. cbn [run_caps]. destruct (caps_press active since text code s Hb Ht) as [H1 H2]. cbv zeta in *.
  set (s1 := (process_caps_word code (record true) _).2) in *.
  set (weak := if active && shifted code then MOD_BIT KC_LEFT_SHIFT else 0) in *.
  assert (Hw : caps_weak weak) by (unfold caps_weak, weak; case_if; auto).
  apply (idle_register v n code) in H2 as H3; [|done]. rewrite plain_caps in H3 by done.
  assert (Ht1 : timed (active && continues code) 0 (on_caps_kb (register_code code) s1)).
  { destruct H1 as [Ha H1]. split; [exact Ha|]. intros Hact H0. destruct (H1 Hact H0) as [Hr Hidle]. split; [done|].
    cbn [caps_kb on_caps_kb idle_timer]. rewrite Hidle. by rewrite now_register by (done || by rewrite (idle_kb_mods _ _ _ H2)). }
  destruct (hold_steps code _ hold Hb Hhold _ 0 _ (Z.le_refl 0) Ht1 (ex_intro _ weak (conj Hw H3))) as [H4 (weak' & Hw' & H5)].
  set (s2 := foldl caps_loop _ hold) in *. rewrite Z.add_0_l in H4. pose proof (pressing_kb_mods _ _ _ _ H5) as Hm.
  destruct (caps_release _ s2 code Hb (proj1 H4)) as [H6 [H7 H8]]; [by rewrite Hm..|].
  set (s3 := (process_caps_word code (record false) s2).2) in *. split.
  - split; [exact H7|]. intros Hact H0. destruct (H8 Hact H0) as [Hr Hidle]. split; [done|].
    cbn [caps_kb on_caps_kb idle_timer]. rewrite Hidle. by rewrite now_unregister by (done || by rewrite H6, Hm).
  - exists weak'. split; [done|]. cbn [caps_kb on_caps_kb]. rewrite H6. by apply pressing_unregister.
Qed.

Lemma typing_run evs : forall active since text s, Forall caps_ok evs -> 0 <= since -> typing_caps m active since text s ->
  let s' := foldl run_caps s evs in
  caps_word_active s' = (caps_text active since evs).1 /\
  exists weak, idle v n (set_weak weak m) (text ++ (caps_text active since evs).2) (caps_kb s').
Proof using Hreal Hover Hshot Hrecord Htimeout.
  induction evs as [|ev evs IH]; intros active since text s Hok Hs Ht.
  { destruct Ht as [[Ha _] (weak & _ & Hi)]. split; [exact Ha|]. exists weak. by rewrite app_nil_r. }
  apply list.Forall_cons in Hok. destruct Hok as [Hev Hok]. cbn [foldl].
  destruct ev as [code hold|ms]; cbn [caps_text caps_ok] in *.
  - destruct Hev as [Hb Hhold]. pose proof (caps_tap_step active since text code hold s Hb Hhold Ht) as Hstep.
    specialize (IH _ _ _ _ Hok (Z.le_refl 0) Hstep). destruct (caps_text _ 0 evs) as [active' text']. cbn [fst snd] in *.
    by rewrite <- app_assoc in IH.
  - pose proof (pause_step active since text s ms Hev Hs Ht) as Hstep. apply IH; [done|unfold short in Hev; lia|done].
Qed.
End caps_word.

(** C40: caps word types a word in capitals. Press the key that turns it on with no
    key down and no weak or one-shot modifier, then tap any keys of the basic
    range, each held while the loop of the keyboard runs any number of times, with
    pauses in between; a run takes less than 32 s. [action_exec] and caps word see
    the keys, and no other feature claims them; auto shift may be in the build and
    on or off. The host, which has the strokes of before, gets one stroke for each
    tap, in order: letters and the minus with shift, digits and the deleting keys
    plain, until another key ends the word, or the idle timeout passes without a
    key going down or up, also while one is held; and everything plain from there
    on. Caps word is still on exactly when nothing ended it. *)
Theorem caps_word_types {E} `{Eeprom E} {cfg : KeymapConfig} {mcfg : MouseKeyConfig} {ccfg : CapsWord.CapsWordConfig}
    (v : vial_state E) (n autoshift : bool) (record : bool -> keyrecord_t) (m : mods_st) (text : list (Z * Z)) (evs : list caps_event)
    (s : CapsWord.caps_word E) :
  (forall press, pressed_of (record press) = press) -> 0 <= CapsWord.CAPS_WORD_IDLE_TIMEOUT <= 30000 ->
  weak_mods m = 0 -> weak_override_mods m = 0 -> suppressed_mods m = 0 ->
  idle v n m text (CapsWord.caps_kb s) -> CapsWord.caps_word_active s = false -> Forall caps_ok evs ->
  let s1 := (CapsWord.process_caps_word autoshift CapsWord.QK_CAPS_WORD_TOGGLE (record true) s).2 in
  let s2 := foldl (run_caps autoshift record) s1 evs in
  CapsWord.caps_word_active s2 = (caps_text true 0 evs).1 /\
  strokes (history (CapsWord.caps_kb s2)) = text ++ (caps_text true 0 evs).2.
Proof.
  intros Hrec HT Hw Ho Hsup Hi Ha Hok s1 s2.
  assert (Hshot : oneshot_mods m = 0) by (by destruct Hi).
  assert (Ht : typing_caps v n (set_real 0 m) true 0 text s1).
  { unfold s1, CapsWord.process_caps_word. rewrite Z.eqb_refl, Hrec. cbn [snd].
    unfold CapsWord.caps_word_toggle, CapsWord.caps_word_on. rewrite Ha.
    destruct (reset_kb HT (CapsWord.on_caps_kb (with_mods (fun m => clear_oneshot_mods (clear_mods m))) s)) as (H1 & H2 & H3).
    split; [split; [done|]|].
    - intros _ H0. split; [lia|]. cbn [CapsWord.idle_timer CapsWord.caps_kb CapsWord.set_active].
      rewrite H1, (H3 H0). f_equal. lia.
    - exists 0. split; [by left|]. cbn [CapsWord.caps_kb CapsWord.set_active]. rewrite H1.
      replace (set_weak 0 (set_real 0 m)) with (clear_oneshot_mods (clear_mods m)).
      + apply (idle_mods v n (fun m => clear_oneshot_mods (clear_mods m))); [|done].
        unfold clear_oneshot_mods, clear_mods. cbn [oneshot_mods set_real]. by rewrite Hshot.
      + unfold clear_oneshot_mods, clear_mods. cbn [oneshot_mods set_real]. rewrite Hshot. cbn [truthy Z.eqb negb].
        destruct m. cbn in *. by subst. }
  destruct (typing_run v n autoshift record Hrec HT (set_real 0 m) eq_refl (conj Ho Hsup) Hshot evs true 0 text s1 Hok (Z.le_refl 0) Ht)
    as [H1 (weak & H2)]. split; [exact H1|]. apply (idle_host _ _ _ _ _ H2).
Qed.

(** ** The leader key *)

Section leader.
Import Leader.
Context {lcfg : LeaderConfig} (leader_add_user : Z -> list Z -> bool).
Implicit Types (s : leader).

(** The array has five keys, those that are there first. *)
Record leader_ok s : Prop := {
  lo_length : lenZ (leader_sequence s) = 5;
  lo_size : 0 <= leader_sequence_size s <= 5;
  lo_rest : forall i, leader_sequence_size s <= i -> nthZ (leader_sequence s) i = 0;
}.
Lemma leader_end_ok s : leader_ok s -> leader_ok (leader_end s).
Proof. by intros []. Qed.
Lemma reset_timer_ok time s : leader_ok s -> leader_ok (leader_reset_timer time s).
Proof. by intros []. Qed.
Lemma zeros_ok i : nthZ [0; 0; 0; 0; 0] i = 0.
Proof. destruct (Z.lt_ge_cases i 0); [by rewrite nthZ_out by lia|]. rewrite nthZ_lookup by done. by destruct (Z.to_nat i) as [|[|[|[|[|]]]]]. Qed.
Lemma start_ok time s : leader_ok s -> leader_ok (leader_start time s).
Proof. intros Hs. unfold leader_start. destruct (leading s); [done|]. split; [done|cbn; lia|]. intros i _. apply zeros_ok. Qed.
Lemma leader_add_ok time keycode s : leader_ok s -> leader_ok (leader_sequence_add leader_add_user time keycode s).2.
Proof.
  intros Hs. unfold leader_sequence_add. destruct (Z.leb_spec 5 (leader_sequence_size s)) as [Hge|Hlt]; [done|]. cbv zeta.
  set (s1 := if LEADER_NO_TIMEOUT && _ then _ else s). assert (H1 : leader_ok s1).
  { unfold s1. destruct (_ && _); [by apply reset_timer_ok|done]. }
  assert (Hsz : leader_sequence_size s1 = leader_sequence_size s) by (unfold s1; by destruct (_ && _)).
  cbn [snd leader_sequence]. match goal with |- leader_ok (if _ then leader_end ?s2 else _) => assert (H2 : leader_ok s2) end.
  { destruct H1 as [L1 L2 L3]. split; cbn [leader_sequence leader_sequence_size]; [by rewrite lenZ_updZ|lia|].
    intros i Hi. rewrite nthZ_updZ_ne by lia. apply L3. lia. }
  destruct (leader_add_user _ _); [by apply leader_end_ok|done].
Qed.

(** No key writes past the array: the state stays well formed under every key and
    run of the task; a sixth key is refused. *)
Lemma process_leader_ok time keycode record s : leader_ok s ->
  leader_ok (process_leader leader_add_user time keycode record s).2 /\ leader_ok (leader_task time s).
Proof.
  intros Hs. split; [|unfold leader_task; by destruct (_ && _); [apply leader_end_ok|]].
  unfold process_leader. destruct (pressed_of record); [|done]. destruct (_ && _).
  - pose proof (leader_add_ok time (leader_keycode keycode) s Hs) as Ha. unfold leader_sequence_add in *.
    destruct (5 <=? leader_sequence_size s); [by apply leader_end_ok|]. cbn [snd] in *.
    destruct LEADER_PER_KEY_TIMING; [by apply reset_timer_ok|done].
  - destruct (keycode =? QK_LEADER); [by apply start_ok|done].
Qed.
End leader.

(** ** At work *)

Section witnesses.
#[local] Existing Instance KeymapExample.config.
#[local] Existing Instance KeymapExample.config_ok.
#[local] Existing Instance KeymapExample.laws.
#[local] Existing Instance MouseKey.mcfg.

Definition record_at (r c : Z) (press : bool) : keyrecord_t := event_record (MAKE_KEYEVENT r c press 1000).

(** Two keys unlock within five seconds. *)
Definition two_keys : Secure.SecureConfig := Secure.Build_SecureConfig [(0, 1); (1, 0)] 5000 60000.
#[local] Existing Instance two_keys.
Definition requested : list (secure_event (E := KeymapExample.store)) :=
  [KeyRecord Secure.QK_SECURE_REQUEST (record_at 2 2 false); Pass 100; KeyRecord KC_A (record_at 0 1 true)].
Lemma secure_needs_sequence_witness :
  let s := Secure.secure_start example_kb in
  [(0, 1); (1, 0)] `suffix_of` all_tries s (requested ++ [KeyRecord KC_A (record_at 1 0 true)]) /\
  Secure.secure_status (foldl run_secure (run_secure s (KeyRecord Secure.QK_SECURE_REQUEST (record_at 2 2 false)))
    (presses [(0, 1); (1, 0)] [5; 6] 1000)) = Secure.SECURE_UNLOCKED.
Proof.
  pose proof (secure_needs_sequence ltac:(split; [vm_compute; discriminate|vm_compute; reflexivity]) example_kb requested (KeyRecord KC_A (record_at 1 0 true)) [] 0)
    as [H _].
  pose proof (secure_needs_sequence ltac:(split; [vm_compute; discriminate|vm_compute; reflexivity]) example_kb
    [KeyRecord Secure.QK_SECURE_REQUEST (record_at 2 2 false)] Task [5; 6] 1000) as [_ H2].
  split.
  - destruct H as [[[H _] _]|(_ & _ & H)]; [vm_compute; discriminate|vm_compute; reflexivity|vm_compute in H; discriminate|exact H].
  - apply H2; vm_compute; reflexivity.
Defined.

(** An unlock times out after one key; the key counts when the next one starts,
    so the whole sequence does not open. *)
Lemma partial_sequence_survives :
  let first : list (secure_event (E := KeymapExample.store)) := [KeyRecord KC_A (record_at 0 1 true); Pass 5000; Task] in
  let request := KeyRecord Secure.QK_SECURE_REQUEST (record_at 2 2 false) in
  let s := foldl run_secure (Secure.secure_start example_kb) ([request] ++ first ++ [request]) in
  Secure.secure_status (foldl run_secure (Secure.secure_start example_kb) ([request] ++ first)) = Secure.SECURE_LOCKED /\
  Secure.secure_status s = Secure.SECURE_PENDING /\ Secure.offset s = 1 /\
  Secure.secure_status (foldl run_secure s (presses [(0, 1); (1, 0)] [5; 6] 1000)) = Secure.SECURE_LOCKED /\
  Secure.secure_status (foldl run_secure s (presses [(1, 0)] [6] 1000)) = Secure.SECURE_UNLOCKED.
Proof. vm_compute. done. Qed.

(** The lock key, then A: A stays down when it is let go, until it is pressed
    again. *)
Definition lock_a : list (Z * keyrecord_t) :=
  [(KeyLock.QK_LOCK, record_at 0 0 true); (KeyLock.QK_LOCK, record_at 0 0 false);
   (KC_A, record_at 0 1 true); (KC_A, record_at 0 1 false)].
Lemma key_lock_holds_witness :
  let '(l, _, out) := lock_run lock_a in
  KeyLock.KEY_STATE KC_A l = true /\ down KC_A out = true /\ down KC_A (codes_of lock_a) = false.
Proof.
  pose proof (key_lock_holds lock_a) as H.
  destruct (lock_run lock_a) as [[l [held next]] out] eqn:E0.
  destruct H as (_ & H & _).
  - intros e He. unfold lock_a in He. repeat (apply elem_of_cons in He; destruct He as [-> |He]; [cbn; unfold one_shot_mod, KeyLock.QK_LOCK, KeyLock.QK_ONE_SHOT_MOD, KeyLock.QK_ONE_SHOT_MOD_MAX, KC_A; lia|]).
    by apply elem_of_nil in He.
  - destruct (H KC_A) as [H1 H2]; [unfold KC_A; lia|]. assert (Hh : bool_decide (KC_A ∈ held) = true).
    { rewrite <- H1. pose proof (f_equal (fun x => KeyLock.KEY_STATE KC_A x.1.1) E0) as H3. cbn [fst] in H3.
      rewrite <- H3. vm_compute. reflexivity. }
    rewrite Hh in H1, H2. split; [exact H1|]. rewrite H2. split; [apply orb_true_r|vm_compute; reflexivity].
Defined.

(** The lock key, then the one-shot key of the left Alt: what is locked and sent is
    A, whose press it was not, and Alt is not held. *)
Lemma one_shot_locks_other_key :
  let evs := [(KeyLock.QK_LOCK, record_at 0 0 true); (KeyLock.QK_LOCK, record_at 0 0 false);
              (0x52A4, record_at 0 1 true); (0x52A4, record_at 0 1 false)] in
  let '(l, _, out) := lock_run evs in
  KeyLock.KEY_STATE KC_A l = true /\ KeyLock.KEY_STATE KC_LEFT_ALT l = false /\ out = [(KeyLock.QK_LOCK, false); (KC_A, true)].
Proof. vm_compute. by split_and!. Qed.

(** [cancel_key_lock] leaves A locked. *)
Lemma cancel_leaves_locked :
  KeyLock.KEY_STATE KC_A (KeyLock.cancel_key_lock (lock_run lock_a).1.1) = true.
Proof. vm_compute. done. Qed.

(** Five seconds of idling end the word. *)
Definition five_seconds : CapsWord.CapsWordConfig := CapsWord.Build_CapsWordConfig 5000 true true true.
#[local] Existing Instance five_seconds.
(** A, minus, 1, a pause, B, space, C; a word that a pause ends; and one that ends
    while the key is held. Auto shift is in the build and on. *)
Lemma caps_word_types_witness :
  let s := (CapsWord.process_caps_word true CapsWord.QK_CAPS_WORD_TOGGLE (record_at 0 0 true)
              (CapsWord.mk_caps false 0 false 0 example_kb)).2 in
  strokes (history (CapsWord.caps_kb (foldl (run_caps true (record_at 0 1)) s
    [Tap KC_A [80]; Tap 0x2D [40; 40]; Tap 0x1E [80]; Pause 4999; Tap 5 [80]; Tap 0x2C [80]; Tap 6 [80]])))
  = [(2, KC_A); (2, 0x2D); (0, 0x1E); (2, 5); (0, 0x2C); (0, 6)] /\
  strokes (history (CapsWord.caps_kb (foldl (run_caps true (record_at 0 1)) s [Tap KC_A [80]; Pause 4999; Pause 1; Tap 5 [80]])))
  = [(2, KC_A); (0, 5)] /\
  strokes (history (CapsWord.caps_kb (foldl (run_caps true (record_at 0 1)) s [Tap KC_A [4999]; Tap 5 [4999; 1; 20]; Tap 6 [80]])))
  = [(2, KC_A); (2, 5); (0, 6)].
Proof.
  assert (Hi : idle (kb_vial example_kb) false (free_mods 0 0) [] example_kb) by (refine (rest_idle example_kb _); split_and!; reflexivity).
  pose (off := CapsWord.mk_caps false 0 false 0 example_kb).
  split_and!; (edestruct (fun evs => caps_word_types (kb_vial example_kb) false true (record_at 0 1) (free_mods 0 0) [] evs off)
    as [_ H]; [reflexivity|vm_compute; split; congruence|reflexivity|reflexivity|reflexivity|exact Hi|reflexivity|
               |etransitivity; [exact H|reflexivity]]).
  all: repeat first [apply Forall_cons_2 | apply Forall_nil_2]; cbn; repeat split; try reflexivity;
    repeat first [apply Forall_cons_2 | apply Forall_nil_2]; unfold short; lia.
Defined.
End witnesses.
