(* ===== verification/SendTextProofs.v ===== *)
(** * What sent text is

    A host that reads the strokes of the keyboard gets back the text that was
    sent: characters through its layout, Unicode through its input method. *)

From S2P Require Import Prelude.
From S2P Require Import Eeprom.
From S2P Require Import DynamicKeymap.
From S2P Require Import KeymapBuffer.
From S2P Require Import MacroSend.
From S2P Require Import QmkSettings.
From S2P Require Import Vial.
From S2P Require Import ViaReset.
From S2P Require Import KeycodeConfig.
From S2P Require Import KeymapCommon.
From S2P Require Import Report.
From S2P Require Import MouseKey.
From S2P Require Import Keyboard.
From S2P Require Import VialDance.
From S2P Require Import ActionUtil.
From S2P Require Import HostReports.
From S2P Require Import Strokes.
From S2P Require Import KeyProcessors.
From S2P Require Import SendText.
#[local] Set Default Proof Using "Type".

(** ** Characters *)

Section strings.
Context {E : Type} {eeprom : Eeprom E} {cfg : KeymapConfig} {mcfg : MouseKeyConfig} {qcfg : QmkSettingsConfig}
        {layout : TextLayout}.
Context (v : vial_state E) (n : bool) (locked t : Z).
Implicit Types (k : kb E) (l : list (Z * Z)).
#[local] Abbreviation m0 := (free_mods locked t).

Definition char_mods (c : Z) : Z :=
  (if PGM_LOADBIT ascii_to_shift_lut c then 2 else 0) .| (if PGM_LOADBIT ascii_to_altgr_lut c then 64 else 0).
(** The strokes of a character: its key, and Space after a dead key. *)
Definition char_strokes (c : Z) : list (Z * Z) :=
  (char_mods c, nthZ ascii_to_keycode_lut c) :: (if PGM_LOADBIT ascii_to_dead_lut c then [(0, KC_SPACE)] else []).
(** The tables have a key for the character. *)
Definition has_key (c : Z) : Prop := 0 <= c <= 127 /\ IS_BASIC_KEYCODE (nthZ ascii_to_keycode_lut c) = true.

Lemma idle_when (b : bool) f m m' l k : idle v n m l k -> (idle v n m l k -> idle v n m' l (f k)) ->
  idle v n (if b then m' else m) l (when b f k).
Proof. intros Hk Hf. destruct b; [by apply Hf|done]. Qed.

Lemma send_char_types c interval l k : has_key c -> idle v n m0 l k ->
  exists k', send_char_with_delay c interval k = Some k' /\ idle v n m0 (l ++ char_strokes c) k'.
Proof.
  intros [Hc Hb] Hk. unfold send_char_with_delay, in_range.
  rewrite (proj2 (Z.leb_le 0 c)), (proj2 (Z.leb_le c 127)) by lia. cbn [andb]. eexists. split; [reflexivity|].
  unfold char_strokes, char_mods. set (sh := PGM_LOADBIT ascii_to_shift_lut c). set (al := PGM_LOADBIT ascii_to_altgr_lut c).
  set (key := nthZ ascii_to_keycode_lut c) in *. set (de := PGM_LOADBIT ascii_to_dead_lut c).
  assert (K1 : idle v n (if sh then add_mods 2 m0 else m0) l
    (when sh (fun k => wait_ms interval (register_code KC_LEFT_SHIFT k)) k)).
  { apply idle_when; [done|]. intros H. apply idle_wait. by apply (idle_mod v n KC_LEFT_SHIFT m0). }
  set (k1 := when sh _ k) in *. set (m1 := if sh then add_mods 2 m0 else m0) in *.
  assert (K2 : idle v n (if al then add_mods 64 m1 else m1) l
    (when al (fun k => wait_ms interval (register_code KC_RIGHT_ALT k)) k1)).
  { apply idle_when; [done|]. intros H. apply idle_wait. by apply (idle_mod v n KC_RIGHT_ALT m1). }
  set (k2 := when al _ k1) in *. set (m2 := if al then add_mods 64 m1 else m1) in *.
  pose proof (idle_wait _ _ interval _ _ _ (idle_tap_delay v n key interval m2 l k2 Hb K2)) as K3.
  set (k3 := wait_ms interval (tap_code_delay key interval k2)) in *. set (l3 := l ++ [(plain_mods m2, key)]) in *.
  assert (K4 : idle v n m1 l3 (when al (fun k => wait_ms interval (unregister_code KC_RIGHT_ALT k)) k3)).
  { destruct al; [|exact K3]. cbn [when]. apply idle_wait.
    assert (Hm : m1 = del_mods 64 m2) by (unfold m1, m2; by destruct sh). rewrite Hm. by apply (idle_mod v n KC_RIGHT_ALT m2). }
  set (k4 := when al _ k3) in *.
  assert (K5 : idle v n m0 l3 (when sh (fun k => wait_ms interval (unregister_code KC_LEFT_SHIFT k)) k4)).
  { destruct sh; [|exact K4]. cbn [when]. apply idle_wait.
    assert (Hm : m0 = del_mods 2 m1) by done. rewrite Hm. by apply (idle_mod v n KC_LEFT_SHIFT m1). }
  set (k5 := when sh _ k4) in *.
  assert (Hl : l3 = l ++ [((if sh then 2 else 0) .| (if al then 64 else 0), key)]).
  { unfold l3, m2, m1. by destruct sh, al. }
  rewrite Hl in K5. destruct de; [|exact K5]. cbn [when]. apply idle_wait.
  change [?a; ?b] with ([a] ++ [b]). rewrite app_assoc.
  by apply (idle_tap v n KC_SPACE m0).
Qed.

(** A string of characters that have keys. *)
Lemma send_string_types text : forall rest interval fuel l k,
  Forall (fun c => has_key c /\ 1 < c) text -> (length text < fuel)%nat -> idle v n m0 l k ->
  exists k', send_string_loop fuel interval (text ++ 0 :: rest) k = Some k'
             /\ idle v n m0 (l ++ concat (map char_strokes text)) k'.
Proof.
  induction text as [|c text IH]; intros rest interval fuel l k Ht Hf Hk; (destruct fuel as [|fuel]; [cbn in Hf; lia|]).
  - exists k. split; [done|]. by rewrite app_nil_r.
  - apply list.Forall_cons in Ht as [[Hc Hc1] Ht]. cbn [app send_string_loop map concat]. unfold SS_QMK_PREFIX.
    rewrite (proj2 (Z.eqb_neq c 0)), (proj2 (Z.eqb_neq c 1)) by lia.
    destruct (send_char_types c interval l k Hc Hk) as (k1 & -> & K1). cbn [mbind option_bind].
    rewrite app_assoc. apply IH; [done|cbn in Hf; lia|done].
Qed.

(** ** Macros *)

Context (DYNAMIC_KEYMAP_MACRO_DELAY : Z) (exec : Z -> bool -> kb E -> kb E).

(** A step that types: a character, the tap of a key, the tap of a key with
    modifiers, a delay. *)
Definition types (a : macro_step) : Prop :=
  match a with
  | MChar c => has_key c /\ 1 < c
  | MCode op key => op = SS_TAP_CODE /\ IS_BASIC_KEYCODE key = true
  | MExt op lo hi => op = VIAL_MACRO_EXT_TAP /\ IS_BASIC_KEYCODE lo = true /\ 1 <= hi <= 0x1F
  | MDelay _ _ => True
  end.
Definition step_strokes (a : macro_step) : list (Z * Z) :=
  match a with
  | MChar c => char_strokes c
  | MCode _ key => [(0, key)]
  | MExt _ lo hi => [(extract_mod_bits (hi * 256 + lo), lo)]
  | MDelay _ _ => []
  end.

(** The tap of a key with modifiers. *)
Lemma code16_parts code : IS_BASIC_KEYCODE (u8 code) = true -> 0x100 <= code <= QK_MODS_MAX ->
  (IS_MODIFIER_KEYCODE code || (code =? KC_NO)) = false.
Proof.
  intros Hb Hc. unfold QK_MODS_MAX in Hc. apply orb_false_iff.
  unfold IS_MODIFIER_KEYCODE, in_range, KC_NO, KC_LEFT_CTRL, KC_RIGHT_GUI.
  rewrite (proj2 (Z.leb_gt code 231)), andb_false_r by lia. split; [done|]. apply Z.eqb_neq. lia.
Qed.

Lemma extract_byte code : byte_range (extract_mod_bits code).
Proof.
  unfold extract_mod_bits. destruct (in_range _ _ code); cbn [negb]; [|lia].
  destruct (truthy (code .& QK_RMODS_MIN)), (truthy (code .& QK_LCTL)), (truthy (code .& QK_LSFT)), (truthy (code .& QK_LALT)),
    (truthy (code .& QK_LGUI)); vm_compute; split; (discriminate || done).
Qed.

Lemma weak_bits w : byte_range w -> truthy w = true ->
  del_weak_mods w (add_weak_mods w m0) = m0 /\ plain_mods (add_weak_mods w m0) = w.
Proof.
  intros Hw _. unfold del_weak_mods, add_weak_mods, set_weak, plain_mods, free_mods. cbn.
  split; [f_equal; rewrite Z.land_lnot_diag; done|]. by rewrite Z.lor_0_r, Z.land_m1_r, u8_id.
Qed.

Lemma idle_tap16 code d l k : IS_BASIC_KEYCODE (u8 code) = true -> 0x100 <= code <= QK_MODS_MAX ->
  idle v n m0 l k -> idle v n m0 (l ++ [(extract_mod_bits code, u8 code)]) (tap_code16_delay code d k).
Proof.
  intros Hb Hc Hk. unfold tap_code16_delay, register_code16, unregister_code16. rewrite (code16_parts code Hb Hc). cbv zeta.
  unfold do_code16, register_weak_mods, unregister_weak_mods. set (w := extract_mod_bits code).
  pose proof (extract_byte code) as Hw. fold w in Hw.
  change (unregister_code (u8 code) (wait_ms d (register_code (u8 code) ?k1))) with (tap_code_delay (u8 code) d k1).
  destruct (truthy w) eqn:Et.
  - destruct (weak_bits w Hw Et) as [W1 W2].
    pose proof (idle_send v n (add_weak_mods w) m0 l k eq_refl Hk) as K1.
    pose proof (idle_tap_delay v n _ d _ _ _ Hb K1) as K2. rewrite W2 in K2.
    pose proof (idle_send v n (del_weak_mods w) (add_weak_mods w m0) _ _ eq_refl K2) as K3. by rewrite W1 in K3.
  - apply negb_false_iff, Z.eqb_eq in Et. rewrite Et. by apply (idle_tap_delay v n _ d m0).
Qed.

Lemma step_types a l k : types a -> idle v n m0 l k ->
  exists k', perform_call DYNAMIC_KEYMAP_MACRO_DELAY exec (step_call a) k = Some k'
             /\ idle v n m0 (l ++ step_strokes a) k'.
Proof.
  intros Ha Hk. destruct a as [c|op key|op lo hi|d0 d1]; cbn [types step_call step_strokes perform_call] in *.
  - destruct Ha as [Hc Hc1]. unfold send_string_with_delay. change ([c] ++ [0; 0; 0]) with ([c] ++ 0 :: [0; 0]).
    destruct (send_string_types [c] [0; 0] DYNAMIC_KEYMAP_MACRO_DELAY 4 l k) as (k' & H1 & H2); [by constructor; [|constructor]|cbn; lia|done|].
    exists k'. split; [exact H1|]. cbn [map concat] in H2. by rewrite app_nil_r in H2.
  - destruct Ha as [-> Hb]. eexists. split; [reflexivity|]. apply idle_wait. by apply (idle_tap v n key m0).
  - destruct Ha as (-> & Hb & Hhi). rewrite (proj2 (Z.eqb_neq hi 0xFF)) by lia. change (VIAL_MACRO_EXT_TAP =? VIAL_MACRO_EXT_TAP) with true.
    cbn [perform_call]. eexists. split; [reflexivity|]. destruct (basic_range lo Hb) as [Hlo _].
    set (code := hi * 256 + lo). assert (Hu : u8 code = lo) by (unfold code, u8; dlia). unfold keycode_tap, keycode_down, keycode_up.
    rewrite (proj2 (Z.leb_le code QK_MODS_MAX)) by (unfold code, QK_MODS_MAX; lia).
    pose proof (idle_tap16 code (QS16 (settings (kb_vial (register_code16 code k))) QS_tap_code_delay) l k) as H. rewrite Hu in H.
    apply H; [done|unfold code, QK_MODS_MAX; lia|done].
  - eexists. split; [reflexivity|]. rewrite app_nil_r. by apply idle_wait.
Qed.

Lemma macro_types (steps : list macro_step) : forall l k, Forall types steps -> idle v n m0 l k ->
  exists k', perform_calls DYNAMIC_KEYMAP_MACRO_DELAY exec (map step_call steps) k = Some k'
             /\ idle v n m0 (l ++ concat (map step_strokes steps)) k'.
Proof.
  induction steps as [|a steps IH]; intros l k Hs Hk.
  - exists k. split; [done|]. by rewrite app_nil_r.
  - apply list.Forall_cons in Hs as [Ha Hs]. destruct (step_types a l k Ha Hk) as (k1 & E1 & K1).
    destruct (IH _ k1 Hs K1) as (k2 & E2 & K2). exists k2. split.
    + unfold perform_calls in *. cbn [map foldl mbind option_bind]. rewrite E1. exact E2.
    + cbn [map concat]. by rewrite app_assoc.
Qed.
End strings.

(** ** Reading characters back *)

(** The character of a stroke, on a US keyboard. *)
Definition us_glyph (stroke : Z * Z) : option Z :=
  List.find (fun c => bool_decide ((char_mods (layout := us_layout) c, nthZ us_keycode_lut c) = stroke)) (seqZ 1 127).

(** The characters that can be typed: those with a key. *)
Lemma us_glyph_char c : has_key (layout := us_layout) c ->
  char_strokes (layout := us_layout) c = [(char_mods (layout := us_layout) c, nthZ us_keycode_lut c)]
  /\ us_glyph (char_mods (layout := us_layout) c, nthZ us_keycode_lut c) = Some c.
Proof.
  intros [Hc Hb].
  pose (f c := implb (IS_BASIC_KEYCODE (nthZ us_keycode_lut c))
     (bool_decide (char_strokes (layout := us_layout) c = [(char_mods (layout := us_layout) c, nthZ us_keycode_lut c)])
      && bool_decide (us_glyph (char_mods (layout := us_layout) c, nthZ us_keycode_lut c) = Some c))).
  assert (Hall : forallb f (seqZ 0 128) = true) by (vm_compute; reflexivity).
  rewrite forallb_forall in Hall. specialize (Hall c). unfold f in Hall. cbn [ascii_to_keycode_lut us_layout] in Hb.
  rewrite Hb in Hall. cbn [implb] in Hall.
  assert (Hin : In c (seqZ 0 128)) by (apply list_elem_of_In, elem_of_seqZ; lia).
  apply Hall in Hin. apply andb_true_iff in Hin as [H1 H2]. split; by eapply bool_decide_eq_true_1.
Qed.

Lemma us_reads text : Forall (has_key (layout := us_layout)) text ->
  omap us_glyph (concat (map (char_strokes (layout := us_layout)) text)) = text.
Proof.
  induction 1 as [|c text Hc _ IH]; [done|]. destruct (us_glyph_char c Hc) as [H1 H2]. cbn [map concat]. rewrite H1.
  cbn [app]. cbn. rewrite H2. f_equal. exact IH.
Qed.

(** C35: a macro types what was uploaded. Let a list of macros that fits be uploaded
    to the store of a keyboard at rest, and let macro [id] be made of characters
    with keys, taps of keys, taps of keys with modifiers, and delays. Playing it
    makes a list of calls, each of which is performed, and the host reads exactly
    the strokes of its steps, in order; at the end no key and no modifier is left
    down. The strokes of a macro of characters are its text, by a US layout. *)
Theorem macros_type_text {E : Type} {eeprom : Eeprom E} {cfg : KeymapConfig} {cfg_ok : KeymapConfigOk}
    {laws : EepromLaws E} {mcfg : MouseKeyConfig} {qcfg : QmkSettingsConfig}
    (delay : Z) (exec : Z -> bool -> kb E -> kb E) (e : E) (ms : list (list macro_step)) (id : Z) (m : list macro_step) (k : kb E) :
  DYNAMIC_KEYMAP_EEPROM_MAX_ADDR < ee_size -> ee_wf e -> Forall (Forall step_wf) ms ->
  lenZ (encode_macros ms) <= DYNAMIC_KEYMAP_MACRO_EEPROM_SIZE ->
  0 <= id < DYNAMIC_KEYMAP_MACRO_COUNT -> ms !! Z.to_nat id = Some m -> Forall (types (layout := us_layout)) m ->
  at_rest k -> qs_eeprom (settings (kb_vial k))
               = dynamic_keymap_macro_set_buffer 0 (lenZ (encode_macros ms)) (encode_macros ms) 0 (dynamic_keymap_macro_reset e) ->
  exists calls k', dynamic_keymap_macro_send (qs_eeprom (settings (kb_vial k))) id = Some calls
    /\ perform_calls (layout := us_layout) delay exec calls k = Some k'
    /\ strokes (history k') = concat (map (step_strokes (layout := us_layout)) m)
    /\ (forall text, m = map MChar text -> omap us_glyph (strokes (history k')) = text)
    /\ (forall key, byte_range key -> report_pressed (shown k') key = false) /\ kb_mods k' = kb_mods k.
Proof.
  intros Hz Hw Hwf Hle Hid Hm Ht Hk ->. rewrite (macro_upload_plays e ms id m) by done.
  destruct (macro_types (layout := us_layout) (kb_vial k) (nkro_of k) 0 0 delay exec m [] k Ht (rest_idle k Hk)) as (k' & E1 & K1).
  destruct (idle_host _ _ _ _ _ K1) as (H1 & H2 & _ & H4). exists (map step_call m), k'. rewrite H1. split_and!; try done.
  - intros text ->. cbn [app]. rewrite map_map. apply us_reads. apply list.Forall_forall. intros c Hc.
    rewrite list.Forall_forall in Ht. by apply (Ht (MChar c)), list_elem_of_fmap_2.
  - rewrite H2. symmetry. apply Hk.
Qed.

(** ** UTF-8 *)

(** A Unicode scalar value, and its encoding. *)
Definition scalar (c : Z) : Prop := 0 <= c <= 0x10FFFF /\ ~ 0xD800 <= c <= 0xDFFF.
Definition encode_utf8 (c : Z) : list Z :=
  if c <? 0x80 then [c]
  else if c <? 0x800 then [0xC0 + c / 64; 0x80 + c mod 64]
  else if c <? 0x10000 then [0xE0 + c / 4096; 0x80 + c / 64 mod 64; 0x80 + c mod 64]
  else [0xF0 + c / 262144; 0x80 + c / 4096 mod 64; 0x80 + c / 64 mod 64; 0x80 + c mod 64].

Lemma tail_byte x : 0 <= x < 64 -> (0x80 + x) .& 0x3F = x.
Proof. intros. change 0x3F with (Z.ones 6). rewrite Z.land_ones by lia. dlia. Qed.
Lemma lead_byte base x w : 0 <= w -> 0 <= x < 2 ^ w -> base mod 2 ^ w = 0 -> (base + x) .& Z.ones w = x.
Proof.
  intros Hw Hx Hb. rewrite Z.land_ones by lia. rewrite Z.add_mod, Hb, Z.add_0_l, Z.mod_mod by lia.
  by apply Z.mod_small.
Qed.

(** The mark of a lead byte with [w] payload bits. *)
Lemma lead_mark b : byte_range b ->
  (b .& 0xE0 = 0xC0 <-> 0xC0 <= b < 0xE0) /\ (b .& 0xF0 = 0xE0 <-> 0xE0 <= b < 0xF0) /\ (b .& 0xF8 = 0xF0 <-> 0xF0 <= b < 0xF8).
Proof.
  intros Hb. pose (f b := eqb (b .& 0xE0 =? 0xC0) ((0xC0 <=? b) && (b <? 0xE0)) && eqb (b .& 0xF0 =? 0xE0) ((0xE0 <=? b) && (b <? 0xF0))
    && eqb (b .& 0xF8 =? 0xF0) ((0xF0 <=? b) && (b <? 0xF8))).
  assert (Hall : forallb f (seqZ 0 256) = true) by (vm_compute; reflexivity).
  rewrite forallb_forall in Hall. specialize (Hall b). unfold f in Hall.
  assert (Hin : In b (seqZ 0 256)) by (apply list_elem_of_In, elem_of_seqZ; lia). apply Hall in Hin.
  apply andb_true_iff in Hin as [Hin H3]. apply andb_true_iff in Hin as [H1 H2].
  apply eqb_prop in H1, H2, H3.
  split_and!; rewrite <- Z.eqb_eq; first [rewrite H1|rewrite H2|rewrite H3]; rewrite andb_true_iff, Z.leb_le, Z.ltb_lt; lia.
Qed.

Lemma shift_or hi lo w : 0 <= w -> 0 <= lo < 2 ^ w -> (hi << w) .| lo = hi * 2 ^ w + lo.
Proof.
  intros Hw Hlo. rewrite Z.shiftl_mul_pow2 by done. symmetry. apply Z.add_nocarry_lor.
  apply Z.bits_inj'. intros i Hi. rewrite Z.land_spec, Z.bits_0, <- Z.shiftl_mul_pow2, Z.shiftl_spec by done.
  destruct (Z.lt_ge_cases i w).
  - by rewrite Z.testbit_neg_r by lia.
  - rewrite andb_comm, (testbit_small lo w) by (done || lia). done.
Qed.

(** Decoding takes an encoded code point off the string. *)
Lemma decode_encode_utf8 c rest : scalar c -> decode_utf8 (encode_utf8 c ++ rest) = Some (c, rest).
Proof.
  intros [Hc Hs]. assert (Hv : in_range 0xD800 0xDFFF c = false).
  { unfold in_range. destruct (Z.leb_spec 0xD800 c), (Z.leb_spec c 0xDFFF); (done || lia). }
  unfold encode_utf8. destruct (Z.ltb_spec c 0x80) as [H1|H1]; [|destruct (Z.ltb_spec c 0x800) as [H2|H2]; [|destruct (Z.ltb_spec c 0x10000) as [H3|H3]]].
  - cbn [app decode_utf8]. rewrite (proj2 (Z.ltb_lt _ _) H1). by rewrite Hv.
  - cbn [app decode_utf8]. set (b0 := 0xC0 + c / 64). assert (Hb : 0xC0 <= b0 < 0xE0) by (unfold b0; dlia).
    destruct (lead_mark b0 ltac:(lia)) as (M1 & _ & _). rewrite (proj2 (Z.ltb_ge b0 0x80)), (proj2 (Z.eqb_eq _ _) (proj2 M1 Hb)) by lia.
    unfold b0. change 0x1F with (Z.ones 5). rewrite lead_byte, tail_byte, shift_or by (done || dlia).
    change (2 ^ 6) with 64. replace (c / 64 * 64 + c mod 64) with c by dlia. by rewrite Hv.
  - cbn [app decode_utf8]. set (b0 := 0xE0 + c / 4096). assert (Hb : 0xE0 <= b0 < 0xF0) by (unfold b0; dlia).
    destruct (lead_mark b0 ltac:(lia)) as (M1 & M2 & _). rewrite (proj2 (Z.ltb_ge b0 0x80)), (proj2 (Z.eqb_eq _ _) (proj2 M2 Hb)) by lia.
    rewrite (proj2 (Z.eqb_neq _ _)) by (rewrite M1; lia).
    unfold b0. change 0x0F with (Z.ones 4). rewrite lead_byte, !tail_byte by (done || dlia).
    rewrite <- Z.lor_assoc, (shift_or (c / 64 mod 64)), shift_or by dlia.
    change (2 ^ 6) with 64. change (2 ^ 12) with 4096. replace (c / 4096 * 4096 + (c / 64 mod 64 * 64 + c mod 64)) with c by dlia. by rewrite Hv.
  - cbn [app decode_utf8]. set (b0 := 0xF0 + c / 262144). assert (Hb : 0xF0 <= b0 <= 0xF4) by (unfold b0; dlia).
    destruct (lead_mark b0 ltac:(lia)) as (M1 & M2 & M3).
    rewrite (proj2 (Z.ltb_ge b0 0x80)), (proj2 (Z.eqb_eq _ _) (proj2 M3 ltac:(lia))), (proj2 (Z.leb_le b0 0xF4)) by lia.
    rewrite (proj2 (Z.eqb_neq (b0 .& 0xE0) _)), (proj2 (Z.eqb_neq (b0 .& 0xF0) _)) by (rewrite ?M1, ?M2; lia). cbn [andb].
    unfold b0. change 0x07 with (Z.ones 3). rewrite lead_byte, !tail_byte by (done || dlia).
    rewrite <- !Z.lor_assoc, (shift_or (c / 64 mod 64)), (shift_or (c / 4096 mod 64)), shift_or by dlia.
    change (2 ^ 6) with 64. change (2 ^ 12) with 4096. change (2 ^ 18) with 262144.
    replace (c / 262144 * 262144 + (c / 4096 mod 64 * 4096 + (c / 64 mod 64 * 64 + c mod 64))) with c by dlia. by rewrite Hv.
Qed.

(** ** The input method of Linux *)

(** Ctrl+Shift+U begins a code point, hexadecimal digits follow, Space ends it;
    other keys end it without a result. The state is the value so far, if one has
    begun, and the text. *)
Definition hex_key (d : Z) : Z := nthZ us_keycode_lut (if d <? 10 then 0x30 + d else 0x61 + (d - 10)).
Definition hex_value (stroke : Z * Z) : option Z :=
  List.find (fun d => bool_decide ((0, hex_key d) = stroke)) (seqZ 0 16).
Definition ime_step (s : option Z * list Z) (stroke : Z * Z) : option Z * list Z :=
  let '(pending, text) := s in
  match pending with
  | None => (if bool_decide (stroke = (3, KC_U)) then Some 0 else None, text)
  | Some x =>
      match hex_value stroke with
      | Some d => (Some (16 * x + d), text)
      | None => (None, if bool_decide (stroke = (0, KC_SPACE)) then text ++ [x] else text)
      end
  end.
Definition ime (l : list (Z * Z)) : option Z * list Z := foldl ime_step (None, []) l.

Lemma hex_digit d : 0 <= d < 16 ->
  hex_value (0, hex_key d) = Some d /\ IS_BASIC_KEYCODE (hex_key d) = true
  /\ char_strokes (layout := us_layout) (if d <? 10 then 0x30 + d else 0x61 + (d - 10)) = [(0, hex_key d)].
Proof.
  intros Hd. pose (f d := bool_decide (hex_value (0, hex_key d) = Some d) && IS_BASIC_KEYCODE (hex_key d)
    && bool_decide (char_strokes (layout := us_layout) (if d <? 10 then 0x30 + d else 0x61 + (d - 10)) = [(0, hex_key d)])).
  assert (Hall : forallb f (seqZ 0 16) = true) by (vm_compute; reflexivity).
  rewrite forallb_forall in Hall. specialize (Hall d). unfold f in Hall.
  assert (Hin : In d (seqZ 0 16)) by (apply list_elem_of_In, elem_of_seqZ; lia). apply Hall in Hin.
  apply andb_true_iff in Hin as [Hin H3]. apply andb_true_iff in Hin as [H1 H2].
  split_and!; [by eapply bool_decide_eq_true_1|done|by eapply bool_decide_eq_true_1].
Qed.

Section linux.
Context {E : Type} {eeprom : Eeprom E} {cfg : KeymapConfig} {mcfg : MouseKeyConfig} {qcfg : QmkSettingsConfig}
        {ucfg : UnicodeConfig}.
Context (host_keyboard_led_state : kb E -> led_t) (Hkey : UNICODE_KEY_LNX = LCTL (LSFT KC_U)).
Context (v : vial_state E) (n : bool).
#[local] Existing Instance us_layout.
Implicit Types (k : kb E) (l : list (Z * Z)).

Lemma nibble_range hex i : 0 <= nibble hex i < 16.
Proof. unfold nibble. change 0xF with (Z.ones 4). rewrite Z.land_ones by lia. apply Z.mod_pos_bound. lia. Qed.

Lemma nibble_shift hex i : 0 <= i -> hex >> (i * 4) = 16 * (hex >> ((i + 1) * 4)) + nibble hex i.
Proof.
  intros Hi. unfold nibble. change 0xF with (Z.ones 4). rewrite Z.land_ones by lia.
  replace ((i + 1) * 4) with (i * 4 + 4) by lia. rewrite <- Z.shiftr_shiftr by lia.
  rewrite (Z.shiftr_div_pow2 (hex >> (i * 4)) 4) by lia. change (2 ^ 4) with 16. dlia.
Qed.

Lemma send_nibble_types locked t d l k : 0 <= d < 16 -> idle v n (free_mods locked t) l k ->
  exists k', send_nibble_wrapper UNICODE_MODE_LINUX d k = Some k' /\ idle v n (free_mods locked t) (l ++ [(0, hex_key d)]) k'.
Proof.
  intros Hd Hk. destruct (hex_digit d Hd) as (_ & Hb & Hs). unfold send_nibble_wrapper, send_nibble.
  change (UNICODE_MODE_LINUX =? UNICODE_MODE_WINDOWS) with false. cbv iota.
  assert (Hl : d .& 0xF = d) by (change 0xF with (Z.ones 4); rewrite Z.land_ones by lia; apply Z.mod_small; lia).
  rewrite Hl. unfold send_char. rewrite <- Hs.
  assert (Hc : u8 (if d <=? 9 then d + 0x30 else d - 10 + 0x61) = if d <? 10 then 0x30 + d else 0x61 + (d - 10)).
  { destruct (Z.leb_spec d 9), (Z.ltb_spec d 10); try lia; rewrite u8_id by lia; lia. }
  assert (Hif : forall (a b : Z) i, (if d <=? 9 then send_char_with_delay (u8 a) i k else send_char_with_delay (u8 b) i k)
                                    = send_char_with_delay (u8 (if d <=? 9 then a else b)) i k) by (intros; by case_if).
  rewrite Hif, Hc. apply send_char_types; [|done]. split; [case_if; b2p; lia|exact Hb].
Qed.

(** One round of [register_hex32]: the input method has the digits down to the
    [i]-th, where leading zeros may be missing. *)
Lemma hex32_step_types hex i first locked t l k text :
  0 <= i -> idle v n (free_mods locked t) l k -> ime l = (Some (hex >> ((i + 1) * 4)), text) ->
  (first = true -> hex >> ((i + 1) * 4) = 0) ->
  exists first' l' k', hex32_step UNICODE_MODE_LINUX hex (Some (first, k)) i = Some (first', k')
    /\ idle v n (free_mods locked t) l' k' /\ ime l' = (Some (hex >> (i * 4)), text)
    /\ (first' = true -> hex >> (i * 4) = 0).
Proof.
  intros Hi Hk Hl Hf. pose proof (nibble_range hex i) as Hr. pose proof (nibble_shift hex i Hi) as Hn.
  unfold hex32_step. cbn [mbind option_bind]. change (UNICODE_MODE_LINUX =? UNICODE_MODE_WINCOMPOSE) with false.
  rewrite andb_false_r. cbn [andb mbind option_bind]. destruct (negb (nibble hex i =? 0) || negb first || (i <? 4)) eqn:Eb.
  - destruct (send_nibble_types locked t _ l k Hr Hk) as (k' & -> & K'). cbn [mbind option_bind].
    exists false. do 2 eexists. split; [reflexivity|]. split; [exact K'|]. split; [|done].
    unfold ime in *. rewrite foldl_app, Hl. cbn [foldl ime_step]. destruct (hex_digit _ Hr) as (-> & _). by rewrite Hn.
  - exists first, l, k. split; [done|]. split; [done|]. apply orb_false_iff in Eb as [Eb _]. apply orb_false_iff in Eb as [E1 E2].
    b2p. assert (hex >> (i * 4) = hex >> ((i + 1) * 4)) as -> by (rewrite Hn, Hf by done; lia). done.
Qed.

(** All rounds, from the highest digit. *)
Lemma hex32_loop_types hex (m : nat) locked t text : forall first l k,
  idle v n (free_mods locked t) l k -> ime l = (Some (hex >> (Z.of_nat m * 4)), text) ->
  (first = true -> hex >> (Z.of_nat m * 4) = 0) ->
  exists first' l' k', foldl (hex32_step UNICODE_MODE_LINUX hex) (Some (first, k)) (rev (seqZ 0 (Z.of_nat m))) = Some (first', k')
    /\ idle v n (free_mods locked t) l' k' /\ ime l' = (Some hex, text).
Proof.
  induction m as [|m IH]; intros first l k Hk Hl Hf; [by exists first, l, k|].
  replace (Z.of_nat (S m)) with (Z.of_nat m + 1) in * by lia.
  assert (H1 : seqZ (0 + Z.of_nat m) 1 = [Z.of_nat m]) by (unfold seqZ; cbn; f_equal; lia).
  rewrite (seqZ_app 0 (Z.of_nat m) 1), H1, rev_app_distr by lia. cbn [rev app foldl].
  destruct (hex32_step_types hex (Z.of_nat m) first locked t l k text ltac:(lia) Hk Hl Hf) as (f1 & l1 & k1 & -> & K1 & L1 & F1).
  exact (IH f1 l1 k1 K1 L1 F1).
Qed.

Lemma register_hex32_types hex locked t l k text : 0 <= hex < 2 ^ 32 ->
  idle v n (free_mods locked t) l k -> ime l = (Some 0, text) ->
  exists l' k', register_hex32 UNICODE_MODE_LINUX hex k = Some k'
    /\ idle v n (free_mods locked t) l' k' /\ ime l' = (Some hex, text).
Proof.
  intros Hh Hk Hl. unfold register_hex32. change [7; 6; 5; 4; 3; 2; 1; 0] with (rev (seqZ 0 (Z.of_nat 8))).
  assert (H0 : hex >> (Z.of_nat 8 * 4) = 0) by (rewrite Z.shiftr_div_pow2 by lia; apply Z.div_small; exact Hh).
  rewrite <- H0 in Hl. destruct (hex32_loop_types hex 8 locked t text true l k Hk Hl (fun _ => H0)) as (f & l1 & k1 & -> & K1 & L1).
  by exists l1, k1.
Qed.

(** ** Code points *)

(** The modifiers while text is sent: real and weak ones, nothing pending. *)
Definition held_mods (real weak locked t : Z) : mods_st := mk_mods real weak 0 0 0 locked t.

(** A key that the input method has no use for. *)
Lemma ime_ignores l text stroke : ime l = (None, text) -> stroke <> (3, KC_U) -> ime (l ++ [stroke]) = (None, text).
Proof. intros Hl Hs. unfold ime in *. rewrite foldl_app, Hl. cbn. by rewrite bool_decide_eq_false_2. Qed.

Lemma caps_types (b : bool) m l k text : idle v n m l k -> ime l = (None, text) ->
  exists l', idle v n m l' (when b (tap_code KC_CAPS_LOCK) k) /\ ime l' = (None, text).
Proof.
  intros Hk Hl. destruct b; [|by exists l]. eexists. split; [by apply idle_tap|]. by apply ime_ignores.
Qed.

(** The modifiers held are put aside while a code point is sent, and come back. *)
Lemma register_unicode_types cp real weak locked t l u k text :
  0 <= cp <= 0x10FFFF -> input_mode u = UNICODE_MODE_LINUX ->
  idle v n (held_mods real weak locked t) l k -> ime l = (None, text) ->
  exists u' l' k', register_unicode host_keyboard_led_state cp (u, k) = Some (u', k')
    /\ input_mode u' = UNICODE_MODE_LINUX /\ idle v n (held_mods real 0 locked t) l' k'
    /\ ime l' = (None, text ++ [cp]).
Proof using Hkey.
  intros Hcp Hu Hk Hl. unfold register_unicode. cbn [fst]. rewrite Hu, (proj2 (Z.ltb_ge 0x10FFFF cp)) by lia.
  change (UNICODE_MODE_LINUX =? UNICODE_MODE_WINDOWS) with false. change (UNICODE_MODE_LINUX =? UNICODE_MODE_MACOS) with false.
  rewrite !andb_false_r. cbn [orb]. unfold unicode_input_start. rewrite Hu.
  change (UNICODE_MODE_LINUX =? UNICODE_MODE_LINUX) with true. change (UNICODE_MODE_LINUX =? UNICODE_MODE_MACOS) with false.
  cbn [andb]. cbv iota zeta. set (led := host_keyboard_led_state k).
  destruct (caps_types (caps_lock led) _ l k text Hk Hl) as (l1 & K1 & L1). set (k1 := when (caps_lock led) _ k) in *.
  assert (Hr : real_mods (kb_mods k1) = real) by (destruct (idle_host _ _ _ _ _ K1) as (_ & -> & _); done).
  pose proof (idle_mods v n (fun m => clear_weak_mods (clear_mods m)) (held_mods real weak locked t) _ _ eq_refl K1) as K2.
  set (k2 := with_mods _ k1) in *. change (idle v n (free_mods locked t) l1 k2) in K2.
  rewrite Hkey. pose proof (idle_tap16 v n locked t (LCTL (LSFT KC_U)) (tap_delay (LCTL (LSFT KC_U)) k2) l1 k2 eq_refl ltac:(done) K2) as K3.
  apply (idle_wait v n UNICODE_TYPE_DELAY) in K3. unfold tap_code16. set (k3 := wait_ms UNICODE_TYPE_DELAY _) in *.
  assert (L3 : ime (l1 ++ [(extract_mod_bits (LCTL (LSFT KC_U)), u8 (LCTL (LSFT KC_U)))]) = (Some 0, text)).
  { unfold ime in *. by rewrite foldl_app, L1. }
  destruct (register_hex32_types cp locked t _ k3 text ltac:(lia) K3 L3) as (l4 & k4 & E4 & K4 & L4).
  unfold on_snd. cbn [fst snd]. rewrite E4. cbn [mbind option_bind]. unfold unicode_input_finish, unicode_input_end.
  cbn [input_mode unicode_saved_led_state unicode_saved_mods].
  change (UNICODE_MODE_LINUX =? UNICODE_MODE_LINUX) with true. change (UNICODE_MODE_LINUX =? UNICODE_MODE_MACOS) with false. cbv iota zeta.
  pose proof (idle_tap v n KC_SPACE _ _ _ eq_refl K4) as K5.
  assert (L5 : ime (l4 ++ [(plain_mods (free_mods locked t), KC_SPACE)]) = (None, text ++ [cp])).
  { unfold ime in *. by rewrite foldl_app, L4. }
  destruct (caps_types (caps_lock led) _ _ _ _ K5 L5) as (l6 & K6 & L6).
  do 3 eexists. split; [reflexivity|]. split; [done|]. split; [|exact L6]. rewrite Hr.
  exact (idle_mods v n (set_mods real) (free_mods locked t) _ _ eq_refl K6).
Qed.

Lemma encode_head c : 0 < c -> exists b bs, encode_utf8 c = b :: bs /\ b <> 0.
Proof. intros Hc. unfold encode_utf8. repeat case_if; do 2 eexists; (split; [reflexivity|]); b2p; dlia. Qed.

Lemma send_unicode_round fuel b bs s : b <> 0 ->
  send_unicode_loop host_keyboard_led_state (S fuel) (b :: bs) s
  = ('(code_point, str) ← decode_utf8 (b :: bs);
     s ← (if 0 <=? code_point then register_unicode host_keyboard_led_state code_point s else Some s);
     send_unicode_loop host_keyboard_led_state fuel str s).
Proof. intros Hb. cbn [send_unicode_loop]. by rewrite (proj2 (Z.eqb_neq b 0)). Qed.

Lemma send_unicode_types cps rest real locked t : forall fuel weak l u k text,
  Forall (fun c => scalar c /\ 0 < c) cps -> (length cps < fuel)%nat -> input_mode u = UNICODE_MODE_LINUX ->
  idle v n (held_mods real weak locked t) l k -> ime l = (None, text) ->
  exists u' weak' l' k', send_unicode_loop host_keyboard_led_state fuel (concat (map encode_utf8 cps) ++ 0 :: rest) (u, k) = Some (u', k')
    /\ input_mode u' = UNICODE_MODE_LINUX /\ idle v n (held_mods real weak' locked t) l' k'
    /\ ime l' = (None, text ++ cps).
Proof using Hkey.
  induction cps as [|c cps IH]; intros fuel weak l u k text Hc Hf Hu Hk Hl; (destruct fuel as [|fuel]; [cbn in Hf; lia|]).
  - exists u, weak, l, k. by rewrite app_nil_r.
  - apply list.Forall_cons in Hc as [[Hs Hc0] Hc]. cbn [map concat]. rewrite <- app_assoc.
    destruct (encode_head c Hc0) as (b & bs & Eb & Hb). rewrite Eb. cbn [app]. rewrite send_unicode_round by done.
    change (b :: ?tl) with ((b :: bs) ++ concat (map encode_utf8 cps) ++ 0 :: rest). rewrite <- Eb.
    rewrite decode_encode_utf8 by done. cbn [mbind option_bind]. rewrite (proj2 (Z.leb_le 0 c)) by lia.
    destruct (register_unicode_types c real weak locked t l u k text) as (u1 & l1 & k1 & -> & U1 & K1 & L1); [apply Hs|done..|].
    cbn [mbind option_bind]. destruct (IH fuel 0 l1 u1 k1 (text ++ [c]) Hc ltac:(cbn in Hf; lia) U1 K1 L1)
      as (u2 & w2 & l2 & k2 & E2 & U2 & K2 & L2). exists u2, w2, l2, k2. by rewrite <- app_assoc in L2.
Qed.
End linux.

(** C36: Unicode text reaches a host that runs Linux. On a keyboard with no key down,
    whatever modifiers are held and whatever the Caps Lock light says, sending the
    UTF-8 encoding of any code points but NUL and the surrogates gives the input
    method of the host exactly these code points, after the text it had: decoding
    finds each of them, its digits are typed with the modifiers put aside, and it
    is ended. The held modifiers are back afterwards, and no key is left down. *)
Theorem unicode_string_types {E : Type} {eeprom : Eeprom E} {cfg : KeymapConfig} {mcfg : MouseKeyConfig}
    {qcfg : QmkSettingsConfig} {ucfg : UnicodeConfig} (leds : kb E -> led_t)
    (cps rest text : list Z) (strokes_before : list (Z * Z)) (real weak locked t : Z) (u : unicode_st) (k : kb E) :
  UNICODE_KEY_LNX = LCTL (LSFT KC_U) -> input_mode u = UNICODE_MODE_LINUX ->
  Forall (fun c => scalar c /\ 0 < c) cps ->
  idle (kb_vial k) (nkro_of k) (held_mods real weak locked t) strokes_before k -> ime strokes_before = (None, text) ->
  exists u' k', send_unicode_string (layout := us_layout) leds (concat (map encode_utf8 cps) ++ 0 :: rest) (u, k) = Some (u', k')
    /\ ime (strokes (history k')) = (None, text ++ cps) /\ real_mods (kb_mods k') = real
    /\ (forall key, byte_range key -> report_pressed (shown k') key = false) /\ input_mode u' = UNICODE_MODE_LINUX.
Proof.
  intros Hkey Hu Hc Hk Hl. unfold send_unicode_string.
  assert (Hf : (length cps < length (concat (map encode_utf8 cps) ++ 0%Z :: rest))%nat).
  { rewrite length_app. cbn [length]. clear -Hc. induction Hc as [|c cps [_ Hc] _ IH]; [cbn; lia|].
    destruct (encode_head c Hc) as (b & bs & Eb & _). cbn [map concat]. rewrite Eb, length_app. cbn [length]. lia. }
  destruct (send_unicode_types leds Hkey _ _ cps rest real locked t _ weak strokes_before u k text Hc Hf Hu Hk Hl)
    as (u' & w' & l' & k' & E' & U' & K' & L'). exists u', k'. destruct (idle_host _ _ _ _ _ K') as (H1 & H2 & _ & H4).
  rewrite H1, H2. by split_and!.
Qed.

(** An index above 255 of a Unicode map is cut to a byte: these keys send another
    entry of the map. *)
Lemma unicodemap_index_wraps {E : Type} (leds : kb E -> led_t) (i : Z) (k : kb E) : 0 <= i < 0x4000 ->
  unicodemap_index leds (QK_UNICODEMAP .| i) k = i mod 256.
Proof.
  intros Hi. unfold unicodemap_index, QK_UNICODEMAP_PAIR.
  assert (Hor : QK_UNICODEMAP .| i = 0x8000 + i) by (change QK_UNICODEMAP with (2 << 14); rewrite shift_or by lia; lia).
  rewrite Hor, (proj2 (Z.leb_gt _ _)) by lia. unfold u8. change 0x3FFF with (Z.ones 14). rewrite Z.land_ones by lia. dlia.
Qed.

(** What an earlier, longer name left behind the input is still compared: typing
    [ab], starting anew and typing [c] looks for [cb]. *)
Lemma ucis_keeps_old_input :
  let typed := fun keys c => foldl (fun c key => (Ucis.ucis_add key c).2) c keys in
  let c := typed [0x06] (Ucis.ucis_cancel (typed [0x04; 0x05] Ucis.ucis_init)) in
  Ucis.find_symbol [Ucis.mk_symbol [0x63] [0x2603]] c = Some None
  /\ Ucis.find_symbol [Ucis.mk_symbol [0x63] [0x2603]] (typed [0x06] Ucis.ucis_init) = Some (Some (Ucis.mk_symbol [0x63] [0x2603])).
Proof. by vm_compute. Qed.

(** ** Witnesses *)

Section witnesses.
#[local] Existing Instance KeymapExample.config.
#[local] Existing Instance KeymapExample.config_ok.
#[local] Existing Instance KeymapExample.laws.
#[local] Existing Instance MouseKey.mcfg.
#[local] Existing Instance ViaExample.qcfg.

(** ["Hi!"], then Ctrl+A and Enter, with a delay. *)
Definition greeting : list macro_step :=
  [MChar 72; MChar 105; MChar 33; MDelay 11 1; MExt 5 0x04 0x01; MCode 1 0x28].
Definition greeting_store : KeymapExample.store :=
  dynamic_keymap_macro_set_buffer 0 (lenZ (encode_macros [greeting])) (encode_macros [greeting]) 0
    (dynamic_keymap_macro_reset KeymapExample.blank).
Definition greeting_kb : kb KeymapExample.store :=
  set_vial (Vial.set_settings (set_qs_eeprom greeting_store (settings example_vial)) example_vial) example_kb.

Lemma macros_type_text_witness :
  exists calls k', dynamic_keymap_macro_send greeting_store 0 = Some calls
    /\ perform_calls (layout := us_layout) 5 (fun _ _ k => k) calls greeting_kb = Some k'
    /\ strokes (history k') = [(2, 0x0B); (0, 0x0C); (2, 0x1E); (1, 0x04); (0, 0x28)].
Proof.
  edestruct (macros_type_text 5 (fun _ _ k => k) KeymapExample.blank [greeting] 0 greeting greeting_kb
               KeymapExample.fits KeymapExample.example_wf) as (calls & k' & H1 & H2 & H3 & _).
  - repeat first [apply Forall_cons_2 | apply Forall_nil_2]; cbn; unfold nonzero_byte; auto with lia.
  - vm_compute. discriminate.
  - split; vm_compute; (done || discriminate).
  - reflexivity.
  - repeat first [apply Forall_cons_2 | apply Forall_nil_2]; cbn; unfold has_key; repeat split; (lia || reflexivity).
  - split_and!; reflexivity.
  - reflexivity.
  - exists calls, k'. split; [exact H1|]. split; [exact H2|]. rewrite H3. reflexivity.
Defined.

Definition ucfg : UnicodeConfig := {|
  UNICODE_KEY_MAC := KC_LEFT_ALT; UNICODE_KEY_LNX := LCTL (LSFT KC_U); UNICODE_KEY_WINC := KC_RIGHT_ALT;
  UNICODE_SELECTED_MODES := [UNICODE_MODE_LINUX]; UNICODE_CYCLE_PERSIST := true; UNICODE_TYPE_DELAY := 10;
|}.
#[local] Existing Instance ucfg.
Definition caps_on : kb KeymapExample.store -> led_t := fun _ => mk_led false true.
Definition linux_st : unicode_st := mk_unicode UNICODE_MODE_LINUX 0 (mk_led false false) 0.
Definition shift_down : kb KeymapExample.store := register_code KC_LEFT_SHIFT example_kb.

(** An e with an acute accent and a smiling face, typed while Shift is held. *)
Lemma unicode_string_types_witness :
  exists u' k', send_unicode_string (layout := us_layout) caps_on [0xC3; 0xA9; 0xF0; 0x9F; 0x98; 0x80; 0] (linux_st, shift_down) = Some (u', k')
    /\ ime (strokes (history k')) = (None, [0xE9; 0x1F600]) /\ real_mods (kb_mods k') = 2.
Proof.
  edestruct (unicode_string_types caps_on [0xE9; 0x1F600] [] [] [] 2 0 0 0 linux_st shift_down) as (u' & k' & H1 & H2 & H3 & _).
  - reflexivity.
  - reflexivity.
  - repeat constructor; unfold scalar; lia.
  - refine (proj1 (idle_mod _ _ KC_LEFT_SHIFT (free_mods 0 0) [] example_kb eq_refl (rest_idle example_kb _))). split_and!; reflexivity.
  - reflexivity.
  - exists u', k'. split; [exact H1|]. split; [exact H2|exact H3].
Defined.
End witnesses.
