(* ===== verification/AutocorrectProofs.v ===== *)
(** * What autocorrection does

    The table is read as a dictionary of typos; searching it finds the typo that
    ends what was typed; and the host's text is that of a model that knows the
    dictionary and not the table. *)

From Stdlib Require Ascii String.
Import String.StringSyntax.
#[local] Delimit Scope string_scope with string.
From S2P Require Import Prelude.
From S2P Require Import Eeprom.
From S2P Require Import DynamicKeymap.
From S2P Require Import KeymapBuffer.
From S2P Require Import QmkSettings.
From S2P Require Import Vial.
From S2P Require Import ViaReset.
From S2P Require Import KeycodeConfig.
From S2P Require Import KeymapCommon.
From S2P Require Import Report.
From S2P Require Import MouseKey.
From S2P Require Import Keyboard.
From S2P Require Import VialDance.
From S2P Require Import ActionUtil.
From S2P Require Import HostReports.
From S2P Require Import Strokes.
From S2P Require Import KeyProcessors.
From S2P Require Import SendText.
From S2P Require Import Autocorrect.
From S2P Require Import SendTextProofs.
#[local] Set Default Proof Using "Type".

(** ** The dictionary in a table *)

Section dictionary.
Context (data : list Z).

(** The keys of a node with several children, with their children. *)
Fixpoint links (fuel : nat) (state code : Z) : option (list (Z * Z)) :=
  match fuel with
  | O => None
  | S fuel =>
      if code =? 0 then Some []
      else
        lo ← pgm_read data (state + 1); hi ← pgm_read data (state + 2); code' ← pgm_read data (state + 3);
        ls ← links fuel (state + 3) code';
        Some ((code, lo .| (hi << 8)) :: ls)
  end.

(** The typos below a state, from their last key on, with the states at their
    ends; [None] if the bytes are not those of a trie. *)
Fixpoint entries (fuel : nat) (state : Z) : option (list (list Z * Z)) :=
  match fuel with
  | O => None
  | S fuel =>
      code ← pgm_read data state;
      if truthy (code .& 128) then Some [([], state)]
      else if truthy (code .& 64) then
        ls ← links (length data) state (code .& 63);
        if bool_decide (NoDup (map fst ls)) then
          (fun ess => concat ess) <$> mapM (fun '(key, child) => map (fun e => (key :: e.1, e.2)) <$> entries fuel child) ls
        else None
      else if code =? 0 then None
      else
        next ← pgm_read data (state + 1);
        map (fun e => (code :: e.1, e.2)) <$> entries fuel (if next =? 0 then state + 2 else state + 1)
  end.

(** The backspaces and the text at the end of a typo. *)
Definition correction (state : Z) : option (nat * list Z) :=
  code ← pgm_read data state;
  text ← cstring (drop (Z.to_nat (state + 1)) data);
  Some (Z.to_nat (code .& 63), text).

(** Typos have fewer than 128 keys, the range of the index into the buffer. *)
Definition dictionary : option (list (list Z * (nat * list Z))) :=
  code ← pgm_read data 0;
  if truthy (code .& 128) then None
  else
    es ← entries 128 0;
    mapM (fun e => c ← correction e.2; Some (e.1, c)) es.

(** The typo that the keys begin with, which come from the last. *)
Definition lookup_typo {A} (dict : list (list Z * A)) (keys : list Z) : option (list Z * A) :=
  List.find (fun e => bool_decide (e.1 `prefix_of` keys)) dict.

Context (Hsmall : lenZ data <= 65536) (Hbytes : bytes data).

Lemma pgm_read_range state code : pgm_read data state = Some code -> 0 <= state < lenZ data /\ byte_range code.
Proof using Hbytes.
  unfold pgm_read. destruct (Z.leb_spec 0 state); [|done]. intros Hl. split.
  - apply lookup_lt_Some in Hl. unfold lenZ. lia.
  - unfold bytes in Hbytes. rewrite list.Forall_forall in Hbytes. apply Hbytes. by apply list_elem_of_lookup_2 in Hl.
Qed.

Lemma links_read fuel : forall state code ls, links fuel state code = Some ls ->
  forall key, key <> 0 -> follow data fuel key state code = Some (snd <$> List.find (fun l => l.1 =? key) ls).
Proof using Hsmall Hbytes.
  induction fuel as [|fuel IH]; intros state code ls H key Hkey; [done|]. cbn [links follow] in *.
  destruct (Z.eqb_spec code 0) as [->|Hc].
  - injection H as <-. rewrite (proj2 (Z.eqb_neq 0 key)) by congruence. done.
  - destruct (pgm_read data (state + 1)) as [lo|] eqn:E1; [|done]. destruct (pgm_read data (state + 2)) as [hi|] eqn:E2; [|done].
    destruct (pgm_read data (state + 3)) as [code'|] eqn:E3; [|done]. cbn [mbind option_bind] in *.
    destruct (links fuel (state + 3) code') as [ls'|] eqn:E4; [|done]. injection H as <-. cbn [List.find fst].
    destruct (Z.eqb_spec code key) as [->|Hk]; [done|]. destruct (pgm_read_range _ _ E3) as [[_ H3] _].
    destruct (pgm_read_range _ _ E1) as [[H1 _] _]. assert (Hu : u16 (state + 3) = state + 3) by (unfold u16; dlia).
    rewrite Hu, E3. cbn [mbind option_bind]. by apply IH.
Qed.

(** The entries of one child among others. *)
Lemma lookup_other (key k : Z) keys (es rest : list (list Z * Z)) : k <> key ->
  lookup_typo (map (fun e => (k :: e.1, e.2)) es ++ rest) (key :: keys) = lookup_typo rest (key :: keys).
Proof.
  intros Hk. unfold lookup_typo. induction es as [|e es IH]; [done|]. cbn [map app List.find fst].
  rewrite bool_decide_eq_false_2; [done|]. intros Hp. by apply prefix_cons_inv_1 in Hp.
Qed.
Lemma lookup_same (key : Z) keys (es rest : list (list Z * Z)) :
  lookup_typo (map (fun e => (key :: e.1, e.2)) es ++ rest) (key :: keys)
  = match lookup_typo es keys with
    | Some e => Some (key :: e.1, e.2)
    | None => lookup_typo rest (key :: keys)
    end.
Proof.
  unfold lookup_typo. induction es as [|e es IH]; [done|]. cbn [map app List.find fst].
  assert (Hb : bool_decide (key :: e.1 `prefix_of` key :: keys) = bool_decide (e.1 `prefix_of` keys)).
  { apply bool_decide_ext. split; [apply prefix_cons_inv_2|apply prefix_cons]. }
  rewrite Hb. destruct (bool_decide (e.1 `prefix_of` keys)); [done|exact IH].
Qed.

(** The first key of an entry decides which child it is in. *)
Lemma lookup_children (ls : list (Z * Z)) (f : Z -> option (list (list Z * Z))) ess key keys :
  NoDup (map fst ls) -> mapM (fun '(k, child) => map (fun e => (k :: e.1, e.2)) <$> f child) ls = Some ess ->
  match List.find (fun l => l.1 =? key) ls with
  | Some (_, child) => exists es, f child = Some es /\ lookup_typo (concat ess) (key :: keys)
                                   = (fun e => (key :: e.1, e.2)) <$> lookup_typo es keys
  | None => lookup_typo (concat ess) (key :: keys) = None
  end.
Proof.
  intros Hnd Hm. apply mapM_Some_1 in Hm.
  revert Hnd. induction Hm as [|[k child] es' ls ess Hk Hrest IH]; intros Hnd; [done|].
  cbn [map fst] in Hnd. apply list.NoDup_cons in Hnd as [Hn Hnd]. specialize (IH Hnd). cbn [List.find fst concat].
  destruct (f child) as [es|] eqn:Ef; [|done]. injection Hk as <-. destruct (Z.eqb_spec k key) as [->|Hne].
  - exists es. split; [done|]. rewrite lookup_same. destruct (lookup_typo es keys) as [e|]; [done|]. cbn [fmap option_fmap option_map].
    assert (Hnone : List.find (fun l : Z * Z => l.1 =? key) ls = None).
    { destruct (List.find _ ls) as [[k' c']|] eqn:El; [|done]. apply List.find_some in El as [Hin He]. cbn in He. apply Z.eqb_eq in He as ->.
      exfalso. apply Hn, list_elem_of_In, in_map_iff. by exists (key, c'). }
    rewrite Hnone in IH. exact IH.
  - rewrite lookup_other by done. exact IH.
Qed.

(** Only the end of a typo has the empty rest. *)
Lemma entries_nonempty fuel state code es : entries fuel state = Some es -> pgm_read data state = Some code ->
  truthy (code .& 128) = false -> lookup_typo es [] = None.
Proof.
  intros He Hr Hleaf. destruct fuel as [|fuel]; [done|]. cbn [entries] in He. rewrite Hr in He.
  cbn [mbind option_bind] in He. rewrite Hleaf in He.
  assert (Hcons : forall (k : Z) (es : list (list Z * Z)) rest,
    lookup_typo (map (fun e => (k :: e.1, e.2)) es ++ rest) [] = lookup_typo rest []).
  { intros k es1 rest. unfold lookup_typo. induction es1 as [|e es1 IH]; [done|]. cbn [map app List.find fst].
    rewrite bool_decide_eq_false_2; [done|]. intros Hp. by apply prefix_nil_inv in Hp. }
  destruct (truthy (code .& 64)).
  - destruct (links _ _ _) as [ls|]; [|done]. cbn [mbind option_bind] in He. destruct (bool_decide _); [|done].
    destruct (mapM _ ls) as [ess|] eqn:Em; [|done]. injection He as <-. apply mapM_Some_1 in Em.
    induction Em as [|[k child] es' ls ess Hk _ IH]; [done|]. destruct (entries fuel child); [|done]. injection Hk as <-.
    cbn [concat]. by rewrite Hcons.
  - destruct (code =? 0); [done|]. destruct (pgm_read _ _); [|done]. cbn [mbind option_bind] in He.
    destruct (entries fuel _) as [es1|]; [|done]. injection He as <-. specialize (Hcons code es1 []). by rewrite app_nil_r in Hcons.
Qed.

(** Searching finds the entry that the keys begin with. *)
Lemma search_entries fuel : forall state code es keys, entries fuel state = Some es -> pgm_read data state = Some code ->
  truthy (code .& 128) = false -> Forall (fun key => key <> 0) keys ->
  search data keys state code = Some (snd <$> lookup_typo es keys).
Proof using Hsmall Hbytes.
  induction fuel as [|fuel IH]; intros state code es keys He Hr Hleaf Hk; [done|]. pose proof He as Hes. cbn [entries] in He. rewrite Hr in He.
  cbn [mbind option_bind] in He. rewrite Hleaf in He.
  assert (Hchild : forall child es keys, entries fuel child = Some es -> Forall (fun key => key <> 0) keys ->
    (if DICTIONARY_SIZE data <=? child then Some None
     else code ← pgm_read data child; if truthy (code .& 128) then Some (Some child) else search data keys child code)
    = Some (snd <$> lookup_typo es keys)).
  { intros child es1 keys1 He1 Hk1. pose proof He1 as He2. destruct fuel as [|fuel']; [done|]. cbn [entries] in He2.
    destruct (pgm_read data child) as [code1|] eqn:E1; [|done]. cbn [mbind option_bind] in *.
    destruct (pgm_read_range _ _ E1) as [Hc _]. unfold DICTIONARY_SIZE. rewrite (proj2 (Z.leb_gt _ _)) by lia.
    destruct (truthy (code1 .& 128)) eqn:El; [injection He2 as <-; unfold lookup_typo; cbn [List.find fst];
      by rewrite bool_decide_eq_true_2 by apply prefix_nil|]. by apply IH. }
  destruct keys as [|key keys]; [cbn [search]; by rewrite (entries_nonempty (S fuel) state code es Hes Hr Hleaf)|].
  apply list.Forall_cons in Hk as [Hkey Hk]. cbn [search]. destruct (truthy (code .& 64)).
  - destruct (links _ _ _) as [ls|] eqn:El; [|done]. cbn [mbind option_bind] in He. case_bool_decide as Hnd; [|done].
    destruct (mapM _ ls) as [ess|] eqn:Em; [|done]. injection He as <-.
    rewrite (links_read _ _ _ _ El key Hkey). pose proof (lookup_children ls _ ess key keys Hnd Em) as Hf.
    destruct (List.find _ ls) as [[k child]|]; cbn [fmap option_fmap option_map snd mbind option_bind].
    + destruct Hf as (es1 & E1 & ->). rewrite (Hchild child es1 keys E1 Hk). by destruct (lookup_typo es1 keys).
    + by rewrite Hf.
  - destruct (Z.eqb_spec code 0) as [|Hc0]; [done|]. destruct (pgm_read data (state + 1)) as [next|] eqn:En; [|done].
    cbn [mbind option_bind] in *. destruct (entries fuel _) as [es1|] eqn:E1; [|done]. injection He as <-.
    rewrite <- (app_nil_r (map _ es1)). destruct (Z.eqb_spec code key) as [->|Hne]; cbn [negb mbind option_bind].
    + rewrite lookup_same. destruct (pgm_read_range _ _ En) as [Hn _].
      assert (Hu : u16 (if next =? 0 then state + 2 else state + 1) = if next =? 0 then state + 2 else state + 1).
      { unfold pgm_read in E1. destruct fuel as [|fuel']; [done|]. cbn [entries] in E1.
        destruct (pgm_read data (if next =? 0 then _ else _)) eqn:E2; [|done]. apply pgm_read_range in E2 as [H2 _]. unfold u16. dlia. }
      rewrite Hu, (Hchild _ _ keys E1 Hk). by destruct (lookup_typo es1 keys).
    + by rewrite lookup_other.
Qed.
End dictionary.

(** ** The text of the host *)

(** A text field: Backspace takes the last character, other keys add theirs. *)
Definition edit (text : list Z) (stroke : Z * Z) : list Z :=
  if bool_decide (stroke = (0, KC_BACKSPACE)) then removelast text
  else match us_glyph stroke with Some c => text ++ [c] | None => text end.
Definition host_text (l : list (Z * Z)) : list Z := foldl edit [] l.

Definition printable (c : Z) : Prop := 32 <= c <= 126.

Lemma printable_char c : printable c ->
  has_key (layout := us_layout) c /\ exists stroke, char_strokes (layout := us_layout) c = [stroke] /\
    forall text, edit text stroke = text ++ [c].
Proof.
  intros Hc.
  pose (st c := (char_mods (layout := us_layout) c, nthZ us_keycode_lut c)).
  pose (f c := IS_BASIC_KEYCODE (nthZ us_keycode_lut c) && negb (bool_decide (st c = (0, KC_BACKSPACE)))).
  assert (Hall : forallb f (seqZ 32 95) = true) by (vm_compute; reflexivity).
  rewrite forallb_forall in Hall. specialize (Hall c). unfold f in Hall.
  assert (Hin : In c (seqZ 32 95)) by (apply list_elem_of_In, elem_of_seqZ; unfold printable in Hc; lia).
  apply Hall in Hin. apply andb_true_iff in Hin as [Hb Hs]. apply negb_true_iff in Hs.
  assert (Hk : has_key (layout := us_layout) c) by (split; [unfold printable in Hc; lia|exact Hb]).
  split; [done|]. destruct (us_glyph_char c Hk) as [H1 H2]. exists (st c). split; [exact H1|].
  intros text. unfold edit. rewrite Hs. unfold st. by rewrite H2.
Qed.

Lemma host_text_app l l' : host_text (l ++ l') = foldl edit (host_text l) l'.
Proof. unfold host_text. by rewrite foldl_app. Qed.

Lemma edit_text text : forall t0, Forall printable text ->
  foldl edit t0 (concat (map (char_strokes (layout := us_layout)) text)) = t0 ++ text.
Proof.
  induction text as [|c text IH]; intros t0 Ht; [by rewrite app_nil_r|]. apply list.Forall_cons in Ht as [Hc Ht].
  destruct (printable_char c Hc) as (_ & st & Hs & He). cbn [map concat]. rewrite Hs. cbn [app foldl]. rewrite He, IH by done.
  by rewrite <- app_assoc.
Qed.

Lemma removelast_take (text : list Z) : removelast text = take (length text - 1) text.
Proof. rewrite removelast_firstn_len. f_equal. lia. Qed.

Lemma edit_backspaces b : forall text, foldl edit text (replicate b (0, KC_BACKSPACE)) = take (length text - b) text.
Proof.
  induction b as [|b IH]; intros text; [by rewrite Nat.sub_0_r, firstn_all|]. cbn [replicate foldl].
  unfold edit at 2. rewrite bool_decide_eq_true_2 by done. rewrite IH, removelast_take, length_take, take_take. f_equal. lia.
Qed.

(** ** The model *)

(** The keys remembered, and the text. *)
Record writer := mk_writer { recent : list Z; written : list Z }.

Section model.
Context (dict : list (list Z * (nat * list Z))) (min max : Z).

Definition remember (key : Z) (keys : list Z) : list Z :=
  if max <=? lenZ keys then drop 1 keys ++ [key] else keys ++ [key].

(** The letters of the last word, of keys that come from the last; a space at the
    end does not count. *)
Fixpoint word_length (keys : list Z) : nat :=
  match keys with
  | [] => 0
  | key :: keys => if key =? KC_SPACE then 0 else S (word_length keys)
  end.
Definition last_length (keys : list Z) : nat :=
  match keys with
  | [] => 0
  | key :: rest => if key =? KC_SPACE then word_length rest else word_length keys
  end.

(** The corrected word that is put together for the hook has ten characters more
    than the keys remembered, and the text is not written before its start: no
    more letters are taken back than the last word has. *)
Definition has_place (keys : list Z) (key : Z) (backspaces : nat) (text : list Z) : bool :=
  let back := if key =? KC_SPACE then backspaces else S backspaces in
  (back <=? last_length (rev keys))%nat
  && (Z.of_nat (last_length (rev keys) - back + length text) <? max + 10).

(** A key is typed; if a typo now ends the keys remembered, its wrong end is
    replaced. [None] where there is no place for the corrected word. *)
Definition type_key (p : writer) (key : Z) : option writer :=
  if key =? KC_BACKSPACE then Some (mk_writer (removelast (recent p)) (removelast (written p)))
  else
    let keys := remember key (recent p) in
    match (if lenZ keys <? min then None else lookup_typo dict (rev keys)) with
    | Some (_, (backspaces, text)) =>
        if has_place keys key backspaces text then
          let fixed := take (length (written p) - backspaces) (written p) ++ text in
          Some (if key =? KC_SPACE then mk_writer [KC_SPACE] (edit fixed (0, KC_SPACE)) else mk_writer [] fixed)
        else None
    | None => Some (mk_writer keys (edit (written p) (0, key)))
    end.
Definition type_keys (keys : list Z) : option writer :=
  foldl (fun typed key => p ← typed; type_key p key) (Some (mk_writer [KC_SPACE] [])) keys.
End model.

(** ** The buffer *)

Lemma slice_updZ_before l i x : slice (updZ l i x) 0 i = slice l 0 i.
Proof.
  destruct (Z.lt_ge_cases i 0); [by rewrite !slice_nil by lia|].
  apply listZ_ext; rewrite lenZ_slice by lia; [by rewrite lenZ_slice by lia|].
  intros j Hj. rewrite !nthZ_slice by lia. apply nthZ_updZ_ne. lia.
Qed.
Lemma slice_append l i x : 0 <= i < lenZ l -> slice (updZ l i x) 0 (i + 1) = slice l 0 i ++ [x].
Proof. intros Hi. rewrite slice_snoc, slice_updZ_before, Z.add_0_l, nthZ_updZ_eq by lia. done. Qed.

Section buffer.
Context {acfg : AutocorrectConfig} (Hmax : 1 <= AUTOCORRECT_MAX_LENGTH).

(** The part of the buffer in use. *)
Record buffer_ok (keys : list Z) (a : autocorrect_st) : Prop := {
  buffer_length : lenZ (typo_buffer a) = AUTOCORRECT_MAX_LENGTH;
  buffer_size : 0 <= typo_buffer_size a <= AUTOCORRECT_MAX_LENGTH;
  buffer_keys : slice (typo_buffer a) 0 (typo_buffer_size a) = keys;
}.

Lemma buffer_append key keys a : buffer_ok keys a ->
  buffer_ok (remember AUTOCORRECT_MAX_LENGTH key keys) (append_key key a).
Proof using Hmax.
  intros [Hl Hs Hk]. unfold append_key, remember. rewrite <- Hk, lenZ_slice by lia.
  destruct (Z.leb_spec AUTOCORRECT_MAX_LENGTH (typo_buffer_size a)) as [H|H]; cbn [typo_buffer typo_buffer_size].
  - set (l := slice (typo_buffer a) 1 (AUTOCORRECT_MAX_LENGTH - 1) ++ slice (typo_buffer a) (AUTOCORRECT_MAX_LENGTH - 1) 1).
    assert (Hl' : lenZ l = AUTOCORRECT_MAX_LENGTH) by (unfold l; rewrite lenZ_app, !lenZ_slice by lia; lia).
    constructor; cbn [typo_buffer typo_buffer_size]; [by rewrite lenZ_updZ|lia|]. rewrite slice_append by lia. f_equal.
    assert (typo_buffer_size a = 1 + (AUTOCORRECT_MAX_LENGTH - 1)) as -> by lia.
    assert (Hd : slice (typo_buffer a) 0 (1 + (AUTOCORRECT_MAX_LENGTH - 1))
                 = [nthZ (typo_buffer a) 0] ++ slice (typo_buffer a) 1 (AUTOCORRECT_MAX_LENGTH - 1)).
    { unfold slice. by rewrite seqZ_app, map_app by lia. }
    rewrite Hd. cbn [app drop]. rewrite drop_0.
    apply listZ_ext; rewrite !lenZ_slice by lia; [done|]. intros j Hj. rewrite nthZ_slice, Z.add_0_l by lia. unfold l.
    rewrite nthZ_app by lia. rewrite lenZ_slice by lia. case_if; [done|lia].
  - constructor; cbn [typo_buffer typo_buffer_size]; [by rewrite lenZ_updZ|lia|]. by rewrite slice_append by lia.
Qed.

Lemma buffer_backspace keys a : buffer_ok keys a ->
  buffer_ok (removelast keys) (set_size (if 0 <? typo_buffer_size a then typo_buffer_size a - 1 else typo_buffer_size a) a).
Proof.
  intros [Hl Hs Hk]. constructor; cbn [typo_buffer typo_buffer_size set_size]; [done|case_if; b2p; lia|].
  rewrite <- Hk. destruct (Z.ltb_spec 0 (typo_buffer_size a)).
  - replace (typo_buffer_size a) with (typo_buffer_size a - 1 + 1) at 2 by lia.
    rewrite slice_snoc by lia. by rewrite removelast_last.
  - by rewrite !slice_nil by lia.
Qed.

Lemma buffer_reset (key : Z) keys a : buffer_ok keys a ->
  buffer_ok [key] (mk_ac (updZ (typo_buffer a) 0 key) 1) /\ buffer_ok [] (set_size 0 a).
Proof using Hmax.
  intros [Hl Hs Hk]. split; (constructor; cbn [typo_buffer typo_buffer_size set_size]; [by rewrite ?lenZ_updZ|lia|]).
  - rewrite slice_1. by rewrite nthZ_updZ_eq by lia.
  - by rewrite slice_nil.
Qed.

(** ** The corrected word *)

Lemma last_word_spec keys a i : buffer_ok keys a -> forall len, Z.of_nat i < typo_buffer_size a ->
  let w := word_length (rev (slice (typo_buffer a) 0 (Z.of_nat i))) in
  last_word a i len = (Z.of_nat i - Z.of_nat w, len + Z.of_nat w) /\ (w <= i)%nat.
Proof using.
  intros Hb. induction i as [|i IH]; intros len Hi.
  - rewrite slice_nil by lia. split; [cbn [last_word rev word_length]; f_equal; lia|cbn; lia].
  - replace (Z.of_nat (S i)) with (Z.of_nat i + 1) by lia. rewrite slice_snoc by lia. rewrite rev_app_distr, Z.add_0_l.
    cbn [rev app word_length last_word]. rewrite (proj2 (Z.eqb_neq (Z.of_nat (S i)) _)), andb_true_r by lia.
    destruct (IH (len + 1) ltac:(lia)) as [IH1 IH2]. cbv zeta in *.
    destruct (_ =? KC_SPACE); [split; [f_equal; lia|lia]|]. rewrite IH1. split; [f_equal; lia|lia].
Qed.

(** The start and the length of the last word. *)
Lemma typo_word_spec keys a : buffer_ok keys a -> keys <> [] ->
  let w := Z.of_nat (last_length (rev keys)) in
  exists start, typo_word a = (start, w) /\ 0 <= start /\ start + w <= typo_buffer_size a
    /\ space_last a = (List.last keys 0 =? KC_SPACE).
Proof using.
  intros Hb Hne w. pose proof Hb as [Hl Hs Hk].
  assert (Hsize : 0 < typo_buffer_size a).
  { destruct (Z.eq_dec (typo_buffer_size a) 0) as [H0|]; [|lia]. rewrite H0, slice_nil in Hk by lia. congruence. }
  set (i := Z.to_nat (typo_buffer_size a - 1)).
  assert (Hi : typo_buffer_size a = Z.of_nat i + 1) by lia.
  assert (Hkeys : keys = slice (typo_buffer a) 0 (Z.of_nat i) ++ [nthZ (typo_buffer a) (Z.of_nat i)])
    by (rewrite <- Hk, Hi, slice_snoc by lia; done).
  destruct (last_word_spec keys a i Hb 1 ltac:(lia)) as [H1 H2]. cbv zeta in *.
  unfold typo_word, space_last, w. rewrite Hi. replace (Z.of_nat i + 1 - 1) with (Z.of_nat i) by lia.
  rewrite Hkeys, rev_app_distr, List.last_last. cbn [rev app last_length].
  replace (Z.to_nat (Z.of_nat i + 1)) with (S i) by lia. cbn [last_word].
  rewrite (proj2 (Z.eqb_eq (Z.of_nat (S i)) (typo_buffer_size a)) ltac:(lia)). rewrite andb_false_r, Z.add_0_l, H1.
  destruct (nthZ (typo_buffer a) (Z.of_nat i) =? KC_SPACE) eqn:E.
  - eexists. split; [f_equal; lia|]. by split_and!; [lia|lia|].
  - cbn [word_length]. rewrite E. eexists. split; [f_equal; lia|]. by split_and!; [lia|lia|].
Qed.

Lemma cstring_zeros (l : list Z) rest : Forall (fun c => c <> 0) l -> cstring (l ++ 0 :: rest) = Some l.
Proof using.
  induction 1 as [|c l Hc _ IH]; [done|]. cbn [app cstring]. rewrite (proj2 (Z.eqb_neq c 0)) by done. by rewrite IH.
Qed.

Lemma strcpy_spec dst pos str :
  (exists dst', strcpy dst pos str = Some dst' /\ lenZ dst' = lenZ dst /\ 0 <= pos /\ pos + lenZ str < lenZ dst)
  \/ strcpy dst pos str = None /\ ~ (0 <= pos /\ pos + lenZ str < lenZ dst).
Proof using.
  unfold strcpy. destruct (Z.leb_spec 0 pos), (Z.ltb_spec (pos + lenZ str) (lenZ dst)); cbn [andb]; [left|right..].
  - eexists. split; [done|]. split; [|lia]. unfold blit, lenZ in *.
    rewrite !length_app, length_take, length_drop. cbn [length]. lia.
  - split; [done|lia].
  - split; [done|lia].
  - split; [done|lia].
Qed.

(** The arrays have room for the word, and for the correction in just these cases. *)
Lemma correct_chars_place keys a backspaces text : buffer_ok keys a -> keys <> [] -> 0 <= backspaces ->
  Forall (fun key => 0 < key < 128) keys ->
  if has_place AUTOCORRECT_MAX_LENGTH keys (List.last keys 0) (Z.to_nat backspaces) text
  then exists correct, correct_chars backspaces text a = Some correct
  else correct_chars backspaces text a = None.
Proof using Hmax.
  intros Hb Hne Hbk Hkeys. destruct (typo_word_spec keys a Hb Hne) as (start & Hw & Hs1 & Hs2 & Hsp). cbv zeta in *.
  pose proof Hb as [Hl Hs Hk]. unfold correct_chars, typo_chars. rewrite Hw, Hsp. cbn [snd].
  set (w := last_length (rev keys)) in *. set (chars := map _ _).
  assert (Hn : length chars = w).
  { unfold chars. rewrite length_map. apply Nat2Z.inj. change (Z.of_nat (length ?l)) with (lenZ l). rewrite lenZ_slice; lia. }
  assert (Hnz : Forall (fun c => c <> 0) chars).
  { apply list.Forall_forall. intros c Hc. apply list_elem_of_In, in_map_iff in Hc as (key & <- & Hin).
    assert (Hin' : In key keys).
    { rewrite <- Hk. apply in_map_iff in Hin as (j & <- & Hj). apply list_elem_of_In, elem_of_seqZ in Hj.
      apply in_map_iff. exists j. split; [done|]. apply list_elem_of_In, elem_of_seqZ. lia. }
    rewrite list.Forall_forall in Hkeys. apply list_elem_of_In, Hkeys in Hin'. unfold u8, KC_A. dlia. }
  assert (Hc : cstring (blit (memset 0 (AUTOCORRECT_MAX_LENGTH + 1)) 0 chars) = Some chars).
  { unfold blit, memset. rewrite Z2Nat.inj_0, take_0, Nat.add_0_l, drop_replicate. cbn [app].
    destruct (Z.to_nat (AUTOCORRECT_MAX_LENGTH + 1) - length chars)%nat as [|n] eqn:En; [lia|]. by apply cstring_zeros. }
  rewrite Hc. cbn [mbind option_bind]. assert (Hm : lenZ (memset 0 (AUTOCORRECT_MAX_LENGTH + 10)) = AUTOCORRECT_MAX_LENGTH + 10)
    by (unfold lenZ, memset; rewrite length_replicate; lia).
  destruct (strcpy_spec (memset 0 (AUTOCORRECT_MAX_LENGTH + 10)) 0 chars) as [(c1 & -> & H1 & _)|[_ H1]];
    [|unfold lenZ in *; lia].
  cbn [mbind option_bind]. unfold has_place. fold w. cbv zeta.
  set (back := if List.last keys 0 =? KC_SPACE then _ else _). fold w.
  set (off := if List.last keys 0 =? KC_SPACE then backspaces else backspaces + 1).
  assert (Hoff : off = Z.of_nat back) by (unfold off, back; case_if; lia).
  destruct (strcpy_spec c1 (Z.of_nat w - off) text) as [(c2 & -> & _ & H2)|[-> H2]].
  - rewrite (proj2 (Nat.leb_le _ _)) by lia. rewrite (proj2 (Z.ltb_lt _ _)) by (unfold lenZ in *; lia). by exists c2.
  - destruct (Nat.leb_spec back w), (Z.ltb_spec (Z.of_nat (w - back + length text)) (AUTOCORRECT_MAX_LENGTH + 10));
      cbn [andb]; [unfold lenZ in *; lia|done..].
Qed.
End buffer.

(** ** Typing with autocorrection *)

Section typing.
Context {E : Type} {eeprom : Eeprom E} {cfg : KeymapConfig} {mcfg : MouseKeyConfig} {qcfg : QmkSettingsConfig}
        {acfg : AutocorrectConfig}.
#[local] Existing Instance us_layout.
Context (Hmax : 1 <= AUTOCORRECT_MAX_LENGTH) (Hsmall : lenZ autocorrect_data <= 65536) (Hbytes : bytes autocorrect_data).
Implicit Types (s : kb E * autocorrect_st) (k : kb E).

Definition key_event (pressed : bool) : keyrecord_t := event_record (MAKE_KEYEVENT 0 0 pressed 1).

(** A key goes down and up again; what autocorrection lets pass is registered. *)
Definition run_key (hold : Z) s (key : Z) : option (kb E * autocorrect_st) :=
  '(go, s) ← process_autocorrect key (key_event true) s;
  let s := (wait_ms hold (when go (register_code key) s.1), s.2) in
  '(go, s) ← process_autocorrect key (key_event false) s;
  Some (when go (unregister_code key) s.1, s.2).
Definition run_keys (hold : Z) s (keys : list Z) : option (kb E * autocorrect_st) :=
  foldl (fun typed key => s ← typed; run_key hold s key) (Some s) keys.

(** The keys of words: letters, Space and Backspace. *)
Definition word_key (key : Z) : Prop := KC_A <= key <= KC_Z \/ key = KC_SPACE \/ key = KC_BACKSPACE.

Lemma word_key_plain key mods size : word_key key ->
  IS_BASIC_KEYCODE key = true /\ in_range QK_AUTOCORRECT_ON QK_AUTOCORRECT_TOGGLE key = false
  /\ process_autocorrect_default_handler key (key_event true) size 0 = (true, key, size, 0)
  /\ letter_of key mods size = (if key =? KC_BACKSPACE then inr (if 0 <? size then size - 1 else size) else inl (key, size)).
Proof.
  intros Hk. unfold word_key, KC_A, KC_Z, KC_SPACE, KC_BACKSPACE in Hk.
  pose (f key := IS_BASIC_KEYCODE key && negb (in_range QK_AUTOCORRECT_ON QK_AUTOCORRECT_TOGGLE key)).
  assert (H : forall (P : Z -> Prop), (forall key, In key (seqZ 4 26 ++ [0x2C; 0x2A]) -> P key) -> P key).
  { intros P HP. apply HP, in_app_iff. destruct Hk as [Hk|[->| ->]]; [left|right; by left|right; right; by left].
    apply list_elem_of_In, elem_of_seqZ. lia. }
  apply (H (fun key => IS_BASIC_KEYCODE key = true /\ in_range QK_AUTOCORRECT_ON QK_AUTOCORRECT_TOGGLE key = false
    /\ process_autocorrect_default_handler key (key_event true) size 0 = (true, key, size, 0)
    /\ letter_of key mods size = (if key =? KC_BACKSPACE then inr (if 0 <? size then size - 1 else size) else inl (key, size)))).
  intros k Hin. cbn in Hin. repeat (destruct Hin as [<-|Hin]; [by split_and!|]). done.
Qed.

Context (v : vial_state E) (n : bool) (locked t : Z) (Hon : Z.testbit (QmkSettings.keymap_config (settings v)) AUTOCORRECT_ENABLE = true).
Context (dict : list (list Z * (nat * list Z))) (Hdict : dictionary autocorrect_data = Some dict)
        (Hprint : Forall (fun e => Forall printable e.2.2) dict).
#[local] Abbreviation m0 := (free_mods locked t).
#[local] Abbreviation model := (type_key dict AUTOCORRECT_MIN_LENGTH AUTOCORRECT_MAX_LENGTH).

(** The firmware is where the model is. *)
Inductive tracks (p : writer) s : Prop :=
| mk_tracks l : idle v n m0 l s.1 -> host_text l = written p -> buffer_ok (recent p) s.2 ->
    Forall word_key (recent p) -> tracks p s.

Lemma idle_enabled m l k : idle v n m l k -> kb_mods k = m /\ autocorrect_is_enabled k = true.
Proof using Hon.
  intros Hk. destruct (idle_host _ _ _ _ _ Hk) as (_ & H1 & H2 & _). split; [done|].
  unfold autocorrect_is_enabled, keymap_word. by rewrite H2.
Qed.

Lemma idle_unregister code m l k : IS_BASIC_KEYCODE code = true -> idle v n m l k -> idle v n m l (unregister_code code k).
Proof.
  intros Hb [out Hk Ho Hq <-]. destruct (blank_key n code Hb) as (_ & _ & Hd & _).
  apply (mk_idle _ _ _ _ _ (push (report_of m (blank n)) out)).
  - rewrite <- Hd at 1 2. by apply kbd_unregister.
  - done.
  - rewrite report_blank. apply quiet_no_key.
  - by rewrite strokes_push, report_blank, no_key_strokes, app_nil_r.
Qed.

Lemma idle_backspaces b l k : idle v n m0 l k ->
  idle v n m0 (l ++ replicate b (0, KC_BACKSPACE)) (Nat.iter b (tap_code KC_BACKSPACE) k).
Proof.
  intros Hk. induction b as [|b IH]; [by rewrite app_nil_r|].
  rewrite replicate_S_end, app_assoc. cbn [Nat.iter].
  by apply (idle_tap v n KC_BACKSPACE m0).
Qed.

(** The entries of the table against the dictionary. *)
Lemma search_dictionary code keys : pgm_read autocorrect_data 0 = Some code -> Forall (fun key => key <> 0) keys ->
  match lookup_typo dict keys with
  | Some (_, (b, text)) =>
      exists state code' rest, search autocorrect_data keys 0 code = Some (Some state)
        /\ pgm_read autocorrect_data state = Some code' /\ b = Z.to_nat (code' .& 63)
        /\ drop (Z.to_nat (state + 1)) autocorrect_data = text ++ 0 :: rest /\ Forall printable text
  | None => search autocorrect_data keys 0 code = Some None
  end.
Proof using Hsmall Hbytes Hdict Hprint.
  intros Hc Hkeys. unfold dictionary in Hdict. rewrite Hc in Hdict. cbn [mbind option_bind] in Hdict.
  destruct (truthy (code .& 128)) eqn:El; [done|]. destruct (entries autocorrect_data 128 0) as [es|] eqn:Ee; [|done].
  cbn [mbind option_bind] in Hdict. rewrite (search_entries autocorrect_data Hsmall Hbytes 128 0 code es keys Ee Hc El Hkeys).
  clear Ee. apply mapM_Some_1 in Hdict. unfold lookup_typo. revert Hprint.
  induction Hdict as [|[path state] [path' [b text]] es dict' He Hrest IH]; intros Hp; [done|].
  apply list.Forall_cons in Hp as [Hp1 Hp2]. cbn [snd fst] in He. destruct (correction autocorrect_data state) as [c|] eqn:Ec; [|done].
  cbn [mbind option_bind] in He. injection He as <- ->. cbn [List.find fst]. case_bool_decide; [|by apply IH].
  unfold correction in Ec. destruct (pgm_read autocorrect_data state) as [code'|] eqn:Er; [|done]. cbn [mbind option_bind] in Ec.
  destruct (cstring _) as [text'|] eqn:Es; [|done]. injection Ec as <- <-.
  assert (Hcs : forall l x, cstring l = Some x -> exists rest, l = x ++ 0 :: rest).
  { clear. induction l as [|c l IH]; intros x Hx; [done|]. cbn in Hx. destruct (Z.eqb_spec c 0) as [->|].
    - injection Hx as <-. by exists l.
    - destruct (cstring l) as [x'|]; [|done]. injection Hx as <-. destruct (IH _ eq_refl) as [rest ->]. by exists rest. }
  destruct (Hcs _ _ Es) as [rest Hr]. by exists state, code', rest.
Qed.

(** What [process_autocorrect] does on the press of a word key. *)
Lemma correct_press_eq key k a l : word_key key -> idle v n m0 l k ->
  process_autocorrect key (key_event true) (k, a) =
  match (if key =? KC_BACKSPACE then inr (if 0 <? typo_buffer_size a then typo_buffer_size a - 1 else typo_buffer_size a)
         else inl (key, typo_buffer_size a)) with
  | inr size => Some (true, (k, set_size size a))
  | inl (key, size) =>
      let a := append_key key (set_size size a) in
      if typo_buffer_size a <? AUTOCORRECT_MIN_LENGTH then Some (true, (k, a))
      else
        code ← pgm_read autocorrect_data 0;
        found ← search autocorrect_data (rev (slice (typo_buffer a) 0 (typo_buffer_size a))) 0 code;
        match found with
        | None => Some (true, (k, a))
        | Some state => correct_typo key state (k, a)
        end
  end.
Proof using Hon.
  intros Hw Hk. destruct (word_key_plain key 0 (typo_buffer_size a) Hw) as (_ & Hr & Hd & Hl).
  destruct (idle_enabled _ _ _ Hk) as [Hm He]. unfold process_autocorrect. rewrite Hr, He, Hm.
  change (real_mods m0 .| oneshot_mods m0) with 0. change (pressed_of (key_event true)) with true. cbn [andb negb].
  by rewrite Hd, Hl.
Qed.
Lemma correct_release_eq key k a l : word_key key -> idle v n m0 l k ->
  process_autocorrect key (key_event false) (k, a) = Some (true, (k, a)).
Proof using Hon.
  intros Hw Hk. destruct (word_key_plain key 0 0 Hw) as (_ & Hr & _). destruct (idle_enabled _ _ _ Hk) as [_ He].
  unfold process_autocorrect. by rewrite Hr, He.
Qed.

(** The rest of a key stroke, after the press was looked at. *)
Lemma run_key_rest hold key (go : bool) s s1 l : word_key key ->
  process_autocorrect key (key_event true) s = Some (go, s1) -> idle v n m0 l s1.1 ->
  exists k', run_key hold s key = Some (k', s1.2) /\ idle v n m0 (if go then l ++ [(0, key)] else l) k'.
Proof using Hon.
  intros Hw Hp Hk. destruct (word_key_plain key 0 0 Hw) as (Hb & _). unfold run_key. rewrite Hp. cbn [mbind option_bind fst snd].
  destruct s1 as [k1 a1]. cbn [fst snd] in *.
  assert (Hr : process_autocorrect key (key_event false) (wait_ms hold (when go (register_code key) k1), a1)
               = Some (true, (wait_ms hold (when go (register_code key) k1), a1))).
  { unfold process_autocorrect. destruct (word_key_plain key 0 0 Hw) as (_ & -> & _). cbn [andb].
    assert (He : autocorrect_is_enabled (wait_ms hold (when go (register_code key) k1)) = true).
    { destruct go; [|by apply (idle_enabled m0 l), idle_wait].
      destruct Hk as [out Hk Ho _ _]. cbn [when]. destruct (register_calm key k1 Hb ltac:(by rewrite (kbd_mods _ _ _ _ _ Hk))) as [h ->].
      change (Z.testbit (QmkSettings.keymap_config (settings (kb_vial k1))) AUTOCORRECT_ENABLE = true).
      by rewrite (kbd_vial _ _ _ _ _ Hk). }
    by rewrite He. }
  rewrite Hr. cbn [mbind option_bind fst snd when]. eexists. split; [reflexivity|]. destruct go.
  - by apply (idle_tap_delay v n key hold m0).
  - by apply idle_unregister, idle_wait.
Qed.

(** A typo is corrected when there is a place for the corrected word. *)
Lemma correct_types key state code b text rest k keys a l :
  pgm_read autocorrect_data state = Some code -> b = Z.to_nat (code .& 63) ->
  drop (Z.to_nat (state + 1)) autocorrect_data = text ++ 0 :: rest -> Forall printable text -> idle v n m0 l k ->
  buffer_ok keys a -> Forall word_key keys -> keys <> [] -> List.last keys 0 = key ->
  if has_place AUTOCORRECT_MAX_LENGTH keys key b text then
    exists k', correct_typo key state (k, a)
               = Some (key =? KC_SPACE, (k', if key =? KC_SPACE then mk_ac (updZ (typo_buffer a) 0 KC_SPACE) 1 else set_size 0 a))
      /\ idle v n m0 (l ++ replicate b (0, KC_BACKSPACE) ++ concat (map (char_strokes (layout := us_layout)) text)) k'
  else correct_typo key state (k, a) = None.
Proof using Hmax.
  intros Hc -> Hr Ht Hk Hb Hw Hne Hlast.
  assert (Hs : cstring (text ++ 0 :: rest) = Some text).
  { apply cstring_zeros. eapply list.Forall_impl; [exact Ht|]. intros c Hp. unfold printable in Hp. lia. }
  pose proof (correct_chars_place Hmax keys a (code .& 63) text Hb Hne ltac:(apply Z.land_nonneg; lia)) as Hplace.
  rewrite Hlast in Hplace. specialize (Hplace ltac:(eapply list.Forall_impl; [exact Hw|]; intros x Hx;
    unfold word_key, KC_A, KC_Z, KC_SPACE, KC_BACKSPACE in Hx; lia)).
  unfold correct_typo. rewrite Hc. cbn [mbind option_bind]. rewrite Hr, Hs. cbn [mbind option_bind].
  destruct (has_place _ _ _ _ _); [|by rewrite Hplace]. destruct Hplace as [correct ->]. cbn [mbind option_bind].
  unfold apply_autocorrect, send_string_with_delay.
  destruct (send_string_types v n locked t text rest SEND_STRING_P_DELAY (length (text ++ 0 :: rest)) _ _
              ltac:(eapply list.Forall_impl; [exact Ht|]; intros c Hp; split; [by apply printable_char|unfold printable in Hp; lia])
              ltac:(rewrite length_app; cbn [length]; lia) (idle_backspaces (Z.to_nat (code .& 63)) l k Hk)) as (k' & -> & Hk').
  cbn [mbind option_bind]. exists k'. rewrite <- app_assoc in Hk'. split; [by destruct (key =? KC_SPACE)|done].
Qed.

(** A key that ends no typo. *)
Lemma key_passes hold key p s keys a1 l : word_key key -> process_autocorrect key (key_event true) s = Some (true, (s.1, a1)) ->
  idle v n m0 l s.1 -> host_text l = written p -> buffer_ok keys a1 -> Forall word_key keys ->
  exists s', run_key hold s key = Some s' /\ tracks (mk_writer keys (edit (written p) (0, key))) s'.
Proof using Hon.
  intros Hkey Hp Hk Hl Hb Hw. destruct (run_key_rest hold key true _ _ l Hkey Hp Hk) as (k' & E' & K').
  eexists. split; [exact E'|]. eapply mk_tracks; [exact K'| |done|done]. by rewrite host_text_app, Hl.
Qed.

(** A key that ends a typo. *)
Lemma corrects hold key p s keys a1 l state code b text rest : word_key key ->
  process_autocorrect key (key_event true) s = correct_typo key state (s.1, a1) ->
  pgm_read autocorrect_data state = Some code -> b = Z.to_nat (code .& 63) ->
  drop (Z.to_nat (state + 1)) autocorrect_data = text ++ 0 :: rest -> Forall printable text ->
  idle v n m0 l s.1 -> host_text l = written p -> buffer_ok keys a1 -> Forall word_key keys -> keys <> [] ->
  List.last keys 0 = key ->
  if has_place AUTOCORRECT_MAX_LENGTH keys key b text then
    exists s', run_key hold s key = Some s' /\
      tracks (let fixed := take (length (written p) - b) (written p) ++ text in
              if key =? KC_SPACE then mk_writer [KC_SPACE] (edit fixed (0, KC_SPACE)) else mk_writer [] fixed) s'
  else run_key hold s key = None.
Proof using Hmax Hon.
  intros Hkey Hp Hr Hbk Hd Ht Hk Hl Hb Hw Hne Hlast.
  pose proof (correct_types key state code b text rest s.1 keys a1 l Hr Hbk Hd Ht Hk Hb Hw Hne Hlast) as Hc.
  destruct (has_place _ _ _ _ _); [|unfold run_key; by rewrite Hp, Hc]. destruct Hc as (k1 & E1 & K1).
  rewrite E1 in Hp. destruct (run_key_rest hold key _ _ _ _ Hkey Hp K1) as (k' & E' & K'). eexists. split; [exact E'|].
  assert (Htext : host_text (l ++ replicate b (0, KC_BACKSPACE) ++ concat (map (char_strokes (layout := us_layout)) text))
                  = take (length (written p) - b) (written p) ++ text).
  { rewrite host_text_app, Hl, foldl_app, edit_backspaces. by apply edit_text. }
  destruct (buffer_reset Hmax KC_SPACE _ _ Hb) as [B1 B2]. cbv zeta.
  destruct (Z.eqb_spec key KC_SPACE) as [->|Hsp]; (eapply mk_tracks; [exact K'| |done|]); cbn [recent written].
  - by rewrite host_text_app, Htext.
  - by repeat constructor.
  - done.
  - constructor.
Qed.

Lemma remember_nonempty max key keys : remember max key keys <> [].
Proof using. unfold remember. case_if; by destruct keys as [|? []]. Qed.
Lemma remember_last max key keys : List.last (remember max key keys) 0 = key.
Proof using. unfold remember. case_if; by rewrite List.last_last. Qed.

Lemma key_types hold p s key : tracks p s -> word_key key ->
  match model p key with
  | Some p' => exists s', run_key hold s key = Some s' /\ tracks p' s'
  | None => run_key hold s key = None
  end.
Proof using Hmax Hsmall Hbytes Hon Hdict Hprint.
  intros [l Hk Hl Hb Hw] Hkey. destruct s as [k a]. cbn [fst snd] in *. pose proof (correct_press_eq key k a l Hkey Hk) as Hp.
  unfold type_key. destruct (Z.eqb_spec key KC_BACKSPACE) as [->|Hne].
  - apply (key_passes hold KC_BACKSPACE p (k, a) _ _ l Hkey Hp Hk Hl); [by apply buffer_backspace|].
    clear -Hw. induction Hw as [|x xs Hx Hxs IH]; [constructor|]. destruct xs; [constructor|]. cbn. by constructor.
  - pose proof (buffer_append Hmax key _ _ Hb) as Hb'.
    assert (Ha : set_size (typo_buffer_size a) a = a) by (by destruct a). rewrite Ha in Hp. cbv zeta in *.
    set (a1 := append_key key a) in *. set (keys := remember AUTOCORRECT_MAX_LENGTH key (recent p)) in *.
    assert (Hlen : lenZ keys = typo_buffer_size a1) by (destruct Hb' as [_ Hs <-]; apply lenZ_slice; lia).
    assert (Hwk : Forall word_key keys).
    { unfold keys, remember. case_if; apply list.Forall_app; (split; [|by constructor]); [by apply Forall_drop|done]. }
    rewrite (buffer_keys _ _ Hb'), <- Hlen in Hp. destruct (lenZ keys <? AUTOCORRECT_MIN_LENGTH).
    + exact (key_passes hold key p (k, a) keys a1 l Hkey Hp Hk Hl Hb' Hwk).
    + assert (Hcode : exists code, pgm_read autocorrect_data 0 = Some code).
      { unfold dictionary in Hdict. destruct (pgm_read autocorrect_data 0) as [code|]; [by exists code|done]. }
      destruct Hcode as [code Hcode]. rewrite Hcode in Hp. cbn [mbind option_bind] in Hp.
      assert (Hnz : Forall (fun key => key <> 0) (rev keys)).
      { apply list.Forall_forall. intros x Hx. rewrite list.Forall_forall in Hwk. apply list_elem_of_In, in_rev, list_elem_of_In in Hx.
        specialize (Hwk x Hx). unfold word_key, KC_A, KC_Z, KC_SPACE, KC_BACKSPACE in Hwk. lia. }
      pose proof (search_dictionary code (rev keys) Hcode Hnz) as Hs.
      destruct (lookup_typo dict (rev keys)) as [[path [b text]]|].
      * destruct Hs as (state & code' & rest & Hs & Hr & Hbk & Hd & Ht). rewrite Hs in Hp.
        pose proof (corrects hold key p (k, a) keys a1 l state code' b text rest Hkey Hp Hr Hbk Hd Ht Hk Hl Hb' Hwk
                      (remember_nonempty _ _ _) (remember_last _ _ _)) as Hcor.
        by destruct (has_place _ _ _ _ _).
      * rewrite Hs in Hp. exact (key_passes hold key p (k, a) keys a1 l Hkey Hp Hk Hl Hb' Hwk).
Qed.

#[local] Abbreviation models p keys := (foldl (fun typed key => w ← typed; model w key) p keys).

Lemma models_none keys : models None keys = None.
Proof using. by induction keys. Qed.
Lemma run_none hold keys : foldl (fun typed key => s ← typed; run_key hold s key) None keys = None.
Proof using. by induction keys. Qed.

Lemma keys_type hold keys : forall p s, tracks p s -> Forall word_key keys ->
  match models (Some p) keys with
  | Some p' => exists s', run_keys hold s keys = Some s' /\ tracks p' s'
  | None => run_keys hold s keys = None
  end.
Proof using Hmax Hsmall Hbytes Hon Hdict Hprint.
  induction keys as [|key keys IH]; intros p s Hs Hk; [by exists s|]. apply list.Forall_cons in Hk as [Hk1 Hk2].
  pose proof (key_types hold p s key Hs Hk1) as H1. unfold run_keys. cbn [foldl mbind option_bind].
  destruct (model p key) as [p1|].
  - destruct H1 as (s1 & -> & H1). by apply IH.
  - rewrite H1, models_none. apply run_none.
Qed.
End typing.

(** C37: autocorrection corrects the typos of its dictionary and nothing else. Let
    the table hold a dictionary of printable corrections, and let any letters,
    spaces and backspaces be typed on a keyboard at rest with autocorrection on.
    No access leaves the table, and the text of the host is that of a writer who
    remembers the last keys and, whenever a typo of the dictionary ends them,
    replaces its wrong end: the backspaces and the text sent, the key that
    completed the typo held back or, if a space, passed on, and the buffer begun
    anew. No key is left down. The writer stops at a typo whose correction takes
    back more letters than its last word has or does not fit into the array of
    the corrected word, and the firmware writes outside the array just there; the
    default table has one such typo. *)
Theorem autocorrect_types {E : Type} {eeprom : Eeprom E} {cfg : KeymapConfig} {mcfg : MouseKeyConfig}
    {qcfg : QmkSettingsConfig} {acfg : AutocorrectConfig} (k : kb E) (dict : list (list Z * (nat * list Z))) (hold : Z) (keys : list Z) :
  1 <= AUTOCORRECT_MAX_LENGTH <= 127 -> lenZ autocorrect_data <= 65536 -> bytes autocorrect_data ->
  dictionary autocorrect_data = Some dict -> Forall (fun e => Forall printable e.2.2) dict ->
  at_rest k -> autocorrect_is_enabled k = true -> Forall word_key keys ->
  match type_keys dict AUTOCORRECT_MIN_LENGTH AUTOCORRECT_MAX_LENGTH keys with
  | Some p =>
      exists s', run_keys hold (k, autocorrect_start) keys = Some s'
        /\ host_text (strokes (history s'.1)) = written p
        /\ forall key, byte_range key -> report_pressed (shown s'.1) key = false
  | None => run_keys hold (k, autocorrect_start) keys = None
  end.
Proof.
  intros [Hmax _] Hsmall Hbytes Hdict Hprint Hk Hon Hkeys.
  assert (H0 : tracks (kb_vial k) (nkro_of k) 0 0 (mk_writer [KC_SPACE] []) (k, autocorrect_start)).
  { assert (Hl : lenZ (memset 0 AUTOCORRECT_MAX_LENGTH) = AUTOCORRECT_MAX_LENGTH) by (unfold memset, lenZ; rewrite length_replicate; lia).
    apply (mk_tracks _ _ _ _ _ _ []); [by apply rest_idle|done| |by repeat constructor].
    constructor; cbn [typo_buffer typo_buffer_size autocorrect_start snd recent]; [by rewrite lenZ_updZ|lia|].
    rewrite slice_1. by rewrite nthZ_updZ_eq by lia. }
  pose proof (keys_type Hmax Hsmall Hbytes (kb_vial k) (nkro_of k) 0 0 Hon dict Hdict Hprint hold keys _ _ H0 Hkeys) as H.
  unfold type_keys. destruct (foldl _ _ keys) as [p|]; [|exact H]. destruct H as (s' & E' & [l Kl Hl _ _]).
  exists s'. destruct (idle_host _ _ _ _ _ Kl) as (-> & _ & _ & Hp). by split_and!.
Qed.

(** ** The table of the source *)

Definition default_dictionary : list (list Z * (nat * list Z)) := default [] (dictionary default_data).
Definition keys_of (word : String.string) : list Z :=
  map (fun a => let c := Z.of_nat (Ascii.nat_of_ascii a) in if c =? 0x20 then KC_SPACE else KC_A + (c - 0x61)) (String.list_ascii_of_string word).

Lemma default_table : dictionary default_data = Some default_dictionary /\ length default_dictionary = 70%nat.
Proof. split; vm_compute; reflexivity. Qed.

Section witnesses.
#[local] Existing Instance KeymapExample.config.
#[local] Existing Instance KeymapExample.config_ok.
#[local] Existing Instance KeymapExample.laws.
#[local] Existing Instance MouseKey.mcfg.
#[local] Existing Instance ViaExample.qcfg.
#[local] Existing Instance default_autocorrect.

Definition correcting_vial : vial_state KeymapExample.store :=
  Vial.set_settings (QmkSettings.set_keymap_config 0x1400 (settings example_vial)) example_vial.
Definition correcting_kb : kb KeymapExample.store := set_vial correcting_vial example_kb.

(** The typo [ the the ] is corrected by four backspaces, but its last word has
    three letters: the corrected word is written before the array that is to hold
    it. *)
Lemma default_table_writes_before :
  (fun e => e.2) <$> lookup_typo default_dictionary (rev (keys_of " the the "%string)) = Some (4%nat, [])
  /\ run_keys 30 (correcting_kb, autocorrect_start) (keys_of "the the "%string) = None.
Proof. split; vm_compute; reflexivity. Qed.

Lemma autocorrect_types_witness :
  exists s', run_keys 30 (correcting_kb, autocorrect_start) (keys_of "i recieve it the "%string) = Some s'
    /\ host_text (strokes (history s'.1)) = map (fun a => Z.of_nat (Ascii.nat_of_ascii a)) (String.list_ascii_of_string "i receive it the "%string).
Proof.
  pose proof (autocorrect_types correcting_kb default_dictionary 30 (keys_of "i recieve it the "%string)) as H.
  assert (Ht : match type_keys default_dictionary AUTOCORRECT_MIN_LENGTH AUTOCORRECT_MAX_LENGTH (keys_of "i recieve it the "%string) with
               | Some p => written p = map (fun a => Z.of_nat (Ascii.nat_of_ascii a)) (String.list_ascii_of_string "i receive it the "%string)
               | None => False
               end) by (vm_compute; reflexivity).
  destruct (type_keys _ _ _ _) as [p|]; [|contradiction].
  destruct H as (s' & H1 & H2 & _); [..|exists s'; split; [exact H1|rewrite H2; exact Ht]].
  - split; vm_compute; discriminate.
  - vm_compute. discriminate.
  - apply list.Forall_forall. intros x Hx.
    assert (Hb : forallb (fun x => (0 <=? x) && (x <? 256)) default_data = true) by (vm_compute; reflexivity).
    rewrite forallb_forall in Hb. apply list_elem_of_In, Hb, andb_true_iff in Hx. lia.
  - apply default_table.
  - apply list.Forall_forall. intros e He. apply list.Forall_forall. intros c Hc.
    assert (Hb : forallb (fun e => forallb (fun x => (32 <=? x) && (x <=? 126)) e.2.2) default_dictionary = true) by (vm_compute; reflexivity).
    rewrite forallb_forall in Hb. apply list_elem_of_In, Hb in He. rewrite forallb_forall in He.
    apply list_elem_of_In, He, andb_true_iff in Hc. unfold printable. lia.
  - split_and!; reflexivity.
  - reflexivity.
  - repeat first [apply Forall_nil_2 | apply Forall_cons_2; [unfold word_key; vm_compute; intuition discriminate|]].
Defined.
End witnesses.
